(* ===== verification/_CoqProject ===== *)
-Q . S2P
Prelude.v
GoLib.v
GoFs.v
Gcm.v
GoJson.v
Sha256.v
Netconf.v
Nftables.v
DnsProxy.v
Scheduler.v
Autoscale.v
Gc.v
Cas.v
Wire.v
Host.v
Guarded.v
Ociroot.v
Vsock.v
SandboxApi.v
Kms.v
Firecracker.v
Storecrypt.v
Volume.v
Verify.v
Workspace.v
Agent.v
AgentFacts.v
Link.v
Travel.v
Rendezvous.v
Metering.v
Journal.v
Engine.v
EngineSafety.v
EngineFork.v
Daemon.v
EngineRecovery.v
Husk.v
System.v
Controller.v
ClaimController.v
ClaimSafety.v
ClaimExamples.v
HuskPod.v
PoolController.v
PoolSafety.v
ForkController.v
ForkSafety.v
WorkspaceController.v
WorkspaceSafety.v
