(* ===== verification/Prelude.v ===== *)
(** * mitos: verification of the sandbox control plane and node engine

    mitos runs untrusted code in Firecracker microVMs that are forked from
    memory snapshots.  On every node a daemon, forkd, owns a fork engine
    (internal/fork) which builds templates, forks and terminates VMs through the
    Firecracker client (internal/firecracker), gives every fork its own network
    identity (internal/netconf, internal/network), name-based egress
    (internal/dnsproxy) and volumes (internal/volume), keeps snapshots in a
    content-addressed store (internal/cas) that nodes pull from each other, and
    refuses snapshots it cannot verify or restore (internal/fork/verify.go,
    internal/snapcompat).  forkd serves the engine over gRPC and the running
    sandboxes over an HTTP API behind bearer tokens (internal/daemon), talking
    to an agent in each guest (internal/vsock).  Templates can lie in encrypted
    containers (internal/storecrypt) whose keys are wrapped (internal/kms).  A
    sandbox's workspace is captured into and restored from a chunk store
    (internal/workspace), and may be pushed to a git remote.  The root disk of a
    template is made from an OCI image (internal/ociroot).  A second runtime, the
    husk pod (internal/husk), holds one VM that is activated in place.  Inside
    every guest an agent runs as init (guest/agent) and does what the host asks.
    Kubernetes controllers (internal/controller) reconcile claims, forks, pools and
    workspaces: they keep a registry of nodes, place claims on nodes or in husk
    pods, scale warm pools, commit and prune revisions, and collect what nothing
    wants any more.  Paths below are under src/.

    ** How Go code is modelled

    - A pure function is a Rocq function under its Go name.  [int], [int32],
      [uint32] are [Z] with the wrap-around written out ([i32], [i64], [u32] of
      this file); strings and byte slices are [string] and [list ascii]; an
      IP address is a list of bytes, empty for nil; maps and sets are [gmap] and
      [gset].  The order in which Go ranges over a map is an argument.
    - [(T, error)] is [res E T], with an inductive [E] of the failures the code
      distinguishes; error texts are left out.
    - Code that acts on the node is a [prog] (Host): a tree of critical sections
      on the Go memory and of host calls, whose answers the environment chooses.
      [wp] states what holds whatever the host answers, [run] executes a program
      against a concrete host, and [pool_step] interleaves the programs of
      concurrent requests at every critical section and host call; [safe] with
      its owned tokens proves invariants of all interleavings.
    - The standard library is modelled as far as the code uses it (GoLib, GoFs,
      GoJson, Sha256, Gcm).  Where a library function is only modelled on part of its
      inputs, the rest is a function argument; third-party code is an argument
      or a type class.

    ** Files

    - Prelude: errors, machine integers, tactics, list lemmas.  GoLib: strings,
      numbers, IP addresses, text scanning.  GoFs: paths and files.  GoJson: the
      JSON the code writes and reads.  Sha256: the hash, executable.  Gcm: AES-GCM,
      executable, with what opens being what was sealed.
    - Netconf: [Alloc], the /30 identity allocator of netconf/identity.go.  Every
      identity is well-formed, live ones are disjoint, exhaustion is exact, and
      re-marking recorded identities restores the allocation.
    - Nftables: [Allow], the allowlist parsers, [Nft], the rendered rules with a
      packet semantics, and [Apply], setup and teardown, of netconf/nftables.go,
      netconf/commands.go and network/network_apply.go.  What a deny chain lets
      through exactly, and where spoofed packets escape it.
    - DnsProxy: the registry, the pinner and the query handler of dnsproxy.  A
      query is answered and pinned exactly when the asking sandbox's allowlist
      has the name.
    - Scheduler: [Registry], node_registry.go and scheduler.go, and [Discovery],
      forkd_discovery.go.  The node selected is admissible and best, independent
      of map order; connections and probe failures are accounted for.
    - Autoscale: warmpool_autoscale.go.  Gc: gc.go and finalizer.go, which
      terminate orphans and only orphans.
    - Cas: chunks, manifests, the store, verification, eviction and transfer of
      internal/cas.  What is put comes back, what is pulled is what was asked
      for, eviction spares what is pinned or referenced.
    - Wire: the messages and objects that cross a process boundary.
    - Host: programs over the node, their logic, interleavings.  Guarded: programs
      that make a call only after others, alone and in every interleaving.
    - Ociroot: [Ociroot], ociroot and fork/imagebuild.go, over [Tree], a file system
      with symbolic and hard links.  [Contained]: a build from an untrusted image
      changes nothing on the host but the disk it makes, and under which provisos;
      [Sizing]: the disk has room for the files; [OciExamples]: the images that
      break the provisos reach the host.
    - Vsock: vsock/client.go, requests and streams to the guest agent.  A streamed
      command returns exactly what the guest streamed, and what two requests
      on one connection can do to each other.
    - SandboxApi: daemon/sandbox_api.go, pty.go and audit.go.  [GateFacts]: a
      request is served exactly behind its sandbox's token; [StreamCap]: the
      stream cap holds in every interleaving.
    - Kms: [Kms], kms/local.go; [KeyMem] and [Stash], the key providers of
      fork/encryption.go and storecrypt/key.go; [EncSecret],
      controller/enc_key_secret.go.  Wrapping is exact, keys that are forgotten
      are wiped, and concurrent reconciles agree on one key.
    - Firecracker: [Uid], [Jail], [Client], [Template] of firecracker/jailer.go,
      validate.go, client.go and template.go.  A launch writes only inside its
      jail and exposes only allowed files, the readiness poll ends, a template is
      snapshotted only paused and after its init commands succeeded.
    - Storecrypt: storecrypt/container.go over a model of what cryptsetup, mkfs
      and mount do.  Creation is all or nothing, the key is only ever on
      standard input, and what was shredded cannot be opened.
    - Volume: [Backend] and [ForkVolumes] of volume/backend.go and the volume part
      of fork/engine.go.  A fork's volumes are its own, or shared read-only.
    - Verify: [Snapcompat], snapcompat; [Verify], fork/verify.go and the gates and
      PullTemplate of fork/engine.go as functions of the files.  An unmarked
      template passes the gate only byte for byte as it was recorded; a pull
      leaves a verified template or nothing.
    - Workspace: [Outputs], [Blobs], [Envelope], [Transfer] of workspace/outputs.go,
      s3store.go, encryption.go and transfer.go.  [Stores]: the plain, the
      encrypted and the bucket store keep one contract; [Facts]: over any store
      that does, capture and restore are exact, an archive cannot write outside
      its directory, and digests and diffs tell revisions apart.
    - Agent: guest/agent and guestenv, every handler and the loop of a connection.
      AgentFacts: what the agent does and that its answers are true: the environment
      of a session, the fork notification, the transfer, runs of code, connections.
    - Link: the host's client and the agent on one connection; a streamed command
      reaches the host as the guest's process wrote it.  Travel: the agent on a file
      tree, and a workspace from one guest's tree through capture and restore to
      another's.
    - Rendezvous: workspace/git.go; the push token stays in one file.
    - Metering: metering/report.go and fork/capacity.go.  Journal:
      fork/journal.go, whose records read back as written.
    - Engine: the whole of fork/engine.go, reconcile.go and the engine side of
      encryption.go over the seams (network manager, container manager, key
      provider, image builder), which are type classes; the Linux network manager
      of network/network_linux.go is an instance.
    - EngineSafety: [LawfulSeams], what the theorems assume of the seams (they
      touch no VM and no memory of the engine but the template bookkeeping); for
      all interleavings of requests, [Capacity], the sandbox ceiling, and [Uids],
      the exclusiveness of jail uids.
    - EngineFork: whatever the host answers, [Traffic], a forked VM is resumed
      only on its own disks, and [Ledger], a fork is all or nothing and its
      termination gives everything back.
    - Daemon: [Server], daemon/server.go, grpc_service.go, authz.go and
      validate.go over the [ForkEngine] interface; [Contract], what the server
      needs of an engine; [Node], the engine as an instance and the Fork RPC over
      the whole stack, which serves a reseeded guest behind its token or leaves
      nothing.
    - EngineRecovery: a restarted daemon adopts exactly the VMs that still run.
    - Husk: husk/stub.go, verify.go, control.go and netcontrol.go with the hook of
      cmd/husk-stub.  Activation fails closed, a fork snapshot resumes its
      source, and a pod never owns two VMs.
    - System: the node's and the husk's programs with the agents that answer them; a
      fork or an activation that succeeded reached a guest that took its entropy.
    - Controller: what the reconcilers share.  ClaimController, ClaimSafety,
      ClaimExamples: sandboxclaim_controller.go, huskdrain.go, workspace_binding.go
      and the claim side of huskpod.go; a Ready claim is backed by a sandbox, a
      husk pod serves one claim, a claim is released after its sandbox was reaped.
    - HuskPod: the pod specifications of huskpod.go.  PoolController, PoolSafety:
      sandboxpool_controller.go with huskpdb.go, secret_replication.go and the warm
      pool; the pool is scaled exactly, and what a reconcile may create and delete.
    - ForkController, ForkSafety: sandboxfork_controller.go; when a running sandbox
      may be duplicated and what the status may record.
    - WorkspaceController, WorkspaceSafety: workspace_controller.go and
      workspace_verbs.go; retention deletes exactly what it should, and committed
      revisions and the ancestors of the head are kept.

    ** Fuel and bounds

    Recursion is structural on lists and texts except for the following.  The
    allocators scan at most as many candidates as their range has ([scan],
    [acquire_scan]); the theorems show that a free one is found within it.  The
    readiness poll of the client has fuel for every poll its timeout allows, and
    [waitReady_terminates] shows that it is never used up.  Cutting a file into
    chunks, reading a JSON list and hashing take the length of their input as
    fuel and consume some of the input at every step.  A husk's wait for its guest
    has fuel for every poll of its timeout; [guest_wait_ends] shows that it ends.  The
    lineage of a workspace's head has fuel for every revision, which [lineage_walk]
    shows to be enough.  The events of a run of code come from the driver, which may
    send them without end; [run_code_exact] says that the run ends within its fuel
    or that the driver sent as many lines.  A path is resolved through as many symbolic
    links as the kernel allows, and a directory is made with as many parents as its
    path has.

    ** Not modelled

    The S3 client of workspaces, the accept loops of the servers, the front ends
    (facade, MCP, command lines, REST), certificates, the device plugin, the entry
    points and generated code; PROJECT.json lists every part with the reason.  The
    registry's client, the flattening of image layers, tar encoding, git, cryptsetup
    and mkfs are third-party code and appear as arguments or calls.  Log lines, most
    metrics and contexts are left out.  A Go memory race is not an
    interleaving here: critical sections are those the code's locks delimit. *)
From Stdlib Require Export ZArith Lia Ascii.
From stdpp Require Export base tactics sorting gmap gmultiset strings list option.

#[global] Open Scope Z_scope.
#[global] Arguments String.append : simpl nomatch.

(** ** Errors as values *)

(** A Go function returning [(T, error)] is modelled by [res E T]; [E] is an
    inductive of the error cases the function distinguishes. *)
Inductive res (E A : Type) : Type :=
| Ok (a : A)
| Err (e : E).
Arguments Ok {E A} a.
Arguments Err {E A} e.

Definition res_bind {E A B} (m : res E A) (f : A -> res E B) : res E B :=
  match m with Ok a => f a | Err e => Err e end.

Definition res_map_err {E F A} (f : E -> F) (m : res E A) : res F A :=
  match m with Ok a => Ok a | Err e => Err (f e) end.

Definition is_ok {E A} (m : res E A) : bool :=
  match m with Ok _ => true | Err _ => false end.

Declare Scope go_scope.
Delimit Scope go_scope with go.
Notation "'try' x := m 'in' k" := (res_bind m (fun x => k))
  (at level 10, x pattern, m at level 100, k at level 200) : go_scope.

(** ** Machine integers *)

(** Go integers are [Z] with the wrap-around of their width written out. *)
Definition wrapu (w : Z) (x : Z) : Z := x mod 2 ^ w.
Definition wraps (w : Z) (x : Z) : Z := (x + 2 ^ (w - 1)) mod 2 ^ w - 2 ^ (w - 1).
Definition u8 : Z -> Z := wrapu 8.
Definition u32 : Z -> Z := wrapu 32.
Definition i32 : Z -> Z := wraps 32.
Definition i64 : Z -> Z := wraps 64.

Definition min_i64 : Z := - 2 ^ 63.
Definition max_i64 : Z := 2 ^ 63 - 1.
Definition is_u32 (x : Z) : Prop := 0 <= x < 2 ^ 32.
Definition is_i32 (x : Z) : Prop := - 2 ^ 31 <= x < 2 ^ 31.
Definition is_i64 (x : Z) : Prop := - 2 ^ 63 <= x < 2 ^ 63.

(** ** Hint databases and tactics *)

Create HintDb go discriminated.
#[export] Hint Constants Opaque : go.

(** [case_res] splits on the results of the [res]-valued calls the hypotheses
    or the goal scrutinise and discards the impossible branches. *)
Ltac case_res :=
  repeat match goal with
  | H : context [match ?m with Ok _ => _ | Err _ => _ end] |- _ =>
      let E := fresh "Hres" in destruct m eqn:E; simplify_eq/=
  | |- context [match ?m with Ok _ => _ | Err _ => _ end] =>
      let E := fresh "Hres" in destruct m eqn:E; simplify_eq/=
  end.

(** [split_guard b] splits on one guard of the code, boolean or decidable. *)
Ltac split_guard b :=
  let T := type of b in
  lazymatch T with
  | sumbool _ _ => destruct b; simplify_eq/=
  | bool => let E := fresh "Hif" in destruct b eqn:E; simplify_eq/=
  end.

(** [case_ifs] splits on the guards in hypotheses and goal, innermost first. *)
Ltac case_ifs :=
  repeat match goal with
  | _ : context [if ?b then _ else _] |- _ => split_guard b
  | |- context [if ?b then _ else _] => split_guard b
  end.

(** [zbool] turns the boolean comparisons of the code into propositions. *)
Ltac zbool :=
  repeat match goal with
  | H : Z.ltb _ _ = true |- _ => apply Z.ltb_lt in H
  | H : Z.ltb _ _ = false |- _ => apply Z.ltb_ge in H
  | H : Z.leb _ _ = true |- _ => apply Z.leb_le in H
  | H : Z.leb _ _ = false |- _ => apply Z.leb_gt in H
  | H : Z.eqb _ _ = true |- _ => apply Z.eqb_eq in H
  | H : Z.eqb _ _ = false |- _ => apply Z.eqb_neq in H
  | H : bool_decide _ = true |- _ => apply bool_decide_eq_true in H
  | H : bool_decide _ = false |- _ => apply bool_decide_eq_false in H
  | H : String.eqb _ _ = true |- _ => apply String.eqb_eq in H
  | H : String.eqb _ _ = false |- _ => apply String.eqb_neq in H
  | H : andb _ _ = true |- _ => apply andb_true_iff in H; destruct H
  | H : orb _ _ = false |- _ => apply orb_false_iff in H; destruct H
  | H : negb _ = true |- _ => apply negb_true_iff in H
  | H : negb _ = false |- _ => apply negb_false_iff in H
  end.

(** ** Machine-integer lemmas *)

Lemma wrapu_small w x : 0 <= x < 2 ^ w -> wrapu w x = x.
Proof. apply Z.mod_small. Qed.

Lemma wrapu_bound w x : 0 <= w -> 0 <= wrapu w x < 2 ^ w.
Proof. intros. apply Z.mod_pos_bound. by apply Z.pow_pos_nonneg. Qed.

Lemma u32_small x : is_u32 x -> u32 x = x.
Proof. apply wrapu_small. Qed.

Lemma u32_bound x : is_u32 (u32 x).
Proof. by apply wrapu_bound. Qed.

Lemma wraps_small w x :
  0 < w -> - 2 ^ (w - 1) <= x < 2 ^ (w - 1) -> wraps w x = x.
Proof.
  intros Hw Hx. unfold wraps.
  assert (2 ^ w = 2 * 2 ^ (w - 1)).
  { rewrite <- Z.pow_succ_r by lia. f_equal. lia. }
  rewrite Z.mod_small by lia. lia.
Qed.

Lemma i32_small x : is_i32 x -> i32 x = x.
Proof. intros. apply wraps_small; [lia|exact H]. Qed.

Lemma i64_small x : is_i64 x -> i64 x = x.
Proof. intros. apply wraps_small; [lia|exact H]. Qed.

#[export] Hint Resolve u32_small u32_bound i32_small i64_small : go.

Lemma testbit_wrapu w x n :
  0 <= w -> 0 <= n -> Z.testbit (wrapu w x) n = (n <? w) && Z.testbit x n.
Proof. intros. apply Z.testbit_mod_pow2. done. Qed.

Lemma testbit_high w x n : 0 <= w -> 0 <= x < 2 ^ w -> w <= n -> Z.testbit x n = false.
Proof.
  intros Hw Hx Hn. rewrite <- (wrapu_small w x Hx), testbit_wrapu by lia.
  by destruct (Z.ltb_spec n w); [lia|].
Qed.

Lemma lor_bound w x y :
  0 <= w -> 0 <= x < 2 ^ w -> 0 <= y < 2 ^ w -> 0 <= Z.lor x y < 2 ^ w.
Proof.
  intros Hw Hx Hy. replace (Z.lor x y) with (wrapu w (Z.lor x y)); [by apply wrapu_bound|].
  apply Z.bits_inj'. intros n Hn. rewrite testbit_wrapu, Z.lor_spec by done.
  destruct (Z.ltb_spec n w); [done|]. by rewrite !(testbit_high w) by lia.
Qed.

(** [bit_cases]: normalise the [testbit]s of wrapped and shifted words at the
    bit positions the context fixes, then decide the remaining comparisons. *)
Ltac bit_cases :=
  repeat match goal with
  | |- context [Z.testbit (wrapu _ _) ?m] =>
      first [ rewrite (Z.testbit_neg_r _ m) by lia | rewrite (testbit_wrapu _ _ m) by lia ]
  end;
  rewrite ?Z.shiftr_spec, ?Z.shiftl_spec, ?Z.lor_spec by lia;
  repeat match goal with
  | |- context [Z.ltb ?a ?b] => destruct (Z.ltb_spec a b); try lia
  end;
  simpl; rewrite ?orb_false_r; try done; try (f_equal; lia).

(** ** List lemmas shared by the components *)

Lemma Forall_filter_iff {A} (f : A -> bool) (P : A -> Prop) l :
  Forall P (List.filter f l) <-> Forall (fun x => f x = true -> P x) l.
Proof.
  rewrite !List.Forall_forall. setoid_rewrite filter_In. firstorder auto.
Qed.

Lemma elem_of_filter_bool {A} (f : A -> bool) (l : list A) x :
  x ∈ List.filter f l <-> f x = true /\ x ∈ l.
Proof. rewrite !list_elem_of_In, filter_In. tauto. Qed.
