(* ===== verification/GoLib.v ===== *)
(** * The parts of the Go language and standard library the sources use

    Byte strings ([strings], [strconv], [encoding/hex]), IP addresses ([net]),
    and durations ([time]).  A Go [string] is a Coq [string] (a sequence of
    bytes), a [[]byte] is a [list ascii], a [net.IP] is the list of its bytes
    exactly as in Go: 4 bytes, 16 bytes, or nil (the empty list). *)
From Stdlib Require Import SpecFloat.
From stdpp Require Import pretty.
From S2P Require Import Prelude.

(** ** Bytes *)

Definition byte_z (c : ascii) : Z := Z.of_N (N_of_ascii c).
Definition z_byte (z : Z) : ascii := ascii_of_N (Z.to_N (u8 z)).

Definition in_range (lo hi c : ascii) : bool :=
  (byte_z lo <=? byte_z c) && (byte_z c <=? byte_z hi).
Definition is_digit (c : ascii) : bool := in_range "0" "9" c.
Definition is_lower (c : ascii) : bool := in_range "a" "z" c.
Definition is_upper (c : ascii) : bool := in_range "A" "Z" c.

(** ** Package strings *)

(** [strings.CutPrefix]: the rest of [s] after [pre], when [s] starts with it. *)
Fixpoint cut_prefix (pre s : string) : option string :=
  match pre, s with
  | EmptyString, _ => Some s
  | String c pre', String d s' => if Ascii.eqb c d then cut_prefix pre' s' else None
  | String _ _, EmptyString => None
  end.

(** [strings.CutSuffix]: the part of [s] before [suf], when [s] ends with it. *)
Fixpoint cut_suffix (suf s : string) : option string :=
  if String.eqb s suf then Some EmptyString
  else match s with
       | EmptyString => None
       | String c s' => match cut_suffix suf s' with
                        | Some p => Some (String c p)
                        | None => None
                        end
       end.

Definition has_prefix (pre s : string) : bool :=
  match cut_prefix pre s with Some _ => true | None => false end.
Definition has_suffix (suf s : string) : bool :=
  match cut_suffix suf s with Some _ => true | None => false end.
Definition trim_prefix (pre s : string) : string := default s (cut_prefix pre s).
Definition trim_suffix (suf s : string) : string := default s (cut_suffix suf s).

(** [strings.Contains(s, c)] for a one-byte [c], and [bytealg.IndexByteString]. *)
Fixpoint index_byte (c : ascii) (s : string) : option nat :=
  match s with
  | EmptyString => None
  | String d s' => if Ascii.eqb c d then Some 0%nat else S <$> index_byte c s'
  end.
Definition contains_byte (c : ascii) (s : string) : bool :=
  match index_byte c s with Some _ => true | None => false end.

(** [bytealg.LastIndexByteString]. *)
Fixpoint last_index_byte (c : ascii) (s : string) : option nat :=
  match s with
  | EmptyString => None
  | String d s' => match last_index_byte c s' with
                   | Some i => Some (S i)
                   | None => if Ascii.eqb c d then Some 0%nat else None
                   end
  end.

(** [s[i:]] and [s[i:j]] for in-range indices. *)
Definition slice_from (i : nat) (s : string) : string :=
  String.substring i (String.length s - i) s.
Definition slice (i j : nat) (s : string) : string := String.substring i (j - i) s.

(** [strings.Cut(s, sep)] for a one-byte separator. *)
Fixpoint cut_byte (c : ascii) (s : string) : option (string * string) :=
  match s with
  | EmptyString => None
  | String d s' =>
      if Ascii.eqb c d then Some (EmptyString, s')
      else match cut_byte c s' with
           | Some (p, q) => Some (String d p, q)
           | None => None
           end
  end.

(** [strings.Split(s, sep)] for a one-byte separator: always at least one field. *)
Fixpoint split_byte (c : ascii) (s : string) : list string :=
  match s with
  | EmptyString => [EmptyString]
  | String d s' =>
      if Ascii.eqb c d then EmptyString :: split_byte c s'
      else match split_byte c s' with
           | f :: fs => String d f :: fs
           | [] => [String d EmptyString]
           end
  end.

Fixpoint string_forallb (p : ascii -> bool) (s : string) : bool :=
  match s with
  | EmptyString => true
  | String c s' => p c && string_forallb p s'
  end.

Fixpoint string_map (f : ascii -> ascii) (s : string) : string :=
  match s with
  | EmptyString => EmptyString
  | String c s' => String (f c) (string_map f s')
  end.

Definition is_ascii (s : string) : bool := string_forallb (fun c => byte_z c <? 128) s.
Definition lower_byte (c : ascii) : ascii :=
  if is_upper c then z_byte (byte_z c + 32) else c.

(** [strings.ToLower]: byte-wise on ASCII input.  On other input Go maps code
    points through the Unicode tables; that map is the argument [unicode_lower]
    of every definition that lowercases an arbitrary string. *)
Definition to_lower (unicode_lower : string -> string) (s : string) : string :=
  if is_ascii s then string_map lower_byte s else unicode_lower s.

(** ** Package strconv *)

Fixpoint digits_value (acc : Z) (s : string) : option Z :=
  match s with
  | EmptyString => Some acc
  | String c s' =>
      if is_digit c then digits_value (acc * 10 + (byte_z c - 48)) s' else None
  end.

(** An unsigned decimal literal of at least one digit. *)
Definition parse_digits (s : string) : option Z :=
  match s with EmptyString => None | _ => digits_value 0 s end.

(** [strconv.Atoi] and [strconv.ParseInt(s, 10, 64)]: an optional sign, at least
    one digit, nothing else, and the value fits an int64. *)
Definition atoi (s : string) : option Z :=
  let v := match s with
           | EmptyString => None
           | String c s' =>
               if Ascii.eqb c "-" then Z.opp <$> parse_digits s'
               else if Ascii.eqb c "+" then parse_digits s'
               else parse_digits s
           end in
  match v with
  | Some z => if (min_i64 <=? z) && (z <=? max_i64) then Some z else None
  | None => None
  end.

(** The [%q] verb ([strconv.Quote]): a string of printable ASCII bytes other
    than the quote and the backslash is put between quotes; [quote_other] is the
    escaping of every other string. *)
Definition dquote : string := String (ascii_of_nat 34) EmptyString.
Definition quote_plain (c : ascii) : bool :=
  in_range " " "~" c && negb (byte_z c =? 34) && negb (byte_z c =? 92).
Definition go_quote (quote_other : string -> string) (s : string) : string :=
  if string_forallb quote_plain s then dquote +:+ s +:+ dquote else quote_other s.

(** The newline byte, as a one-byte string. *)
Definition nl : string := String (ascii_of_nat 10) EmptyString.

(** The [%d] verb. *)
Definition format_d (z : Z) : string := pretty z.

Definition hex_digit (n : Z) : ascii :=
  if n <? 10 then z_byte (48 + n) else z_byte (87 + n).

(** [hex.EncodeToString] and the [%x] verb of a byte slice. *)
Fixpoint hex_encode (b : list Z) : string :=
  match b with
  | [] => EmptyString
  | x :: b' => String (hex_digit (x / 16)) (String (hex_digit (x mod 16)) (hex_encode b'))
  end.

(** ** Packages strings and bufio: white space, fields and lines *)

(** The ASCII white space of package strings. *)
Definition is_space (c : ascii) : bool :=
  let z := byte_z c in ((9 <=? z) && (z <=? 13)) || (z =? 32).

Fixpoint trim_left (s : string) : string :=
  match s with
  | String c r => if is_space c then trim_left r else s
  | EmptyString => EmptyString
  end.
Fixpoint trim_right (s : string) : string :=
  match s with
  | EmptyString => EmptyString
  | String c r =>
      match trim_right r with
      | EmptyString => if is_space c then EmptyString else String c EmptyString
      | r' => String c r'
      end
  end.

(** [strings.TrimSpace]; [other] is its behaviour on text that is not ASCII. *)
Definition TrimSpace (other : string -> string) (s : string) : string :=
  if is_ascii s then trim_right (trim_left s) else other s.

(** [strings.Fields] on ASCII text: maximal runs of bytes that are not space. *)
Fixpoint fields_from (cur : string) (s : string) : list string :=
  let flush rest := match cur with EmptyString => rest | _ => cur :: rest end in
  match s with
  | EmptyString => flush []
  | String c r => if is_space c then flush (fields_from EmptyString r)
                  else fields_from (cur +:+ String c EmptyString) r
  end.
Definition Fields (other : string -> list string) (s : string) : list string :=
  if is_ascii s then fields_from EmptyString s else other s.

(** [bufio.ScanLines] through a Scanner with its default buffer: a line that
    does not fit ends the scan. *)
Definition newline : ascii := ascii_of_nat 10.
Definition cr : string := String (ascii_of_nat 13) EmptyString.
Fixpoint fitting (ls : list string) : list string :=
  match ls with
  | [] => []
  | [l] => if String.eqb l EmptyString then []
           else if (65536 <=? Z.of_nat (String.length l)) then [] else [trim_suffix cr l]
  | l :: ls => if (65536 <=? Z.of_nat (String.length l)) then [] else trim_suffix cr l :: fitting ls
  end.
Definition scan_lines (s : string) : list string := fitting (split_byte newline s).

(** The value and error of [strconv.ParseInt(s, 10, 64)]: a syntax error gives 0,
    a value out of range the nearest bound. *)
Inductive num_error := ErrSyntax | ErrRange.

Fixpoint parse_uint (acc : Z) (s : string) : Z * option num_error :=
  match s with
  | EmptyString => (acc, None)
  | String c s' =>
      if negb (is_digit c) then (0, Some ErrSyntax)
      else let v := acc * 10 + (byte_z c - 48) in
           if 2 ^ 64 <=? v then (2 ^ 64 - 1, Some ErrRange) else parse_uint v s'
  end.
Definition ParseInt (s : string) : Z * option num_error :=
  let '(neg, digits) := match s with
                        | String c s' => if Ascii.eqb c "-" then (true, s')
                                         else if Ascii.eqb c "+" then (false, s') else (false, s)
                        | EmptyString => (false, s)
                        end in
  if String.eqb digits EmptyString then (0, Some ErrSyntax)
  else match parse_uint 0 digits with
       | (_, Some ErrSyntax) => (0, Some ErrSyntax)
       | (un, e) =>
           if negb neg && (2 ^ 63 <=? un) then (2 ^ 63 - 1, Some ErrRange)
           else if neg && (2 ^ 63 <? un) then (- 2 ^ 63, Some ErrRange)
           else (if neg then - un else un, e)
       end.

(** ** Package net *)

(** [net.IP]: the address bytes. *)
Abbreviation IP := (list Z).

Definition v4_in_v6_prefix : list Z := [0;0;0;0;0;0;0;0;0;0;255;255].

(** [IP.To4]; nil is the empty list. *)
Definition to4 (ip : IP) : IP :=
  match length ip with
  | 4%nat => ip
  | 16%nat => if decide (take 12 ip = v4_in_v6_prefix) then drop 12 ip else []
  | _ => []
  end.

(** [net.IPv4(a, b, c, d)]: the 16-byte form. *)
Definition IPv4 (a b c d : Z) : IP := v4_in_v6_prefix ++ [a; b; c; d].

(** [IP.Equal]: a 4-byte address equals its 16-byte form. *)
Definition ip_equal (a b : IP) : bool :=
  if Nat.eqb (length a) (length b) then bool_decide (a = b)
  else match length a, length b with
       | 4%nat, 16%nat => bool_decide (take 12 b = v4_in_v6_prefix /\ a = drop 12 b)
       | 16%nat, 4%nat => bool_decide (take 12 a = v4_in_v6_prefix /\ drop 12 a = b)
       | _, _ => false
       end.

(** [IP.String]: dotted decimal for IPv4, [<nil>] for nil; [other_string] is the
    rendering of every other length and of IPv6 addresses (RFC 5952). *)
Definition ip_string (other_string : IP -> string) (ip : IP) : string :=
  match ip with
  | [] => "<nil>"
  | _ => match to4 ip with
         | [a; b; c; d] =>
             format_d a +:+ "." +:+ format_d b +:+ "." +:+ format_d c +:+ "." +:+ format_d d
         | _ => other_string ip
         end
  end.

(** One dotted-decimal field: 1 to 3 digits, no leading zero, at most 255. *)
Definition parse_v4_field (s : string) : option Z :=
  match s with
  | EmptyString => None
  | String c s' =>
      if Ascii.eqb c "0" && negb (String.eqb s' EmptyString) then None
      else match parse_digits s with
           | Some v => if v <=? 255 then Some v else None
           | None => None
           end
  end.

Definition parse_v4 (s : string) : option (Z * Z * Z * Z) :=
  match split_byte "." s with
  | [f1; f2; f3; f4] =>
      match parse_v4_field f1, parse_v4_field f2, parse_v4_field f3, parse_v4_field f4 with
      | Some a, Some b, Some c, Some d => Some (a, b, c, d)
      | _, _, _, _ => None
      end
  | _ => None
  end.

(** [net.ParseIP]: the first of ['.'], [':'] and ['%'] decides the family;
    [parse_v6] is the IPv6 parser. *)
Fixpoint ip_family (s : string) : option ascii :=
  match s with
  | EmptyString => None
  | String c s' =>
      if Ascii.eqb c "." || Ascii.eqb c ":" || Ascii.eqb c "%" then Some c else ip_family s'
  end.

Definition parse_ip (parse_v6 : string -> option IP) (s : string) : option IP :=
  match ip_family s with
  | Some c =>
      if Ascii.eqb c "." then
        match parse_v4 s with Some (a, b, c, d) => Some (IPv4 a b c d) | None => None end
      else if Ascii.eqb c ":" then parse_v6 s
      else None
  | None => None
  end.

(** [net.SplitHostPort]. *)
Inductive addr_error :=
| MissingPort | TooManyColons | MissingBracket | UnexpectedOpen | UnexpectedClose.

Definition split_host_port (s : string) : res addr_error (string * string) :=
  match last_index_byte ":" s with
  | None => Err MissingPort
  | Some i =>
      let finish (host : string) (j k : nat) :=
        if contains_byte "[" (slice_from j s) then Err UnexpectedOpen
        else if contains_byte "]" (slice_from k s) then Err UnexpectedClose
        else Ok (host, slice_from (i + 1) s) in
      match s with
      | String "[" _ =>
          match index_byte "]" s with
          | None => Err MissingBracket
          | Some e =>
              if Nat.eqb (e + 1) (String.length s) then Err MissingPort
              else if Nat.eqb (e + 1) i then finish (slice 1 e s) 1%nat (e + 1)%nat
              else if bool_decide (String.get (e + 1) s = Some ":"%char) then Err TooManyColons
              else Err MissingPort
          end
      | _ =>
          let host := slice 0 i s in
          if contains_byte ":" host then Err TooManyColons else finish host 0%nat 0%nat
      end
  end.

(** ** Package time *)

(** [time.Duration] is an int64 number of nanoseconds; a [time.Time] is [None]
    for the zero time and otherwise nanoseconds since an epoch. *)
Definition second : Z := 1000000000.
Definition minute : Z := 60 * second.
Abbreviation time := (option Z).

(** [t.Sub(u)] saturates at the int64 range. *)
Definition time_sub (t u : Z) : Z := Z.max min_i64 (Z.min max_i64 (t - u)).

(** ** float64 *)

Definition f64_of_int (z : Z) : spec_float := binary_normalize 53 1024 z 0 false.
Definition f64_add (x y : spec_float) : spec_float := SFadd 53 1024 x y.
Definition f64_div (x y : spec_float) : spec_float := SFdiv 53 1024 x y.
Definition f64_mul (x y : spec_float) : spec_float := SFmul 53 1024 x y.
Definition f64_one : spec_float := f64_of_int 1.

(** [int64(f)]: truncation when the value fits; otherwise the result depends on
    the platform and is the argument [conv]. *)
Definition f64_to_int64 (conv : spec_float -> Z) (f : spec_float) : Z :=
  match f with
  | S754_zero _ => 0
  | S754_finite s m e =>
      let v := (if s then -1 else 1) * (if 0 <=? e then Zpos m * 2 ^ e else Zpos m / 2 ^ (- e)) in
      if (min_i64 <=? v) && (v <=? max_i64) then v else conv f
  | _ => conv f
  end.

(** [d.Seconds()]: whole seconds plus the fraction, in float64. *)
Definition duration_seconds (d : Z) : spec_float :=
  f64_add (f64_of_int (Z.quot d second)) (f64_div (f64_of_int (Z.rem d second)) (f64_of_int 1000000000)).

(** ** Lemmas: strings *)

Lemma string_app_nil_r s : s +:+ EmptyString = s.
Proof. induction s; simpl; congruence. Qed.

Lemma string_app_assoc s1 s2 s3 : s1 +:+ (s2 +:+ s3) = (s1 +:+ s2) +:+ s3.
Proof. induction s1; simpl; congruence. Qed.

Lemma string_length_app s1 s2 :
  String.length (s1 +:+ s2) = (String.length s1 + String.length s2)%nat.
Proof. induction s1; simpl; congruence. Qed.

Lemma string_app_inj_r s1 s2 t : s1 +:+ t = s2 +:+ t -> s1 = s2.
Proof.
  intros H. pose proof (f_equal String.length H) as Hl.
  rewrite !string_length_app in Hl.
  revert s2 H Hl. induction s1 as [|c s1 IH]; intros [|d s2]; simpl; intros H Hl; try done; try lia.
  injection H as -> H. f_equal. apply IH; [done|lia].
Qed.

Lemma cut_prefix_spec pre s r : cut_prefix pre s = Some r <-> s = pre +:+ r.
Proof.
  revert s. induction pre as [|c pre IH]; intros s; simpl; [split; congruence|].
  destruct s as [|d s]; [split; congruence|].
  destruct (Ascii.eqb_spec c d) as [->|Hne]; [rewrite IH|]; split; congruence.
Qed.

Lemma cut_prefix_app pre s : cut_prefix pre (pre +:+ s) = Some s.
Proof. by apply cut_prefix_spec. Qed.

Lemma string_app_self p s : s = p +:+ s -> p = EmptyString.
Proof. intros H. symmetry. by apply (string_app_inj_r EmptyString p s). Qed.

Lemma cut_suffix_spec suf s p : cut_suffix suf s = Some p <-> s = p +:+ suf.
Proof.
  revert p. induction s as [|c s IH]; intros p; cbn [cut_suffix].
  - destruct (String.eqb_spec EmptyString suf) as [<-|Hne].
    + rewrite string_app_nil_r. split; congruence.
    + split; [done|]. destruct p, suf; done.
  - destruct (String.eqb_spec (String c s) suf) as [<-|Hne].
    + split; [intros [= <-]; done|]. by intros ->%string_app_self.
    + specialize (IH (match p with String _ q => q | _ => p end)).
      destruct (cut_suffix suf s) as [q|], p as [|d p]; simpl in *; split; try congruence.
      * intros [= <- <-]. f_equal. by apply IH.
      * intros [= <- H]. apply IH in H. congruence.
      * intros [= <- H]. apply IH in H. congruence.
Qed.

Lemma has_prefix_spec pre s : has_prefix pre s = true <-> exists r, s = pre +:+ r.
Proof.
  unfold has_prefix. destruct (cut_prefix pre s) as [r|] eqn:E.
  - apply cut_prefix_spec in E. naive_solver.
  - split; [done|]. intros [r Hr]. apply cut_prefix_spec in Hr. congruence.
Qed.

Lemma has_suffix_spec suf s : has_suffix suf s = true <-> exists p, s = p +:+ suf.
Proof.
  unfold has_suffix. destruct (cut_suffix suf s) as [r|] eqn:E.
  - apply cut_suffix_spec in E. naive_solver.
  - split; [done|]. intros [r Hr]. apply cut_suffix_spec in Hr. congruence.
Qed.

Lemma split_byte_nonempty c s : split_byte c s <> [].
Proof. destruct s; simpl; [done|]. case_ifs; [done|]. by destruct (split_byte c s). Qed.

Lemma byte_z_bound c : 0 <= byte_z c < 256.
Proof.
  unfold byte_z. pose proof (N_ascii_bounded c). lia.
Qed.

Lemma z_byte_byte_z c : z_byte (byte_z c) = c.
Proof.
  unfold z_byte, byte_z, u8. rewrite wrapu_small by apply byte_z_bound.
  rewrite N2Z.id. apply ascii_N_embedding.
Qed.

Lemma byte_z_z_byte z : 0 <= z < 256 -> byte_z (z_byte z) = z.
Proof.
  intros. unfold z_byte, byte_z, u8. rewrite wrapu_small by done.
  rewrite N_ascii_embedding by lia. lia.
Qed.

Lemma byte_z_inj c d : byte_z c = byte_z d -> c = d.
Proof. intros H. rewrite <- (z_byte_byte_z c), <- (z_byte_byte_z d). by rewrite H. Qed.

(** ** Lemmas: addresses *)

Lemma to4_4 ip : length ip = 4%nat -> to4 ip = ip.
Proof. intros H. unfold to4. by rewrite H. Qed.

Lemma length_to4 ip : length (to4 ip) = 4%nat \/ to4 ip = [].
Proof.
  unfold to4. destruct (length ip) as [|[|[|[|[|n]]]]] eqn:E; auto.
  do 11 (destruct n as [|n]; auto). destruct n; auto.
  case_decide; auto. left. rewrite length_drop. lia.
Qed.

Lemma to4_IPv4 a b c d : to4 (IPv4 a b c d) = [a; b; c; d].
Proof. done. Qed.

Lemma ip_equal_4 a b : length a = 4%nat -> length b = 4%nat -> ip_equal a b = true <-> a = b.
Proof. intros Ha Hb. unfold ip_equal. rewrite Ha, Hb. simpl. apply bool_decide_eq_true. Qed.

(** ** Lemmas: splitting, lowercasing *)

Lemma split_byte_app c a b :
  split_byte c (a +:+ String c b) = split_byte c a ++ split_byte c b.
Proof.
  induction a as [|d a IH]; simpl; [by rewrite Ascii.eqb_refl|].
  destruct (Ascii.eqb c d); [by rewrite IH|]. rewrite IH.
  destruct (split_byte c a) eqn:E; [by apply split_byte_nonempty in E|done].
Qed.

Lemma contains_byte_cons c d s :
  contains_byte c (String d s) = Ascii.eqb c d || contains_byte c s.
Proof. unfold contains_byte. simpl. destruct (Ascii.eqb c d), (index_byte c s); done. Qed.

Lemma split_byte_single c s : contains_byte c s = false -> split_byte c s = [s].
Proof.
  induction s as [|d s IH]; [done|]. rewrite contains_byte_cons. simpl.
  intros [-> H]%orb_false_iff. by rewrite (IH H).
Qed.

Lemma contains_byte_app c a b :
  contains_byte c (a +:+ b) = contains_byte c a || contains_byte c b.
Proof.
  induction a as [|d a IH]; [done|]. simpl. rewrite !contains_byte_cons, IH.
  by destruct (Ascii.eqb c d).
Qed.

Lemma split_byte_map c f s :
  (forall d, f d = c <-> d = c) ->
  split_byte c (string_map f s) = map (string_map f) (split_byte c s).
Proof.
  intros Hf. induction s as [|d s IH]; [done|]. simpl.
  assert (Ascii.eqb c (f d) = Ascii.eqb c d) as ->.
  { destruct (Ascii.eqb_spec c (f d)), (Ascii.eqb_spec c d); naive_solver. }
  rewrite IH. destruct (Ascii.eqb c d); [done|]. by destruct (split_byte c s).
Qed.

(** A property of every byte is decided by running it on all 256. *)
Definition all_bytes (p : ascii -> bool) : bool :=
  forallb (fun n => p (ascii_of_nat n)) (seq 0 256).

Lemma all_bytes_spec p : all_bytes p = true -> forall c, p c = true.
Proof.
  intros H c. unfold all_bytes in H. rewrite forallb_forall in H.
  rewrite <- (ascii_nat_embedding c). apply H, in_seq.
  pose proof (nat_ascii_bounded c). lia.
Qed.

Lemma string_map_length f s : String.length (string_map f s) = String.length s.
Proof. induction s; simpl; congruence. Qed.

Lemma string_map_app f a b : string_map f (a +:+ b) = string_map f a +:+ string_map f b.
Proof. induction a; simpl; congruence. Qed.

Lemma string_map_get f s n : String.get n (string_map f s) = f <$> String.get n s.
Proof. revert n. induction s as [|c s IH]; intros [|n]; simpl; auto. Qed.

Lemma string_forallb_map p f s :
  (forall c, p (f c) = p c) -> string_forallb p (string_map f s) = string_forallb p s.
Proof. intros H. induction s as [|c s IH]; simpl; [done|]. by rewrite H, IH. Qed.

Lemma string_forallb_impl (p q : ascii -> bool) s :
  (forall c, p c = true -> q c = true) -> string_forallb p s = true -> string_forallb q s = true.
Proof.
  intros H. induction s as [|c s IH]; simpl; [done|].
  intros [Hc Hs]%andb_true_iff. by rewrite H, IH.
Qed.

Lemma string_forallb_app p a b :
  string_forallb p (a +:+ b) = string_forallb p a && string_forallb p b.
Proof. induction a as [|c a IH]; simpl; [done|]. by rewrite IH, andb_assoc. Qed.

Lemma string_forallb_split p c s :
  p c = true -> forallb (string_forallb p) (split_byte c s) = string_forallb p s.
Proof.
  intros Hc. induction s as [|d s IH]; [done|]. simpl.
  destruct (Ascii.eqb_spec c d) as [<-|Hne]; simpl.
  - by rewrite Hc, IH.
  - rewrite <- IH. destruct (split_byte c s) eqn:E; [by apply split_byte_nonempty in E|].
    simpl. by rewrite andb_assoc.
Qed.

Lemma lower_byte_idemp c : lower_byte (lower_byte c) = lower_byte c.
Proof.
  apply Ascii.eqb_eq. revert c. apply all_bytes_spec. vm_compute. reflexivity.
Qed.

Lemma string_map_idemp f s : (forall c, f (f c) = f c) -> string_map f (string_map f s) = string_map f s.
Proof. intros H. induction s; simpl; congruence. Qed.

Lemma lower_byte_fix d c : is_lower d = false -> is_upper d = false -> lower_byte c = d <-> c = d.
Proof.
  intros Hl Hu. split; [|intros ->; unfold lower_byte; by rewrite Hu].
  intros H. unfold lower_byte in H. destruct (is_upper c) eqn:E; [|done].
  exfalso. assert (negb (is_upper c) || is_lower (z_byte (byte_z c + 32)) = true) as Hb.
  { clear. revert c. apply all_bytes_spec. vm_compute. reflexivity. }
  rewrite E, H in Hb. simpl in Hb. congruence.
Qed.

Lemma is_ascii_lower s : is_ascii (string_map lower_byte s) = is_ascii s.
Proof.
  apply string_forallb_map. intros c.
  assert (eqb (byte_z (lower_byte c) <? 128) (byte_z c <? 128) = true) as H.
  { revert c. apply all_bytes_spec. vm_compute. reflexivity. }
  by apply eqb_prop.
Qed.

(** ** Lemmas: printed integers and lines *)

Definition digit_or_minus (c : ascii) : bool := is_digit c || Ascii.eqb c "-".

Lemma pretty_N_go_bytes x : forall s,
  string_forallb digit_or_minus s = true -> string_forallb digit_or_minus (pretty_N_go x s) = true.
Proof.
  induction (N.lt_wf_0 x) as [x _ IH]. intros s Hs. destruct (decide (0 < x)%N) as [Hx|Hx].
  - rewrite pretty_N_go_step by done. apply IH; [by apply N.div_lt|].
    simpl. rewrite Hs, andb_true_r.
    destruct (x `mod` 10)%N as [|p]; [done|].
    by do 4 (try done; destruct p as [p|p|]).
  - assert (x = 0%N) as -> by lia. by rewrite pretty_N_go_0.
Qed.

Lemma format_d_bytes z : string_forallb digit_or_minus (format_d z) = true.
Proof.
  assert (forall n : N, string_forallb digit_or_minus (pretty n) = true) as HN.
  { intros n. unfold pretty, pretty_N. case_decide; [done|]. by apply pretty_N_go_bytes. }
  unfold format_d, pretty, pretty_Z. destruct z as [|p|p]; [done|apply (HN (Npos p))|apply (HN (Npos p))].
Qed.

Lemma forallb_not_contains p c s :
  string_forallb p s = true -> p c = false -> contains_byte c s = false.
Proof.
  intros Hs Hc. induction s as [|d s IH]; [done|]. simpl in Hs.
  apply andb_true_iff in Hs as [Hd Hs]. rewrite contains_byte_cons, IH by done.
  destruct (Ascii.eqb_spec c d); [congruence|done].
Qed.

Lemma format_d_no_byte c z : digit_or_minus c = false -> contains_byte c (format_d z) = false.
Proof. apply forallb_not_contains, format_d_bytes. Qed.

Lemma ip_string_no_byte other c ip :
  length ip = 4%nat -> digit_or_minus c = false -> Ascii.eqb c "." = false ->
  contains_byte c (ip_string other ip) = false.
Proof.
  intros Hl Hc Hd. destruct ip as [|a [|b [|x [|y [|??]]]]]; try done.
  unfold ip_string. rewrite to4_4 by done.
  repeat (rewrite contains_byte_app || rewrite contains_byte_cons || rewrite (format_d_no_byte c) by done).
  by rewrite !Hd.
Qed.

(** Text built line by line, and read back. *)
Definition lines_text (ls : list string) : string :=
  foldr (fun l acc => l +:+ nl +:+ acc) EmptyString ls.

Lemma split_lines_text ls :
  Forall (fun l => contains_byte (ascii_of_nat 10) l = false) ls ->
  split_byte (ascii_of_nat 10) (lines_text ls) = ls ++ [EmptyString].
Proof.
  induction 1 as [|l ls Hl Hls IH]; [done|]. simpl lines_text.
  change (nl +:+ lines_text ls) with (String (ascii_of_nat 10) (lines_text ls)).
  by rewrite split_byte_app, IH, split_byte_single.
Qed.

(** ** Lemmas: joining fields *)

(** [strings.Join(fs, c)] for a one-byte separator. *)
Fixpoint join_byte (c : ascii) (fs : list string) : string :=
  match fs with
  | [] => EmptyString
  | [f] => f
  | f :: rest => f +:+ String c (join_byte c rest)
  end.

Lemma join_split c s : join_byte c (split_byte c s) = s.
Proof.
  induction s as [|d s IH]; [done|]. simpl. destruct (Ascii.eqb_spec c d) as [<-|Hne].
  - destruct (split_byte c s) eqn:E; [by apply split_byte_nonempty in E|]. simpl in *. congruence.
  - destruct (split_byte c s) as [|f fs] eqn:E; [by apply split_byte_nonempty in E|].
    destruct fs; simpl in *; congruence.
Qed.

Lemma split_byte_inj c s t : split_byte c s = split_byte c t -> s = t.
Proof. intros H. by rewrite <- (join_split c s), H, join_split. Qed.

Lemma split_byte_fields c s : Forall (fun f => contains_byte c f = false) (split_byte c s).
Proof.
  induction s as [|d s IH]; simpl; [by repeat constructor|].
  destruct (Ascii.eqb c d) eqn:E; [by constructor|].
  destruct IH as [|f fs Hf Hfs]; constructor; try done; rewrite contains_byte_cons, E; done.
Qed.

Lemma split_join c fs :
  fs <> [] -> Forall (fun f => contains_byte c f = false) fs -> split_byte c (join_byte c fs) = fs.
Proof.
  intros Hne H. induction H as [|f fs Hf Hfs IH]; [done|]. destruct fs as [|g fs].
  - by apply split_byte_single.
  - change (join_byte c (f :: g :: fs)) with (f +:+ String c (join_byte c (g :: fs))).
    by rewrite split_byte_app, IH, split_byte_single.
Qed.

(** ** Lemmas: the byte-wise order of strings *)

Lemma ltb_spec a b : String.ltb a b = true <-> strings.String.le a b /\ a <> b.
Proof.
  unfold String.ltb, strings.String.le, String.leb.
  destruct (String.compare a b) eqn:E; simpl.
  - apply String.compare_eq_iff in E. subst. split; [done|]. by intros [_ ?].
  - split; [|done]. intros _. split; [done|]. intros ->.
    pose proof (String.compare_antisym b b) as Ha. by rewrite E in Ha.
  - split; [done|]. by intros [? _].
Qed.

Lemma ltb_irrefl a : String.ltb a a = false.
Proof. apply not_true_iff_false. by intros [_ ?]%ltb_spec. Qed.

Lemma ltb_trans a b c : String.ltb a b = true -> String.ltb b c = true -> String.ltb a c = true.
Proof.
  rewrite !ltb_spec. intros [H1 Hn1] [H2 Hn2]. split; [by etrans|].
  intros ->. apply Hn1. by apply (anti_symm strings.String.le).
Qed.

Lemma ltb_total a b : a <> b -> String.ltb a b = true \/ String.ltb b a = true.
Proof.
  intros Hn. rewrite !ltb_spec. destruct (total strings.String.le a b); [left|right]; auto.
Qed.
