(* ===== verification/GoFs.v ===== *)
(** * Package path/filepath, the file system, sorting

    Paths are Go strings; [Clean] and [Join] are the Unix versions of
    [path/filepath].  A file system maps the cleaned components of an absolute
    path to the bytes of the regular file there.  Directories have no contents
    of their own: [os.MkdirAll] can only fail, which the callers receive as an
    argument, and [os.RemoveAll] removes the files below its argument. *)
From S2P Require Import Prelude GoLib.

Abbreviation slash := ("/"%char).

(** ** filepath.Clean, filepath.Join, filepath.Base *)

(** One path element: a doubled separator or a dot adds nothing, a dot-dot
    removes the element before it, or stays when there is none in a relative
    path.  The elements read so far are kept in reverse. *)
Definition clean_step (rooted : bool) (acc : list string) (seg : string) : list string :=
  if String.eqb seg EmptyString || String.eqb seg "." then acc
  else if String.eqb seg ".." then
    match acc with
    | [] => if rooted then [] else [".."]
    | top :: below => if String.eqb top ".." then ".." :: acc else below
    end
  else seg :: acc.

Definition is_abs (p : string) : bool := has_prefix "/" p.

Definition clean_elems (p : string) : list string :=
  rev (fold_left (clean_step (is_abs p)) (split_byte slash p) []).

Definition Clean (p : string) : string :=
  if is_abs p then String slash (join_byte slash (clean_elems p))
  else match clean_elems p with
       | [] => "."
       | es => join_byte slash es
       end.

Fixpoint Join (elems : list string) : string :=
  match elems with
  | [] => EmptyString
  | e :: rest => if String.eqb e EmptyString then Join rest else Clean (join_byte slash elems)
  end.

(** [filepath.Base]: the last element, "." for the empty path and "/" for a path
    of separators only. *)
Definition Base (p : string) : string :=
  if String.eqb p EmptyString then "."
  else default "/" (head (rev (List.filter (fun s => negb (String.eqb s EmptyString)) (split_byte slash p)))).

(** [filepath.Dir]: everything up to the last separator, cleaned. *)
Definition Dir (p : string) : string :=
  Clean (match last_index_byte slash p with Some i => slice 0 (S i) p | None => EmptyString end).

(** [filepath.Rel]: the words of two cleaned paths, without those they begin with in
    common; one dot-dot for every word of the base that is left. *)
Definition rel_words (p : string) : list string :=
  if String.eqb p EmptyString then []
  else if String.eqb p "/" then [EmptyString]
  else split_byte slash p.

Fixpoint strip_common (b t : list string) : list string * list string :=
  match b, t with
  | x :: b', y :: t' => if String.eqb x y then strip_common b' t' else (b, t)
  | _, _ => (b, t)
  end.

Definition Rel (basepath targpath : string) : option string :=
  let base := Clean basepath in
  let targ := Clean targpath in
  if String.eqb targ base then Some "."
  else
    let base := if String.eqb base "." then EmptyString else base in
    if negb (Bool.eqb (is_abs base) (is_abs targ)) then None
    else
      let '(b, t) := strip_common (rel_words base) (rel_words targ) in
      match b, t with
      | x :: _, _ :: _ =>
          if String.eqb x ".." then None
          else Some (join_byte slash (map (fun _ => "..") b ++ t))
      | _, _ => Some (join_byte slash (map (fun _ => "..") b ++ t))
      end.

(** ** Files *)

Abbreviation fpath := (list string).
Abbreviation bytes := (list ascii).
Abbreviation fs_t := (gmap fpath bytes).

Definition stat (fs : fs_t) (p : string) : bool := bool_decide (is_Some (fs !! clean_elems p)).
Definition read_file (fs : fs_t) (p : string) : option bytes := fs !! clean_elems p.
Definition write_file (fs : fs_t) (p : string) (b : bytes) : fs_t := <[clean_elems p := b]> fs.
Definition remove_file (fs : fs_t) (p : string) : fs_t := delete (clean_elems p) fs.

Fixpoint is_prefix (a b : fpath) : bool :=
  match a, b with
  | [], _ => true
  | x :: a', y :: b' => String.eqb x y && is_prefix a' b'
  | _ :: _, [] => false
  end.

Definition remove_all (fs : fs_t) (p : string) : fs_t :=
  filter (fun kv => is_prefix (clean_elems p) kv.1 = false) fs.

(** ** Package sort *)

(** [sort.Slice] with a [less] function.  Insertion sort is stable; Go's is not,
    so the two agree up to the order of elements neither of which is less. *)
Fixpoint sort_insert {A} (less : A -> A -> bool) (x : A) (l : list A) : list A :=
  match l with
  | [] => [x]
  | y :: l' => if less y x then y :: sort_insert less x l' else x :: l
  end.

Definition sort_by {A} (less : A -> A -> bool) (l : list A) : list A :=
  foldr (sort_insert less) [] l.

(** [sort.Strings] *)
Definition sort_strings : list string -> list string := sort_by String.ltb.

(** ** Lemmas: plain paths *)

(** A component a validated identifier can be: it names one directory entry. *)
Definition plain (s : string) : Prop :=
  s <> EmptyString /\ s <> "." /\ s <> ".." /\ contains_byte slash s = false.

#[global] Instance plain_dec s : Decision (plain s).
Proof. unfold plain. apply _. Defined.

Definition abs_of (es : fpath) : string := String slash (join_byte slash es).

Lemma clean_step_plain rooted acc s : plain s -> clean_step rooted acc s = s :: acc.
Proof.
  intros (H1 & H2 & H3 & _). unfold clean_step.
  apply String.eqb_neq in H1, H2, H3. by rewrite H1, H2, H3.
Qed.

Lemma clean_step_empty rooted acc : clean_step rooted acc EmptyString = acc.
Proof. done. Qed.

Lemma fold_clean_plain rooted es acc :
  Forall plain es -> fold_left (clean_step rooted) es acc = rev es ++ acc.
Proof.
  intros H. revert acc. induction H as [|e es He Hes IH]; intros acc; [done|].
  cbn [fold_left]. rewrite clean_step_plain, IH by done. simpl. by rewrite <- app_assoc.
Qed.

Lemma plain_no_slash es : Forall plain es -> Forall (fun f => contains_byte slash f = false) es.
Proof. intros H. eapply list.Forall_impl; [exact H|]. by intros x (_ & _ & _ & ?). Qed.

Lemma split_join_concat c fs :
  fs <> [] -> split_byte c (join_byte c fs) = concat (map (split_byte c) fs).
Proof.
  induction fs as [|f fs IH]; [done|]. intros _. destruct fs as [|g fs].
  - simpl. by rewrite app_nil_r.
  - change (join_byte c (f :: g :: fs)) with (f +:+ String c (join_byte c (g :: fs))).
    rewrite split_byte_app, IH by done. done.
Qed.

Lemma concat_split_plain es :
  Forall plain es -> concat (map (split_byte slash) es) = es.
Proof.
  induction 1 as [|e es (_ & _ & _ & He) Hes IH]; [done|]. simpl.
  by rewrite split_byte_single, IH.
Qed.

Lemma split_abs_of es :
  Forall plain es -> split_byte slash (abs_of es) = if decide (es = []) then [""; ""] else "" :: es.
Proof.
  intros H. destruct (decide (es = [])) as [->|Hne]; [done|].
  unfold abs_of. cbn [split_byte]. rewrite Ascii.eqb_refl.
  by rewrite split_join by auto using plain_no_slash.
Qed.

Lemma clean_elems_abs_of es : Forall plain es -> clean_elems (abs_of es) = es.
Proof.
  intros H. unfold clean_elems. rewrite split_abs_of by done.
  destruct (decide (es = [])) as [->|Hne]; [done|].
  cbn [fold_left]. rewrite clean_step_empty, fold_clean_plain by done.
  by rewrite app_nil_r, rev_involutive.
Qed.

Lemma is_abs_abs_of es s : is_abs (abs_of es +:+ s) = true.
Proof. done. Qed.

Lemma clean_elems_plain_abs p segs :
  is_abs p = true -> split_byte slash p = segs ->
  clean_elems p = rev (fold_left (clean_step true) segs []).
Proof. unfold clean_elems. by intros -> ->. Qed.

Lemma join_abs_cons es e rest :
  is_abs (join_byte slash (abs_of es :: e :: rest)) = true.
Proof. done. Qed.

(** [filepath.Join] of a clean absolute directory and plain names is the
    directory extended by the names. *)
Lemma Join_plain es names :
  Forall plain es -> Forall plain names ->
  Join (abs_of es :: names) = abs_of (es ++ names).
Proof.
  intros Hes Hn. cbn [Join]. replace (String.eqb (abs_of es) EmptyString) with false by done.
  assert (Ha : is_abs (join_byte slash (abs_of es :: names)) = true) by (by destruct names).
  unfold Clean. rewrite Ha. unfold abs_of at 2. f_equal. f_equal.
  rewrite (clean_elems_plain_abs _ _ Ha eq_refl), split_join_concat by done.
  cbn [map concat]. rewrite split_abs_of, concat_split_plain by done.
  destruct (decide (es = [])) as [->|Hne].
  - cbn [app fold_left]. rewrite !clean_step_empty, fold_clean_plain by done.
    by rewrite app_nil_r, rev_involutive.
  - cbn [app fold_left]. rewrite clean_step_empty, fold_clean_plain by (by apply Forall_app).
    by rewrite app_nil_r, rev_involutive.
Qed.

Lemma clean_Join_plain es names :
  Forall plain es -> Forall plain names ->
  clean_elems (Join (abs_of es :: names)) = es ++ names.
Proof.
  intros. rewrite Join_plain by done. apply clean_elems_abs_of. by apply Forall_app.
Qed.

(** The elements of a rooted path are plain: [Clean] leaves no dot-dot there. *)
Lemma clean_step_rooted acc s :
  contains_byte slash s = false -> Forall plain acc -> Forall plain (clean_step true acc s).
Proof.
  intros Hs Hacc. unfold clean_step.
  destruct (String.eqb_spec s EmptyString), (String.eqb_spec s "."), (String.eqb_spec s "..");
    simpl; try done.
  - destruct Hacc as [|top below Ht Hb]; [constructor|].
    destruct (String.eqb_spec top "..") as [->|]; [|done]. destruct Ht as (_ & _ & Ht & _). done.
  - by constructor.
Qed.

Lemma fold_clean_rooted segs acc :
  Forall (fun f => contains_byte slash f = false) segs -> Forall plain acc ->
  Forall plain (fold_left (clean_step true) segs acc).
Proof.
  intros H. revert acc. induction H as [|s segs Hs Hsegs IH]; intros acc Hacc; [done|].
  cbn [fold_left]. by apply IH, clean_step_rooted.
Qed.

Lemma Forall_rev_iff {A} (P : A -> Prop) (l : list A) : Forall P l -> Forall P (rev l).
Proof. rewrite !list.Forall_forall. intros H x. rewrite list_elem_of_In, <- in_rev, <- list_elem_of_In. auto. Qed.

Lemma clean_elems_rooted p : is_abs p = true -> Forall plain (clean_elems p).
Proof.
  intros Ha. unfold clean_elems. rewrite Ha. apply Forall_rev_iff, fold_clean_rooted; [|constructor].
  apply split_byte_fields.
Qed.

Lemma Clean_abs p : is_abs p = true -> Clean p = abs_of (clean_elems p).
Proof. intros Ha. unfold Clean. by rewrite Ha. Qed.

(** Lexical containment of clean paths is containment of their elements. *)
Lemma abs_of_prefix es fs :
  Forall plain es -> Forall plain fs -> es <> [] ->
  has_prefix (abs_of es +:+ "/") (abs_of fs) = true -> exists r, fs = es ++ r /\ r <> [].
Proof.
  intros Hes Hfs Hne [r Hr]%has_prefix_spec.
  destruct (decide (fs = [])) as [->|Hfne].
  { exfalso. destruct es as [|e es]; [done|]. inversion Hes as [|? ? He]; subst.
    destruct e as [|c e]; [by destruct He|]. unfold abs_of in Hr. simpl in Hr.
    destruct es; simpl in Hr; discriminate. }
  apply (f_equal (split_byte slash)) in Hr. rewrite split_abs_of in Hr by done.
  rewrite decide_False in Hr by done.
  rewrite <- string_app_assoc in Hr. change ("/" +:+ r) with (String slash r) in Hr.
  rewrite split_byte_app, split_abs_of, decide_False in Hr by done.
  simpl in Hr. injection Hr as Hr. exists (split_byte slash r). split; [done|]. apply split_byte_nonempty.
Qed.

Lemma prefix_abs_of es r :
  r <> [] -> es <> [] -> has_prefix (abs_of es +:+ "/") (abs_of (es ++ r)) = true.
Proof.
  intros Hr Hes. apply has_prefix_spec. exists (join_byte slash r). unfold abs_of.
  change (String slash ?x +:+ ?y) with (String slash (x +:+ y)). simpl. f_equal.
  induction es as [|e es IH]; [done|]. destruct es as [|e' es].
  - simpl. destruct r; [done|]. by rewrite <- string_app_assoc.
  - change (join_byte slash ((e :: e' :: es) ++ r)) with (e +:+ String slash (join_byte slash ((e' :: es) ++ r))).
    change (join_byte slash (e :: e' :: es)) with (e +:+ String slash (join_byte slash (e' :: es))).
    rewrite IH by done. rewrite <- !string_app_assoc. done.
Qed.

(** ** Lemmas: joining below an absolute directory *)

(** Segments that [Clean] only appends: empty ones and plain names. *)
Definition downward (s : string) : Prop := s = EmptyString \/ plain s.
Definition below (names : list string) : fpath :=
  filter (fun s => s <> EmptyString) (concat (map (split_byte slash) names)).

Lemma fold_clean_down segs acc :
  Forall downward segs ->
  fold_left (clean_step true) segs acc = rev (filter (fun s => s <> EmptyString) segs) ++ acc.
Proof.
  intros H. revert acc. induction H as [|s segs [-> | Hs] _ IH]; intros acc; [done| |].
  - cbn [fold_left]. by rewrite clean_step_empty, IH, filter_cons_False by auto.
  - cbn [fold_left]. rewrite clean_step_plain, IH, filter_cons_True by (done || apply Hs).
    simpl. by rewrite <- app_assoc.
Qed.

Lemma is_abs_join b names : is_abs b = true -> is_abs (join_byte slash (b :: names)) = true.
Proof.
  unfold is_abs. rewrite !has_prefix_spec. intros [r ->]. destruct names as [|n names]; [by exists r|].
  exists (r +:+ String slash (join_byte slash (n :: names))). done.
Qed.

(** [filepath.Join] below an absolute directory stays below it. *)
Lemma Join_below b names :
  is_abs b = true -> Forall downward (concat (map (split_byte slash) names)) ->
  Join (b :: names) = abs_of (clean_elems b ++ below names).
Proof.
  intros Hb Hn. cbn [Join]. destruct (String.eqb_spec b EmptyString) as [-> |_]; [done|].
  rewrite Clean_abs by (by apply is_abs_join). f_equal.
  rewrite (clean_elems_plain_abs _ _ (is_abs_join b names Hb) eq_refl), split_join_concat by done.
  cbn [map concat]. rewrite fold_left_app, fold_clean_down by done.
  rewrite rev_app_distr, rev_involutive. unfold clean_elems, below. by rewrite Hb.
Qed.

Lemma below_plain names :
  Forall downward (concat (map (split_byte slash) names)) -> Forall plain (below names).
Proof.
  unfold below. intros H. apply list.Forall_forall. intros s [Hs Hin]%list_elem_of_filter.
  rewrite list.Forall_forall in H. by destruct (H s Hin).
Qed.

Lemma clean_Join_below b names :
  is_abs b = true -> Forall downward (concat (map (split_byte slash) names)) ->
  clean_elems (Join (b :: names)) = clean_elems b ++ below names.
Proof.
  intros Hb Hn. rewrite Join_below by done. apply clean_elems_abs_of.
  apply Forall_app. split; [by apply clean_elems_rooted|by apply below_plain].
Qed.

Lemma downward_plain s : plain s -> Forall downward (split_byte slash s).
Proof.
  intros Hs. rewrite split_byte_single by apply Hs. constructor; [by right|constructor].
Qed.

Lemma downward_abs es : Forall plain es -> Forall downward (split_byte slash (abs_of es)).
Proof.
  intros H. rewrite split_abs_of by done. case_decide; [constructor; [by left|constructor; [by left|constructor]]|].
  constructor; [by left|]. eapply list.Forall_impl; [exact H|]. by right.
Qed.

Lemma below_cons n names : below (n :: names) = below [n] ++ below names.
Proof. unfold below. cbn. by rewrite app_nil_r, list.filter_app. Qed.

Lemma below_one_plain s : plain s -> below [s] = [s].
Proof.
  intros Hs. unfold below. cbn [map concat]. rewrite split_byte_single by apply Hs. cbn [app].
  by rewrite filter_cons_True by apply Hs.
Qed.

Lemma below_one_abs es : Forall plain es -> below [abs_of es] = es.
Proof.
  intros H. unfold below. cbn [map concat]. rewrite app_nil_r, split_abs_of by done.
  case_decide as Hd; [by subst|]. rewrite filter_cons_False by auto. clear Hd.
  induction H as [|e es He _ IH]; [done|]. rewrite filter_cons_True by apply He. by rewrite IH.
Qed.

(** *** filepath.Dir of a clean absolute path *)

Lemma last_index_no_byte c s : contains_byte c s = false -> last_index_byte c s = None.
Proof.
  induction s as [|d s IH]; [done|]. rewrite contains_byte_cons. intros [Hd Hs]%orb_false_iff.
  cbn. by rewrite IH, Hd.
Qed.

Lemma last_index_app c a s :
  contains_byte c s = false -> last_index_byte c (a +:+ String c s) = Some (String.length a).
Proof.
  intros Hs. induction a as [|d a IH].
  - cbn. by rewrite (last_index_no_byte c s Hs), Ascii.eqb_refl.
  - change (String d a +:+ String c s) with (String d (a +:+ String c s)). cbn. by rewrite IH.
Qed.

Lemma slice_app a c s : slice 0 (S (String.length a)) (a +:+ String c s) = a +:+ String c EmptyString.
Proof.
  unfold slice. rewrite Nat.sub_0_r. induction a as [|d a IH]; cbn; [by destruct s|]. by rewrite <- IH.
Qed.

Lemma join_snoc es x : es <> [] -> join_byte slash (es ++ [x]) = join_byte slash es +:+ String slash x.
Proof.
  induction es as [|e es IH]; [done|]. intros _. destruct es as [|e' es]; [done|].
  change (join_byte slash ((e :: e' :: es) ++ [x])) with (e +:+ String slash (join_byte slash ((e' :: es) ++ [x]))).
  change (join_byte slash (e :: e' :: es)) with (e +:+ String slash (join_byte slash (e' :: es))).
  rewrite IH by done. by rewrite <- string_app_assoc.
Qed.

Lemma Dir_abs_of es x : Forall plain es -> plain x -> Dir (abs_of (es ++ [x])) = abs_of es.
Proof.
  intros Hes (_ & _ & _ & Hx). unfold Dir. destruct (decide (es = [])) as [-> |Hne].
  - change (abs_of ([] ++ [x])) with (EmptyString +:+ String slash x). by rewrite last_index_app, slice_app.
  - unfold abs_of at 1 2. rewrite join_snoc by done.
    change (String slash (join_byte slash es +:+ String slash x)) with (abs_of es +:+ String slash x).
    rewrite last_index_app, slice_app by done. rewrite Clean_abs by done. f_equal.
    rewrite (clean_elems_plain_abs _ _ (is_abs_abs_of es _) eq_refl), split_byte_app.
    rewrite split_abs_of by done. rewrite decide_False by done.
    rewrite fold_left_app. cbn [fold_left split_byte]. rewrite !clean_step_empty, fold_clean_plain by done.
    by rewrite app_nil_r, rev_involutive.
Qed.

(** ** Lemmas: files *)

Lemma is_prefix_spec a b : is_prefix a b = true <-> exists r, b = a ++ r.
Proof.
  revert b. induction a as [|x a IH]; intros b; simpl.
  - split; [by exists b|done].
  - destruct b as [|y b]; [split; [done|by intros [r ?]]|]. rewrite andb_true_iff, IH, String.eqb_eq.
    split; [intros [-> [r ->]]; by exists r|intros [r ?]; simplify_eq/=; eauto].
Qed.

Lemma lookup_remove_all fs p k :
  remove_all fs p !! k = if is_prefix (clean_elems p) k then None else fs !! k.
Proof.
  unfold remove_all. destruct (is_prefix (clean_elems p) k) eqn:E.
  - apply map_lookup_filter_None. right. intros b _. simpl. congruence.
  - destruct (fs !! k) eqn:Hk; [by apply map_lookup_filter_Some|].
    apply map_lookup_filter_None. by left.
Qed.

Lemma stat_spec fs p : stat fs p = true <-> is_Some (fs !! clean_elems p).
Proof. apply bool_decide_eq_true. Qed.

(** ** Lemmas: sorting *)

Section sort.
Context {A : Type} (less : A -> A -> bool).

Lemma sort_insert_perm x l : Permutation (sort_insert less x l) (x :: l).
Proof.
  induction l as [|y l IH]; [done|]. simpl. destruct (less y x); [|done].
  rewrite IH. constructor.
Qed.

Lemma sort_by_perm l : Permutation (sort_by less l) l.
Proof.
  induction l as [|x l IH]; [done|]. simpl. rewrite sort_insert_perm. by constructor.
Qed.

Context (Htrans : forall x y z, less x y = true -> less y z = true -> less x z = true).
Context (Hasym : forall x y, less x y = true -> less y x = false).

(** No element is less than an earlier one. *)
Definition in_order (l : list A) : Prop := StronglySorted (fun x y => less y x = false) l.

Context (Hnt : forall x y z, less y x = false -> less z y = false -> less z x = false).

Lemma sort_insert_in_order x l : in_order l -> in_order (sort_insert less x l).
Proof using Hasym Hnt.
  induction 1 as [|y l Hl IH Hy]; simpl; [by repeat constructor|].
  destruct (less y x) eqn:E.
  - constructor; [done|]. rewrite sort_insert_perm. constructor; [by apply Hasym|done].
  - constructor; [by constructor|]. constructor; [done|].
    eapply list.Forall_impl; [exact Hy|]. intros z Hz. by eapply Hnt.
Qed.

Lemma sort_by_in_order l : in_order (sort_by less l).
Proof using Hasym Hnt. induction l; [constructor|]. by apply sort_insert_in_order. Qed.
End sort.

(** Sorted lists without ties are determined by their elements. *)
Lemma in_order_unique {A} (less : A -> A -> bool) (l1 l2 : list A) :
  (forall x y, x ∈ l1 -> y ∈ l1 -> less x y = false -> less y x = false -> x = y) ->
  in_order less l1 -> in_order less l2 -> Permutation l1 l2 -> l1 = l2.
Proof.
  intros Ht H1. revert l2. induction H1 as [|x l1 H1 IH Hx]; intros l2 H2 Hp.
  { by apply Permutation_nil_l in Hp. }
  destruct H2 as [|y l2 H2 Hy]; [by apply Permutation_nil_r in Hp|].
  assert (x = y) as <-.
  { assert (y ∈ x :: l1) as Hyin by (rewrite Hp; constructor).
    assert (x ∈ y :: l2) as Hxin by (rewrite <- Hp; constructor).
    pose proof Hyin as Hyin'.
    apply elem_of_cons in Hyin as [?|Hyin]; [done|]. apply elem_of_cons in Hxin as [?|Hxin]; [done|].
    rewrite list.Forall_forall in Hx, Hy. apply Ht; [constructor|done|by apply Hy|by apply Hx]. }
  f_equal. apply IH; [|done|by apply Permutation_cons_inv in Hp].
  intros a b Ha Hb. apply Ht; by constructor.
Qed.

Lemma ltb_asym a b : String.ltb a b = true -> String.ltb b a = false.
Proof.
  intros H. apply not_true_iff_false. intros H2.
  pose proof (ltb_trans _ _ _ H H2) as H3. by rewrite ltb_irrefl in H3.
Qed.

Lemma ltb_negtrans a b c : String.ltb b a = false -> String.ltb c b = false -> String.ltb c a = false.
Proof.
  intros H1 H2. apply not_true_iff_false. intros H3.
  destruct (decide (a = b)) as [->|Hab]; [congruence|].
  destruct (ltb_total a b Hab) as [H|H]; [|congruence].
  pose proof (ltb_trans _ _ _ H3 H). congruence.
Qed.

Lemma sort_strings_perm l : Permutation (sort_strings l) l.
Proof. apply sort_by_perm. Qed.
