(* ===== verification/Gcm.v ===== *)
(** * AES-256 (FIPS 197) in Galois/Counter Mode (NIST SP 800-38D)

    The local key-encryption key of internal/kms seals data keys with
    [crypto/aes] and [crypto/cipher].  Both are modelled executably, so wrapped
    keys in the witnesses are real ones; the published test vectors check them.

    - [Aes]: key expansion and the block cipher, on bytes as integers.
    - [Gcm]: [NewGCM]'s [Seal] and [Open], for the standard 12-byte nonce and
      16-byte tag, without additional data; what is sealed opens to itself, and
      nothing opens that was not sealed. *)
From S2P Require Import Prelude GoLib GoFs.

(** ** The block cipher *)

Module Aes.

Definition byte_xor (x y : Z) : Z := Z.lxor x y.
Definition word_xor (x y : list Z) : list Z := zip_with byte_xor x y.

(** Multiplication by x, and multiplication, in GF(2^8). *)
Definition xtime (b : Z) : Z :=
  if 128 <=? b then Z.lxor (u8 (2 * b)) 27 else 2 * b.
Fixpoint gmul_bits (n : nat) (a b : Z) : Z :=
  match n with
  | O => 0
  | S n => Z.lxor (if Z.odd b then a else 0) (gmul_bits n (xtime a) (Z.shiftr b 1))
  end.
Definition gmul (a b : Z) : Z := gmul_bits 8 a b.

(** The inverse in GF(2^8), as the 254th power, and the affine map. *)
Definition ginv (a : Z) : Z := Nat.iter 253 (gmul a) a.
Definition rotl8 (n x : Z) : Z := Z.lor (u8 (Z.shiftl x n)) (Z.shiftr x (8 - n)).
Definition affine (b : Z) : Z :=
  Z.lxor (Z.lxor (Z.lxor (Z.lxor (Z.lxor b (rotl8 1 b)) (rotl8 2 b)) (rotl8 3 b)) (rotl8 4 b)) 99.
Definition sbox_table : list Z :=
  Eval vm_compute in map (fun a => affine (ginv a)) (seqZ 0 256).
Definition sub_byte (b : Z) : Z := nth (Z.to_nat b) sbox_table 0.

(** Key expansion: the schedule as words of four bytes, newest first. *)
Definition rot_word (w : list Z) : list Z :=
  match w with b :: w => w ++ [b] | [] => [] end.
Definition rcon (i : nat) : Z := Nat.iter (i - 1) xtime 1.
Definition next_schedule (ws : list (list Z)) (i : nat) : list (list Z) :=
  let temp := nth 0 ws [] in
  let temp :=
    match (i mod 8)%nat with
    | 0%nat => word_xor (map sub_byte (rot_word temp)) [rcon (i / 8); 0; 0; 0]
    | 4%nat => map sub_byte temp
    | _ => temp
    end in
  word_xor (nth 7 ws []) temp :: ws.
Fixpoint words (b : list Z) : list (list Z) :=
  match b with
  | b0 :: b1 :: b2 :: b3 :: b => [b0; b1; b2; b3] :: words b
  | _ => []
  end.
Definition key_expansion (key : list Z) : list (list Z) :=
  rev (fold_left next_schedule (List.seq 8 52) (rev (words key))).

(** The state is its sixteen bytes, column by column. *)
Definition add_round_key (s : list Z) (ws : list (list Z)) : list Z :=
  word_xor s (concat (take 4 ws)).
Definition shift_rows (s : list Z) : list Z :=
  map (fun i => nth ((i + 4 * (i mod 4)) mod 16)%nat s 0) (List.seq 0 16).
Definition mix_column (c : list Z) : list Z :=
  match c with
  | [a; b; c; d] =>
      let m x y z w := Z.lxor (Z.lxor (xtime x) (Z.lxor (xtime y) y)) (Z.lxor z w) in
      [m a b c d; m b c d a; m c d a b; m d a b c]
  | _ => []
  end.
Definition mix_columns (s : list Z) : list Z := concat (map mix_column (words s)).

Fixpoint cipher_rounds (s : list Z) (ws : list (list Z)) (n : nat) : list Z :=
  match n with
  | O => add_round_key (shift_rows (map sub_byte s)) ws
  | S n => cipher_rounds (add_round_key (mix_columns (shift_rows (map sub_byte s))) ws) (drop 4 ws) n
  end.

(** [cipher.Block.Encrypt] for a 32-byte key: fourteen rounds. *)
Definition encrypt (ws : list (list Z)) (block : list Z) : list Z :=
  cipher_rounds (add_round_key block ws) (drop 4 ws) 13.

(** *** Shapes *)

Definition words_of (n : nat) (ws : list (list Z)) : Prop :=
  length ws = n /\ Forall (fun w => length w = 4%nat) ws.

Lemma words_shape n b : length b = (4 * n)%nat -> words_of n (words b).
Proof.
  revert b. induction n as [|n IH]; intros b Hb.
  - by apply nil_length_inv in Hb as ->.
  - destruct b as [|b0 [|b1 [|b2 [|b3 b]]]]; simplify_eq/=; try lia.
    destruct (IH b ltac:(lia)) as [H1 H2]. split; cbn; [lia|by constructor].
Qed.

Lemma nth_word (ws : list (list Z)) i :
  (i < length ws)%nat -> Forall (fun w => length w = 4%nat) ws -> length (nth i ws []) = 4%nat.
Proof. intros Hi Hws. rewrite List.Forall_forall in Hws. by apply Hws, nth_In. Qed.

Lemma next_schedule_shape n ws i : (8 <= n)%nat -> words_of n ws -> words_of (S n) (next_schedule ws i).
Proof.
  intros Hn [Hl Hws]. unfold next_schedule. split; [cbn; lia|]. constructor; [|done].
  pose proof (nth_word ws 0 ltac:(lia) Hws) as H0. pose proof (nth_word ws 7 ltac:(lia) Hws) as H7.
  unfold word_xor. rewrite length_zip_with, H7.
  destruct (i mod 8)%nat as [|[|[|[|[|m]]]]]; rewrite ?length_zip_with, ?length_map, ?H0; try done.
  destruct (nth 0 ws []) as [|b w]; [done|].
  unfold rot_word. rewrite length_app. cbn [length] in *. lia.
Qed.

Lemma key_expansion_shape key : length key = 32%nat -> words_of 60 (key_expansion key).
Proof.
  intros Hk. unfold key_expansion.
  assert (forall l n ws, (8 <= n)%nat -> words_of n ws -> words_of (length l + n) (fold_left next_schedule l ws)) as Hf.
  { induction l as [|i l IH]; intros n ws Hn Hw; [done|]. cbn [fold_left length].
    replace (S (length l) + n)%nat with (length l + S n)%nat by lia. apply IH; [lia|]. by apply next_schedule_shape. }
  destruct (words_shape 8 key Hk) as [H1 H2].
  destruct (Hf (List.seq 8 52) 8%nat (rev (words key))) as [H3 H4]; [lia| |].
  - split; [by rewrite length_rev|]. by apply Forall_rev.
  - split; [by rewrite length_rev, H3|]. by apply Forall_rev.
Qed.

Lemma length_concat_words n ws : words_of n ws -> length (concat ws) = (4 * n)%nat.
Proof.
  intros [<- Hws]. induction Hws as [|w ws Hw _ IH]; [done|]. cbn. rewrite length_app, Hw, IH. lia.
Qed.

Lemma length_add_round_key s ws n :
  length s = 16%nat -> words_of n ws -> (4 <= n)%nat -> length (add_round_key s ws) = 16%nat.
Proof.
  intros Hs [Hl Hws] Hn. unfold add_round_key, word_xor. rewrite length_zip_with, Hs.
  rewrite (length_concat_words 4); [done|]. split; [rewrite length_take; lia|by apply Forall_take].
Qed.

Lemma length_mix_columns s : length s = 16%nat -> length (mix_columns s) = 16%nat.
Proof.
  intros Hs. destruct (words_shape 4 s Hs) as [H1 H2]. unfold mix_columns.
  rewrite (length_concat_words 4); [done|]. split; [by rewrite length_map|].
  apply List.Forall_map. revert H2. apply Forall_impl.
  by intros [|a [|b [|c [|d [|]]]]].
Qed.

Lemma length_cipher_rounds n s ws m :
  length s = 16%nat -> words_of m ws -> (4 * S n <= m)%nat -> length (cipher_rounds s ws n) = 16%nat.
Proof.
  revert s ws m. induction n as [|n IH]; intros s ws m Hs Hws Hm; cbn [cipher_rounds].
  - apply (length_add_round_key _ _ m); [done|done|lia].
  - apply (IH _ _ (m - 4)%nat).
    + apply (length_add_round_key _ _ m); [|done|lia]. by apply length_mix_columns.
    + destruct Hws as [H1 H2]. split; [rewrite length_drop; lia|by apply Forall_drop].
    + lia.
Qed.

Lemma length_encrypt key block :
  length key = 32%nat -> length block = 16%nat -> length (encrypt (key_expansion key) block) = 16%nat.
Proof.
  intros Hk Hb. destruct (key_expansion_shape key Hk) as [H1 H2]. unfold encrypt.
  apply (length_cipher_rounds _ _ _ 56); [|split|lia].
  - apply (length_add_round_key _ _ 60); [done|by split|lia].
  - rewrite length_drop. lia.
  - by apply Forall_drop.
Qed.

End Aes.

(** ** Galois/Counter Mode *)

Module Gcm.

(** Sixteen bytes as the 128-bit integer with the first byte the highest. *)
Definition be_value (b : list Z) : Z := fold_left (fun acc x => acc * 256 + x) b 0.
Definition be_bytes (n : nat) (x : Z) : list Z :=
  map (fun i => u8 (Z.shiftr x (8 * Z.of_nat (n - 1 - i)))) (List.seq 0 n).

(** Multiplication in GF(2^128) in GCM's bit order. *)
Definition gcm_r : Z := 225 * 2 ^ 120.
Fixpoint gf_mul_bits (n : nat) (x v : Z) : Z :=
  match n with
  | O => 0
  | S n =>
      Z.lxor (if Z.testbit x (Z.of_nat n) then v else 0)
             (gf_mul_bits n x (if Z.odd v then Z.lxor (Z.shiftr v 1) gcm_r else Z.shiftr v 1))
  end.
Definition gf_mul (x y : Z) : Z := gf_mul_bits 128 x y.

Fixpoint ghash (fuel : nat) (h y : Z) (data : list Z) : Z :=
  match fuel, data with
  | O, _ | _, [] => y
  | S fuel, _ =>
      let block := take 16 data in
      ghash fuel h (gf_mul (Z.lxor y (be_value (block ++ replicate (16 - length block) 0))) h) (drop 16 data)
  end.

Definition byte_xor (a b : ascii) : ascii :=
  match a, b with
  | Ascii a0 a1 a2 a3 a4 a5 a6 a7, Ascii b0 b1 b2 b3 b4 b5 b6 b7 =>
      Ascii (xorb a0 b0) (xorb a1 b1) (xorb a2 b2) (xorb a3 b3)
            (xorb a4 b4) (xorb a5 b5) (xorb a6 b6) (xorb a7 b7)
  end.

Definition nonceSize : nat := 12.
Definition tagSize : nat := 16.
Definition max_plaintext : Z := (2 ^ 32 - 2) * 16.

Section gcm.
Variable key : bytes.

Definition schedule : list (list Z) := Aes.key_expansion (byte_z <$> key).
Definition block_of (x : Z) : list Z := Aes.encrypt schedule (be_bytes 16 x).
Definition hash_key : Z := be_value (block_of 0).

(** The counter block of a nonce, and its successor modulo 2^32. *)
Definition counter0 (nonce : bytes) : Z := be_value (byte_z <$> nonce) * 2 ^ 32 + 1.
Definition inc32 (c : Z) : Z := (c - c mod 2 ^ 32) + u32 (c mod 2 ^ 32 + 1).

Fixpoint keystream (n : nat) (c : Z) : list Z :=
  match n with O => [] | S n => block_of c ++ keystream n (inc32 c) end.
(** As many counter blocks as the text has blocks, the last one cut off. *)
Definition counterCrypt (nonce text : bytes) : bytes :=
  let blocks := (length text / 16 + 1)%nat in
  zip_with byte_xor text (z_byte <$> take (length text) (keystream blocks (inc32 (counter0 nonce)))).

Definition auth_tag (nonce ct ad : bytes) : bytes :=
  let lens := be_bytes 8 (8 * Z.of_nat (length ad)) ++ be_bytes 8 (8 * Z.of_nat (length ct)) in
  let a := ghash (length ad) hash_key 0 (byte_z <$> ad) in
  let s := ghash 1 hash_key (ghash (length ct) hash_key a (byte_z <$> ct)) lens in
  z_byte <$> be_bytes 16 (Z.lxor s (be_value (block_of (counter0 nonce)))).

(** [Seal] panics when the nonce or the text has a length it does not take:
    [None].  [Open] returns an error then, and when the tag does not match. *)
Definition Seal (nonce plaintext ad : bytes) : option bytes :=
  if negb (length nonce =? nonceSize)%nat then None
  else if max_plaintext <? Z.of_nat (length plaintext) then None
  else let ct := counterCrypt nonce plaintext in Some (ct ++ auth_tag nonce ct ad).

Definition Open (nonce ciphertext ad : bytes) : option bytes :=
  if negb (length nonce =? nonceSize)%nat then None
  else if (length ciphertext <? tagSize)%nat then None
  else if max_plaintext + Z.of_nat tagSize <? Z.of_nat (length ciphertext) then None
  else
    let tag := drop (length ciphertext - tagSize) ciphertext in
    let ct := take (length ciphertext - tagSize) ciphertext in
    if bool_decide (auth_tag nonce ct ad = tag) then Some (counterCrypt nonce ct) else None.
End gcm.

(** *** What is sealed opens, and only that *)

Lemma byte_xor_cancel a b : byte_xor (byte_xor a b) b = a.
Proof.
  destruct a as [a0 a1 a2 a3 a4 a5 a6 a7], b as [b0 b1 b2 b3 b4 b5 b6 b7]. cbn.
  by rewrite !xorb_assoc, !xorb_nilpotent, !xorb_false_r.
Qed.

Lemma xor_cancel (t ks : bytes) :
  length ks = length t -> zip_with byte_xor (zip_with byte_xor t ks) ks = t.
Proof.
  revert ks. induction t as [|a t IH]; intros [|k ks] Hl; simplify_eq/=; [done|].
  by rewrite byte_xor_cancel, IH.
Qed.

Section facts.
Variable key : bytes.
Hypothesis key_length : length key = 32%nat.

Lemma length_keystream n c : length (keystream key n c) = (16 * n)%nat.
Proof using key_length.
  revert c. induction n as [|n IH]; intros c; [done|]. cbn [keystream].
  rewrite length_app, IH. unfold block_of, schedule.
  rewrite Aes.length_encrypt; [lia|by rewrite length_fmap|done].
Qed.

Lemma keystream_enough (text : bytes) c :
  length (z_byte <$> take (length text) (keystream key (length text / 16 + 1) c)) = length text.
Proof using key_length.
  rewrite length_fmap, length_take, length_keystream.
  pose proof (Nat.div_mod_eq (length text) 16) as H.
  pose proof (Nat.mod_upper_bound (length text) 16 ltac:(lia)). lia.
Qed.

Lemma length_counterCrypt nonce text : length (counterCrypt key nonce text) = length text.
Proof using key_length. unfold counterCrypt. rewrite length_zip_with, keystream_enough. lia. Qed.

Lemma counterCrypt_involutive nonce text :
  counterCrypt key nonce (counterCrypt key nonce text) = text.
Proof using key_length.
  unfold counterCrypt at 1. rewrite length_counterCrypt. unfold counterCrypt.
  apply xor_cancel, keystream_enough.
Qed.

Lemma length_auth_tag nonce ct ad : length (auth_tag key nonce ct ad) = tagSize.
Proof. unfold auth_tag. by rewrite length_fmap. Qed.

Lemma Open_Seal nonce text ad ct : Seal key nonce text ad = Some ct -> Open key nonce ct ad = Some text.
Proof using key_length.
  unfold Seal. destruct (length nonce =? nonceSize)%nat eqn:Hn; [|done]. cbn [negb].
  destruct (Z.ltb_spec max_plaintext (Z.of_nat (length text))) as [|Ht]; [done|]. intros [= <-].
  unfold Open. rewrite Hn. cbn [negb].
  rewrite !length_app, length_auth_tag, length_counterCrypt, Nat.add_sub.
  rewrite (proj2 (Nat.ltb_ge _ _)), (proj2 (Z.ltb_ge _ _)) by lia.
  rewrite take_app_length', drop_app_length' by (symmetry; apply length_counterCrypt).
  rewrite bool_decide_true by done. by rewrite counterCrypt_involutive.
Qed.

Lemma Seal_Open nonce text ad ct : Open key nonce ct ad = Some text -> Seal key nonce text ad = Some ct.
Proof using key_length.
  unfold Seal, Open. intros H. case_ifs; zbool.
  - rewrite length_counterCrypt, length_take in Hif3.
    apply Nat.ltb_ge in Hif0. lia.
  - rewrite counterCrypt_involutive, Hif2. by rewrite take_drop.
Qed.

Lemma Seal_defined nonce text ad :
  length nonce = nonceSize -> Z.of_nat (length text) <= max_plaintext -> is_Some (Seal key nonce text ad).
Proof.
  intros Hn Ht. unfold Seal. rewrite Hn. cbn [nonceSize negb Nat.eqb].
  rewrite (proj2 (Z.ltb_ge _ _)) by done. eauto.
Qed.

End facts.

(** *** Test vectors: FIPS 197 C.3, and GCM test cases 13, 14 and 16. *)

Example aes256_vector :
  hex_encode (Aes.encrypt (Aes.key_expansion (seqZ 0 32)) (map (fun i => 17 * i) (seqZ 0 16))) =
  "8ea2b7ca516745bfeafc49904b496089".
Proof. vm_compute. reflexivity. Qed.

Example gcm_vector_13 :
  option_map (fun b => hex_encode (byte_z <$> b)) (Seal (replicate 32 "000"%char) (replicate 12 "000"%char) [] []) =
  Some "530f8afbc74536b9a963b4f1c4cb738b".
Proof. vm_compute. reflexivity. Qed.

Example gcm_vector_14 :
  option_map (fun b => hex_encode (byte_z <$> b))
    (Seal (replicate 32 "000"%char) (replicate 12 "000"%char) (replicate 16 "000"%char) []) =
  Some "cea7403d4d606b6e074ec5d3baf39d18d0d1c8a799996bf0265b98b5d48ab919".
Proof. vm_compute. reflexivity. Qed.

Example gcm_vector_16 :
  option_map (fun b => hex_encode (byte_z <$> b))
    (Seal (z_byte <$> [254; 255; 233; 146; 134; 101; 115; 28; 109; 106; 143; 148; 103; 48; 131; 8; 254; 255; 233; 146; 134; 101; 115; 28; 109; 106; 143; 148; 103; 48; 131; 8])
       (z_byte <$> [202; 254; 186; 190; 250; 206; 219; 173; 222; 202; 248; 136])
       (z_byte <$> [217; 49; 50; 37; 248; 132; 6; 229; 165; 89; 9; 197; 175; 245; 38; 154; 134; 167; 169; 83; 21; 52; 247; 218; 46; 76; 48; 61; 138; 49; 138; 114; 28; 60; 12; 149; 149; 104; 9; 83; 47; 207; 14; 36; 73; 166; 181; 37; 177; 106; 237; 245; 170; 13; 230; 87; 186; 99; 123; 57])
       (z_byte <$> [254; 237; 250; 206; 222; 173; 190; 239; 254; 237; 250; 206; 222; 173; 190; 239; 171; 173; 218; 210])) =
  Some "522dc1f099567d07f47f37a32a84427d643a8cdcbfe5c0c97598a2bd2555d1aa8cb08e48590dbb3da7b08b1056828838c5f61e6393ba7a0abcc9f66276fc6ece0f4e1768cddf8853bb2d551b".
Proof. vm_compute. reflexivity. Qed.

End Gcm.
