(* ===== verification/GoJson.v ===== *)
(** * Package encoding/json: strings and integers

    What [json.Marshal] writes for a Go string and for an int64, and a reader of
    that output.  The reader is exact on ASCII text, which is all the canonical
    encodings of the repository hold; the readers built on it hand every other
    input to a decoder given as an argument. *)
From stdpp Require Import pretty.
From S2P Require Import Prelude GoLib.

Definition dq : ascii := ascii_of_nat 34.
Definition bslash : ascii := ascii_of_nat 92.

(** ** json.Marshal of a string *)

(** The bytes written for one ASCII byte (HTML escaping on). *)
Definition json_ascii (c : ascii) : string :=
  let z := byte_z c in
  if (z =? 34) || (z =? 92) then String bslash (String c EmptyString)
  else if z =? 8 then String bslash "b"
  else if z =? 9 then String bslash "t"
  else if z =? 10 then String bslash "n"
  else if z =? 12 then String bslash "f"
  else if z =? 13 then String bslash "r"
  else if (z <? 32) || (z =? 38) || (z =? 60) || (z =? 62) then
    String bslash (String "u" (String "0" (String "0"
      (String (hex_digit (z / 16)) (String (hex_digit (z mod 16)) EmptyString)))))
  else String c EmptyString.

(** UTF-8: which multi-byte sequences encode a rune. *)
Definition cont (c : ascii) : bool := (128 <=? byte_z c) && (byte_z c <? 192).
Definition utf8_2 (b0 b1 : ascii) : bool :=
  (194 <=? byte_z b0) && (byte_z b0 <=? 223) && cont b1.
Definition utf8_3 (b0 b1 b2 : ascii) : bool :=
  let x := byte_z b0 in
  (224 <=? x) && (x <=? 239) && cont b1 && cont b2 &&
  (negb (x =? 224) || (160 <=? byte_z b1)) && (negb (x =? 237) || (byte_z b1 <=? 159)).
Definition utf8_4 (b0 b1 b2 b3 : ascii) : bool :=
  let x := byte_z b0 in
  (240 <=? x) && (x <=? 244) && cont b1 && cont b2 && cont b3 &&
  (negb (x =? 240) || (144 <=? byte_z b1)) && (negb (x =? 244) || (byte_z b1 <=? 143)).

Definition json_bad : string := String bslash "ufffd".

(** U+2028 and U+2029 are escaped, other three-byte runes are copied. *)
Definition json_rune3 (b0 b1 b2 : ascii) : string :=
  if (byte_z b0 =? 226) && (byte_z b1 =? 128) && (byte_z b2 =? 168) then String bslash "u2028"
  else if (byte_z b0 =? 226) && (byte_z b1 =? 128) && (byte_z b2 =? 169) then String bslash "u2029"
  else String b0 (String b1 (String b2 EmptyString)).

Fixpoint json_body (s : string) : string :=
  match s with
  | EmptyString => EmptyString
  | String b0 s1 =>
      if byte_z b0 <? 128 then json_ascii b0 +:+ json_body s1
      else match s1 with
           | EmptyString => json_bad
           | String b1 s2 =>
               if utf8_2 b0 b1 then String b0 (String b1 (json_body s2))
               else match s2 with
                    | EmptyString => json_bad +:+ json_body s1
                    | String b2 s3 =>
                        if utf8_3 b0 b1 b2 then json_rune3 b0 b1 b2 +:+ json_body s3
                        else match s3 with
                             | EmptyString => json_bad +:+ json_body s1
                             | String b3 s4 =>
                                 if utf8_4 b0 b1 b2 b3 then
                                   String b0 (String b1 (String b2 (String b3 (json_body s4))))
                                 else json_bad +:+ json_body s1
                             end
                    end
           end
  end.

Definition json_string (s : string) : string := String dq (json_body s +:+ String dq EmptyString).

(** json.Marshal of an int64. *)
Definition json_int (z : Z) : string := format_d z.

(** ** Reading them back *)

Definition hex_val (c : ascii) : option Z :=
  if is_digit c then Some (byte_z c - 48)
  else if in_range "a" "f" c then Some (byte_z c - 87)
  else if in_range "A" "F" c then Some (byte_z c - 55)
  else None.

(** The body of a string literal up to its closing quote, and what follows it. *)
Fixpoint read_body (s : string) : option (string * string) :=
  match s with
  | EmptyString => None
  | String c s1 =>
      if Ascii.eqb c dq then Some (EmptyString, s1)
      else if Ascii.eqb c bslash then
        match s1 with
        | EmptyString => None
        | String e s2 =>
            let esc z := '(b, r) ← read_body s2; Some (String (z_byte z) b, r) in
            if Ascii.eqb e dq then esc 34 else if Ascii.eqb e bslash then esc 92
            else if Ascii.eqb e "/" then esc 47 else if Ascii.eqb e "b" then esc 8
            else if Ascii.eqb e "t" then esc 9 else if Ascii.eqb e "n" then esc 10
            else if Ascii.eqb e "f" then esc 12 else if Ascii.eqb e "r" then esc 13
            else if Ascii.eqb e "u" then
              match s2 with
              | String z0 (String z1 (String h (String l s3))) =>
                  if Ascii.eqb z0 "0" && Ascii.eqb z1 "0" then
                    match hex_val h, hex_val l with
                    | Some x, Some y =>
                        if x <? 8 then '(b, r) ← read_body s3; Some (String (z_byte (16 * x + y)) b, r)
                        else None
                    | _, _ => None
                    end
                  else None
              | _ => None
              end
            else None
        end
      else if byte_z c <? 32 then None
      else if 128 <=? byte_z c then None
      else '(b, r) ← read_body s1; Some (String c b, r)
  end.

Definition read_string (s : string) : option (string * string) :=
  match s with
  | String c s1 => if Ascii.eqb c dq then read_body s1 else None
  | EmptyString => None
  end.

(** A number without fraction or exponent: its text and what follows it. *)
Fixpoint span_number (s : string) : string * string :=
  match s with
  | EmptyString => (EmptyString, EmptyString)
  | String c s' =>
      if digit_or_minus c then let '(n, r) := span_number s' in (String c n, r) else (EmptyString, s)
  end.

Definition read_int (s : string) : option (Z * string) :=
  let '(n, r) := span_number s in z ← atoi n; Some (z, r).

(** ** The reader inverts the writer *)

Lemma read_body_ascii c t :
  (byte_z c <? 128) = true ->
  read_body (json_ascii c +:+ t) = '(b, r) ← read_body t; Some (String c b, r).
Proof.
  destruct c as [[] [] [] [] [] [] [] []]; intros H; try discriminate H; reflexivity.
Qed.

Lemma read_json_body s r :
  is_ascii s = true -> read_body (json_body s +:+ String dq r) = Some (s, r).
Proof.
  unfold is_ascii. induction s as [|c s IH]; intros H; [done|].
  cbn [string_forallb] in H. apply andb_true_iff in H as [Hc Hs].
  cbn [json_body]. rewrite Hc, <- string_app_assoc, read_body_ascii by done.
  by rewrite IH.
Qed.

Lemma read_json_string s r : is_ascii s = true -> read_string (json_string s +:+ r) = Some (s, r).
Proof.
  intros H. unfold json_string. cbn [read_string String.append].
  rewrite Ascii.eqb_refl, <- string_app_assoc. by apply read_json_body.
Qed.

Lemma digits_value_pretty x : forall s,
  digits_value 0 (pretty_N_go x s) = digits_value (Z.of_N x) s.
Proof.
  induction (N.lt_wf_0 x) as [x _ IH]. intros s. destruct (decide (0 < x)%N) as [Hx|Hx].
  - rewrite pretty_N_go_step by done. rewrite IH by (by apply N.div_lt). cbn [digits_value].
    pose proof (N.mod_lt x 10 ltac:(done)) as Hm. pose proof (N.div_mod x 10 ltac:(done)) as Hd.
    assert (is_digit (pretty_N_char (x `mod` 10)) = true /\
            byte_z (pretty_N_char (x `mod` 10)) - 48 = Z.of_N (x `mod` 10)) as [-> ->].
    { destruct (x `mod` 10)%N as [|p]; [done|]. do 4 (try done; destruct p as [p|p|]); done. }
    f_equal. lia.
  - assert (x = 0%N) as -> by lia. by rewrite pretty_N_go_0.
Qed.

Lemma digits_value_pretty_N (n : N) : digits_value 0 (pretty n) = Some (Z.of_N n).
Proof.
  unfold pretty, pretty_N. case_decide; [by subst|]. by rewrite digits_value_pretty.
Qed.

Lemma pretty_N_go_digits x : forall s,
  string_forallb is_digit s = true -> string_forallb is_digit (pretty_N_go x s) = true.
Proof.
  induction (N.lt_wf_0 x) as [x _ IH]. intros s Hs. destruct (decide (0 < x)%N) as [Hx|Hx].
  - rewrite pretty_N_go_step by done. apply IH; [by apply N.div_lt|].
    cbn [string_forallb]. rewrite Hs, andb_true_r.
    destruct (x `mod` 10)%N as [|p]; [done|]. by do 4 (try done; destruct p as [p|p|]).
  - assert (x = 0%N) as -> by lia. by rewrite pretty_N_go_0.
Qed.

Lemma pretty_N_digits (n : N) : string_forallb is_digit (pretty n) = true.
Proof. unfold pretty, pretty_N. case_decide; [done|]. by apply pretty_N_go_digits. Qed.

Lemma parse_digits_pretty (n : N) : parse_digits (pretty n) = Some (Z.of_N n).
Proof.
  pose proof (digits_value_pretty_N n) as H. unfold parse_digits.
  destruct (pretty n) eqn:E; [|done].
  destruct (decide (n = 0)%N) as [->|Hn]; [discriminate E|]. injection H as H. lia.
Qed.

Lemma format_d_nonneg z : 0 <= z -> format_d z = pretty (Z.to_N z).
Proof. intros Hz. destruct z as [|p|p]; [done|done|lia]. Qed.

Lemma format_d_neg z : z < 0 -> format_d z = String "-" (pretty (Z.to_N (- z))).
Proof. intros Hz. destruct z as [|p|p]; [lia|lia|done]. Qed.

Lemma atoi_format_d z : is_i64 z -> atoi (format_d z) = Some z.
Proof.
  intros Hz. unfold atoi, min_i64, max_i64.
  assert ((- 2 ^ 63 <=? z) && (z <=? 2 ^ 63 - 1) = true) as Hr.
  { unfold is_i64 in Hz. apply andb_true_iff. split; apply Z.leb_le; lia. }
  destruct (Z_lt_le_dec z 0) as [Hneg|Hpos].
  - rewrite format_d_neg by done. cbn [Ascii.eqb]. rewrite parse_digits_pretty.
    cbn. replace (- Z.of_N (Z.to_N (- z))) with z by lia. by rewrite Hr.
  - rewrite format_d_nonneg by done.
    pose proof (pretty_N_digits (Z.to_N z)) as Hd. pose proof (parse_digits_pretty (Z.to_N z)) as Hp.
    destruct (pretty (Z.to_N z)) as [|c s] eqn:E; [discriminate Hp|].
    cbn [string_forallb] in Hd. apply andb_true_iff in Hd as [Hc _].
    assert (Ascii.eqb c "-" = false /\ Ascii.eqb c "+" = false) as [-> ->].
    { split; apply not_true_iff_false; intros ->%Ascii.eqb_eq; discriminate Hc. }
    rewrite Hp. replace (Z.of_N (Z.to_N z)) with z by lia. by rewrite Hr.
Qed.

Definition number_ends (r : string) : bool :=
  match r with EmptyString => true | String c _ => negb (digit_or_minus c) end.

Lemma span_number_app n r :
  string_forallb digit_or_minus n = true -> number_ends r = true -> span_number (n +:+ r) = (n, r).
Proof.
  intros Hn Hr. induction n as [|c n IH].
  - destruct r as [|c r]; [done|]. cbn in *. apply negb_true_iff in Hr. by rewrite Hr.
  - cbn [string_forallb] in Hn. apply andb_true_iff in Hn as [Hc Hn].
    cbn [String.append span_number]. by rewrite Hc, IH.
Qed.

Lemma read_json_int z r : is_i64 z -> number_ends r = true -> read_int (json_int z +:+ r) = Some (z, r).
Proof.
  intros Hz Hr. unfold read_int, json_int.
  rewrite span_number_app by (done || apply format_d_bytes). by rewrite atoi_format_d.
Qed.

#[export] Hint Resolve read_json_string read_json_int : go.
