(* ===== verification/Sha256.v ===== *)
(** * SHA-256 (FIPS 180-4), as [crypto/sha256] computes it

    The content addresses of the CAS, the tap names and the MAC addresses are
    all derived from [sha256.Sum256], so it is modelled executably: digests in
    the witnesses are the real ones. *)
From S2P Require Import Prelude GoLib.

Definition add32 (x y : Z) : Z := u32 (x + y).
Definition rotr (n x : Z) : Z := Z.lor (Z.shiftr x n) (u32 (Z.shiftl x (32 - n))).
Definition not32 (x : Z) : Z := Z.lxor x (2 ^ 32 - 1).

Definition Ch (x y z : Z) : Z := Z.lxor (Z.land x y) (Z.land (not32 x) z).
Definition Maj (x y z : Z) : Z := Z.lxor (Z.lxor (Z.land x y) (Z.land x z)) (Z.land y z).
Definition Sigma0 (x : Z) : Z := Z.lxor (Z.lxor (rotr 2 x) (rotr 13 x)) (rotr 22 x).
Definition Sigma1 (x : Z) : Z := Z.lxor (Z.lxor (rotr 6 x) (rotr 11 x)) (rotr 25 x).
Definition sigma0 (x : Z) : Z := Z.lxor (Z.lxor (rotr 7 x) (rotr 18 x)) (Z.shiftr x 3).
Definition sigma1 (x : Z) : Z := Z.lxor (Z.lxor (rotr 17 x) (rotr 19 x)) (Z.shiftr x 10).

(** The round constants are the first 32 bits of the fractional parts of the cube
    roots of the first 64 primes, and the initial state those of the square roots
    of the first 8 (FIPS 180-4, sections 4.2.2 and 5.3.3). *)
Definition is_prime (n : Z) : bool :=
  forallb (fun d => negb (n mod d =? 0)) (seqZ 2 (n - 2)).
Definition primes : list Z :=
  Eval vm_compute in take 64 (List.filter is_prime (seqZ 2 320)).

Definition cube_root (n : Z) : Z :=
  fold_left (fun r k => if (r + 2 ^ k) ^ 3 <=? n then r + 2 ^ k else r) (rev (seqZ 0 37)) 0.

Definition K256 : list Z :=
  Eval vm_compute in map (fun p => cube_root (p * 2 ^ 96) mod 2 ^ 32) primes.
Definition sqrt_frac : list Z :=
  Eval vm_compute in map (fun p => Z.sqrt (p * 2 ^ 64) mod 2 ^ 32) (take 8 primes).

(** The eight working variables. *)
Record hash_state := HS {
  ha : Z; hb : Z; hc : Z; hd : Z; he : Z; hf : Z; hg : Z; hh : Z }.

Definition H0_256 : hash_state :=
  Eval vm_compute in
  match sqrt_frac with
  | [a; b; c; d; e; f; g; h] => HS a b c d e f g h
  | _ => HS 0 0 0 0 0 0 0 0
  end.

(** The message schedule, kept as a window of the last 16 words (oldest first). *)
Definition next_word (w : list Z) : Z :=
  match w with
  | [w0; w1; _; _; _; _; _; _; _; w9; _; _; _; _; w14; _] =>
      add32 (add32 (sigma1 w14) w9) (add32 (sigma0 w1) w0)
  | _ => 0
  end.

Definition round (s : hash_state) (k w : Z) : hash_state :=
  let t1 := add32 (add32 (add32 (hh s) (Sigma1 (he s))) (Ch (he s) (hf s) (hg s))) (add32 k w) in
  let t2 := add32 (Sigma0 (ha s)) (Maj (ha s) (hb s) (hc s)) in
  HS (add32 t1 t2) (ha s) (hb s) (hc s) (add32 (hd s) t1) (he s) (hf s) (hg s).

Fixpoint rounds (ks : list Z) (w : list Z) (s : hash_state) : hash_state :=
  match ks, w with
  | k :: ks', w0 :: wt => rounds ks' (wt ++ [next_word w]) (round s k w0)
  | _, _ => s
  end.

Definition compress (s : hash_state) (block : list Z) : hash_state :=
  let r := rounds K256 block s in
  HS (add32 (ha s) (ha r)) (add32 (hb s) (hb r)) (add32 (hc s) (hc r)) (add32 (hd s) (hd r))
     (add32 (he s) (he r)) (add32 (hf s) (hf r)) (add32 (hg s) (hg r)) (add32 (hh s) (hh r)).

(** Big-endian conversions between bytes and 32-bit words. *)
Fixpoint words_be (b : list Z) : list Z :=
  match b with
  | b0 :: b1 :: b2 :: b3 :: b' =>
      (((b0 * 256 + b1) * 256 + b2) * 256 + b3) :: words_be b'
  | _ => []
  end.

Definition bytes_be (x : Z) : list Z :=
  [u8 (Z.shiftr x 24); u8 (Z.shiftr x 16); u8 (Z.shiftr x 8); u8 x].

(** Padding: 0x80, zeros up to 56 mod 64, the bit length in 8 bytes. *)
Definition pad (b : list Z) : list Z :=
  let n := Z.of_nat (length b) in
  let zeros := Z.to_nat ((55 - n) mod 64) in
  b ++ [128] ++ replicate zeros 0 ++
  bytes_be (Z.shiftr (8 * n) 32) ++ bytes_be (u32 (8 * n)).

Fixpoint blocks (fuel : nat) (ws : list Z) (s : hash_state) : hash_state :=
  match fuel with
  | O => s
  | S fuel' => match ws with
               | [] => s
               | _ => blocks fuel' (drop 16 ws) (compress s (take 16 ws))
               end
  end.

(** [sha256.Sum256]: 32 bytes.  Every iteration consumes 16 words, so the
    number of words is enough fuel. *)
Definition Sum256 (data : list ascii) : list Z :=
  let ws := words_be (pad (byte_z <$> data)) in
  let s := blocks (length ws) ws H0_256 in
  bytes_be (ha s) ++ bytes_be (hb s) ++ bytes_be (hc s) ++ bytes_be (hd s) ++
  bytes_be (he s) ++ bytes_be (hf s) ++ bytes_be (hg s) ++ bytes_be (hh s).

(** ** Lemmas *)

Lemma length_Sum256 data : length (Sum256 data) = 32%nat.
Proof. done. Qed.

Lemma bytes_be_bound x : Forall (fun b => 0 <= b < 256) (bytes_be x).
Proof. unfold bytes_be. repeat constructor; by apply wrapu_bound. Qed.

Lemma Sum256_bound data : Forall (fun b => 0 <= b < 256) (Sum256 data).
Proof. unfold Sum256. rewrite !Forall_app. repeat split; apply bytes_be_bound. Qed.

#[export] Hint Resolve length_Sum256 Sum256_bound : go.

(** The published test vectors. *)
Example Sum256_empty :
  hex_encode (Sum256 []) = "e3b0c44298fc1c149afbf4c8996fb92427ae41e4649b934ca495991b7852b855".
Proof. vm_compute. reflexivity. Qed.

Example Sum256_abc :
  hex_encode (Sum256 ["a"; "b"; "c"]%char)
  = "ba7816bf8f01cfea414140de5dae2223b00361a396177a9cb410ff61f20015ad".
Proof. vm_compute. reflexivity. Qed.

Example Sum256_two_blocks :
  hex_encode (Sum256 (String.list_ascii_of_string
    "abcdbcdecdefdefgefghfghighijhijkijkljklmklmnlmnomnopnopq"))
  = "248d6a61d20638b8e5c026930c3e6039a33ce45964ff2167f6ecedd419db06c1".
Proof. vm_compute. reflexivity. Qed.

(** ** HMAC-SHA-256 (RFC 2104), as [crypto/hmac] computes it *)

Definition mac_block (key : list ascii) : list Z :=
  let k := if (64 <? length key)%nat then Sum256 key else byte_z <$> key in
  k ++ replicate (64 - length k) 0.
Definition padded (pad : Z) (key : list ascii) : list ascii :=
  (fun b => z_byte (Z.lxor b pad)) <$> mac_block key.
Definition hmac (key message : list ascii) : list ascii :=
  z_byte <$> Sum256 (padded 92 key ++ (z_byte <$> Sum256 (padded 54 key ++ message))).

Lemma length_hmac key message : length (hmac key message) = 32%nat.
Proof. unfold hmac. by rewrite length_fmap, length_Sum256. Qed.

(** RFC 4231, test case 2. *)
Example hmac_jefe :
  hex_encode (byte_z <$> hmac (String.list_ascii_of_string "Jefe")
    (String.list_ascii_of_string "what do ya want for nothing?"))
  = "5bdcc146bf60754e6a042426089575c75a003f089d2739839dec58b964ec3843".
Proof. vm_compute. reflexivity. Qed.
