(* ===== verification/Netconf.v ===== *)
(** * Per-sandbox network identities: [internal/netconf/identity.go]

    The allocator carves an IPv4 subnet into /30 blocks and hands one to each
    sandbox.  [Allocator] is the Go struct (the mutex makes every method one
    atomic step); [Acquire], [MarkInUse], [Release] and [TapForGuestIP] are its
    methods.  The invariant [wf] says that blocks, identities and sandbox ids
    are in bijection. *)
From S2P Require Import Prelude GoLib Sha256.

Module Alloc.

Definition maxIfaceName : Z := 15.

Record Identity := MkIdentity {
  TapName : string;
  GuestMAC : string;
  HostIP : IP;
  GuestIP : IP }.

#[export] Instance Identity_eq_dec : EqDecision Identity.
Proof. solve_decision. Defined.

Inductive alloc_error :=
| ErrSubnetExhausted (cidr : string)
| ErrBadSubnet
| ErrSubnetTooSmall
| ErrEmptyPrefix
| ErrPrefixTooLong
| ErrNoGuestIP
| ErrGuestBelowSubnet
| ErrNotGuestAddress.

Record Allocator := MkAllocator {
  cidr : string;
  base : Z;
  count : Z;
  prefix : string;
  next : Z;
  byID : gmap string Identity;
  inUse : gset Z;
  idIndex : gmap string Z }.

Definition ipToUint32 (ip : IP) : Z :=
  match to4 ip with
  | [b0; b1; b2; b3] =>
      Z.lor (Z.lor (Z.lor (u32 (Z.shiftl b0 24)) (u32 (Z.shiftl b1 16)))
                   (u32 (Z.shiftl b2 8))) b3
  | _ => 0
  end.

Definition uint32ToIP (v : Z) : IP :=
  to4 (IPv4 (u8 (Z.shiftr v 24)) (u8 (Z.shiftr v 16)) (u8 (Z.shiftr v 8)) (u8 v)).

(** [net.ParseCIDR] on an IPv4 network: the masked network address and the
    prefix length.  Everything else (malformed text, IPv6) is [None]; the
    constructor below refuses both. *)
Definition parse_cidr4 (s : string) : option (IP * Z) :=
  match cut_byte "/" s with
  | None => None
  | Some (addr, mask) =>
      match parse_v4 addr, parse_digits mask with
      | Some (a, b, c, d), Some ones =>
          if ones <=? 32 then
            let v := ((a * 256 + b) * 256 + c) * 256 + d in
            Some (uint32ToIP (Z.land v (2 ^ 32 - 2 ^ (32 - ones))), ones)
          else None
      | _, _ => None
      end
  end.

Definition NewAllocator (cidr tapPrefix : string) : res alloc_error Allocator :=
  match parse_cidr4 cidr with
  | None => Err ErrBadSubnet
  | Some (ip4, ones) =>
      if 30 <? ones then Err ErrSubnetTooSmall
      else if String.eqb tapPrefix "" then Err ErrEmptyPrefix
      else if maxIfaceName <? Z.of_nat (String.length tapPrefix) + 8 then Err ErrPrefixTooLong
      else Ok {| cidr := cidr; base := ipToUint32 ip4; count := u32 (Z.shiftl 1 (30 - ones));
                 prefix := tapPrefix; next := 0;
                 byID := ∅; inUse := ∅; idIndex := ∅ |}
  end.

(** [tapName] and [deriveMAC]: derived from the sha256 of the sandbox id. *)
Definition tapName (a : Allocator) (sandboxID : string) : string :=
  prefix a +:+ hex_encode (take 4 (Sum256 (String.list_ascii_of_string sandboxID))).

Definition mac_first (b : Z) : Z := Z.ldiff (Z.lor b 2) 1.

Definition deriveMAC (sandboxID : string) : string :=
  match Sum256 (String.list_ascii_of_string sandboxID) with
  | s0 :: s1 :: s2 :: s3 :: s4 :: s5 :: _ =>
      hex_encode [mac_first s0] +:+ ":" +:+ hex_encode [s1] +:+ ":" +:+ hex_encode [s2] +:+ ":"
      +:+ hex_encode [s3] +:+ ":" +:+ hex_encode [s4] +:+ ":" +:+ hex_encode [s5]
  | _ => ""
  end.

Definition identityForBlock (a : Allocator) (sandboxID : string) (block : Z) : Identity :=
  let blockBase := u32 (base a + u32 (4 * block)) in
  {| TapName := tapName a sandboxID;
     GuestMAC := deriveMAC sandboxID;
     HostIP := uint32ToIP (u32 (blockBase + 1));
     GuestIP := uint32ToIP (u32 (blockBase + 2)) |}.

(** The round-robin loop of [Acquire]: [fuel] iterations starting at [i]. *)
Fixpoint acquire_scan (a : Allocator) (fuel : nat) (i : Z) : option Z :=
  match fuel with
  | O => None
  | S fuel' =>
      let block := u32 (next a + i) mod count a in
      if bool_decide (block ∈ inUse a) then acquire_scan a fuel' (i + 1) else Some block
  end.

Definition Acquire (a : Allocator) (sandboxID : string) : Allocator * res alloc_error Identity :=
  match byID a !! sandboxID with
  | Some id => (a, Ok id)
  | None =>
      match acquire_scan a (Z.to_nat (count a)) 0 with
      | None => (a, Err (ErrSubnetExhausted (cidr a)))
      | Some block =>
          let ident := identityForBlock a sandboxID block in
          ({| cidr := cidr a; base := base a; count := count a; prefix := prefix a;
              next := u32 (block + 1) mod count a;
              byID := <[sandboxID := ident]> (byID a);
              inUse := {[block]} ∪ inUse a;
              idIndex := <[sandboxID := block]> (idIndex a) |}, Ok ident)
      end
  end.

(** The block index [MarkInUse] recovers from a recorded guest address. *)
Definition block_of_guest (a : Allocator) (guest : IP) : res alloc_error Z :=
  match to4 guest with
  | [] => Err ErrNoGuestIP
  | g =>
      let guestU := ipToUint32 g in
      if guestU <? u32 (base a + 2) then Err ErrGuestBelowSubnet
      else
        let offset := u32 (guestU - base a) in
        let block := u32 (offset - 2) / 4 in
        if negb (u32 (offset - 2) mod 4 =? 0) || (count a <=? block) then Err ErrNotGuestAddress
        else Ok block
  end.

Definition MarkInUse (a : Allocator) (sandboxID : string) (id : Identity)
  : Allocator * res alloc_error unit :=
  match block_of_guest a (GuestIP id) with
  | Err e => (a, Err e)
  | Ok block =>
      match byID a !! sandboxID with
      | Some _ => (a, Ok tt)
      | None =>
          ({| cidr := cidr a; base := base a; count := count a; prefix := prefix a;
              next := next a;
              byID := <[sandboxID := id]> (byID a);
              inUse := {[block]} ∪ inUse a;
              idIndex := <[sandboxID := block]> (idIndex a) |}, Ok tt)
      end
  end.

(** [TapForGuestIP] ranges over the map [byID]: [order] is the (arbitrary)
    order in which Go visits its entries. *)
Fixpoint tap_scan (order : list (string * Identity)) (want : IP) : string :=
  match order with
  | [] => ""
  | (_, id) :: rest => if ip_equal (GuestIP id) want then TapName id else tap_scan rest want
  end.

Definition TapForGuestIP (order : list (string * Identity)) (ip : IP) : string :=
  match to4 ip with
  | [] => ""
  | want => tap_scan order want
  end.

Definition Release (a : Allocator) (sandboxID : string) : Allocator :=
  match idIndex a !! sandboxID with
  | None => a
  | Some block =>
      {| cidr := cidr a; base := base a; count := count a; prefix := prefix a;
         next := next a;
         byID := delete sandboxID (byID a);
         inUse := inUse a ∖ {[block]};
         idIndex := delete sandboxID (idIndex a) |}
  end.

(** ** Invariant *)

(** A [net.IP] holds bytes. *)
Definition valid_ip (ip : IP) : Prop := Forall (fun b => 0 <= b < 256) ip.

Definition guest_addr (a : Allocator) (block : Z) : Z := base a + 4 * block + 2.

(** Blocks, ids and identities are in bijection, inside the subnet. *)
Record wf (a : Allocator) : Prop := {
  wf_count : 0 < count a <= 2 ^ 30;
  wf_base : 0 <= base a /\ base a + 4 * count a <= 2 ^ 32;
  wf_next : 0 <= next a < count a;
  wf_prefix : (1 <= String.length (prefix a) <= 7)%nat;
  wf_dom : forall id, is_Some (byID a !! id) <-> is_Some (idIndex a !! id);
  wf_index : forall id b, idIndex a !! id = Some b -> 0 <= b < count a /\ b ∈ inUse a;
  wf_owner : forall b, b ∈ inUse a -> exists id, idIndex a !! id = Some b;
  wf_inj : forall id1 id2 b,
    idIndex a !! id1 = Some b -> idIndex a !! id2 = Some b -> id1 = id2;
  wf_guest : forall id b i,
    idIndex a !! id = Some b -> byID a !! id = Some i ->
    to4 (GuestIP i) = uint32ToIP (guest_addr a b);
  wf_valid : forall id i, byID a !! id = Some i -> valid_ip (GuestIP i) }.

(** One atomic call on the allocator.  Crash re-adoption calls [MarkInUse] on
    the recorded identities of the surviving VMs; [step_mark] allows it for an
    identity whose block no other sandbox holds. *)
Inductive step : Allocator -> Allocator -> Prop :=
| step_acquire a id : step a (fst (Acquire a id))
| step_release a id : step a (Release a id)
| step_mark a id ident :
    valid_ip (GuestIP ident) ->
    (forall b, block_of_guest a (GuestIP ident) = Ok b -> byID a !! id = None -> b ∉ inUse a) ->
    step a (fst (MarkInUse a id ident)).

Definition reachable (a : Allocator) : Prop :=
  exists cidr pre a0, NewAllocator cidr pre = Ok a0 /\ rtc step a0 a.

(** Re-marking a list of recorded identities, as startup reconciliation does. *)
Definition mark_all (a : Allocator) (recs : list (string * Identity)) : Allocator :=
  fold_left (fun a r => fst (MarkInUse a (fst r) (snd r))) recs a.

(** ** Addresses as 32-bit words *)

Lemma length_uint32ToIP v : length (uint32ToIP v) = 4%nat.
Proof. done. Qed.

Lemma valid_uint32ToIP v : valid_ip (uint32ToIP v).
Proof. unfold uint32ToIP. rewrite to4_IPv4. repeat constructor; by apply wrapu_bound. Qed.

Lemma ipToUint32_uint32ToIP v : is_u32 v -> ipToUint32 (uint32ToIP v) = v.
Proof.
  intros Hv. unfold ipToUint32, uint32ToIP. rewrite to4_IPv4. cbn [to4 length].
  apply Z.bits_inj'. intros n Hn. unfold u32, u8.
  rewrite !Z.lor_spec, !testbit_wrapu, !Z.shiftl_spec by lia.
  destruct (Z.ltb_spec n 32).
  - destruct (decide (n < 8)); [|destruct (decide (n < 16)); [|destruct (decide (n < 24))]];
      bit_cases.
  - rewrite (testbit_high 32 v) by (done || lia). bit_cases.
Qed.

Lemma uint32ToIP_inj v w : is_u32 v -> is_u32 w -> uint32ToIP v = uint32ToIP w -> v = w.
Proof.
  intros Hv Hw H%(f_equal ipToUint32). by rewrite !ipToUint32_uint32ToIP in H.
Qed.

Lemma byte_of_word (x : Z) (n : Z) (b : Z) :
  0 <= b < 256 -> 0 <= n ->
  (forall i, 0 <= i < 8 -> Z.testbit x (i + n) = Z.testbit b i) ->
  u8 (Z.shiftr x n) = b.
Proof.
  intros Hb Hn Hx. apply Z.bits_inj'. intros i Hi. unfold u8.
  rewrite testbit_wrapu, Z.shiftr_spec by lia.
  destruct (Z.ltb_spec i 8); [by rewrite Hx by lia|].
  by rewrite (testbit_high 8 b) by lia.
Qed.

Lemma uint32ToIP_ipToUint32 ip :
  length ip = 4%nat -> valid_ip ip -> uint32ToIP (ipToUint32 ip) = ip.
Proof.
  intros Hl Hv. destruct ip as [|a [|b [|c [|d []]]]]; try done.
  unfold valid_ip in Hv. decompose_Forall_hyps.
  unfold uint32ToIP. rewrite to4_IPv4. cbn [ipToUint32 to4 length].
  assert (forall x n, 0 <= x < 256 -> 8 <= n -> Z.testbit x n = false) as Hhi
    by (intros; apply (testbit_high 8); lia).
  rewrite <- (Z.shiftr_0_r (Z.lor _ d)) at 4. unfold u32.
  repeat f_equal; apply byte_of_word; try lia; intros i Hi;
    rewrite !Z.lor_spec, !testbit_wrapu, !Z.shiftl_spec by lia; bit_cases.
  all: repeat match goal with
  | |- context [Z.testbit ?x ?m] =>
      first [ rewrite (Z.testbit_neg_r x m) by lia | rewrite (Hhi x m) by lia ]
  end; rewrite ?orb_false_r; simpl; f_equal; lia.
Qed.

Lemma ipToUint32_u32 ip : length ip = 4%nat -> valid_ip ip -> is_u32 (ipToUint32 ip).
Proof.
  intros Hl Hv. destruct ip as [|a [|b [|c [|d []]]]]; try done.
  unfold valid_ip in Hv. decompose_Forall_hyps. cbn [ipToUint32 to4 length].
  repeat apply lor_bound; try apply u32_bound; try lia.
Qed.

(** ** The round-robin scan *)

Lemma acquire_scan_sound a fuel i b :
  wf a -> acquire_scan a fuel i = Some b -> 0 <= b < count a /\ b ∉ inUse a.
Proof.
  intros Hwf. revert i. induction fuel as [|fuel IH]; intros i; simpl; [done|].
  case_bool_decide as Hin; [apply IH|]. intros [= <-]. split; [|done].
  apply Z.mod_pos_bound. apply Hwf.
Qed.

Lemma acquire_scan_none a fuel i :
  acquire_scan a fuel i = None ->
  forall j, i <= j < i + Z.of_nat fuel -> u32 (next a + j) mod count a ∈ inUse a.
Proof.
  revert i. induction fuel as [|fuel IH]; intros i Hs j Hj; simpl in *; [lia|].
  case_bool_decide as Hin; [|done].
  destruct (decide (j = i)) as [->|]; [done|]. apply (IH (i + 1)); [done|lia].
Qed.

(** A full turn of the cursor visits every block. *)
Lemma acquire_scan_full a :
  wf a -> acquire_scan a (Z.to_nat (count a)) 0 = None ->
  forall b, 0 <= b < count a -> b ∈ inUse a.
Proof.
  intros Hwf Hs b Hb. destruct (wf_count a Hwf), (wf_next a Hwf).
  pose proof (Z.mod_pos_bound (b - next a) (count a)) as Hj.
  assert (u32 (next a + (b - next a) mod count a) mod count a ∈ inUse a) as Hin
    by (apply (acquire_scan_none a _ _ Hs); lia).
  rewrite u32_small in Hin by (unfold is_u32; lia).
  rewrite Z.add_mod_idemp_r in Hin by lia.
  replace (next a + (b - next a)) with b in Hin by lia.
  by rewrite Z.mod_small in Hin by lia.
Qed.

(** ** Each operation preserves the invariant *)

Lemma guest_addr_u32 a b : wf a -> 0 <= b < count a -> is_u32 (guest_addr a b).
Proof. intros Hwf Hb. unfold is_u32, guest_addr. destruct (wf_base a Hwf). lia. Qed.

Lemma GuestIP_identityForBlock a id b :
  wf a -> 0 <= b < count a ->
  GuestIP (identityForBlock a id b) = uint32ToIP (guest_addr a b).
Proof.
  intros Hwf Hb. unfold identityForBlock, guest_addr. cbn [GuestIP].
  destruct (wf_base a Hwf), (wf_count a Hwf).
  by rewrite (u32_small (4 * b)), (u32_small (base a + 4 * b)), u32_small
    by (unfold is_u32; lia).
Qed.

Lemma guest_addr_inj a b1 b2 :
  wf a -> 0 <= b1 < count a -> 0 <= b2 < count a ->
  uint32ToIP (guest_addr a b1) = uint32ToIP (guest_addr a b2) -> b1 = b2.
Proof.
  intros Hwf H1 H2 H. apply uint32ToIP_inj in H; [|by apply guest_addr_u32..].
  unfold guest_addr in H. lia.
Qed.

Lemma not_in_index a id : wf a -> byID a !! id = None -> idIndex a !! id = None.
Proof.
  intros Hwf H. apply eq_None_not_Some. rewrite <- wf_dom by done. by rewrite H; intros [].
Qed.

(** Recording a fresh id on a free block, whatever the cursor becomes. *)
Lemma wf_record a id ident b nx :
  wf a -> 0 <= nx < count a -> byID a !! id = None ->
  0 <= b < count a -> b ∉ inUse a ->
  to4 (GuestIP ident) = uint32ToIP (guest_addr a b) -> valid_ip (GuestIP ident) ->
  wf {| cidr := cidr a; base := base a; count := count a; prefix := prefix a; next := nx;
        byID := <[id := ident]> (byID a); inUse := {[b]} ∪ inUse a;
        idIndex := <[id := b]> (idIndex a) |}.
Proof.
  intros Hwf Hnx Hid Hb Hfree Hg Hv. pose proof (not_in_index a id Hwf Hid) as Hidx.
  split; cbn; try apply Hwf; [done|..].
  - intros id'. rewrite !lookup_insert. case_decide; [by split; eauto|apply Hwf].
  - intros id' b'. rewrite lookup_insert. case_decide; simplify_eq; [set_solver|].
    intros []%(wf_index a Hwf). set_solver.
  - intros b' [->%elem_of_singleton|Hin]%elem_of_union.
    + exists id. by rewrite lookup_insert_eq.
    + destruct (wf_owner a Hwf b' Hin) as [id' Hid']. exists id'.
      rewrite lookup_insert_ne; [done|]. intros ->. congruence.
  - intros id1 id2 b'. rewrite !lookup_insert.
    repeat case_decide; intros; simplify_eq; try done.
    + by destruct (wf_index a Hwf id2 b').
    + by destruct (wf_index a Hwf id1 b').
    + by eapply (wf_inj a Hwf).
  - intros id' b' i'. rewrite !lookup_insert. case_decide; intros; simplify_eq; [done|].
    by eapply (wf_guest a Hwf).
  - intros id' i'. rewrite lookup_insert. case_decide; intros; simplify_eq; [done|].
    by eapply (wf_valid a Hwf).
Qed.

Lemma Acquire_wf a id : wf a -> wf (fst (Acquire a id)).
Proof.
  intros Hwf. unfold Acquire. destruct (byID a !! id) eqn:Hid; [done|].
  destruct (acquire_scan a _ 0) as [b|] eqn:Hs; [|done].
  apply acquire_scan_sound in Hs as [Hb Hfree]; [|done].
  apply wf_record; try done.
  - apply Z.mod_pos_bound. apply Hwf.
  - rewrite GuestIP_identityForBlock by done. apply to4_4. done.
  - rewrite GuestIP_identityForBlock by done. apply valid_uint32ToIP.
Qed.

Lemma block_of_guest_spec a ip b :
  wf a -> valid_ip ip ->
  block_of_guest a ip = Ok b <->
  to4 ip = uint32ToIP (guest_addr a b) /\ 0 <= b < count a.
Proof.
  intros Hwf Hv. unfold block_of_guest.
  destruct (wf_base a Hwf), (wf_count a Hwf).
  assert (valid_ip (to4 ip)) as Hv4.
  { unfold to4. repeat case_match; first [done | constructor | by apply Forall_drop]. }
  destruct (length_to4 ip) as [Hl|Hl]; [|rewrite Hl; by split; [|intros []]].
  generalize dependent (to4 ip). clear Hv ip. intros g Hv Hl.
  assert (forall b, 0 <= b < count a ->
            g = uint32ToIP (guest_addr a b) <-> ipToUint32 g = guest_addr a b) as Heq.
  { intros b' Hb'. split; [intros ->; by apply ipToUint32_uint32ToIP, guest_addr_u32|].
    intros <-. by rewrite uint32ToIP_ipToUint32. }
  pose proof (ipToUint32_u32 g Hl Hv) as Hu. unfold is_u32 in Hu.
  destruct g as [|g0 gs]; [done|]. generalize dependent (g0 :: gs). intros g _ _ Heq Hu.
  set (u := ipToUint32 g) in *. unfold guest_addr in *.
  rewrite u32_small by (unfold is_u32; lia).
  destruct (Z.ltb_spec u (base a + 2)).
  { split; [done|]. intros [E Hb]. apply Heq in E; lia. }
  rewrite (u32_small (u - base a)), u32_small by (unfold is_u32; lia).
  split.
  - destruct (Z.eqb_spec ((u - base a - 2) mod 4) 0); [|done].
    destruct (Z.leb_spec (count a) ((u - base a - 2) / 4)); [done|].
    intros [= <-]. rewrite Heq; Z.to_euclidean_division_equations; lia.
  - intros [E Hb]. apply Heq in E; [|done]. rewrite E.
    replace (base a + 4 * b + 2 - base a - 2) with (b * 4) by lia.
    rewrite Z.mod_mul, Z.div_mul by lia. simpl.
    by destruct (Z.leb_spec (count a) b); [lia|].
Qed.

Lemma MarkInUse_wf a id ident :
  wf a -> valid_ip (GuestIP ident) ->
  (forall b, block_of_guest a (GuestIP ident) = Ok b -> byID a !! id = None -> b ∉ inUse a) ->
  wf (fst (MarkInUse a id ident)).
Proof.
  intros Hwf Hv Hfree. unfold MarkInUse.
  destruct (block_of_guest a (GuestIP ident)) as [b|] eqn:Hb; [|done].
  destruct (byID a !! id) eqn:Hid; [done|].
  pose proof (proj1 (block_of_guest_spec a _ b Hwf Hv) Hb) as [Hg Hr].
  apply wf_record; try done; [apply Hwf|by apply Hfree].
Qed.

Lemma Release_wf a id : wf a -> wf (Release a id).
Proof.
  intros Hwf. unfold Release. destruct (idIndex a !! id) as [b|] eqn:Hid; [|done].
  split; cbn; try apply Hwf.
  - intros id'. rewrite !lookup_delete. case_decide; [by split; intros []|apply Hwf].
  - intros id' b'. rewrite lookup_delete. case_decide; [done|]. intros Hb'.
    destruct (wf_index a Hwf id' b' Hb'). split; [done|].
    apply elem_of_difference. split; [done|]. intros ->%elem_of_singleton.
    by pose proof (wf_inj a Hwf _ _ _ Hid Hb').
  - intros b' [Hin Hne]%elem_of_difference. destruct (wf_owner a Hwf b' Hin) as [id' Hid'].
    exists id'. rewrite lookup_delete_ne; [done|]. intros ->. set_solver.
  - intros id1 id2 b'. rewrite !lookup_delete. repeat case_decide; try done. apply Hwf.
  - intros id' b' i'. rewrite !lookup_delete. case_decide; [done|]. apply Hwf.
  - intros id' i'. rewrite lookup_delete. case_decide; [done|]. apply Hwf.
Qed.

(** ** Construction and reachability *)

Lemma land_mask v k : 0 <= k <= 32 -> is_u32 v ->
  Z.land v (2 ^ 32 - 2 ^ k) = v / 2 ^ k * 2 ^ k.
Proof.
  intros Hk Hv. rewrite <- Z.shiftr_div_pow2, <- Z.shiftl_mul_pow2 by lia.
  replace (2 ^ 32 - 2 ^ k) with (Z.shiftl (Z.ones (32 - k)) k).
  2: { rewrite Z.shiftl_mul_pow2, Z.ones_equiv by lia.
       replace (2 ^ 32) with (2 ^ (32 - k) * 2 ^ k); [lia|].
       rewrite <- Z.pow_add_r by lia. f_equal. lia. }
  apply Z.bits_inj'. intros n Hn. rewrite Z.land_spec, !Z.shiftl_spec by lia.
  destruct (decide (n < k)); [by rewrite !(Z.testbit_neg_r _ (n - k)), andb_false_r by lia|].
  rewrite Z.shiftr_spec by lia. replace (n - k + k) with n by lia.
  destruct (decide (n < 32)).
  - by rewrite Z.ones_spec_low, andb_true_r by lia.
  - by rewrite (testbit_high 32) by (done || lia).
Qed.

Lemma digits_value_nonneg acc s v : 0 <= acc -> digits_value acc s = Some v -> 0 <= v.
Proof.
  revert acc. induction s as [|c s IH]; intros acc Ha; simpl; [naive_solver lia|].
  unfold is_digit, in_range. case_ifs; [|done]. zbool. apply IH.
  change (byte_z "0") with 48 in *. lia.
Qed.

Lemma parse_v4_field_bound s v : parse_v4_field s = Some v -> 0 <= v < 256.
Proof.
  unfold parse_v4_field. destruct s as [|c s]; [done|].
  destruct (Ascii.eqb c "0" && _); [done|].
  destruct (parse_digits _) as [w|] eqn:E; [|done].
  destruct (Z.leb_spec w 255); [|done]. intros [= <-].
  apply digits_value_nonneg in E; lia.
Qed.

Lemma NewAllocator_wf cidr pre a : NewAllocator cidr pre = Ok a -> wf a.
Proof.
  unfold NewAllocator, parse_cidr4.
  destruct (cut_byte "/" cidr) as [[addr mask]|]; [|done].
  destruct (parse_v4 addr) as [[[[x y] z] w]|] eqn:Hv; [|done].
  destruct (parse_digits mask) as [ones|] eqn:Hm; [|done].
  case_ifs; try done. intros [= <-]. zbool.
  assert (0 <= ones) by (destruct mask; [done|]; by apply digits_value_nonneg in Hm).
  assert (is_u32 (((x * 256 + y) * 256 + z) * 256 + w)) as Hu.
  { unfold parse_v4 in Hv. repeat case_match; simplify_eq.
    repeat match goal with H : parse_v4_field _ = Some _ |- _ =>
      apply parse_v4_field_bound in H end. unfold is_u32. lia. }
  rewrite land_mask by (done || lia).
  assert (2 ^ (32 - ones) = 4 * 2 ^ (30 - ones)) as Hp.
  { change 4 with (2 ^ 2). rewrite <- Z.pow_add_r by lia. f_equal. lia. }
  assert (0 < 2 ^ (30 - ones) <= 2 ^ 30) as Hc.
  { split; [apply Z.pow_pos_nonneg; lia|apply Z.pow_le_mono_r; lia]. }
  set (v := ((x * 256 + y) * 256 + z) * 256 + w) in *.
  assert (0 <= v / 2 ^ (32 - ones) * 2 ^ (32 - ones) /\
          v / 2 ^ (32 - ones) * 2 ^ (32 - ones) + 2 ^ (32 - ones) <= 2 ^ 32) as [Hb1 Hb2].
  { assert (v / 2 ^ (32 - ones) < 2 ^ ones) as Hq.
    { apply Z.div_lt_upper_bound; [lia|]. rewrite <- Z.pow_add_r by lia.
      replace (32 - ones + ones) with 32 by lia. apply Hu. }
    assert (2 ^ 32 = 2 ^ ones * 2 ^ (32 - ones)) as ->
      by (rewrite <- Z.pow_add_r by lia; f_equal; lia).
    split; [apply Z.mul_nonneg_nonneg; [apply Z.div_pos; [apply Hu|lia]|lia]|nia]. }
  assert (u32 (Z.shiftl 1 (30 - ones)) = 2 ^ (30 - ones)) as Hcount.
  { rewrite Z.shiftl_1_l. apply u32_small. unfold is_u32. lia. }
  rewrite Hcount, ipToUint32_uint32ToIP by (unfold is_u32; lia).
  split; cbn [base count prefix next byID inUse idIndex]; try lia; try set_solver.
  - unfold maxIfaceName in *. destruct pre; [done|]. simpl in *. lia.
  - intros id. rewrite !lookup_empty. done.
Qed.

Lemma reachable_wf a : reachable a -> wf a.
Proof.
  intros (cidr & pre & a0 & Hnew & Hsteps). apply NewAllocator_wf in Hnew.
  induction Hsteps as [|x y z Hxy _ IH]; [done|]. apply IH.
  destruct Hxy; eauto using Acquire_wf, Release_wf, MarkInUse_wf.
Qed.

(** ** Lookup by guest address *)

Lemma ip_equal_to4 g want : length want = 4%nat -> ip_equal g want = true <-> to4 g = want.
Proof.
  intros Hw. unfold ip_equal, to4. rewrite Hw.
  destruct (decide (length g = 4%nat)) as [->|H4]; [apply bool_decide_eq_true|].
  rewrite (proj2 (Nat.eqb_neq _ _)) by done.
  destruct (decide (length g = 16%nat)) as [->|H16].
  - rewrite bool_decide_eq_true. case_decide; naive_solver.
  - generalize dependent (length g). intros n H4 H16.
    do 17 (destruct n as [|n]; [try done; by split; [|intros <-]|]).
    by split; [|intros <-].
Qed.

Lemma tap_scan_found order want i id :
  length want = 4%nat -> (id, i) ∈ order -> to4 (GuestIP i) = want ->
  (forall id' i', (id', i') ∈ order -> to4 (GuestIP i') = want -> TapName i' = TapName i) ->
  tap_scan order want = TapName i.
Proof.
  intros Hw Hin Hi. induction order as [|[id' i'] order IH]; [by apply not_elem_of_nil in Hin|].
  intros Huniq. simpl. destruct (ip_equal (GuestIP i') want) eqn:E.
  - apply ip_equal_to4 in E; [|done]. by eapply Huniq; [left|].
  - apply elem_of_cons in Hin as [[= <- <-]|Hin].
    + apply ip_equal_to4 in Hi; [congruence|done].
    + apply IH; [done|]. intros. by eapply Huniq; [right|].
Qed.

Lemma tap_scan_missing order want :
  length want = 4%nat ->
  (forall id i, (id, i) ∈ order -> to4 (GuestIP i) <> want) -> tap_scan order want = "".
Proof.
  intros Hw. induction order as [|[id i] order IH]; intros Hno; [done|]. simpl.
  destruct (ip_equal (GuestIP i) want) eqn:E.
  - apply ip_equal_to4 in E; [|done]. by destruct (Hno id i ltac:(left)).
  - apply IH. intros. by eapply Hno; right.
Qed.

Lemma to4_GuestIP_length a id i : wf a -> byID a !! id = Some i -> length (to4 (GuestIP i)) = 4%nat.
Proof.
  intros Hwf Hi. destruct (proj1 (wf_dom a Hwf id)) as [b Hb]; [by eexists|].
  by rewrite (wf_guest a Hwf id b i) by done.
Qed.

Lemma guest_ip_inj a id1 id2 i1 i2 :
  wf a -> byID a !! id1 = Some i1 -> byID a !! id2 = Some i2 ->
  to4 (GuestIP i1) = to4 (GuestIP i2) -> id1 = id2.
Proof.
  intros Hwf H1 H2 Heq.
  destruct (proj1 (wf_dom a Hwf id1)) as [b1 Hb1]; [by eexists|].
  destruct (proj1 (wf_dom a Hwf id2)) as [b2 Hb2]; [by eexists|].
  rewrite (wf_guest a Hwf id1 b1 i1), (wf_guest a Hwf id2 b2 i2) in Heq by done.
  apply guest_addr_inj in Heq as ->; [|done|by apply (wf_index a Hwf id1)|by apply (wf_index a Hwf id2)].
  by eapply (wf_inj a Hwf).
Qed.

(** ** Re-marking the recorded identities *)

Lemma block_of_guest_geometry a a' ip :
  base a = base a' -> count a = count a' -> block_of_guest a ip = block_of_guest a' ip.
Proof. intros Hb Hc. unfold block_of_guest. by rewrite Hb, Hc. Qed.

Lemma block_of_recorded a id i :
  wf a -> byID a !! id = Some i ->
  exists b, idIndex a !! id = Some b /\ block_of_guest a (GuestIP i) = Ok b.
Proof.
  intros Hwf Hi. destruct (proj1 (wf_dom a Hwf id)) as [b Hb]; [by eexists|].
  exists b. split; [done|]. apply block_of_guest_spec; [done|by apply (wf_valid a Hwf id)|].
  split; [by eapply wf_guest|by apply (wf_index a Hwf id)].
Qed.

(** Marking one more identity of [a] keeps the copy [s] inside [a]. *)
Lemma mark_one a s id i :
  wf a -> wf s -> base s = base a -> count s = count a ->
  byID s ⊆ byID a -> idIndex s ⊆ idIndex a -> byID a !! id = Some i -> byID s !! id = None ->
  let s' := fst (MarkInUse s id i) in
  wf s' /\ base s' = base a /\ count s' = count a /\ cidr s' = cidr s /\ prefix s' = prefix s /\
  byID s' = <[id := i]> (byID s) /\ byID s' ⊆ byID a /\ idIndex s' ⊆ idIndex a.
Proof.
  intros Ha Hs Hb Hc Hsub Hsubi Hi Hnone s'.
  destruct (block_of_recorded a id i Ha Hi) as (b & Hidx & Hblk).
  assert (block_of_guest s (GuestIP i) = Ok b) as Hblk'
    by (rewrite (block_of_guest_geometry s a); done).
  assert (wf s') as Hwf'.
  { apply MarkInUse_wf; [done|by apply (wf_valid a Ha id)|]. rewrite Hblk'. intros b' [= <-] _ Hin.
    destruct (wf_owner s Hs b Hin) as [id' Hid'].
    assert (idIndex a !! id' = Some b) by (by eapply lookup_weaken).
    assert (id' = id) as -> by (eapply (wf_inj a Ha); eassumption).
    by rewrite not_in_index in Hid'. }
  subst s'. revert Hwf'. unfold MarkInUse. rewrite Hblk', Hnone. cbn. intros.
  repeat (split; [done|]). by split; apply insert_subseteq_l.
Qed.

Lemma mark_all_spec a recs : forall s,
  wf a -> wf s -> base s = base a -> count s = count a ->
  byID s ⊆ byID a -> idIndex s ⊆ idIndex a ->
  NoDup recs.*1 ->
  (forall id i, (id, i) ∈ recs -> byID a !! id = Some i /\ byID s !! id = None) ->
  let s' := mark_all s recs in
  wf s' /\ cidr s' = cidr s /\ prefix s' = prefix s /\
  byID s' ⊆ byID a /\ idIndex s' ⊆ idIndex a /\ dom (byID s') = dom (byID s) ∪ list_to_set recs.*1.
Proof.
  induction recs as [|[id i] recs IH]; intros s Ha Hs Hb Hc Hsub Hsubi Hnd Hrecs.
  - cbn. repeat (split; [done|]). set_solver.
  - cbn zeta. change (mark_all s ((id, i) :: recs)) with (mark_all (fst (MarkInUse s id i)) recs).
    inversion Hnd as [|?? Hnin Hnd']; subst.
    destruct (Hrecs id i ltac:(left)) as [Hi Hnone].
    destruct (mark_one a s id i) as (W & B & C & D & P & E & F & G); try done.
    destruct (IH (fst (MarkInUse s id i))) as (W' & D' & P' & F' & G' & H'); try done.
    + intros id' i' Hin. destruct (Hrecs id' i' ltac:(by right)) as [Hi' Hnone'].
      split; [done|]. rewrite E, lookup_insert_ne; [done|]. intros <-. apply Hnin.
      apply list_elem_of_fmap. by exists (id, i').
    + split; [done|]. rewrite D', P'. repeat (split; [done|]).
      rewrite H', E, dom_insert_L. set_solver.
Qed.

Lemma map_subseteq_po_same_dom {A} (m1 m2 : gmap string A) :
  m1 ⊆ m2 -> dom m1 = dom m2 -> m1 = m2.
Proof.
  intros Hsub Hdom. apply map_eq. intros k.
  destruct (m2 !! k) as [x|] eqn:Hk.
  - assert (k ∈ dom m1) as [y Hy]%elem_of_dom by (rewrite Hdom, elem_of_dom; by eexists).
    rewrite Hy. symmetry. rewrite <- Hk. by apply (lookup_weaken m1).
  - apply not_elem_of_dom. rewrite Hdom. by apply not_elem_of_dom.
Qed.

Lemma dom_wf_eq a s :
  wf a -> wf s -> dom (byID s) = dom (byID a) -> dom (idIndex s) = dom (idIndex a).
Proof.
  intros Ha Hs Hd. apply set_eq. intros id.
  rewrite !elem_of_dom, <- (wf_dom a Ha), <- (wf_dom s Hs), <- !elem_of_dom. by rewrite Hd.
Qed.

Lemma inUse_determined a s : wf a -> wf s -> idIndex s = idIndex a -> inUse s = inUse a.
Proof.
  intros Ha Hs Hi. apply set_eq. intros b. split; intros Hb.
  - destruct (wf_owner s Hs b Hb) as [id Hid]. rewrite Hi in Hid. by apply (wf_index a Ha id).
  - destruct (wf_owner a Ha b Hb) as [id Hid]. rewrite <- Hi in Hid. by apply (wf_index s Hs id).
Qed.

(** ** Properties *)


Lemma tap_length a id : wf a -> (1 <= String.length (tapName a id) <= 15)%nat.
Proof.
  intros Hwf. unfold tapName. rewrite string_length_app. pose proof (wf_prefix a Hwf).
  pose proof (length_Sum256 (String.list_ascii_of_string id)) as Hl.
  destruct (Sum256 (String.list_ascii_of_string id)) as [|b0 [|b1 [|b2 [|b3 l]]]]; try done.
  change (take 4 (b0 :: b1 :: b2 :: b3 :: l)) with [b0; b1; b2; b3]. cbn [hex_encode String.length]. lia.
Qed.

Lemma mac_first_bits b : Z.testbit (mac_first b) 0 = false /\ Z.testbit (mac_first b) 1 = true.
Proof.
  unfold mac_first. rewrite !Z.ldiff_spec, !Z.lor_spec. split; cbn; rewrite ?orb_true_r, ?andb_false_r; done.
Qed.

(** The address of a sandbox identity: six bytes, locally administered, unicast. *)
Definition local_mac (s : string) : Prop :=
  exists b0 b1 b2 b3 b4 b5, Z.testbit b0 0 = false /\ Z.testbit b0 1 = true /\
    s = hex_encode [b0] +:+ ":" +:+ hex_encode [b1] +:+ ":" +:+ hex_encode [b2] +:+ ":"
        +:+ hex_encode [b3] +:+ ":" +:+ hex_encode [b4] +:+ ":" +:+ hex_encode [b5].

Lemma deriveMAC_local id : local_mac (deriveMAC id).
Proof.
  unfold deriveMAC. pose proof (length_Sum256 (String.list_ascii_of_string id)) as Hl.
  destruct (Sum256 (String.list_ascii_of_string id)) as [|b0 [|b1 [|b2 [|b3 [|b4 [|b5 l]]]]]]; try done.
  destruct (mac_first_bits b0). by exists (mac_first b0), b1, b2, b3, b4, b5.
Qed.


(** Exhaustion is exact.  [Acquire] for a new sandbox fails exactly when
    every /30 block of the subnet is held: the round-robin scan never misses a
    free block, and the failure is [ErrSubnetExhausted] naming the subnet. *)
Theorem Acquire_fails_iff_full (a : Allocator) (id : string) :
  reachable a -> byID a !! id = None ->
  (snd (Acquire a id) = Err (ErrSubnetExhausted (cidr a)) <->
   forall b, 0 <= b < count a -> b ∈ inUse a) /\
  (forall e, snd (Acquire a id) = Err e -> e = ErrSubnetExhausted (cidr a)).
Proof.
  intros Hwf%reachable_wf Hid. unfold Acquire. rewrite Hid.
  destruct (acquire_scan a _ 0) as [b|] eqn:Hs; cbn.
  - apply acquire_scan_sound in Hs as [Hb Hfree]; [|done].
    split; [|done]. split; [done|]. intros Hall. by destruct Hfree; apply Hall.
  - split; [|by intros e [= <-]]. split; [|done]. intros _. by apply acquire_scan_full.
Qed.

(** Crash recovery restores the allocation exactly.  Re-marking the recorded
    identities of the live sandboxes, in any order, on a fresh allocator over
    the same subnet rebuilds the same id-to-block assignment and the same set
    of blocks in use, so a later [Acquire] cannot hand out a live VM's /30. *)
Theorem recovery_exact (a a0 : Allocator) (recs : list (string * Identity)) :
  reachable a -> wf a0 -> byID a0 = ∅ ->
  base a0 = base a -> count a0 = count a ->
  recs ≡ₚ map_to_list (byID a) ->
  byID (mark_all a0 recs) = byID a /\
  idIndex (mark_all a0 recs) = idIndex a /\
  inUse (mark_all a0 recs) = inUse a.
Proof.
  intros Hwf%reachable_wf H0 Hemp Hb Hc Hperm.
  assert (idIndex a0 = ∅) as Hempi.
  { apply map_empty. intros id. apply not_in_index; [done|]. by rewrite Hemp. }
  destruct (mark_all_spec a recs a0) as (W & _ & _ & Hsub & Hsubi & Hdom); try done.
  - rewrite Hemp. apply map_empty_subseteq.
  - rewrite Hempi. apply map_empty_subseteq.
  - rewrite Hperm. apply NoDup_fst_map_to_list.
  - intros id i Hin. rewrite Hperm, elem_of_map_to_list in Hin. by rewrite Hemp.
  - assert (dom (byID (mark_all a0 recs)) = dom (byID a)) as Hd.
    { rewrite Hdom, Hemp, dom_empty_L, Hperm. apply set_eq. intros id.
      rewrite elem_of_union, elem_of_list_to_set, list_elem_of_fmap, elem_of_dom. split.
      - intros [[]%not_elem_of_empty|([? i] & -> & Hin)].
        rewrite elem_of_map_to_list in Hin. by eexists.
      - intros [i Hi]. right. exists (id, i). by rewrite elem_of_map_to_list. }
    assert (idIndex (mark_all a0 recs) = idIndex a) as Hidx.
    { apply map_subseteq_po_same_dom; [done|]. apply dom_wf_eq; done. }
    split; [by apply map_subseteq_po_same_dom|]. split; [done|].
    by apply inUse_determined.
Qed.

(** Query attribution.  Whatever order Go visits the map in, looking up a
    guest address returns the tap of the one live sandbox that holds it, and the
    empty string when no live sandbox does. *)
Theorem TapForGuestIP_attribution (a : Allocator) (order : list (string * Identity)) (ip : IP) :
  reachable a -> order ≡ₚ map_to_list (byID a) ->
  (forall id i, byID a !! id = Some i -> to4 (GuestIP i) = to4 ip ->
     TapForGuestIP order ip = TapName i) /\
  ((forall id i, byID a !! id = Some i -> to4 (GuestIP i) <> to4 ip) ->
     TapForGuestIP order ip = "").
Proof.
  intros Hwf%reachable_wf Hperm. unfold TapForGuestIP.
  destruct (length_to4 ip) as [Hl|Hl].
  - destruct (to4 ip) as [|w ws] eqn:Ew; [done|]. rewrite <- Ew in *. split.
    + intros id i Hi Heq. apply (tap_scan_found _ _ _ id); [done| |done|].
      * by rewrite Hperm, elem_of_map_to_list.
      * intros id' i' Hin Heq'. rewrite Hperm, elem_of_map_to_list in Hin.
        assert (id' = id) as -> by (apply (guest_ip_inj a id' id i' i); congruence).
        congruence.
    + intros Hno. apply tap_scan_missing; [done|]. intros id i Hin.
      rewrite Hperm, elem_of_map_to_list in Hin. by apply (Hno id).
  - rewrite Hl. split; [|done]. intros id i Hi Heq.
    pose proof (to4_GuestIP_length a id i Hwf Hi) as Hlen. by rewrite Heq in Hlen.
Qed.

(** ** Witnesses *)

(** A /29 holds two blocks. *)
Definition ex0 : Allocator :=
  {| cidr := "10.200.0.0/29"; base := 180879360; count := 2; prefix := "mt"; next := 0;
     byID := ∅; inUse := ∅; idIndex := ∅ |}.
Definition ex1 : Allocator := fst (Acquire ex0 "sb-1").
Definition ex2 : Allocator := fst (Acquire ex1 "sb-2").

Lemma ex0_new : NewAllocator "10.200.0.0/29" "mt" = Ok ex0.
Proof. vm_compute. reflexivity. Qed.

Lemma ex2_reachable : reachable ex2.
Proof.
  exists "10.200.0.0/29", "mt", ex0. split; [apply ex0_new|].
  eapply rtc_l; [apply (step_acquire ex0 "sb-1")|].
  eapply rtc_l; [apply (step_acquire _ "sb-2")|]. apply rtc_refl.
Qed.

Definition id_sb1 : Identity := identityForBlock ex0 "sb-1" 0.
Definition id_sb2 : Identity := identityForBlock ex1 "sb-2" 1.

Lemma ex2_sb1 : byID ex2 !! "sb-1" = Some id_sb1.
Proof. vm_compute. reflexivity. Qed.

Lemma ex2_sb2 : byID ex2 !! "sb-2" = Some id_sb2.
Proof. vm_compute. reflexivity. Qed.



Lemma Acquire_fails_iff_full_witness :
  snd (Acquire ex2 "sb-3") = Err (ErrSubnetExhausted "10.200.0.0/29") /\
  (forall b, 0 <= b < 2 -> b ∈ inUse ex2).
Proof.
  assert (byID ex2 !! "sb-3" = None) as Hnone by (vm_compute; reflexivity).
  assert (snd (Acquire ex2 "sb-3") = Err (ErrSubnetExhausted (cidr ex2))) as Hfail
    by (vm_compute; reflexivity).
  split; [exact Hfail|].
  exact (proj1 (proj1 (Acquire_fails_iff_full ex2 "sb-3" ex2_reachable Hnone)) Hfail).
Defined.

Lemma recovery_exact_witness :
  byID (mark_all ex0 [("sb-2", id_sb2); ("sb-1", id_sb1)]) = byID ex2 /\
  inUse (mark_all ex0 [("sb-2", id_sb2); ("sb-1", id_sb1)]) = inUse ex2.
Proof.
  destruct (recovery_exact ex2 ex0 [("sb-2", id_sb2); ("sb-1", id_sb1)]) as (H1 & _ & H2);
    [exact ex2_reachable|exact (NewAllocator_wf _ _ _ ex0_new)
    |vm_compute; reflexivity..| |split; [exact H1|exact H2]].
  vm_compute. solve [apply perm_swap | apply Permutation_refl].
Defined.

Lemma TapForGuestIP_attribution_witness :
  TapForGuestIP (map_to_list (byID ex2)) (IPv4 10 200 0 6) = TapName id_sb2.
Proof.
  destruct (TapForGuestIP_attribution ex2 (map_to_list (byID ex2)) (IPv4 10 200 0 6)
              ex2_reachable (Permutation_refl _)) as [H _].
  assert (to4 (GuestIP id_sb2) = to4 (IPv4 10 200 0 6)) as Heq by (vm_compute; reflexivity).
  exact (H "sb-2" id_sb2 ex2_sb2 Heq).
Defined.

End Alloc.
