(* ===== verification/Nftables.v ===== *)
(** * Egress allowlists and the rendered nftables rules

    Models [src/internal/netconf/nftables.go] (Module [Allow]: the allowlist
    parsers; Module [Nft]: the rendered ruleset and what it means for a packet)
    and [src/internal/network/network_apply.go] with the argv builders of
    [src/internal/netconf/commands.go] (Module [Apply]: the ordered host
    commands of setup and teardown). *)
From S2P Require Import Prelude GoLib.

Module Allow.

Record HostPort := mkHostPort { hp_IP : IP; hp_Port : Z }.

Inductive name_error :=
| EmptyName | WildcardNotSingle | WildcardBadDomain | WildcardMisplaced | InvalidDomain.

(** The error cases of the parsers; Go wraps each with the entry's text. *)
Inductive entry_error :=
| SplitError (e : addr_error)
| EmptyHost
| InvalidPort
| PortOutOfRange (p : Z)
| OnlyIPv4
| NameError (e : name_error).
Record allow_error := mkAllowError { ae_entry : string; ae_err : entry_error }.

#[global] Instance HostPort_eq_dec : EqDecision HostPort.
Proof. solve_decision. Defined.

Section Parse.
Context (parse_v6 : string -> option IP) (unicode_lower : string -> string).

Definition ParseAllowEntry (s : string) : res allow_error (option HostPort) :=
  match split_host_port s with
  | Err e => Err (mkAllowError s (SplitError e))
  | Ok (host, portStr) =>
      if String.eqb host "" then Err (mkAllowError s EmptyHost)
      else match atoi portStr with
           | None => Err (mkAllowError s InvalidPort)
           | Some port =>
               if (port <? 1) || (port >? 65535) then Err (mkAllowError s (PortOutOfRange port))
               else match parse_ip parse_v6 host with
                    | None => Ok None
                    | Some ip =>
                        match to4 ip with
                        | [] => Err (mkAllowError s OnlyIPv4)
                        | ip4 => Ok (Some (mkHostPort ip4 port))
                        end
                    end
           end
  end.

Fixpoint SplitAllowList (entries : list string) : res allow_error (list HostPort * list string) :=
  match entries with
  | [] => Ok ([], [])
  | e :: rest =>
      match ParseAllowEntry e with
      | Err err => Err err
      | Ok None =>
          match SplitAllowList rest with
          | Err err => Err err
          | Ok (enforceable, skipped) => Ok (enforceable, e :: skipped)
          end
      | Ok (Some hp) =>
          match SplitAllowList rest with
          | Err err => Err err
          | Ok (enforceable, skipped) => Ok (hp :: enforceable, skipped)
          end
      end
  end.

Definition label_byte (c : ascii) : bool :=
  is_lower c || is_upper c || is_digit c || Ascii.eqb c "-".

Definition isValidLabel (label : string) : bool :=
  if String.eqb label "" || (63 <? Z.of_nat (String.length label)) then false
  else if bool_decide (String.get 0 label = Some "-"%char)
          || bool_decide (String.get (String.length label - 1) label = Some "-"%char) then false
  else string_forallb label_byte label.

Definition isValidDomain (s : string) : bool :=
  if String.eqb s "" then false
  else let labels := split_byte "." s in
       if Z.of_nat (length labels) <? 2 then false
       else forallb isValidLabel labels.

Definition validateNameAllowEntry (host : string) : res name_error unit :=
  let name := trim_suffix "." host in
  if String.eqb name "" then Err EmptyName
  else if has_prefix "*." name then
    let domain := trim_prefix "*." name in
    if contains_byte "*" domain then Err WildcardNotSingle
    else if negb (isValidDomain domain) then Err WildcardBadDomain
    else Ok tt
  else if contains_byte "*" name then Err WildcardMisplaced
  else if negb (isValidDomain name) then Err InvalidDomain
  else Ok tt.

(** The parsing half of the loop body of [ParseNameAllowList]: what one entry
    grants, a name key with a port, or nothing when it is an IP entry. *)
Definition name_entry (e : string) : res allow_error (option (string * Z)) :=
  match split_host_port e with
  | Err err => Err (mkAllowError e (SplitError err))
  | Ok (host, portStr) =>
      if String.eqb host "" then Err (mkAllowError e EmptyHost)
      else match atoi portStr with
           | None => Err (mkAllowError e InvalidPort)
           | Some port =>
               if (port <? 1) || (port >? 65535) then Err (mkAllowError e (PortOutOfRange port))
               else match parse_ip parse_v6 host with
                    | Some _ => Ok None
                    | None =>
                        match validateNameAllowEntry host with
                        | Err verr => Err (mkAllowError e (NameError verr))
                        | Ok _ => Ok (Some (to_lower unicode_lower (trim_suffix "." host), port))
                        end
                    end
           end
  end.

(** The recording half: the two maps the loop grows are [names] and [seen],
    whose inner map is used as a set. *)
Definition record_name (names : gmap string (list Z)) (seen : gmap string (gset Z))
    (key : string) (port : Z) : gmap string (list Z) * gmap string (gset Z) :=
  let seen := match seen !! key with None => <[key := ∅]> seen | Some _ => seen end in
  let s := default ∅ (seen !! key) in
  if bool_decide (port ∈ s) then (names, seen)
  else (<[key := default [] (names !! key) ++ [port]]> names, <[key := {[port]} ∪ s]> seen).

Fixpoint parse_name_loop (names : gmap string (list Z)) (seen : gmap string (gset Z))
    (entries : list string) : res allow_error (gmap string (list Z)) :=
  match entries with
  | [] => Ok names
  | e :: rest =>
      match name_entry e with
      | Err err => Err err
      | Ok None => parse_name_loop names seen rest
      | Ok (Some (key, port)) =>
          let '(names', seen') := record_name names seen key port in
          parse_name_loop names' seen' rest
      end
  end.

Definition ParseNameAllowList (entries : list string) : res allow_error (gmap string (list Z)) :=
  match parse_name_loop ∅ ∅ entries with
  | Err err => Err err
  | Ok names => Ok (merge_sort Z.le <$> names)
  end.

(** ** The allowlist as a relation *)

(** [names] allows [port] for the name [key]. *)
Definition grants (names : gmap string (list Z)) (key : string) (port : Z) : Prop :=
  exists ports, names !! key = Some ports /\ port ∈ ports.

(** Loop invariant: [seen] holds exactly the recorded ports, each once. *)
Definition seen_inv (names : gmap string (list Z)) (seen : gmap string (gset Z)) : Prop :=
  forall key, NoDup (default [] (names !! key)) /\ names !! key <> Some [] /\
              (forall p, p ∈ default ∅ (seen !! key) <-> p ∈ default [] (names !! key)).

Lemma grants_default names key port :
  grants names key port <-> port ∈ default [] (names !! key).
Proof.
  unfold grants. destruct (names !! key) as [ports|]; simpl.
  - split; [by intros (? & [= <-] & ?)|by eauto].
  - split; [by intros (? & ? & ?)|]. by intros ?%not_elem_of_nil.
Qed.

Lemma record_name_spec names seen key port names' seen' :
  seen_inv names seen -> record_name names seen key port = (names', seen') ->
  seen_inv names' seen' /\
  (forall k p, grants names' k p <-> grants names k p \/ (k = key /\ p = port)).
Proof.
  intros Hinv. unfold record_name.
  set (seen1 := match seen !! key with None => <[key:=∅]> seen | Some _ => seen end).
  assert (forall k, default ∅ (seen1 !! k) = default ∅ (seen !! k)) as Hs1.
  { intros k. subst seen1. destruct (seen !! key) eqn:E; [done|].
    destruct (decide (k = key)) as [->|]; [by rewrite lookup_insert_eq, E|by rewrite lookup_insert_ne]. }
  rewrite Hs1. case_bool_decide as Hp; intros [= <- <-].
  - split; [intros k; rewrite Hs1; apply Hinv|].
    intros k p. rewrite !grants_default. destruct (Hinv key) as (_ & _ & Hk). rewrite Hk in Hp.
    split; [by left|]. by intros [?|[-> ->]].
  - split.
    + intros k. destruct (decide (k = key)) as [->|].
      * rewrite !lookup_insert_eq. simpl. destruct (Hinv key) as (Hnd & _ & Hk). split; [|split].
        -- apply list.NoDup_app. split; [done|]. split; [|apply NoDup_singleton].
           intros x Hx ->%list_elem_of_singleton. by apply Hp, Hk.
        -- intros [= ?%app_eq_nil]. naive_solver.
        -- intros p. rewrite elem_of_union, elem_of_singleton, elem_of_app, list_elem_of_singleton, Hk. tauto.
      * rewrite !lookup_insert_ne by done. rewrite Hs1. apply Hinv.
    + intros k p. rewrite !grants_default. destruct (decide (k = key)) as [->|].
      * rewrite lookup_insert_eq. simpl. rewrite elem_of_app, list_elem_of_singleton. intuition congruence.
      * rewrite lookup_insert_ne by done. intuition congruence.
Qed.

Lemma parse_name_loop_spec entries : forall names seen names',
  seen_inv names seen -> parse_name_loop names seen entries = Ok names' ->
  (forall k, NoDup (default [] (names' !! k)) /\ names' !! k <> Some []) /\
  (forall k p, grants names' k p <->
     grants names k p \/ exists e, e ∈ entries /\ name_entry e = Ok (Some (k, p))).
Proof.
  induction entries as [|e rest IH]; intros names seen names' Hinv; cbn [parse_name_loop].
  - intros [= <-]. split; [intros k; destruct (Hinv k) as (? & ? & _); done|]. set_solver.
  - destruct (name_entry e) as [[[key port]|]|] eqn:E; [| |done].
    + destruct (record_name names seen key port) as [names1 seen1] eqn:R.
      destruct (record_name_spec _ _ _ _ _ _ Hinv R) as [Hinv1 Hg]. intros Hl.
      destruct (IH _ _ _ Hinv1 Hl) as [Hnd Hgr]. split; [done|].
      intros k p. rewrite Hgr, Hg. split.
      * intros [[?|[-> ->]]|(e' & ? & ?)]; [by left|right; exists e|right; exists e']; split; by constructor || done.
      * intros [?|(e' & [->|?]%elem_of_cons & ?)]; [by left; left| |by right; exists e'].
        left; right. split; congruence.
    + intros Hl. destruct (IH _ _ _ Hinv Hl) as [Hnd Hgr]. split; [done|].
      intros k p. rewrite Hgr. split.
      * intros [?|(e' & ? & ?)]; [by left|right; exists e']; split; by constructor || done.
      * intros [?|(e' & [->|?]%elem_of_cons & ?)]; [by left|congruence|by right; exists e'].
Qed.

Lemma parse_name_loop_all_ok entries : forall names seen names',
  parse_name_loop names seen entries = Ok names' ->
  Forall (fun e => is_ok (name_entry e) = true) entries.
Proof.
  induction entries as [|e rest IH]; intros names seen names'; cbn [parse_name_loop]; [by constructor|].
  destruct (name_entry e) as [[[key port]|]|] eqn:E; [| |done].
  - destruct (record_name names seen key port). intros Hl. constructor; [by rewrite E|by eapply IH].
  - intros Hl. constructor; [by rewrite E|by eapply IH].
Qed.

Lemma parse_name_loop_error entries : forall names seen err,
  parse_name_loop names seen entries = Err err <->
  exists pre e post, entries = pre ++ e :: post /\ name_entry e = Err err /\
    Forall (fun e' => is_ok (name_entry e') = true) pre.
Proof.
  induction entries as [|e rest IH]; intros names seen err; cbn [parse_name_loop].
  - split; [done|]. intros ([|??] & ? & ? & ? & _); done.
  - transitivity (name_entry e = Err err \/ is_ok (name_entry e) = true /\
      exists pre e' post, rest = pre ++ e' :: post /\ name_entry e' = Err err /\
        Forall (fun e' => is_ok (name_entry e') = true) pre).
    + destruct (name_entry e) as [[[key port]|]|] eqn:E; simpl.
      * destruct (record_name names seen key port). rewrite IH. intuition congruence.
      * rewrite IH. intuition congruence.
      * intuition congruence.
    + split.
      * intros [He|(Hok & pre & e' & post & -> & He & Hpre)]; [by exists [], e, rest|].
        exists (e :: pre), e', post. auto.
      * intros ([|e0 pre] & e' & post & [= -> ->] & He & Hpre); [by left|].
        right. decompose_Forall_hyps. split; [done|]. by exists pre, e', post.
Qed.

(** ** The accepted keys *)

(** A key the resolver may enforce: a lowercase domain, or [*.] and one. *)
Definition lower_domain (s : string) : Prop :=
  isValidDomain s = true /\ string_map lower_byte s = s.
Definition egress_key (key : string) : Prop :=
  lower_domain key \/ exists D, key = "*." +:+ D /\ lower_domain D.

Lemma isValidLabel_lower l : isValidLabel (string_map lower_byte l) = isValidLabel l.
Proof.
  unfold isValidLabel. rewrite string_map_length, !string_map_get.
  assert (String.eqb (string_map lower_byte l) "" = String.eqb l "") as -> by by destruct l.
  assert (forall n, bool_decide (lower_byte <$> String.get n l = Some "-"%char)
                  = bool_decide (String.get n l = Some "-"%char)) as Hd.
  { intros n. apply bool_decide_ext. destruct (String.get n l) as [c|]; simpl; [|done].
    pose proof (lower_byte_fix "-" c eq_refl eq_refl). split; intros [= ?]; f_equal; tauto. }
  rewrite !Hd, string_forallb_map; [done|]. intros c. apply eqb_prop.
  revert c. apply all_bytes_spec. vm_compute. reflexivity.
Qed.

Lemma isValidDomain_lower s : isValidDomain (string_map lower_byte s) = isValidDomain s.
Proof.
  unfold isValidDomain. rewrite split_byte_map by (intros; by apply lower_byte_fix).
  assert (String.eqb (string_map lower_byte s) "" = String.eqb s "") as -> by by destruct s.
  rewrite length_map. assert (forallb isValidLabel (map (string_map lower_byte) (split_byte "." s))
    = forallb isValidLabel (split_byte "." s)) as ->; [|done].
  induction (split_byte "." s) as [|l ls IH]; simpl; [done|]. by rewrite isValidLabel_lower, IH.
Qed.

Lemma isValidDomain_ascii s : isValidDomain s = true -> is_ascii s = true.
Proof.
  unfold isValidDomain. destruct (String.eqb s ""); [done|]. destruct (_ <? 2); [done|].
  intros H. unfold is_ascii. rewrite <- (string_forallb_split _ "."); [|done].
  apply forallb_forall. intros l Hl. rewrite forallb_forall in H. specialize (H l Hl).
  unfold isValidLabel in H. case_ifs. eapply string_forallb_impl; [|exact H].
  intros c Hc. apply Z.ltb_lt. apply Z.ltb_lt.
  assert (negb (label_byte c) || (byte_z c <? 128) = true) as Hb.
  { clear. revert c. apply all_bytes_spec. vm_compute. reflexivity. }
  by rewrite Hc in Hb.
Qed.

(** A valid domain does not end in a dot. *)
Lemma isValidDomain_no_dot s : isValidDomain s = true -> trim_suffix "." s = s.
Proof.
  intros H. unfold trim_suffix. destruct (cut_suffix "." s) as [q|] eqn:E; [|done].
  apply cut_suffix_spec in E. subst s. exfalso. unfold isValidDomain in H.
  rewrite (split_byte_app "." q "") in H. case_ifs.
  rewrite forallb_app in H. simpl in H. by rewrite andb_false_r in H.
Qed.

Lemma to_lower_domain s :
  isValidDomain s = true -> to_lower unicode_lower s = string_map lower_byte s.
Proof. intros H. unfold to_lower. by rewrite isValidDomain_ascii. Qed.

Lemma lower_domain_map s : isValidDomain s = true -> lower_domain (string_map lower_byte s).
Proof.
  intros H. split; [by rewrite isValidDomain_lower|]. apply string_map_idemp, lower_byte_idemp.
Qed.

Lemma validateNameAllowEntry_key host u :
  validateNameAllowEntry host = Ok u ->
  egress_key (to_lower unicode_lower (trim_suffix "." host)).
Proof.
  unfold validateNameAllowEntry. set (name := trim_suffix "." host). cbv zeta.
  destruct (String.eqb name ""); [done|]. destruct (has_prefix "*." name) eqn:Hp.
  - destruct (contains_byte "*" _); [done|].
    destruct (isValidDomain (trim_prefix "*." name)) eqn:Hd; [|done]. intros _. right.
    apply has_prefix_spec in Hp as [D Hn]. unfold trim_prefix in Hd.
    rewrite (proj2 (cut_prefix_spec _ _ _) Hn) in Hd. simpl in Hd.
    exists (string_map lower_byte D). split; [|by apply lower_domain_map].
    assert (is_ascii ("*." +:+ D) = true) as Ha.
    { unfold is_ascii. rewrite string_forallb_app. exact (isValidDomain_ascii D Hd). }
    rewrite Hn. unfold to_lower. by rewrite Ha.
  - destruct (contains_byte "*" name); [done|].
    destruct (isValidDomain name) eqn:Hd; [|done]. intros _. left.
    rewrite to_lower_domain by done. by apply lower_domain_map.
Qed.

Lemma name_entry_key e key port :
  name_entry e = Ok (Some (key, port)) -> egress_key key /\ 1 <= port <= 65535.
Proof.
  unfold name_entry. destruct (split_host_port e) as [[host portStr]|]; [|done].
  destruct (String.eqb host ""); [done|]. destruct (atoi portStr) as [p|]; [|done].
  destruct ((p <? 1) || (p >? 65535)) eqn:Hr; [done|].
  destruct (parse_ip parse_v6 host); [done|].
  destruct (validateNameAllowEntry host) eqn:Hv; [|done]. intros [= <- <-].
  split; [by eapply validateNameAllowEntry_key|]. lia.
Qed.

Lemma parse_facts entries names :
  ParseNameAllowList entries = Ok names ->
  (forall key port, grants names key port <->
     exists e, e ∈ entries /\ name_entry e = Ok (Some (key, port))) /\
  (forall key ports, names !! key = Some ports ->
     egress_key key /\ ports <> [] /\ Sorted Z.le ports /\ NoDup ports /\
     Forall (fun p => 1 <= p <= 65535) ports).
Proof.
  unfold ParseNameAllowList.
  destruct (parse_name_loop ∅ ∅ entries) as [names0|err] eqn:E; [|done]. intros [= <-].
  assert (seen_inv ∅ ∅) as H0.
  { intros k. rewrite !lookup_empty. split; [constructor|]. split; [done|]. set_solver. }
  destruct (parse_name_loop_spec _ _ _ _ H0 E) as [Hnd Hg].
  assert (forall key port, grants (merge_sort Z.le <$> names0) key port <->
         exists e, e ∈ entries /\ name_entry e = Ok (Some (key, port))) as Hgr.
  { intros k p. rewrite grants_default, lookup_fmap.
    transitivity (grants names0 k p).
    - rewrite grants_default. destruct (names0 !! k); simpl; [|done].
      by rewrite merge_sort_Permutation.
    - rewrite Hg, grants_default, lookup_empty. simpl.
      split; [intros [?%not_elem_of_nil|?]|]; tauto. }
  split; [exact Hgr|]. intros key ports Hk. rewrite lookup_fmap in Hk.
    destruct (names0 !! key) as [ports0|] eqn:Hk0; [|done]. injection Hk as <-.
    destruct (Hnd key) as [Hn Hne]. rewrite Hk0 in Hn, Hne. simpl in Hn.
    assert (forall p, p ∈ merge_sort Z.le ports0 -> egress_key key /\ 1 <= p <= 65535) as Hp.
    { intros p Hp. assert (grants (merge_sort Z.le <$> names0) key p) as Hgk.
      { apply grants_default. by rewrite lookup_fmap, Hk0. }
      apply Hgr in Hgk as (e & _ & He). by eapply name_entry_key. }
    destruct ports0 as [|p0 ports0]; [done|].
    split; [|split; [|split; [|split]]].
    + apply (Hp p0). rewrite merge_sort_Permutation. by left.
    + intros Hnil. pose proof (merge_sort_Permutation Z.le (p0 :: ports0)) as Hperm.
      rewrite Hnil in Hperm. by apply Permutation_nil_cons in Hperm.
    + apply (Sorted_merge_sort Z.le).
    + by rewrite merge_sort_Permutation.
    + apply Forall_forall. intros p Hpp%list_elem_of_In. by apply Hp.
Qed.

(** [ParseNameAllowList] accepts a list exactly when every entry parses, and
    otherwise reports the first malformed entry.  The map it returns allows a
    port for a key exactly when some entry of the list grants it; its port lists
    are sorted, without duplicates and within 1..65535, and every key is a
    lowercase domain or a single leading [*.] followed by one. *)
Theorem ParseNameAllowList_spec (entries : list string) :
  match ParseNameAllowList entries with
  | Ok names =>
      Forall (fun e => is_ok (name_entry e) = true) entries /\
      (forall key port, grants names key port <->
         exists e, e ∈ entries /\ name_entry e = Ok (Some (key, port))) /\
      (forall key ports, names !! key = Some ports ->
         egress_key key /\ ports <> [] /\ Sorted Z.le ports /\ NoDup ports /\
         Forall (fun p => 1 <= p <= 65535) ports)
  | Err err =>
      exists pre e post, entries = pre ++ e :: post /\ name_entry e = Err err /\
        Forall (fun e' => is_ok (name_entry e') = true) pre
  end.
Proof.
  destruct (ParseNameAllowList entries) as [names|err] eqn:E.
  - split; [|by apply parse_facts]. unfold ParseNameAllowList in E.
    destruct (parse_name_loop ∅ ∅ entries) eqn:El; [|done]. by eapply parse_name_loop_all_ok.
  - unfold ParseNameAllowList in E. destruct (parse_name_loop ∅ ∅ entries) eqn:El; [done|].
    injection E as ->. by apply parse_name_loop_error in El.
Qed.

End Parse.
End Allow.

Module Nft.
Import Allow.

Definition SharedTableName : string := "mitos_egress".
Definition BaseChainName : string := "forward".
Definition DispatchMapName : string := "tapdispatch".
Definition SandboxChainName (tap : string) : string := "sb_" +:+ tap.
Definition SandboxAllowSetName (tap : string) : string := "sb_" +:+ tap +:+ "_dyn".
Definition SandboxAllowSet6Name (tap : string) : string := "sb_" +:+ tap +:+ "_dyn6".

Definition EgressDeny : string := "deny".
Definition EgressAllow : string := "allow".

Definition RenderSharedTable : string :=
  let table := SharedTableName in
  let base := BaseChainName in
  let dispatch := DispatchMapName in
  lines_text [
    "add table inet " +:+ table;
    "add chain inet " +:+ table +:+ " " +:+ base
      +:+ " { type filter hook forward priority 0 ; policy accept ; }";
    "add map inet " +:+ table +:+ " " +:+ dispatch +:+ " { type ifname : verdict ; }";
    "flush chain inet " +:+ table +:+ " " +:+ base;
    "add rule inet " +:+ table +:+ " " +:+ base +:+ " iifname vmap @" +:+ dispatch ].

Section Render.
Context (other_string : IP -> string) (quote_other : string -> string).

(** The lines [RenderSandboxChain] writes, in order. *)
Definition sandbox_chain_lines (tap : string) (guestIP : IP) (policy : string)
    (allow : list HostPort) (resolverIP : IP) : list string :=
  let table := SharedTableName in
  let chain := SandboxChainName tap in
  let dispatch := DispatchMapName in
  let saddr := "ip saddr " +:+ ip_string other_string guestIP in
  let set := SandboxAllowSetName tap in
  let set6 := SandboxAllowSet6Name tap in
  let final := if String.eqb policy EgressAllow then "accept" else "drop" in
    [ "add chain inet " +:+ table +:+ " " +:+ chain;
      "add rule inet " +:+ table +:+ " " +:+ chain +:+ " " +:+ saddr
        +:+ " ct state established,related accept" ]
    ++ map (fun hp =>
         "add rule inet " +:+ table +:+ " " +:+ chain +:+ " " +:+ saddr
           +:+ " ip daddr " +:+ ip_string other_string (hp_IP hp)
           +:+ " tcp dport " +:+ format_d (hp_Port hp) +:+ " accept") allow
    ++ match resolverIP with
       | [] => []
       | _ => [ "add rule inet " +:+ table +:+ " " +:+ chain +:+ " " +:+ saddr
                  +:+ " ip daddr " +:+ ip_string other_string resolverIP +:+ " udp dport 53 accept";
                "add rule inet " +:+ table +:+ " " +:+ chain +:+ " " +:+ saddr
                  +:+ " ip daddr " +:+ ip_string other_string resolverIP +:+ " tcp dport 53 accept" ]
       end
    ++ [ "add set inet " +:+ table +:+ " " +:+ set
           +:+ " { type ipv4_addr . inet_service ; flags timeout ; }";
         "add rule inet " +:+ table +:+ " " +:+ chain +:+ " " +:+ saddr
           +:+ " ip daddr . tcp dport @" +:+ set +:+ " accept";
         "add set inet " +:+ table +:+ " " +:+ set6
           +:+ " { type ipv6_addr . inet_service ; flags timeout ; }";
         "add rule inet " +:+ table +:+ " " +:+ chain
           +:+ " ip6 daddr . tcp dport @" +:+ set6 +:+ " accept";
         "add rule inet " +:+ table +:+ " " +:+ chain +:+ " " +:+ saddr +:+ " " +:+ final;
         "add rule inet " +:+ table +:+ " " +:+ chain +:+ " meta nfproto ipv6 " +:+ final;
         "add element inet " +:+ table +:+ " " +:+ dispatch +:+ " { "
           +:+ go_quote quote_other tap +:+ " : jump " +:+ chain +:+ " }" ].

Definition RenderSandboxChain (tap : string) (guestIP : IP) (policy : string)
    (allow : list HostPort) (resolverIP : IP) : string :=
  lines_text (sandbox_chain_lines tap guestIP policy allow resolverIP).

(** ** What the rendered rules say

    The rules a script adds to one chain, in order: a script is one command per
    line. *)
Definition script_rules (chain script : string) : list string :=
  omap (cut_prefix ("add rule inet " +:+ SharedTableName +:+ " " +:+ chain +:+ " "))
       (split_byte (ascii_of_nat 10) script).

(** The names of the sets a script adds. *)
Definition script_sets (script : string) : list string :=
  omap (fun l => match cut_prefix ("add set inet " +:+ SharedTableName +:+ " ") l with
                 | Some rest => fst <$> cut_byte " " rest
                 | None => None
                 end)
       (split_byte (ascii_of_nat 10) script).

Inductive verdict := VAccept | VDrop.

(** The shapes of the rules of a sandbox chain. *)
Inductive rule :=
| CtEstablished (saddr : IP)
| TcpDport (saddr daddr : IP) (port : Z)
| UdpDport (saddr daddr : IP) (port : Z)
| DynSet (saddr : IP) (set : string)
| DynSet6 (set : string)
| FinalSaddr (saddr : IP) (v : verdict)
| FinalV6 (v : verdict).

Definition verdict_text (v : verdict) : string :=
  match v with VAccept => "accept" | VDrop => "drop" end.

Definition saddr_text (ip : IP) : string := "ip saddr " +:+ ip_string other_string ip.

Definition rule_text (r : rule) : string :=
  match r with
  | CtEstablished s => saddr_text s +:+ " ct state established,related accept"
  | TcpDport s d p => saddr_text s +:+ " ip daddr " +:+ ip_string other_string d
                        +:+ " tcp dport " +:+ format_d p +:+ " accept"
  | UdpDport s d p => saddr_text s +:+ " ip daddr " +:+ ip_string other_string d
                        +:+ " udp dport " +:+ format_d p +:+ " accept"
  | DynSet s set => saddr_text s +:+ " ip daddr . tcp dport @" +:+ set +:+ " accept"
  | DynSet6 set => "ip6 daddr . tcp dport @" +:+ set +:+ " accept"
  | FinalSaddr s v => saddr_text s +:+ " " +:+ verdict_text v
  | FinalV6 v => "meta nfproto ipv6 " +:+ verdict_text v
  end.

(** The rules of one sandbox, as data. *)
Definition final_verdict (policy : string) : verdict :=
  if String.eqb policy EgressAllow then VAccept else VDrop.

Definition chain_rules (tap : string) (guestIP : IP) (policy : string)
    (allow : list HostPort) (resolverIP : IP) : list rule :=
  [CtEstablished guestIP]
  ++ map (fun hp => TcpDport guestIP (hp_IP hp) (hp_Port hp)) allow
  ++ match resolverIP with
     | [] => []
     | _ => [UdpDport guestIP resolverIP 53; TcpDport guestIP resolverIP 53]
     end
  ++ [DynSet guestIP (SandboxAllowSetName tap); DynSet6 (SandboxAllowSet6Name tap);
      FinalSaddr guestIP (final_verdict policy); FinalV6 (final_verdict policy)].

(** A forwarded packet, and the current contents of the named sets. *)
Inductive l4 := Tcp | Udp | OtherL4.
Record packet := mkPacket {
  p_v6 : bool; p_saddr : IP; p_daddr : IP; p_l4 : l4; p_dport : Z; p_established : bool }.
Definition sets := string -> IP -> Z -> bool.

#[global] Instance l4_eq_dec : EqDecision l4.
Proof. solve_decision. Defined.

(** The documented meaning of the rule shapes: [None] when the rule does not
    match the packet. *)
Definition rule_sem (S : sets) (p : packet) (r : rule) : option verdict :=
  let v4from s := negb (p_v6 p) && bool_decide (p_saddr p = s) in
  match r with
  | CtEstablished s => if v4from s && p_established p then Some VAccept else None
  | TcpDport s d port =>
      if v4from s && bool_decide (p_daddr p = d) && bool_decide (p_l4 p = Tcp) && (p_dport p =? port)
      then Some VAccept else None
  | UdpDport s d port =>
      if v4from s && bool_decide (p_daddr p = d) && bool_decide (p_l4 p = Udp) && (p_dport p =? port)
      then Some VAccept else None
  | DynSet s set =>
      if v4from s && bool_decide (p_l4 p = Tcp) && S set (p_daddr p) (p_dport p)
      then Some VAccept else None
  | DynSet6 set =>
      if p_v6 p && bool_decide (p_l4 p = Tcp) && S set (p_daddr p) (p_dport p)
      then Some VAccept else None
  | FinalSaddr s v => if v4from s then Some v else None
  | FinalV6 v => if p_v6 p then Some v else None
  end.

(** [nft] is the packet filter's reading of one rule's text.  The verdict of the
    forward hook for a packet arriving on [tap]: the dispatch map jumps into the
    sandbox chain, the first rule that gives a verdict decides, and a packet no
    rule decides returns to the base chain, whose policy is accept. *)
Definition nft_reader := string -> sets -> packet -> option verdict.

Fixpoint first_verdict (nft : nft_reader) (S : sets) (p : packet) (rules : list string) : option verdict :=
  match rules with
  | [] => None
  | r :: rest => match nft r S p with
                 | Some v => Some v
                 | None => first_verdict nft S p rest
                 end
  end.

Definition hook_verdict (nft : nft_reader) (S : sets) (p : packet) (tap script : string) : verdict :=
  default VAccept (first_verdict nft S p (script_rules (SandboxChainName tap) script)).

(** [nft] reads each of [rules] with its documented meaning. *)
Definition reads (nft : nft_reader) (rules : list rule) : Prop :=
  Forall (fun r => forall S p, nft (rule_text r) S p = rule_sem S p r) rules.

(** ** Reading the rendered script back *)

Section Chain.
Context (tap : string) (guestIP : IP) (policy : string) (allow : list HostPort) (resolverIP : IP).
Hypothesis tap_plain : string_forallb quote_plain tap = true.
Hypothesis guest4 : length guestIP = 4%nat.
Hypothesis allow4 : Forall (fun hp => length (hp_IP hp) = 4%nat) allow.
Hypothesis resolver4 : resolverIP = [] \/ length resolverIP = 4%nat.

Ltac no_nl :=
  repeat rewrite contains_byte_app;
  rewrite ?(forallb_not_contains quote_plain (ascii_of_nat 10) tap tap_plain eq_refl),
    ?format_d_no_byte by done;
  repeat rewrite ip_string_no_byte by done;
  reflexivity.

Lemma rule_line_cut r :
  cut_prefix ("add rule inet " +:+ SharedTableName +:+ " " +:+ SandboxChainName tap +:+ " ")
    ("add rule inet " +:+ SharedTableName +:+ " " +:+ SandboxChainName tap +:+ " " +:+ r) = Some r.
Proof.
  apply cut_prefix_spec. rewrite <- !string_app_assoc. reflexivity.
Qed.

Lemma omap_some {A B} (f : A -> option B) x y l l' :
  f x = Some y -> omap f l = l' -> omap f (x :: l) = y :: l'.
Proof. intros H <-. simpl. by rewrite H. Qed.

Lemma omap_none {A B} (f : A -> option B) x l l' :
  f x = None -> omap f l = l' -> omap f (x :: l) = l'.
Proof. intros H <-. simpl. by rewrite H. Qed.

(** [read_lines]: a rule line contributes its rule, any other line nothing. *)
Ltac read_lines :=
  repeat first [ apply omap_none; [reflexivity|]
               | apply omap_some; [exact (rule_line_cut _)|] ]; try reflexivity.

Lemma render_lines :
  split_byte (ascii_of_nat 10) (RenderSandboxChain tap guestIP policy allow resolverIP)
  = sandbox_chain_lines tap guestIP policy allow resolverIP ++ [EmptyString].
Proof.
  apply split_lines_text. unfold sandbox_chain_lines. cbv zeta. repeat apply Forall_app_2.
  - repeat constructor; unfold SandboxChainName; no_nl.
  - apply Forall_map. eapply list.Forall_impl; [exact allow4|]. intros hp Hhp. simpl in Hhp.
    unfold SandboxChainName. no_nl.
  - destruct resolver4 as [->|Hr]; [constructor|]. destruct resolverIP as [|b0 r0] eqn:E; [constructor|].
    rewrite <- E in *. repeat constructor; unfold SandboxChainName; no_nl.
  - unfold go_quote. rewrite tap_plain.
    repeat constructor; unfold SandboxChainName, SandboxAllowSetName, SandboxAllowSet6Name;
      destruct (String.eqb policy EgressAllow); no_nl.
Qed.

Lemma script_rules_render :
  script_rules (SandboxChainName tap) (RenderSandboxChain tap guestIP policy allow resolverIP)
  = map rule_text (chain_rules tap guestIP policy allow resolverIP).
Proof.
  unfold script_rules. rewrite render_lines. unfold sandbox_chain_lines. cbv zeta.
  rewrite !omap_app. unfold chain_rules. rewrite !map_app, <- !app_assoc. f_equal; [|f_equal; [|f_equal]].
  - read_lines.
  - clear allow4. induction allow as [|hp rest IH]; [done|]. simpl map. read_lines. exact IH.
  - destruct resolverIP; [done|]. read_lines.
  - rewrite <- omap_app. cbn [app]. unfold final_verdict.
    destruct (String.eqb policy EgressAllow); read_lines.
Qed.

(** A set name ends at the first space of its line. *)
Lemma cut_byte_app c a b : contains_byte c a = false -> cut_byte c (a +:+ String c b) = Some (a, b).
Proof.
  induction a as [|d a IH]; simpl; [by rewrite Ascii.eqb_refl|].
  rewrite contains_byte_cons. intros [-> Ha]%orb_false_iff. by rewrite IH.
Qed.

Lemma script_sets_render :
  contains_byte " " tap = false ->
  script_sets (RenderSandboxChain tap guestIP policy allow resolverIP)
  = [SandboxAllowSetName tap; SandboxAllowSet6Name tap].
Proof.
  intros Hsp. unfold script_sets. rewrite render_lines. unfold sandbox_chain_lines. cbv zeta.
  rewrite !omap_app.
  set (f := fun l : string => match cut_prefix _ l with Some rest => _ | None => None end).
  assert (omap f (map (fun hp => "add rule inet " +:+ SharedTableName +:+ " " +:+ SandboxChainName tap
    +:+ " " +:+ ("ip saddr " +:+ ip_string other_string guestIP) +:+ " ip daddr "
    +:+ ip_string other_string (hp_IP hp) +:+ " tcp dport " +:+ format_d (hp_Port hp) +:+ " accept") allow) = [])
    as ->.
  { clear allow4. induction allow; [done|]. simpl map. by apply omap_none. }
  assert (forall s rest, contains_byte " " s = false ->
    f ("add set inet " +:+ SharedTableName +:+ " " +:+ s +:+ String " " rest) = Some s) as Hset.
  { intros s rest Hs. unfold f.
    rewrite (proj2 (cut_prefix_spec _ _ (s +:+ String " " rest))) by reflexivity.
    by rewrite cut_byte_app. }
  assert (omap f match resolverIP with [] => [] | _ =>
    [ "add rule inet " +:+ SharedTableName +:+ " " +:+ SandboxChainName tap +:+ " "
        +:+ ("ip saddr " +:+ ip_string other_string guestIP)
        +:+ " ip daddr " +:+ ip_string other_string resolverIP +:+ " udp dport 53 accept";
      "add rule inet " +:+ SharedTableName +:+ " " +:+ SandboxChainName tap +:+ " "
        +:+ ("ip saddr " +:+ ip_string other_string guestIP)
        +:+ " ip daddr " +:+ ip_string other_string resolverIP +:+ " tcp dport 53 accept" ] end = []) as ->.
  { by destruct resolverIP. }
  match goal with |- (omap f ?A ++ _) ++ omap f ?C = _ =>
    change (omap f A) with (@nil string); change (omap f C) with (@nil string) end.
  rewrite app_nil_r, !app_nil_l.
  repeat first [ apply omap_none; [reflexivity|]
    | apply omap_some; [apply Hset; unfold SandboxAllowSetName, SandboxAllowSet6Name;
                        by rewrite !contains_byte_app, Hsp|] ]; try reflexivity.
Qed.

(** ** Verdicts *)

Fixpoint first_sem (S : sets) (p : packet) (rules : list rule) : option verdict :=
  match rules with
  | [] => None
  | r :: rest => match rule_sem S p r with Some v => Some v | None => first_sem S p rest end
  end.

Lemma first_verdict_reads nft S p rules :
  reads nft rules -> first_verdict nft S p (map rule_text rules) = first_sem S p rules.
Proof. induction 1 as [|r rest Hr _ IH]; simpl; [done|]. by rewrite Hr, IH. Qed.

Definition accept_rule (r : rule) : bool :=
  match r with FinalSaddr _ _ | FinalV6 _ => false | _ => true end.
Definition rule_matches (S : sets) (p : packet) (r : rule) : bool :=
  match rule_sem S p r with Some _ => true | None => false end.

Lemma first_sem_accepts S p rs rest :
  forallb accept_rule rs = true ->
  first_sem S p (rs ++ rest) = if existsb (rule_matches S p) rs then Some VAccept else first_sem S p rest.
Proof.
  induction rs as [|r rs IH]; simpl; [done|]. intros [Hr Hrs]%andb_true_iff.
  specialize (IH Hrs). unfold rule_matches at 1.
  assert (rule_sem S p r = None \/ rule_sem S p r = Some VAccept) as [->| ->]; [|done|done].
  clear IH. destruct r; try done; simpl; case_match; auto.
Qed.

(** The accept rules of a sandbox, i.e. all but the two final verdicts. *)
Definition accept_rules : list rule :=
  [CtEstablished guestIP]
  ++ map (fun hp => TcpDport guestIP (hp_IP hp) (hp_Port hp)) allow
  ++ match resolverIP with
     | [] => []
     | _ => [UdpDport guestIP resolverIP 53; TcpDport guestIP resolverIP 53]
     end
  ++ [DynSet guestIP (SandboxAllowSetName tap); DynSet6 (SandboxAllowSet6Name tap)].

Lemma hook_verdict_split nft S p :
  reads nft (chain_rules tap guestIP policy allow resolverIP) ->
  hook_verdict nft S p tap (RenderSandboxChain tap guestIP policy allow resolverIP)
  = if existsb (rule_matches S p) accept_rules then VAccept
    else default VAccept (first_sem S p [FinalSaddr guestIP (final_verdict policy); FinalV6 (final_verdict policy)]).
Proof.
  intros Hr. unfold hook_verdict. rewrite script_rules_render, first_verdict_reads by done.
  assert (chain_rules tap guestIP policy allow resolverIP
    = accept_rules ++ [FinalSaddr guestIP (final_verdict policy); FinalV6 (final_verdict policy)]) as ->.
  { unfold chain_rules, accept_rules. by rewrite <- !app_assoc. }
  rewrite first_sem_accepts; [by destruct (existsb _ _)|].
  unfold accept_rules. rewrite !forallb_app. simpl.
  assert (forall l, forallb accept_rule (map (fun hp => TcpDport guestIP (hp_IP hp) (hp_Port hp)) l) = true) as ->.
  { intros l. by induction l. }
  by destruct resolverIP.
Qed.

(** What an egress policy of deny lets a packet from the guest reach. *)
Definition egress_allowed (S : sets) (p : packet) : Prop :=
  p_established p = true \/
  (p_l4 p = Tcp /\ mkHostPort (p_daddr p) (p_dport p) ∈ allow) \/
  (resolverIP <> [] /\ p_daddr p = resolverIP /\ p_dport p = 53 /\ (p_l4 p = Udp \/ p_l4 p = Tcp)) \/
  (p_l4 p = Tcp /\ S (SandboxAllowSetName tap) (p_daddr p) (p_dport p) = true).

Lemma rule_matches_tcp S p d port :
  p_v6 p = false -> p_saddr p = guestIP ->
  rule_matches S p (TcpDport guestIP d port) = true <->
  p_l4 p = Tcp /\ p_daddr p = d /\ p_dport p = port.
Proof.
  clear tap_plain guest4 allow4 resolver4.
  intros H6 Hs. unfold rule_matches. simpl. rewrite H6, Hs. simpl.
  rewrite (bool_decide_true (guestIP = guestIP)) by done.
  destruct (Z.eqb_spec (p_dport p) port); repeat case_bool_decide; simpl; intuition congruence.
Qed.

Lemma allow_matches S p :
  p_v6 p = false -> p_saddr p = guestIP ->
  existsb (rule_matches S p) (map (fun hp => TcpDport guestIP (hp_IP hp) (hp_Port hp)) allow) = true
  <-> p_l4 p = Tcp /\ mkHostPort (p_daddr p) (p_dport p) ∈ allow.
Proof.
  clear tap_plain guest4 allow4 resolver4.
  intros H6 Hs. rewrite existsb_exists. setoid_rewrite in_map_iff. split.
  - intros (r & (hp & <- & Hin) & Hm). apply rule_matches_tcp in Hm as (? & Hd & Hp); [|done..].
    split; [done|]. rewrite Hd, Hp. apply list_elem_of_In. by destruct hp.
  - intros [Ht Hin%list_elem_of_In]. eexists. split; [by exists (mkHostPort (p_daddr p) (p_dport p))|].
    by apply rule_matches_tcp.
Qed.

Lemma accept_rules_v4 S p :
  p_v6 p = false -> p_saddr p = guestIP ->
  existsb (rule_matches S p) accept_rules = true <-> egress_allowed S p.
Proof.
  clear tap_plain guest4 allow4 resolver4.
  intros H6 Hs. unfold accept_rules, egress_allowed.
  rewrite !existsb_app, !orb_true_iff, allow_matches by done.
  assert (existsb (rule_matches S p) [CtEstablished guestIP] = p_established p) as ->.
  { unfold rule_matches. simpl. rewrite H6, Hs, bool_decide_true by done. by destruct (p_established p). }
  assert (existsb (rule_matches S p)
    [DynSet guestIP (SandboxAllowSetName tap); DynSet6 (SandboxAllowSet6Name tap)] = true <->
    p_l4 p = Tcp /\ S (SandboxAllowSetName tap) (p_daddr p) (p_dport p) = true) as ->.
  { unfold rule_matches. simpl. rewrite H6, Hs, bool_decide_true by done. simpl.
    case_bool_decide; simpl; [|naive_solver]. destruct (S _ _ _); naive_solver. }
  do 2 (apply or_iff_compat_l). apply or_iff_compat_r.
  destruct resolverIP as [|b0 r0] eqn:E; [simpl; naive_solver|]. rewrite <- E.
  change (existsb (rule_matches S p) [UdpDport guestIP resolverIP 53; TcpDport guestIP resolverIP 53])
    with (rule_matches S p (UdpDport guestIP resolverIP 53)
          || (rule_matches S p (TcpDport guestIP resolverIP 53) || false)).
  rewrite orb_false_r, orb_true_iff, rule_matches_tcp by done.
  assert (rule_matches S p (UdpDport guestIP resolverIP 53) = true <->
    p_daddr p = resolverIP /\ p_l4 p = Udp /\ p_dport p = 53) as ->.
  { unfold rule_matches. simpl. rewrite H6, Hs, (bool_decide_true (guestIP = guestIP)) by done. simpl.
    destruct (Z.eqb_spec (p_dport p) 53); repeat case_bool_decide; simpl; intuition congruence. }
  assert (resolverIP <> []) by congruence. tauto.
Qed.

Lemma accept_rules_v6 S p :
  p_v6 p = true ->
  existsb (rule_matches S p) accept_rules = true <->
  p_l4 p = Tcp /\ S (SandboxAllowSet6Name tap) (p_daddr p) (p_dport p) = true.
Proof.
  clear tap_plain guest4 allow4 resolver4.
  intros H6. unfold accept_rules. rewrite !existsb_app, !orb_true_iff.
  assert (existsb (rule_matches S p) (map (fun hp => TcpDport guestIP (hp_IP hp) (hp_Port hp)) allow) = false) as ->.
  { induction allow as [|hp rest IH]; [done|]. simpl. rewrite IH.
    unfold rule_matches. simpl. by rewrite H6. }
  assert (existsb (rule_matches S p) match resolverIP with
     | [] => []
     | _ => [UdpDport guestIP resolverIP 53; TcpDport guestIP resolverIP 53] end = false) as ->.
  { destruct resolverIP; [done|]. unfold rule_matches. simpl. by rewrite H6. }
  unfold rule_matches. simpl. rewrite H6. simpl.
  case_bool_decide; simpl; [|naive_solver]. destruct (S _ _ _); naive_solver.
Qed.

Lemma accept_rules_spoofed S p :
  p_v6 p = false -> p_saddr p <> guestIP -> existsb (rule_matches S p) accept_rules = false.
Proof.
  clear tap_plain guest4 allow4 resolver4.
  intros H6 Hs. apply not_true_iff_false. rewrite existsb_exists. intros (r & Hin & Hm).
  assert (match r with CtEstablished s | TcpDport s _ _ | UdpDport s _ _ | DynSet s _ => s = guestIP
          | DynSet6 _ => True | _ => False end) as Hr.
  { unfold accept_rules in Hin. rewrite !in_app_iff, in_map_iff in Hin.
    destruct resolverIP; destruct Hin as [[<-|[]]|[(hp & <- & _)|[Hin|[<-|[<-|[]]]]]]; try done.
    destruct Hin as [<-|[<-|[]]]; done. }
  unfold rule_matches in Hm.
  destruct r; try done; subst; simpl in Hm; rewrite H6 in Hm; simpl in Hm;
    rewrite ?bool_decide_false in Hm by done; done.
Qed.
(** Under a deny policy the rendered chain is exact: an IPv4 packet from the
    sandbox's own address is forwarded if and only if it belongs to an
    established connection, goes to an allowlisted address and TCP port, is DNS
    to the resolver, or hits a live pin of the sandbox's own set; an IPv6 packet
    is forwarded if and only if it hits a live pin of the sandbox's IPv6 set. *)
Theorem egress_deny_exact (nft : nft_reader) (S : sets) (p : packet) :
  policy <> EgressAllow ->
  reads nft (chain_rules tap guestIP policy allow resolverIP) ->
  (p_v6 p = false -> p_saddr p = guestIP ->
     hook_verdict nft S p tap (RenderSandboxChain tap guestIP policy allow resolverIP) = VAccept
     <-> egress_allowed S p) /\
  (p_v6 p = true ->
     hook_verdict nft S p tap (RenderSandboxChain tap guestIP policy allow resolverIP) = VAccept
     <-> p_l4 p = Tcp /\ S (SandboxAllowSet6Name tap) (p_daddr p) (p_dport p) = true).
Proof.
  intros Hpol Hr. rewrite hook_verdict_split by done.
  assert (final_verdict policy = VDrop) as Hf.
  { unfold final_verdict. by rewrite (proj2 (String.eqb_neq _ _) Hpol). }
  split.
  - intros H6 Hs. rewrite <- (accept_rules_v4 S p H6 Hs).
    destruct (existsb (rule_matches S p) accept_rules); [done|].
    simpl. by rewrite H6, Hs, Hf, bool_decide_true.
  - intros H6. rewrite <- (accept_rules_v6 S p H6).
    destruct (existsb (rule_matches S p) accept_rules); [done|].
    simpl. by rewrite H6, Hf.
Qed.

(** An IPv4 packet whose source is not the sandbox's own address matches no rule
    of its chain, the final drop included, and returns to the base chain, whose
    policy accepts it: the deny policy does not hold for spoofed sources. *)
Theorem egress_spoofed_source_accepted (nft : nft_reader) (S : sets) (p : packet) :
  reads nft (chain_rules tap guestIP policy allow resolverIP) ->
  p_v6 p = false -> p_saddr p <> guestIP ->
  hook_verdict nft S p tap (RenderSandboxChain tap guestIP policy allow resolverIP) = VAccept.
Proof.
  intros Hr H6 Hs. rewrite hook_verdict_split, accept_rules_spoofed by done.
  simpl. by rewrite H6, bool_decide_false.
Qed.
End Chain.

End Render.

(** ** A concrete reader and sandbox *)

(** A reader that knows the rules of one table. *)
Definition table_nft (other_string : IP -> string) (rules : list rule) : nft_reader :=
  fun t S p =>
    match List.find (fun r => String.eqb (rule_text other_string r) t) rules with
    | Some r => rule_sem S p r
    | None => None
    end.

Definition ex_tap : string := "mt-1".
Definition ex_guest : IP := [10; 200; 0; 2].
Definition ex_allow : list HostPort := [mkHostPort [1; 2; 3; 4] 443].
Definition ex_resolver : IP := [169; 254; 1; 1].
Definition ex_rules : list rule := chain_rules ex_tap ex_guest EgressDeny ex_allow ex_resolver.
Definition no_other (_ : IP) : string := EmptyString.
Definition no_quote (s : string) : string := s.
Definition ex_script : string :=
  RenderSandboxChain no_other no_quote ex_tap ex_guest EgressDeny ex_allow ex_resolver.
Definition no_pins : sets := fun _ _ _ => false.
Definition ex_packet (src dst : IP) (port : Z) : packet := mkPacket false src dst Tcp port false.

Lemma ex_reads : reads no_other (table_nft no_other ex_rules) ex_rules.
Proof. repeat constructor; intros; reflexivity. Qed.

Lemma egress_deny_exact_witness :
  EgressDeny <> EgressAllow /\ reads no_other (table_nft no_other ex_rules) ex_rules /\
  (hook_verdict (table_nft no_other ex_rules) no_pins (ex_packet ex_guest [9; 9; 9; 9] 443) ex_tap ex_script
     = VAccept
   <-> egress_allowed ex_tap ex_allow ex_resolver no_pins (ex_packet ex_guest [9; 9; 9; 9] 443)).
Proof.
  split; [done|]. split; [exact ex_reads|].
  refine (proj1 (egress_deny_exact no_other no_quote ex_tap ex_guest EgressDeny ex_allow ex_resolver
    eq_refl eq_refl _ (or_intror eq_refl) (table_nft no_other ex_rules) no_pins
    (ex_packet ex_guest [9; 9; 9; 9] 443) _ ex_reads) eq_refl eq_refl); [by repeat constructor|done].
Defined.

Lemma egress_spoofed_source_accepted_witness :
  reads no_other (table_nft no_other ex_rules) ex_rules /\
  hook_verdict (table_nft no_other ex_rules) no_pins (ex_packet [10; 200; 0; 6] [9; 9; 9; 9] 443)
    ex_tap ex_script = VAccept.
Proof.
  split; [exact ex_reads|].
  refine (egress_spoofed_source_accepted no_other no_quote ex_tap ex_guest EgressDeny ex_allow ex_resolver
    eq_refl eq_refl _ (or_intror eq_refl) (table_nft no_other ex_rules) no_pins
    (ex_packet [10; 200; 0; 6] [9; 9; 9; 9] 443) ex_reads eq_refl _); [by repeat constructor|done].
Defined.

End Nft.

Module Apply.
Import Allow Nft.

(** ** The argv builders of [commands.go] *)

Definition TapAddArgs (tap : string) : list string := ["ip"; "tuntap"; "add"; tap; "mode"; "tap"].
Definition AddrAddArgs (other_string : IP -> string) (hostIP : IP) (tap : string) : list string :=
  ["ip"; "addr"; "add"; ip_string other_string hostIP +:+ "/30"; "dev"; tap].
Definition LinkUpArgs (tap : string) : list string := ["ip"; "link"; "set"; tap; "up"].
Definition LinkDelArgs (tap : string) : list string := ["ip"; "link"; "del"; tap].
Definition NftApplyArgs : list string := ["nft"; "-f"; "-"].
Definition NftDeleteDispatchElementArgs (quote_other : string -> string) (tap : string) : list string :=
  ["nft"; "delete"; "element"; "inet"; SharedTableName; DispatchMapName;
   "{ " +:+ go_quote quote_other tap +:+ " }"].
Definition NftDeleteSandboxChainArgs (tap : string) : list string :=
  ["nft"; "delete"; "chain"; "inet"; SharedTableName; SandboxChainName tap].
Definition NftDeleteSandboxAllowSetArgs (tap : string) : list string :=
  ["nft"; "delete"; "set"; "inet"; SharedTableName; SandboxAllowSetName tap].
Definition MasqueradeAddArgs (subnetCIDR uplink : string) : list string :=
  ["iptables"; "-t"; "nat"; "-A"; "POSTROUTING"; "-s"; subnetCIDR; "-o"; uplink; "-j"; "MASQUERADE"].
Definition MasqueradeDelArgs (subnetCIDR uplink : string) : list string :=
  ["iptables"; "-t"; "nat"; "-D"; "POSTROUTING"; "-s"; subnetCIDR; "-o"; uplink; "-j"; "MASQUERADE"].

(** ** Setup and teardown

    [run] executes one host command with its standard input on a host state and
    may fail; [enableForward] is the injected writer of ip_forward. *)
Record applyOptions := mkApplyOptions {
  subnetCIDR : string; uplink : string; enableForwarding : bool }.

(** The step that failed, which Go writes into the error's text. *)
Inductive apply_error (E : Type) :=
| EnableForward (e : E) | CreateTap (e : E) | AssignHostIP (e : E) | BringUp (e : E)
| ApplyShared (e : E) | ApplyChain (e : E) | AddMasquerade (e : E)
| DelMasquerade (e : E) | DelTap (e : E) | DelElement (e : E) | DelChain (e : E) | DelSet (e : E).
Arguments EnableForward {E} e.
Arguments CreateTap {E} e.
Arguments AssignHostIP {E} e.
Arguments BringUp {E} e.
Arguments ApplyShared {E} e.
Arguments ApplyChain {E} e.
Arguments AddMasquerade {E} e.
Arguments DelMasquerade {E} e.
Arguments DelTap {E} e.
Arguments DelElement {E} e.
Arguments DelChain {E} e.
Arguments DelSet {E} e.

Section Run.
Context {Host E : Type}.
Context (run : list string -> string -> Host -> Host * option E) (enableForward : Host -> Host * option E).
Context (other_string : IP -> string) (quote_other : string -> string).

(** [if err := step; err != nil { return wrap(err) }; k] *)
Definition check (step : Host -> Host * option E) (wrap : E -> apply_error E)
    (k : Host -> Host * option (apply_error E)) (h : Host) : Host * option (apply_error E) :=
  match step h with
  | (h', Some e) => (h', Some (wrap e))
  | (h', None) => k h'
  end.

Definition setup (tap : string) (hostIP guestIP : IP) (policy : string) (allow : list HostPort)
    (resolverIP : IP) (opts : applyOptions) (h : Host) : Host * option (apply_error E) :=
  let after_forward :=
    check (run (TapAddArgs tap) "") CreateTap (
    check (run (AddrAddArgs other_string hostIP tap) "") AssignHostIP (
    check (run (LinkUpArgs tap) "") BringUp (
    check (run NftApplyArgs RenderSharedTable) ApplyShared (
    check (run NftApplyArgs (RenderSandboxChain other_string quote_other tap guestIP policy allow resolverIP))
      ApplyChain (fun h =>
    if negb (String.eqb (uplink opts) "") then
      check (run (MasqueradeAddArgs (subnetCIDR opts) (uplink opts)) "") AddMasquerade
        (fun h => (h, None)) h
    else (h, None)))))) in
  if enableForwarding opts then check enableForward EnableForward after_forward h
  else after_forward h.

(** [if err := run(argv); err != nil && firstErr == nil { firstErr = wrap(err) }] *)
Definition attempt (argv : list string) (wrap : E -> apply_error E)
    (st : Host * option (apply_error E)) : Host * option (apply_error E) :=
  let '(h, firstErr) := st in
  match run argv "" h with
  | (h', Some e) => (h', match firstErr with None => Some (wrap e) | Some _ => firstErr end)
  | (h', None) => (h', firstErr)
  end.

Definition teardown (tap : string) (opts : applyOptions) (h : Host) : Host * option (apply_error E) :=
  let st := (h, None) in
  let st := if negb (String.eqb (uplink opts) "")
            then attempt (MasqueradeDelArgs (subnetCIDR opts) (uplink opts)) DelMasquerade st else st in
  let st := attempt (LinkDelArgs tap) DelTap st in
  let st := attempt (NftDeleteDispatchElementArgs quote_other tap) DelElement st in
  let st := attempt (NftDeleteSandboxChainArgs tap) DelChain st in
  attempt (NftDeleteSandboxAllowSetArgs tap) DelSet st.

(** ** What teardown runs *)

(** The host after running every command in order, whatever each returns, and
    the commands that failed. *)
Fixpoint run_all (cmds : list (list string * (E -> apply_error E))) (h : Host)
    : Host * list (apply_error E) :=
  match cmds with
  | [] => (h, [])
  | (argv, wrap) :: rest =>
      let '(h', r) := run argv "" h in
      let '(h'', es) := run_all rest h' in
      (h'', match r with Some e => wrap e :: es | None => es end)
  end.

Definition teardown_commands (tap : string) (opts : applyOptions)
    : list (list string * (E -> apply_error E)) :=
  (if negb (String.eqb (uplink opts) "")
   then [(MasqueradeDelArgs (subnetCIDR opts) (uplink opts), DelMasquerade)] else [])
  ++ [(LinkDelArgs tap, DelTap); (NftDeleteDispatchElementArgs quote_other tap, DelElement);
      (NftDeleteSandboxChainArgs tap, DelChain); (NftDeleteSandboxAllowSetArgs tap, DelSet)].

Lemma attempts_run_all cmds : forall h first,
  fold_left (fun st c => attempt (fst c) (snd c) st) cmds (h, first)
  = (fst (run_all cmds h),
     match first with Some e => Some e | None => head (snd (run_all cmds h)) end).
Proof.
  induction cmds as [|[argv wrap] rest IH]; intros h first; simpl; [by destruct first|].
  destruct (run argv "" h) as [h' [e|]].
  - rewrite IH. destruct (run_all rest h') as [h'' es]. by destruct first.
  - rewrite IH. destruct (run_all rest h') as [h'' es]. by destruct first.
Qed.

(** Teardown is best effort: for every runner, the host it leaves is the one
    after all its commands ran in order, even when some of them fail, and the
    error it returns is the first failure of that run (none when all succeed). *)
Theorem teardown_best_effort (tap : string) (opts : applyOptions) (h : Host) :
  teardown tap opts h
  = (fst (run_all (teardown_commands tap opts) h),
     head (snd (run_all (teardown_commands tap opts) h))).
Proof.
  rewrite <- (attempts_run_all (teardown_commands tap opts) h None).
  unfold teardown, teardown_commands. by destruct (String.eqb (uplink opts) "").
Qed.

End Run.

(** ** Sets left behind

    A host that records the commands it is given, all of which succeed. *)
Definition log := list (list string * string).
Definition record (argv : list string) (stdin : string) (l : log) : log * option unit :=
  (l ++ [(argv, stdin)], None).
Definition no_forward (l : log) : log * option unit := (l, None).

(** The sets a log's scripts add, and the sets its commands delete. *)
Definition added_sets (l : log) : list string := l ≫= fun c => script_sets (snd c).
Definition deleted_sets (l : log) : list string :=
  omap (fun c => match fst c with
                 | ["nft"; "delete"; "set"; "inet"; t; n] =>
                     if String.eqb t SharedTableName then Some n else None
                 | _ => None
                 end) l.

(** When every command succeeds, setting a sandbox's network up and tearing it
    down again adds both of the sandbox's dynamic allow sets but deletes only
    the IPv4 one: the IPv6 set, with its live pins, outlives the sandbox. *)
Theorem teardown_leaves_v6_set (other_string : IP -> string) (quote_other : string -> string)
    (tap : string) (hostIP guestIP : IP) (policy : string) (allow : list HostPort)
    (resolverIP : IP) (opts : applyOptions) :
  string_forallb quote_plain tap = true -> contains_byte " " tap = false ->
  length guestIP = 4%nat -> Forall (fun hp => length (hp_IP hp) = 4%nat) allow ->
  (resolverIP = [] \/ length resolverIP = 4%nat) ->
  let up := fst (setup record no_forward other_string quote_other tap hostIP guestIP policy
                   allow resolverIP opts []) in
  let down := fst (teardown record quote_other tap opts []) in
  added_sets up = [SandboxAllowSetName tap; SandboxAllowSet6Name tap] /\
  deleted_sets down = [SandboxAllowSetName tap].
Proof.
  intros Htap Hsp Hg Ha Hr up down.
  pose proof (script_sets_render other_string quote_other tap guestIP policy allow resolverIP
    Htap Hg Ha Hr Hsp) as Hsets.
  set (script := RenderSandboxChain other_string quote_other tap guestIP policy allow resolverIP) in *.
  split.
  - subst up. unfold setup, check, added_sets. fold script.
    destruct (enableForwarding opts), (String.eqb (uplink opts) "");
      simpl; by rewrite Hsets.
  - subst down. unfold teardown, attempt. by destruct (String.eqb (uplink opts) "").
Qed.

Lemma teardown_leaves_v6_set_witness :
  added_sets (fst (setup record no_forward no_other no_quote ex_tap [10; 200; 0; 1] ex_guest EgressDeny
    ex_allow ex_resolver (mkApplyOptions "10.200.0.0/16" "eth0" true) []))
  = ["sb_mt-1_dyn"; "sb_mt-1_dyn6"] /\
  deleted_sets (fst (teardown record no_quote ex_tap (mkApplyOptions "10.200.0.0/16" "eth0" true) []))
  = ["sb_mt-1_dyn"].
Proof.
  refine (teardown_leaves_v6_set no_other no_quote ex_tap [10; 200; 0; 1] ex_guest EgressDeny
    ex_allow ex_resolver (mkApplyOptions "10.200.0.0/16" "eth0" true)
    eq_refl eq_refl eq_refl _ (or_intror eq_refl)).
  by repeat constructor.
Defined.

End Apply.
