(* ===== verification/DnsProxy.v ===== *)
(** * The controlled DNS resolver

    Models [src/internal/dnsproxy]: the per-guest allowlist registry
    ([registry.go], Module [Reg]), the pinners that turn an answer into nftables
    set elements ([pinner.go], Module [Pins]) and the query handler
    ([proxy.go], Module [Server]).  The DNS wire library, the upstream resolver
    and the nft runner are arguments.  Registry methods hold the registry lock,
    so each is one atomic step; Go's map iteration order is the argument
    [range_*] of the operations that iterate. *)
From S2P Require Import Prelude GoLib Nftables.

Module Reg.
Import Allow.

(** The inner Go map is used as a set of ports. *)
Abbreviation Allowlist := (gmap string (gset Z)).

Record Registry := mkRegistry { byGuest : gmap string Allowlist }.

Definition NewRegistry : Registry := mkRegistry ∅.

Section Reg.
Context (other_string : IP -> string) (unicode_lower : string -> string).

Definition canonicalName (name : string) : string :=
  trim_suffix "." (to_lower unicode_lower name).

(** [names] is the argument map in iteration order. *)
Definition Register (r : Registry) (guestIP : IP) (names : list (string * list Z)) : Registry :=
  let al := fold_left (fun (al : Allowlist) '(name, ports) =>
              let key := canonicalName name in
              let set := fold_left (fun (set : gset Z) p => {[p]} ∪ set) ports ∅ in
              <[key := set]> al) names ∅ in
  mkRegistry (<[ip_string other_string guestIP := al]> (byGuest r)).

Definition Deregister (r : Registry) (guestIP : IP) : Registry :=
  mkRegistry (delete (ip_string other_string guestIP) (byGuest r)).

Definition nameMatchesEntry (query entry : string) : bool :=
  match cut_prefix "*." entry with
  | None => String.eqb query entry
  | Some suffix =>
      let dotSuffix := "." +:+ suffix in
      match cut_suffix dotSuffix query with
      | None => false
      | Some label => negb (String.eqb label "")
      end
  end.

Section Range.
Context (range_al : Allowlist -> list (string * gset Z)) (range_ports : gset Z -> list Z).

Definition Lookup (r : Registry) (guestIP : IP) (name : string) : option (list Z) :=
  let key := canonicalName name in
  if String.eqb key "" then None
  else match byGuest r !! ip_string other_string guestIP with
       | None => None
       | Some al =>
           let '(union, matched) :=
             fold_left (fun '(union, matched) '(entry, set) =>
               if negb (nameMatchesEntry key entry) then (union, matched)
               else (fold_left (fun (u : gset Z) p => {[p]} ∪ u) (range_ports set) union, true))
             (range_al al) (∅, false) in
           if negb matched then None else Some (range_ports union)
       end.
End Range.
End Reg.

(** Iteration visits every element once, in some order. *)
Definition ranges_map (range_al : Allowlist -> list (string * gset Z)) : Prop :=
  forall al, range_al al ≡ₚ map_to_list al.
Definition ranges_set (range_ports : gset Z -> list Z) : Prop :=
  forall s, range_ports s ≡ₚ elements s.

(** ** What a key covers *)

Abbreviation labels := (split_byte ".").

(** A query is covered by an exact key when their labels agree, and by [*.D]
    when its labels are those of [D] preceded by at least one label, not just an
    empty one. *)
Definition covers (key query : string) : Prop :=
  labels query = labels key \/
  exists D pre, key = "*." +:+ D /\ pre <> [] /\ pre <> [EmptyString] /\
    labels query = pre ++ labels D.

Lemma wildcard_match D query :
  nameMatchesEntry query ("*." +:+ D) = true <->
  exists pre, pre <> [] /\ pre <> [EmptyString] /\ labels query = pre ++ labels D.
Proof.
  unfold nameMatchesEntry. rewrite (proj2 (cut_prefix_spec _ _ D)) by done. cbv zeta.
  destruct (cut_suffix _ query) as [label|] eqn:E.
  - apply cut_suffix_spec in E. subst query. rewrite negb_true_iff, String.eqb_neq.
    change ("." +:+ D) with (String "." D). rewrite split_byte_app. split.
    + intros Hl. exists (labels label). split; [apply split_byte_nonempty|]. split; [|done].
      intros He. apply Hl. rewrite <- (join_split "." label), He. done.
    + intros (pre & _ & Hp & Heq) ->. apply app_inv_tail in Heq. by subst pre.
  - split; [done|]. intros (pre & Hne & _ & Heq). exfalso.
    assert (query = join_byte "." pre +:+ "." +:+ D) as Hq.
    { apply (split_byte_inj "."). change ("." +:+ D) with (String "." D).
      rewrite split_byte_app, split_join, Heq; [done|done|].
      pose proof (split_byte_fields "." query) as Hf. rewrite Heq in Hf.
      by apply Forall_app in Hf as [Hf _]. }
    apply cut_suffix_spec in Hq. congruence.
Qed.

Lemma domain_no_star D : isValidDomain D = true -> cut_prefix "*." D = None.
Proof.
  intros H. destruct (cut_prefix "*." D) as [r|] eqn:E; [|done].
  apply cut_prefix_spec in E. subst D. unfold isValidDomain in H. case_ifs.
Qed.

(** On the keys of a parsed allowlist, matching an entry is covering it. *)
Lemma nameMatchesEntry_covers query key :
  egress_key key -> nameMatchesEntry query key = true <-> covers key query.
Proof.
  unfold covers. intros [[Hd _]|(D & -> & Hd & _)].
  - unfold nameMatchesEntry. rewrite domain_no_star, String.eqb_eq by done. split.
    + intros ->. by left.
    + intros [?%split_byte_inj|(D & pre & Hk & _)]; [done|].
      apply cut_prefix_spec in Hk. by rewrite domain_no_star in Hk.
  - rewrite wildcard_match. split.
    + intros (pre & ?). right. by exists D, pre.
    + intros [->|(D' & pre & [= ->] & ?)]; [|by exists pre].
      exists ["*"]. split; [done|]. split; [done|].
      change ("*." +:+ D) with ("*" +:+ String "." D). by rewrite split_byte_app.
Qed.

Lemma app_dot_suffix a b q : a +:+ b = q +:+ "." -> b <> "" -> exists q', b = q' +:+ ".".
Proof.
  revert q. induction a as [|c a IH]; intros q; simpl; [by exists q|].
  destruct q as [|d q]; simpl; [intros [= -> H]|intros [= -> H]].
  - intros Hb. exfalso. by destruct a, b.
  - by apply (IH q).
Qed.

Lemma canonicalName_egress_key unicode_lower key :
  egress_key key -> canonicalName unicode_lower key = key.
Proof.
  intros [[Hd Hl]|(D & -> & Hd & Hl)]; unfold canonicalName.
  - rewrite to_lower_domain, Hl by done. by apply isValidDomain_no_dot.
  - assert (is_ascii ("*." +:+ D) = true) as Ha.
    { unfold is_ascii. rewrite string_forallb_app. exact (isValidDomain_ascii D Hd). }
    unfold to_lower. rewrite Ha, string_map_app, Hl. change (string_map lower_byte "*.") with "*.".
    unfold trim_suffix. destruct (cut_suffix "." ("*." +:+ D)) as [q|] eqn:E; [|done].
    apply cut_suffix_spec in E. destruct (app_dot_suffix _ _ _ E) as [q' Hq'].
    { by intros ->. }
    apply isValidDomain_no_dot in Hd. unfold trim_suffix in Hd.
    rewrite (proj2 (cut_suffix_spec "." D q') Hq') in Hd. simpl in Hd.
    exfalso. rewrite Hq' in Hd. apply (f_equal String.length) in Hd.
    rewrite string_length_app in Hd. simpl in Hd. lia.
Qed.

(** ** Lemmas on iteration *)

Lemma fold_union (l : list Z) : forall (u : gset Z) p,
  p ∈ fold_left (fun (u : gset Z) p => {[p]} ∪ u) l u <-> p ∈ u \/ p ∈ l.
Proof.
  induction l as [|x l IH]; intros u p; simpl; [set_solver|]. rewrite IH. set_solver.
Qed.

Section Lemmas.
Context (other_string : IP -> string) (unicode_lower : string -> string).
Context (range_al : Allowlist -> list (string * gset Z)) (range_ports : gset Z -> list Z).
Hypothesis Hal : ranges_map range_al.
Hypothesis Hports : ranges_set range_ports.

Lemma elem_of_range_ports s p : p ∈ range_ports s <-> p ∈ s.
Proof. by rewrite (Hports s), elem_of_elements. Qed.

Lemma lookup_fold key (l : list (string * gset Z)) : forall u m u' m',
  fold_left (fun '(union, matched) '(entry, set) =>
     if negb (nameMatchesEntry key entry) then (union, matched)
     else (fold_left (fun (u : gset Z) p => {[p]} ∪ u) (range_ports set) union, true)) l (u, m)
  = (u', m') ->
  (m' = true <-> m = true \/ exists e s, (e, s) ∈ l /\ nameMatchesEntry key e = true) /\
  (forall p, p ∈ u' <-> p ∈ u \/ exists e s, (e, s) ∈ l /\ nameMatchesEntry key e = true /\ p ∈ s).
Proof.
  induction l as [|[e s] l IH]; intros u m u' m'; simpl.
  - intros [= <- <-]. split; [|intros p]; (split; [by left|intros [?|(? & ? & ?%not_elem_of_nil & _)]; done]).
  - destruct (nameMatchesEntry key e) eqn:E; simpl; intros Hf; destruct (IH _ _ _ _ Hf) as [Hm Hu].
    + split; [split|].
      * intros _. right. exists e, s. split; [by left|done].
      * intros _. apply Hm. by left.
      * intros p. rewrite Hu, fold_union, elem_of_range_ports. split.
        -- intros [[?|?]|(e' & s' & ? & ?)]; [by left|right; exists e, s|right; exists e', s'];
             (split; [by constructor|done]).
        -- intros [?|(e' & s' & [[= -> ->]|?]%elem_of_cons & ? & ?)]; [tauto|tauto|].
           right. by exists e', s'.
    + split.
      * rewrite Hm. split; (intros [?|(e' & s' & Hin & ?)]; [by left|right]).
        -- exists e', s'. split; [by right|done].
        -- apply elem_of_cons in Hin as [[= -> ->]|Hin]; [congruence|by exists e', s'].
      * intros p. rewrite Hu. split; (intros [?|(e' & s' & Hin & ?)]; [by left|right]).
        -- exists e', s'. split; [by right|done].
        -- apply elem_of_cons in Hin as [[= -> ->]|Hin]; [intuition congruence|by exists e', s'].
Qed.

(** The ports a registry allows a guest for a query. *)
Definition allows (r : Registry) (guestIP : IP) (name : string) (port : Z) : Prop :=
  exists al entry set,
    canonicalName unicode_lower name <> "" /\
    byGuest r !! ip_string other_string guestIP = Some al /\ al !! entry = Some set /\
    nameMatchesEntry (canonicalName unicode_lower name) entry = true /\ port ∈ set.

Lemma Lookup_allows r guestIP name port :
  (exists ports, Lookup other_string unicode_lower range_al range_ports r guestIP name = Some ports
     /\ port ∈ ports) <-> allows r guestIP name port.
Proof.
  unfold Lookup, allows. set (key := canonicalName unicode_lower name). cbv zeta.
  destruct (String.eqb_spec key "") as [Hk|Hk].
  { split; [by intros (? & ? & _)|]. intros (? & ? & ? & ? & _). done. }
  destruct (byGuest r !! _) as [al|] eqn:Hg.
  2:{ split; [by intros (? & ? & _)|]. by intros (? & ? & ? & _ & ? & _). }
  destruct (fold_left _ (range_al al) (∅, false)) as [u m] eqn:Hf.
  destruct (lookup_fold _ _ _ _ _ _ Hf) as [Hm Hu].
  assert (forall e s, (e, s) ∈ range_al al <-> al !! e = Some s) as Hin.
  { intros e s. by rewrite (Hal al), elem_of_map_to_list. }
  destruct m; simpl; split.
  - intros (ports & [= <-] & Hp). rewrite elem_of_range_ports in Hp.
    apply Hu in Hp as [?%not_elem_of_empty|(e & s & He%Hin & ? & ?)]; [done|]. by exists al, e, s.
  - intros (al' & e & s & _ & [= <-] & He & ? & ?). eexists. split; [done|].
    rewrite elem_of_range_ports. apply Hu. right. exists e, s. by rewrite Hin.
  - by intros (? & ? & _).
  - intros (al' & e & s & _ & [= <-] & He & ? & ?).
    assert (false = true); [|done]. apply Hm. right. exists e, s. by rewrite Hin.
Qed.

Lemma Lookup_NoDup r guestIP name ports :
  Lookup other_string unicode_lower range_al range_ports r guestIP name = Some ports -> NoDup ports.
Proof.
  unfold Lookup. case_match; [done|]. case_match; [|done]. case_match. case_match; [done|].
  intros [= <-]. rewrite (Hports _). apply NoDup_elements.
Qed.

(** ** Registering a parsed allowlist *)

Definition register_al (names : list (string * list Z)) : Allowlist :=
  fold_left (fun (al : Allowlist) '(name, ports) =>
    let key := canonicalName unicode_lower name in
    let set := fold_left (fun (set : gset Z) p => {[p]} ∪ set) ports ∅ in
    <[key := set]> al) names ∅.

Lemma register_al_spec names key port :
  NoDup names.*1 -> Forall (fun n => egress_key (fst n)) names ->
  (exists set, register_al names !! key = Some set /\ port ∈ set) <->
  (exists ports, (key, ports) ∈ names /\ port ∈ ports).
Proof.
  unfold register_al.
  assert (forall al : Allowlist, NoDup names.*1 -> Forall (fun n => egress_key (fst n)) names ->
    (exists set, (fold_left (fun (al : Allowlist) '(name, ports) =>
      let key := canonicalName unicode_lower name in
      let set := fold_left (fun (set : gset Z) p => {[p]} ∪ set) ports ∅ in
      <[key := set]> al) names al) !! key = Some set /\ port ∈ set) <->
    (exists ports, (key, ports) ∈ names /\ port ∈ ports) \/
    ((key ∉ names.*1) /\ exists set, al !! key = Some set /\ port ∈ set)) as Hgen.
  { induction names as [|[n ports] names IH]; intros al Hnd Hk; simpl.
    - split; [|by intros [(? & ?%not_elem_of_nil & _)|[_ ?]]].
      intros ?. right. split; [apply not_elem_of_nil|done].
    - simpl in Hnd. apply list.NoDup_cons in Hnd as [Hn Hnd]. apply list.Forall_cons in Hk as [Hkn Hk].
      rewrite canonicalName_egress_key by done. rewrite IH by done. split.
      + intros [(ports' & ? & ?)|[Hnin (set & Hset & Hp)]].
        * left. exists ports'. split; [by right|done].
        * destruct (decide (key = n)) as [->|Hne].
          -- rewrite lookup_insert_eq in Hset. injection Hset as <-. left. exists ports.
             split; [by left|]. apply fold_union in Hp as [?%not_elem_of_empty|]; done.
          -- rewrite lookup_insert_ne in Hset by done. right. split; [|by exists set].
             rewrite elem_of_cons. tauto.
      + intros [(ports' & [[= -> ->]|?]%elem_of_cons & ?)|[Hnin (set & Hset & Hp)]].
        * right. split; [done|]. rewrite lookup_insert_eq. eexists. split; [done|].
          apply fold_union. by right.
        * left. by exists ports'.
        * rewrite elem_of_cons in Hnin. right. split; [tauto|]. exists set.
          rewrite lookup_insert_ne by (intros ->; tauto). done. }
  intros Hnd Hk. rewrite (Hgen ∅ Hnd Hk). split; [|by left].
  intros [?|[_ (? & ? & _)]]; [done|]. by rewrite lookup_empty in *.
Qed.

(** C39. Name egress end to end.  Register a guest with a parsed allowlist, in any
    iteration order: then for every query name and port, the lookup returns the
    port if and only if some allowlist entry grants it for a key that covers the
    query's labels.  In particular a wildcard never matches its apex, a
    look-alike or a name that carries the domain anywhere but at its end. *)
Theorem name_egress_exact (parse_v6 : string -> option IP) (r : Registry) (guestIP : IP)
    (entries : list string) (names : gmap string (list Z)) (order : list (string * list Z))
    (query : string) (port : Z) :
  ParseNameAllowList parse_v6 unicode_lower entries = Ok names ->
  order ≡ₚ map_to_list names ->
  (exists ports,
     Lookup other_string unicode_lower range_al range_ports
       (Register other_string unicode_lower r guestIP order) guestIP query = Some ports /\ port ∈ ports)
  <-> canonicalName unicode_lower query <> "" /\
      exists e key, e ∈ entries /\ name_entry parse_v6 unicode_lower e = Ok (Some (key, port)) /\
        covers key (canonicalName unicode_lower query).
Proof.
  intros Hparse Horder.
  destruct (parse_facts parse_v6 unicode_lower entries names Hparse) as [Hg Hk].
  assert (NoDup order.*1) as Hnd by (rewrite Horder; apply NoDup_fst_map_to_list).
  assert (Forall (fun n => egress_key (fst n)) order) as Hek.
  { apply list.Forall_forall. intros [n ports] Hin. rewrite Horder, elem_of_map_to_list in Hin. by eapply Hk. }
  rewrite Lookup_allows. unfold allows, Register. cbn [byGuest].
  setoid_rewrite lookup_insert_eq. fold (register_al order). split.
  - intros (al & entry & set & Hq & [= <-] & He & Hm & Hp). split; [done|].
    destruct (proj1 (register_al_spec order entry port Hnd Hek) (ex_intro _ _ (conj He Hp)))
      as (ports & Hin & Hpp).
    assert (egress_key entry) as Hkey.
    { rewrite list.Forall_forall in Hek. exact (Hek _ Hin). }
    rewrite Horder, elem_of_map_to_list in Hin.
    destruct (proj1 (Hg entry port) (ex_intro _ _ (conj Hin Hpp))) as (e & ? & ?).
    exists e, entry. split; [done|]. split; [done|]. by apply nameMatchesEntry_covers.
  - intros (Hq & e & key & He & Hne & Hc).
    destruct (proj2 (Hg key port) (ex_intro _ e (conj He Hne))) as (ports & Hn & Hpp).
    destruct (proj2 (register_al_spec order key port Hnd Hek)) as (set & Hs & Hps).
    { exists ports. by rewrite Horder, elem_of_map_to_list. }
    exists (register_al order), key, set. split; [done|]. split; [done|]. split; [done|].
    split; [|done]. apply nameMatchesEntry_covers; [|done]. by eapply name_entry_key.
Qed.
End Lemmas.

(** ** A registered guest *)

Definition no_v6 (_ : string) : option IP := None.
Definition ex_entries : list string := ["1.2.3.4:443"; "api.example.com:443"; "*.example.org:8443"].
Definition ex_names : gmap string (list Z) :=
  match ParseNameAllowList no_v6 (fun s => s) ex_entries with Ok n => n | Err _ => ∅ end.
Definition ex_registry : Registry :=
  Register (fun _ => "") (fun s => s) NewRegistry [10; 200; 0; 2] (map_to_list ex_names).

Lemma ranges_map_to_list : ranges_map map_to_list.
Proof. by intros al. Qed.
Lemma ranges_elements : ranges_set elements.
Proof. by intros al. Qed.
Lemma ex_names_ok : ParseNameAllowList no_v6 (fun s => s) ex_entries = Ok ex_names.
Proof. vm_compute. reflexivity. Qed.

Lemma name_egress_exact_witness :
  ParseNameAllowList no_v6 (fun s => s) ex_entries = Ok ex_names /\
  ((exists ports, Lookup (fun _ => "") (fun s => s) map_to_list elements
       (Register (fun _ => "") (fun s => s) NewRegistry [10; 200; 0; 2] (map_to_list ex_names))
       [10; 200; 0; 2] "A.B.Example.ORG." = Some ports /\ 8443 ∈ ports)
   <-> canonicalName (fun s => s) "A.B.Example.ORG." <> "" /\
       exists e key, e ∈ ex_entries /\ name_entry no_v6 (fun s => s) e = Ok (Some (key, 8443)) /\
         covers key (canonicalName (fun s => s) "A.B.Example.ORG.")).
Proof.
  split; [exact ex_names_ok|].
  exact (name_egress_exact (fun _ => "") (fun s => s) map_to_list elements ranges_map_to_list
    ranges_elements no_v6 NewRegistry [10; 200; 0; 2] ex_entries ex_names (map_to_list ex_names)
    "A.B.Example.ORG." 8443 ex_names_ok (Permutation_refl _)).
Defined.
End Reg.

Module Pins.

(** The [Pinner] interface: pin [ip:port] for the guest behind [tap]. *)
Class Pinner (P : Type) : Type := {
  pin_error : Type;
  Pin : IP -> string -> IP -> Z -> Z -> P -> P * option pin_error }.

Record PinnedEntry := mkPinned {
  pe_GuestIP : IP; pe_Tap : string; pe_IP : IP; pe_Port : Z; pe_TTL : Z }.

Record FakePinner := mkFake { pinned : list PinnedEntry; failErr : option string }.

Definition NewFakePinner : FakePinner := mkFake [] None.
Definition SetError (f : FakePinner) (err : option string) : FakePinner := mkFake (pinned f) err.

Definition fake_Pin (guestIP : IP) (tap : string) (ip : IP) (port ttl : Z) (f : FakePinner)
    : FakePinner * option string :=
  match failErr f with
  | Some e => (f, Some e)
  | None => (mkFake (pinned f ++ [mkPinned guestIP tap ip port ttl]) (failErr f), None)
  end.

#[global] Instance FakePinner_Pinner : Pinner FakePinner := {
  pin_error := string; Pin := fake_Pin }.

(** [NftPinner]: the pin as one nft invocation. *)
Section NftPinner.
Context (other_string : IP -> string).

Definition pin_secs (ttl : Z) : Z :=
  let secs := Z.quot ttl second in
  let secs := if negb (Z.rem ttl second =? 0) then secs + 1 else secs in
  if secs <? 1 then 1 else secs.

Definition pin_argv (tap : string) (ip : IP) (port ttl : Z) : list string :=
  let secs := pin_secs ttl in
  let set := match to4 ip with [] => Nft.SandboxAllowSet6Name tap | _ => Nft.SandboxAllowSetName tap end in
  let element := "{ " +:+ ip_string other_string ip +:+ " . " +:+ format_d port
                   +:+ " timeout " +:+ format_d secs +:+ "s }" in
  ["nft"; "add"; "element"; "inet"; Nft.SharedTableName; set; element].

Context {Host E : Type} (runner : list string -> Host -> Host * option E).

Definition nft_Pin (guestIP : IP) (tap : string) (ip : IP) (port ttl : Z) (h : Host)
    : Host * option E := runner (pin_argv tap ip port ttl) h.

Definition NftPinner_Pinner : Pinner Host := {| pin_error := E; Pin := nft_Pin |}.

(** The pinned timeout covers the TTL and exceeds it by less than a second; an
    IPv4 address goes into the tap's IPv4 set and any other into its IPv6 set. *)
Theorem nft_pin_timeout (guestIP : IP) (tap : string) (ip : IP) (port ttl : Z) (h : Host) :
  0 < ttl ->
  exists secs set,
    nft_Pin guestIP tap ip port ttl h
    = runner ["nft"; "add"; "element"; "inet"; "mitos_egress"; set;
              "{ " +:+ ip_string other_string ip +:+ " . " +:+ format_d port
                +:+ " timeout " +:+ format_d secs +:+ "s }"] h /\
    ttl <= secs * second < ttl + second /\
    (to4 ip <> [] -> set = "sb_" +:+ tap +:+ "_dyn") /\ (to4 ip = [] -> set = "sb_" +:+ tap +:+ "_dyn6").
Proof.
  intros Httl. exists (pin_secs ttl). eexists. split; [reflexivity|]. split.
  - unfold pin_secs, second. pose proof (Z.quot_rem' ttl 1000000000) as Hq.
    pose proof (Z.rem_bound_pos ttl 1000000000). cbv zeta.
    destruct (Z.eqb_spec (Z.rem ttl 1000000000) 0); simpl; destruct (Z.ltb_spec (Z.quot ttl 1000000000) 1);
      destruct (Z.ltb_spec (Z.quot ttl 1000000000 + 1) 1); lia.
  - split; destruct (to4 ip); done.
Qed.
End NftPinner.

Lemma nft_pin_timeout_witness :
  0 < 1500000000 /\
  exists secs set,
    nft_Pin (fun _ => "") (fun argv (h : list (list string)) => (argv :: h, @None unit))
      [10; 200; 0; 2] "mt-1" [1; 1; 1; 1] 443 1500000000 []
    = ([["nft"; "add"; "element"; "inet"; "mitos_egress"; set;
         "{ " +:+ "1.1.1.1" +:+ " . " +:+ "443" +:+ " timeout " +:+ format_d secs +:+ "s }"]], None) /\
    1500000000 <= secs * second < 1500000000 + second.
Proof.
  split; [done|].
  destruct (nft_pin_timeout (fun _ => "") (fun argv (h : list (list string)) => (argv :: h, @None unit))
    [10; 200; 0; 2] "mt-1" [1; 1; 1; 1] 443 1500000000 []) as (secs & set & Heq & Hb & _); [done|].
  exists secs, set. split; [exact Heq|exact Hb].
Defined.
End Pins.

Module Server.
Import Reg Pins.

(** The parts of a DNS message the proxy reads. *)
Definition TypeA : Z := 1.
Definition TypeAAAA : Z := 28.
Definition RcodeServerFailure : Z := 2.
Definition RcodeRefused : Z := 5.

Record question := mkQuestion { q_Name : string; q_Type : Z }.
Inductive rr := RR_A (a : IP) (ttl : Z) | RR_AAAA (aaaa : IP) (ttl : Z) | RR_other (ttl : Z).
Record Msg := mkMsg { Question : list question; Answer : list rr }.

(** What the handler writes: an empty reply to [r] with a code, or a message. *)
Inductive reply := ReplyRcode (r : Msg) (code : Z) | ReplyMsg (m : Msg).

Inductive net_addr := UDPAddr (ip : IP) | TCPAddr (ip : IP) | OtherAddr (s : string).

Definition clientIPOf (parse_v6 : string -> option IP) (addr : net_addr) : IP :=
  match addr with
  | UDPAddr ip => ip
  | TCPAddr ip => ip
  | OtherAddr s =>
      match split_host_port s with
      | Err _ => []
      | Ok (host, _) => default [] (parse_ip parse_v6 host)
      end
  end.

Section Serve.
Context (other_string : IP -> string) (unicode_lower : string -> string)
  (parse_v6 : string -> option IP).
Context (range_al : Allowlist -> list (string * gset Z)) (range_ports : gset Z -> list Z).
Context {P : Type} `{Pinner P}.

(** [registry], [ttlFloor], [tapFor] and [exchange] (the DNS client on the
    configured upstream; [None] on an error or a nil response). *)
Record ServerT := mkServer {
  registry : Registry;
  ttlFloor : Z;
  tapFor : IP -> string;
  exchange : Msg -> option Msg }.

Definition refuse (r : Msg) : reply := ReplyRcode r RcodeRefused.

(** The pins one answer record causes: every allowed port, floored TTL; a pin
    that fails is logged and skipped. *)
Definition pin_ports (s : ServerT) (clientIP : IP) (tap : string) (addr : IP) (hdr_ttl : Z)
    (ports : list Z) (p : P) : P :=
  let ttl := hdr_ttl * second in
  let ttl := if ttl <? ttlFloor s then ttlFloor s else ttl in
  fold_left (fun p port => fst (Pin clientIP tap addr port ttl p)) ports p.

Definition pin_answer (s : ServerT) (clientIP : IP) (tap : string) (ports : list Z) (p : P) (ans : rr) : P :=
  match ans with
  | RR_A a ttl => pin_ports s clientIP tap a ttl ports p
  | RR_AAAA aaaa ttl => pin_ports s clientIP tap aaaa ttl ports p
  | RR_other _ => p
  end.

Definition ServeDNS (s : ServerT) (remote : net_addr) (r : Msg) (p : P) : P * reply :=
  match Question r with
  | [] => (p, refuse r)
  | q :: _ =>
      match clientIPOf parse_v6 remote with
      | [] => (p, refuse r)
      | clientIP =>
          if negb (q_Type q =? TypeA) && negb (q_Type q =? TypeAAAA) then (p, refuse r)
          else match Lookup other_string unicode_lower range_al range_ports
                       (registry s) clientIP (q_Name q) with
               | None => (p, refuse r)
               | Some ports =>
                   let tap := tapFor s clientIP in
                   if String.eqb tap "" then (p, refuse r)
                   else match exchange s r with
                        | None => (p, ReplyRcode r RcodeServerFailure)
                        | Some resp =>
                            (fold_left (pin_answer s clientIP tap ports) (Answer resp) p,
                             ReplyMsg resp)
                        end
               end
      end
  end.
End Serve.

Section Pinned.
Context (other_string : IP -> string) (unicode_lower : string -> string)
  (parse_v6 : string -> option IP).
Context (range_al : Allowlist -> list (string * gset Z)) (range_ports : gset Z -> list Z).
Hypothesis Hal : ranges_map range_al.
Hypothesis Hports : ranges_set range_ports.

(** The entries one answer record adds for a list of ports. *)
Definition answer_pins (s : ServerT) (clientIP : IP) (tap : string) (ports : list Z) (ans : rr)
    : list PinnedEntry :=
  match ans with
  | RR_A a ttl | RR_AAAA a ttl =>
      map (fun port => mkPinned clientIP tap a port (Z.max (ttl * second) (ttlFloor s))) ports
  | RR_other _ => []
  end.

Lemma pin_ports_fake s clientIP tap addr ttl ports : forall l,
  pin_ports s clientIP tap addr ttl ports (mkFake l None)
  = mkFake (l ++ map (fun port => mkPinned clientIP tap addr port (Z.max (ttl * second) (ttlFloor s))) ports) None.
Proof.
  unfold pin_ports. cbv zeta.
  replace (if ttl * second <? ttlFloor s then ttlFloor s else ttl * second)
    with (Z.max (ttl * second) (ttlFloor s)) by (destruct (Z.ltb_spec (ttl * second) (ttlFloor s)); lia).
  induction ports as [|port ports IH]; intros l; simpl; [by rewrite app_nil_r|].
  rewrite IH, <- app_assoc. done.
Qed.

Lemma pin_answers_fake s clientIP tap ports answers : forall l,
  fold_left (pin_answer s clientIP tap ports) answers (mkFake l None)
  = mkFake (l ++ (answers ≫= answer_pins s clientIP tap ports)) None.
Proof.
  induction answers as [|a answers IH]; intros l; simpl; [by rewrite app_nil_r|].
  destruct a; simpl; rewrite ?pin_ports_fake, IH, <- ?app_assoc; done.
Qed.

Lemma elem_of_answer_pins s clientIP tap ports answers e :
  e ∈ (answers ≫= answer_pins s clientIP tap ports) <->
  pe_GuestIP e = clientIP /\ pe_Tap e = tap /\ pe_Port e ∈ ports /\
  exists ttl, (RR_A (pe_IP e) ttl ∈ answers \/ RR_AAAA (pe_IP e) ttl ∈ answers) /\
    pe_TTL e = Z.max (ttl * second) (ttlFloor s).
Proof.
  rewrite list_elem_of_bind. split.
  - intros (a & He & Ha). destruct a as [a ttl|a ttl|]; simpl in He;
      [| |by apply not_elem_of_nil in He];
      apply list_elem_of_In, in_map_iff in He as (port & <- & Hp%list_elem_of_In);
      (split; [done|]; split; [done|]; split; [done|]; exists ttl; auto).
  - intros (<- & <- & Hp & ttl & [Ha|Ha] & Httl); eexists; (split; [|exact Ha]); simpl;
      apply list_elem_of_In, in_map_iff; exists (pe_Port e); (split; [|by apply list_elem_of_In]);
      rewrite <- Httl; by destruct e.
Qed.

(** A query the proxy answers: the first question is A or AAAA, the source
    address is known, the name is allowed for it, and it has a live tap. *)
Definition answered (s : ServerT) (remote : net_addr) (r resp : Msg) (q : question) (clientIP : IP) : Prop :=
  head (Question r) = Some q /\ clientIPOf parse_v6 remote = clientIP /\ clientIP <> [] /\
  (q_Type q = TypeA \/ q_Type q = TypeAAAA) /\
  Lookup other_string unicode_lower range_al range_ports (registry s) clientIP (q_Name q) <> None /\
  tapFor s clientIP <> "" /\ exchange s r = Some resp.

Lemma ServeDNS_cases {P} `{Pinner P} s remote r (p : P) :
  (exists q resp clientIP ports,
     answered s remote r resp q clientIP /\
     Lookup other_string unicode_lower range_al range_ports (registry s) clientIP (q_Name q) = Some ports /\
     ServeDNS other_string unicode_lower parse_v6 range_al range_ports s remote r p
     = (fold_left (pin_answer s clientIP (tapFor s clientIP) ports) (Answer resp) p, ReplyMsg resp)) \/
  (exists code, ServeDNS other_string unicode_lower parse_v6 range_al range_ports s remote r p
     = (p, ReplyRcode r code)) /\ (forall q resp clientIP, ~ answered s remote r resp q clientIP).
Proof.
  unfold ServeDNS, answered.
  destruct (Question r) as [|q qs]; [right; split; [by eexists|]; by intros ??? (? & _)|].
  destruct (clientIPOf parse_v6 remote) as [|c0 cs];
    [right; split; [by eexists|]; by intros ??? (_ & <- & ? & _)|].
  set (clientIP := c0 :: cs).
  destruct (negb (q_Type q =? TypeA) && negb (q_Type q =? TypeAAAA)) eqn:HT.
  { right; split; [by eexists|]. intros ??? ([= <-] & _ & _ & HT' & _). zbool. tauto. }
  destruct (Lookup _ _ _ _ (registry s) clientIP (q_Name q)) as [ports|] eqn:HL.
  2:{ right; split; [by eexists|]. by intros ??? ([= <-] & <- & _ & _ & ? & _). }
  cbv zeta. destruct (String.eqb_spec (tapFor s clientIP) "") as [Ht|Ht].
  { right; split; [by eexists|]. by intros ??? ([= <-] & <- & _ & _ & _ & ? & _). }
  destruct (exchange s r) as [resp|] eqn:HX.
  2:{ right; split; [by eexists|]. by intros ??? (_ & _ & _ & _ & _ & _ & ?). }
  left. exists q, resp, clientIP, ports. split; [|done].
  split; [done|]. split; [done|]. split; [done|]. split; [|split; [congruence|done]].
  apply andb_false_iff in HT as [HT|HT]; zbool; auto.
Qed.

Lemma answered_fun s remote r resp q c resp' q' c' :
  answered s remote r resp q c -> answered s remote r resp' q' c' -> resp' = resp /\ q' = q /\ c' = c.
Proof.
  intros (H1 & H2 & _ & _ & _ & _ & H3) (H1' & H2' & _ & _ & _ & _ & H3').
  repeat split; congruence.
Qed.

(** One query, every path.  The proxy pins an entry if and only if the query is
    answered and the entry is for the querying guest and its own tap, an address
    of the upstream answer, a port the guest's allowlist grants for the queried
    name, with the record's TTL raised to the floor; in every other case it pins
    nothing and replies REFUSED or SERVFAIL instead of forwarding an answer. *)
Theorem serve_pins_exact (s : ServerT) (remote : net_addr) (r : Msg) (f : FakePinner) :
  failErr f = None ->
  exists new,
    pinned (fst (ServeDNS other_string unicode_lower parse_v6 range_al range_ports s remote r f))
      = pinned f ++ new /\
    (forall e, e ∈ new <-> exists q resp clientIP,
       answered s remote r resp q clientIP /\
       pe_GuestIP e = clientIP /\ pe_Tap e = tapFor s clientIP /\
       allows other_string unicode_lower (registry s) clientIP (q_Name q) (pe_Port e) /\
       exists ttl, (RR_A (pe_IP e) ttl ∈ Answer resp \/ RR_AAAA (pe_IP e) ttl ∈ Answer resp) /\
         pe_TTL e = Z.max (ttl * second) (ttlFloor s)) /\
    (forall resp,
       snd (ServeDNS other_string unicode_lower parse_v6 range_al range_ports s remote r f) = ReplyMsg resp
       <-> exists q clientIP, answered s remote r resp q clientIP).
Proof.
  intros Hf. destruct f as [l fe]. simpl in Hf. subst fe.
  destruct (ServeDNS_cases s remote r (mkFake l None))
    as [(q & resp & c & ports & Ha & HL & ->)|[[code ->] Hna]].
  - eexists. rewrite pin_answers_fake. split; [done|]. split.
    + intros e. rewrite elem_of_answer_pins.
      assert (pe_Port e ∈ ports <-> allows other_string unicode_lower (registry s) c (q_Name q) (pe_Port e)) as Hp.
      { rewrite <- (Lookup_allows other_string unicode_lower range_al range_ports Hal Hports), HL.
        split; [by eauto|]. by intros (? & [= <-] & ?). }
      rewrite Hp. split.
      * intros (? & ? & ? & ?). by exists q, resp, c.
      * intros (q' & resp' & c' & Ha' & ? & ? & ? & ?).
        destruct (answered_fun _ _ _ _ _ _ _ _ _ Ha Ha') as (-> & -> & ->). done.
    + intros resp'. simpl. split; [intros [= <-]; by exists q, c|].
      intros (q' & c' & Ha'). destruct (answered_fun _ _ _ _ _ _ _ _ _ Ha Ha') as (-> & _). done.
  - exists []. split; [by rewrite app_nil_r|]. split.
    + intros e. split; [by intros ?%not_elem_of_nil|].
      intros (q & resp & c & Ha & _). by apply Hna in Ha.
    + intros resp. split; [done|]. intros (q & c & Ha). by apply Hna in Ha.
Qed.
End Pinned.

(** ** A served query *)

Definition ex_server : ServerT := mkServer ex_registry (30 * second)
  (fun ip => if ip_equal ip [10; 200; 0; 2] then "mt-1" else "")
  (fun _ => Some (mkMsg [] [RR_A [93; 184; 216; 34] 5])).
Definition ex_query : Msg := mkMsg [mkQuestion "www.example.org." TypeA] [].

Lemma ex_served :
  ServeDNS (fun _ => "") (fun s => s) no_v6 map_to_list elements ex_server
    (UDPAddr [10; 200; 0; 2]) ex_query NewFakePinner
  = (mkFake [mkPinned [10; 200; 0; 2] "mt-1" [93; 184; 216; 34] 8443 (30 * second)] None,
     ReplyMsg (mkMsg [] [RR_A [93; 184; 216; 34] 5])).
Proof. vm_compute. reflexivity. Qed.

Lemma serve_pins_exact_witness :
  failErr NewFakePinner = None /\
  exists q clientIP, answered (fun _ => "") (fun s => s) no_v6 map_to_list elements ex_server
    (UDPAddr [10; 200; 0; 2]) ex_query (mkMsg [] [RR_A [93; 184; 216; 34] 5]) q clientIP.
Proof.
  split; [done|].
  destruct (serve_pins_exact (fun _ => "") (fun s => s) no_v6 map_to_list elements ranges_map_to_list
    ranges_elements ex_server (UDPAddr [10; 200; 0; 2]) ex_query NewFakePinner eq_refl)
    as (new & _ & _ & Hrep).
  apply Hrep. by rewrite ex_served.
Defined.

End Server.
