(* ===== verification/Scheduler.v ===== *)
(** * Node registry, discovery and scheduling

    Models [src/internal/controller/node_registry.go] and [scheduler.go] (Module
    [Registry]: the registry of forkd nodes, capacity-aware placement and the
    dialed connections) and [src/internal/controller/forkd_discovery.go] (Module
    [Discovery]: the periodic sync with the forkd pods).  Registry methods hold
    the registry lock, so each is one atomic step; the iteration order of a Go
    map is an explicit list argument; [now] is the clock a method reads. *)
From Stdlib Require Import SpecFloat.
From S2P Require Import Prelude GoLib.

Module Registry.

(** ** Data *)

Record TemplateCapacity := mkTemplateCapacity {
  tc_TemplateID : string;
  tc_SnapshotDigest : string;
  SharedOnceBytes : Z;
  AvgForkUniqueBytes : Z;
  ForkCount : Z }.

(** A TLS configuration is known by its identity; a connection by its endpoint,
    the credentials it was dialed with, and its identity. *)
Abbreviation tls_config := positive.
Record conn := mkConn { c_endpoint : string; c_creds : option tls_config; c_id : nat }.

Record NodeInfo := mkNodeInfo {
  Name : string;
  Endpoint : string;
  HTTPEndpoint : string;
  CASEndpoint : string;
  ActiveSandboxes : Z;
  MaxSandboxes : Z;
  MemoryTotal : Z;
  MemoryUsed : Z;
  TemplateIDs : list string;
  SnapshotIDs : list string;
  TemplateDigests : gmap string string;
  TemplateEstimates : gmap string TemplateCapacity;
  LastHeartbeat : time;
  probeFailures : Z;
  n_TLS : option tls_config;
  n_conn : option conn }.

Record NodeRegistry := mkRegistry {
  nodes : gmap string NodeInfo;
  r_TLS : option tls_config;
  overcommitFactor : spec_float }.

Definition set_conn (n : NodeInfo) (c : option conn) : NodeInfo :=
  mkNodeInfo (Name n) (Endpoint n) (HTTPEndpoint n) (CASEndpoint n) (ActiveSandboxes n)
    (MaxSandboxes n) (MemoryTotal n) (MemoryUsed n) (TemplateIDs n) (SnapshotIDs n)
    (TemplateDigests n) (TemplateEstimates n) (LastHeartbeat n) (probeFailures n) (n_TLS n) c.
Definition set_heartbeat (n : NodeInfo) (t : time) : NodeInfo :=
  mkNodeInfo (Name n) (Endpoint n) (HTTPEndpoint n) (CASEndpoint n) (ActiveSandboxes n)
    (MaxSandboxes n) (MemoryTotal n) (MemoryUsed n) (TemplateIDs n) (SnapshotIDs n)
    (TemplateDigests n) (TemplateEstimates n) t (probeFailures n) (n_TLS n) (n_conn n).
Definition set_memory (n : NodeInfo) (total used : Z) : NodeInfo :=
  mkNodeInfo (Name n) (Endpoint n) (HTTPEndpoint n) (CASEndpoint n) (ActiveSandboxes n)
    (MaxSandboxes n) total used (TemplateIDs n) (SnapshotIDs n)
    (TemplateDigests n) (TemplateEstimates n) (LastHeartbeat n) (probeFailures n) (n_TLS n) (n_conn n).
Definition set_templates (n : NodeInfo) (ids : list string) (digests : gmap string string) : NodeInfo :=
  mkNodeInfo (Name n) (Endpoint n) (HTTPEndpoint n) (CASEndpoint n) (ActiveSandboxes n)
    (MaxSandboxes n) (MemoryTotal n) (MemoryUsed n) ids (SnapshotIDs n)
    digests (TemplateEstimates n) (LastHeartbeat n) (probeFailures n) (n_TLS n) (n_conn n).
Definition set_nodes (r : NodeRegistry) (ns : gmap string NodeInfo) : NodeRegistry :=
  mkRegistry ns (r_TLS r) (overcommitFactor r).

Definition probeFailureThreshold : Z := 3.
Definition defaultColdSharedBytes : Z := 256 * 1024 * 1024.
Definition defaultForkUniqueBytes : Z := 8 * 1024 * 1024.

(** ** Registration *)

Definition NewNodeRegistry : NodeRegistry := mkRegistry ∅ None f64_one.

Definition SetOvercommitFactor (r : NodeRegistry) (f : spec_float) : NodeRegistry :=
  if SFleb f (S754_zero false) then r else mkRegistry (nodes r) (r_TLS r) f.

Definition SetNodeMemory (r : NodeRegistry) (name : string) (total used : Z) : NodeRegistry :=
  match nodes r !! name with
  | Some node => set_nodes r (<[name := set_memory node total used]> (nodes r))
  | None => r
  end.

(** The methods that drop a connection also return the connections they close. *)
Definition Register (r : NodeRegistry) (info : NodeInfo) (now : Z) : NodeRegistry * list conn :=
  let '(info, closed) :=
    match nodes r !! Name info with
    | Some old =>
        match n_conn old with
        | Some c =>
            if String.eqb (Endpoint old) (Endpoint info) && bool_decide (n_conn info = None)
            then (set_conn info (Some c), []) else (info, [c])
        | None => (info, [])
        end
    | None => (info, [])
    end in
  let info := set_heartbeat info (Some now) in
  (set_nodes r (<[Name info := info]> (nodes r)), closed).

Definition Unregister (r : NodeRegistry) (name : string) : NodeRegistry * list conn :=
  match nodes r !! name with
  | Some node => (set_nodes r (delete name (nodes r)), option_list (n_conn node))
  | None => (r, [])
  end.

(** ** Health and holdings *)

(** [time.Since(t)]; the zero time saturates the duration. *)
Definition since (now : Z) (t : time) : Z :=
  match t with Some u => time_sub now u | None => max_i64 end.

Definition isHealthy (now : Z) (n : NodeInfo) : bool :=
  if probeFailureThreshold <=? probeFailures n then false
  else since now (LastHeartbeat n) <? 2 * minute.

Definition hasSnapshot (n : NodeInfo) (id : string) : bool :=
  existsb (String.eqb id) (SnapshotIDs n) || existsb (String.eqb id) (TemplateIDs n).

Definition priorProbeFailures (r : NodeRegistry) (name : string) : Z :=
  match nodes r !! name with Some node => probeFailures node | None => 0 end.

(** ** Cost projection (scheduler.go) *)

Section Cost.
Context (conv : spec_float -> Z).

Definition available (r : NodeRegistry) (node : NodeInfo) : option Z :=
  if MemoryTotal node <=? 0 then None
  else let factor := if SFleb (overcommitFactor r) (S754_zero false) then f64_one
                     else overcommitFactor r in
       Some (i64 (f64_to_int64 conv (f64_mul (f64_of_int (MemoryTotal node)) factor) - MemoryUsed node)).

Definition isWarmFor (n : NodeInfo) (templateID : string) : bool :=
  if String.eqb templateID "" then false
  else match TemplateEstimates n !! templateID with
       | Some est => 0 <? ForkCount est
       | None => false
       end.

Definition forkCountFor (n : NodeInfo) (templateID : string) : Z :=
  match TemplateEstimates n !! templateID with Some est => ForkCount est | None => 0 end.

(** [order] is the iteration order of the registry's nodes. *)
Fixpoint estimate_scan (order : list NodeInfo) (templateID : string) : option TemplateCapacity :=
  match order with
  | [] => None
  | n :: rest => match TemplateEstimates n !! templateID with
                 | Some est => Some est
                 | None => estimate_scan rest templateID
                 end
  end.

Definition templateEstimateAcross (order : list NodeInfo) (node : NodeInfo) (templateID : string)
    : option TemplateCapacity :=
  if String.eqb templateID "" then None
  else match TemplateEstimates node !! templateID with
       | Some est => Some est
       | None => estimate_scan order templateID
       end.

Definition projectedCost (order : list NodeInfo) (node : NodeInfo) (templateID : string) : Z :=
  let est := templateEstimateAcross order node templateID in
  let unique := match est with
                | Some e => if 0 <? AvgForkUniqueBytes e then AvgForkUniqueBytes e else defaultForkUniqueBytes
                | None => defaultForkUniqueBytes
                end in
  if isWarmFor node templateID then unique
  else let shared := match est with
                     | Some e => if 0 <? SharedOnceBytes e then SharedOnceBytes e else defaultColdSharedBytes
                     | None => defaultColdSharedBytes
                     end in
       i64 (shared + unique).

Definition atSandboxCeiling (n : NodeInfo) : bool :=
  (0 <? MaxSandboxes n) && (MaxSandboxes n <=? ActiveSandboxes n).

Definition admits (r : NodeRegistry) (order : list NodeInfo) (node : NodeInfo) (templateID : string) : bool :=
  if atSandboxCeiling node then false
  else match available r node with
       | None => true
       | Some avail => projectedCost order node templateID <=? avail
       end.

(** ** Placement *)

Definition packTier (n : NodeInfo) (snapshotID : string) : Z :=
  if String.eqb snapshotID "" || negb (hasSnapshot n snapshotID) then 0
  else if 0 <? forkCountFor n snapshotID then 2 else 1.

Definition denser (r : NodeRegistry) (c b : NodeInfo) (snapshotID : string) : bool :=
  let cTier := packTier c snapshotID in
  let bTier := packTier b snapshotID in
  if negb (cTier =? bTier) then bTier <? cTier
  else if 0 <? cTier then
    let cForks := forkCountFor c snapshotID in
    let bForks := forkCountFor b snapshotID in
    if negb (cForks =? bForks) then bForks <? cForks else String.ltb (Name c) (Name b)
  else match available r c, available r b with
       | Some cAvail, Some bAvail =>
           if negb (cAvail =? bAvail) then bAvail <? cAvail else String.ltb (Name c) (Name b)
       | Some _, None => true
       | None, Some _ => false
       | None, None => String.ltb (Name c) (Name b)
       end.

(** [packBest] on the non-empty slice [first :: rest]. *)
Definition packBest (r : NodeRegistry) (first : NodeInfo) (rest : list NodeInfo) (snapshotID : string)
    : NodeInfo :=
  fold_left (fun best node => if denser r node best snapshotID then node else best) rest first.

Inductive select_error := NoNodesRegistered | NoHealthyNodes | ErrNoCapacity.

(** [order] is the iteration order of the scan; [est_pref] and [est_of] are the
    orders the estimate lookups of the individual [admits] calls iterate in. *)
Definition SelectNode (r : NodeRegistry) (now : Z) (order : list NodeInfo)
    (est_pref : list NodeInfo) (est_of : string -> list NodeInfo)
    (snapshotID preferredNode : string) : res select_error NodeInfo :=
  if bool_decide (nodes r = ∅) then Err NoNodesRegistered
  else
    let scan :=
      let healthy := existsb (isHealthy now) order in
      let admitted := List.filter (fun node => isHealthy now node
                        && admits r (est_of (Name node)) node snapshotID) order in
      if negb healthy then Err NoHealthyNodes
      else match admitted with
           | [] => Err ErrNoCapacity
           | first :: rest => Ok (packBest r first rest snapshotID)
           end in
    if negb (String.eqb preferredNode "") then
      match nodes r !! preferredNode with
      | Some node => if isHealthy now node && admits r est_pref node snapshotID then Ok node else scan
      | None => scan
      end
    else scan.
End Cost.

(** ** Template holders *)

Definition NodesWithTemplate (now : Z) (order : list NodeInfo) (templateID : string) : list NodeInfo :=
  List.filter (fun n => isHealthy now n && hasSnapshot n templateID) order.

Definition casBaseURL (n : NodeInfo) : string :=
  if String.eqb (CASEndpoint n) "" then "" else "https://" +:+ CASEndpoint n +:+ "/cas".

Definition TemplateSource (now : Z) (order : list NodeInfo) (templateID : string)
    : option (NodeInfo * string * string) :=
  let best := fold_left (fun best n =>
    if negb (isHealthy now n) || negb (hasSnapshot n templateID) then best
    else let d := default "" (TemplateDigests n !! templateID) in
         if String.eqb d "" || String.eqb (CASEndpoint n) "" then best
         else match best with
              | None => Some (n, d)
              | Some (b, _) => if String.ltb (Name n) (Name b) then Some (n, d) else best
              end) order None in
  match best with
  | None => None
  | Some (n, d) => Some (n, casBaseURL n, d)
  end.

Definition AddTemplateWithDigest (r : NodeRegistry) (nodeName templateID digest : string) : NodeRegistry :=
  match nodes r !! nodeName with
  | None => r
  | Some node =>
      let digests := if negb (String.eqb digest "")
                     then <[templateID := digest]> (TemplateDigests node) else TemplateDigests node in
      let ids := if existsb (String.eqb templateID) (TemplateIDs node) then TemplateIDs node
                 else TemplateIDs node ++ [templateID] in
      set_nodes r (<[nodeName := set_templates node ids digests]> (nodes r))
  end.

Definition AddTemplate (r : NodeRegistry) (nodeName templateID : string) : NodeRegistry :=
  AddTemplateWithDigest r nodeName templateID "".

Fixpoint TemplateDigest (now : Z) (order : list NodeInfo) (templateID : string) : option string :=
  match order with
  | [] => None
  | n :: rest =>
      if negb (isHealthy now n) || negb (hasSnapshot n templateID) then TemplateDigest now rest templateID
      else match TemplateDigests n !! templateID with
           | Some d => if negb (String.eqb d "") then Some d else TemplateDigest now rest templateID
           | None => TemplateDigest now rest templateID
           end
  end.

Definition GetNode (r : NodeRegistry) (name : string) : option NodeInfo := nodes r !! name.
Definition NodeHealthy (r : NodeRegistry) (now : Z) (name : string) : bool :=
  match nodes r !! name with None => false | Some node => isHealthy now node end.

(** ** Connections *)

Inductive conn_error (E : Type) := NodeNotFound (name : string) | ConnectFailed (name : string) (e : E).
Arguments NodeNotFound {E} name.
Arguments ConnectFailed {E} name e.

(** [dial] is [grpc.NewClient] on an endpoint with transport credentials
    ([None] is insecure). *)
Definition GetConnection {E} (dial : string -> option tls_config -> res E conn)
    (r : NodeRegistry) (nodeName : string) : NodeRegistry * res (conn_error E) conn :=
  match nodes r !! nodeName with
  | None => (r, Err (NodeNotFound nodeName))
  | Some node =>
      match n_conn node with
      | Some c => (r, Ok c)
      | None =>
          let creds := match n_TLS node with
                       | Some t => Some t
                       | None => r_TLS r
                       end in
          match dial (Endpoint node) creds with
          | Err e => (r, Err (ConnectFailed nodeName e))
          | Ok c => (set_nodes r (<[nodeName := set_conn node (Some c)]> (nodes r)), Ok c)
          end
      end
  end.

Definition NodeMTLS (r : NodeRegistry) (nodeName : string) : bool :=
  match nodes r !! nodeName with
  | None => false
  | Some node => bool_decide (n_TLS node <> None) || bool_decide (r_TLS r <> None)
  end.

(** [order] is the iteration order over the registry's entries. *)
Definition PruneStale (r : NodeRegistry) (now maxAge : Z) (order : list (string * NodeInfo))
    : NodeRegistry * list conn * Z :=
  fold_left (fun '(r, closed, pruned) '(name, node) =>
    if maxAge <=? since now (LastHeartbeat node)
    then (set_nodes r (delete name (nodes r)), closed ++ option_list (n_conn node), pruned + 1)
    else (r, closed, pruned)) order (r, [], 0).

(** ** The packing order *)

Section Order.
Context (conv : spec_float -> Z) (r : NodeRegistry) (snapshotID : string).

(** What [denser] compares before falling back to the name. *)
Definition score (n : NodeInfo) : Z * Z * Z :=
  let tier := packTier n snapshotID in
  if 0 <? tier then (tier, forkCountFor n snapshotID, 0)
  else match available conv r n with
       | Some a => (tier, 1, a)
       | None => (tier, 0, 0)
       end.

Definition score_lt (x y : Z * Z * Z) : Prop :=
  let '(x1, x2, x3) := x in
  let '(y1, y2, y3) := y in
  x1 < y1 \/ (x1 = y1 /\ (x2 < y2 \/ (x2 = y2 /\ x3 < y3))).

(** [c] packs before [b]: a better score, or the same and the smaller name. *)
Definition packs_before (c b : NodeInfo) : Prop :=
  score_lt (score b) (score c) \/ (score b = score c /\ String.ltb (Name c) (Name b) = true).

Lemma packTier_range n : 0 <= packTier n snapshotID <= 2.
Proof. unfold packTier. case_ifs; lia. Qed.

Lemma denser_spec c b : denser conv r c b snapshotID = true <-> packs_before c b.
Proof.
  unfold denser, packs_before, score. cbv zeta.
  destruct (Z.eqb_spec (packTier c snapshotID) (packTier b snapshotID)) as [Ht|Ht]; simpl.
  - rewrite Ht. destruct (0 <? packTier b snapshotID).
    + destruct (Z.eqb_spec (forkCountFor c snapshotID) (forkCountFor b snapshotID)) as [Hf|Hf]; simpl.
      * rewrite Hf. split; [by right|]. intros [?|[_ ?]]; [lia|done].
      * rewrite Z.ltb_lt. split; [by left; lia|]. intros [?|[Heq _]]; [lia|exfalso; injection Heq; intros; lia].
    + destruct (available conv r c) as [ca|], (available conv r b) as [ba|]; simpl.
      * destruct (Z.eqb_spec ca ba) as [->|Hf]; simpl.
        -- split; [by right|]. intros [?|[_ ?]]; [lia|done].
        -- rewrite Z.ltb_lt. split; [by left; lia|]. intros [?|[Heq _]]; [lia|exfalso; injection Heq; intros; lia].
      * split; [intros _; left; lia|done].
      * split; [done|]. intros [?|[Heq _]]; [lia|discriminate].
      * split; [by right|]. intros [?|[_ ?]]; [lia|done].
  - pose proof (packTier_range c). pose proof (packTier_range b). rewrite Z.ltb_lt.
    destruct (0 <? packTier c snapshotID) eqn:Hc, (0 <? packTier b snapshotID) eqn:Hb,
      (available conv r c), (available conv r b); simpl; zbool;
      (split; [intros ?; left; lia|]); (intros [?|[Heq _]]; [lia|exfalso; injection Heq; intros; lia]).
Qed.

Lemma packs_before_irrefl n : ~ packs_before n n.
Proof.
  intros [H|[_ H]]; [|by rewrite ltb_irrefl in H].
  destruct (score n) as [[x1 x2] x3]. simpl in H. lia.
Qed.

Lemma packs_before_trans a b c : packs_before a b -> packs_before b c -> packs_before a c.
Proof.
  unfold packs_before. destruct (score a) as [[a1 a2] a3], (score b) as [[b1 b2] b3],
    (score c) as [[c1 c2] c3]. simpl.
  intros [H1|[[= -> -> ->] H1]] [H2|[[= -> -> ->] H2]]; [left; lia|left; lia|left; lia|right].
  split; [done|]. by eapply ltb_trans.
Qed.

Lemma packs_before_total a b : Name a <> Name b -> packs_before a b \/ packs_before b a.
Proof.
  intros Hn. unfold packs_before. destruct (score a) as [[a1 a2] a3], (score b) as [[b1 b2] b3]. simpl.
  destruct (decide ((a1, a2, a3) = (b1, b2, b3))) as [[= -> -> ->]|Hne].
  - destruct (ltb_total _ _ Hn); [left|right]; right; done.
  - assert (a1 <> b1 \/ a2 <> b2 \/ a3 <> b3) by
      (destruct (decide (a1 = b1)), (decide (a2 = b2)), (decide (a3 = b3)); subst; tauto).
    destruct (Z.lt_total a1 b1) as [?|[?|?]], (Z.lt_total a2 b2) as [?|[?|?]],
      (Z.lt_total a3 b3) as [?|[?|?]]; lia.
Qed.

Lemma packBest_spec first rest :
  NoDup (map Name (first :: rest)) ->
  packBest conv r first rest snapshotID ∈ first :: rest /\
  (forall m, m ∈ first :: rest -> m = packBest conv r first rest snapshotID \/
     packs_before (packBest conv r first rest snapshotID) m).
Proof.
  unfold packBest. revert first. induction rest as [|n rest IH]; intros first Hnd; simpl.
  - split; [by left|]. intros m [->|?%not_elem_of_nil]%elem_of_cons; [by left|done].
  - simpl in Hnd. apply list.NoDup_cons in Hnd as [Hf Hnd]. pose proof Hnd as Hnd'.
    apply list.NoDup_cons in Hnd as [Hn Hnd]. rewrite elem_of_cons in Hf.
    destruct (denser conv r n first snapshotID) eqn:E.
    + destruct (IH n) as [Hin Hmax]; [done|]. split; [by right|].
      intros m [->|Hm]%elem_of_cons; [|by apply Hmax]. right.
      apply denser_spec in E. destruct (Hmax n) as [<-|Hb]; [by left|done|by eapply packs_before_trans].
    + destruct (IH first) as [Hin Hmax]. { simpl. apply list.NoDup_cons. split; [tauto|done]. }
      split; [rewrite elem_of_cons in Hin |- *; rewrite elem_of_cons; tauto|].
      intros m [->|[->|Hm]%elem_of_cons]%elem_of_cons; [apply Hmax; by left| |apply Hmax; by right].
      right. assert (packs_before first n) as Hfn.
      { destruct (packs_before_total first n) as [?|H]; [tauto|done|]. apply denser_spec in H. congruence. }
      destruct (Hmax first) as [<-|Hb]; [by left|done|by eapply packs_before_trans].
Qed.

(** The best candidate does not depend on the order of the candidates. *)
Lemma packBest_unique f1 l1 f2 l2 :
  NoDup (map Name (f1 :: l1)) -> f1 :: l1 ≡ₚ f2 :: l2 ->
  packBest conv r f1 l1 snapshotID = packBest conv r f2 l2 snapshotID.
Proof.
  intros Hnd Hp. assert (NoDup (map Name (f2 :: l2))) as Hnd2 by by rewrite <- Hp.
  destruct (packBest_spec _ _ Hnd) as [Hi1 Hm1], (packBest_spec _ _ Hnd2) as [Hi2 Hm2].
  rewrite Hp in Hi1. rewrite <- Hp in Hi2.
  destruct (Hm1 _ Hi2) as [|H12]; [done|]. destruct (Hm2 _ Hi1) as [|H21]; [done|].
  exfalso. by eapply packs_before_irrefl, packs_before_trans.
Qed.
End Order.

(** ** Well-formed registries and iteration orders *)

(** Every node is stored under its own name. *)
Definition wf (r : NodeRegistry) : Prop :=
  forall k n, nodes r !! k = Some n -> Name n = k.

(** A list that is an iteration order of the registry's nodes. *)
Definition iterates (r : NodeRegistry) (order : list NodeInfo) : Prop :=
  order ≡ₚ (map_to_list (nodes r)).*2.

Definition registered (r : NodeRegistry) (n : NodeInfo) : Prop := nodes r !! Name n = Some n.

Lemma iterates_elem r order n : wf r -> iterates r order -> n ∈ order <-> registered r n.
Proof.
  intros Hwf Ho. rewrite Ho. rewrite list_elem_of_fmap. split.
  - intros ([k n'] & -> & Hk%elem_of_map_to_list). simpl. unfold registered.
    by rewrite (Hwf _ _ Hk).
  - intros Hn. exists (Name n, n). split; [done|]. by apply elem_of_map_to_list.
Qed.

Lemma iterates_NoDup r order : wf r -> iterates r order -> NoDup (map Name order).
Proof.
  intros Hwf Ho. rewrite Ho.
  assert (map Name (map_to_list (nodes r)).*2 = (map_to_list (nodes r)).*1) as ->.
  { rewrite <- list_fmap_compose. apply list_fmap_ext. intros i [k n] Hi. simpl.
    apply Hwf, elem_of_map_to_list. by eapply list_elem_of_lookup_2. }
  apply NoDup_fst_map_to_list.
Qed.

Lemma NoDup_map_filter {A B} (g : A -> B) (f : A -> bool) l :
  NoDup (map g l) -> NoDup (map g (List.filter f l)).
Proof.
  induction l as [|x l IH]; simpl; [done|]. intros [Hx Hnd]%list.NoDup_cons.
  destruct (f x); [|by apply IH]. simpl. apply list.NoDup_cons. split; [|by apply IH].
  intros Hin. apply Hx. apply list_elem_of_In, in_map_iff in Hin as (y & <- & [Hy _]%filter_In).
  apply list_elem_of_In, in_map_iff. eauto.
Qed.

Lemma iterates_nil r order : iterates r order -> order = [] <-> nodes r = ∅.
Proof.
  intros Ho. split.
  - intros ->. apply map_to_list_empty_iff. apply Permutation_nil_l in Ho. symmetry in Ho. by apply fmap_nil_inv in Ho.
  - intros He. unfold iterates in Ho. rewrite He, map_to_list_empty in Ho. by apply Permutation_nil_r in Ho.
Qed.

(** ** Placement *)

Section Select.
Context (conv : spec_float -> Z) (r : NodeRegistry) (now : Z) (snapshotID preferredNode : string).
Hypothesis Hwf : wf r.

(** Candidates of the scan under the estimate orders [est_of]. *)
Definition candidate (est_of : string -> list NodeInfo) (n : NodeInfo) : Prop :=
  registered r n /\ isHealthy now n = true /\ admits conv r (est_of (Name n)) n snapshotID = true.

Definition preferred_ok (est_pref : list NodeInfo) (n : NodeInfo) : Prop :=
  preferredNode <> "" /\ nodes r !! preferredNode = Some n /\
  isHealthy now n = true /\ admits conv r est_pref n snapshotID = true.

(** The scan that follows when the preferred node is not taken. *)
Definition select_scan (order : list NodeInfo) (est_of : string -> list NodeInfo) : res select_error NodeInfo :=
  if negb (existsb (isHealthy now) order) then Err NoHealthyNodes
  else match List.filter (fun node => isHealthy now node
               && admits conv r (est_of (Name node)) node snapshotID) order with
       | [] => Err ErrNoCapacity
       | first :: rest => Ok (packBest conv r first rest snapshotID)
       end.

Lemma SelectNode_cases order est_pref est_of :
  (nodes r = ∅ /\ SelectNode conv r now order est_pref est_of snapshotID preferredNode = Err NoNodesRegistered) \/
  (nodes r <> ∅ /\ exists n, preferred_ok est_pref n /\
     SelectNode conv r now order est_pref est_of snapshotID preferredNode = Ok n) \/
  (nodes r <> ∅ /\ (forall n, ~ preferred_ok est_pref n) /\
     SelectNode conv r now order est_pref est_of snapshotID preferredNode = select_scan order est_of).
Proof.
  unfold SelectNode, preferred_ok, select_scan. case_bool_decide as He; [by left|]. right.
  destruct (String.eqb_spec preferredNode "") as [Hp|Hp]; simpl.
  { right. split; [done|]. split; [by intros n (? & _)|done]. }
  destruct (nodes r !! preferredNode) as [n|] eqn:Hn.
  2:{ right. split; [done|]. split; [by intros n (_ & ? & _)|done]. }
  destruct (isHealthy now n && admits conv r est_pref n snapshotID) eqn:Hok.
  - left. split; [done|]. exists n. apply andb_true_iff in Hok. tauto.
  - right. split; [done|]. split; [|done]. intros n' (_ & [= <-] & H1 & H2).
    by rewrite H1, H2 in Hok.
Qed.

Lemma select_scan_spec order est_of :
  iterates r order ->
  match select_scan order est_of with
  | Ok n => candidate est_of n /\
      forall m, candidate est_of m -> m = n \/ packs_before conv r snapshotID n m
  | Err NoNodesRegistered => False
  | Err NoHealthyNodes => forall m, registered r m -> isHealthy now m = false
  | Err ErrNoCapacity =>
      (exists m, registered r m /\ isHealthy now m = true) /\ forall m, ~ candidate est_of m
  end.
Proof.
  intros Ho. unfold select_scan, candidate.
  set (f := fun node => isHealthy now node && admits conv r (est_of (Name node)) node snapshotID).
  assert (forall m, m ∈ List.filter f order <-> registered r m /\ isHealthy now m = true /\
    admits conv r (est_of (Name m)) m snapshotID = true) as Hf.
  { intros m. rewrite elem_of_filter_bool, (iterates_elem r order m Hwf Ho). subst f. cbv beta.
    rewrite andb_true_iff. tauto. }
  destruct (existsb (isHealthy now) order) eqn:Hh; simpl.
  - apply existsb_exists in Hh as (h & Hh1%list_elem_of_In & Hh2).
    rewrite (iterates_elem r order h Hwf Ho) in Hh1.
    destruct (List.filter f order) as [|first rest] eqn:E.
    + split; [by exists h|]. intros m Hm. apply Hf in Hm. by apply not_elem_of_nil in Hm.
    + destruct (packBest_spec conv r snapshotID first rest) as [Hin Hmax].
      { rewrite <- E. apply NoDup_map_filter. by eapply iterates_NoDup. }
      split; [by apply Hf|]. intros m Hm. apply Hmax. by apply Hf.
  - intros m Hm. apply not_true_iff_false. intros Ht. apply not_true_iff_false in Hh. apply Hh.
    apply existsb_exists. exists m. split; [|done]. apply list_elem_of_In. by eapply iterates_elem.
Qed.

(** Placement is correct on every path.  A returned node is registered, healthy
    and admits the fork; it is the preferred node, or it packs before every
    other healthy admitting node.  Each error says exactly what is missing: no
    node at all, no healthy node, or healthy nodes none of which admits. *)
Theorem SelectNode_correct (order est_pref : list NodeInfo) (est_of : string -> list NodeInfo) :
  iterates r order ->
  match SelectNode conv r now order est_pref est_of snapshotID preferredNode with
  | Ok n => preferred_ok est_pref n \/
      ((forall p, ~ preferred_ok est_pref p) /\ candidate est_of n /\
       forall m, candidate est_of m -> m = n \/ packs_before conv r snapshotID n m)
  | Err NoNodesRegistered => nodes r = ∅
  | Err NoHealthyNodes => nodes r <> ∅ /\ forall m, registered r m -> isHealthy now m = false
  | Err ErrNoCapacity =>
      (exists m, registered r m /\ isHealthy now m = true) /\
      (forall m, ~ candidate est_of m) /\ forall p, ~ preferred_ok est_pref p
  end.
Proof.
  intros Ho.
  destruct (SelectNode_cases order est_pref est_of)
    as [[He ->]|[(He & n & Hn & ->)|(He & Hp & ->)]]; [done|by left|].
  pose proof (select_scan_spec order est_of Ho) as Hs.
  destruct (select_scan order est_of) as [n|[]]; [right|done|..]; tauto.
Qed.

(** ** Independence of the iteration orders *)

(** All nodes that report an estimate for the template report the same sizes. *)
Definition estimates_agree : Prop :=
  forall n1 n2 e1 e2, registered r n1 -> registered r n2 ->
    TemplateEstimates n1 !! snapshotID = Some e1 -> TemplateEstimates n2 !! snapshotID = Some e2 ->
    SharedOnceBytes e1 = SharedOnceBytes e2 /\ AvgForkUniqueBytes e1 = AvgForkUniqueBytes e2.

Lemma estimate_scan_spec order :
  match estimate_scan order snapshotID with
  | Some e => exists n, n ∈ order /\ TemplateEstimates n !! snapshotID = Some e
  | None => forall n, n ∈ order -> TemplateEstimates n !! snapshotID = None
  end.
Proof.
  induction order as [|n order IH]; simpl; [by intros n ?%not_elem_of_nil|].
  destruct (TemplateEstimates n !! snapshotID) as [e|] eqn:E.
  - exists n. split; [by left|done].
  - destruct (estimate_scan order snapshotID) as [e|].
    + destruct IH as (m & ? & ?). exists m. split; [by right|done].
    + intros m [->|?]%elem_of_cons; [done|by apply IH].
Qed.

Lemma admits_order o1 o2 n :
  estimates_agree -> iterates r o1 -> iterates r o2 ->
  admits conv r o1 n snapshotID = admits conv r o2 n snapshotID.
Proof.
  intros Hagree H1 H2. unfold admits. destruct (atSandboxCeiling n); [done|].
  destruct (available conv r n) as [a|]; [|done]. f_equal.
  unfold projectedCost, templateEstimateAcross.
  destruct (String.eqb snapshotID ""); [done|].
  destruct (TemplateEstimates n !! snapshotID); [done|].
  pose proof (estimate_scan_spec o1) as S1. pose proof (estimate_scan_spec o2) as S2.
  destruct (estimate_scan o1 snapshotID) as [e1|], (estimate_scan o2 snapshotID) as [e2|]; [| | |done].
  - destruct S1 as (n1 & Hn1 & He1), S2 as (n2 & Hn2 & He2).
    rewrite (iterates_elem r o1 n1 Hwf H1) in Hn1. rewrite (iterates_elem r o2 n2 Hwf H2) in Hn2.
    destruct (Hagree n1 n2 e1 e2) as [-> ->]; done.
  - destruct S1 as (n1 & Hn1 & He1). rewrite (iterates_elem r o1 n1 Hwf H1) in Hn1.
    rewrite S2 in He1; [done|]. by eapply iterates_elem.
  - destruct S2 as (n2 & Hn2 & He2). rewrite (iterates_elem r o2 n2 Hwf H2) in Hn2.
    rewrite S1 in He2; [done|]. by eapply iterates_elem.
Qed.

Lemma filter_Permutation {A} (f : A -> bool) l1 l2 :
  l1 ≡ₚ l2 -> List.filter f l1 ≡ₚ List.filter f l2.
Proof.
  induction 1 as [|x l1 l2 _ IH|x y l|l1 l2 l3 _ IH1 _ IH2]; simpl; [done| | |by etrans].
  - destruct (f x); [by constructor|done].
  - destruct (f x), (f y); try done. constructor.
Qed.

Lemma select_scan_order o1 o2 est1 est2 :
  estimates_agree -> iterates r o1 -> iterates r o2 ->
  (forall name, iterates r (est1 name)) -> (forall name, iterates r (est2 name)) ->
  select_scan o1 est1 = select_scan o2 est2.
Proof.
  intros Hagree H1 H2 He1 He2. unfold select_scan.
  assert (o1 ≡ₚ o2) as Hp by by rewrite H1, H2.
  assert (existsb (isHealthy now) o1 = existsb (isHealthy now) o2) as ->.
  { apply eq_true_iff_eq. rewrite !existsb_exists. setoid_rewrite <- list_elem_of_In.
    by setoid_rewrite Hp. }
  destruct (existsb _ o2); [|done]. simpl.
  set (f1 := fun node => _ && admits conv r (est1 _) node _).
  set (f2 := fun node => _ && admits conv r (est2 _) node _).
  assert (List.filter f1 o1 ≡ₚ List.filter f2 o2) as Hf.
  { rewrite (filter_ext f1 f2); [by apply filter_Permutation|].
    intros n. subst f1 f2. cbv beta. f_equal. by apply admits_order. }
  destruct (List.filter f1 o1) as [|x l] eqn:E1; [by apply Permutation_nil_l in Hf as <-|].
  destruct (List.filter f2 o2) as [|y l'] eqn:E2; [by apply Permutation_nil_r in Hf|].
  f_equal. apply packBest_unique; [|done]. rewrite <- E1.
  apply NoDup_map_filter. by eapply iterates_NoDup.
Qed.

(** When the nodes agree on the template's sizes, the placement does not depend
    on any iteration order of Go's maps. *)
Theorem SelectNode_deterministic (o1 o2 pref1 pref2 : list NodeInfo)
    (est1 est2 : string -> list NodeInfo) :
  estimates_agree -> iterates r o1 -> iterates r o2 -> iterates r pref1 -> iterates r pref2 ->
  (forall name, iterates r (est1 name)) -> (forall name, iterates r (est2 name)) ->
  SelectNode conv r now o1 pref1 est1 snapshotID preferredNode
  = SelectNode conv r now o2 pref2 est2 snapshotID preferredNode.
Proof.
  intros Hagree H1 H2 Hp1 Hp2 He1 He2.
  assert (forall n, preferred_ok pref1 n <-> preferred_ok pref2 n) as Hpref.
  { intros n. unfold preferred_ok. by rewrite (admits_order pref1 pref2 n). }
  destruct (SelectNode_cases o1 pref1 est1) as [[He ->]|[(He & n & Hn & ->)|(He & Hnp & ->)]];
    destruct (SelectNode_cases o2 pref2 est2) as [[He' ->]|[(He' & n' & Hn' & ->)|(He' & Hnp' & ->)]];
    try done.
  - f_equal. unfold preferred_ok in *. destruct Hn as (_ & Hn & _), Hn' as (_ & Hn' & _). congruence.
  - apply Hpref in Hn. by apply Hnp' in Hn.
  - apply Hpref in Hn'. by apply Hnp in Hn'.
  - by apply select_scan_order.
Qed.
End Select.

(** ** The template source *)

(** A node the pool may distribute [templateID] from. *)
Definition is_source (now : Z) (templateID : string) (n : NodeInfo) : bool :=
  isHealthy now n && hasSnapshot n templateID
  && negb (String.eqb (default "" (TemplateDigests n !! templateID)) "")
  && negb (String.eqb (CASEndpoint n) "").

Definition source_step (now : Z) (templateID : string) (best : option (NodeInfo * string)) (n : NodeInfo)
    : option (NodeInfo * string) :=
  if is_source now templateID n then
    match best with
    | Some (b, _) => if String.ltb (Name n) (Name b)
                     then Some (n, default "" (TemplateDigests n !! templateID)) else best
    | None => Some (n, default "" (TemplateDigests n !! templateID))
    end
  else best.

Lemma TemplateSource_fold now order templateID :
  TemplateSource now order templateID
  = match fold_left (source_step now templateID) order None with
    | None => None
    | Some (n, d) => Some (n, casBaseURL n, d)
    end.
Proof.
  unfold TemplateSource. f_equal. generalize (@None (NodeInfo * string)).
  induction order as [|n order IH]; intros best; simpl; [done|]. rewrite IH. f_equal.
  unfold source_step, is_source. cbv zeta.
  destruct (isHealthy now n), (hasSnapshot n templateID); simpl; try done.
  destruct (String.eqb _ ""), (String.eqb (CASEndpoint n) ""); simpl; done.
Qed.

Lemma source_fold_spec now templateID order : forall best,
  (forall b d, best = Some (b, d) -> is_source now templateID b = true /\
     d = default "" (TemplateDigests b !! templateID)) ->
  match fold_left (source_step now templateID) order best with
  | None => best = None /\ forall n, n ∈ order -> is_source now templateID n = false
  | Some (n, d) => is_source now templateID n = true /\ d = default "" (TemplateDigests n !! templateID) /\
      (n ∈ order \/ exists d', best = Some (n, d')) /\
      (forall m, (m ∈ order /\ is_source now templateID m = true) \/ (exists d', best = Some (m, d')) ->
         String.ltb (Name m) (Name n) = false)
  end.
Proof.
  induction order as [|n order IH]; intros best Hb; simpl.
  - destruct best as [[b d]|]; [|split; [done|]; by intros ? ?%not_elem_of_nil].
    destruct (Hb b d eq_refl) as [H1 H2]. split; [done|]. split; [done|]. split; [by right; eauto|].
    intros m [[?%not_elem_of_nil _]|[d' [= -> _]]]; [done|apply ltb_irrefl].
  - specialize (IH (source_step now templateID best n)).
    assert (forall b d, source_step now templateID best n = Some (b, d) ->
      is_source now templateID b = true /\ d = default "" (TemplateDigests b !! templateID)) as Hb'.
    { intros b d. unfold source_step. destruct (is_source now templateID n) eqn:En; [|apply Hb].
      destruct best as [[b0 d0]|]; [destruct (String.ltb _ _)|].
      all: try (intros [= <- <-]; done). apply Hb. }
    specialize (IH Hb').
    destruct (fold_left _ order _) as [[x d]|].
    + destruct IH as (Hx & Hd & Hin & Hmin). split; [done|]. split; [done|]. split.
      * destruct Hin as [?|[d' Hs]]; [by left; right|]. unfold source_step in Hs.
        destruct (is_source now templateID n); [|by right; eauto].
        destruct best as [[b0 d0]|]; [|injection Hs as <- _; by left; left].
        destruct (String.ltb (Name n) (Name b0)); [injection Hs as <- _; by left; left|by right; eauto].
      * assert (forall m, is_source now templateID m = true -> m = n \/ (exists d', best = Some (m, d')) ->
          String.ltb (Name m) (Name x) = false) as Hold.
        { intros m Hm Hcase. apply not_true_iff_false. intros Hlt.
          unfold source_step in Hmin.
          destruct (is_source now templateID n) eqn:En.
          2:{ destruct Hcase as [->|Hbest]; [congruence|]. rewrite Hmin in Hlt; [done|by right]. }
          destruct best as [[b0 d0]|].
          - destruct (String.ltb (Name n) (Name b0)) eqn:Elt.
            + assert (String.ltb (Name n) (Name x) = false) as Hnx by (apply Hmin; right; eauto).
              destruct Hcase as [->|[d' [= -> _]]]; [congruence|].
              rewrite (ltb_trans _ _ _ Elt Hlt) in Hnx. done.
            + assert (String.ltb (Name b0) (Name x) = false) as Hbx by (apply Hmin; right; eauto).
              destruct Hcase as [->|[d' [= -> _]]]; [|congruence].
              destruct (decide (Name b0 = Name n)) as [He|Hne]; [by rewrite He, Hlt in Hbx|].
              destruct (ltb_total _ _ Hne) as [Hbn|Hnb]; [|congruence].
              by rewrite (ltb_trans _ _ _ Hbn Hlt) in Hbx.
          - destruct Hcase as [->|[d' [=]]]. rewrite Hmin in Hlt; [done|right; eauto]. }
        intros m [[[->|Hm]%elem_of_cons Hs]|[d' Hbest]].
        -- apply Hold; auto.
        -- apply Hmin. by left.
        -- apply Hold; [by apply (Hb m d')|eauto].
    + destruct IH as [Hnone Hall]. unfold source_step in Hnone.
      destruct (is_source now templateID n) eqn:En.
      { destruct best as [[b0 d0]|]; [destruct (String.ltb _ _)|]; done. }
      split; [done|]. intros m [->|?]%elem_of_cons; [done|by apply Hall].
Qed.

(** The distribution source is the same in every iteration order: the healthy
    holder with a digest and a CAS endpoint whose name is smallest, with its own
    digest; there is none exactly when no node qualifies. *)
Theorem TemplateSource_exact (r : NodeRegistry) (now : Z) (order : list NodeInfo) (templateID : string) :
  wf r -> iterates r order ->
  match TemplateSource now order templateID with
  | Some (n, url, d) =>
      registered r n /\ is_source now templateID n = true /\ url = casBaseURL n /\
      TemplateDigests n !! templateID = Some d /\
      forall m, registered r m -> is_source now templateID m = true ->
        m = n \/ String.ltb (Name n) (Name m) = true
  | None => forall m, registered r m -> is_source now templateID m = false
  end.
Proof.
  intros Hwf Ho. rewrite TemplateSource_fold.
  pose proof (source_fold_spec now templateID order None) as Hs.
  destruct (fold_left _ order None) as [[n d]|].
  - destruct Hs as (Hn & Hd & Hin & Hmin); [done|].
    destruct Hin as [Hin|[? [=]]]. rewrite (iterates_elem r order n Hwf Ho) in Hin.
    split; [done|]. split; [done|]. split; [done|]. split.
    { subst d. unfold is_source in Hn. destruct (TemplateDigests n !! templateID); [done|].
      simpl in Hn. by rewrite andb_false_r in Hn. }
    intros m Hm Hsm. destruct (decide (Name m = Name n)) as [He|Hne].
    + left. unfold registered in *. congruence.
    + right. destruct (ltb_total _ _ Hne) as [Hlt|]; [|done].
      rewrite Hmin in Hlt; [done|]. left. by rewrite (iterates_elem r order m Hwf Ho).
  - destruct Hs as [_ Hall]; [done|]. intros m Hm. apply Hall. by rewrite (iterates_elem r order m Hwf Ho).
Qed.

(** ** Connections: what is open is held or closed *)

(** [node_creds]: the transport credentials [GetConnection] dials a node with. *)
Definition node_creds (r : NodeRegistry) (n : NodeInfo) : option tls_config :=
  match n_TLS n with Some t => Some t | None => r_TLS r end.

Definition holds (r : NodeRegistry) (c : conn) : Prop :=
  exists k n, nodes r !! k = Some n /\ n_conn n = Some c.

(** Open connections are dialed with their node's credentials to its endpoint,
    and belong to one node. *)
Record conn_inv (r : NodeRegistry) : Prop := {
  ci_wf : wf r;
  ci_dialed : forall k n c, nodes r !! k = Some n -> n_conn n = Some c ->
    c_creds c = node_creds r n /\ c_endpoint c = Endpoint n;
  ci_unique : forall k1 k2 n1 n2 c, nodes r !! k1 = Some n1 -> nodes r !! k2 = Some n2 ->
    n_conn n1 = Some c -> n_conn n2 = Some c -> k1 = k2 }.

(** The registry's operations as steps.  A node's TLS configuration [tls_of] is
    fixed by whoever registers it; the registry's own is set before any step.
    A dial returns a fresh connection made with the credentials it was given. *)
Inductive step (tls_of : string -> option tls_config) : NodeRegistry -> list conn -> NodeRegistry -> Prop :=
| step_register r info now :
    n_conn info = None -> n_TLS info = tls_of (Name info) ->
    step tls_of r (snd (Register r info now)) (fst (Register r info now))
| step_unregister r name : step tls_of r (snd (Unregister r name)) (fst (Unregister r name))
| step_memory r name total used : step tls_of r [] (SetNodeMemory r name total used)
| step_factor r f : step tls_of r [] (SetOvercommitFactor r f)
| step_template r name t d : step tls_of r [] (AddTemplateWithDigest r name t d)
| step_connect r name (dial : string -> option tls_config -> res unit conn) :
    (forall ep creds c, dial ep creds = Ok c -> c_creds c = creds /\ c_endpoint c = ep /\ ~ holds r c) ->
    step tls_of r [] (fst (GetConnection dial r name))
| step_prune r now maxAge order :
    order ≡ₚ map_to_list (nodes r) ->
    step tls_of r (snd (fst (PruneStale r now maxAge order))) (fst (fst (PruneStale r now maxAge order))).

(** The nodes of a name keep its TLS configuration. *)
Definition tls_inv (tls_of : string -> option tls_config) (r : NodeRegistry) : Prop :=
  forall k n, nodes r !! k = Some n -> n_TLS n = tls_of k.

Definition stale (now maxAge : Z) (n : NodeInfo) : bool := maxAge <=? since now (LastHeartbeat n).

Lemma PruneStale_fold now maxAge order : forall r closed pruned,
  fold_left (fun '(r, closed, pruned) '(name, node) =>
    if maxAge <=? since now (LastHeartbeat node)
    then (set_nodes r (delete name (nodes r)), closed ++ option_list (n_conn node), pruned + 1)
    else (r, closed, pruned)) order (r, closed, pruned)
  = (set_nodes r (foldr delete (nodes r)
       (reverse (List.filter (fun kn => stale now maxAge (snd kn)) order).*1)),
     closed ++ (List.filter (fun kn => stale now maxAge (snd kn)) order ≫= fun kn => option_list (n_conn (snd kn))),
     pruned + Z.of_nat (length (List.filter (fun kn => stale now maxAge (snd kn)) order))).
Proof.
  induction order as [|[k n] order IH]; intros r closed pruned; simpl.
  - rewrite app_nil_r, Z.add_0_r. by destruct r.
  - change (maxAge <=? since now (LastHeartbeat n)) with (stale now maxAge n).
    destruct (stale now maxAge n); rewrite IH; [|done]. simpl. rewrite reverse_cons, foldr_app. simpl. rewrite <- app_assoc. f_equal. lia.
Qed.

Lemma foldr_delete_lookup {A} (ks : list string) (m : gmap string A) k x :
  foldr delete m ks !! k = Some x <-> m !! k = Some x /\ k ∉ ks.
Proof.
  induction ks as [|k' ks IH]; simpl; [split; [split; [done|apply not_elem_of_nil]|tauto]|].
  rewrite lookup_delete_Some, IH, elem_of_cons. intuition congruence.
Qed.

Lemma foldr_delete_size {A} (ks : list string) (m : gmap string A) :
  NoDup ks -> (forall k, k ∈ ks -> is_Some (m !! k)) ->
  size m = (size (foldr delete m (reverse ks)) + length ks)%nat.
Proof.
  revert m. induction ks as [|k ks IH]; intros m Hnd Hin; simpl; [unfold reverse; simpl; lia|].
  apply list.NoDup_cons in Hnd as [Hk Hnd]. rewrite reverse_cons, foldr_app. simpl.
  destruct (Hin k) as [x Hx]; [by left|].
  rewrite <- Nat.add_succ_comm, Nat.add_succ_l, <- (IH (delete k m) Hnd).
  - rewrite map_size_delete_Some by eauto. assert (size m <> 0%nat); [|lia].
    intros He. apply map_size_empty_inv in He. by rewrite He, lookup_empty in Hx.
  - intros k' Hk'. rewrite lookup_delete_ne by (intros ->; done). apply Hin. by right.
Qed.

Lemma prune_facts (r : NodeRegistry) (now maxAge : Z) (order : list (string * NodeInfo)) :
  order ≡ₚ map_to_list (nodes r) ->
  let '(r', closed, pruned) := PruneStale r now maxAge order in
  (forall k n, nodes r' !! k = Some n <-> nodes r !! k = Some n /\ stale now maxAge n = false) /\
  (forall c, c ∈ closed <-> exists k n, nodes r !! k = Some n /\ stale now maxAge n = true /\ n_conn n = Some c) /\
  pruned + Z.of_nat (size (nodes r')) = Z.of_nat (size (nodes r)) /\
  r_TLS r' = r_TLS r.
Proof.
  intros Ho. unfold PruneStale. rewrite PruneStale_fold.
  set (out := List.filter (fun kn => stale now maxAge (snd kn)) order).
  assert (forall k n, (k, n) ∈ out <-> nodes r !! k = Some n /\ stale now maxAge n = true) as Hout.
  { intros k n. subst out. rewrite elem_of_filter_bool, Ho, elem_of_map_to_list. simpl. tauto. }
  assert (forall k n, nodes r !! k = Some n -> k ∈ out.*1 <-> stale now maxAge n = true) as Hkey.
  { intros k n Hk. rewrite list_elem_of_fmap. split.
    - intros ([k' n'] & -> & [Hk' ?]%Hout). simpl in Hk. congruence.
    - intros Hs. exists (k, n). split; [done|]. by apply Hout. }
  simpl. split; [|split; [|split; [|done]]].
  - intros k n. rewrite foldr_delete_lookup, elem_of_reverse. split.
    + intros [Hk Hn]. split; [done|]. apply not_true_iff_false. by rewrite <- (Hkey k n).
    + intros [Hk Hs]. split; [done|]. rewrite (Hkey k n) by done. congruence.
  - intros c. rewrite list_elem_of_bind. split.
    + intros ([k n] & Hc & [Hk Hs]%Hout). exists k, n. simpl in Hc.
      destruct (n_conn n); [|by apply not_elem_of_nil in Hc]. by apply list_elem_of_singleton in Hc as ->.
    + intros (k & n & Hk & Hs & Hc). exists (k, n). rewrite Hout. simpl. rewrite Hc. split; [by left|done].
  - assert (NoDup out.*1) as Hnd.
    { apply NoDup_map_filter. rewrite Ho. apply NoDup_fst_map_to_list. }
    rewrite (foldr_delete_size out.*1 (nodes r) Hnd).
    + rewrite length_fmap. lia.
    + intros k (kn & -> & Hkn)%list_elem_of_fmap. destruct kn as [k n]. apply Hout in Hkn as [Hk _].
      by exists n.
Qed.

(** Pruning removes exactly the nodes whose heartbeat is at least [maxAge] old,
    in any iteration order, returns their number, and closes exactly the
    connections they held. *)
Theorem PruneStale_exact (r : NodeRegistry) (now maxAge : Z) (order : list (string * NodeInfo)) :
  order ≡ₚ map_to_list (nodes r) ->
  let '(r', closed, pruned) := PruneStale r now maxAge order in
  (forall k n, nodes r' !! k = Some n <-> nodes r !! k = Some n /\ stale now maxAge n = false) /\
  (forall c, c ∈ closed <-> exists k n, nodes r !! k = Some n /\ stale now maxAge n = true /\ n_conn n = Some c) /\
  pruned + Z.of_nat (size (nodes r')) = Z.of_nat (size (nodes r)).
Proof.
  intros Ho. pose proof (prune_facts r now maxAge order Ho) as Hp.
  destruct (PruneStale r now maxAge order) as [[r' closed] pruned]. tauto.
Qed.

(** What a step may do to an open connection: keep it, or close and drop it. *)
Definition accounted (r : NodeRegistry) (closed : list conn) (r' : NodeRegistry) : Prop :=
  forall c, holds r c -> (holds r' c /\ c ∉ closed) \/ (c ∈ closed /\ ~ holds r' c).

Definition good (tls_of : string -> option tls_config) (r : NodeRegistry) : Prop :=
  conn_inv r /\ tls_inv tls_of r.

(** Steps that only touch other fields of one node. *)
Lemma good_update tls_of r k0 n0 n1 f :
  good tls_of r -> nodes r !! k0 = Some n0 ->
  Name n1 = Name n0 -> Endpoint n1 = Endpoint n0 -> n_TLS n1 = n_TLS n0 -> n_conn n1 = n_conn n0 ->
  let r' := mkRegistry (<[k0 := n1]> (nodes r)) (r_TLS r) f in
  good tls_of r' /\ accounted r [] r'.
Proof.
  intros [[Hwf Hd Hu] Ht] Hk0 HN HE HT HC r'.
  assert (forall k n', nodes r' !! k = Some n' -> exists n, nodes r !! k = Some n /\
    Name n' = Name n /\ Endpoint n' = Endpoint n /\ n_TLS n' = n_TLS n /\ n_conn n' = n_conn n) as Hback.
  { intros k n'. simpl. rewrite lookup_insert_Some. intros [[<- <-]|[_ Hk]]; [by exists n0|by exists n']. }
  split; [split; [split|]|].
  - intros k n' Hk. destruct (Hback _ _ Hk) as (n & Hn & HN' & _). rewrite HN'. by apply Hwf.
  - intros k n' c Hk Hc. destruct (Hback _ _ Hk) as (n & Hn & _ & HE' & HT' & HC').
    rewrite HC' in Hc. destruct (Hd k n c Hn Hc) as [Hcr Hep]. unfold node_creds in *.
    rewrite HT', HE'. done.
  - intros k1 k2 n1' n2' c H1 H2 Hc1 Hc2.
    destruct (Hback _ _ H1) as (m1 & Hm1 & _ & _ & _ & E1), (Hback _ _ H2) as (m2 & Hm2 & _ & _ & _ & E2).
    apply (Hu k1 k2 m1 m2 c); congruence.
  - intros k n' Hk. destruct (Hback _ _ Hk) as (n & Hn & _ & _ & HT' & _). rewrite HT'. by apply Ht.
  - intros c (k & n & Hk & Hc). left. split; [|apply not_elem_of_nil].
    destruct (decide (k = k0)) as [->|Hne].
    + exists k0, n1. simpl. rewrite lookup_insert_eq. split; [done|]. congruence.
    + exists k, n. simpl. by rewrite lookup_insert_ne.
Qed.

(** Steps that remove nodes and close exactly their connections. *)
Lemma good_remove tls_of r r' closed :
  good tls_of r -> r_TLS r' = r_TLS r ->
  (forall k n, nodes r' !! k = Some n -> nodes r !! k = Some n) ->
  (forall c, c ∈ closed <-> exists k n, nodes r !! k = Some n /\ nodes r' !! k = None /\ n_conn n = Some c) ->
  good tls_of r' /\ accounted r closed r'.
Proof.
  intros [[Hwf Hd Hu] Ht] HT Hsub Hcl. split; [split; [split|]|].
  - intros k n Hk. by apply Hwf, Hsub.
  - intros k n c Hk Hc. unfold node_creds. rewrite HT. by apply (Hd k n c); [apply Hsub|].
  - intros k1 k2 n1 n2 c H1%Hsub H2%Hsub. exact (Hu k1 k2 n1 n2 c H1 H2).
  - intros k n Hk. by apply Ht, Hsub.
  - intros c (k & n & Hk & Hc). destruct (nodes r' !! k) as [n'|] eqn:Hk'.
    + pose proof (Hsub _ _ Hk') as Hk2. left. split; [exists k, n'; split; [done|congruence]|].
      intros (k2 & n2 & Hk2' & Hnone & Hc2)%Hcl.
      rewrite <- (Hu k k2 n n2 c Hk Hk2' Hc Hc2) in Hnone. congruence.
    + right. split; [apply Hcl; by exists k, n|].
      intros (k2 & n2 & Hk2 & Hc2). apply Hsub in Hk2 as Hk2'.
      rewrite <- (Hu k k2 n n2 c Hk Hk2' Hc Hc2) in Hk2. congruence.
Qed.

Lemma good_Register tls_of r info now :
  good tls_of r -> n_conn info = None -> n_TLS info = tls_of (Name info) ->
  good tls_of (fst (Register r info now)) /\ accounted r (snd (Register r info now)) (fst (Register r info now)).
Proof.
  intros [[Hwf Hd Hu] Ht] Hnc Htls. unfold Register.
  set (c0 := match nodes r !! Name info with Some old => n_conn old | None => None end).
  set (keep := match nodes r !! Name info with
               | Some old => String.eqb (Endpoint old) (Endpoint info) | None => false end).
  assert (exists info' closed, (match nodes r !! Name info with
    | Some old => match n_conn old with
        | Some c => if String.eqb (Endpoint old) (Endpoint info) && bool_decide (n_conn info = None)
                    then (set_conn info (Some c), []) else (info, [c])
        | None => (info, []) end
    | None => (info, []) end) = (info', closed) /\
    Name info' = Name info /\ Endpoint info' = Endpoint info /\ n_TLS info' = n_TLS info /\
    ((closed = [] /\ n_conn info' = c0 /\ (c0 <> None -> keep = true)) \/
     (n_conn info' = None /\ closed = option_list c0)))
    as (info' & closed & -> & HN & HE & HT & Hcase).
  { subst c0 keep. destruct (nodes r !! Name info) as [old|]; [|by exists info, []; auto 10].
    destruct (n_conn old) as [c|]; [|by exists info, []; auto 10].
    rewrite (bool_decide_true (n_conn info = None)) by done. rewrite andb_true_r.
    destruct (String.eqb (Endpoint old) (Endpoint info)); do 2 eexists; (split; [done|]); auto 10. }
  simpl. rewrite HN. set (info'' := set_heartbeat info' (Some now)).
  assert (forall c, n_conn info'' = Some c -> exists old, nodes r !! Name info = Some old /\
     n_conn old = Some c /\ Endpoint old = Endpoint info) as Hkept.
  { intros c. simpl. destruct Hcase as [(_ & -> & Hk)|[-> _]]; [|done]. subst c0 keep.
    destruct (nodes r !! Name info) as [old|]; [|done]. intros Hc. exists old. split; [done|].
    split; [done|]. apply String.eqb_eq, Hk. congruence. }
  split; [split; [split|]|].
  - intros k n. simpl. rewrite lookup_insert_Some. intros [[<- <-]|[_ Hk]]; [done|by apply Hwf].
  - intros k n c. simpl. rewrite lookup_insert_Some. intros [[<- <-]|[_ Hk]] Hc; [|by apply (Hd k)].
    destruct (Hkept c Hc) as (old & Hold & Hco & Hep). destruct (Hd _ _ _ Hold Hco) as [Hcr Hce].
    unfold node_creds in *. simpl. rewrite HT, HE, Htls. rewrite (Ht _ _ Hold) in Hcr. split; [done|congruence].
  - intros k1 k2 n1 n2 c. simpl. rewrite !lookup_insert_Some.
    intros [[<- <-]|[Hn1 Hk1]] [[<- <-]|[Hn2 Hk2]] Hc1 Hc2; [done| | |by eapply Hu].
    + destruct (Hkept c Hc1) as (old & Hold & Hco & _). by apply (Hu _ _ old n2 c).
    + destruct (Hkept c Hc2) as (old & Hold & Hco & _). by apply (Hu _ _ n1 old c).
  - intros k n. simpl. rewrite lookup_insert_Some. intros [[<- <-]|[_ Hk]]; [|by apply Ht].
    simpl. by rewrite HT.
  - intros c (k & n & Hk & Hc). destruct (decide (k = Name info)) as [->|Hne].
    + assert (c0 = Some c) as Hc0 by (subst c0; by rewrite Hk).
      destruct Hcase as [(-> & Hci & _)|[Hci ->]]; rewrite Hc0 in *.
      * left. split; [|apply not_elem_of_nil]. exists (Name info), info''. simpl. by rewrite lookup_insert_eq.
      * right. split; [by left|]. intros (k2 & n2 & Hk2 & Hc2). simpl in Hk2.
        apply lookup_insert_Some in Hk2 as [[<- <-]|[Hne Hk2]]; [simpl in Hc2; congruence|].
        apply Hne. exact (Hu _ _ _ _ _ Hk Hk2 Hc Hc2).
    + left. split; [exists k, n; simpl; by rewrite lookup_insert_ne|].
      destruct Hcase as [(-> & _)|[_ ->]]; [apply not_elem_of_nil|].
      subst c0. destruct (nodes r !! Name info) as [old|] eqn:Ho; [|apply not_elem_of_nil].
      destruct (n_conn old) as [c'|] eqn:Hco; [|apply not_elem_of_nil].
      intros ->%list_elem_of_singleton. apply Hne. exact (Hu _ _ _ _ _ Hk Ho Hc Hco).
Qed.

Lemma good_GetConnection tls_of r name (dial : string -> option tls_config -> res unit conn) :
  good tls_of r ->
  (forall ep creds c, dial ep creds = Ok c -> c_creds c = creds /\ c_endpoint c = ep /\ ~ holds r c) ->
  good tls_of (fst (GetConnection dial r name)) /\ accounted r [] (fst (GetConnection dial r name)).
Proof.
  intros [[Hwf Hd Hu] Ht] Hdial. unfold GetConnection.
  assert (good tls_of r /\ accounted r [] r) as Hsame by (split; [by split|]; intros c Hc; left; split; [done|apply not_elem_of_nil]).
  destruct (nodes r !! name) as [n0|] eqn:E; [|done].
  destruct (n_conn n0) as [c|] eqn:Ec; [done|]. cbv zeta. fold (node_creds r n0).
  destruct (dial (Endpoint n0) (node_creds r n0)) as [c|] eqn:Ed; [|done].
  destruct (Hdial _ _ _ Ed) as (Hcr & Hce & Hnew). simpl. split; [split; [split|]|].
  - intros k n. simpl. rewrite lookup_insert_Some. intros [[<- <-]|[_ Hk]]; [exact (Hwf _ _ E)|exact (Hwf _ _ Hk)].
  - intros k n c'. simpl. rewrite lookup_insert_Some. intros [[<- <-]|[_ Hk]] Hc; [|by apply (Hd k)].
    simpl in Hc. injection Hc as <-. done.
  - intros k1 k2 n1 n2 c'. simpl. rewrite !lookup_insert_Some.
    intros [[<- <-]|[Hn1 Hk1]] [[<- <-]|[Hn2 Hk2]] Hc1 Hc2; [done| | |exact (Hu _ _ _ _ _ Hk1 Hk2 Hc1 Hc2)].
    + injection Hc1 as <-. exfalso. apply Hnew. by exists k2, n2.
    + injection Hc2 as <-. exfalso. apply Hnew. by exists k1, n1.
  - intros k n. simpl. rewrite lookup_insert_Some. intros [[<- <-]|[_ Hk]]; [exact (Ht _ _ E)|exact (Ht _ _ Hk)].
  - intros c' (k & n & Hk & Hc). left. split; [|apply not_elem_of_nil].
    exists k, n. split; [|done]. simpl. rewrite lookup_insert_ne; [done|]. intros <-. congruence.
Qed.

Lemma accounted_refl r : accounted r [] r.
Proof. intros c Hc. left. split; [done|apply not_elem_of_nil]. Qed.

Lemma step_good tls_of r closed r' :
  good tls_of r -> step tls_of r closed r' -> good tls_of r' /\ accounted r closed r'.
Proof.
  intros Hg Hs. revert Hg.
  destruct Hs as [r info now H1 H2|r name|r name total used|r f|r name t d|r name dial H|r now maxAge order H];
    intros Hg.
  - by apply good_Register.
  - unfold Unregister. destruct (nodes r !! name) as [n|] eqn:E; simpl; [|by split; [|apply accounted_refl]].
    apply good_remove; [done|done| |].
    + intros k m. simpl. rewrite lookup_delete_Some. tauto.
    + intros c. simpl. split.
      * intros Hc. exists name, n. rewrite lookup_delete_eq. split; [done|]. split; [done|].
        destruct (n_conn n); [|by apply not_elem_of_nil in Hc]. by apply list_elem_of_singleton in Hc as ->.
      * intros (k & m & Hk & Hnone & Hc). destruct (decide (k = name)) as [->|Hne].
        -- rewrite E in Hk. injection Hk as ->. rewrite Hc. by left.
        -- rewrite lookup_delete_ne in Hnone by done. congruence.
  - unfold SetNodeMemory. destruct (nodes r !! name) as [n|] eqn:E; [|by split; [|apply accounted_refl]].
    by eapply good_update.
  - unfold SetOvercommitFactor. destruct (SFleb _ _); [by split; [|apply accounted_refl]|].
    destruct Hg as [[Hwf Hd Hu] Ht].
    split; [split; [split|]|]; try done.
    intros c Hc. left. split; [exact Hc|apply not_elem_of_nil].
  - unfold AddTemplateWithDigest. destruct (nodes r !! name) as [n|] eqn:E; [|by split; [|apply accounted_refl]].
    by eapply good_update.
  - by apply good_GetConnection.
  - pose proof (prune_facts r now maxAge order H) as Hp.
    destruct (PruneStale r now maxAge order) as [[r1 closed1] pruned1]. simpl.
    destruct Hp as (Hn & Hc & _ & HT). apply good_remove; [done|done| |].
    + intros k n Hk. by apply Hn in Hk as [? _].
    + intros c. rewrite Hc. split.
      * intros (k & n & Hk & Hs & Hcc). exists k, n. split; [done|]. split; [|done].
        destruct (nodes r1 !! k) as [m|] eqn:Hm; [|done]. apply Hn in Hm as [Hm Hs'].
        congruence.
      * intros (k & n & Hk & Hnone & Hcc). exists k, n. split; [done|]. split; [|done].
        apply not_false_iff_true. intros Hs. assert (nodes r1 !! k = Some n) by by apply Hn.
        congruence.
Qed.

(** Registries reachable from an empty one whose TLS is set at startup. *)
Definition startup (tls : option tls_config) : NodeRegistry := mkRegistry ∅ tls f64_one.

Inductive reachable (tls_of : string -> option tls_config) (tls : option tls_config) : NodeRegistry -> Prop :=
| reach_start : reachable tls_of tls (startup tls)
| reach_step r closed r' : reachable tls_of tls r -> step tls_of r closed r' -> reachable tls_of tls r'.

Lemma reachable_good tls_of tls r : reachable tls_of tls r -> good tls_of r.
Proof.
  induction 1 as [|r closed r' _ IH Hs]; [|by eapply step_good].
  split; [split|]; intros ?; simpl; intros; by rewrite lookup_empty in *.
Qed.

(** Connections are never leaked nor used after being closed: in every reachable
    registry, each step keeps an open connection reachable from its node, or
    closes it and no node holds it any more. *)
Theorem connections_accounted (tls_of : string -> option tls_config) (tls : option tls_config)
    (r r' : NodeRegistry) (closed : list conn) :
  reachable tls_of tls r -> step tls_of r closed r' -> accounted r closed r'.
Proof. intros Hr Hs. by eapply step_good; [by eapply reachable_good|]. Qed.

(** The gate for delivering the wrapped key is sound: in every reachable
    registry, when [NodeMTLS] allows a node, the connection [GetConnection]
    returns for it, dialed now or carried over from earlier registrations, was
    made with TLS credentials. *)
Theorem NodeMTLS_sound (tls_of : string -> option tls_config) (tls : option tls_config)
    (r r' : NodeRegistry) (name : string) (c : conn)
    (dial : string -> option tls_config -> res unit conn) :
  reachable tls_of tls r ->
  (forall ep creds c, dial ep creds = Ok c -> c_creds c = creds) ->
  NodeMTLS r name = true -> GetConnection dial r name = (r', Ok c) -> c_creds c <> None.
Proof.
  intros Hr%reachable_good Hdial Hm Hc. destruct Hr as [[_ Hd _] _].
  unfold NodeMTLS in Hm. unfold GetConnection in Hc.
  destruct (nodes r !! name) as [n|] eqn:E; [|done].
  assert (node_creds r n <> None) as Hcr.
  { unfold node_creds. destruct (n_TLS n); [done|]. destruct (r_TLS r); done. }
  destruct (n_conn n) as [c0|] eqn:Ec.
  - injection Hc as <- <-. by rewrite (proj1 (Hd _ _ _ E Ec)).
  - cbv zeta in Hc. fold (node_creds r n) in Hc.
    destruct (dial (Endpoint n) (node_creds r n)) as [c1|] eqn:Ed; [|done].
    injection Hc as _ <-. by rewrite (Hdial _ _ _ Ed).
Qed.

(** ** Concrete registries *)

Definition mib : Z := 1024 * 1024.
Definition ex_node (name : string) (total used : Z) (est : gmap string TemplateCapacity)
    (hb : Z) : NodeInfo :=
  mkNodeInfo name (name +:+ ":9090") (name +:+ ":9091") (name +:+ ":9092") 1 10 total used ["py"] []
    {["py" := "digest"]} est (Some hb) 0 None None.
Definition ex_est (forks : Z) : gmap string TemplateCapacity :=
  {["py" := mkTemplateCapacity "py" "digest" (512 * mib) (16 * mib) forks]}.
Definition ex_a : NodeInfo := ex_node "node-a" (1024 * mib) (900 * mib) (ex_est 3) 0.
Definition ex_b : NodeInfo := ex_node "node-b" (4096 * mib) 0 ∅ 0.
Definition ex_reg : NodeRegistry := mkRegistry {["node-a" := ex_a; "node-b" := ex_b]} None f64_one.
Definition ex_conv (_ : spec_float) : Z := min_i64.
Definition ex_order : list NodeInfo := (map_to_list (nodes ex_reg)).*2.

Lemma ex_reg_cases k n : nodes ex_reg !! k = Some n -> (k = "node-a" /\ n = ex_a) \/ (k = "node-b" /\ n = ex_b).
Proof.
  unfold ex_reg. cbn [nodes]. rewrite lookup_insert_Some, lookup_singleton_Some.
  intros [[<- <-]|[_ [<- <-]]]; auto.
Qed.
Lemma ex_reg_wf : wf ex_reg.
Proof. by intros k n [[-> ->]|[-> ->]]%ex_reg_cases. Qed.
Lemma ex_order_iterates : iterates ex_reg ex_order.
Proof. exact (Permutation_refl _). Qed.

(** The warm node packs first although the cold one has far more room. *)
Lemma ex_selected :
  SelectNode ex_conv ex_reg minute ex_order [] (fun _ => ex_order) "py" "" = Ok ex_a.
Proof. vm_compute. reflexivity. Qed.

Lemma SelectNode_correct_witness :
  wf ex_reg /\ iterates ex_reg ex_order /\
  (preferred_ok ex_conv ex_reg minute "py" "" [] ex_a \/
   ((forall p, ~ preferred_ok ex_conv ex_reg minute "py" "" [] p) /\
    candidate ex_conv ex_reg minute "py" (fun _ => ex_order) ex_a /\
    forall m, candidate ex_conv ex_reg minute "py" (fun _ => ex_order) m ->
      m = ex_a \/ packs_before ex_conv ex_reg "py" ex_a m)).
Proof.
  split; [exact ex_reg_wf|]. split; [exact ex_order_iterates|].
  pose proof (SelectNode_correct ex_conv ex_reg minute "py" "" ex_reg_wf ex_order []
    (fun _ => ex_order) ex_order_iterates) as H.
  rewrite ex_selected in H. exact H.
Defined.

Lemma ex_agree : estimates_agree ex_reg "py".
Proof.
  intros n1 n2 e1 e2 [[_ ->]|[_ ->]]%ex_reg_cases [[_ ->]|[_ ->]]%ex_reg_cases H1 H2;
    vm_compute in H1, H2; simplify_eq; done.
Qed.

Lemma SelectNode_deterministic_witness :
  estimates_agree ex_reg "py" /\
  SelectNode ex_conv ex_reg minute ex_order ex_order (fun _ => ex_order) "py" "node-b"
  = SelectNode ex_conv ex_reg minute (reverse ex_order) (reverse ex_order) (fun _ => reverse ex_order)
      "py" "node-b".
Proof.
  split; [exact ex_agree|].
  assert (iterates ex_reg (reverse ex_order)) as Hrev.
  { unfold iterates. by rewrite reverse_Permutation. }
  exact (SelectNode_deterministic ex_conv ex_reg minute "py" "node-b" ex_reg_wf ex_order (reverse ex_order)
    ex_order (reverse ex_order) (fun _ => ex_order) (fun _ => reverse ex_order) ex_agree ex_order_iterates
    Hrev ex_order_iterates Hrev (fun _ => ex_order_iterates) (fun _ => Hrev)).
Defined.

Lemma TemplateSource_exact_witness :
  wf ex_reg /\ iterates ex_reg ex_order /\
  TemplateSource minute ex_order "py" = Some (ex_a, "https://node-a:9092/cas", "digest") /\
  (forall m, registered ex_reg m -> is_source minute "py" m = true ->
     m = ex_a \/ String.ltb "node-a" (Name m) = true).
Proof.
  split; [exact ex_reg_wf|]. split; [exact ex_order_iterates|].
  assert (TemplateSource minute ex_order "py" = Some (ex_a, "https://node-a:9092/cas", "digest")) as Hs
    by (vm_compute; reflexivity).
  split; [exact Hs|].
  pose proof (TemplateSource_exact ex_reg minute ex_order "py" ex_reg_wf ex_order_iterates) as H.
  rewrite Hs in H. destruct H as (_ & _ & _ & _ & H). exact H.
Defined.

Lemma PruneStale_exact_witness :
  map_to_list (nodes ex_reg) ≡ₚ map_to_list (nodes ex_reg) /\
  let '(r', closed, pruned) := PruneStale ex_reg (3 * minute) (2 * minute) (map_to_list (nodes ex_reg)) in
  (forall c, c ∈ closed <-> exists k n, nodes ex_reg !! k = Some n /\
     stale (3 * minute) (2 * minute) n = true /\ n_conn n = Some c) /\
  pruned + Z.of_nat (size (nodes r')) = 2.
Proof.
  split; [done|].
  pose proof (PruneStale_exact ex_reg (3 * minute) (2 * minute) (map_to_list (nodes ex_reg))
    (Permutation_refl _)) as H.
  destruct (PruneStale ex_reg (3 * minute) (2 * minute) (map_to_list (nodes ex_reg))) as [[r' closed] pruned].
  destruct H as (_ & H1 & H2). split; [exact H1|exact H2].
Defined.

(** A registry whose node is registered, dialed over TLS and registered again. *)
Definition ex_tls_of (_ : string) : option tls_config := Some 1%positive.
Definition ex_info : NodeInfo :=
  mkNodeInfo "node-c" "10.0.0.3:9090" "" "" 0 0 0 0 [] [] ∅ ∅ None 0 (Some 1%positive) None.
Definition ex_dial (ep : string) (creds : option tls_config) : res unit conn := Ok (mkConn ep creds 7).
Definition ex_r1 : NodeRegistry := fst (Register (startup None) ex_info 0).
Definition ex_r2 : NodeRegistry := fst (GetConnection ex_dial ex_r1 "node-c").
Definition ex_r3 : NodeRegistry := fst (Register ex_r2 ex_info 15).
Definition ex_conn : conn := mkConn "10.0.0.3:9090" (Some 1%positive) 7.

Lemma ex_r1_holds_none c : ~ holds ex_r1 c.
Proof.
  intros (k & n & Hk & Hc). vm_compute in Hk.
  change (({["node-c" := set_heartbeat ex_info (Some 0)]} : gmap string NodeInfo) !! k = Some n) in Hk.
  apply lookup_singleton_Some in Hk as [_ <-]. done.
Qed.

Lemma ex_r2_reachable : reachable ex_tls_of None ex_r2.
Proof.
  eapply reach_step; [eapply reach_step; [apply reach_start|apply (step_register _ _ ex_info 0); done]|].
  apply (step_connect ex_tls_of ex_r1 "node-c" ex_dial).
  intros ep creds c [= <-]. split; [done|]. split; [done|]. apply ex_r1_holds_none.
Qed.

Lemma ex_r3_reachable : reachable ex_tls_of None ex_r3.
Proof. eapply reach_step; [exact ex_r2_reachable|]. by apply (step_register _ ex_r2 ex_info 15). Qed.

Lemma connections_accounted_witness :
  reachable ex_tls_of None ex_r3 /\
  accounted ex_r3 (snd (Unregister ex_r3 "node-c")) (fst (Unregister ex_r3 "node-c")).
Proof.
  split; [exact ex_r3_reachable|].
  exact (connections_accounted ex_tls_of None ex_r3 _ _ ex_r3_reachable (step_unregister _ ex_r3 "node-c")).
Defined.

Lemma NodeMTLS_sound_witness :
  reachable ex_tls_of None ex_r3 /\ NodeMTLS ex_r3 "node-c" = true /\
  GetConnection ex_dial ex_r3 "node-c" = (ex_r3, Ok ex_conn) /\ c_creds ex_conn <> None.
Proof.
  assert (NodeMTLS ex_r3 "node-c" = true) as Hm by (vm_compute; reflexivity).
  assert (GetConnection ex_dial ex_r3 "node-c" = (ex_r3, Ok ex_conn)) as Hc by (vm_compute; reflexivity).
  split; [exact ex_r3_reachable|]. split; [exact Hm|]. split; [exact Hc|].
  refine (NodeMTLS_sound ex_tls_of None ex_r3 ex_r3 "node-c" ex_conn ex_dial ex_r3_reachable _ Hm Hc).
  by intros ep creds c [= <-].
Defined.

(** ** Estimates of unhealthy nodes *)

(** [ex_new] holds no estimate of its own and its room lies between the default
    cost and the cost the estimate of [ex_dead] implies; [ex_dead] stopped
    heartbeating. *)
Definition ex_new : NodeInfo := ex_node "node-n" (200 * mib) 0 ∅ (10 * minute).
Definition ex_dead : NodeInfo :=
  ex_node "node-d" (1024 * mib) 0
    {["py" := mkTemplateCapacity "py" "digest" (64 * mib) (4 * mib) 1]} 0.
Definition ex_with_dead : NodeRegistry := mkRegistry {["node-n" := ex_new; "node-d" := ex_dead]} None f64_one.
Definition ex_without_dead : NodeRegistry := mkRegistry {["node-n" := ex_new]} None f64_one.

(** Placement falls back to the estimates of any registered node, unhealthy ones
    included: a node that cannot take the fork under the default cost is chosen
    because a node that stopped heartbeating still reports a smaller estimate. *)
Theorem unhealthy_estimate_decides :
  isHealthy (10 * minute) ex_dead = false /\
  SelectNode ex_conv ex_with_dead (10 * minute) [ex_new; ex_dead] [ex_new; ex_dead]
    (fun _ => [ex_new; ex_dead]) "py" "" = Ok ex_new /\
  SelectNode ex_conv ex_without_dead (10 * minute) [ex_new] [ex_new] (fun _ => [ex_new]) "py" ""
    = Err ErrNoCapacity.
Proof. vm_compute. done. Qed.

End Registry.

Module Discovery.
Import Registry.

(** The fields of a forkd pod discovery reads. *)
Record Pod := mkPod { pod_Phase : string; pod_IP : string; pod_NodeName : string }.
Definition PodRunning : string := "Running".

(** forkd's [GetCapacity] reply. *)
Record CapacityResponse := mkCapacity {
  cr_ActiveSandboxes : Z; cr_MaxSandboxes : Z; cr_MemoryTotalBytes : Z; cr_MemoryUsedBytes : Z;
  cr_TemplateIds : list string; cr_SnapshotIds : list string;
  cr_TemplateDigests : gmap string string; cr_Templates : list TemplateCapacity }.

Record ForkdDiscovery := mkDiscovery {
  d_GRPCPort : Z; d_HTTPPort : Z; d_CASPort : Z; d_TLS : option tls_config }.

(** The defaulting at the head of [Start]. *)
Definition with_defaults (d : ForkdDiscovery) : ForkdDiscovery :=
  mkDiscovery (if d_GRPCPort d =? 0 then 9090 else d_GRPCPort d)
    (if d_HTTPPort d =? 0 then 9091 else d_HTTPPort d)
    (if d_CASPort d =? 0 then 9092 else d_CASPort d) (d_TLS d).

Definition NodeInfoFromPod (pod : Pod) (grpcPort httpPort casPort : Z) : option NodeInfo :=
  if negb (String.eqb (pod_Phase pod) PodRunning) || String.eqb (pod_IP pod) ""
     || String.eqb (pod_NodeName pod) "" then None
  else Some (mkNodeInfo (pod_NodeName pod)
               (pod_IP pod +:+ ":" +:+ format_d grpcPort)
               (pod_IP pod +:+ ":" +:+ format_d httpPort)
               (pod_IP pod +:+ ":" +:+ format_d casPort)
               0 0 0 0 [] [] ∅ ∅ None 0 None None).

(** [probe] dials the endpoint and calls [GetCapacity]; [None] on any failure. *)
Definition refreshCapacity (probe : string -> option tls_config -> option CapacityResponse)
    (d : ForkdDiscovery) (info : NodeInfo) : NodeInfo * bool :=
  match probe (Endpoint info) (d_TLS d) with
  | None => (info, false)
  | Some resp =>
      let estimates := match cr_Templates resp with
        | [] => TemplateEstimates info
        | ts => fold_left (fun (m : gmap string TemplateCapacity) t => <[tc_TemplateID t := t]> m) ts ∅
        end in
      (mkNodeInfo (Name info) (Endpoint info) (HTTPEndpoint info) (CASEndpoint info)
         (cr_ActiveSandboxes resp) (cr_MaxSandboxes resp) (cr_MemoryTotalBytes resp)
         (cr_MemoryUsedBytes resp) (cr_TemplateIds resp) (cr_SnapshotIds resp)
         (cr_TemplateDigests resp) estimates (LastHeartbeat info) (probeFailures info)
         (n_TLS info) (n_conn info), true)
  end.

Definition set_tls (n : NodeInfo) (t : option tls_config) : NodeInfo :=
  mkNodeInfo (Name n) (Endpoint n) (HTTPEndpoint n) (CASEndpoint n) (ActiveSandboxes n)
    (MaxSandboxes n) (MemoryTotal n) (MemoryUsed n) (TemplateIDs n) (SnapshotIDs n)
    (TemplateDigests n) (TemplateEstimates n) (LastHeartbeat n) (probeFailures n) t (n_conn n).
Definition set_failures (n : NodeInfo) (f : Z) : NodeInfo :=
  mkNodeInfo (Name n) (Endpoint n) (HTTPEndpoint n) (CASEndpoint n) (ActiveSandboxes n)
    (MaxSandboxes n) (MemoryTotal n) (MemoryUsed n) (TemplateIDs n) (SnapshotIDs n)
    (TemplateDigests n) (TemplateEstimates n) (LastHeartbeat n) f (n_TLS n) (n_conn n).

(** The body of the [syncPods] loop for one pod; [now] is the clock its
    registration reads. *)
Definition sync_pod (probe : string -> option tls_config -> option CapacityResponse)
    (d : ForkdDiscovery) (r : NodeRegistry) (now : Z) (pod : Pod) : NodeRegistry * list conn :=
  match NodeInfoFromPod pod (d_GRPCPort d) (d_HTTPPort d) (d_CASPort d) with
  | None => (r, [])
  | Some info =>
      let info := set_tls info (d_TLS d) in
      let '(info, probeOK) := refreshCapacity probe d info in
      let info := if probeOK then set_failures info 0
                  else set_failures info (priorProbeFailures r (Name info) + 1) in
      Register r info now
  end.

Fixpoint syncPods (probe : string -> option tls_config -> option CapacityResponse)
    (d : ForkdDiscovery) (r : NodeRegistry) (pods : list (Z * Pod)) : NodeRegistry * list conn :=
  match pods with
  | [] => (r, [])
  | (now, pod) :: rest =>
      let '(r', closed) := sync_pod probe d r now pod in
      let '(r'', closed') := syncPods probe d r' rest in
      (r'', closed ++ closed')
  end.

(** One round; [pods] is the labelled pods, [None] when the list call fails, and
    [order] the iteration order of the pruning pass. *)
Definition sync (probe : string -> option tls_config -> option CapacityResponse)
    (d : ForkdDiscovery) (r : NodeRegistry) (pods : option (list (Z * Pod))) (prune_at : Z)
    (order : NodeRegistry -> list (string * NodeInfo)) : NodeRegistry * list conn :=
  match pods with
  | None => (r, [])
  | Some pods =>
      let '(r, closed) := syncPods probe d r pods in
      let '(r', closed', _) := PruneStale r prune_at (2 * minute) (order r) in
      (r', closed ++ closed')
  end.

(** ** Liveness *)

Lemma Register_node r info now : exists c,
  nodes (fst (Register r info now))
  = <[Name info := set_heartbeat (set_conn info c) (Some now)]> (nodes r).
Proof.
  assert (set_conn info (n_conn info) = info) as Hsame by by destruct info.
  unfold Register. destruct (nodes r !! Name info) as [old|]; [|by exists (n_conn info); rewrite Hsame].
  destruct (n_conn old) as [c|]; [|by exists (n_conn info); rewrite Hsame].
  destruct (_ && _); [by exists (Some c)|by exists (n_conn info); rewrite Hsame].
Qed.

Lemma sync_pod_node probe d r now pod info :
  NodeInfoFromPod pod (d_GRPCPort d) (d_HTTPPort d) (d_CASPort d) = Some info ->
  exists n, nodes (fst (sync_pod probe d r now pod)) !! pod_NodeName pod = Some n /\
    LastHeartbeat n = Some now /\
    match probe (Endpoint info) (d_TLS d) with
    | Some resp => probeFailures n = 0 /\ MemoryTotal n = cr_MemoryTotalBytes resp /\
        MaxSandboxes n = cr_MaxSandboxes resp
    | None => probeFailures n = priorProbeFailures r (pod_NodeName pod) + 1 /\
        MemoryTotal n = 0 /\ MaxSandboxes n = 0
    end.
Proof.
  intros Hi. unfold sync_pod. rewrite Hi. unfold NodeInfoFromPod in Hi.
  destruct (_ || _); [done|]. injection Hi as <-. unfold refreshCapacity. simpl.
  destruct (probe _ _) as [resp|];
    match goal with |- context [Register r ?i now] => destruct (Register_node r i now) as [c ->] end;
    simpl; rewrite lookup_insert_eq; eexists; (split; [done|]); done.
Qed.

(** One node's discovery rounds: the clock and the outcome of each probe. *)
Definition rounds (d : ForkdDiscovery) (pod : Pod) (r : NodeRegistry)
    (rs : list (Z * option CapacityResponse)) : NodeRegistry :=
  fold_left (fun r '(now, resp) => fst (syncPods (fun _ _ => resp) d r [(now, pod)])) rs r.

(** The probes that failed since the last successful one. *)
Fixpoint trailing_failures (rs : list (Z * option CapacityResponse)) (before : Z) : Z :=
  match rs with
  | [] => before
  | (_, Some _) :: rest => trailing_failures rest 0
  | (_, None) :: rest => trailing_failures rest (before + 1)
  end.

Lemma rounds_app d pod r rs now resp :
  rounds d pod r (rs ++ [(now, resp)])
  = fst (syncPods (fun _ _ => resp) d (rounds d pod r rs) [(now, pod)]).
Proof. unfold rounds. by rewrite fold_left_app. Qed.

Lemma trailing_failures_app rs before now resp :
  trailing_failures (rs ++ [(now, resp)]) before
  = match resp with Some _ => 0 | None => trailing_failures rs before + 1 end.
Proof.
  revert before. induction rs as [|[t [x|]] rs IH]; intros before; simpl; [|apply IH|apply IH].
  by destruct resp.
Qed.

Lemma syncPods_one probe d r now pod :
  fst (syncPods probe d r [(now, pod)]) = fst (sync_pod probe d r now pod).
Proof. simpl. by destruct (sync_pod probe d r now pod). Qed.

Lemma rounds_failures d pod r rs :
  NodeInfoFromPod pod (d_GRPCPort d) (d_HTTPPort d) (d_CASPort d) <> None ->
  priorProbeFailures (rounds d pod r rs) (pod_NodeName pod)
  = trailing_failures rs (priorProbeFailures r (pod_NodeName pod)).
Proof.
  intros Hi. destruct (NodeInfoFromPod _ _ _ _) as [info|] eqn:Hinfo; [|done]. clear Hi.
  induction rs as [|[now resp] rs IH] using rev_ind; [done|].
  rewrite rounds_app, trailing_failures_app, syncPods_one.
  destruct (sync_pod_node (fun _ _ => resp) d (rounds d pod r rs) now pod info Hinfo) as (n & Hn & _ & Hp).
  unfold priorProbeFailures at 1. rewrite Hn. destruct resp; [by destruct Hp|].
  destruct Hp as [-> _]. by rewrite IH.
Qed.

(** The liveness threshold: right after a round, a node with a running pod is
    schedulable if and only if fewer than three probes in a row have failed, so
    one or two failed probes do not flap it out and the third does. *)
Theorem probe_threshold (d : ForkdDiscovery) (pod : Pod) (r : NodeRegistry)
    (rs : list (Z * option CapacityResponse)) (now : Z) (resp : option CapacityResponse) :
  NodeInfoFromPod pod (d_GRPCPort d) (d_HTTPPort d) (d_CASPort d) <> None ->
  NodeHealthy (rounds d pod r (rs ++ [(now, resp)])) now (pod_NodeName pod)
  = (trailing_failures (rs ++ [(now, resp)]) (priorProbeFailures r (pod_NodeName pod)) <? 3).
Proof.
  intros Hi. rewrite <- (rounds_failures d pod r _ Hi). unfold priorProbeFailures, NodeHealthy.
  destruct (NodeInfoFromPod _ _ _ _) as [info|] eqn:Hinfo; [|done].
  rewrite rounds_app, syncPods_one.
  destruct (sync_pod_node (fun _ _ => resp) d (rounds d pod r rs) now pod info Hinfo) as (n & Hn & Hh & _).
  rewrite Hn. unfold isHealthy, since, time_sub, probeFailureThreshold. rewrite Hh, Z.sub_diag.
  rewrite (Z.ltb_antisym 3). by destruct (3 <=? probeFailures n).
Qed.

(** A failed probe registers the node with an unknown budget and no sandbox
    ceiling, so until the third failure it is schedulable and admits every
    template whatever its real load: no placement can fail for lack of
    capacity. *)
Theorem failed_probe_unbounded (conv : SpecFloat.spec_float -> Z) (d : ForkdDiscovery) (pod : Pod)
    (r : NodeRegistry) (now : Z) (order : list NodeInfo) (templateID : string) :
  NodeInfoFromPod pod (d_GRPCPort d) (d_HTTPPort d) (d_CASPort d) <> None ->
  priorProbeFailures r (pod_NodeName pod) < 2 ->
  let r' := fst (syncPods (fun _ _ => None) d r [(now, pod)]) in
  exists n, nodes r' !! pod_NodeName pod = Some n /\
    isHealthy now n = true /\ admits conv r' order n templateID = true.
Proof.
  intros Hi Hprior r'. subst r'. rewrite syncPods_one.
  destruct (NodeInfoFromPod _ _ _ _) as [info|] eqn:Hinfo; [|done].
  destruct (sync_pod_node (fun _ _ => None) d r now pod info Hinfo) as (n & Hn & Hh & Hf & Hm & Hx).
  exists n. split; [done|]. split.
  - unfold isHealthy, since, time_sub, probeFailureThreshold. rewrite Hh, Hf, Z.sub_diag.
    destruct (Z.leb_spec 3 (priorProbeFailures r (pod_NodeName pod) + 1)); [lia|done].
  - unfold admits, atSandboxCeiling, available. by rewrite Hx, Hm.
Qed.

(** ** A node whose forkd stops answering *)

Definition ex_pod : Pod := mkPod "Running" "10.0.0.3" "node-c".
Definition ex_disc : ForkdDiscovery := with_defaults (mkDiscovery 0 0 0 None).
Definition ex_cap : CapacityResponse := mkCapacity 10 10 1024 1024 [] [] ∅ [].

Lemma probe_threshold_witness :
  NodeInfoFromPod ex_pod 9090 9091 9092 <> None /\
  NodeHealthy (rounds ex_disc ex_pod NewNodeRegistry ([(0, Some ex_cap); (15, None); (30, None)] ++ [(45, None)]))
    45 "node-c" = false.
Proof.
  split; [done|].
  exact (probe_threshold ex_disc ex_pod NewNodeRegistry [(0, Some ex_cap); (15, None); (30, None)] 45 None
    ltac:(done)).
Defined.

Lemma failed_probe_unbounded_witness :
  NodeInfoFromPod ex_pod 9090 9091 9092 <> None /\
  let r := rounds ex_disc ex_pod NewNodeRegistry [(0, Some ex_cap)] in
  priorProbeFailures r "node-c" < 2 /\
  let r' := fst (syncPods (fun _ _ => None) ex_disc r [(15, ex_pod)]) in
  exists n, nodes r' !! "node-c" = Some n /\ isHealthy 15 n = true /\
    admits ex_conv r' [] n "py" = true.
Proof.
  split; [done|]. split; [done|].
  exact (failed_probe_unbounded ex_conv ex_disc ex_pod (rounds ex_disc ex_pod NewNodeRegistry [(0, Some ex_cap)])
    15 [] "py" ltac:(done) ltac:(done)).
Defined.
End Discovery.
