(* ===== verification/Autoscale.v ===== *)
(** * Warm-pool autoscaling

    Models [src/internal/controller/warmpool_autoscale.go] and the [desiredWarm]
    step of [src/internal/controller/sandboxpool_controller.go]: the desired
    number of dormant husk pods, the scale-down cooldown, and the claim-arrival
    tracker that feeds it.  The tracker's methods hold its lock, so each is one
    atomic step. *)
From S2P Require Import Prelude GoLib.

Module Warm.

Record PoolAutoscaleSpec := mkAutoscale {
  MinWarm : Z; MaxWarm : Z; TargetSpare : Z; ScaleDownCooldownSeconds : Z }.

(** The fields of a SandboxPool the autoscaler reads. *)
Record SandboxPool := mkPool {
  pool_Namespace : string; pool_Name : string; Replicas : Z; pool_Autoscale : option PoolAutoscaleSpec }.

Definition defaultScaleDownCooldown : Z := 300 * second.

Definition computeDesiredWarm (pool : SandboxPool) (dormant inUse : Z) (lastClaim : time) (now : Z)
    : Z * bool :=
  match pool_Autoscale pool with
  | None => let desired := Replicas pool in (desired, desired <? dormant)
  | Some a =>
      let maxWarm := if MaxWarm a <? 0 then 0 else MaxWarm a in
      let effectiveMin := if maxWarm <? MinWarm a then maxWarm else MinWarm a in
      let target := i32 (inUse + TargetSpare a) in
      let target := if target <? effectiveMin then effectiveMin else target in
      let target := if maxWarm <? target then maxWarm else target in
      if dormant <=? target then (target, false)
      else
        let cooldown := if 0 <? ScaleDownCooldownSeconds a
                        then ScaleDownCooldownSeconds a * second else defaultScaleDownCooldown in
        match lastClaim with
        | None => (target, true)
        | Some last => if cooldown <=? time_sub now last then (target, true) else (dormant, false)
        end
  end.

(** ** The demand tracker *)

Record PoolDemand := mkDemand { last : gmap string Z }.
Definition NewPoolDemand : PoolDemand := mkDemand ∅.

Definition RecordArrival (d : PoolDemand) (key : string) (t : Z) : PoolDemand :=
  match last d !! key with
  | Some prev => if t <? prev then d else mkDemand (<[key := t]> (last d))
  | None => mkDemand (<[key := t]> (last d))
  end.

Definition LastArrival (d : PoolDemand) (key : string) : option Z := last d !! key.
Definition Forget (d : PoolDemand) (key : string) : PoolDemand := mkDemand (delete key (last d)).

Definition poolKey (pool : SandboxPool) : string :=
  pool_Namespace pool +:+ "/" +:+ pool_Name pool.

(** [demand] is [None] when the reconciler has no tracker. *)
Definition desiredWarm (demand : option PoolDemand) (pool : SandboxPool) (dormant inUse now : Z) : Z :=
  let lastClaim := match demand with
                   | Some d => LastArrival d (poolKey pool)
                   | None => None
                   end in
  fst (computeDesiredWarm pool dormant inUse lastClaim now).

(** ** The target *)

(** The documented target: [clamp(inUse + targetSpare, min(minWarm, maxWarm), maxWarm)]. *)
Definition warm_target (a : PoolAutoscaleSpec) (inUse : Z) : Z :=
  let maxWarm := Z.max 0 (MaxWarm a) in
  Z.min (Z.max (inUse + TargetSpare a) (Z.min (MinWarm a) maxWarm)) maxWarm.

Definition cooldown (a : PoolAutoscaleSpec) : Z :=
  if 0 <? ScaleDownCooldownSeconds a then ScaleDownCooldownSeconds a * second
  else defaultScaleDownCooldown.

Definition cooling (a : PoolAutoscaleSpec) (lastClaim : time) (now : Z) : bool :=
  match lastClaim with Some t => time_sub now t <? cooldown a | None => false end.

Lemma computeDesiredWarm_target pool a dormant inUse lastClaim now :
  pool_Autoscale pool = Some a -> is_i32 (inUse + TargetSpare a) ->
  computeDesiredWarm pool dormant inUse lastClaim now
  = if dormant <=? warm_target a inUse then (warm_target a inUse, false)
    else if cooling a lastClaim now then (dormant, false) else (warm_target a inUse, true).
Proof.
  intros Ha Hi. unfold computeDesiredWarm, warm_target, cooling, cooldown. rewrite Ha, i32_small by done.
  cbv zeta.
  assert ((if MaxWarm a <? 0 then 0 else MaxWarm a) = Z.max 0 (MaxWarm a)) as ->
    by (destruct (Z.ltb_spec (MaxWarm a) 0); lia).
  set (mx := Z.max 0 (MaxWarm a)).
  assert ((if mx <? MinWarm a then mx else MinWarm a) = Z.min (MinWarm a) mx) as ->
    by (destruct (Z.ltb_spec mx (MinWarm a)); lia).
  set (mn := Z.min (MinWarm a) mx). set (t := inUse + TargetSpare a).
  assert ((if t <? mn then mn else t) = Z.max t mn) as -> by (destruct (Z.ltb_spec t mn); lia).
  assert ((if mx <? Z.max t mn then mx else Z.max t mn) = Z.min (Z.max t mn) mx) as ->
    by (destruct (Z.ltb_spec mx (Z.max t mn)); lia).
  destruct (dormant <=? _); [done|]. destruct lastClaim as [l|]; [|done].
  rewrite Z.leb_antisym. by destruct (_ <? _).
Qed.

(** The autoscaler follows its target with hysteresis, as long as the demand sum
    fits an int32.  A pool at or below the target is raised to it at once; a
    pool above it is lowered to it exactly when no claim arrived within the
    cooldown, and otherwise held; the applied count is never below the target
    and never above both the ceiling and the current count; the scale-down flag
    is raised exactly when the count is lowered. *)
Theorem computeDesiredWarm_hysteresis (pool : SandboxPool) (a : PoolAutoscaleSpec)
    (dormant inUse : Z) (lastClaim : time) (now : Z) :
  pool_Autoscale pool = Some a -> is_i32 (inUse + TargetSpare a) ->
  let '(desired, down) := computeDesiredWarm pool dormant inUse lastClaim now in
  (dormant <= warm_target a inUse -> desired = warm_target a inUse) /\
  (warm_target a inUse < dormant -> cooling a lastClaim now = false -> desired = warm_target a inUse) /\
  (warm_target a inUse < dormant -> cooling a lastClaim now = true -> desired = dormant) /\
  warm_target a inUse <= desired <= Z.max (Z.max 0 (MaxWarm a)) dormant /\
  (down = true <-> desired < dormant).
Proof.
  intros Ha Hi. rewrite (computeDesiredWarm_target _ _ _ _ _ _ Ha Hi).
  assert (warm_target a inUse <= Z.max 0 (MaxWarm a)) by (unfold warm_target; lia).
  destruct (Z.leb_spec dormant (warm_target a inUse)); [|destruct (cooling a lastClaim now)];
    repeat split; intros; try done; try lia; try congruence.
Qed.

(** A sum of in-use pods and target spare beyond the int32 range wraps to a
    negative number, and the pool is driven to its floor instead of its ceiling. *)
Theorem target_overflow_drops_to_floor :
  computeDesiredWarm (mkPool "default" "py" 0 (Some (mkAutoscale 0 100 2147483647 300))) 100 5 None 0
  = (0, true).
Proof. vm_compute. reflexivity. Qed.

(** ** Restart *)

(** After a controller restart the tracker is empty, and an empty tracker lowers
    the pool at the first reconcile: the cooldown does not protect it. *)
Theorem restart_scales_down (pool : SandboxPool) (a : PoolAutoscaleSpec) (dormant inUse now : Z) :
  pool_Autoscale pool = Some a -> is_i32 (inUse + TargetSpare a) -> warm_target a inUse < dormant ->
  desiredWarm (Some NewPoolDemand) pool dormant inUse now = warm_target a inUse.
Proof.
  intros Ha Hi Ht. unfold desiredWarm, LastArrival. simpl. rewrite lookup_empty.
  rewrite (computeDesiredWarm_target _ _ _ _ _ _ Ha Hi).
  destruct (Z.leb_spec dormant (warm_target a inUse)); [lia|done].
Qed.

(** ** Arrivals *)

Definition record_all (d : PoolDemand) (arrivals : list (string * Z)) : PoolDemand :=
  fold_left (fun d '(key, t) => RecordArrival d key t) arrivals d.

Definition opt_max (x : option Z) (t : Z) : option Z :=
  Some (match x with Some y => Z.max y t | None => t end).

Lemma RecordArrival_lookup d key t k :
  LastArrival (RecordArrival d key t) k
  = if decide (k = key) then opt_max (LastArrival d key) t else LastArrival d k.
Proof.
  unfold RecordArrival, LastArrival, opt_max. destruct (last d !! key) as [p|] eqn:E.
  - destruct (Z.ltb_spec t p); case_decide; subst; simpl; rewrite ?lookup_insert_eq, ?E;
      try (f_equal; lia); try done. by rewrite lookup_insert_ne.
  - case_decide; subst; simpl; [by rewrite lookup_insert_eq|by rewrite lookup_insert_ne].
Qed.

(** The arrival a pool's cooldown is measured from is the latest one recorded
    for that pool, in whatever order concurrent reconciles record them. *)
Theorem LastArrival_latest (d : PoolDemand) (arrivals : list (string * Z)) (key : string) :
  LastArrival (record_all d arrivals) key
  = fold_left opt_max (map snd (List.filter (fun a => String.eqb key (fst a)) arrivals)) (LastArrival d key).
Proof.
  revert d. induction arrivals as [|[k t] rest IH]; intros d; simpl; [done|].
  rewrite IH, RecordArrival_lookup.
  destruct (String.eqb_spec key k) as [->|Hne]; simpl; [by rewrite decide_True|by rewrite decide_False].
Qed.

(** ** A pool under load *)

Definition ex_spec : PoolAutoscaleSpec := mkAutoscale 1 8 2 60.
Definition ex_pool : SandboxPool := mkPool "default" "py" 3 (Some ex_spec).

Lemma computeDesiredWarm_hysteresis_witness :
  is_i32 (1 + TargetSpare ex_spec) /\
  computeDesiredWarm ex_pool 6 1 (Some (100 * second)) (130 * second) = (6, false) /\
  (warm_target ex_spec 1 < 6 -> cooling ex_spec (Some (100 * second)) (130 * second) = true -> 6 = 6).
Proof.
  assert (is_i32 (1 + TargetSpare ex_spec)) as Hi by (unfold is_i32; simpl; lia).
  split; [exact Hi|]. split; [vm_compute; reflexivity|].
  exact (proj1 (proj2 (proj2 (computeDesiredWarm_hysteresis ex_pool ex_spec 6 1 (Some (100 * second))
    (130 * second) eq_refl Hi)))).
Defined.

Lemma restart_scales_down_witness :
  warm_target ex_spec 1 < 6 /\ desiredWarm (Some NewPoolDemand) ex_pool 6 1 (130 * second) = 3.
Proof.
  assert (is_i32 (1 + TargetSpare ex_spec)) as Hi by (unfold is_i32; simpl; lia).
  split; [done|]. exact (restart_scales_down ex_pool ex_spec 6 1 (130 * second) eq_refl Hi ltac:(done)).
Defined.
End Warm.
