(* ===== verification/Gc.v ===== *)
(** * The controller's garbage collector

    Models [src/internal/controller/gc.go] (one pass: node-loss marking, the
    orphan sweep, and the TTL of finished claims), [terminateOnNode] of
    [src/internal/controller/finalizer.go] and [setCondition] of
    [src/internal/controller/sandboxpool_controller.go].  The API server and
    forkd are reached through arguments; what a pass asks of them is recorded as
    a trace of actions.  The claims slice is one shared slice that marking
    mutates and the TTL step reads, as in the code. *)
From Stdlib Require Import SpecFloat.
From S2P Require Import Prelude GoLib Scheduler.

Module Gc.
Import Registry.

(** ** Objects *)

Definition SandboxPending : string := "Pending".
Definition SandboxRestoring : string := "Restoring".
Definition SandboxReady : string := "Ready".
Definition SandboxTerminating : string := "Terminating".
Definition SandboxTerminated : string := "Terminated".
Definition SandboxFailed : string := "Failed".

Record Condition := mkCondition {
  cond_Type : string; cond_Status : string; cond_ObservedGeneration : Z;
  cond_LastTransitionTime : time; cond_Reason : string; cond_Message : string }.

(** The fields of a SandboxClaim the collector reads and writes. *)
Record SandboxClaim := mkClaim {
  cl_Namespace : string; cl_Name : string; DeletionTimestamp : time;
  TTLSecondsAfterFinished : option Z;
  cl_Phase : string; cl_Node : string; cl_SandboxID : string;
  FinishedAt : time; Conditions : list Condition }.

Record ForkInfo := mkForkInfo { fi_Node : string; fi_SandboxID : string; fi_Phase : string }.
Record SandboxFork := mkFork { fk_Forks : list ForkInfo }.

(** forkd's view of a running sandbox. *)
Record SandboxInfo := mkSandboxInfo { SandboxId : string; UptimeSeconds : Z }.

Record GarbageCollector := mkGC {
  Interval : Z; OrphanGrace : Z; DefaultTTLSeconds : Z; EnableHuskPods : bool }.

(** What a pass asks of forkd and of the API server. *)
Inductive action :=
| ATerminate (node id : string)
| AUpdateStatus (c : SandboxClaim)
| ADelete (c : SandboxClaim).

Definition applyDefaults (g : GarbageCollector) : GarbageCollector :=
  mkGC (if Interval g =? 0 then 30 * second else Interval g)
    (if OrphanGrace g =? 0 then 60 * second else OrphanGrace g)
    (if DefaultTTLSeconds g =? 0 then 600 else DefaultTTLSeconds g) (EnableHuskPods g).

(** [setCondition]: the new conditions, and whether anything changed. *)
Fixpoint setCondition (conditions : list Condition) (condition : Condition) : list Condition * bool :=
  match conditions with
  | [] => ([condition], true)
  | c :: rest =>
      if String.eqb (cond_Type c) (cond_Type condition) then
        let condition :=
          if String.eqb (cond_Status c) (cond_Status condition)
             && bool_decide (cond_LastTransitionTime c <> None)
          then mkCondition (cond_Type condition) (cond_Status condition) (cond_ObservedGeneration condition)
                 (cond_LastTransitionTime c) (cond_Reason condition) (cond_Message condition)
          else condition in
        let unchanged := String.eqb (cond_Status c) (cond_Status condition)
          && String.eqb (cond_Reason c) (cond_Reason condition)
          && String.eqb (cond_Message c) (cond_Message condition)
          && (cond_ObservedGeneration c =? cond_ObservedGeneration condition)
          && bool_decide (cond_LastTransitionTime c = cond_LastTransitionTime condition) in
        (condition :: rest, negb unchanged)
      else let '(rest', changed) := setCondition rest condition in (c :: rest', changed)
  end.

(** ** Desired and live sandboxes *)

Definition add_desired (desired : gmap string (gset string)) (node id : string)
    : gmap string (gset string) :=
  if String.eqb node "" || String.eqb id "" then desired
  else <[node := {[id]} ∪ default ∅ (desired !! node)]> desired.

Definition desiredAlive (claims : list SandboxClaim) (forks : list SandboxFork)
    : gmap string (gset string) :=
  let d := fold_left (fun d c => if String.eqb (cl_Phase c) SandboxReady
             then add_desired d (cl_Node c) (cl_SandboxID c) else d) claims ∅ in
  fold_left (fun d f =>
    fold_left (fun d fi => if String.eqb (fi_Phase fi) SandboxReady
      then add_desired d (fi_Node fi) (fi_SandboxID fi) else d) (fk_Forks f) d) forks d.

Definition terminal (phase : string) : bool :=
  String.eqb phase SandboxTerminated || String.eqb phase SandboxFailed.

Definition liveIDs (claims : list SandboxClaim) (forks : list SandboxFork) : gset string :=
  let l := fold_left (fun (l : gset string) c =>
             if terminal (cl_Phase c) then l else {[cl_Name c]} ∪ l) claims ∅ in
  fold_left (fun l f =>
    fold_left (fun (l : gset string) fi =>
      if terminal (fi_Phase fi) then l
      else if negb (String.eqb (fi_SandboxID fi) "") then {[fi_SandboxID fi]} ∪ l else l)
    (fk_Forks f) l) forks l.

(** ** forkd calls *)

Section Pass.
(** [dial] opens a connection; [list_rpc] is ListSandboxes on a node ([None] on
    an error); [term_rpc] is Terminate: [None] on success, otherwise the gRPC
    codes of the error's unwrap chain ([None] for a non-status error). *)
Context (dial : string -> option tls_config -> res unit conn)
  (list_rpc : string -> option (list SandboxInfo))
  (term_rpc : string -> string -> option (list (option Z)))
  (conv : spec_float -> Z).

Definition code_DeadlineExceeded : Z := 4.
Definition code_NotFound : Z := 5.
Definition code_Unavailable : Z := 14.

Definition isAlreadyTerminated (err : list (option Z)) : bool :=
  existsb (fun c => match c with
                    | Some code => (code =? code_NotFound) || (code =? code_Unavailable)
                                   || (code =? code_DeadlineExceeded)
                    | None => false
                    end) err.

(** The updated registry (connections are dialed once), the calls made, and
    whether an error is returned. *)
Definition terminateOnNode (r : NodeRegistry) (now : Z) (nodeName sandboxID : string)
    : NodeRegistry * list action * bool :=
  match GetNode r nodeName with
  | None => (r, [], false)
  | Some _ =>
      if negb (NodeHealthy r now nodeName) then (r, [], false)
      else match GetConnection dial r nodeName with
           | (r', Err _) => (r', [], false)
           | (r', Ok _) =>
               (r', [ATerminate nodeName sandboxID],
                match term_rpc nodeName sandboxID with
                | None => false
                | Some err => negb (isAlreadyTerminated err)
                end)
           end
  end.

Definition listSandboxes (r : NodeRegistry) (nodeName : string) : NodeRegistry * list SandboxInfo :=
  match GetConnection dial r nodeName with
  | (r', Err _) => (r', [])
  | (r', Ok _) => (r', default [] (list_rpc nodeName))
  end.

(** ** The three steps of a pass *)

Definition grace_seconds (g : GarbageCollector) : Z :=
  f64_to_int64 conv (duration_seconds (OrphanGrace g)).

(** One sandbox of the sweep's inner loop. *)
Definition sweep_one (g : GarbageCollector) (now : Z) (desired : gmap string (gset string))
    (live : gset string) (nodeName : string) (st : NodeRegistry * list action) (sb : SandboxInfo)
    : NodeRegistry * list action :=
  let '(r, tr) := st in
  if bool_decide (SandboxId sb ∈ default ∅ (desired !! nodeName)) then (r, tr)
  else if bool_decide (SandboxId sb ∈ live) then (r, tr)
  else if UptimeSeconds sb <? grace_seconds g then (r, tr)
  else let '(r', acts, _) := terminateOnNode r now nodeName (SandboxId sb) in (r', tr ++ acts).

(** [order] is the node list [ListNodes] returns. *)
Definition sweepOrphans (g : GarbageCollector) (now : Z) (desired : gmap string (gset string))
    (live : gset string) (order : list NodeInfo) (r : NodeRegistry) : NodeRegistry * list action :=
  fold_left (fun '(r, tr) node =>
    if negb (NodeHealthy r now (Name node)) then (r, tr)
    else let '(r, sbs) := listSandboxes r (Name node) in
         fold_left (sweep_one g now desired live (Name node)) sbs (r, tr)) order (r, []).

Definition node_lost (c : SandboxClaim) (now : Z) : SandboxClaim :=
  mkClaim (cl_Namespace c) (cl_Name c) (DeletionTimestamp c) (TTLSecondsAfterFinished c)
    SandboxFailed (cl_Node c) (cl_SandboxID c) (Some now)
    (fst (setCondition (Conditions c) (mkCondition "Ready" "False" 0 (Some now) "NodeLost"
            "node running this sandbox is no longer healthy or registered"))).

(** The slice after marking, and the status updates issued; an update that
    fails leaves the slice element marked. *)
Definition markNodeLost (g : GarbageCollector) (r : NodeRegistry) (now : Z) (claims : list SandboxClaim)
    : list SandboxClaim * list action :=
  if EnableHuskPods g then (claims, [])
  else fold_right (fun c '(cs, tr) =>
         if negb (String.eqb (cl_Phase c) SandboxReady) then (c :: cs, tr)
         else if String.eqb (cl_Node c) "" || NodeHealthy r now (cl_Node c) then (c :: cs, tr)
         else let c' := node_lost c now in (c' :: cs, AUpdateStatus c' :: tr)) ([], []) claims.

Definition ttlFinished (g : GarbageCollector) (now : Z) (claims : list SandboxClaim) : list action :=
  omap (fun c =>
    if bool_decide (DeletionTimestamp c <> None) then None
    else if negb (terminal (cl_Phase c)) then None
    else match FinishedAt c with
         | None => None
         | Some t =>
             let ttl := match TTLSecondsAfterFinished c with
                        | Some x => x
                        | None => DefaultTTLSeconds g
                        end in
             if time_sub now t <? ttl * second then None else Some (ADelete c)
         end) claims.

(** A pass; [claims] and [forks] are [None] when the list call fails, and the
    three clock readings are those of the three steps. *)
Definition runOnce (g : GarbageCollector) (r : NodeRegistry) (t_mark t_sweep t_ttl : Z)
    (order : list NodeInfo) (claims : option (list SandboxClaim)) (forks : option (list SandboxFork))
    : NodeRegistry * list action :=
  match claims, forks with
  | Some claims, Some forks =>
      let desired := desiredAlive claims forks in
      let live := liveIDs claims forks in
      let '(claims', marks) := markNodeLost g r t_mark claims in
      let '(r', sweeps) := sweepOrphans g t_sweep desired live order r in
      (r', marks ++ sweeps ++ ttlFinished g t_ttl claims')
  | _, _ => (r, [])
  end.

(** ** What is desired and live *)

(** The control plane expects [id] alive on [node]. *)
Definition expects (claims : list SandboxClaim) (forks : list SandboxFork) (node id : string) : Prop :=
  node <> "" /\ id <> "" /\
  ((exists c, c ∈ claims /\ cl_Phase c = SandboxReady /\ cl_Node c = node /\ cl_SandboxID c = id) \/
   (exists f fi, f ∈ forks /\ fi ∈ fk_Forks f /\ fi_Phase fi = SandboxReady /\ fi_Node fi = node /\
      fi_SandboxID fi = id)).

(** A live object backs the name [id]. *)
Definition backed (claims : list SandboxClaim) (forks : list SandboxFork) (id : string) : Prop :=
  (exists c, c ∈ claims /\ terminal (cl_Phase c) = false /\ cl_Name c = id) \/
  (exists f fi, f ∈ forks /\ fi ∈ fk_Forks f /\ terminal (fi_Phase fi) = false /\ fi_SandboxID fi = id /\ id <> "").

(** Membership after a fold whose step may add elements. *)
Lemma fold_adds {A S} (mem : S -> Prop) (stepf : S -> A -> S) (adds : A -> Prop) l :
  (forall s a, mem (stepf s a) <-> mem s \/ adds a) ->
  forall s, mem (fold_left stepf l s) <-> mem s \/ exists a, a ∈ l /\ adds a.
Proof.
  intros Hstep. induction l as [|a l IH]; intros s; simpl.
  - split; [by left|]. intros [?|(? & ?%not_elem_of_nil & _)]; done.
  - rewrite IH, Hstep. split.
    + intros [[?|?]|(x & ? & ?)]; [by left|right; exists a|right; exists x]; (split; [by constructor|done]).
    + intros [?|(x & [->|?]%elem_of_cons & ?)]; [tauto|tauto|]. right. by exists x.
Qed.

Lemma add_desired_spec d n i node id :
  id ∈ default ∅ (add_desired d n i !! node) <->
  id ∈ default ∅ (d !! node) \/ (n = node /\ i = id /\ node <> "" /\ id <> "").
Proof.
  unfold add_desired. destruct (String.eqb_spec n "") as [->|Hn]; simpl.
  { split; [by left|]. intros [?|(<- & _ & ? & _)]; done. }
  destruct (String.eqb_spec i "") as [->|Hi]; simpl.
  { split; [by left|]. intros [?|(_ & <- & _ & ?)]; done. }
  destruct (decide (n = node)) as [->|Hne].
  - rewrite lookup_insert_eq. simpl. rewrite elem_of_union, elem_of_singleton.
    intuition congruence.
  - rewrite lookup_insert_ne by done. intuition congruence.
Qed.

Lemma desiredAlive_spec claims forks node id :
  id ∈ default ∅ (desiredAlive claims forks !! node) <-> expects claims forks node id.
Proof.
  unfold desiredAlive, expects. cbv zeta.
  rewrite (fold_adds (fun d => id ∈ default ∅ (d !! node)) _
    (fun f => exists fi, fi ∈ fk_Forks f /\ fi_Phase fi = SandboxReady /\ fi_Node fi = node /\
       fi_SandboxID fi = id /\ node <> "" /\ id <> "")).
  2:{ intros d f. rewrite (fold_adds (fun d => id ∈ default ∅ (d !! node)) _
        (fun fi => fi_Phase fi = SandboxReady /\ fi_Node fi = node /\ fi_SandboxID fi = id /\
           node <> "" /\ id <> "")); [done|].
      intros d' fi. destruct (String.eqb_spec (fi_Phase fi) SandboxReady); [|tauto].
      rewrite add_desired_spec. tauto. }
  rewrite (fold_adds (fun d => id ∈ default ∅ (d !! node)) _
    (fun c => cl_Phase c = SandboxReady /\ cl_Node c = node /\ cl_SandboxID c = id /\ node <> "" /\ id <> "")).
  2:{ intros d c. destruct (String.eqb_spec (cl_Phase c) SandboxReady); [|tauto].
      rewrite add_desired_spec. tauto. }
  rewrite lookup_empty. simpl. split.
  - intros [[?%not_elem_of_empty|(c & ? & ? & ? & ? & ? & ?)]|(f & ? & fi & ? & ? & ? & ? & ? & ?)]; [done| |].
    + split; [done|]. split; [done|]. left. by exists c.
    + split; [done|]. split; [done|]. right. by exists f, fi.
  - intros (? & ? & [(c & ? & ? & ? & ?)|(f & fi & ? & ? & ? & ? & ?)]).
    + left. right. by exists c.
    + right. exists f. split; [done|]. by exists fi.
Qed.

Lemma liveIDs_spec claims forks id : id ∈ liveIDs claims forks <-> backed claims forks id.
Proof.
  unfold liveIDs, backed. cbv zeta.
  rewrite (fold_adds (fun l : gset string => id ∈ l) _
    (fun f => exists fi, fi ∈ fk_Forks f /\ terminal (fi_Phase fi) = false /\ fi_SandboxID fi = id /\ id <> "")).
  2:{ intros l f. rewrite (fold_adds (fun l : gset string => id ∈ l) _
        (fun fi => terminal (fi_Phase fi) = false /\ fi_SandboxID fi = id /\ id <> "")); [done|].
      intros l' fi. destruct (terminal (fi_Phase fi)); [split; [by left|intros [?|[? _]]; done]|].
      destruct (String.eqb_spec (fi_SandboxID fi) "") as [He|He]; simpl.
      - split; [by left|]. intros [?|(_ & <- & ?)]; done.
      - rewrite elem_of_union, elem_of_singleton. intuition congruence. }
  rewrite (fold_adds (fun l : gset string => id ∈ l) _
    (fun c => terminal (cl_Phase c) = false /\ cl_Name c = id)).
  2:{ intros l c. destruct (terminal (cl_Phase c)); [split; [by left|intros [?|[? _]]; done]|].
      rewrite elem_of_union, elem_of_singleton. intuition congruence. }
  split.
  - intros [[?%not_elem_of_empty|(c & ? & ? & ?)]|(f & ? & fi & ? & ? & ? & ?)]; [done| |].
    + left. by exists c.
    + right. by exists f, fi.
  - intros [(c & ? & ? & ?)|(f & fi & ? & ? & ? & ? & ?)].
    + left. right. by exists c.
    + right. exists f. split; [done|]. by exists fi.
Qed.

(** ** The sweep *)

(** Dialing changes neither the nodes' health nor which nodes there are. *)
Definition same_nodes (now : Z) (r r' : NodeRegistry) : Prop :=
  forall k, NodeHealthy r' now k = NodeHealthy r now k /\ (is_Some (nodes r' !! k) <-> is_Some (nodes r !! k)).

Lemma same_nodes_refl now r : same_nodes now r r.
Proof. by intros k. Qed.
Lemma same_nodes_trans now r1 r2 r3 : same_nodes now r1 r2 -> same_nodes now r2 r3 -> same_nodes now r1 r3.
Proof. intros H1 H2 k. destruct (H1 k) as [Ha Hb], (H2 k) as [Hc Hd]. split; [congruence|tauto]. Qed.

Lemma GetConnection_same now r name : same_nodes now r (fst (GetConnection dial r name)).
Proof.
  unfold GetConnection. destruct (nodes r !! name) as [n|] eqn:E; [|apply same_nodes_refl].
  destruct (n_conn n); [apply same_nodes_refl|]. case_match; [|apply same_nodes_refl].
  intros k. unfold NodeHealthy. simpl. destruct (decide (k = name)) as [->|Hne].
  - rewrite lookup_insert_eq, E. done.
  - by rewrite lookup_insert_ne.
Qed.

Lemma terminateOnNode_same now r node id :
  same_nodes now r (fst (fst (terminateOnNode r now node id))).
Proof.
  unfold terminateOnNode. destruct (GetNode r node); [|apply same_nodes_refl].
  destruct (negb _); [apply same_nodes_refl|].
  pose proof (GetConnection_same now r node) as H. by destruct (GetConnection dial r node) as [r' []].
Qed.

Lemma terminateOnNode_acts now r node id a :
  a ∈ snd (fst (terminateOnNode r now node id)) -> a = ATerminate node id /\ NodeHealthy r now node = true.
Proof.
  unfold terminateOnNode. destruct (GetNode r node); simpl; [|by intros ?%not_elem_of_nil].
  destruct (NodeHealthy r now node); simpl; [|by intros ?%not_elem_of_nil].
  destruct (GetConnection dial r node) as [r' [c|]]; simpl; [|by intros ?%not_elem_of_nil].
  by intros ->%list_elem_of_singleton.
Qed.

Section Sweep.
Context (g : GarbageCollector) (now : Z) (desired : gmap string (gset string)) (live : gset string).
Context (r0 : NodeRegistry).

(** A sandbox the sweep may terminate. *)
Definition orphan (node : string) (sb : SandboxInfo) : Prop :=
  ~ (SandboxId sb ∈ default ∅ (desired !! node)) /\ ~ (SandboxId sb ∈ live) /\
  grace_seconds g <= UptimeSeconds sb.

Definition justified (a : action) : Prop :=
  exists node sb sbs, a = ATerminate node (SandboxId sb) /\ NodeHealthy r0 now node = true /\
    list_rpc node = Some sbs /\ sb ∈ sbs /\ orphan node sb.

Lemma sweep_one_inv node sbs sb r tr :
  same_nodes now r0 r -> list_rpc node = Some sbs -> sb ∈ sbs -> Forall justified tr ->
  let st := sweep_one g now desired live node (r, tr) sb in
  same_nodes now r0 (fst st) /\ Forall justified (snd st).
Proof.
  intros Hsame Hl Hsb Htr. unfold sweep_one.
  case_bool_decide as Hd; [done|]. case_bool_decide as Hv; [done|].
  destruct (Z.ltb_spec (UptimeSeconds sb) (grace_seconds g)) as [?|Hg]; [done|].
  pose proof (terminateOnNode_same now r node (SandboxId sb)) as Hs.
  pose proof (terminateOnNode_acts now r node (SandboxId sb)) as Ha.
  destruct (terminateOnNode r now node (SandboxId sb)) as [[r' acts] e]. simpl in *.
  split; [by eapply same_nodes_trans|]. apply Forall_app. split; [done|].
  apply list.Forall_forall. intros a [-> Hh]%Ha. exists node, sb, sbs.
  rewrite (proj1 (Hsame node)) in Hh. done.
Qed.

Lemma sweep_inner_inv node all sbs r tr :
  same_nodes now r0 r -> list_rpc node = Some all -> (forall sb, sb ∈ sbs -> sb ∈ all) -> Forall justified tr ->
  let st := fold_left (sweep_one g now desired live node) sbs (r, tr) in
  same_nodes now r0 (fst st) /\ Forall justified (snd st).
Proof.
  intros Hsame Hl. revert r tr Hsame.
  induction sbs as [|sb sbs IH]; intros r tr Hsame Hsub Htr; cbn [fold_left]; [done|].
  destruct (sweep_one_inv node all sb r tr) as [H1 H2]; try done; [apply Hsub; by left|].
  destruct (sweep_one g now desired live node (r, tr) sb) as [r' tr']. apply IH; [done| |done].
  intros x Hx. apply Hsub. by right.
Qed.

Lemma sweepOrphans_inv order :
  same_nodes now r0 (fst (sweepOrphans g now desired live order r0)) /\
  Forall justified (snd (sweepOrphans g now desired live order r0)).
Proof.
  unfold sweepOrphans.
  assert (forall r tr, same_nodes now r0 r -> Forall justified tr ->
    let st := fold_left (fun '(r, tr) node =>
      if negb (NodeHealthy r now (Name node)) then (r, tr)
      else let '(r, sbs) := listSandboxes r (Name node) in
           fold_left (sweep_one g now desired live (Name node)) sbs (r, tr)) order (r, tr) in
    same_nodes now r0 (fst st) /\ Forall justified (snd st)) as H;
    [|apply H; [apply same_nodes_refl|constructor]].
  induction order as [|n order IH]; intros r tr Hsame Htr; simpl; [done|].
  destruct (NodeHealthy r now (Name n)) eqn:Hh; simpl; [|by apply IH].
  unfold listSandboxes. pose proof (GetConnection_same now r (Name n)) as Hc.
  destruct (GetConnection dial r (Name n)) as [r' [c|]]; simpl in *.
  - destruct (list_rpc (Name n)) as [sbs|] eqn:Hl; simpl.
    + destruct (sweep_inner_inv (Name n) sbs sbs r' tr) as [H1 H2]; try done;
        [by eapply same_nodes_trans|].
      destruct (fold_left (sweep_one g now desired live (Name n)) sbs (r', tr)). by apply IH.
    + apply IH; [by eapply same_nodes_trans|done].
  - apply IH; [by eapply same_nodes_trans|done].
Qed.
(** Every action once in the trace stays there. *)
Lemma sweep_one_keeps node st sb a :
  a ∈ snd st -> a ∈ snd (sweep_one g now desired live node st sb).
Proof.
  destruct st as [r tr]. unfold sweep_one. repeat case_match; simpl; try done.
  intros Ha. apply elem_of_app. by left.
Qed.

Lemma sweep_inner_keeps node sbs : forall st a,
  a ∈ snd st -> a ∈ snd (fold_left (sweep_one g now desired live node) sbs st).
Proof.
  induction sbs as [|sb sbs IH]; intros st a Ha; cbn [fold_left]; [done|].
  apply IH. by apply sweep_one_keeps.
Qed.

Lemma sweep_outer_keeps order : forall st a,
  a ∈ snd st -> a ∈ snd (fold_left (fun '(r, tr) node =>
    if negb (NodeHealthy r now (Name node)) then (r, tr)
    else let '(r, sbs) := listSandboxes r (Name node) in
         fold_left (sweep_one g now desired live (Name node)) sbs (r, tr)) order st).
Proof.
  induction order as [|n order IH]; intros [r tr] a Ha; cbn [fold_left]; [done|]. apply IH.
  destruct (negb _); [done|]. destruct (listSandboxes r (Name n)) as [r' sbs].
  by apply sweep_inner_keeps.
Qed.

Hypothesis dials : forall ep creds, exists c, dial ep creds = Ok c.

Lemma GetConnection_dials r name : is_Some (nodes r !! name) -> exists c, snd (GetConnection dial r name) = Ok c.
Proof.
  intros [n Hn]. unfold GetConnection. rewrite Hn. destruct (n_conn n) as [c|]; [by exists c|].
  cbv zeta. edestruct dials as [c Hc]. rewrite Hc. by exists c.
Qed.

Lemma sweep_one_terminates node r tr sb :
  same_nodes now r0 r -> NodeHealthy r0 now node = true -> orphan node sb ->
  ATerminate node (SandboxId sb) ∈ snd (sweep_one g now desired live node (r, tr) sb).
Proof.
  intros Hsame Hh (Hd & Hv & Hg). unfold sweep_one.
  rewrite (bool_decide_false _ Hd), (bool_decide_false _ Hv).
  destruct (Z.ltb_spec (UptimeSeconds sb) (grace_seconds g)); [lia|].
  destruct (Hsame node) as [Hh' Hs]. unfold terminateOnNode. rewrite Hh', Hh.
  assert (is_Some (nodes r !! node)) as Hn.
  { apply Hs. unfold NodeHealthy in Hh. destruct (nodes r0 !! node); [by eexists|done]. }
  unfold GetNode. destruct Hn as [n Hn]. rewrite Hn. simpl.
  destruct (GetConnection_dials r node) as [c Hc]; [by eexists|].
  destruct (GetConnection dial r node) as [r' [c'|]]; [|done]. simpl.
  apply elem_of_app. right. by left.
Qed.

Lemma sweep_inner_terminates node all sbs sb r tr :
  same_nodes now r0 r -> list_rpc node = Some all -> (forall x, x ∈ sbs -> x ∈ all) -> Forall justified tr ->
  NodeHealthy r0 now node = true -> orphan node sb -> sb ∈ sbs ->
  ATerminate node (SandboxId sb) ∈ snd (fold_left (sweep_one g now desired live node) sbs (r, tr)).
Proof.
  intros Hsame Hl Hsub Htr Hh Ho Hin. revert r tr Hsame Hsub Htr.
  induction sbs as [|x sbs IH]; intros r tr Hsame Hsub Htr; [by apply not_elem_of_nil in Hin|].
  cbn [fold_left]. apply elem_of_cons in Hin as [->|Hin].
  - apply sweep_inner_keeps. by apply sweep_one_terminates.
  - destruct (sweep_one_inv node all x r tr) as [H1 H2]; try done; [apply Hsub; by left|].
    destruct (sweep_one g now desired live node (r, tr) x) as [r' tr']. apply IH; try done.
    intros y Hy. apply Hsub. by right.
Qed.

Lemma sweepOrphans_terminates order n all sb :
  n ∈ order -> NodeHealthy r0 now (Name n) = true -> list_rpc (Name n) = Some all ->
  sb ∈ all -> orphan (Name n) sb ->
  ATerminate (Name n) (SandboxId sb) ∈ snd (sweepOrphans g now desired live order r0).
Proof.
  intros Hin Hh Hl Hsb Ho. apply list_elem_of_split in Hin as (pre & post & ->).
  pose proof (sweepOrphans_inv pre) as [Hsame Hj].
  unfold sweepOrphans in *. rewrite fold_left_app.
  destruct (fold_left _ pre (r0, [])) as [r tr]. cbn [fold_left]. simpl in Hsame, Hj.
  apply sweep_outer_keeps. rewrite (proj1 (Hsame (Name n))), Hh. simpl.
  unfold listSandboxes. destruct (GetConnection_dials r (Name n)) as [c Hc].
  { apply (Hsame (Name n)). unfold NodeHealthy in Hh. destruct (nodes r0 !! Name n); [by eexists|done]. }
  pose proof (GetConnection_same now r (Name n)) as Hg.
  destruct (GetConnection dial r (Name n)) as [r' [c'|]]; [|done]. simpl in Hg.
  rewrite Hl. simpl. apply (sweep_inner_terminates (Name n) all); try done.
  by eapply same_nodes_trans.
Qed.
End Sweep.

Lemma markNodeLost_acts g r now claims a :
  a ∈ snd (markNodeLost g r now claims) -> exists c, a = AUpdateStatus c.
Proof.
  unfold markNodeLost. destruct (EnableHuskPods g); [by intros ?%not_elem_of_nil|].
  induction claims as [|c claims IH]; simpl; [by intros ?%not_elem_of_nil|].
  destruct (fold_right _ _ claims) as [cs tr]. simpl in IH.
  repeat case_match; simpl; try done. intros [->|?]%elem_of_cons; eauto.
Qed.

Lemma ttlFinished_acts g now claims a :
  a ∈ ttlFinished g now claims -> exists c, a = ADelete c.
Proof.
  unfold ttlFinished. rewrite list_elem_of_omap. intros (c & _ & Hc). exists c.
  repeat case_match; simplify_eq; done.
Qed.

(** C40. A pass only ever terminates orphans: a sandbox it terminates runs on a
    healthy node, has been up at least the grace period, is not one a Ready
    claim or fork child expects on that node, and no claim or fork child that is
    not terminal carries its id. *)
Theorem gc_terminates_only_orphans (g : GarbageCollector) (r : NodeRegistry)
    (t_mark t_sweep t_ttl : Z) (order : list NodeInfo) (claims : list SandboxClaim)
    (forks : list SandboxFork) (node id : string) :
  ATerminate node id ∈ snd (runOnce g r t_mark t_sweep t_ttl order (Some claims) (Some forks)) ->
  NodeHealthy r t_sweep node = true /\ ~ expects claims forks node id /\ ~ backed claims forks id /\
  exists sb sbs, list_rpc node = Some sbs /\ sb ∈ sbs /\ SandboxId sb = id /\
    grace_seconds g <= UptimeSeconds sb.
Proof.
  unfold runOnce. cbv zeta.
  pose proof (markNodeLost_acts g r t_mark claims (ATerminate node id)) as Hm.
  destruct (markNodeLost g r t_mark claims) as [claims' marks].
  pose proof (sweepOrphans_inv g t_sweep (desiredAlive claims forks) (liveIDs claims forks) r order) as [_ Hs].
  destruct (sweepOrphans g t_sweep _ _ order r) as [r' sweeps]. simpl in *.
  rewrite !elem_of_app. intros [Hin|[Hin|Hin]].
  - by destruct (Hm Hin).
  - rewrite list.Forall_forall in Hs. destruct (Hs _ Hin) as (n & sb & sbs & [= -> ->] & Hh & Hl & Hsb & Hd & Hv & Hg).
    rewrite desiredAlive_spec in Hd. rewrite liveIDs_spec in Hv. eauto 10.
  - by apply ttlFinished_acts in Hin as [].
Qed.
(** Orphans do not survive a pass: when forkd can be dialed, a listed sandbox on
    a healthy node that is past the grace period, that nothing expects on its
    node and no live object backs is terminated. *)
Theorem gc_terminates_orphans (g : GarbageCollector) (r : NodeRegistry)
    (t_mark t_sweep t_ttl : Z) (order : list NodeInfo) (claims : list SandboxClaim)
    (forks : list SandboxFork) (n : NodeInfo) (sb : SandboxInfo) (sbs : list SandboxInfo) :
  (forall ep creds, exists c, dial ep creds = Ok c) ->
  wf r -> iterates r order -> registered r n -> isHealthy t_sweep n = true ->
  list_rpc (Name n) = Some sbs -> sb ∈ sbs -> grace_seconds g <= UptimeSeconds sb ->
  ~ expects claims forks (Name n) (SandboxId sb) -> ~ backed claims forks (SandboxId sb) ->
  ATerminate (Name n) (SandboxId sb)
    ∈ snd (runOnce g r t_mark t_sweep t_ttl order (Some claims) (Some forks)).
Proof.
  intros Hdial Hwf Hit Hn Hh Hl Hsb Hg He Hb. unfold runOnce. cbv zeta.
  pose proof (sweepOrphans_terminates g t_sweep (desiredAlive claims forks) (liveIDs claims forks) r
    Hdial order n sbs sb) as Hs.
  destruct (markNodeLost g r t_mark claims) as [claims' marks].
  destruct (sweepOrphans g t_sweep _ _ order r) as [r' sweeps]. simpl in *.
  rewrite !elem_of_app. right. left. apply Hs; try done.
  - by apply (iterates_elem r order n Hwf Hit).
  - unfold NodeHealthy. by rewrite Hn.
  - split; [by rewrite desiredAlive_spec|]. split; [by rewrite liveIDs_spec|done].
Qed.

(** ** Marking and expiry *)

Definition lost (g : GarbageCollector) (r : NodeRegistry) (now : Z) (c : SandboxClaim) : bool :=
  negb (EnableHuskPods g) && String.eqb (cl_Phase c) SandboxReady
  && negb (String.eqb (cl_Node c) "") && negb (NodeHealthy r now (cl_Node c)).

Lemma markNodeLost_map g r now claims :
  markNodeLost g r now claims
  = (map (fun c => if lost g r now c then node_lost c now else c) claims,
     map (fun c => AUpdateStatus (node_lost c now)) (List.filter (lost g r now) claims)).
Proof.
  unfold markNodeLost, lost. destruct (EnableHuskPods g); simpl.
  - f_equal; [by induction claims as [|c cs IH]; simpl; [|rewrite <- IH]|].
    assert (List.filter (fun _ : SandboxClaim => false) claims = []) as -> by by induction claims. done.
  - induction claims as [|c cs IH]; simpl; [done|]. rewrite IH.
    destruct (String.eqb (cl_Phase c) SandboxReady), (String.eqb (cl_Node c) ""),
      (NodeHealthy r now (cl_Node c)); done.
Qed.

Definition expired (g : GarbageCollector) (now : Z) (c : SandboxClaim) : bool :=
  bool_decide (DeletionTimestamp c = None) && terminal (cl_Phase c)
  && match FinishedAt c with
     | Some t => default (DefaultTTLSeconds g) (TTLSecondsAfterFinished c) * second <=? time_sub now t
     | None => false
     end.

Lemma ttlFinished_filter g now claims :
  ttlFinished g now claims = map ADelete (List.filter (expired g now) claims).
Proof.
  unfold ttlFinished, expired. induction claims as [|c cs IH]; simpl; [done|].
  destruct (DeletionTimestamp c); simpl; [done|]. destruct (terminal (cl_Phase c)); simpl; [|done].
  destruct (FinishedAt c) as [t|]; [|done].
  rewrite Z.leb_antisym. destruct (TTLSecondsAfterFinished c); simpl; destruct (_ <? _); simpl;
    first [exact IH|f_equal; exact IH].
Qed.

(** A pass changes claims exactly as documented: it fails the Ready claims whose
    node is not healthy (none in husk mode), and deletes the claims that are
    terminal, whether already or by that very marking, whose TTL has elapsed. *)
Theorem gc_claims_exact (g : GarbageCollector) (r : NodeRegistry) (t_mark t_sweep t_ttl : Z)
    (order : list NodeInfo) (claims : list SandboxClaim) (forks : list SandboxFork) (a : action) :
  (forall node id, a <> ATerminate node id) ->
  a ∈ snd (runOnce g r t_mark t_sweep t_ttl order (Some claims) (Some forks)) <->
  (exists c, c ∈ claims /\ lost g r t_mark c = true /\ a = AUpdateStatus (node_lost c t_mark)) \/
  (exists c, c ∈ claims /\
     let c' := if lost g r t_mark c then node_lost c t_mark else c in
     expired g t_ttl c' = true /\ a = ADelete c').
Proof.
  intros Hna. unfold runOnce. cbv zeta. rewrite markNodeLost_map.
  pose proof (sweepOrphans_inv g t_sweep (desiredAlive claims forks) (liveIDs claims forks) r order) as [_ Hs].
  destruct (sweepOrphans g t_sweep _ _ order r) as [r' sweeps]. simpl in *.
  rewrite ttlFinished_filter, !elem_of_app, !list_elem_of_In, !in_map_iff.
  setoid_rewrite filter_In. setoid_rewrite in_map_iff. setoid_rewrite <- list_elem_of_In. split.
  - intros [(c & <- & ? & ?)|[Hin|(c' & <- & (c & <- & ?) & ?)]].
    + left. by exists c.
    + rewrite list.Forall_forall in Hs. destruct (Hs _ Hin) as (n & sb & sbs & -> & _).
      by destruct (Hna n (SandboxId sb)).
    + right. by exists c.
  - intros [(c & ? & ? & ->)|(c & ? & ? & ->)].
    + left. by exists c.
    + right. right. eexists. split; [done|]. split; [|done]. by exists c.
Qed.

(** A claim whose TTL is zero is deleted by the same pass that marks it lost,
    whether or not the status update that records the loss succeeds. *)
Theorem gc_zero_ttl_same_pass (g : GarbageCollector) (r : NodeRegistry) (t_mark t_sweep t_ttl : Z)
    (order : list NodeInfo) (claims : list SandboxClaim) (forks : list SandboxFork) (c : SandboxClaim) :
  c ∈ claims -> lost g r t_mark c = true -> DeletionTimestamp c = None ->
  TTLSecondsAfterFinished c = Some 0 -> t_mark <= t_ttl ->
  ADelete (node_lost c t_mark) ∈ snd (runOnce g r t_mark t_sweep t_ttl order (Some claims) (Some forks)).
Proof.
  intros Hc Hl Hd Ht Hle. unfold runOnce. cbv zeta. rewrite markNodeLost_map.
  destruct (sweepOrphans g t_sweep _ _ order r) as [r' sweeps]. simpl.
  rewrite !elem_of_app, ttlFinished_filter. right. right.
  apply list_elem_of_In, in_map_iff. eexists. split; [done|]. apply filter_In. split.
  - apply in_map_iff. exists c. rewrite Hl. split; [done|by apply list_elem_of_In].
  - unfold expired. simpl. rewrite bool_decide_true, Ht by done. simpl.
    apply Z.leb_le. unfold time_sub, min_i64, max_i64. lia.
Qed.
End Pass.

(** ** A concrete pass *)

Definition ex_gc : GarbageCollector := applyDefaults (mkGC 0 0 0 false).
(** node-a of the scheduler's example runs three sandboxes: one a Ready claim
    expects, one a stuck claim still backs, and one nobody knows. *)
Definition ex_list (node : string) : option (list SandboxInfo) :=
  if String.eqb node "node-a"
  then Some [mkSandboxInfo "ready" 500; mkSandboxInfo "stuck" 500; mkSandboxInfo "ghost" 500]
  else None.
Definition ex_term (_ _ : string) : option (list (option Z)) := None.
Definition ex_claims : list SandboxClaim :=
  [mkClaim "default" "ready" None None SandboxReady "node-a" "ready" None [];
   mkClaim "default" "stuck" None None SandboxRestoring "" "" None [];
   mkClaim "default" "gone" None (Some 0) SandboxReady "node-x" "gone" None []].
Definition ex_pass : NodeRegistry * list action :=
  runOnce ex_dial ex_list ex_term ex_conv ex_gc ex_reg minute minute minute ex_order (Some ex_claims) (Some []).

Lemma ex_pass_terminates : ATerminate "node-a" "ghost" ∈ snd ex_pass.
Proof. vm_compute. set_solver. Qed.

Lemma ghost_unexpected : ~ expects ex_claims [] "node-a" "ghost".
Proof.
  intros (_ & _ & [(c & Hc & _ & _ & Hid)|(f & fi & ?%not_elem_of_nil & _)]); [|done].
  unfold ex_claims in Hc. set_unfold in Hc. destruct Hc as [->|[->|[->|[]]]]; done.
Qed.
Lemma ghost_unbacked : ~ backed ex_claims [] "ghost".
Proof.
  intros [(c & Hc & _ & Hid)|(f & fi & ?%not_elem_of_nil & _)]; [|done].
  unfold ex_claims in Hc. set_unfold in Hc. destruct Hc as [->|[->|[->|[]]]]; done.
Qed.

Lemma gc_terminates_only_orphans_witness :
  ATerminate "node-a" "ghost" ∈ snd ex_pass /\
  NodeHealthy ex_reg minute "node-a" = true /\ ~ expects ex_claims [] "node-a" "ghost" /\
  ~ backed ex_claims [] "ghost".
Proof.
  split; [exact ex_pass_terminates|].
  destruct (gc_terminates_only_orphans ex_dial ex_list ex_term ex_conv ex_gc ex_reg minute minute minute
    ex_order ex_claims [] "node-a" "ghost" ex_pass_terminates) as (H1 & H2 & H3 & _).
  split; [exact H1|]. split; [exact H2|exact H3].
Defined.

Lemma gc_terminates_orphans_witness :
  ~ backed ex_claims [] "ghost" /\ ATerminate "node-a" "ghost" ∈ snd ex_pass.
Proof.
  split; [exact ghost_unbacked|].
  refine (gc_terminates_orphans ex_dial ex_list ex_term ex_conv ex_gc ex_reg minute minute minute ex_order
    ex_claims [] ex_a (mkSandboxInfo "ghost" 500)
    [mkSandboxInfo "ready" 500; mkSandboxInfo "stuck" 500; mkSandboxInfo "ghost" 500]
    _ ex_reg_wf ex_order_iterates _ _ eq_refl _ _ ghost_unexpected ghost_unbacked).
  - intros ep creds. by eexists.
  - vm_compute. reflexivity.
  - vm_compute. reflexivity.
  - set_solver.
  - vm_compute. discriminate.
Defined.

Definition ex_gone : SandboxClaim := mkClaim "default" "gone" None (Some 0) SandboxReady "node-x" "gone" None [].

Lemma gc_claims_exact_witness :
  AUpdateStatus (node_lost ex_gone minute) ∈ snd ex_pass.
Proof.
  apply (gc_claims_exact ex_dial ex_list ex_term ex_conv ex_gc ex_reg minute minute minute ex_order
    ex_claims [] (AUpdateStatus (node_lost ex_gone minute))); [done|].
  left. exists ex_gone. split; [unfold ex_claims; set_solver|]. split; [vm_compute; reflexivity|done].
Defined.

Lemma gc_zero_ttl_same_pass_witness :
  lost ex_gc ex_reg minute ex_gone = true /\ ADelete (node_lost ex_gone minute) ∈ snd ex_pass.
Proof.
  assert (lost ex_gc ex_reg minute ex_gone = true) as Hl by (vm_compute; reflexivity).
  split; [exact Hl|].
  refine (gc_zero_ttl_same_pass ex_dial ex_list ex_term ex_conv ex_gc ex_reg minute minute minute ex_order
    ex_claims [] ex_gone _ Hl eq_refl eq_refl (Z.le_refl _)).
  unfold ex_claims, ex_gone. set_solver.
Defined.
End Gc.
