(* ===== verification/Cas.v ===== *)
(** * Content-addressed snapshot store (internal/cas)

    [Chunk]: digests and fixed-size chunking (chunk.go).  [Manifest]: the
    snapshot manifest, its canonical encoding and digest (manifest.go).
    [Store]: writing snapshots into the store, reconstructing their files and
    checking files against a manifest (store.go, verify.go).  [Transfer]:
    incremental pull from an untrusted peer (transport.go) and the read surface
    a node serves (http_transport.go).  [Evict]: pins and the least-recently-used
    eviction (evict.go). *)
From S2P Require Import Prelude GoLib GoFs GoJson Sha256.

Module Chunk.

Definition ChunkSize : Z := Z.shiftl 4 20.

(** The pattern [^[a-f0-9]{64}$]. *)
Definition hex_lower (c : ascii) : bool := is_digit c || in_range "a" "f" c.
Definition Validate (d : string) : bool :=
  Nat.eqb (String.length d) 64 && string_forallb hex_lower d.

Record ChunkRef := MkRef { Digest : string; Size : Z }.

#[global] Instance ChunkRef_eq_dec : EqDecision ChunkRef.
Proof. solve_decision. Defined.

Definition digestBytes (b : bytes) : string := hex_encode (Sum256 b).

(** [io.ReadFull] into a buffer of [n] bytes: the bytes read and the rest of the
    file.  It reads [n] bytes, or fewer when the file ends first. *)
Fixpoint read_full (n : Z) (data : bytes) : bytes * bytes :=
  match data with
  | [] => ([], [])
  | c :: data' => if 0 <? n then let '(b, r) := read_full (n - 1) data' in (c :: b, r) else ([], data)
  end.

(** The chunking loop: a short read is the last one ([io.ErrUnexpectedEOF]), an
    empty one ends the file ([io.EOF]).  Every full read consumes a byte, so one
    more than the file's length is enough fuel. *)
Fixpoint read_blocks (fuel : nat) (data : bytes) : list bytes :=
  match fuel with
  | O => []
  | S fuel' =>
      let '(block, rest) := read_full ChunkSize data in
      match block with
      | [] => []
      | _ :: _ =>
          if Z.of_nat (length block) <? ChunkSize then [block] else block :: read_blocks fuel' rest
      end
  end.

Definition blocks_of (data : bytes) : list bytes := read_blocks (S (length data)) data.

Definition ref_of (block : bytes) : ChunkRef :=
  MkRef (digestBytes block) (Z.of_nat (length block)).

Definition chunkFile (fs : fs_t) (path : string) : option (list ChunkRef) :=
  data ← read_file fs path; Some (map ref_of (blocks_of data)).

(** ** Lemmas *)

Lemma read_full_spec n data b r :
  0 <= n -> read_full n data = (b, r) ->
  data = b ++ r /\ Z.of_nat (length b) <= n /\ (Z.of_nat (length b) < n -> r = []).
Proof.
  revert n b r. induction data as [|c data IH]; intros n b r Hn H; cbn [read_full] in H.
  { simplify_eq/=. split_and!; [done|lia|done]. }
  destruct (Z.ltb_spec 0 n) as [Hn0|Hn0].
  - destruct (read_full (n - 1) data) as [b' r'] eqn:E. simplify_eq/=.
    destruct (IH (n - 1) b' r ltac:(lia) E) as (-> & Hl & Hr).
    split_and!; [done|lia|]. intros. apply Hr. lia.
  - simplify_eq/=. split_and!; [done|lia|lia].
Qed.

Lemma ChunkSize_pos : 0 < ChunkSize.
Proof. done. Qed.

Definition block_ok (b : bytes) : Prop := b <> [] /\ Z.of_nat (length b) <= ChunkSize.

Lemma read_blocks_spec fuel data :
  (length data < fuel)%nat ->
  concat (read_blocks fuel data) = data /\ Forall block_ok (read_blocks fuel data).
Proof.
  revert data. induction fuel as [|fuel IH]; intros data Hf; [lia|]. cbn [read_blocks].
  destruct (read_full ChunkSize data) as [b r] eqn:E.
  pose proof ChunkSize_pos as Hcs.
  apply read_full_spec in E as (-> & Hl & Hr); [|lia].
  destruct b as [|c b].
  - rewrite Hr by exact Hcs. split; [done|constructor].
  - assert (block_ok (c :: b)) as Hok by (split; [done|exact Hl]).
    destruct (Z.ltb_spec (Z.of_nat (length (c :: b))) ChunkSize) as [Hlt|Hge].
    + rewrite (Hr Hlt). simpl. rewrite !app_nil_r. split; [done|by repeat constructor].
    + destruct (IH r) as [IHc IHo]. { rewrite length_app in Hf. simpl in Hf. lia. }
      split; [|by constructor]. cbn [concat]. by rewrite IHc.
Qed.

(** Chunking loses nothing: the chunks in order are the file. *)
Lemma concat_blocks_of data : concat (blocks_of data) = data.
Proof. apply read_blocks_spec. lia. Qed.

Lemma blocks_of_ok data : Forall block_ok (blocks_of data).
Proof. apply read_blocks_spec. lia. Qed.

Lemma hex_encode_length b : String.length (hex_encode b) = (2 * length b)%nat.
Proof. induction b as [|x b IH]; [done|]. cbn. rewrite IH. lia. Qed.

Lemma hex_digit_lower n : 0 <= n < 16 -> hex_lower (hex_digit n) = true.
Proof.
  intros Hn. rewrite <-(Z2Nat.id n) by lia.
  assert (Z.to_nat n < 16)%nat as H by lia. revert H. generalize (Z.to_nat n) as k.
  intros k H. do 16 (destruct k as [|k]; [done|]). lia.
Qed.

Lemma hex_encode_lower b :
  Forall (fun x => 0 <= x < 256) b -> string_forallb hex_lower (hex_encode b) = true.
Proof.
  induction 1 as [|x b Hx Hb IH]; [done|]. cbn [hex_encode string_forallb].
  rewrite IH, !hex_digit_lower; [done| |]; [apply Z.mod_pos_bound; lia|].
  split; [apply Z.div_pos; lia|apply Z.div_lt_upper_bound; lia].
Qed.

Lemma Validate_digest b : Validate (digestBytes b) = true.
Proof.
  unfold Validate, digestBytes. rewrite hex_encode_length, length_Sum256.
  by rewrite hex_encode_lower by apply Sum256_bound.
Qed.

Lemma hex_lower_ascii d : string_forallb hex_lower d = true -> is_ascii d = true.
Proof.
  apply string_forallb_impl. intros c Hc.
  destruct c as [[] [] [] [] [] [] [] []]; try discriminate Hc; reflexivity.
Qed.

Lemma digest_ascii b : is_ascii (digestBytes b) = true.
Proof.
  apply hex_lower_ascii. pose proof (Validate_digest b) as H.
  unfold Validate in H. by apply andb_true_iff in H as [_ ?].
Qed.

Lemma digest_length b : String.length (digestBytes b) = 64%nat.
Proof. unfold digestBytes. by rewrite hex_encode_length, length_Sum256. Qed.

#[export] Hint Resolve Validate_digest digest_ascii : go.
End Chunk.

(** Proofs treat the hash as a black box; evaluation still computes it. *)
#[global] Opaque Chunk.digestBytes.

Module Manifest.
Import Chunk.

Record FileEntry := MkEntry { Name : string; FSize : Z; Chunks : list ChunkRef }.

#[global] Instance FileEntry_eq_dec : EqDecision FileEntry.
Proof. solve_decision. Defined.

Record Manifest := MkManifest {
  Files : list FileEntry;
  VMMVersion : string;
  CreatedUnix : Z;
  SnapshotFormatVersion : Z;
  CPUModel : string;
  KernelVersion : string;
  ConfigHash : string }.

#[global] Instance Manifest_eq_dec : EqDecision Manifest.
Proof. solve_decision. Defined.

Record Metadata := MkMeta {
  md_format : Z; md_vmm : string; md_cpu : string; md_kernel : string;
  md_config : string; md_created : Z }.

Definition CurrentSnapshotFormatVersion : Z := 1.

(** ** The canonical encoding *)

Definition json_key (k : string) : string := String dq (k +:+ String dq ":").

Definition name_less (a b : FileEntry) : bool := String.ltb (Name a) (Name b).

Definition canonical_chunk (c : ChunkRef) : string :=
  "{" +:+ (json_key "digest" +:+ (json_string (Digest c) +:+ ("," +:+ (json_key "size" +:+
  (json_int (Size c) +:+ "}"))))).

Definition canonical_list {A} (w : A -> string) (l : list A) : string :=
  "[" +:+ (join_byte "," (map w l) +:+ "]").

Definition canonical_file (fe : FileEntry) : string :=
  "{" +:+ (json_key "chunks" +:+ (canonical_list canonical_chunk (Chunks fe) +:+ ("," +:+
  (json_key "name" +:+ (json_string (Name fe) +:+ ("," +:+
  (json_key "size" +:+ (json_int (FSize fe) +:+ "}")))))))).

Definition canonical_string (m : Manifest) : string :=
  "{" +:+ (json_key "configHash" +:+ (json_string (ConfigHash m) +:+ ("," +:+
  (json_key "cpuModel" +:+ (json_string (CPUModel m) +:+ ("," +:+
  (json_key "createdUnix" +:+ (json_int (CreatedUnix m) +:+ ("," +:+
  (json_key "files" +:+ (canonical_list canonical_file (sort_by name_less (Files m)) +:+ ("," +:+
  (json_key "kernelVersion" +:+ (json_string (KernelVersion m) +:+ ("," +:+
  (json_key "snapshotFormatVersion" +:+ (json_int (SnapshotFormatVersion m) +:+ ("," +:+
  (json_key "vmmVersion" +:+ (json_string (VMMVersion m) +:+ "}")))))))))))))))))))).

Definition Canonical (m : Manifest) : bytes := String.list_ascii_of_string (canonical_string m).

Definition manifest_digest (m : Manifest) : string := digestBytes (Canonical m).

Definition manifestFrom (entries : list FileEntry) (meta : Metadata) : Manifest :=
  MkManifest entries (md_vmm meta) (md_created meta) (md_format meta) (md_cpu meta)
             (md_kernel meta) (md_config meta).

(** [BuildManifest]: the error is the path that could not be read. *)
Fixpoint build_entries (fs : fs_t) (files : gmap string string) (names : list string)
    : res string (list FileEntry) :=
  match names with
  | [] => Ok []
  | name :: names' =>
      let path := default EmptyString (files !! name) in
      match read_file fs path, chunkFile fs path with
      | Some data, Some chunks =>
          (try rest := build_entries fs files names' in
           Ok (MkEntry name (Z.of_nat (length data)) chunks :: rest))%go
      | _, _ => Err path
      end
  end.

Definition file_names (files : gmap string string) : list string :=
  sort_strings (map fst (map_to_list files)).

Definition BuildManifest (fs : fs_t) (files : gmap string string) (meta : Metadata)
    : res string Manifest :=
  (try entries := build_entries fs files (file_names files) in Ok (manifestFrom entries meta))%go.

(** ** Decoding *)

Fixpoint read_list {A} (rd : string -> option (A * string)) (fuel : nat) (s : string)
    : option (list A * string) :=
  match fuel with
  | O => None
  | S fuel' =>
      '(x, s1) ← rd s;
      match s1 with
      | String c s2 =>
          if Ascii.eqb c "," then '(xs, s3) ← read_list rd fuel' s2; Some (x :: xs, s3)
          else if Ascii.eqb c "]" then Some ([x], s2) else None
      | EmptyString => None
      end
  end.

Definition read_array {A} (rd : string -> option (A * string)) (s : string)
    : option (list A * string) :=
  s1 ← cut_prefix "[" s;
  match cut_prefix "]" s1 with
  | Some s2 => Some ([], s2)
  | None => read_list rd (String.length s1) s1
  end.

Definition read_chunk (s : string) : option (ChunkRef * string) :=
  s ← cut_prefix "{" s; s ← cut_prefix (json_key "digest") s; '(d, s) ← read_string s;
  s ← cut_prefix "," s; s ← cut_prefix (json_key "size") s; '(z, s) ← read_int s;
  s ← cut_prefix "}" s; Some (MkRef d z, s).

Definition read_file_entry (s : string) : option (FileEntry * string) :=
  s ← cut_prefix "{" s; s ← cut_prefix (json_key "chunks") s; '(cs, s) ← read_array read_chunk s;
  s ← cut_prefix "," s; s ← cut_prefix (json_key "name") s; '(n, s) ← read_string s;
  s ← cut_prefix "," s; s ← cut_prefix (json_key "size") s; '(z, s) ← read_int s;
  s ← cut_prefix "}" s; Some (MkEntry n z cs, s).

Definition read_manifest (s : string) : option Manifest :=
  s ← cut_prefix "{" s; s ← cut_prefix (json_key "configHash") s; '(ch, s) ← read_string s;
  s ← cut_prefix "," s; s ← cut_prefix (json_key "cpuModel") s; '(cpu, s) ← read_string s;
  s ← cut_prefix "," s; s ← cut_prefix (json_key "createdUnix") s; '(cu, s) ← read_int s;
  s ← cut_prefix "," s; s ← cut_prefix (json_key "files") s; '(fl, s) ← read_array read_file_entry s;
  s ← cut_prefix "," s; s ← cut_prefix (json_key "kernelVersion") s; '(kv, s) ← read_string s;
  s ← cut_prefix "," s; s ← cut_prefix (json_key "snapshotFormatVersion") s; '(sv, s) ← read_int s;
  s ← cut_prefix "," s; s ← cut_prefix (json_key "vmmVersion") s; '(vv, s) ← read_string s;
  if String.eqb s "}" then Some (MkManifest fl vv cu sv cpu kv ch) else None.

(** [decodeManifest]: [json.Unmarshal] on the canonical layout; [unmarshal_other]
    is its result on any other text. *)
Definition decodeManifest (unmarshal_other : string -> option Manifest) (data : bytes)
    : option Manifest :=
  match data with
  | [] => None
  | _ :: _ =>
      let s := String.string_of_list_ascii data in
      match read_manifest s with
      | Some m => Some m
      | None => unmarshal_other s
      end
  end.
(** ** The decoder inverts the canonical encoding *)

Definition entry_ok (fe : FileEntry) : Prop :=
  is_ascii (Name fe) = true /\ is_i64 (FSize fe) /\
  Forall (fun c => is_ascii (Digest c) = true /\ is_i64 (Size c)) (Chunks fe).

Definition manifest_ok (m : Manifest) : Prop :=
  Forall entry_ok (Files m) /\ is_i64 (CreatedUnix m) /\ is_i64 (SnapshotFormatVersion m) /\
  is_ascii (VMMVersion m) = true /\ is_ascii (CPUModel m) = true /\
  is_ascii (KernelVersion m) = true /\ is_ascii (ConfigHash m) = true.

(** The manifest with its files in canonical order: what decoding returns. *)
Definition sorted_manifest (m : Manifest) : Manifest :=
  MkManifest (sort_by name_less (Files m)) (VMMVersion m) (CreatedUnix m)
    (SnapshotFormatVersion m) (CPUModel m) (KernelVersion m) (ConfigHash m).

Lemma cut_prefix_self a : cut_prefix a a = Some EmptyString.
Proof. apply cut_prefix_spec. by rewrite string_app_nil_r. Qed.

Lemma read_json_string_end s : is_ascii s = true -> read_string (json_string s) = Some (s, EmptyString).
Proof. intros. rewrite <- (string_app_nil_r (json_string s)). by apply read_json_string. Qed.

(** One step of a reader over the text its writer produced. *)
Ltac read_step :=
  rewrite <- ?string_app_assoc;
  first [ rewrite cut_prefix_app | rewrite cut_prefix_self
        | rewrite read_json_string by done
        | rewrite read_json_int by done ]; cbn [mbind option_bind].

Section lists.
Context {A : Type} (w : A -> string) (rd : string -> option (A * string)).

Lemma join_map_length l r :
  (length l <= String.length (join_byte "," (map w l) +:+ String "]" r))%nat.
Proof.
  induction l as [|x l IH]; [simpl; lia|]. destruct l as [|y l].
  - simpl. rewrite string_length_app. simpl. lia.
  - change (join_byte "," (map w (x :: y :: l)))
      with (w x +:+ String "," (join_byte "," (map w (y :: l)))).
    rewrite <- string_app_assoc, string_length_app. cbn [String.append String.length length].
    cbn [length] in IH. lia.
Qed.

Lemma read_list_join l r fuel :
  (forall x t, x ∈ l -> rd (w x +:+ t) = Some (x, t)) -> l <> [] -> (length l <= fuel)%nat ->
  read_list rd fuel (join_byte "," (map w l) +:+ String "]" r) = Some (l, r).
Proof.
  intros Hrd. revert fuel. induction l as [|x l IH]; intros fuel Hne Hf; [done|].
  destruct fuel as [|fuel]; [simpl in Hf; lia|]. destruct l as [|y l].
  - cbn [read_list map join_byte]. rewrite Hrd by constructor. done.
  - change (join_byte "," (map w (x :: y :: l)))
      with (w x +:+ String "," (join_byte "," (map w (y :: l)))).
    rewrite <- string_app_assoc. cbn [read_list].
    rewrite Hrd by constructor. cbn [mbind option_bind String.append].
    rewrite Ascii.eqb_refl, IH; [done| |done|simpl in *; lia].
    intros z t Hz. apply Hrd. by constructor.
Qed.

Lemma read_array_canonical l r :
  (forall x t, x ∈ l -> rd (w x +:+ t) = Some (x, t)) ->
  (forall x, x ∈ l -> exists t, w x = String "{" t) ->
  read_array rd (canonical_list w l +:+ r) = Some (l, r).
Proof.
  intros Hrd Hb. unfold read_array, canonical_list. read_step.
  destruct l as [|x l]; [done|].
  destruct (cut_prefix "]" _) as [s|] eqn:E.
  { exfalso. apply cut_prefix_spec in E. destruct (Hb x ltac:(constructor)) as [t Ht].
    destruct l; cbn [map join_byte] in E; rewrite Ht in E; discriminate E. }
  apply read_list_join; [done|done|]. apply join_map_length.
Qed.
End lists.

Lemma read_chunk_canonical c t :
  is_ascii (Digest c) = true -> is_i64 (Size c) ->
  read_chunk (canonical_chunk c +:+ t) = Some (c, t).
Proof.
  intros Hd Hz. unfold read_chunk, canonical_chunk. repeat read_step. by destruct c.
Qed.

Lemma read_file_canonical fe t :
  entry_ok fe -> read_file_entry (canonical_file fe +:+ t) = Some (fe, t).
Proof.
  intros (Hn & Hz & Hc). unfold read_file_entry, canonical_file. do 2 read_step.
  rewrite <- ?string_app_assoc, read_array_canonical; cbn [mbind option_bind].
  - repeat read_step. by destruct fe.
  - intros c t' Hin. rewrite list.Forall_forall in Hc. destruct (Hc c Hin). by apply read_chunk_canonical.
  - intros c _. unfold canonical_chunk. eauto.
Qed.

Lemma sort_name_ok m : manifest_ok m -> Forall entry_ok (sort_by name_less (Files m)).
Proof. intros (H & _). by rewrite sort_by_perm. Qed.

Lemma read_manifest_canonical m :
  manifest_ok m -> read_manifest (canonical_string m) = Some (sorted_manifest m).
Proof.
  intros Hm. pose proof (sort_name_ok m Hm) as Hs. destruct Hm as (Hf & Hcu & Hsv & Hv & Hcpu & Hk & Hch).
  unfold read_manifest, canonical_string. do 11 read_step.
  rewrite <- ?string_app_assoc, read_array_canonical; cbn [mbind option_bind].
  - repeat read_step. by destruct m.
  - intros fe t Hin. rewrite list.Forall_forall in Hs. by apply read_file_canonical, Hs.
  - intros fe _. unfold canonical_file. eauto.
Qed.

Lemma Canonical_nonempty m : Canonical m <> [].
Proof. done. Qed.

Lemma decode_Canonical unmarshal_other m :
  manifest_ok m -> decodeManifest unmarshal_other (Canonical m) = Some (sorted_manifest m).
Proof.
  intros Hm. unfold decodeManifest. destruct (Canonical m) eqn:E; [done|]. rewrite <- E.
  unfold Canonical. by rewrite String.string_of_list_ascii_of_string, read_manifest_canonical.
Qed.

Lemma Canonical_inj m1 m2 :
  manifest_ok m1 -> manifest_ok m2 -> Canonical m1 = Canonical m2 ->
  sorted_manifest m1 = sorted_manifest m2.
Proof.
  intros H1 H2 H. pose proof (decode_Canonical (fun _ => None) m1 H1) as E1.
  pose proof (decode_Canonical (fun _ => None) m2 H2) as E2. congruence.
Qed.

(** Sorting is idempotent: a decoded manifest has the digest it was stored under. *)
Lemma name_less_asym a b : name_less a b = true -> name_less b a = false.
Proof. apply ltb_asym. Qed.

Lemma name_less_negtrans a b c :
  name_less b a = false -> name_less c b = false -> name_less c a = false.
Proof. apply ltb_negtrans. Qed.

Lemma sort_insert_first {A} (less : A -> A -> bool) x l :
  Forall (fun y => less y x = false) l -> sort_insert less x l = x :: l.
Proof. destruct 1 as [|y l Hy Hl]; [done|]. simpl. by rewrite Hy. Qed.

Lemma sort_in_order {A} (less : A -> A -> bool) l : in_order less l -> sort_by less l = l.
Proof.
  induction 1 as [|x l Hl IH Hx]; [done|]. cbn [sort_by foldr]. fold (sort_by less l).
  rewrite IH. by apply sort_insert_first.
Qed.

Lemma Canonical_sorted m : Canonical (sorted_manifest m) = Canonical m.
Proof.
  unfold Canonical, canonical_string. cbn [sorted_manifest Files ConfigHash
    CPUModel CreatedUnix KernelVersion SnapshotFormatVersion VMMVersion].
  rewrite (sort_in_order name_less (sort_by name_less (Files m))); [done|].
  apply sort_by_in_order; [apply name_less_asym|apply name_less_negtrans].
Qed.

Lemma sorted_manifest_digest m : manifest_digest (sorted_manifest m) = manifest_digest m.
Proof. unfold manifest_digest. by rewrite Canonical_sorted. Qed.
End Manifest.

Module Store.
Import Chunk Manifest.

(** The three directories of a store: chunk files with their modification times,
    manifest files and pin markers, each by file name.  A chunk file whose name is
    not a digest is a temporary file left by an interrupted write. *)
Record Store := MkStore {
  chunks : gmap string (bytes * Z);
  manifests : gmap string bytes;
  pins : gset string }.

Definition with_chunks (s : Store) (c : gmap string (bytes * Z)) : Store :=
  MkStore c (manifests s) (pins s).

Inductive cas_error :=
| InvalidDigest
| Missing (what : string)
| TooLarge
| BadDigest (want got : string)
| WriteFailed
| NoSuchFile (name : string)
| BadManifest
| SlicePanic.

Section store.
(** [json.Unmarshal] off the canonical layout; which atomic writes, destination
    creations and syncs the host lets succeed; the clock. *)
Variable unmarshal_other : string -> option Manifest.
Variables write_ok create_ok sync_ok : string -> bool.
Variable now : Z.

Definition HasChunk (s : Store) (d : string) : bool :=
  if negb (Validate d) then false else bool_decide (is_Some (chunks s !! d)).

Definition HasManifest (s : Store) (d : string) : bool :=
  if negb (Validate d) then false else bool_decide (is_Some (manifests s !! d)).

Definition GetManifest (s : Store) (d : string) : res cas_error Manifest :=
  if negb (Validate d) then Err InvalidDigest
  else match manifests s !! d with
       | None => Err (Missing d)
       | Some data =>
           match decodeManifest unmarshal_other data with
           | None => Err BadManifest
           | Some m => Ok m
           end
       end.

(** [writeChunk] and [writeManifest] through [atomicWrite]: the file appears
    whole under its final name or not at all. *)
Definition writeChunk (s : Store) (d : string) (data : bytes) : Store * res cas_error () :=
  if write_ok d then (with_chunks s (<[d := (data, now)]> (chunks s)), Ok ()) else (s, Err WriteFailed).

Definition writeManifest (s : Store) (m : Manifest) : Store * res cas_error () :=
  let d := manifest_digest m in
  if write_ok d then (MkStore (chunks s) (<[d := Canonical m]> (manifests s)) (pins s), Ok ())
  else (s, Err WriteFailed).

Definition PutManifest : Store -> Manifest -> Store * res cas_error () := writeManifest.

(** ** Writing a snapshot *)

Fixpoint put_blocks (s : Store) (blocks : list bytes) : Store * res cas_error (list ChunkRef) :=
  match blocks with
  | [] => (s, Ok [])
  | block :: blocks' =>
      let d := digestBytes block in
      let '(s1, r1) := if negb (HasChunk s d) then writeChunk s d block else (s, Ok ()) in
      match r1 with
      | Err e => (s1, Err e)
      | Ok _ =>
          let '(s2, r2) := put_blocks s1 blocks' in
          (s2, (try refs := r2 in Ok (MkRef d (Z.of_nat (length block)) :: refs))%go)
      end
  end.

Definition putFileChunks (fs : fs_t) (s : Store) (name path : string) : Store * res cas_error FileEntry :=
  match read_file fs path with
  | None => (s, Err (Missing path))
  | Some data =>
      let '(s', r) := put_blocks s (blocks_of data) in
      (s', (try refs := r in Ok (MkEntry name (Z.of_nat (length data)) refs))%go)
  end.

Fixpoint put_files (fs : fs_t) (s : Store) (files : gmap string string) (names : list string)
    : Store * res cas_error (list FileEntry) :=
  match names with
  | [] => (s, Ok [])
  | name :: names' =>
      let '(s1, r1) := putFileChunks fs s name (default EmptyString (files !! name)) in
      match r1 with
      | Err e => (s1, Err e)
      | Ok fe =>
          let '(s2, r2) := put_files fs s1 files names' in
          (s2, (try rest := r2 in Ok (fe :: rest))%go)
      end
  end.

Definition PutSnapshot (fs : fs_t) (s : Store) (files : gmap string string) (meta : Metadata)
    : Store * res cas_error Manifest :=
  let '(s1, r1) := put_files fs s files (file_names files) in
  match r1 with
  | Err e => (s1, Err e)
  | Ok entries =>
      let m := manifestFrom entries meta in
      let '(s2, r2) := writeManifest s1 m in
      (s2, (try _ := r2 in Ok m)%go)
  end.

(** [PutChunk]: [r] is the whole stream the sender offers, [None] a failed read.
    One byte more than a chunk is read, so an oversized chunk is seen. *)
Definition PutChunk (s : Store) (d : string) (r : option bytes) : Store * res cas_error () :=
  if negb (Validate d) then (s, Err InvalidDigest)
  else match r with
       | None => (s, Err (Missing d))
       | Some stream =>
           let '(data, _) := read_full (ChunkSize + 1) stream in
           if ChunkSize <? Z.of_nat (length data) then (s, Err TooLarge)
           else let got := digestBytes data in
                if negb (String.eqb got d) then (s, Err (BadDigest d got))
                else writeChunk s d data
       end.

(** [MissingChunks]: the referenced digests in order, each once, not yet held. *)
Fixpoint missing_scan (s : Store) (seen : gset string) (ds : list string) : list string :=
  match ds with
  | [] => []
  | d :: ds' =>
      if decide (d ∈ seen) then missing_scan s seen ds'
      else let rest := missing_scan s ({[d]} ∪ seen) ds' in
           if negb (HasChunk s d) then d :: rest else rest
  end.

Definition chunk_digests (m : Manifest) : list string :=
  concat (map (fun fe => map Digest (Chunks fe)) (Files m)).

Definition MissingChunks (s : Store) (m : Manifest) : list string :=
  missing_scan s ∅ (chunk_digests m).

(** ** Reconstructing files *)

Definition touchChunk (s : Store) (d : string) : Store :=
  match chunks s !! d with
  | Some (b, _) => with_chunks s (<[d := (b, now)]> (chunks s))
  | None => s
  end.

(** [copyVerifiedChunk]: the digest names the shard directory by its first two
    bytes, so a shorter one panics in the slice expression. *)
Definition copyVerifiedChunk (s : Store) (c : ChunkRef) : res cas_error bytes :=
  if Nat.ltb (String.length (Digest c)) 2 then Err SlicePanic
  else match chunks s !! Digest c with
       | None => Err (Missing (Digest c))
       | Some (b, _) =>
           let got := digestBytes b in
           if negb (String.eqb got (Digest c)) then Err (BadDigest (Digest c) got) else Ok b
       end.

Fixpoint copy_chunks (s : Store) (cs : list ChunkRef) : Store * res cas_error bytes :=
  match cs with
  | [] => (s, Ok [])
  | c :: cs' =>
      match copyVerifiedChunk s c with
      | Err e => (s, Err e)
      | Ok b =>
          let '(s', r) := copy_chunks (touchChunk s (Digest c)) cs' in
          (s', (try rest := r in Ok (b ++ rest))%go)
      end
  end.

(** [materializeFileAt]: on any failure after the file was created it is removed. *)
Definition materializeFileAt (s : Store) (fs : fs_t) (fe : FileEntry) (dst : string)
    : Store * fs_t * res cas_error () :=
  if negb (create_ok dst) then (s, fs, Err WriteFailed)
  else let '(s', r) := copy_chunks s (Chunks fe) in
       match r with
       | Err e => (s', remove_file fs dst, Err e)
       | Ok data =>
           if sync_ok dst then (s', write_file fs dst data, Ok ())
           else (s', remove_file fs dst, Err WriteFailed)
       end.

Definition MaterializeFileTo (s : Store) (fs : fs_t) (d name dst : string)
    : Store * fs_t * res cas_error () :=
  match GetManifest s d with
  | Err e => (s, fs, Err e)
  | Ok m =>
      match List.find (fun fe => String.eqb (Name fe) name) (Files m) with
      | None => (s, fs, Err (NoSuchFile name))
      | Some fe => materializeFileAt s fs fe dst
      end
  end.

Fixpoint materialize_files (s : Store) (fs : fs_t) (fes : list FileEntry) (dstDir : string)
    : Store * fs_t * res cas_error () :=
  match fes with
  | [] => (s, fs, Ok ())
  | fe :: fes' =>
      let '(s1, fs1, r) := materializeFileAt s fs fe (Join [dstDir; Name fe]) in
      match r with
      | Err e => (s1, fs1, Err e)
      | Ok _ => materialize_files s1 fs1 fes' dstDir
      end
  end.

Definition Materialize (s : Store) (fs : fs_t) (d dstDir : string) : Store * fs_t * res cas_error () :=
  match GetManifest s d with
  | Err e => (s, fs, Err e)
  | Ok m => if create_ok dstDir then materialize_files s fs (Files m) dstDir else (s, fs, Err WriteFailed)
  end.
End store.

(** ** Checking files against a manifest (verify.go) *)

Inductive verify_error := NotInManifest (name : string) | Unreadable (name : string) | Tampered (name : string).

(** Equal lengths first, then every position. *)
Fixpoint same_refs (want got : list ChunkRef) : bool :=
  match want, got with
  | w :: want', g :: got' =>
      if negb (String.eqb (Digest w) (Digest g)) || negb (Size w =? Size g) then false
      else same_refs want' got'
  | _, _ => true
  end.

Definition compareChunks (name : string) (want got : list ChunkRef) : res verify_error () :=
  if negb (Nat.eqb (length want) (length got)) then Err (Tampered name)
  else if same_refs want got then Ok () else Err (Tampered name).

Definition by_name (m : Manifest) : gmap string FileEntry :=
  fold_left (fun acc fe => <[Name fe := fe]> acc) (Files m) ∅.

(** [files] lists the name-to-path map in the order the range statement visits it. *)
Fixpoint VerifyFilesAgainstManifest (fs : fs_t) (m : Manifest) (files : list (string * string))
    : res verify_error () :=
  match files with
  | [] => Ok ()
  | (name, path) :: files' =>
      match by_name m !! name with
      | None => Err (NotInManifest name)
      | Some fe =>
          match chunkFile fs path with
          | None => Err (Unreadable name)
          | Some got =>
              (try _ := compareChunks name (Chunks fe) got in VerifyFilesAgainstManifest fs m files')%go
          end
      end
  end.
End Store.

(** ** The store's invariant, and the round trip through it *)
Module StoreFacts.
Import Chunk Manifest Store.

Definition content (s : Store) (d : string) : option bytes := fst <$> chunks s !! d.

(** Every chunk file named by a digest holds bytes with that digest. *)
Definition store_ok (s : Store) : Prop :=
  forall d b, content s d = Some b -> Validate d = true -> digestBytes b = d.

(** SHA-256 separates the byte strings in [S]. *)
Definition collision_free (S : bytes -> Prop) : Prop :=
  forall a b, S a -> S b -> digestBytes a = digestBytes b -> a = b.

Definition holds_only (S : bytes -> Prop) (s : Store) : Prop :=
  forall d b, content s d = Some b -> S b.

Lemma content_with s d x d' :
  content (with_chunks s (<[d := x]> (chunks s))) d' = if decide (d = d') then Some x.1 else content s d'.
Proof.
  unfold content, with_chunks. simpl. case_decide as E; [by subst; rewrite lookup_insert_eq|].
  by rewrite lookup_insert_ne.
Qed.

Lemma content_touch now s d d' : content (touchChunk now s d) d' = content s d'.
Proof.
  unfold touchChunk. destruct (chunks s !! d) as [[b t]|] eqn:E; [|done].
  rewrite content_with. case_decide as Hd; [|done]. subst. unfold content. by rewrite E.
Qed.

Lemma manifests_touch now s d : manifests (touchChunk now s d) = manifests s.
Proof. unfold touchChunk. by destruct (chunks s !! d) as [[]|]. Qed.

Lemma HasChunk_spec s d : HasChunk s d = true <-> Validate d = true /\ is_Some (content s d).
Proof.
  unfold HasChunk, content. destruct (Validate d); simpl.
  - rewrite bool_decide_eq_true, fmap_is_Some. tauto.
  - split; [done|by intros [? _]].
Qed.

Section facts.
Variable unmarshal_other : string -> option Manifest.
Variables write_ok create_ok sync_ok : string -> bool.
Variable now : Z.

Lemma writeChunk_ok s b s' r :
  store_ok s -> writeChunk write_ok now s (digestBytes b) b = (s', r) -> store_ok s'.
Proof.
  intros Hs. unfold writeChunk. destruct (write_ok _); intros H; simplify_eq; [|done].
  intros d b' Hc Hv. rewrite content_with in Hc. case_decide; simplify_eq/=; eauto.
Qed.

Lemma writeChunk_only S s d b s' r :
  holds_only S s -> S b -> writeChunk write_ok now s d b = (s', r) -> holds_only S s'.
Proof.
  intros Hs Hb. unfold writeChunk. destruct (write_ok _); intros H; simplify_eq; [|done].
  intros d' b' Hc. rewrite content_with in Hc. case_decide; simplify_eq/=; eauto.
Qed.

(** What the store keeps while a snapshot is written into it: chunks stay where
    they are, and manifests are untouched until the end. *)
Definition grows (S : bytes -> Prop) (s s' : Store) : Prop :=
  store_ok s' /\ holds_only S s' /\ manifests s' = manifests s /\
  forall b, S b -> content s (digestBytes b) = Some b -> content s' (digestBytes b) = Some b.

Lemma grows_refl S s : store_ok s -> holds_only S s -> grows S s s.
Proof. intros. by split_and!. Qed.

Lemma grows_trans S s1 s2 s3 : grows S s1 s2 -> grows S s2 s3 -> grows S s1 s3.
Proof. intros (Ha & Hb & Hc & Hd) (He & Hf & Hg & Hh). split_and!; [done|done|congruence|eauto]. Qed.

Lemma put_block_grows S s b s' r :
  collision_free S -> S b -> store_ok s -> holds_only S s ->
  (if negb (HasChunk s (digestBytes b)) then writeChunk write_ok now s (digestBytes b) b
   else (s, Ok ())) = (s', r) ->
  grows S s s' /\ (r = Ok () -> content s' (digestBytes b) = Some b).
Proof.
  intros Hcf Hb Hok Hon. destruct (HasChunk s (digestBytes b)) eqn:E; simpl; intros H.
  - simplify_eq. split; [by apply grows_refl|]. intros _.
    apply HasChunk_spec in E as [Hv [b' Hb']]. rewrite Hb'. f_equal.
    apply Hcf; [by eapply Hon|done|]. by apply Hok.
  - pose proof (writeChunk_ok _ _ _ _ Hok H). pose proof (writeChunk_only _ _ _ _ _ _ Hon Hb H).
    unfold writeChunk in H. destruct (write_ok _); simplify_eq; (split; [|intros ?; simplify_eq]).
    + split_and!; [done|done|done|]. intros b' Hb' Hc. rewrite content_with.
      case_decide as Hd; [|done]. simpl. f_equal. by apply Hcf.
    + rewrite content_with. by rewrite decide_True.
    + by split_and!.
Qed.

Lemma put_blocks_spec S bs s s' r :
  collision_free S -> (forall b, b ∈ bs -> S b) -> store_ok s -> holds_only S s ->
  put_blocks write_ok now s bs = (s', r) ->
  grows S s s' /\
  (forall refs, r = Ok refs -> refs = map ref_of bs /\ forall b, b ∈ bs -> content s' (digestBytes b) = Some b).
Proof.
  intros Hcf. revert s s' r. induction bs as [|b bs IH]; intros s s' r Hin Hok Hon H; cbn [put_blocks] in H.
  { simplify_eq. split; [by apply grows_refl|]. intros refs ?. simplify_eq. split; [done|].
    intros b Hb. by apply not_elem_of_nil in Hb. }
  destruct (if negb (HasChunk s (digestBytes b)) then _ else _) as [s1 r1] eqn:E.
  apply (put_block_grows S) in E as [Hg1 Hc1]; [|done|by apply Hin; constructor|done|done].
  destruct r1 as [[]|e]; [|by simplify_eq].
  destruct (put_blocks write_ok now s1 bs) as [s2 r2] eqn:E2. simplify_eq.
  destruct Hg1 as (Hok1 & Hon1 & Hm1 & Hk1).
  apply IH in E2 as [Hg2 Hr2]; [|by intros; apply Hin; constructor|done|done].
  split; [eapply grows_trans; [|done]; by split_and!|].
  intros refs Hr. destruct r2 as [refs2|]; simplify_eq/=. destruct (Hr2 refs2 eq_refl) as [-> Hall].
  split; [done|]. intros b' [->|Hb']%elem_of_cons; [|by apply Hall].
  apply Hg2; [by apply Hin; constructor|by apply Hc1].
Qed.

(** The entry [PutSnapshot] records for a file. *)
Definition entry_of (name : string) (data : bytes) : FileEntry :=
  MkEntry name (Z.of_nat (length data)) (map ref_of (blocks_of data)).

Definition file_data (fs : fs_t) (files : gmap string string) (name : string) : option bytes :=
  path ← files !! name; read_file fs path.

Lemma put_files_spec S fs files names s s' r :
  collision_free S ->
  (forall name data b, file_data fs files name = Some data -> b ∈ blocks_of data -> S b) ->
  (forall name, name ∈ names -> is_Some (files !! name)) -> store_ok s -> holds_only S s ->
  put_files write_ok now fs s files names = (s', r) ->
  grows S s s' /\
  (forall fes, r = Ok fes ->
     Forall2 (fun name fe => exists data, file_data fs files name = Some data /\ fe = entry_of name data /\
                forall b, b ∈ blocks_of data -> content s' (digestBytes b) = Some b) names fes).
Proof.
  intros Hcf HS. revert s s' r. induction names as [|n names IH]; intros s s' r Hn Hok Hon H;
    cbn [put_files] in H.
  { simplify_eq. split; [by apply grows_refl|]. intros fes ?. simplify_eq. constructor. }
  destruct (putFileChunks write_ok now fs s n _) as [s1 r1] eqn:E. unfold putFileChunks in E.
  destruct (Hn n ltac:(constructor)) as [path Hp]. rewrite Hp in E. change (default EmptyString (Some path)) with path in E.
  destruct (read_file fs path) as [data|] eqn:Hd.
  2:{ simplify_eq. split; [by apply grows_refl|]. intros ? ?. simplify_eq. }
  assert (file_data fs files n = Some data) as Hfd by (unfold file_data; by rewrite Hp).
  destruct (put_blocks write_ok now s (blocks_of data)) as [s1' rb] eqn:Eb. simplify_eq.
  apply (put_blocks_spec S) in Eb as [Hg1 Hr1]; [|done|by intros; eapply HS|done|done].
  destruct rb as [refs|e]; simplify_eq/=; [|by split].
  destruct (Hr1 refs eq_refl) as [-> Hall].
  destruct (put_files write_ok now fs s1 files names) as [s2 r2] eqn:E2. simplify_eq.
  apply IH in E2 as [Hg2 Hr2]; [|by intros; apply Hn; constructor|apply Hg1|apply Hg1].
  split; [by eapply grows_trans|]. intros fes Hf. destruct r2 as [fes2|]; simplify_eq/=.
  constructor; [|by apply Hr2]. exists data. split_and!; [done|done|].
  intros b Hb. apply Hg2; [by eapply HS|by apply Hall].
Qed.

(** Reading a file's chunks back out of a store that holds them. *)
Lemma copy_chunks_spec s bs s' r :
  (forall b, b ∈ bs -> content s (digestBytes b) = Some b) ->
  copy_chunks now s (map ref_of bs) = (s', r) -> r = Ok (concat bs).
Proof.
  revert s s' r. induction bs as [|b bs IH]; intros s s' r Hc H; cbn [map copy_chunks] in H; [by simplify_eq|].
  pose proof (Hc b ltac:(constructor)) as Hb. unfold content in Hb.
  apply fmap_Some in Hb as [[b' t] [Hb Hbb]]. simpl in Hbb. subst b'.
  unfold copyVerifiedChunk in H. cbn [Digest ref_of] in H.
  assert (Nat.ltb (String.length (digestBytes b)) 2 = false) as Hl.
  { by rewrite digest_length. }
  rewrite Hl, Hb, String.eqb_refl in H. cbn [negb] in H.
  destruct (copy_chunks now (touchChunk now s (digestBytes b)) (map ref_of bs)) as [s2 r2] eqn:E.
  apply IH in E as ->; [by simplify_eq|]. intros b' Hb'. rewrite content_touch. apply Hc. by constructor.
Qed.
End facts.
Lemma elem_file_names (files : gmap string string) n : n ∈ file_names files <-> is_Some (files !! n).
Proof.
  unfold file_names. rewrite sort_strings_perm. rewrite list_elem_of_fmap. split.
  - intros [[k p] [-> H]]. exists p. by apply elem_of_map_to_list in H.
  - intros [p H]. exists (n, p). split; [done|]. by apply elem_of_map_to_list.
Qed.

Lemma NoDup_file_names (files : gmap string string) : NoDup (file_names files).
Proof. unfold file_names. rewrite sort_strings_perm. apply NoDup_fst_map_to_list. Qed.

Lemma find_entry fe fes :
  fe ∈ fes -> NoDup (map Name fes) ->
  List.find (fun f => String.eqb (Name f) (Name fe)) fes = Some fe.
Proof.
  induction fes as [|f fes IH]; [by intros ?%not_elem_of_nil|]. intros Hin Hnd.
  cbn [map] in Hnd. apply list.NoDup_cons in Hnd as [Hn Hnd]. cbn [List.find].
  apply elem_of_cons in Hin as [->|Hin]; [by rewrite String.eqb_refl|].
  destruct (String.eqb_spec (Name f) (Name fe)) as [E|]; [|by apply IH].
  exfalso. apply Hn. rewrite E. apply list_elem_of_fmap. eauto.
Qed.

Lemma put_blocks_total now s bs :
  exists s', put_blocks (fun _ => true) now s bs = (s', Ok (map ref_of bs)).
Proof.
  revert s. induction bs as [|b bs IH]; intros s; cbn [put_blocks]; [eauto|].
  unfold writeChunk. destruct (HasChunk s (digestBytes b)); cbn [negb].
  - destruct (IH s) as [s' ->]. eauto.
  - destruct (IH (with_chunks s (<[digestBytes b := (b, now)]> (chunks s)))) as [s' ->]. eauto.
Qed.

Lemma put_files_total now fs s files names :
  (forall n, n ∈ names -> is_Some (file_data fs files n)) ->
  exists s' fes, put_files (fun _ => true) now fs s files names = (s', Ok fes).
Proof.
  revert s. induction names as [|n names IH]; intros s Hn; cbn [put_files]; [eauto|].
  destruct (Hn n ltac:(constructor)) as [data Hd]. unfold file_data in Hd.
  apply bind_Some in Hd as (path & Hp & Hd). rewrite Hp.
  change (default EmptyString (Some path)) with path. unfold putFileChunks. rewrite Hd.
  destruct (put_blocks_total now s (blocks_of data)) as [s1 ->]. cbn [res_bind].
  destruct (IH s1) as (s2 & fes & ->); [|cbn; eauto]. intros. apply Hn. by constructor.
Qed.

Definition meta_ok (meta : Metadata) : Prop :=
  is_i64 (md_format meta) /\ is_i64 (md_created meta) /\ is_ascii (md_vmm meta) = true /\
  is_ascii (md_cpu meta) = true /\ is_ascii (md_kernel meta) = true /\ is_ascii (md_config meta) = true.

Lemma entry_of_ok name data :
  is_ascii name = true -> Z.of_nat (length data) < 2 ^ 63 -> entry_ok (entry_of name data).
Proof.
  intros Hn Hl. unfold entry_ok, entry_of. cbn [Name FSize Chunks]. split_and!; [done|unfold is_i64; lia|].
  apply list.Forall_forall. intros c (b & -> & Hb)%list_elem_of_fmap. cbn [ref_of Digest Size].
  split; [auto with go|]. pose proof (blocks_of_ok data) as Hok. rewrite list.Forall_forall in Hok.
  destruct (Hok b Hb) as [_ Hs]. unfold is_i64. assert (ChunkSize < 2 ^ 63) by done. lia.
Qed.

Lemma Forall2_names (P : string -> FileEntry -> Prop) names fes :
  Forall2 P names fes -> (forall n fe, P n fe -> Name fe = n) -> map Name fes = names.
Proof. intros H HP. induction H as [|n fe ns fes Hx H IH]; [done|]. cbn. by rewrite IH, (HP n fe). Qed.

Lemma Forall2_elem {A B} (P : A -> B -> Prop) (l : list A) (k : list B) x :
  Forall2 P l k -> x ∈ l -> exists y, y ∈ k /\ P x y.
Proof.
  induction 1 as [|a b l k Hp H IH]; [by intros ?%not_elem_of_nil|].
  intros [->|Hx]%elem_of_cons; [by exists b; split; [constructor|]|].
  destruct (IH Hx) as (y & ? & ?). exists y. split; [by constructor|done].
Qed.

Lemma Forall2_elem_r {A B} (P : A -> B -> Prop) (l : list A) (k : list B) y :
  Forall2 P l k -> y ∈ k -> exists x, x ∈ l /\ P x y.
Proof.
  induction 1 as [|a b l k Hp H IH]; [by intros ?%not_elem_of_nil|].
  intros [->|Hx]%elem_of_cons; [by exists a; split; [constructor|]|].
  destruct (IH Hx) as (x & ? & ?). exists x. split; [by constructor|done].
Qed.

(** Reading a file entry of a stored manifest whose chunks the store holds. *)
Lemma MaterializeFileTo_hit um cok sok now s fs m fe bs dst :
  manifests s !! manifest_digest m = Some (Canonical m) -> manifest_ok m ->
  fe ∈ Files m -> NoDup (map Name (Files m)) ->
  Chunks fe = map ref_of bs -> (forall b, b ∈ bs -> content s (digestBytes b) = Some b) ->
  cok dst = true -> sok dst = true ->
  exists s', MaterializeFileTo um cok sok now s fs (manifest_digest m) (Name fe) dst
             = (s', write_file fs dst (concat bs), Ok ()).
Proof.
  intros Hman Hm Hfe Hnd Hcs Hhave Hc Hs. unfold MaterializeFileTo, GetManifest.
  assert (Validate (manifest_digest m) = true) as -> by apply Validate_digest. cbn [negb].
  rewrite Hman, decode_Canonical by done. cbn [Files sorted_manifest].
  rewrite (find_entry fe); [|by rewrite sort_by_perm|by rewrite sort_by_perm].
  unfold materializeFileAt. rewrite Hc, Hcs. cbn [negb].
  destruct (copy_chunks now s (map ref_of bs)) as [s3 r3] eqn:E.
  apply copy_chunks_spec in E as ->; [|done]. rewrite Hs. eauto.
Qed.

(** The byte strings a snapshot write deals with: what the store holds and the
    blocks of the files. *)
Definition in_play (fs : fs_t) (s : Store) (files : gmap string string) (b : bytes) : Prop :=
  (exists d, content s d = Some b) \/
  (exists name data, file_data fs files name = Some data /\ b ∈ blocks_of data).

(** What is true once a snapshot of readable files has been written. *)
Record written (fs : fs_t) (s : Store) (files : gmap string string) (s' : Store) (m : Manifest) : Prop := {
  written_ok : manifest_ok m;
  written_manifest : manifests s' !! manifest_digest m = Some (Canonical m);
  written_names : NoDup (map Name (Files m));
  written_entries : forall fe, fe ∈ Files m ->
    exists name data, file_data fs files name = Some data /\ fe = entry_of name data;
  written_files : forall name data, file_data fs files name = Some data ->
    entry_of name data ∈ Files m /\ forall b, b ∈ blocks_of data -> content s' (digestBytes b) = Some b;
  written_store : store_ok s';
  written_only : holds_only (in_play fs s files) s' }.

Definition storable (fs : fs_t) (files : gmap string string) : Prop :=
  forall n, is_Some (files !! n) -> exists data,
    file_data fs files n = Some data /\ is_ascii n = true /\ Z.of_nat (length data) < 2 ^ 63.

Lemma entries_ok fs files fes meta s' :
  meta_ok meta -> storable fs files ->
  Forall2 (fun name fe => exists data, file_data fs files name = Some data /\ fe = entry_of name data /\
    forall b, b ∈ blocks_of data -> content s' (digestBytes b) = Some b) (file_names files) fes ->
  manifest_ok (manifestFrom fes meta).
Proof.
  intros (? & ? & ? & ? & ? & ?) Hfiles Hfe. unfold manifest_ok, manifestFrom.
  cbn [Files CreatedUnix SnapshotFormatVersion VMMVersion CPUModel KernelVersion ConfigHash].
  split_and!; [|done..]. apply list.Forall_forall. intros fe Hin.
  destruct (Forall2_elem_r _ _ _ _ Hfe Hin) as (n & Hn & data & Hd & -> & _).
  destruct (Hfiles n) as (data' & Hd' & ? & ?); [by apply elem_file_names|].
  assert (data' = data) as -> by congruence. by apply entry_of_ok.
Qed.

Lemma PutSnapshot_written now fs s files meta :
  store_ok s -> collision_free (in_play fs s files) -> meta_ok meta -> storable fs files ->
  exists s' m, PutSnapshot (fun _ => true) now fs s files meta = (s', Ok m) /\ written fs s files s' m.
Proof.
  intros Hok Hcf Hmeta Hfiles.
  destruct (put_files_total now fs s files (file_names files)) as (s1 & fes & Hput).
  { intros n Hn%elem_file_names. destruct (Hfiles n Hn) as (data & -> & _). eauto. }
  assert (Hon : holds_only (in_play fs s files) s) by (intros d b ?; left; eauto).
  pose proof Hput as Hspec. apply (put_files_spec (fun _ => true) now (in_play fs s files)) in Hspec
    as [Hg Hfe]; [|done|by intros; right; eauto|by intros; apply elem_file_names|done|done].
  specialize (Hfe fes eq_refl). destruct Hg as (Hok1 & Hon1 & _ & _).
  eexists _, (manifestFrom fes meta).
  split; [unfold PutSnapshot; rewrite Hput; unfold writeManifest; cbn; reflexivity|].
  split; cbn [manifests Files manifestFrom]; [by eapply entries_ok|by rewrite lookup_insert_eq| | | |done|done].
  - replace (map Name fes) with (file_names files); [apply NoDup_file_names|].
    symmetry. eapply Forall2_names; [exact Hfe|]. by intros n fe (data & _ & -> & _).
  - intros fe Hin. destruct (Forall2_elem_r _ _ _ _ Hfe Hin) as (n & Hn & data & Hd & -> & _). eauto.
  - intros name data Hd.
    assert (name ∈ file_names files) as Hin.
    { apply elem_file_names. unfold file_data in Hd. apply bind_Some in Hd as (? & -> & _). eauto. }
    destruct (Forall2_elem _ _ _ _ Hfe Hin) as (fe & Hfin & data' & Hd' & -> & Hhave).
    assert (data' = data) as -> by congruence. done.
Qed.

Lemma written_materialize um cok sok now fs s files s' m s2 fs' name data dst :
  written fs s files s' m -> manifests s2 !! manifest_digest m = Some (Canonical m) ->
  file_data fs files name = Some data ->
  (forall b, b ∈ blocks_of data -> content s2 (digestBytes b) = Some b) ->
  cok dst = true -> sok dst = true ->
  exists s3, MaterializeFileTo um cok sok now s2 fs' (manifest_digest m) name dst
             = (s3, write_file fs' dst data, Ok ()).
Proof.
  intros Hw Hm Hd Hhave Hc Hs. rewrite <- (concat_blocks_of data).
  apply (MaterializeFileTo_hit um cok sok now s2 fs' m (entry_of name data)); try done; try apply Hw.
  by destruct (written_files _ _ _ _ _ Hw name data Hd).
Qed.

(** Writing a snapshot of readable files into a store that can be written
    succeeds, and afterwards every file can be reconstructed from the store
    under the snapshot's digest, byte for byte, into any destination: chunking,
    deduplication against what the store already held, the canonical manifest
    encoding and its decoding lose nothing.  The store must hold its chunks
    under their digests and SHA-256 must separate the byte strings in play. *)
Theorem snapshot_roundtrip um cok sok now fs s files meta :
  store_ok s -> collision_free (in_play fs s files) -> meta_ok meta -> storable fs files ->
  exists s' m,
    PutSnapshot (fun _ => true) now fs s files meta = (s', Ok m) /\
    forall name data fs' dst,
      file_data fs files name = Some data -> cok dst = true -> sok dst = true ->
      exists s'', MaterializeFileTo um cok sok now s' fs' (manifest_digest m) name dst
                  = (s'', write_file fs' dst data, Ok ()).
Proof.
  intros Hok Hcf Hmeta Hfiles.
  destruct (PutSnapshot_written now fs s files meta) as (s' & m & Hput & Hw); [done..|].
  exists s', m. split; [done|]. intros name data fs' dst Hd Hc Hs.
  eapply (written_materialize um cok sok now fs s files s' m s'); try done; [apply Hw|].
  by destruct (written_files _ _ _ _ _ Hw name data Hd).
Qed.
End StoreFacts.

Module Transfer.
Import Chunk Manifest Store StoreFacts.

(** ** The surface a node serves to its peers (http_transport.go) *)

Inductive request :=
| GetManifestReq (digest : string)
| HasReq (digests : option (list string))
| GetChunkReq (digest : string).

Inductive body := Text (msg : string) | Raw (b : bytes) | Present (p : gmap string bool).
Record response := MkResp { status : Z; reply : body }.

Section serve.
Variable unmarshal_other : string -> option Manifest.

Definition getManifest (s : Store) (d : string) : response :=
  if negb (Validate d) then MkResp 400 (Text "invalid digest")
  else match GetManifest unmarshal_other s d with
       | Err _ => MkResp 404 (Text ("manifest " +:+ d +:+ " not found"))
       | Ok m => MkResp 200 (Raw (Canonical m))
       end.

(** The request body is a JSON list of digests; [None] when it does not decode. *)
Definition postHas (s : Store) (digests : option (list string)) : response :=
  match digests with
  | None => MkResp 400 (Text "invalid digest list")
  | Some ds =>
      if forallb Validate ds
      then MkResp 200 (Present (fold_left (fun p d => <[d := HasChunk s d]> p) ds ∅))
      else MkResp 400 (Text "invalid digest")
  end.

Definition getChunk (s : Store) (d : string) : response :=
  if negb (Validate d) then MkResp 400 (Text "invalid digest")
  else match chunks s !! d with
       | None => MkResp 404 (Text ("chunk " +:+ d +:+ " not found"))
       | Some (b, _) => MkResp 200 (Raw b)
       end.

Definition serve_cas (s : Store) (r : request) : response :=
  match r with
  | GetManifestReq d => getManifest s d
  | HasReq ds => postHas s ds
  | GetChunkReq d => getChunk s d
  end.

(** [RequirePullToken] around the handler: [auth] is the Authorization header. *)
Definition RequirePullToken (token : string) (next : request -> response) (auth : string) (r : request)
    : response :=
  if negb (String.eqb auth ("Bearer " +:+ token)) then MkResp 403 (Text "forbidden") else next r.

(** ** The pulling side *)

(** An HTTP transport: [exchange auth r] is the peer's answer to a request with
    that Authorization header, [None] when the exchange fails. *)
Record HTTPTransport := MkTransport {
  exchange : string -> request -> option response;
  bearerToken : string }.

(** The header is set only when a token is configured. *)
Definition authorize (t : HTTPTransport) : string :=
  if negb (String.eqb (bearerToken t) EmptyString) then "Bearer " +:+ bearerToken t else EmptyString.

Definition http_GetChunk (t : HTTPTransport) (d : string) : option (option bytes) :=
  resp ← exchange t (authorize t) (GetChunkReq d);
  if negb (status resp =? 200) then None
  else Some (match reply resp with Raw b => Some b | _ => None end).

Definition http_GetManifest (t : HTTPTransport) (d : string) : option Manifest :=
  resp ← exchange t (authorize t) (GetManifestReq d);
  if negb (status resp =? 200) then None
  else match reply resp with Raw b => decodeManifest unmarshal_other b | _ => None end.
End serve.

(** The [Transport] interface the pull uses: the untrusted peer. *)
Record Transport := MkRemote {
  remote_manifest : string -> option Manifest;
  remote_chunk : string -> option (option bytes) }.

Definition http_remote (um : string -> option Manifest) (t : HTTPTransport) : Transport :=
  MkRemote (http_GetManifest um t) (http_GetChunk t).

Inductive pull_error :=
| PullInvalidDigest
| NoRemoteManifest
| RemoteMismatch (want got : string)
| NoRemoteChunk (d : string)
| LocalError (e : cas_error).

Section pull.
Variable write_ok : string -> bool.
Variable now : Z.

Definition pullChunk (s : Store) (remote : Transport) (d : string) : Store * res pull_error () :=
  match remote_chunk remote d with
  | None => (s, Err (NoRemoteChunk d))
  | Some stream =>
      let '(s', r) := PutChunk write_ok now s d stream in (s', res_map_err LocalError r)
  end.

Fixpoint pull_chunks (s : Store) (remote : Transport) (ds : list string) : Store * res pull_error () :=
  match ds with
  | [] => (s, Ok ())
  | d :: ds' =>
      let '(s1, r) := pullChunk s remote d in
      match r with
      | Err e => (s1, Err e)
      | Ok _ => pull_chunks s1 remote ds'
      end
  end.

Definition Pull (s : Store) (remote : Transport) (d : string) : Store * res pull_error () :=
  if negb (Validate d) then (s, Err PullInvalidDigest)
  else match remote_manifest remote d with
       | None => (s, Err NoRemoteManifest)
       | Some m =>
           let got := manifest_digest m in
           if negb (String.eqb got d) then (s, Err (RemoteMismatch d got))
           else let '(s1, r) := pull_chunks s remote (MissingChunks s m) in
                match r with
                | Err e => (s1, Err e)
                | Ok _ => let '(s2, r2) := PutManifest write_ok s1 m in (s2, res_map_err LocalError r2)
                end
       end.
End pull.
(** ** What a pull guarantees against any peer *)

Lemma missing_scan_spec s seen ds d :
  d ∈ missing_scan s seen ds <-> d ∈ ds /\ ~ (d ∈ seen) /\ HasChunk s d = false.
Proof.
  revert seen. induction ds as [|x ds IH]; intros seen; cbn [missing_scan].
  { rewrite !elem_of_nil. tauto. }
  rewrite elem_of_cons. case_decide as Hx.
  - rewrite IH. split; [tauto|]. intros ([->|?] & ? & ?); tauto.
  - assert (d ∈ missing_scan s ({[x]} ∪ seen) ds <-> d ∈ ds /\ d <> x /\ ~ (d ∈ seen) /\ HasChunk s d = false) as E.
    { rewrite IH, elem_of_union, elem_of_singleton. tauto. }
    destruct (HasChunk s x) eqn:Hc; cbn [negb].
    + rewrite E. destruct (decide (d = x)) as [->|]; [split; [tauto|intros (_ & _ & ?); congruence]|tauto].
    + rewrite elem_of_cons, E. destruct (decide (d = x)) as [->|]; tauto.
Qed.

Lemma elem_chunk_digests m d :
  d ∈ chunk_digests m <-> exists fe c, fe ∈ Files m /\ c ∈ Chunks fe /\ d = Digest c.
Proof.
  unfold chunk_digests. rewrite list_elem_of_In, in_concat. split.
  - intros (ds & (fe & <- & Hfe)%in_map_iff & (c & <- & Hc)%in_map_iff).
    exists fe, c. by rewrite !list_elem_of_In.
  - intros (fe & c & Hfe & Hc & ->). exists (map Digest (Chunks fe)). rewrite !in_map_iff.
    apply list_elem_of_In in Hfe. apply list_elem_of_In in Hc. split; [by exists fe|by exists c].
Qed.

Lemma MissingChunks_spec s m d :
  d ∈ MissingChunks s m <-> d ∈ chunk_digests m /\ HasChunk s d = false.
Proof. unfold MissingChunks. rewrite missing_scan_spec. set_solver. Qed.

(** A failing branch that returns the store as it was. *)
Ltac unchanged := simplify_eq; split_and!; try done; intros; simplify_eq.

Section pull_facts.
Variable write_ok : string -> bool.
Variable now : Z.

(** A chunk accepted under [d] in store [s]. *)
Definition verified (s : Store) (d : string) : Prop :=
  Validate d = true /\ exists b, content s d = Some b /\ digestBytes b = d.

Lemma PutChunk_spec s d stream s' r :
  store_ok s -> PutChunk write_ok now s d stream = (s', r) ->
  store_ok s' /\ manifests s' = manifests s /\ (forall d', d' <> d -> content s' d' = content s d') /\
  (r = Ok () -> verified s' d) /\ (r <> Ok () -> s' = s).
Proof.
  intros Hok H. unfold PutChunk in H. destruct (Validate d) eqn:Hv; cbn [negb] in H; [|by unchanged].
  destruct stream as [stream|]; [|by unchanged].
  destruct (read_full (ChunkSize + 1) stream) as [data rest].
  destruct (ChunkSize <? Z.of_nat (length data)); [by unchanged|].
  destruct (String.eqb_spec (digestBytes data) d) as [<-|]; cbn [negb] in H; [|by unchanged].
  pose proof (writeChunk_ok _ _ _ _ _ _ Hok H) as Hok'. unfold writeChunk in H.
  destruct (write_ok _); simplify_eq; split_and!; try done.
  - intros d' Hd. rewrite content_with. by rewrite decide_False.
  - intros _. split; [done|]. exists data. rewrite content_with. by rewrite decide_True.
Qed.

Lemma pull_chunks_spec ds : forall remote s s' r,
  store_ok s -> pull_chunks write_ok now s remote ds = (s', r) ->
  store_ok s' /\ manifests s' = manifests s /\ (forall d, ~ (d ∈ ds) -> content s' d = content s d) /\
  (r = Ok () -> forall d, d ∈ ds -> verified s' d).
Proof.
  induction ds as [|d ds IH]; intros remote s s' r Hok H; cbn [pull_chunks] in H.
  { simplify_eq. split_and!; try done. intros _ d Hd. by apply not_elem_of_nil in Hd. }
  destruct (pullChunk write_ok now s remote d) as [s1 r1] eqn:E. unfold pullChunk in E.
  destruct (remote_chunk remote d) as [stream|]; [|by unchanged].
  destruct (PutChunk write_ok now s d stream) as [s1' r1'] eqn:Ep.
  apply PutChunk_spec in Ep as (Hok1 & Hm1 & Hf1 & Hv1 & Hs1); [|done].
  destruct r1' as [[]|e]; simplify_eq/=.
  - apply IH in H as (Hok2 & Hm2 & Hf2 & Hv2); [|done]. split_and!; [done|congruence| |].
    + intros d' Hd'. rewrite not_elem_of_cons in Hd'. destruct Hd'. rewrite Hf2, Hf1; done.
    + intros -> d' [->|Hd']%elem_of_cons; [|by apply Hv2].
      destruct (decide (d ∈ ds)) as [Hin|Hin]; [by apply Hv2|].
      destruct (Hv1 eq_refl) as (Hvd & b & Hb & Hdg). split; [done|]. exists b. by rewrite Hf2.
  - split_and!; try done. intros d' Hd'. rewrite not_elem_of_cons in Hd'. destruct Hd'. by apply Hf1.
Qed.

Lemma Pull_spec remote d s s' r :
  store_ok s -> Pull write_ok now s remote d = (s', r) ->
  store_ok s' /\ (forall d' b, content s d' = Some b -> Validate d' = true -> content s' d' = Some b) /\
  (r = Ok () -> exists m, remote_manifest remote d = Some m /\ manifest_digest m = d /\
     manifests s' !! d = Some (Canonical m) /\ forall c, c ∈ chunk_digests m -> verified s' c).
Proof.
  intros Hok H. unfold Pull in H. destruct (Validate d) eqn:Hv; cbn [negb] in H; [|by unchanged].
  destruct (remote_manifest remote d) as [m|] eqn:Hm; [|by unchanged].
  destruct (String.eqb_spec (manifest_digest m) d) as [Hd|]; cbn [negb] in H; [|by unchanged].
  destruct (pull_chunks write_ok now s remote (MissingChunks s m)) as [s1 r1] eqn:E.
  apply pull_chunks_spec in E as (Hok1 & Hm1 & Hf1 & Hv1); [|done].
  assert (Hkeep : forall d' b, content s d' = Some b -> Validate d' = true -> content s1 d' = Some b).
  { intros d' b Hb Hvd. rewrite Hf1; [done|]. rewrite MissingChunks_spec. intros [_ Hh].
    apply not_true_iff_false in Hh. apply Hh, HasChunk_spec. eauto. }
  destruct r1 as [[]|e]; [|by unchanged]. unfold PutManifest, writeManifest in H.
  destruct (write_ok (manifest_digest m)); simplify_eq/=; [|by split_and!].
  split_and!; [done|done|]. intros _. exists m. split_and!; [done|done|by rewrite lookup_insert_eq|].
  intros c Hc. destruct (HasChunk s c) eqn:Hh; [|apply Hv1; [done|by apply MissingChunks_spec]].
  apply HasChunk_spec in Hh as [Hvc [b Hb]]. split; [done|]. exists b.
  split; [by apply Hkeep|by apply Hok].
Qed.
End pull_facts.

(** Copying chunk references the store has verified. *)
Lemma copy_verified now s cs :
  (forall c, c ∈ cs -> verified s (Digest c)) ->
  exists s' bs, copy_chunks now s cs = (s', Ok (concat bs)) /\
    Forall2 (fun c b => content s (Digest c) = Some b /\ digestBytes b = Digest c) cs bs.
Proof.
  revert s. induction cs as [|c cs IH]; intros s Hc; cbn [copy_chunks]; [by exists s, []|].
  destruct (Hc c ltac:(constructor)) as (Hv & b & Hb & Hd). unfold copyVerifiedChunk.
  assert (Nat.ltb (String.length (Digest c)) 2 = false) as ->.
  { unfold Validate in Hv. apply andb_true_iff in Hv as [Hl%Nat.eqb_eq _]. by rewrite Hl. }
  pose proof Hb as Hb'. unfold content in Hb'. apply fmap_Some in Hb' as [[b' t] [Hl Hbb]].
  simpl in Hbb. subst b'. rewrite Hl, Hd, String.eqb_refl. cbn [negb].
  destruct (IH (touchChunk now s (Digest c))) as (s' & bs & -> & Hall).
  { intros c' Hc'. destruct (Hc c' ltac:(by constructor)) as (? & b' & ? & ?).
    split; [done|]. exists b'. by rewrite content_touch. }
  exists s', (b :: bs). split; [done|]. constructor; [done|].
  eapply list.Forall2_impl; [exact Hall|]. intros c' b' [Hx Hy]. by rewrite content_touch in Hx.
Qed.
(** Pulling from an arbitrary, possibly hostile peer keeps the store sound: on
    every outcome each chunk file still holds bytes with its digest and the
    chunks already held are unchanged.  When the pull succeeds the manifest
    stored under the requested digest really has that digest, every chunk it
    references is held and verified, and any file entry it names can be
    reconstructed: the result is the concatenation of byte strings with exactly
    the recorded chunk digests. *)
Theorem Pull_sound um cok sok wok now s remote d s' r :
  store_ok s -> Pull wok now s remote d = (s', r) ->
  store_ok s' /\
  (forall c b, content s c = Some b -> Validate c = true -> content s' c = Some b) /\
  (r = Ok () -> exists m,
     manifest_digest m = d /\ manifests s' !! d = Some (Canonical m) /\
     (forall c, c ∈ chunk_digests m -> verified s' c) /\
     (manifest_ok m -> forall fe fs dst, fe ∈ Files m -> NoDup (map Name (Files m)) ->
        cok dst = true -> sok dst = true ->
        exists s'' bs,
          MaterializeFileTo um cok sok now s' fs d (Name fe) dst
          = (s'', write_file fs dst (concat bs), Ok ()) /\
          map digestBytes bs = map Digest (Chunks fe))).
Proof.
  intros Hok H. apply Pull_spec in H as (Hok' & Hkeep & Hr); [|done].
  split_and!; [done|done|]. intros Hrok. destruct (Hr Hrok) as (m & _ & Hd & Hman & Hall).
  exists m. split_and!; [done|done|done|]. intros Hmok fe fs dst Hfe Hnd Hc Hs.
  destruct (copy_verified now s' (Chunks fe)) as (s'' & bs & Hcopy & Hbs).
  { intros c Hc'. apply Hall, elem_chunk_digests. eauto. }
  exists s'', bs. unfold MaterializeFileTo, GetManifest. rewrite <- Hd in *.
  assert (Validate (manifest_digest m) = true) as -> by apply Validate_digest. cbn [negb].
  rewrite Hman, decode_Canonical by done. cbn [Files sorted_manifest].
  rewrite (find_entry fe); [|by rewrite sort_by_perm|by rewrite sort_by_perm].
  unfold materializeFileAt. rewrite Hc, Hcopy, Hs. cbn [negb]. split; [done|].
  clear -Hbs. induction Hbs as [|c b cs bs [_ Hcb] _ IH]; [done|]. cbn [map]. by rewrite IH, Hcb.
Qed.

(** ** Distribution: put on one node, pulled on another *)

(** The transport to a peer that serves its store behind a token. *)
Definition peer_transport (um : string -> option Manifest) (token : string) (sp : Store) (sent : string)
    : HTTPTransport :=
  MkTransport (fun auth r => Some (RequirePullToken token (serve_cas um sp) auth r)) sent.

Lemma read_full_short n data : Z.of_nat (length data) <= n -> read_full n data = (data, []).
Proof.
  revert n. induction data as [|c data IH]; intros n Hn; [done|]. cbn [read_full length] in *.
  destruct (Z.ltb_spec 0 n); [|lia]. by rewrite IH by lia.
Qed.

Lemma pull_chunks_total now remote ds : forall s,
  (forall d, d ∈ ds -> Validate d = true /\ exists b,
     remote_chunk remote d = Some (Some b) /\ digestBytes b = d /\ Z.of_nat (length b) <= ChunkSize) ->
  exists s', pull_chunks (fun _ => true) now s remote ds = (s', Ok ()).
Proof.
  induction ds as [|d ds IH]; intros s Hd; cbn [pull_chunks]; [eauto|].
  destruct (Hd d ltac:(constructor)) as (Hv & b & Hb & Hdg & Hl).
  unfold pullChunk, PutChunk. rewrite Hb, Hv. cbn [negb].
  rewrite read_full_short by lia. rewrite (proj2 (Z.ltb_ge _ _)) by lia.
  rewrite Hdg, String.eqb_refl. cbn [negb writeChunk res_map_err].
  apply IH. intros d' Hd'. apply Hd. by constructor.
Qed.

Lemma peer_manifest um token sp m :
  token <> EmptyString -> manifests sp !! manifest_digest m = Some (Canonical m) -> manifest_ok m ->
  http_GetManifest um (peer_transport um token sp token) (manifest_digest m) = Some (sorted_manifest m).
Proof.
  intros Ht Hm Hok. unfold http_GetManifest, peer_transport, authorize, RequirePullToken.
  cbn [exchange bearerToken]. apply String.eqb_neq in Ht. rewrite Ht. cbn [negb mbind option_bind].
  rewrite String.eqb_refl. cbn [negb serve_cas]. unfold getManifest, GetManifest.
  assert (Validate (manifest_digest m) = true) as -> by apply Validate_digest. cbn [negb].
  rewrite Hm, decode_Canonical by done. cbn [status reply Z.eqb negb].
  rewrite Canonical_sorted. by apply decode_Canonical.
Qed.

Lemma peer_chunk um token sp d b :
  token <> EmptyString -> Validate d = true -> content sp d = Some b ->
  http_GetChunk (peer_transport um token sp token) d = Some (Some b).
Proof.
  intros Ht Hv Hb. unfold http_GetChunk, peer_transport, authorize, RequirePullToken.
  cbn [exchange bearerToken]. apply String.eqb_neq in Ht. rewrite Ht. cbn [negb mbind option_bind].
  rewrite String.eqb_refl. cbn [negb serve_cas]. unfold getChunk. rewrite Hv. cbn [negb].
  unfold content in Hb. apply fmap_Some in Hb as [[b' t] [-> Hbb]]. by rewrite Hbb.
Qed.
Lemma pull_chunks_only now remote S ds : forall s s' r,
  holds_only S s ->
  (forall d b, d ∈ ds -> remote_chunk remote d = Some (Some b) -> S b /\ Z.of_nat (length b) <= ChunkSize) ->
  pull_chunks (fun _ => true) now s remote ds = (s', r) -> holds_only S s'.
Proof.
  induction ds as [|d ds IH]; intros s s' r Hon Hd H; cbn [pull_chunks] in H; [by simplify_eq|].
  destruct (pullChunk _ now s remote d) as [s1 r1] eqn:E.
  assert (holds_only S s1) as Hon1.
  { unfold pullChunk, PutChunk in E. destruct (remote_chunk remote d) as [[b|]|] eqn:Hb;
      destruct (Validate d); simplify_eq/=; try done.
    destruct (Hd d b ltac:(constructor) Hb) as [HSb Hl]. rewrite read_full_short in E by lia.
    rewrite (proj2 (Z.ltb_ge _ _)) in E by lia.
    destruct (String.eqb (digestBytes b) d); simplify_eq/=; [|done].
    by apply (writeChunk_only (fun _ => true) now S s d b _ (Ok ()) Hon HSb). }
  destruct r1; [|by simplify_eq]. eapply IH; [done| |exact H]. intros. eapply Hd; [by constructor|done].
Qed.

(** A chunk of the written snapshot, as the peer serves it. *)
Lemma written_chunk fs s files s' m d :
  written fs s files s' m -> d ∈ chunk_digests (sorted_manifest m) ->
  exists b name data, d = digestBytes b /\ file_data fs files name = Some data /\ b ∈ blocks_of data /\
    content s' d = Some b /\ Z.of_nat (length b) <= ChunkSize.
Proof.
  intros Hw (fe & c & Hfe & Hc & ->)%elem_chunk_digests. cbn [Files sorted_manifest] in Hfe.
  rewrite sort_by_perm in Hfe.
  destruct (written_entries _ _ _ _ _ Hw fe Hfe) as (name & data & Hd & ->).
  cbn [Chunks entry_of] in Hc. apply list_elem_of_fmap in Hc as (b & -> & Hb).
  exists b, name, data. cbn [ref_of Digest]. split_and!; try done.
  - by apply (written_files _ _ _ _ _ Hw name data Hd).
  - pose proof (blocks_of_ok data) as Hok. rewrite list.Forall_forall in Hok. by apply Hok.
Qed.

Lemma pull_wrong_token um token sp sent now s d :
  sent <> token -> Validate d = true ->
  Pull (fun _ => true) now s (http_remote um (peer_transport um token sp sent)) d = (s, Err NoRemoteManifest).
Proof.
  intros Hne Hv. unfold Pull. rewrite Hv. cbn [negb remote_manifest http_remote].
  unfold http_GetManifest, peer_transport, RequirePullToken. cbn [exchange mbind option_bind].
  replace (String.eqb _ ("Bearer " +:+ token)) with false; [done|].
  symmetry. apply String.eqb_neq. unfold authorize. cbn [bearerToken].
  destruct (String.eqb sent EmptyString); cbn [negb]; [done|]. intros H. by simplify_eq.
Qed.

(** After the chunks of a written snapshot were pulled, its blocks are held. *)
Lemma pulled_block um token fs sA files sA' m sB now s1 r name data b :
  token <> EmptyString -> written fs sA files sA' m -> store_ok sB ->
  collision_free (fun b => in_play fs sA files b \/ exists d, content sB d = Some b) ->
  pull_chunks (fun _ => true) now sB (http_remote um (peer_transport um token sA' token))
    (MissingChunks sB (sorted_manifest m)) = (s1, r) -> r = Ok () ->
  file_data fs files name = Some data -> b ∈ blocks_of data -> content s1 (digestBytes b) = Some b.
Proof.
  intros Ht Hw HokB Hcf Hp -> Hd Hb. set (S := fun b => _) in Hcf.
  assert (holds_only S s1) as Hon.
  { eapply pull_chunks_only; [|..|exact Hp]; [intros ? ? ?; right; eauto|].
    intros d b' [Hin _]%MissingChunks_spec Hrc.
    destruct (written_chunk _ _ _ _ _ _ Hw Hin) as (b0 & n0 & data0 & -> & Hd0 & Hb0 & Hc & Hl).
    cbn [remote_chunk http_remote] in Hrc.
    rewrite (peer_chunk um token sA' _ b0) in Hrc by (done || apply Validate_digest). simplify_eq.
    split; [left; right; eauto|done]. }
  pose proof Hp as Hp'. apply pull_chunks_spec in Hp' as (Hok1 & _ & Hf & Hv); [|done].
  assert (digestBytes b ∈ chunk_digests (sorted_manifest m)) as Hin.
  { apply elem_chunk_digests. exists (entry_of name data), (ref_of b). cbn [Files sorted_manifest].
    rewrite sort_by_perm. split_and!; [by apply (written_files _ _ _ _ _ Hw name data Hd)| |done].
    apply list_elem_of_fmap. eauto. }
  assert (exists b', content s1 (digestBytes b) = Some b') as [b' Hb'].
  { destruct (HasChunk sB (digestBytes b)) eqn:E.
    - apply HasChunk_spec in E as [Hvd [b' Hb']]. exists b'. rewrite Hf; [done|].
      rewrite MissingChunks_spec. intros [_ E]. apply not_true_iff_false in E.
      apply E, HasChunk_spec. eauto.
    - destruct (Hv eq_refl (digestBytes b)) as (_ & b' & ? & _); [by apply MissingChunks_spec|eauto]. }
  rewrite Hb'. f_equal. apply Hcf; [by eapply Hon|left; right; eauto|].
  apply Hok1; [done|apply Validate_digest].
Qed.

(** C35. Build once, distribute: a snapshot written on one node is pulled by another
    node over the token-gated surface, and there too every file is
    reconstructed byte for byte, whatever chunks the second node already held.
    With any other credential the pull fails before anything is stored. *)
Theorem distribution_roundtrip um cok sok nowA nowB fs sA files meta token sB :
  token <> EmptyString -> store_ok sA -> store_ok sB -> meta_ok meta -> storable fs files ->
  collision_free (fun b => in_play fs sA files b \/ exists d, content sB d = Some b) ->
  exists sA' m,
    PutSnapshot (fun _ => true) nowA fs sA files meta = (sA', Ok m) /\
    (forall sent, sent <> token ->
       Pull (fun _ => true) nowB sB (http_remote um (peer_transport um token sA' sent)) (manifest_digest m)
       = (sB, Err NoRemoteManifest)) /\
    exists sB',
      Pull (fun _ => true) nowB sB (http_remote um (peer_transport um token sA' token)) (manifest_digest m)
      = (sB', Ok ()) /\
      forall name data fs' dst,
        file_data fs files name = Some data -> cok dst = true -> sok dst = true ->
        exists s'', MaterializeFileTo um cok sok nowB sB' fs' (manifest_digest m) name dst
                    = (s'', write_file fs' dst data, Ok ()).
Proof.
  intros Ht HokA HokB Hmeta Hst Hcf.
  destruct (PutSnapshot_written nowA fs sA files meta) as (sA' & m & Hput & Hw); try done.
  { intros a b Ha Hb. apply Hcf; by left. }
  exists sA', m. split; [done|].
  assert (Validate (manifest_digest m) = true) as Hvd by apply Validate_digest.
  split; [intros sent Hsent; by apply pull_wrong_token|].
  set (rem := http_remote um (peer_transport um token sA' token)).
  assert (remote_manifest rem (manifest_digest m) = Some (sorted_manifest m)) as Hrm
    by (apply peer_manifest; [done|apply Hw|apply Hw]).
  destruct (pull_chunks_total nowB rem (MissingChunks sB (sorted_manifest m)) sB) as [s1 Hp].
  { intros d [Hd _]%MissingChunks_spec.
    destruct (written_chunk _ _ _ _ _ _ Hw Hd) as (b & n & data & -> & _ & _ & Hc & Hl).
    split; [apply Validate_digest|]. exists b. split_and!; [|done|done].
    apply peer_chunk; [done|apply Validate_digest|done]. }
  eexists. split.
  { unfold Pull. rewrite Hvd, Hrm, sorted_manifest_digest, String.eqb_refl, Hp.
    cbn [negb]. unfold PutManifest, writeManifest. reflexivity. }
  intros name data fs' dst Hd Hc Hs.
  eapply (written_materialize um cok sok nowB fs sA files sA' m); try done.
  - cbn [manifests]. by rewrite sorted_manifest_digest, Canonical_sorted, lookup_insert_eq.
  - intros b Hb. by eapply (pulled_block um token fs sA files sA' m sB nowB s1 (Ok ()) name data).
Qed.
End Transfer.

(** ** Verification of on-disk files against a manifest *)
Module VerifyFacts.
Import Chunk Manifest Store StoreFacts.

Lemma same_refs_spec want got :
  length want = length got -> same_refs want got = true <-> want = got.
Proof.
  revert got. induction want as [|w want IH]; intros [|g got] Hl; try done. simpl in Hl.
  cbn [same_refs]. destruct w as [wd wz], g as [gd gz]. cbn [Digest Size].
  destruct (String.eqb_spec wd gd) as [->|Hd], (Z.eqb_spec wz gz) as [->|Hz]; cbn [negb orb].
  - rewrite IH by congruence. split; [by intros ->|by injection 1].
  - split; [done|]. injection 1. congruence.
  - split; [done|]. injection 1. congruence.
  - split; [done|]. injection 1. congruence.
Qed.

Lemma compareChunks_spec name want got : compareChunks name want got = Ok () <-> want = got.
Proof.
  unfold compareChunks. destruct (Nat.eqb_spec (length want) (length got)) as [Hl|Hl]; cbn [negb].
  - rewrite <- (same_refs_spec want got Hl). destruct (same_refs want got); [done|]. by split.
  - split; [done|]. by intros ->.
Qed.

Lemma by_name_fold fes (acc : gmap string FileEntry) n :
  NoDup (map Name fes) ->
  fold_left (fun acc fe => <[Name fe := fe]> acc) fes acc !! n =
  match List.find (fun fe => String.eqb (Name fe) n) fes with Some fe => Some fe | None => acc !! n end.
Proof.
  revert acc. induction fes as [|fe fes IH]; intros acc Hnd; [done|].
  cbn [map] in Hnd. apply list.NoDup_cons in Hnd as [Hn Hnd]. cbn [fold_left List.find].
  rewrite IH by done. destruct (String.eqb_spec (Name fe) n) as [<-|Hne].
  - rewrite lookup_insert_eq. destruct (List.find _ fes) as [fe'|] eqn:E; [|done].
    exfalso. apply find_some in E as [Hin He]. apply String.eqb_eq in He. apply Hn.
    rewrite <- He. apply list_elem_of_fmap. exists fe'. by rewrite list_elem_of_In.
  - destruct (List.find _ fes); [done|]. by rewrite lookup_insert_ne.
Qed.

Lemma by_name_elem m fe :
  fe ∈ Files m -> NoDup (map Name (Files m)) -> by_name m !! Name fe = Some fe.
Proof. intros. unfold by_name. by rewrite by_name_fold, (find_entry fe). Qed.

Lemma by_name_not_elem m n :
  NoDup (map Name (Files m)) -> ~ (n ∈ map Name (Files m)) -> by_name m !! n = None.
Proof.
  intros Hnd Hn. unfold by_name. rewrite by_name_fold by done.
  destruct (List.find _ (Files m)) as [fe|] eqn:E; [|by rewrite lookup_empty].
  exfalso. apply Hn. apply find_some in E as [Hin He]. apply String.eqb_eq in He. rewrite <- He.
  apply list_elem_of_fmap. exists fe. by rewrite list_elem_of_In.
Qed.

(** The file [path] holds exactly the chunks the manifest records for [name]. *)
Definition file_matches (fs : fs_t) (m : Manifest) (name path : string) : Prop :=
  exists fe data, by_name m !! name = Some fe /\ read_file fs path = Some data /\
    Chunks fe = map ref_of (blocks_of data).

Lemma verify_spec fs m files :
  VerifyFilesAgainstManifest fs m files = Ok () <->
  Forall (fun np => file_matches fs m np.1 np.2) files.
Proof.
  induction files as [|[name path] files IH]; cbn [VerifyFilesAgainstManifest]; [by split|].
  rewrite list.Forall_cons, <- IH. unfold file_matches, chunkFile. cbn [fst snd].
  destruct (by_name m !! name) as [fe|].
  2:{ split; [done|]. by intros [(? & ? & ? & _) _]. }
  destruct (read_file fs path) as [data|]; cbn [mbind option_bind].
  2:{ split; [done|]. by intros [(? & ? & _ & ? & _) _]. }
  destruct (compareChunks name (Chunks fe) _) as [[]|e] eqn:E; cbn [res_bind].
  - apply compareChunks_spec in E. split; [intros; split; [by exists fe, data|done]|by intros [_ ?]].
  - split; [done|]. intros [(fe' & data' & ? & ? & Hc) _]. simplify_eq.
    apply compareChunks_spec with (name := name) in Hc. congruence.
Qed.

Lemma ref_list_inj S bs bs' :
  collision_free S -> Forall S bs -> Forall S bs' -> map ref_of bs = map ref_of bs' -> bs = bs'.
Proof.
  intros Hcf Hb. revert bs'. induction Hb as [|b bs Hb Hbs IH]; intros bs' Hb' H.
  { by destruct bs'. }
  destruct Hb' as [|b' bs' Hb' Hbs']; [done|].
  pose proof (f_equal (fun l => Digest (List.hd (ref_of b) l)) H) as Hd.
  pose proof (f_equal (@List.tl _) H) as Hr. cbn [List.hd List.tl map Digest ref_of] in Hd, Hr.
  f_equal; [by apply Hcf|by apply IH].
Qed.

(** Verification accepts exactly the files whose bytes are the recorded ones:
    against a manifest with distinct names whose entry for a file was computed
    from [orig], a file passes if and only if it can be read and holds [orig],
    provided SHA-256 separates the blocks of the two.  A name the manifest does
    not record never passes. *)
Theorem verify_exact fs m name path orig :
  entry_of name orig ∈ Files m -> NoDup (map Name (Files m)) ->
  (forall data, read_file fs path = Some data ->
     collision_free (fun b => b ∈ blocks_of orig \/ b ∈ blocks_of data)) ->
  (VerifyFilesAgainstManifest fs m [(name, path)] = Ok () <-> read_file fs path = Some orig) /\
  (forall other, ~ (other ∈ map Name (Files m)) ->
     VerifyFilesAgainstManifest fs m [(other, path)] = Err (NotInManifest other)).
Proof.
  intros Hin Hnd Hcf. split.
  - rewrite verify_spec, list.Forall_cons. cbn [fst snd]. unfold file_matches.
    pose proof (by_name_elem m (entry_of name orig) Hin Hnd) as Hby. cbn [Name entry_of] in Hby.
    rewrite Hby. split.
    + intros [(fe & data & Hfe & Hd & Hc) _]. simplify_eq. rewrite Hd. f_equal.
      cbn [Chunks entry_of] in Hc. rewrite <- (concat_blocks_of data), <- (concat_blocks_of orig).
      f_equal. symmetry. eapply ref_list_inj; [by apply Hcf| | |done]; apply list.Forall_forall; tauto.
    + intros Hd. split; [|constructor]. exists (entry_of name orig), orig. done.
  - intros other Ho. cbn [VerifyFilesAgainstManifest]. by rewrite by_name_not_elem.
Qed.

(** The manifest with other file sizes recorded. *)
Definition resized (f : FileEntry -> Z) (fe : FileEntry) : FileEntry := MkEntry (Name fe) (f fe) (Chunks fe).
Definition with_sizes (f : FileEntry -> Z) (m : Manifest) : Manifest :=
  MkManifest (map (resized f) (Files m)) (VMMVersion m) (CreatedUnix m) (SnapshotFormatVersion m)
    (CPUModel m) (KernelVersion m) (ConfigHash m).

Lemma by_name_resized f fes (acc : gmap string FileEntry) :
  fold_left (fun acc fe => <[Name fe := fe]> acc) (map (resized f) fes) (resized f <$> acc)
  = resized f <$> fold_left (fun acc fe => <[Name fe := fe]> acc) fes acc.
Proof.
  revert acc. induction fes as [|fe fes IH]; intros acc; [done|]. cbn [map fold_left].
  rewrite <- IH. f_equal. by rewrite fmap_insert.
Qed.

(** The size a manifest records for a file plays no part in its verification:
    whatever sizes a manifest carries, the same files are accepted and refused.
    The comment of [VerifyFilesAgainstManifest] says the size must match. *)
Theorem verify_ignores_size fs m files f :
  VerifyFilesAgainstManifest fs (with_sizes f m) files = VerifyFilesAgainstManifest fs m files.
Proof.
  assert (H : by_name (with_sizes f m) = resized f <$> by_name m).
  { unfold by_name, with_sizes. cbn [Files]. by rewrite <- by_name_resized, fmap_empty. }
  induction files as [|[n p] files IH]; [done|]. cbn [VerifyFilesAgainstManifest].
  rewrite H, lookup_fmap, IH. by destruct (by_name m !! n).
Qed.
End VerifyFacts.

Module Evict.
Import Chunk Manifest Store StoreFacts.

Section evict.
Variable unmarshal_other : string -> option Manifest.
Variables write_ok remove_ok : string -> bool.

Definition Pin (s : Store) (d : string) : Store * res cas_error () :=
  if write_ok d then (MkStore (chunks s) (manifests s) ({[d]} ∪ pins s), Ok ()) else (s, Err WriteFailed).

Definition Unpin (s : Store) (d : string) : Store * res cas_error () :=
  if decide (d ∈ pins s) then
    if remove_ok d then (MkStore (chunks s) (manifests s) (pins s ∖ {[d]}), Ok ()) else (s, Err WriteFailed)
  else (s, Ok ()).

(** [pinnedChunks]: a pin whose manifest cannot be read pins nothing. *)
Definition pinnedChunks (s : Store) : gset string :=
  list_to_set (concat (map (fun d => match GetManifest unmarshal_other s d with
                                     | Ok m => chunk_digests m
                                     | Err _ => []
                                     end) (elements (pins s)))).

Record chunkStat := MkStat { cs_digest : string; cs_size : Z; cs_mtime : Z }.

Definition stat_of (kv : string * (bytes * Z)) : chunkStat :=
  MkStat kv.1 (Z.of_nat (length kv.2.1)) kv.2.2.

Definition scanChunks (s : Store) : list chunkStat := map stat_of (map_to_list (chunks s)).

Definition total_size (stats : list chunkStat) : Z :=
  fold_left (fun total st => i64 (total + cs_size st)) stats 0.

Definition totalChunkBytes (s : Store) : Z := total_size (scanChunks s).

(** The eviction loop: the store, the bytes freed and the chunk whose removal
    failed, if one did. *)
Fixpoint evict_loop (maxBytes : Z) (pinned : gset string) (s : Store) (stats : list chunkStat)
    (total freed : Z) : Store * Z * option string :=
  match stats with
  | [] => (s, freed, None)
  | st :: stats' =>
      if total <=? maxBytes then (s, freed, None)
      else if decide (cs_digest st ∈ pinned) then evict_loop maxBytes pinned s stats' total freed
      else if negb (remove_ok (cs_digest st)) then (s, freed, Some (cs_digest st))
      else evict_loop maxBytes pinned (with_chunks s (delete (cs_digest st) (chunks s))) stats'
             (i64 (total - cs_size st)) (i64 (freed + cs_size st))
  end.

Definition older (a b : chunkStat) : bool := cs_mtime a <? cs_mtime b.

(** [EvictToFit] with the result of [sort.Slice] by modification time as an
    argument: chunks with equal times come in an unspecified order. *)
Definition EvictToFit (sort_slice : list chunkStat -> list chunkStat) (s : Store) (maxBytes : Z)
    : Store * Z * option string :=
  let stats := scanChunks s in
  let pinned := pinnedChunks s in
  let total := total_size stats in
  if total <=? maxBytes then (s, 0, None)
  else evict_loop maxBytes pinned s (sort_slice stats) total 0.
End evict.

(** ** What eviction guarantees *)

Fixpoint sum_size (stats : list chunkStat) : Z :=
  match stats with [] => 0 | st :: stats' => cs_size st + sum_size stats' end.

#[global] Instance sum_size_proper : Proper (Permutation ==> eq) sum_size.
Proof. intros l k H. induction H; simpl; lia. Qed.

Lemma sum_size_app l k : sum_size (l ++ k) = sum_size l + sum_size k.
Proof. induction l; simpl; lia. Qed.

Lemma total_size_sum stats :
  Forall (fun st => 0 <= cs_size st) stats -> sum_size stats < 2 ^ 63 -> total_size stats = sum_size stats.
Proof.
  unfold total_size. assert (forall acc, 0 <= acc -> Forall (fun st => 0 <= cs_size st) stats ->
    acc + sum_size stats < 2 ^ 63 ->
    fold_left (fun total st => i64 (total + cs_size st)) stats acc = acc + sum_size stats) as H.
  { induction stats as [|st stats IH]; intros acc Ha Hs Hb; cbn [fold_left sum_size] in *; [lia|].
    inversion Hs as [|? ? Hst Hrest]; subst.
    assert (0 <= sum_size stats) by (clear -Hrest; induction Hrest; simpl; lia).
    rewrite i64_small by (unfold is_i64; lia). rewrite IH; [lia|lia|done|lia]. }
  intros. by apply (H 0).
Qed.

Lemma scan_nonneg s : Forall (fun st => 0 <= cs_size st) (scanChunks s).
Proof. apply list.Forall_forall. intros st (kv & -> & _)%list_elem_of_fmap. cbn. lia. Qed.

Lemma sum_nonneg s : 0 <= sum_size (scanChunks s).
Proof. pose proof (scan_nonneg s) as H. induction H; simpl; lia. Qed.

Lemma scan_delete s d x :
  chunks s !! d = Some x ->
  Permutation (scanChunks s) (stat_of (d, x) :: scanChunks (with_chunks s (delete d (chunks s)))).
Proof.
  intros H. unfold scanChunks, with_chunks. cbn [chunks].
  change (stat_of (d, x) :: map stat_of ?l) with (map stat_of ((d, x) :: l)).
  apply Permutation_map. symmetry. by apply map_to_list_delete.
Qed.

Lemma scan_lookup s st :
  st ∈ scanChunks s -> exists x, chunks s !! cs_digest st = Some x /\ st = stat_of (cs_digest st, x).
Proof.
  intros ([d x] & -> & H)%list_elem_of_fmap. exists x. by apply elem_of_map_to_list in H.
Qed.

Definition unpinned (pinned : gset string) (st : chunkStat) : bool :=
  negb (bool_decide (cs_digest st ∈ pinned)).

Lemma evict_loop_spec remove_ok maxBytes pinned stats : forall s kept total freed s' freed' err,
  Permutation (scanChunks s) (kept ++ stats) -> total = sum_size (scanChunks s) ->
  0 <= freed -> freed + total < 2 ^ 63 ->
  evict_loop remove_ok maxBytes pinned s stats total freed = (s', freed', err) ->
  manifests s' = manifests s /\ pins s' = pins s /\
  exists pre post, stats = pre ++ post /\
    Permutation (scanChunks s) (List.filter (unpinned pinned) pre ++ scanChunks s') /\
    chunks s' ⊆ chunks s /\
    freed' = freed + sum_size (List.filter (unpinned pinned) pre) /\
    (err = None -> sum_size (scanChunks s') <= maxBytes \/ post = []).
Proof.
  induction stats as [|st stats IH]; intros s kept total freed s' freed' err Hp Ht Hf Hb H;
    cbn [evict_loop] in H.
  { simplify_eq. split_and!; try done. exists [], []. split_and!; simpl; try done; [lia|by right]. }
  destruct (Z.leb_spec total maxBytes) as [Hle|Hgt].
  { simplify_eq. split_and!; try done. exists [], (st :: stats). split_and!; simpl; try done; [lia|].
    intros _. by left. }
  case_decide as Hpin.
  - apply (IH s (kept ++ [st])) in H as (Hm & Hpi & pre & post & -> & Hperm & Hsub & Hfr & Hend);
      [|by rewrite <- app_assoc|done|done|done].
    split_and!; try done. exists (st :: pre), post. cbn [List.filter].
    assert (unpinned pinned st = false) as -> by (unfold unpinned; by rewrite bool_decide_true).
    by split_and!.
  - destruct (remove_ok (cs_digest st)); cbn [negb] in H.
    2:{ simplify_eq. split_and!; try done. exists [], (st :: stats). split_and!; simpl; try done; lia. }
    destruct (scan_lookup s st) as (x & Hx & Hst); [rewrite Hp; set_solver|].
    pose proof (scan_delete _ _ _ Hx) as Hd. rewrite <- Hst in Hd.
    set (s1 := with_chunks s (delete (cs_digest st) (chunks s))) in *.
    pose proof (sum_nonneg s1) as Hn1.
    assert (0 <= cs_size st) as Hst0 by (rewrite Hst; cbn; lia).
    assert (sum_size (scanChunks s) = cs_size st + sum_size (scanChunks s1)) as Hsum by (by rewrite Hd).
    rewrite !i64_small in H by (unfold is_i64; lia).
    apply (IH s1 kept) in H as (Hm & Hpi & pre & post & -> & Hperm & Hsub & Hfr & Hend); [| |lia|lia|lia].
    2:{ apply (Permutation_cons_inv (a := st)). rewrite <- Hd, Hp. symmetry. apply Permutation_middle. }
    split_and!; try done. exists (st :: pre), post. cbn [List.filter].
    assert (unpinned pinned st = true) as -> by (unfold unpinned; by rewrite bool_decide_false).
    split_and!; try done; [by rewrite Hd, Hperm| |cbn [sum_size]; lia].
    etrans; [exact Hsub|]. apply delete_subseteq.
Qed.
Lemma NoDup_scan s : NoDup (scanChunks s).
Proof.
  unfold scanChunks. apply (NoDup_fmap_1 cs_digest). rewrite <- list_fmap_compose.
  change (cs_digest ∘ stat_of) with (@fst string (bytes * Z)). apply NoDup_fst_map_to_list.
Qed.

Lemma elem_scan s st : st ∈ scanChunks s -> chunks s !! cs_digest st <> None.
Proof. intros (x & -> & _)%scan_lookup. done. Qed.

Lemma lookup_scan s d x : chunks s !! d = Some x -> stat_of (d, x) ∈ scanChunks s.
Proof. intros H. apply list_elem_of_fmap. exists (d, x). split; [done|]. by apply elem_of_map_to_list. Qed.

Lemma in_order_app_cross less (l k : list chunkStat) x y :
  in_order less (l ++ k) -> x ∈ l -> y ∈ k -> less y x = false.
Proof.
  unfold in_order. intros H Hx Hy. induction l as [|z l IH]; [by apply not_elem_of_nil in Hx|].
  simpl in H. inversion H as [|? ? Hs Hz]; subst. apply elem_of_cons in Hx as [->|Hx]; [|by apply IH].
  rewrite list.Forall_forall in Hz. apply Hz. apply elem_of_app. by right.
Qed.

Section split.
(** The outcome of the loop: the unpinned chunks of a prefix of the sorted list
    were removed. *)
Context (s s' : Store) (pinned : gset string) (pre post : list chunkStat).
Context (Hp : Permutation (scanChunks s) (List.filter (unpinned pinned) pre ++ scanChunks s')).
Context (Hall : Permutation (pre ++ post) (scanChunks s)).

Lemma kept_in_post k :
  k ∈ scanChunks s' -> ~ (cs_digest k ∈ pinned) -> k ∈ post.
Proof using Hp Hall.
  intros Hk Hu. pose proof (NoDup_scan s) as Hnd. rewrite Hp in Hnd.
  apply list.NoDup_app in Hnd as (_ & Hdisj & _).
  assert (k ∈ pre ++ post) as Hin by (rewrite Hall, Hp; apply elem_of_app; by right).
  apply elem_of_app in Hin as [Hin|Hin]; [|done]. exfalso. apply (Hdisj k); [|done].
  apply elem_of_filter_bool. split; [|done]. unfold unpinned. by rewrite bool_decide_false.
Qed.

Lemma gone_in_pre g : g ∈ scanChunks s -> chunks s' !! cs_digest g = None -> g ∈ pre.
Proof using Hp.
  intros Hg Hn. rewrite Hp, elem_of_app in Hg. destruct Hg as [Hg|Hg].
  - by apply elem_of_filter_bool in Hg as [_ ?].
  - by apply elem_scan in Hg.
Qed.
End split.

(** Eviction never deletes a chunk that a pinned manifest references, changes no
    chunk it keeps, and reports exactly the bytes it freed.  When no removal
    fails it ends within the budget, or with nothing but pinned chunks left.  It
    evicts in least-recently-used order: no unpinned chunk that survives is
    older than one that was evicted. *)
Theorem EvictToFit_safe um rok sort_slice s maxBytes s' freed err :
  (forall l, Permutation (sort_slice l) l) -> (forall l, in_order older (sort_slice l)) ->
  sum_size (scanChunks s) < 2 ^ 63 ->
  EvictToFit um rok sort_slice s maxBytes = (s', freed, err) ->
  (forall d x, d ∈ pinnedChunks um s -> chunks s !! d = Some x -> chunks s' !! d = Some x) /\
  chunks s' ⊆ chunks s /\ manifests s' = manifests s /\ pins s' = pins s /\
  freed = sum_size (scanChunks s) - sum_size (scanChunks s') /\
  (err = None -> sum_size (scanChunks s') <= maxBytes \/
                 forall d, is_Some (chunks s' !! d) -> d ∈ pinnedChunks um s) /\
  (forall gone kept, gone ∈ scanChunks s -> chunks s' !! cs_digest gone = None ->
     kept ∈ scanChunks s' -> ~ (cs_digest kept ∈ pinnedChunks um s) -> cs_mtime gone <= cs_mtime kept).
Proof.
  intros Hperm Hord Hsum H. unfold EvictToFit in H.
  pose proof (sum_nonneg s) as Hnn.
  rewrite (total_size_sum _ (scan_nonneg s) Hsum) in H.
  destruct (Z.leb_spec (sum_size (scanChunks s)) maxBytes) as [Hle|_].
  { simplify_eq. split_and!; try done; [lia|by left|]. intros g k Hg Hn. by apply elem_scan in Hg. }
  apply (evict_loop_spec _ _ _ _ _ []) in H as (Hm & Hpi & pre & post & Hst & Hp & Hsub & Hf & Hend);
    [|by rewrite Hperm|done|done|lia].
  assert (Hnd : NoDup (List.filter (unpinned (pinnedChunks um s)) pre ++ scanChunks s'))
    by (rewrite <- Hp; apply NoDup_scan).
  apply list.NoDup_app in Hnd as (_ & Hdisj & _).
  split_and!; try done.
  - intros d x Hd Hx. pose proof (lookup_scan _ _ _ Hx) as Hin. rewrite Hp, elem_of_app in Hin.
    destruct Hin as [Hin|Hin].
    + apply elem_of_filter_bool in Hin as [Hu _]. unfold unpinned in Hu. cbn [stat_of cs_digest fst] in Hu.
      by rewrite bool_decide_true in Hu.
    + apply elem_scan in Hin. cbn [stat_of cs_digest fst] in Hin.
      destruct (chunks s' !! d) as [y|] eqn:Hy; [|done]. by rewrite <- (lookup_weaken _ _ _ _ Hy Hsub), Hx.
  - rewrite Hf, Hp, sum_size_app. lia.
  - intros He. destruct (Hend He) as [Hle|Hpost]; [by left|right]. intros d [x Hx].
    destruct (decide (d ∈ pinnedChunks um s)) as [|Hu]; [done|exfalso].
    apply lookup_scan in Hx. eapply kept_in_post in Hx; [|exact Hp|by rewrite <- Hst|done].
    subst post. by apply not_elem_of_nil in Hx.
  - intros gone kept Hg Hn Hk Hu. 
    pose proof (gone_in_pre _ _ _ _ Hp _ Hg Hn) as Hpre.
    eapply kept_in_post in Hk; [|exact Hp|by rewrite <- Hst|done].
    pose proof (Hord (scanChunks s)) as Ho. rewrite Hst in Ho.
    apply (in_order_app_cross _ _ _ _ _ Ho Hpre) in Hk. unfold older in Hk. by apply Z.ltb_ge in Hk.
Qed.
End Evict.

(** ** Witnesses *)
Module CasExamples.
Import Chunk Manifest Store StoreFacts Transfer VerifyFacts Evict.

Definition byteA : bytes := ["A"%char].
Definition byteB : bytes := ["B"%char].
Definition ex_fs : fs_t := {[ ["d"; "mem"] := byteA; ["d"; "vm"] := byteB ]}.
Definition ex_files : gmap string string := {[ "mem" := "/d/mem"; "vmstate" := "/d/vm" ]}.
Definition ex_meta : Metadata := MkMeta 1 "v1.15.0" "cpu" "6.1" "cfg" 0.
Definition ex_empty : Store := MkStore ∅ ∅ ∅.
(** A node that already holds one of the chunks. *)
Definition ex_half : Store := MkStore {[ digestBytes byteA := (byteA, 5) ]} ∅ ∅.
Definition yes (_ : string) : bool := true.

Lemma ex_files_data n data :
  file_data ex_fs ex_files n = Some data -> n = "mem" /\ data = byteA \/ n = "vmstate" /\ data = byteB.
Proof.
  unfold file_data, ex_files. intros (p & Hp & Hr)%bind_Some.
  apply lookup_insert_Some in Hp as [[<- <-]|[_ Hp]].
  - left. split; [done|]. vm_compute in Hr. by simplify_eq.
  - apply lookup_singleton_Some in Hp as [<- <-]. right. split; [done|]. vm_compute in Hr. by simplify_eq.
Qed.

Lemma ex_blocks n data b :
  file_data ex_fs ex_files n = Some data -> b ∈ blocks_of data -> b = byteA \/ b = byteB.
Proof.
  intros Hd Hb. apply ex_files_data in Hd as [[_ ->]|[_ ->]]; vm_compute in Hb; apply list_elem_of_singleton in Hb; auto.
Qed.

Lemma ex_separates (P : bytes -> Prop) :
  (forall b, P b -> b = byteA \/ b = byteB) -> collision_free P.
Proof.
  intros H a b Ha Hb Hd. apply H in Ha, Hb.
  assert (digestBytes byteA <> digestBytes byteB) as Hne by (vm_compute; discriminate).
  destruct Ha as [-> | ->], Hb as [-> | ->]; [reflexivity|congruence|congruence|reflexivity].
Qed.

Lemma ex_half_content d b : content ex_half d = Some b -> d = digestBytes byteA /\ b = byteA.
Proof.
  unfold content, ex_half. cbn [chunks]. intros (x & Hx & ->)%fmap_Some.
  apply lookup_singleton_Some in Hx as [<- <-]. done.
Qed.

Lemma ex_half_ok : store_ok ex_half.
Proof. by intros d b [-> ->]%ex_half_content _. Qed.

Lemma ex_empty_ok : store_ok ex_empty.
Proof. intros d b H. unfold content, ex_empty in H. cbn [chunks] in H. by rewrite lookup_empty in H. Qed.

Lemma ex_meta_ok : meta_ok ex_meta.
Proof. unfold meta_ok, is_i64. by split_and!. Qed.

Lemma ex_storable : storable ex_fs ex_files.
Proof.
  intros n [p Hp]. unfold ex_files in Hp. apply lookup_insert_Some in Hp as [[<- <-]|[_ Hp]].
  - exists byteA. by split_and!.
  - apply lookup_singleton_Some in Hp as [<- <-]. exists byteB. by split_and!.
Qed.

Lemma ex_in_play b : in_play ex_fs ex_half ex_files b -> b = byteA \/ b = byteB.
Proof.
  intros [(d & Hd)|(n & data & Hd & Hb)]; [left|by eapply ex_blocks].
  by apply ex_half_content in Hd as [_ ->].
Qed.

(** A node that already holds one chunk stores a two-file snapshot. *)
Lemma snapshot_roundtrip_witness :
  exists s' m,
    PutSnapshot (fun _ => true) 7 ex_fs ex_half ex_files ex_meta = (s', Ok m) /\
    exists s'', MaterializeFileTo (fun _ => None) yes yes 7 s' ∅ (manifest_digest m) "mem" "/t/mem"
                = (s'', write_file ∅ "/t/mem" byteA, Ok ()).
Proof.
  destruct (snapshot_roundtrip (fun _ => None) yes yes 7 ex_fs ex_half ex_files ex_meta)
    as (s' & m & Hp & Hm).
  - exact ex_half_ok.
  - apply ex_separates, ex_in_play.
  - exact ex_meta_ok.
  - exact ex_storable.
  - exists s', m. split; [exact Hp|]. by apply Hm.
Defined.

(** The second node holds one of the chunks and fetches the other. *)
Lemma distribution_roundtrip_witness :
  exists sA' m sB',
    PutSnapshot (fun _ => true) 7 ex_fs ex_empty ex_files ex_meta = (sA', Ok m) /\
    Pull (fun _ => true) 9 ex_half
      (http_remote (fun _ => None) (peer_transport (fun _ => None) "tok" sA' "tok")) (manifest_digest m)
      = (sB', Ok ()) /\
    exists s'', MaterializeFileTo (fun _ => None) yes yes 9 sB' ∅ (manifest_digest m) "vmstate" "/t/vm"
                = (s'', write_file ∅ "/t/vm" byteB, Ok ()).
Proof.
  destruct (distribution_roundtrip (fun _ => None) yes yes 7 9 ex_fs ex_empty ex_files ex_meta "tok" ex_half)
    as (sA' & m & Hput & _ & sB' & Hpull & Hm).
  - done.
  - exact ex_empty_ok.
  - exact ex_half_ok.
  - exact ex_meta_ok.
  - exact ex_storable.
  - apply ex_separates. intros b [[[d Hd]|(n & data & Hd & Hb)]|(d & Hc)].
    + unfold content, ex_empty in Hd. cbn [chunks] in Hd. by rewrite lookup_empty in Hd.
    + by eapply ex_blocks.
    + left. by apply ex_half_content in Hc as [_ ->].
  - exists sA', m, sB'. split; [exact Hput|]. split; [exact Hpull|]. by apply Hm.
Defined.

(** A peer that serves a one-chunk manifest with the wrong bytes. *)
Definition ex_entry : FileEntry := MkEntry "mem" 1 [MkRef (digestBytes byteB) 1].
Definition ex_manifest : Manifest := manifestFrom [ex_entry] ex_meta.
Definition ex_bad_peer : Transport := MkRemote (fun _ => Some ex_manifest) (fun _ => Some (Some byteA)).

Lemma Pull_sound_witness :
  exists s', Pull yes 3 ex_half ex_bad_peer (manifest_digest ex_manifest)
             = (s', Err (LocalError (BadDigest (digestBytes byteB) (digestBytes byteA)))) /\ store_ok s'.
Proof.
  destruct (Pull yes 3 ex_half ex_bad_peer (manifest_digest ex_manifest)) as [s' r] eqn:E.
  destruct (Pull_sound (fun _ => None) yes yes yes 3 ex_half ex_bad_peer _ s' r ex_half_ok E) as (Hok & _ & _).
  exists s'. split; [|exact Hok].
  assert (Hr : (Pull yes 3 ex_half ex_bad_peer (manifest_digest ex_manifest)).2
               = Err (LocalError (BadDigest (digestBytes byteB) (digestBytes byteA))))
    by (vm_compute; reflexivity).
  rewrite E in Hr. cbn [snd] in Hr. rewrite Hr. reflexivity.
Defined.

(** The file on disk differs from the recorded one and is refused. *)
Lemma verify_exact_witness :
  VerifyFilesAgainstManifest ex_fs ex_manifest [("mem", "/d/mem")] <> Ok () /\
  VerifyFilesAgainstManifest ex_fs ex_manifest [("mem", "/d/vm")] = Ok ().
Proof.
  assert (Hin : entry_of "mem" byteB ∈ Files ex_manifest).
  { apply list_elem_of_singleton. vm_compute. reflexivity. }
  assert (Hnd : NoDup (map Name (Files ex_manifest))) by apply NoDup_singleton.
  assert (Hone : forall c b, b ∈ blocks_of [c] -> b = [c]).
  { intros c b Hb. change (blocks_of [c]) with [[c]] in Hb. by apply list_elem_of_singleton in Hb. }
  split.
  - intros H. apply (verify_exact ex_fs ex_manifest "mem" "/d/mem" byteB Hin Hnd) in H.
    + vm_compute in H. discriminate.
    + intros data Hd. vm_compute in Hd. injection Hd as <-. apply ex_separates.
      intros b [Hb|Hb]; apply Hone in Hb; [right|]; auto.
  - apply (verify_exact ex_fs ex_manifest "mem" "/d/vm" byteB Hin Hnd).
    + intros data Hd. vm_compute in Hd. injection Hd as <-. apply ex_separates.
      intros b [Hb|Hb]; apply Hone in Hb; right; exact Hb.
    + vm_compute. reflexivity.
Defined.

(** Three chunks, one of them pinned; a budget of one byte evicts the older
    unpinned one, then the other. *)
Definition ex_evict_store : Store :=
  MkStore (<[digestBytes byteA := (byteA, 3)]> {[ digestBytes byteB := (byteB, 1); "zz" := (byteA, 2) ]})
          {[ manifest_digest ex_manifest := Canonical ex_manifest ]}
          {[ manifest_digest ex_manifest ]}.

Lemma older_order_facts :
  (forall l, Permutation (sort_by older l) l) /\ (forall l, in_order older (sort_by older l)).
Proof.
  split; [intros; apply sort_by_perm|]. intros l. apply sort_by_in_order; unfold older.
  - intros x y H%Z.ltb_lt. apply Z.ltb_ge. lia.
  - intros x y z H1%Z.ltb_ge H2%Z.ltb_ge. apply Z.ltb_ge. lia.
Qed.

Lemma EvictToFit_safe_witness :
  exists s' freed,
    EvictToFit (fun _ => None) yes (sort_by older) ex_evict_store 1 = (s', freed, None) /\
    freed = 2 /\ chunks s' !! digestBytes byteB = Some (byteB, 1).
Proof.
  destruct (EvictToFit (fun _ => None) yes (sort_by older) ex_evict_store 1) as [[s' freed] err] eqn:E.
  assert (H : (EvictToFit (fun _ => None) yes (sort_by older) ex_evict_store 1).1.2 = 2 /\
              (EvictToFit (fun _ => None) yes (sort_by older) ex_evict_store 1).2 = None)
    by (vm_compute; split; reflexivity).
  rewrite E in H. cbn in H. destruct H as [-> ->]. exists s', 2. split; [reflexivity|]. split; [reflexivity|].
  refine (proj1 (EvictToFit_safe (fun _ => None) yes (sort_by older) ex_evict_store 1 s' 2 None
    (proj1 older_order_facts) (proj2 older_order_facts) _ E) (digestBytes byteB) (byteB, 1) _ _).
  - vm_compute. reflexivity.
  - assert (Hb : bool_decide (digestBytes byteB ∈ pinnedChunks (fun _ => None) ex_evict_store) = true)
      by (vm_compute; reflexivity).
    exact (proj1 (bool_decide_eq_true _) Hb).
  - vm_compute. reflexivity.
Defined.
End CasExamples.
