(* ===== verification/Wire.v ===== *)
(** What crosses a process boundary: the messages of the control plane and the
    objects of the Kubernetes API.

    - [Guest]: the records of the vsock protocol that messages carry
      (internal/vsock/protocol.go).
    - [Forkd]: the forkd gRPC service (proto/forkd).
    - [Control]: the husk stub's control channel (internal/husk/control.go).
    - [Kube]: the custom resources (api/v1alpha1) and the core objects the
      controllers read and write, field by field as far as the code uses them.
    - [kcall]/[kanswer]: what a controller asks of the API server, of a forkd
      and of a husk stub, and what they may answer. *)
From S2P Require Import Prelude GoLib GoFs Scheduler Gc.

Module Guest.

Record VolumeMountEntry := mkVolumeMountEntry {
  Device : string; vm_MountPath : string; vm_ReadOnly : bool }.
Record NotifyForkedNetwork := mkNotify {
  nf_GuestIP : string; nf_GatewayIP : string; nf_PrefixLen : Z; nf_ResolverIP : string }.
(** internal/firecracker/types.go *)
Record NetworkOverride := mkNetworkOverride { no_IfaceID : string; no_HostDevName : string }.

End Guest.

Module Forkd.

Record NetworkConfig := mkNetworkConfig { nc_EgressPolicy : string; nc_AllowList : list string }.
Record VolumeMount := mkVolumeMount {
  m_Name : string; m_MountPath : string; m_ReadOnly : bool; m_Size : string; m_ForkPolicy : string }.
Record ForkRequest := mkForkRequest {
  q_SnapshotId : string; q_SandboxId : string; q_Env : list (string * string); q_Secrets : list (string * string);
  q_Network : option NetworkConfig; q_ApiToken : string; q_Volumes : list VolumeMount;
  q_EncryptionKey : bytes; q_KekId : string }.
Record ForkResponse := mkForkResponse {
  p_SandboxId : string; p_Endpoint : string; p_ForkTimeMs : SpecFloat.spec_float;
  p_MemoryUniqueBytes : Z; p_MemorySharedBytes : Z }.
Record CreateTemplateRequest := mkCreateTemplateRequest {
  c_TemplateId : string; c_Image : string; c_InitCommands : list string; c_Volumes : list VolumeMount;
  c_EncryptionKey : bytes; c_KekId : string }.
Record SandboxInfo := mkSandboxInfo {
  i_SandboxId : string; i_CreatedAtUnix : Z; i_LastActivityUnix : Z; i_UptimeSeconds : Z }.

(** The calls the controllers make. *)
Inductive forkd_request :=
| QFork (q : ForkRequest)
| QForkRunning (source new : string) (pauseSource : bool) (apiToken : string)
| QTerminate (id : string)
| QListSandboxes
| QCreateTemplate (q : CreateTemplateRequest)
| QPullTemplate (id digest url token : string).

(** What a call returns: ForkRunning the id, endpoint, fork and checkpoint
    times, CreateTemplate the digest. *)
Definition forkd_reply (q : forkd_request) : Type :=
  match q with
  | QFork _ => ForkResponse
  | QForkRunning _ _ _ _ => string * string * SpecFloat.spec_float * SpecFloat.spec_float
  | QListSandboxes => list SandboxInfo
  | QCreateTemplate _ => string
  | QTerminate _ | QPullTemplate _ _ _ _ => unit
  end.

End Forkd.

Module Control.
Import Guest.

(** workspace.Diff *)
Record Diff := mkDiff { Added : list string; Removed : list string; Modified : list string }.

Record ActivateRequest := mkActivate {
  a_SnapshotDir : string; a_ExpectedDigest : string; a_NetworkOverrides : list NetworkOverride;
  a_Env : gmap string string; a_Secrets : gmap string string; a_Network : option NotifyForkedNetwork;
  a_Volumes : list VolumeMountEntry; a_Token : string }.
Record ForkSnapshotRequest := mkForkSnapshot { fs_ForkID : string; fs_SnapshotDir : string; fs_PauseSource : bool }.
Record RemoveForkSnapshotRequest := mkRemove { rf_ForkID : string; rf_SnapshotDir : string }.
Record DehydrateWorkspaceRequest := mkDehydrate {
  dw_ExcludePaths : list string; dw_CapturePaths : list string; dw_ParentManifestDigest : string }.
Record HydrateWorkspaceRequest := mkHydrate { hw_ManifestDigest : string }.

(** The results of successful operations; the latency is in milliseconds. *)
Record ActivateResult := mkActivated { ar_VsockPath : string; ar_LatencyMs : SpecFloat.spec_float }.
Record ForkSnapshotResult := mkForked { fr_SnapshotDir : string; fr_LatencyMs : SpecFloat.spec_float }.
Record DehydrateWorkspaceResult := mkDehydrated {
  dr_ManifestDigest : string; dr_Diff : option Diff; dr_LatencyMs : SpecFloat.spec_float }.

Inductive husk_request :=
| HActivate (q : ActivateRequest)
| HForkSnapshot (q : ForkSnapshotRequest)
| HRemoveForkSnapshot (q : RemoveForkSnapshotRequest)
| HDehydrate (q : DehydrateWorkspaceRequest)
| HHydrate (q : HydrateWorkspaceRequest).

Definition husk_reply (q : husk_request) : Type :=
  match q with
  | HActivate _ => ActivateResult
  | HForkSnapshot _ | HRemoveForkSnapshot _ => ForkSnapshotResult
  | HDehydrate _ => DehydrateWorkspaceResult
  | HHydrate _ => SpecFloat.spec_float
  end.

End Control.

Module Kube.

(** ** Metadata *)

Record OwnerReference := mkOwner { or_Kind : string; or_Name : string; or_UID : string; or_Controller : bool }.

(** The resourceVersion is the revision of the store at which the object was
    last written. *)
Record ObjectMeta := mkMeta {
  Namespace : string; Name : string; GenerateName : string; UID : string; ResourceVersion : Z; Generation : Z;
  Labels : gmap string string; Annotations : gmap string string; Finalizers : list string;
  OwnerReferences : list OwnerReference; CreationTimestamp : time; DeletionTimestamp : time }.

Definition Condition : Type := Gc.Condition.

(** metav1.GetControllerOf *)
Definition GetControllerOf (m : ObjectMeta) : option OwnerReference :=
  List.find or_Controller (OwnerReferences m).

(** A resource.Quantity, in nano units; Value rounds up. *)
Definition Quantity : Type := Z.
Definition quantity (n : Z) : Quantity := n * 1000000000.
Definition Value (q : Quantity) : Z := - ((- q) / 1000000000).

(** ** Templates and pools *)

Record SandboxVolume := mkVolume {
  sv_Name : string; sv_Size : string; sv_ReadOnly : bool; sv_MountPath : string; sv_ForkPolicy : string }.
Record NetworkPolicy := mkNetworkPolicy { Egress : string; Allow : list string }.
Record SandboxTemplate := mkTemplate {
  t_meta : ObjectMeta; Image : string; Init : list string; CPU : Quantity; Memory : Quantity;
  Volumes : list SandboxVolume; Network : option NetworkPolicy; Encrypted : bool }.

Record PoolAutoscaleSpec := mkAutoscale {
  MinWarm : Z; MaxWarm : Z; TargetSpare : Z; ScaleDownCooldownSeconds : Z }.
Record SandboxPoolStatus := mkPoolStatus {
  ReadySnapshots : Z; TotalSnapshots : Z; LastSnapshotTime : time; po_Conditions : list Condition;
  NodeDistribution : gmap string Z; po_TemplateDigest : string; DesiredWarm : Z; LastScaleDownTime : time }.
Record SandboxPool := mkPool {
  po_meta : ObjectMeta; TemplateRef : string; po_Replicas : Z; DrainPolicy : string; Autoscale : option PoolAutoscaleSpec;
  po_status : SandboxPoolStatus }.

Definition DrainKill : string := "Kill".
Definition DrainCheckpoint : string := "Checkpoint".

(** ** Claims and forks *)

Record SecretKeySelector := mkSelector { sel_Name : string; sel_Key : string }.
Record SecretMount := mkSecretMount { sm_Name : string; sm_SecretRef : SecretKeySelector; sm_EnvVar : string }.
Record GitOutput := mkGitOutput { go_Remote : string; go_Branch : string }.
Record OutputSpec := mkOutput { out_Path : string; out_Diff : bool; out_Git : option GitOutput }.

Record SandboxClaimSpec := mkClaimSpec {
  PoolRef : string; Env : list (string * string); Secrets : list SecretMount;
  VolumeOverrides : list (string * string); Timeout : option Z; IdleTimeout : option Z; cs_NodeName : string;
  WorkspaceRef : option string; ServiceAccount : string; CheckpointOnTerminate : bool; Outputs : list OutputSpec }.
Record SandboxClaimStatus := mkClaimStatus {
  Phase : string; Endpoint : string; Node : string; SandboxID : string; ForkTimeMicros : Z;
  StartedAt : time; FinishedAt : time; Conditions : list Condition }.
Record SandboxClaim := mkClaim { cl_meta : ObjectMeta; cl_spec : SandboxClaimSpec; cl_status : SandboxClaimStatus }.

Record ForkInfo := mkForkInfo {
  fi_Name : string; fi_SandboxID : string; fi_Endpoint : string; fi_Node : string; fi_Phase : string;
  fi_ForkTimeMicros : Z }.
Record SandboxForkSpec := mkForkSpec {
  SourceRef : string; fk_Replicas : Z; fk_VolumeOverrides : list (string * string); PauseSource : bool;
  AllowSecretInheritance : bool }.
Record SandboxForkStatus := mkForkStatus {
  ReadyForks : Z; TotalForks : Z; Forks : list ForkInfo; ForkSnapshotTaken : bool; CheckpointTime : time;
  fk_Conditions : list Condition }.
Record SandboxFork := mkFork { fk_meta : ObjectMeta; fk_spec : SandboxForkSpec; fk_status : SandboxForkStatus }.

(** ** Workspaces *)

Record WorkspaceGit := mkWorkspaceGit {
  Paths : list string; CredentialsSecretRef : option SecretKeySelector; CredentialsUsername : string }.
Record WorkspaceStatus := mkWorkspaceStatus {
  Head : string; Revisions : Z; Resumable : bool; ws_Conditions : list Condition; ws_ObservedGeneration : Z }.
Record Workspace := mkWorkspace {
  ws_meta : ObjectMeta; Git : WorkspaceGit; RetentionRevisions : Z; MinAge : option Z; ws_status : WorkspaceStatus }.

Record WorkspaceRevisionRef := mkRevisionRef { rr_Workspace : string; rr_Revision : string }.
Record WorkspaceRevisionSpec := mkRevisionSpec {
  rv_WorkspaceRef : string; FromClaim : string; FromWorkspaceRevision : option WorkspaceRevisionRef;
  ContentManifest : string; MemorySnapshotRef : option string; MemorySnapshotPrincipal : option string }.
Record RevisionDiffSummary := mkDiffSummary {
  ParentRevision : string; ds_Added : list string; ds_Removed : list string; ds_Modified : list string;
  AddedCount : Z; RemovedCount : Z; ModifiedCount : Z }.
Record GitPushRecord := mkGitPush { gp_Remote : string; gp_Branch : string }.
Record WorkspaceRevisionStatus := mkRevisionStatus {
  rv_Phase : string; DiffSummary : option RevisionDiffSummary; GitPushes : list GitPushRecord;
  rv_Conditions : list Condition; rv_ObservedGeneration : Z }.
Record WorkspaceRevision := mkRevision {
  rv_meta : ObjectMeta; rv_spec : WorkspaceRevisionSpec; rv_status : WorkspaceRevisionStatus }.

Definition WorkspaceRevisionPending : string := "Pending".
Definition WorkspaceRevisionCommitted : string := "Committed".

(** ** Pods, budgets and Secrets *)

Inductive volume_source :=
| SecretVolume (name : string) (items : list (string * string))
| HostPath (path type : string).
Record VolumeMount := mkVolumeMount { vmt_Name : string; vmt_MountPath : string; vmt_ReadOnly : bool }.
Record SecurityContext := mkSecurityContext {
  Privileged : bool; AllowPrivilegeEscalation : bool; sc_RunAsNonRoot : bool; CapDrop : list string; CapAdd : list string;
  sc_Seccomp : string }.
Record Container := mkContainer {
  ct_Name : string; ct_Image : string; ct_Args : list string; ct_EnvFieldRef : list (string * string);
  ct_Ports : list (string * Z); ct_Mounts : list VolumeMount; ct_Requests : gmap string Quantity;
  ct_Limits : gmap string Quantity; ct_Security : SecurityContext }.
Record PodSpec := mkPodSpec {
  RestartPolicy : string; ps_RunAsNonRoot : bool; ps_Seccomp : string; NodeSelector : gmap string string;
  NodeAffinity : option (string * list string); ps_Volumes : list (string * volume_source);
  Containers : list Container; NodeName : string }.
Record PodStatus := mkPodStatus { pd_Phase : string; PodIP : string; pd_Conditions : list (string * string) }.
Record Pod := mkPod { pd_meta : ObjectMeta; pd_spec : PodSpec; pd_status : PodStatus }.

Record PodDisruptionBudget := mkPDB {
  pdb_meta : ObjectMeta; MinAvailable : Z; MatchLabels : gmap string string }.
Record Secret := mkSecret { se_meta : ObjectMeta; se_Type : string; Data : gmap string bytes }.

(** ** Kinds *)

Inductive kind := KClaim | KPool | KTemplate | KFork | KWorkspace | KRevision | KPod | KPDB | KSecret.

Definition object (k : kind) : Type :=
  match k with
  | KClaim => SandboxClaim | KPool => SandboxPool | KTemplate => SandboxTemplate | KFork => SandboxFork
  | KWorkspace => Workspace | KRevision => WorkspaceRevision | KPod => Pod | KPDB => PodDisruptionBudget
  | KSecret => Secret
  end.

(** A write whose answer was lost has either happened or not. *)
Inductive get_result (A : Type) := Found (a : A) | NotFound | GetFailed.
Inductive write_result (A : Type) := Written (a : A) | Exists | Conflict | Missing | WriteFailed (committed : bool).
Arguments Found {A} a.
Arguments NotFound {A}.
Arguments GetFailed {A}.
Arguments Written {A} a.
Arguments Exists {A}.
Arguments Conflict {A}.
Arguments Missing {A}.
Arguments WriteFailed {A} committed.

(** internal/eventfeed/event.go: what the feed announces. *)
Inductive feed_event :=
| RevisionCreated (subject id : string) (at_ : Z) (workspace revision manifest lineage memory trace : string)
| PhaseChanged (subject id : string) (at_ : Z) (claim old new workspace : string).

End Kube.

(** ** Calls *)

(** [KList k ns labels] selects by labels that must be equal.  [KPatch base new lock]
    is a merge patch of the changes from [base] to [new], refused as a conflict
    when [lock] is set and the object is no longer at [base]'s version. *)
Inductive kcall :=
| KGet (k : Kube.kind) (ns name : string)
| KGetLive (k : Kube.kind) (ns name : string)
| KList (k : Kube.kind) (ns : string) (labels : list (string * string))
| KCreate (k : Kube.kind) (o : Kube.object k)
| KUpdate (k : Kube.kind) (o : Kube.object k)
| KUpdateStatus (k : Kube.kind) (o : Kube.object k)
| KPatch (k : Kube.kind) (base new : Kube.object k) (lock : bool)
| KPatchStatus (k : Kube.kind) (base new : Kube.object k)
| KDelete (k : Kube.kind) (o : Kube.object k) (grace : option Z)
| KForkd (c : Registry.conn) (q : Forkd.forkd_request)
| KHusk (addr : string) (q : Control.husk_request)
| KRecord (subject reason : string) (args : list string)
| KPost (e : Kube.feed_event)
| KGit (dir home : string) (args : list string)
| KCheckpointVM (ns claim : string)
| KRestoreVM (ns claim ref : string)
| KSnapshotPresent (ref : string).

(** [KRecord] is a Kubernetes Event on the subject, with the arguments of its
    message.  A post to the event webhook gives the HTTP status.
    [KGit] runs the git command in [dir] with the given HOME and the fixed
    identity; a failure gives its output.  A forkd call fails with a
    gRPC code.  A husk call fails in transport, or the
    stub answers that the operation failed; both with a text. *)
Definition kanswer (q : kcall) : Type :=
  match q with
  | KGet k _ _ | KGetLive k _ _ => Kube.get_result (Kube.object k)
  | KList k _ _ => option (list (Kube.object k))
  | KCreate k _ | KUpdate k _ | KUpdateStatus k _ | KPatch k _ _ _ | KPatchStatus k _ _ =>
      Kube.write_result (Kube.object k)
  | KDelete k _ _ => Kube.write_result unit
  | KForkd _ q => res Z (Forkd.forkd_reply q)
  | KHusk _ q => res string (res string (Control.husk_reply q))
  | KRecord _ _ _ => unit
  | KPost _ => option Z
  | KGit _ _ _ => res string unit
  | KCheckpointVM _ _ => option string
  | KRestoreVM _ _ _ => bool
  | KSnapshotPresent _ => option bool
  end.

(** Peers that accept everything: no object exists, a write stores the object it
    is given, forkd and the husk stub do what they are asked.  For examples. *)
Definition forkd_ok (q : Forkd.forkd_request) : Forkd.forkd_reply q :=
  match q return Forkd.forkd_reply q with
  | Forkd.QFork q => Forkd.mkForkResponse (Forkd.q_SandboxId q) "10.0.0.9:8080" f64_one 0 0
  | Forkd.QForkRunning _ new _ _ => (new, "10.0.0.9:8080", f64_one, f64_one)
  | Forkd.QListSandboxes => []
  | Forkd.QCreateTemplate _ => EmptyString
  | Forkd.QTerminate _ | Forkd.QPullTemplate _ _ _ _ => tt
  end.

Definition husk_ok (q : Control.husk_request) : Control.husk_reply q :=
  match q return Control.husk_reply q with
  | Control.HActivate _ => Control.mkActivated "/run/husk/vm/vsock.sock" f64_one
  | Control.HForkSnapshot q => Control.mkForked (Control.fs_SnapshotDir q) f64_one
  | Control.HRemoveForkSnapshot q => Control.mkForked (Control.rf_SnapshotDir q) f64_one
  | Control.HDehydrate _ => Control.mkDehydrated EmptyString None f64_one
  | Control.HHydrate _ => f64_one
  end.

Definition accepting (q : kcall) : kanswer q :=
  match q return kanswer q with
  | KGet _ _ _ | KGetLive _ _ _ => Kube.NotFound
  | KList _ _ _ => Some []
  | KCreate _ o | KUpdate _ o | KUpdateStatus _ o | KPatch _ _ o _ | KPatchStatus _ _ o => Kube.Written o
  | KDelete _ _ _ => Kube.Written tt
  | KForkd _ q => Ok (forkd_ok q)
  | KHusk _ q => Ok (Ok (husk_ok q))
  | KRecord _ _ _ => tt
  | KPost _ => Some 200
  | KGit _ _ _ => Ok tt
  | KRestoreVM _ _ _ => true
  | KCheckpointVM _ _ => Some "snap"
  | KSnapshotPresent _ => Some true
  end.
