(* ===== verification/Host.v ===== *)
(** Node programs: Go code that calls the operating system.

    The packages of the node, the controllers, the guest agent and the image builder
    interleave operations on Go memory with calls whose outcome the code does not
    control.  Such a function is a [prog]: a tree that either returns, performs one critical
    section on the shared Go memory ([Atomic]), or performs one host call and
    continues with its answer ([Sys]).  Everything the operating system, the
    Firecracker and Kubernetes API servers and the guest agent do is in the
    answers, so a theorem over all answers holds whatever they do.

    - [call]/[answer]: the calls and their answers; [gcall] those of the guest agent,
      [icall] those of the image builder.
    - [run]: the executable interpreter for a given environment.
    - [wp]: what a program guarantees over all answers an environment may give.
    - [schedule]: the executable interleaving of a pool under a given schedule.
    - [obliging]: a host on which every call succeeds, for examples.
    - [pool_step], [safe]: requests served concurrently, interleaved at every
      call and critical section, with the resources each request owns. *)
From S2P Require Import Prelude GoLib GoFs Wire.

(** ** Host calls *)

(** The parts of [os.FileInfo] the code reads; [os.SameFile] compares [fi_ino]. *)
Record file_info := mkFileInfo { fi_size : Z; fi_ino : Z; fi_isDir : bool; fi_chardev : bool }.

Inductive rm_result := RmOk | RmAbsent | RmFailed.
Inductive link_result := LinkOk | LinkXdev | LinkFailed.
(** Answers of the Kubernetes API server about Secrets.  A write whose answer was
    lost has either happened or not; the code sees only the failure. *)
Inductive secret_get := SecretFound (data : gmap string bytes) | SecretAbsent | SecretGetFailed.
Inductive secret_create := SecretCreated | SecretExists | SecretCreateFailed (committed : bool).
Inductive secret_delete := SecretDeleted | SecretNotThere | SecretDeleteFailed (committed : bool).
(** A stream of lines ends at the end of file, by a read error, or because the
    request's context was cancelled. *)
Inductive stream_end := EndOfFile | EndReadError | EndCancelled.
Inductive dial_result := Dialed (conn : Z) | DialNoSocket | DialFailed.
Inductive dir_result := DirAbsent | DirFailed | DirEntries (es : list (string * bool)).

(** internal/firecracker/types.go: the request bodies of the Firecracker API. *)
Record BootSource := mkBootSource { bs_KernelImagePath : string; bs_BootArgs : string }.
Record MachineConfig := mkMachineConfig { mc_VcpuCount : Z; mc_MemSizeMib : Z }.
Record Drive := mkDrive {
  d_DriveID : string; d_PathOnHost : string; d_IsReadOnly : bool; d_IsRootDevice : bool }.
Record DrivePatch := mkDrivePatch { dp_DriveID : string; dp_PathOnHost : string }.
Record Vsock := mkVsock { vs_GuestCID : Z; vs_UdsPath : string }.
Record SnapshotCreate := mkSnapshotCreate {
  sc_SnapshotType : string; sc_SnapshotPath : string; sc_MemFilePath : string }.
Export Guest.
Record SnapshotLoad := mkSnapshotLoad {
  sl_SnapshotPath : string; sl_MemFilePath : string; sl_EnableDiffSnapshots : bool;
  sl_ResumeVM : bool; sl_NetworkOverrides : list NetworkOverride }.
Record NetworkInterface := mkNetworkInterface {
  nif_IfaceID : string; nif_GuestMAC : string; nif_HostDevName : string }.

Inductive body :=
| BBootSource (b : BootSource)
| BMachineConfig (b : MachineConfig)
| BDrive (b : Drive)
| BDrivePatch (b : DrivePatch)
| BVsock (b : Vsock)
| BAction (ActionType : string)
| BVMState (State : string)
| BSnapshotCreate (b : SnapshotCreate)
| BSnapshotLoad (b : SnapshotLoad)
| BNetworkInterface (b : NetworkInterface).

Inductive http_method := MPut | MPatch.

(** internal/vsock/protocol.go: what the host sends to the guest agent, and what
    the lines it reads back decode to.  Payloads the host only passes on are left
    out: uptimes, file metadata, the timing of an execution. *)
Inductive agent_request :=
| APing
| AExec (command dir : string) (env : gmap string string) (timeout : Z)
| AConfigure (env secrets : gmap string string)
| ANotifyForked (generation nanos : Z) (entropy : bytes)
    (network : option (string * string * Z * string)) (volumes : list (string * string * bool))
| AReadFile (path : string)
| AWriteFile (path content : string) (mode : Z)
| AListDir (path : string)
| AMkdir (path : string)
| ARemove (path : string)
| ATarDir (path : string)
| AUntarDir (path tar : string)
| AExecStream (command dir : string) (env : gmap string string) (timeout : Z)
| ARunCode (code language : string) (timeout : Z)
| APty (cols rows : Z).

Record agent_response := mkResponse {
  ar_OK : bool; ar_Error : string; ar_Ping : option Z; ar_Exec : option (Z * string * string);
  ar_ReadFile : option string; ar_ListDir : option (list string);
  ar_NotifyForked : option bool; ar_TarDir : option string }.

Record frame := mkFrame {
  f_Kind : string; f_Stream : string; f_Data : string; f_ExitCode : Z; f_Error : string; f_Info : string }.
Record pty_frame := mkPtyFrame {
  pf_Kind : string; pf_Data : string; pf_Cols : Z; pf_Rows : Z; pf_ExitCode : Z; pf_Error : string }.

(** What the sandbox API writes to its own client, line by line. *)
Inductive http_line :=
| HChunk (stream data : string) | HExit (code : Z) (error : string) | HFrame (f : frame) | HPty (f : pty_frame).

Inductive wire := WConnect (port : Z) | WRequest (r : agent_request) | WPtyFrame (f : pty_frame).
(** A line read: its text, and its value as each of the three message types. *)
Record line := mkLine {
  l_text : string; l_response : option agent_response; l_frame : option frame; l_pty : option pty_frame }.

(** What the agent writes to the host, and what a line it reads decodes to: a
    request, one whose payload is missing, one of an unknown type, or none. *)
Inductive agent_line := LResponse (r : agent_response) | LFrame (f : frame) | LPty (f : pty_frame).
Inductive guest_line := GRequest (r : agent_request) | GNil (type : string) | GUnknown (type : string) | GBad (msg : string).

(** guest/agent: the calls of the agent inside the guest.  A failure gives the
    text of its error.  A command that was run gives its error, if any, and
    whether its deadline had passed. *)
Inductive stat_result := StatAbsent | StatFailed (msg : string) | StatInfo (isDir : bool).
Inductive walk_entry := WalkFailed (msg : string) | WalkDir | WalkFile (size : Z) | WalkOther.
Inductive run_error := ExitError (code : Z) | OtherError.
Record driverEvent := mkDriverEvent {
  de_Kind : string; de_Text : string; de_Name : string; de_Value : string; de_Status : string }.
Inductive kernel_line := KernelEnd | KernelScanError (msg : string) | KernelBlank | KernelBad (msg : string) | KernelEvent (e : driverEvent).

Inductive gcall :=
| GStat (p : string)
| GWalk (dir : string)
| GReadAll (p : string)
| GReadFile (p : string)
| GWriteFile (p content : string) (mode : Z)
| GReadDir (p : string)
| GMkdirAll (p : string)
| GRemoveAll (p : string)
| GSymlink (old new : string)
| GOpenTrunc (p : string)
| GCopy (p : string) (data : bytes)
| GClose (p : string)
| GOpenRandom
| GAddEntropy (buf : bytes)
| GMixEntropy (b : bytes)
| GClockGet
| GClockSet (nanos : Z)
| GMount (source target fstype : string) (readonly : bool)
| GSethostname (name : string)
| GProcMounts
| GProcDir
| GGetpid
| GKill (pid signal : Z)
| GEnviron
| GCommand (argv : list string)
| GRun (command dir : string) (env : list string) (timeout : Z)
| GStart (command dir : string) (env : list string) (timeout : Z)
| GPumps (pid : Z)
| GWait (pid : Z)
| GOpenPty
| GWinsize (cols rows : Z)
| GOpenSlave (path : string)
| GStartPty (shell dir : string) (env : list string)
| GPtyOutput (pid : Z)
| GPtyInput (data : string)
| GKernelStart (python driver : string) (dir : option string)
| GKernelWrite (code : string) (timeout : Z)
| GKernelFlush
| GKernelLine
| GKernelKill
| GUptime
| GReply (conn : Z) (l : agent_line).

(** [GWalk] gives the paths below the directory in the order of filepath.Walk,
    relative to it, and what each is; [GReadDir] the entries and whether their
    metadata could be read.  [GPumps] stands for the reads of the two output
    pipes: the chunks, each with its stream, in the order the pumps took the
    lock; [GPtyOutput] for the reads of the terminal. *)
Definition ganswer (q : gcall) : Type :=
  match q with
  | GStat _ => stat_result
  | GWalk _ => list (list string * walk_entry)
  | GReadAll _ => res string bytes
  | GReadFile _ => res string string
  | GReadDir _ => res string (list (string * bool))
  | GClockGet => option Z
  | GProcMounts => option (list string)
  | GProcDir => option (list (string * bool))
  | GGetpid | GUptime => Z
  | GKill _ _ => bool
  | GEnviron => list string
  | GRun _ _ _ _ => string * string * option run_error * bool
  | GStart _ _ _ _ | GStartPty _ _ _ => res string Z
  | GPumps _ => list (string * string)
  | GWait _ => option run_error * bool
  | GOpenPty => res string string
  | GPtyOutput _ => list string
  | GPtyInput _ => bool
  | GKernelLine => kernel_line
  | _ => res string unit
  end.

(** A guest on which every call succeeds.  For examples. *)
Definition willing (q : gcall) : ganswer q :=
  match q return ganswer q with
  | GStat _ => StatInfo true
  | GWalk _ => []
  | GReadAll _ => Ok []
  | GReadFile _ => Ok EmptyString
  | GReadDir _ => Ok []
  | GClockGet => Some 0
  | GProcMounts => Some []
  | GProcDir => Some []
  | GGetpid => 1
  | GUptime => 0
  | GKill _ _ | GPtyInput _ => true
  | GEnviron => []
  | GRun _ _ _ _ => (EmptyString, EmptyString, None, false)
  | GStart _ _ _ _ | GStartPty _ _ _ => Ok 77
  | GPumps _ => []
  | GWait _ => (None, false)
  | GOpenPty => Ok "/dev/pts/0"
  | GPtyOutput _ => []
  | GKernelLine => KernelEnd
  | GWriteFile _ _ _ | GMkdirAll _ | GRemoveAll _ | GSymlink _ _ | GOpenTrunc _ | GCopy _ _ | GClose _ | GOpenRandom
  | GAddEntropy _ | GMixEntropy _ | GClockSet _ | GMount _ _ _ _ | GSethostname _ | GCommand _ | GWinsize _ _ | GOpenSlave _
  | GKernelStart _ _ _ | GKernelWrite _ _ | GKernelFlush | GKernelKill | GReply _ _ => Ok tt
  end.

(** internal/ociroot: the calls of the image builder.  An image is what its
    flattened layers give the tar reader: the entries, each with the part of its
    data that could be read and whether that was all of it, and whether the stream
    ended as it should.  A file that was opened is known by a number. *)
Inductive tar_type := TarReg | TarDir | TarSymlink | TarLink | TarChar | TarBlock | TarFifo | TarOther.
Record tar_entry := mkTarEntry {
  te_Name : string; te_Typeflag : tar_type; te_Mode : Z; te_Linkname : string; te_Uid : Z; te_Gid : Z;
  te_data : bytes; te_complete : bool }.
Record image := mkImage { im_entries : list tar_entry; im_ended : bool }.

Inductive icall :=
| IPull (ref : string)
| ISecureJoin (root unsafePath : string)
| IMkdirTemp (pattern : string)
| IMkdirAll (p : string) (perm : Z)
| IOpenFile (p : string) (perm : Z)
| IOpen (p : string)
| ICopy (fd : Z) (data : bytes)
| ICopyFile (dst src : Z)
| IChmod (fd perm : Z)
| IClose (fd : Z)
| ILchown (p : string) (uid gid : Z)
| ILstat (p : string)
| IRemove (p : string)
| IRemoveAll (p : string)
| ISymlink (old new : string)
| ILink (old new : string)
| IWalkDir (dir : string).

Definition ianswer (q : icall) : Type :=
  match q with
  | IPull _ => option image
  | ISecureJoin _ _ | IMkdirTemp _ => option string
  | IOpenFile _ _ | IOpen _ => option Z
  | IWalkDir _ => list walk_entry
  | _ => bool
  end.

(** A host on which every call succeeds.  For examples. *)
Definition building (q : icall) : ianswer q :=
  match q return ianswer q with
  | IPull _ => Some (mkImage [] true)
  | ISecureJoin root p => Some (Join [root; p])
  | IMkdirTemp pattern => Some ("/tmp/" +:+ pattern)
  | IOpenFile _ _ | IOpen _ => Some 3
  | IWalkDir _ => []
  | IMkdirAll _ _ | ICopy _ _ | ICopyFile _ _ | IChmod _ _ | IClose _ | ILchown _ _ _ | ILstat _ | IRemove _
  | IRemoveAll _ | ISymlink _ _ | ILink _ _ => true
  end.

Inductive call :=
| CMkdirAll (p : string)
| CStat (p : string)
| CReadFile (p : string)
| CReadDir (p : string)
| CScan (dir : string)
| CWriteFile (p : string) (data : bytes)
| CReadlink (p : string)
| CEvalSymlinks (p : string)
| CRemove (p : string)
| CRemoveAll (p : string)
| CLink (old new : string)
| CSymlink (old new : string)
| CRename (old new : string)
| CChown (p : string) (uid gid : Z)
| COpen (p : string)
| CCreate (p : string)
| CCreateTemp (dir pattern : string)
| CMkdirTemp (dir pattern : string)
| CReadFrom (dst src : string)
| CWrite (p : string) (data : string)
| CSync (p : string)
| CClose (p : string)
| CNow
| CSleep (d : Z)
| CStart (bin : string) (args : list string) (dir : string)
| CKill (pid : Z)
| CWait (pid : Z)
| CRun (argv : list string) (stdin : string)
| CApi (sock : string) (m : http_method) (path : string) (b : body)
| CApiGet (sock path : string)
| CAgentConnect (path : string)
| CAgentPing (conn : Z)
| CAgentExec (conn : Z) (command dir : string) (timeout : Z)
| CAgentClose (conn : Z)
| CAgentDial (path : string)
| CConnWrite (conn : Z) (w : wire)
| CConnRead (conn : Z)
| CConnLines (conn : Z)
| CHttpWrite (l : http_line)
| CWsAccept
| CListen (addr : string)
| CRandom (n : Z)
| CTruncate (p : string) (size : Z)
| CGetSecret (ns name : string)
| CCreateSecret (ns name : string) (data : gmap string bytes) (owner : option string)
| CDeleteSecret (ns name : string)
| CCtl (q : kcall)
| CGuest (q : gcall)
| CImage (q : icall).

(** A [bool] answer is "the returned error is nil"; an API answer is the HTTP
    status, or [None] when the request did not reach the server.  [CScan] stands
    for the reads of the regular files below a directory, each at its own time;
    its answer holds what those reads returned.  Reading a connection gives
    the next line, if there is one; [CConnLines] all lines up to the end of the
    stream and how it ended. *)
Definition answer (c : call) : Type :=
  match c with
  | CStat _ => option file_info
  | CReadFile _ => option string
  | CReadDir _ => dir_result
  | CScan _ => fs_t
  | CReadlink _ | CEvalSymlinks _ => option string
  | CRemove _ => rm_result
  | CLink _ _ => link_result
  | CCreateTemp _ _ | CMkdirTemp _ _ => option string
  | CNow => Z
  | CSleep _ | CWait _ | CAgentClose _ => unit
  | CStart _ _ _ => option Z
  | CApi _ _ _ _ | CApiGet _ _ => option Z
  | CAgentConnect _ => option Z
  | CAgentExec _ _ _ _ => option (Z * string)
  | CAgentDial _ => dial_result
  | CConnRead _ => option line
  | CConnLines _ => list line * stream_end
  | CRandom _ => option bytes
  | CGetSecret _ _ => secret_get
  | CCreateSecret _ _ _ _ => secret_create
  | CDeleteSecret _ _ => secret_delete
  | CCtl q => kanswer q
  | CGuest q => ganswer q
  | CImage q => ianswer q
  | _ => bool
  end.

Inductive event := Ev (c : call) (x : answer c).
Abbreviation trace := (list event).

(** ** Programs *)

Section prog.
Context {G : Type}.

Inductive prog (A : Type) : Type :=
| Ret (a : A)
| Atomic {X : Type} (f : G -> X * G) (k : X -> prog A)
| Sys (c : call) (k : answer c -> prog A).

Fixpoint prog_bind {A B} (p : prog A) (f : A -> prog B) : prog B :=
  match p with
  | Ret _ a => f a
  | Atomic _ g k => Atomic _ g (fun x => prog_bind (k x) f)
  | Sys _ c k => Sys _ c (fun x => prog_bind (k x) f)
  end.
End prog.
Arguments prog : clear implicits.
Arguments Ret {G A} a.
Arguments Atomic {G A X} f k.
Arguments Sys {G A} c k.

#[global] Instance prog_mret {G} : MRet (prog G) := fun A a => Ret a.
#[global] Instance prog_mbind {G} : MBind (prog G) := fun A B f p => prog_bind p f.

Definition sys {G} (c : call) : prog G (answer c) := Sys c Ret.
Definition atomic {G X} (f : G -> X * G) : prog G X := Atomic f Ret.
Definition modify {G} (f : G -> G) : prog G unit := atomic (fun g => (tt, f g)).

(** Go's [if err := ...; err != nil { return err }]. *)
Definition prog_try {G E A B} (p : prog G (res E A)) (k : A -> prog G (res E B)) : prog G (res E B) :=
  r ← p; match r with Ok a => k a | Err e => mret (Err e) end.
Notation "'must' x := p 'in' k" := (prog_try p (fun x => k))
  (at level 10, x pattern, p at level 100, k at level 200) : go_scope.

(** A call whose only failure is "the error is not nil". *)
Definition check {G E} (e : E) (p : prog G bool) : prog G (res E unit) :=
  ok ← p; mret (if ok : bool then Ok tt else Err e).

Definition some_or {G E A} (e : E) (p : prog G (option A)) : prog G (res E A) :=
  r ← p; mret (match r with Some a => Ok a | None => Err e end).

Fixpoint for_each {G E A} (l : list A) (f : A -> prog G (res E unit)) : prog G (res E unit) :=
  match l with
  | [] => mret (Ok tt)
  | a :: l => prog_try (f a) (fun _ => for_each l f)
  end.

(** ** Running a program in a concrete environment *)

(** An environment answers each call from its own state. *)
Definition env (O : Type) := forall c : call, O -> answer c * O.

Fixpoint run {G O A} (h : env O) (p : prog G A) (g : G) (o : O) : A * G * O * trace :=
  match p with
  | Ret a => (a, g, o, [])
  | Atomic f k => run h (k (f g).1) (f g).2 o
  | Sys c k =>
      let '(x, o1) := h c o in
      let '(a, g2, o2, t) := run h (k x) g o1 in (a, g2, o2, Ev c x :: t)
  end.

Lemma run_bind {G O A B} (h : env O) (p : prog G A) (f : A -> prog G B) g o :
  run h (p ≫= f) g o =
  let '(a, g1, o1, t1) := run h p g o in
  let '(b, g2, o2, t2) := run h (f a) g1 o1 in (b, g2, o2, t1 ++ t2).
Proof.
  unfold mbind, prog_mbind. revert g o. induction p as [a|X q k IH|c k IH]; cbn; intros g o.
  - by destruct (run h (f a) g o) as [[[]]].
  - apply IH.
  - destruct (h c o) as [x o1]. rewrite IH. destruct (run h (k x) g o1) as [[[a g1] o2] t1].
    by destruct (run h (f a) g1 o2) as [[[]]].
Qed.

(** ** Guarantees over all environments *)

Section wp.
Context {G : Type} (allowed : trace -> forall c, answer c -> Prop).

(** [wp p Q g t]: started on Go memory [g] after the calls [t], and whatever
    allowed answers the host gives, [p] returns in a state satisfying [Q]. *)
Fixpoint wp {A} (p : prog G A) (Q : A -> G -> trace -> Prop) (g : G) (t : trace) : Prop :=
  match p with
  | Ret a => Q a g t
  | Atomic f k => wp (k (f g).1) Q (f g).2 t
  | Sys c k => forall x, allowed t c x -> wp (k x) Q g (t ++ [Ev c x])
  end.

Lemma wp_mono {A} (p : prog G A) (Q Q' : A -> G -> trace -> Prop) g t :
  wp p Q g t -> (forall a g' t', Q a g' t' -> Q' a g' t') -> wp p Q' g t.
Proof.
  intros Hp HQ. revert g t Hp.
  induction p as [a|X f k IH|c k IH]; cbn; intros g t Hp; eauto.
Qed.

Lemma wp_bind {A B} (p : prog G A) (f : A -> prog G B) Q g t :
  wp p (fun a => wp (f a) Q) g t -> wp (p ≫= f) Q g t.
Proof.
  unfold mbind, prog_mbind. revert g t.
  induction p as [a|X h k IH|c k IH]; cbn; intros g t Hp; eauto.
Qed.

Lemma wp_ret {A} (a : A) (Q : A -> G -> trace -> Prop) g t : Q a g t -> wp (mret a) Q g t.
Proof. exact id. Qed.

Lemma wp_sys c Q g t :
  (forall x, allowed t c x -> Q x g (t ++ [Ev c x])) -> wp (sys c) Q g t.
Proof. exact id. Qed.

Lemma wp_atomic {X} (f : G -> X * G) Q g t : Q (f g).1 (f g).2 t -> wp (atomic f) Q g t.
Proof. exact id. Qed.

Lemma wp_modify (f : G -> G) Q g t : Q tt (f g) t -> wp (modify f) Q g t.
Proof. exact id. Qed.

Lemma wp_try {E A B} (p : prog G (res E A)) (k : A -> prog G (res E B)) Q g t :
  wp p (fun r => match r with Ok a => wp (k a) Q | Err e => Q (Err e) end) g t ->
  wp (prog_try p k) Q g t.
Proof.
  intros Hp. apply wp_bind. eapply wp_mono; [exact Hp|]. intros [a|e] g' t' H; exact H.
Qed.

Lemma wp_check {E} (e : E) (p : prog G bool) Q g t :
  wp p (fun ok => Q (if ok then Ok tt else Err e)) g t -> wp (check e p) Q g t.
Proof. intros Hp. apply wp_bind. exact Hp. Qed.

Lemma wp_some_or {E A} (e : E) (p : prog G (option A)) Q g t :
  wp p (fun r => Q (match r with Some a => Ok a | None => Err e end)) g t ->
  wp (some_or e p) Q g t.
Proof. intros Hp. apply wp_bind. exact Hp. Qed.

(** Loop rule: [I done] holds after the iterations [done]; an iteration either
    fails, establishing the postcondition, or extends [done]. *)
Lemma wp_for_each {E A} (l : list A) (f : A -> prog G (res E unit))
    (I : list A -> G -> trace -> Prop) (Q : res E unit -> G -> trace -> Prop) g t :
  I [] g t ->
  (forall pre a post g t, l = pre ++ a :: post -> I pre g t ->
     wp (f a) (fun r g t => match r with Ok _ => I (pre ++ [a]) g t | Err e => Q (Err e) g t end) g t) ->
  (forall g t, I l g t -> Q (Ok tt) g t) ->
  wp (for_each l f) Q g t.
Proof.
  intros H0 Hstep Hend.
  assert (forall post pre g t, l = pre ++ post -> I pre g t -> wp (for_each post f) Q g t) as Hgen.
  { induction post as [|a post IH]; intros pre g1 t1 Hl HI.
    - apply wp_ret, Hend. by rewrite app_nil_r in Hl; subst.
    - apply wp_try. eapply wp_mono; [by eapply Hstep|]. intros [[]|e] g2 t2 H2; [|exact H2].
      eapply (IH (pre ++ [a])); [by rewrite <-app_assoc|exact H2]. }
  by eapply (Hgen l []).
Qed.

End wp.

(** The environment gives every answer the call can have. *)
Definition anything (t : trace) (c : call) (x : answer c) : Prop := True.

(** A program meets its guarantee in every concrete run. *)
Lemma wp_run {G O A} (h : env O) (p : prog G A) Q g o t :
  wp anything p Q g t ->
  let '(a, g', _, t') := run h p g o in Q a g' (t ++ t').
Proof.
  revert g o t. induction p as [a|X f k IH|c k IH]; cbn; intros g o t Hp.
  - by rewrite app_nil_r.
  - by apply IH.
  - destruct (h c o) as [x o1] eqn:Eh. specialize (IH x g o1 (t ++ [Ev c x]) (Hp x I)).
    destruct (run h (k x) g o1) as [[[a g2] o2] t2]. by rewrite <-app_assoc in IH.
Qed.

(** What a program guarantees from the empty trace holds of its own calls
    after any others. *)
Lemma wp_shift {G A} (p : prog G A) Q g t0 t :
  wp anything p Q g t -> wp anything p (fun a g' t' => exists t1, t' = t0 ++ t1 /\ Q a g' t1) g (t0 ++ t).
Proof.
  revert g t. induction p as [a|X f k IH|c k IH]; cbn; intros g t Hp; [by exists t|by apply IH|].
  intros x Hx. rewrite <- app_assoc. apply IH, Hp, Hx.
Qed.

(** The calls [t'] after [t] were answered as [allowed] says. *)
Definition obeys (allowed : trace -> forall c, answer c -> Prop) (t t' : trace) : Prop :=
  forall pre c x post, t' = pre ++ Ev c x :: post -> allowed (t ++ pre) c x.

Lemma wp_run_obeys {G O A} allowed (h : env O) (p : prog G A) Q g o t :
  wp allowed p Q g t ->
  let '(a, g', _, t') := run h p g o in obeys allowed t t' -> Q a g' (t ++ t').
Proof.
  revert g o t. induction p as [a|X f k IH|c k IH]; cbn; intros g o t Hp.
  - by rewrite app_nil_r.
  - by apply IH.
  - destruct (h c o) as [x o1] eqn:Eh. specialize (IH x g o1 (t ++ [Ev c x])).
    destruct (run h (k x) g o1) as [[[a g2] o2] t2]. rewrite <-app_assoc in IH. intros Ho. apply IH.
    + apply Hp. specialize (Ho [] c x t2 eq_refl). by rewrite app_nil_r in Ho.
    + intros pre c' x' post ->. rewrite <-app_assoc. by apply (Ho (Ev c x :: pre) c' x' post).
Qed.

(** ** Concurrent requests *)

Section pool.
Context {G : Type} (allowed : trace -> forall c, answer c -> Prop).

Record node := mkNode { n_pool : list (prog G unit); n_mem : G; n_trace : trace }.

(** One step of some request: a critical section or a host call. *)
Inductive pool_step : node -> node -> Prop :=
| step_atomic ps g t i X (f : G -> X * G) k :
    ps !! i = Some (Atomic f k) ->
    pool_step (mkNode ps g t) (mkNode (<[i := k (f g).1]> ps) (f g).2 t)
| step_sys ps g t i c k x :
    ps !! i = Some (Sys c k) -> allowed t c x ->
    pool_step (mkNode ps g t) (mkNode (<[i := k x]> ps) g (t ++ [Ev c x])).

(** Resources requests own while they run; what the invariant says of the
    shared memory depends on the resources of all requests together. *)
Context {R : Type} `{Countable R}.
Abbreviation res_t := (gmultiset R).
Context (Inv : res_t -> G -> trace -> Prop).

(** [safe own p Q]: owning [own], every step [p] takes keeps the invariant
    whatever the other requests own, and [p] ends owning what [Q] says. *)
Fixpoint safe {A} (own : res_t) (p : prog G A) (Q : A -> res_t -> Prop) : Prop :=
  match p with
  | Ret a => Q a own
  | Atomic f k => forall fr g t, Inv (own ⊎ fr) g t ->
      exists own', Inv (own' ⊎ fr) (f g).2 t /\ safe own' (k (f g).1) Q
  | Sys c k => forall fr g t x, Inv (own ⊎ fr) g t -> allowed t c x ->
      exists own', Inv (own' ⊎ fr) g (t ++ [Ev c x]) /\ safe own' (k x) Q
  end.

Lemma safe_mono {A} own (p : prog G A) (Q Q' : A -> res_t -> Prop) :
  safe own p Q -> (forall a o, Q a o -> Q' a o) -> safe own p Q'.
Proof.
  intros Hp HQ. revert own Hp.
  induction p as [a|X f k IH|c k IH]; cbn; intros own Hp; [eauto| |].
  - intros fr g t HI. destruct (Hp fr g t HI) as (own' & HI' & Hk). eauto.
  - intros fr g t x HI Hx. destruct (Hp fr g t x HI Hx) as (own' & HI' & Hk). eauto.
Qed.

Lemma safe_bind {A B} own (p : prog G A) (f : A -> prog G B) Q :
  safe own p (fun a o => safe o (f a) Q) -> safe own (p ≫= f) Q.
Proof.
  unfold mbind, prog_mbind. revert own.
  induction p as [a|X h k IH|c k IH]; cbn; intros own Hp; [exact Hp| |].
  - intros fr g t HI. destruct (Hp fr g t HI) as (own' & HI' & Hk). eauto.
  - intros fr g t x HI Hx. destruct (Hp fr g t x HI Hx) as (own' & HI' & Hk). eauto.
Qed.

Lemma safe_ret {A} own (a : A) (Q : A -> res_t -> Prop) : Q a own -> safe own (mret a) Q.
Proof. exact id. Qed.

Lemma safe_try {E A B} own (p : prog G (res E A)) (k : A -> prog G (res E B)) Q :
  safe own p (fun r o => match r with Ok a => safe o (k a) Q | Err e => Q (Err e) o end) ->
  safe own (prog_try p k) Q.
Proof.
  intros Hp. apply safe_bind. eapply safe_mono; [exact Hp|]. intros [a|e] o Ho; exact Ho.
Qed.

Lemma safe_check {E} own (e : E) (p : prog G bool) (Q : res E unit -> res_t -> Prop) :
  safe own p (fun ok o => Q (if ok then Ok tt else Err e) o) -> safe own (check e p) Q.
Proof. intros Hp. apply safe_bind. exact Hp. Qed.

Lemma safe_some_or {E A} own (e : E) (p : prog G (option A)) (Q : res E A -> res_t -> Prop) :
  safe own p (fun r o => Q (match r with Some a => Ok a | None => Err e end) o) ->
  safe own (some_or e p) Q.
Proof. intros Hp. apply safe_bind. exact Hp. Qed.

Lemma safe_for_each {E A} own (l : list A) (f : A -> prog G (res E unit)) (Q : res E unit -> res_t -> Prop) :
  (forall a, safe own (f a) (fun _ o => o = own)) ->
  (forall r, Q r own) ->
  safe own (for_each l f) Q.
Proof.
  intros Hf HQ. induction l as [|a l IH]; [apply safe_ret, HQ|].
  apply safe_try. eapply safe_mono; [apply Hf|]. intros [[]|e] o ->; [exact IH|apply HQ].
Qed.

(** The rest of the resources stays with the caller. *)
Lemma safe_frame {A} own fr0 (p : prog G A) Q :
  safe own p Q -> safe (own ⊎ fr0) p (fun a o => exists o', o = o' ⊎ fr0 /\ Q a o').
Proof.
  revert own. induction p as [a|X f k IH|c k IH]; cbn; intros own Hp; [eauto| |].
  - intros fr g t HI. rewrite <-(assoc_L (⊎)) in HI.
    destruct (Hp _ g t HI) as (own' & HI' & Hk). exists (own' ⊎ fr0).
    rewrite <-(assoc_L (⊎)). eauto.
  - intros fr g t x HI Hx. rewrite <-(assoc_L (⊎)) in HI.
    destruct (Hp _ g t x HI Hx) as (own' & HI' & Hk). exists (own' ⊎ fr0).
    rewrite <-(assoc_L (⊎)). eauto.
Qed.

(** What the requests of a pool own together. *)
Definition total (owns : list res_t) : res_t := foldr (⊎) ∅ owns.

Lemma total_insert owns i o o' :
  owns !! i = Some o ->
  exists fr, total owns = o ⊎ fr /\ total (<[i := o']> owns) = o' ⊎ fr.
Proof.
  revert i. induction owns as [|a owns IH]; intros [|i] Hi; simplify_eq/=.
  - by exists (total owns).
  - destruct (IH i Hi) as (fr & H1 & H2). exists (a ⊎ fr).
    rewrite H1, H2. split; multiset_solver.
Qed.

Definition ends {A} (_ : A) (o : res_t) : Prop := o = ∅.

Definition pool_ok (owns : list res_t) (n : node) : Prop :=
  Forall2 (fun o p => safe o p ends) owns (n_pool n) /\ Inv (total owns) (n_mem n) (n_trace n).

Lemma pool_step_ok owns n n' :
  pool_ok owns n -> pool_step n n' -> exists owns', pool_ok owns' n'.
Proof.
  intros [Hps HI] Hstep. inversion Hstep as [ps g t i X f k Hi|ps g t i c k x Hi Hx]; subst; cbn in *.
  - destruct (Forall2_lookup_r _ _ _ _ _ Hps Hi) as (o & Ho & Hsafe).
    destruct (total_insert owns i o ∅ Ho) as (fr & Ht & _). rewrite Ht in HI.
    destruct (Hsafe fr g t HI) as (o' & HI' & Hk). exists (<[i := o']> owns).
    destruct (total_insert owns i o o' Ho) as (fr' & Ht' & Ht2).
    assert (fr' = fr) as -> by (rewrite Ht in Ht'; by apply (inj (o ⊎.)) in Ht').
    split; cbn; [by apply Forall2_insert|by rewrite Ht2].
  - destruct (Forall2_lookup_r _ _ _ _ _ Hps Hi) as (o & Ho & Hsafe).
    destruct (total_insert owns i o ∅ Ho) as (fr & Ht & _). rewrite Ht in HI.
    destruct (Hsafe fr g t x HI Hx) as (o' & HI' & Hk). exists (<[i := o']> owns).
    destruct (total_insert owns i o o' Ho) as (fr' & Ht' & Ht2).
    assert (fr' = fr) as -> by (rewrite Ht in Ht'; by apply (inj (o ⊎.)) in Ht').
    split; cbn; [by apply Forall2_insert|by rewrite Ht2].
Qed.

(** Requests that are safe from no resources keep the invariant forever. *)
Lemma pool_reach ps g t n :
  Forall (fun p => safe ∅ p ends) ps -> Inv ∅ g t ->
  rtc pool_step (mkNode ps g t) n -> exists owns, pool_ok owns n.
Proof.
  intros Hps HI Hrtc.
  assert (exists owns, pool_ok owns (mkNode ps g t)) as [owns Hok].
  { exists (replicate (length ps) ∅). split; cbn [n_pool n_mem n_trace].
    - clear -Hps. induction Hps; cbn; constructor; auto.
    - assert (total (replicate (length ps) ∅) = ∅) as ->; [|exact HI].
      clear. induction (length ps) as [|m IH]; [done|].
      change (∅ ⊎ total (replicate m ∅) = ∅). rewrite IH. multiset_solver. }
  clear Hps HI. revert owns Hok. induction Hrtc as [n|n1 n2 n3 H12 _ IH]; intros owns Hok.
  - by exists owns.
  - destruct (pool_step_ok _ _ _ Hok H12) as [owns' Hok']. by eapply IH.
Qed.

Lemma pool_invariant ps g t n :
  Forall (fun p => safe ∅ p ends) ps -> Inv ∅ g t ->
  rtc pool_step (mkNode ps g t) n -> exists owned, Inv owned (n_mem n) (n_trace n).
Proof. intros. destruct (pool_reach ps g t n) as (owns & _ & HI); [done..|eauto]. Qed.

(** And once every request has returned, nothing is owned any more. *)
Lemma pool_done ps g t n :
  Forall (fun p => safe ∅ p ends) ps -> Inv ∅ g t ->
  rtc pool_step (mkNode ps g t) n -> Forall (fun p => p = Ret tt) (n_pool n) -> Inv ∅ (n_mem n) (n_trace n).
Proof.
  intros Hps HI Hrtc Hdone. destruct (pool_reach ps g t n Hps HI Hrtc) as (owns & Hf & HI').
  assert (total owns = ∅) as <-; [|exact HI']. clear HI'.
  induction Hf as [|o p owns ps' Ho _ IH]; [done|]. apply list.Forall_cons in Hdone as [-> Hd]. unfold ends in Ho.
  cbn in Ho. subst o. change (∅ ⊎ total owns = ∅). rewrite IH by done. multiset_solver.
Qed.

End pool.

(** A sequential run of one request is a schedule of the pool. *)
Lemma run_pool {G O} allowed (h : env O) (ps : list (prog G unit)) i p g o t :
  ps !! i = Some p ->
  let '(a, g', _, t') := run h p g o in
  obeys allowed t t' -> rtc (pool_step allowed) (mkNode ps g t) (mkNode (<[i := Ret a]> ps) g' (t ++ t')).
Proof.
  revert ps g o t. induction p as [a|X f k IH|c k IH]; cbn; intros ps g o t Hi.
  - intros _. rewrite app_nil_r, list_insert_id by done. done.
  - specialize (IH (f g).1 (<[i := k (f g).1]> ps) (f g).2 o t).
    destruct (run h (k (f g).1) (f g).2 o) as [[[a g2] o2] t2]. intros Ho.
    eapply rtc_l; [by apply step_atomic|]. rewrite list_insert_insert_eq in IH. apply IH; [|done].
    apply list_lookup_insert_eq. by eapply lookup_lt_Some.
  - destruct (h c o) as [x o1] eqn:Eh. specialize (IH x (<[i := k x]> ps) g o1 (t ++ [Ev c x])).
    destruct (run h (k x) g o1) as [[[a g2] o2] t2]. intros Ho.
    eapply rtc_l; [apply step_sys with (x := x); [done|]|].
    + specialize (Ho [] c x t2 eq_refl). by rewrite app_nil_r in Ho.
    + rewrite list_insert_insert_eq, <- app_assoc in IH. apply IH.
      * apply list_lookup_insert_eq. by eapply lookup_lt_Some.
      * intros pre c' x' post ->. rewrite <- app_assoc. by apply (Ho (Ev c x :: pre) c' x' post).
Qed.
Arguments node : clear implicits.

(** Running a pool under a given schedule: which request takes each step. *)
Definition step_at {G O} (h : env O) (i : nat) (n : node G) (o : O) : node G * O :=
  match n_pool n !! i with
  | Some (Atomic f k) => (mkNode (<[i := k (f (n_mem n)).1]> (n_pool n)) (f (n_mem n)).2 (n_trace n), o)
  | Some (Sys c k) =>
      let '(x, o1) := h c o in (mkNode (<[i := k x]> (n_pool n)) (n_mem n) (n_trace n ++ [Ev c x]), o1)
  | _ => (n, o)
  end.
Fixpoint schedule {G O} (h : env O) (who : list nat) (n : node G) (o : O) : node G * O :=
  match who with [] => (n, o) | i :: who => let '(n, o) := step_at h i n o in schedule h who n o end.

Lemma schedule_rtc {G O} (h : env O) who (n : node G) o : rtc (pool_step anything) n (schedule h who n o).1.
Proof.
  revert n o. induction who as [|i who IH]; intros n o; [done|]. cbn [schedule].
  destruct (step_at h i n o) as [n1 o1] eqn:E. etrans; [|apply IH].
  unfold step_at in E. destruct n as [ps g t]. cbn in E. destruct (ps !! i) as [[a|X f k|c k]|] eqn:Hi; simplify_eq; [done| | |done].
  - apply rtc_once. by apply step_atomic.
  - destruct (h c o) as [x o2]. simplify_eq. apply rtc_once. by apply step_sys.
Qed.

(** A program that keeps the invariant without owning or changing resources:
    every critical section preserves it and every host call does. *)
Section calm.
Context {G R : Type} `{Countable R} (allowed : trace -> forall c, answer c -> Prop).
Context (Inv : gmultiset R -> G -> trace -> Prop).

Fixpoint calm {A} (p : prog G A) : Prop :=
  match p with
  | Ret _ => True
  | Atomic f k =>
      (forall o g t, Inv o g t -> Inv o (f g).2 t) /\ forall x, calm (k x)
  | Sys c k => forall x,
      (forall o g t, Inv o g t -> allowed t c x -> Inv o g (t ++ [Ev c x])) /\ calm (k x)
  end.

Lemma calm_safe {A} own (p : prog G A) : calm p -> safe allowed Inv own p (fun _ o => o = own).
Proof.
  induction p as [a|X f k IH|c k IH]; cbn; intros Hp; [done| |].
  - intros fr g t HI. exists own. destruct Hp as [H1 H2]. split; [by apply H1|by apply IH].
  - intros fr g t x HI Hx. destruct (Hp x) as [H1 H2]. exists own. split; [by apply H1|by apply IH].
Qed.

Lemma calm_bind {A B} (p : prog G A) (f : A -> prog G B) :
  calm p -> (forall a, calm (f a)) -> calm (p ≫= f).
Proof.
  unfold mbind, prog_mbind. intros Hp Hf.
  induction p as [a|X h k IH|c k IH]; cbn in *; [apply Hf| |].
  - split; [apply Hp|]. intros x. apply IH, Hp.
  - intros x. split; [apply Hp|]. apply IH, Hp.
Qed.

Lemma calm_ret {A} (a : A) : calm (mret a).
Proof. exact I. Qed.

Lemma calm_try {E A B} (p : prog G (res E A)) (k : A -> prog G (res E B)) :
  calm p -> (forall a, calm (k a)) -> calm (prog_try p k).
Proof. intros Hp Hk. apply calm_bind; [exact Hp|]. intros [a|e]; [apply Hk|apply calm_ret]. Qed.

Lemma calm_check {E} (e : E) (p : prog G bool) : calm p -> calm (check e p).
Proof. intros Hp. apply calm_bind; [exact Hp|]. intros; apply calm_ret. Qed.

Lemma calm_some_or {E A} (e : E) (p : prog G (option A)) : calm p -> calm (some_or e p).
Proof. intros Hp. apply calm_bind; [exact Hp|]. intros; apply calm_ret. Qed.

Lemma calm_for_each {E A} (l : list A) (f : A -> prog G (res E unit)) :
  (forall a, calm (f a)) -> calm (for_each l f).
Proof.
  intros Hf. induction l as [|a l IH]; [apply calm_ret|].
  apply calm_try; [apply Hf|]. intros _. exact IH.
Qed.

End calm.

(** ** The calls a program can make *)

Definition ev_call (e : event) : call := match e with Ev c _ => c end.

Section calls.
Context {G : Type} (P : call -> Prop).

(** Every call on every path of the program satisfies [P]. *)
Fixpoint calls_in {A} (p : prog G A) : Prop :=
  match p with
  | Ret _ => True
  | Atomic _ k => forall x, calls_in (k x)
  | Sys c k => P c /\ forall x, calls_in (k x)
  end.

Lemma calls_ret {A} (a : A) : calls_in (mret a).
Proof. exact I. Qed.

Lemma calls_sys c : P c -> calls_in (sys c).
Proof. by intros Hc; split. Qed.

Lemma calls_atomic {X} (f : G -> X * G) : calls_in (atomic f).
Proof. by intros x. Qed.

Lemma calls_bind {A B} (p : prog G A) (f : A -> prog G B) :
  calls_in p -> (forall a, calls_in (f a)) -> calls_in (p ≫= f).
Proof.
  unfold mbind, prog_mbind. intros Hp Hf.
  induction p as [a|X h k IH|c k IH]; cbn in *; [apply Hf|by intros x; apply IH|].
  split; [apply Hp|]. intros x. apply IH, Hp.
Qed.

Lemma calls_try {E A B} (p : prog G (res E A)) (k : A -> prog G (res E B)) :
  calls_in p -> (forall a, calls_in (k a)) -> calls_in (prog_try p k).
Proof. intros Hp Hk. apply calls_bind; [exact Hp|]. intros [a|e]; [apply Hk|exact I]. Qed.

Lemma calls_check {E} (e : E) (p : prog G bool) : calls_in p -> calls_in (check e p).
Proof. intros Hp. apply calls_bind; [exact Hp|]. by intros. Qed.

Lemma calls_some_or {E A} (e : E) (p : prog G (option A)) : calls_in p -> calls_in (some_or e p).
Proof. intros Hp. apply calls_bind; [exact Hp|]. by intros. Qed.

Lemma calls_for_each {E A} (l : list A) (f : A -> prog G (res E unit)) :
  (forall a, calls_in (f a)) -> calls_in (for_each l f).
Proof. intros Hf. induction l as [|a l IH]; [exact I|]. apply calls_try; [apply Hf|]. by intros _. Qed.

Lemma calls_any {A} (p : prog G A) : (forall c, P c) -> calls_in p.
Proof. intros HP. by induction p; cbn; auto. Qed.

(** Such a program extends the trace by events of such calls. *)
Lemma wp_calls allowed {A} (p : prog G A) g t :
  calls_in p ->
  wp allowed p (fun _ _ t' => exists ext, t' = t ++ ext /\ Forall (fun e => P (ev_call e)) ext) g t.
Proof.
  revert g t. induction p as [a|X f k IH|c k IH]; cbn; intros g t Hp.
  - exists []. by rewrite app_nil_r.
  - by apply IH.
  - intros x _. eapply wp_mono; [by apply IH, Hp|]. intros a g' t' (ext & -> & Hext).
    exists (Ev c x :: ext). rewrite <-app_assoc. split; [done|]. constructor; [apply Hp|done].
Qed.

End calls.

Lemma calls_mono {G A} (P P' : call -> Prop) (p : prog G A) :
  (forall c, P c -> P' c) -> calls_in P p -> calls_in P' p.
Proof. intros HP. induction p as [a|X f k IH|c k IH]; cbn; [done|eauto|]. intros [H1 H2]. split; eauto. Qed.

(** A program without critical sections on the part [v] of the memory. *)
Fixpoint keeps {G V A} (v : G -> V) (p : prog G A) : Prop :=
  match p with
  | Ret _ => True
  | Atomic f k => (forall g, v (f g).2 = v g) /\ forall x, keeps v (k x)
  | Sys c k => forall x, keeps v (k x)
  end.

Section keeps.
Context {G V : Type} (v : G -> V).

Lemma keeps_ret {A} (a : A) : keeps v (mret a).
Proof. exact I. Qed.

Lemma keeps_sys c : keeps v (sys c).
Proof. by intros x. Qed.

Lemma keeps_atomic {X} (f : G -> X * G) : (forall g, v (f g).2 = v g) -> keeps v (atomic f).
Proof. by split. Qed.

Lemma keeps_modify (f : G -> G) : (forall g, v (f g) = v g) -> keeps v (modify f).
Proof. by split. Qed.

Lemma keeps_bind {A B} (p : prog G A) (f : A -> prog G B) :
  keeps v p -> (forall a, keeps v (f a)) -> keeps v (p ≫= f).
Proof.
  unfold mbind, prog_mbind. intros Hp Hf.
  induction p as [a|X h k IH|c k IH]; cbn in *; [apply Hf| |by intros x; apply IH].
  split; [apply Hp|]. intros x. apply IH, Hp.
Qed.

Lemma keeps_try {E A B} (p : prog G (res E A)) (k : A -> prog G (res E B)) :
  keeps v p -> (forall a, keeps v (k a)) -> keeps v (prog_try p k).
Proof. intros Hp Hk. apply keeps_bind; [exact Hp|]. intros [a|e]; [apply Hk|exact I]. Qed.

Lemma keeps_check {E} (e : E) (p : prog G bool) : keeps v p -> keeps v (check e p).
Proof. intros Hp. apply keeps_bind; [exact Hp|]. by intros. Qed.

Lemma keeps_some_or {E A} (e : E) (p : prog G (option A)) : keeps v p -> keeps v (some_or e p).
Proof. intros Hp. apply keeps_bind; [exact Hp|]. by intros. Qed.

Lemma keeps_for_each {E A} (l : list A) (f : A -> prog G (res E unit)) :
  (forall a, keeps v (f a)) -> keeps v (for_each l f).
Proof. intros Hf. induction l as [|a l IH]; [exact I|]. apply keeps_try; [apply Hf|]. by intros _. Qed.

Lemma wp_keeps allowed {A} (p : prog G A) g t :
  keeps v p -> wp allowed p (fun _ g' _ => v g' = v g) g t.
Proof.
  revert g t. induction p as [a|X f k IH|c k IH]; cbn; intros g t Hp; [done| |].
  - destruct Hp as [Hf Hk]. eapply wp_mono; [by apply IH|]. cbn. intros _ g' _ ->. apply Hf.
  - intros x _. apply IH, Hp.
Qed.

End keeps.

(** A program that keeps the part of the memory an invariant is about. *)
Lemma keeps_safe {G R V A} `{Countable R} allowed (Inv : gmultiset R -> G -> trace -> Prop) (v : G -> V) own (p : prog G A) :
  (forall T g g' t t', v g' = v g -> Inv T g t -> Inv T g' t') ->
  keeps v p -> safe allowed Inv own p (fun _ o => o = own).
Proof.
  intros HI. induction p as [a|X f k IH|c k IH]; cbn; intros Hp; [done| |].
  - intros fr g t Hinv. exists own. destruct Hp as [H1 H2]. split; [eapply HI; [apply H1|exact Hinv]|by apply IH].
  - intros fr g t x Hinv _. exists own. split; [eapply HI; [reflexivity|exact Hinv]|by apply IH].
Qed.

Lemma wp_and {G A} allowed (p : prog G A) (Q1 Q2 : A -> G -> trace -> Prop) g t :
  wp allowed p Q1 g t -> wp allowed p Q2 g t -> wp allowed p (fun a g t => Q1 a g t /\ Q2 a g t) g t.
Proof.
  revert g t. induction p as [a|X f k IH|c k IH]; cbn; intros g t H1 H2; eauto.
Qed.

(** [walk] descends through binds, early returns and loops of a program with
    the closure lemmas of the predicate at hand. *)
Create HintDb prog discriminated.
#[export] Hint Constants Opaque : prog.

Ltac walk :=
  repeat first
    [ progress intros
    | lazymatch goal with
      | |- calls_in _ (mret _) => apply calls_ret
      | |- calls_in _ (atomic _) => apply calls_atomic
      | |- calls_in _ (modify _) => apply calls_atomic
      | |- calls_in _ (sys _) => apply calls_sys
      | |- calls_in _ (mbind _ _) => apply calls_bind
      | |- calls_in _ (prog_try _ _) => apply calls_try
      | |- calls_in _ (check _ _) => apply calls_check
      | |- calls_in _ (some_or _ _) => apply calls_some_or
      | |- calls_in _ (for_each _ _) => apply calls_for_each
      | |- calls_in _ (match ?m with _ => _ end) => destruct m
      | |- keeps _ (mret _) => apply keeps_ret
      | |- keeps _ (sys _) => apply keeps_sys
      | |- keeps _ (atomic _) => apply keeps_atomic
      | |- keeps _ (modify _) => apply keeps_modify
      | |- keeps _ (mbind _ _) => apply keeps_bind
      | |- keeps _ (prog_try _ _) => apply keeps_try
      | |- keeps _ (check _ _) => apply keeps_check
      | |- keeps _ (some_or _ _) => apply keeps_some_or
      | |- keeps _ (for_each _ _) => apply keeps_for_each
      | |- keeps _ (match ?m with _ => _ end) => destruct m
      end
    | solve [eauto with prog]
    | exact I ].

(** ** Processes *)

(** The processes started and not yet waited for. *)
Definition live_step (l : list Z) (e : event) : list Z :=
  match e with
  | Ev (CStart _ _ _) (Some pid) => pid :: l
  | Ev (CWait pid) _ => filter (fun q => q <> pid) l
  | _ => l
  end.
Definition live (t : trace) : list Z := fold_left live_step t [].

Lemma live_app t1 t2 : live (t1 ++ t2) = fold_left live_step t2 (live t1).
Proof. apply fold_left_app. Qed.

(** Calls that neither start nor reap a process. *)
Definition no_proc (c : call) : Prop :=
  match c with CStart _ _ _ | CWait _ => False | _ => True end.

Lemma live_no_proc t ext :
  Forall (fun e => no_proc (ev_call e)) ext -> live (t ++ ext) = live t.
Proof.
  rewrite live_app. generalize (live t) as l. intros l H. revert l.
  induction H as [|[c x] ext Hc _ IH]; intros l; [done|]. cbn [fold_left].
  rewrite IH. by destruct c.
Qed.

(** ** An example host *)

(** A host on which every call succeeds; its state is the clock. *)
Definition obliging : env Z := fun c now =>
  match c return answer c * Z with
  | CStat p => (Some (mkFileInfo 4096 (Z.of_nat (String.length p)) false false), now)
  | CReadFile _ => (Some EmptyString, now)
  | CReadDir _ => (DirEntries [], now)
  | CScan _ => (∅, now)
  | CReadlink p | CEvalSymlinks p => (Some p, now)
  | CRemove _ => (RmOk, now)
  | CLink _ _ => (LinkOk, now)
  | CCreateTemp dir pat | CMkdirTemp dir pat => (Some (dir +:+ "/" +:+ pat), now)
  | CNow => (now, now)
  | CSleep d => (tt, now + d)
  | CWait _ | CAgentClose _ => (tt, now)
  | CStart _ _ _ => (Some 4242, now)
  | CApi _ _ _ _ | CApiGet _ _ => (Some 204, now)
  | CAgentConnect _ => (Some 3, now)
  | CAgentExec _ _ _ _ => (Some (0, EmptyString), now)
  | CMkdirAll _ | CRemoveAll _ | CWriteFile _ _ | CSymlink _ _ | CRename _ _ | CChown _ _ _ | COpen _ | CCreate _
  | CReadFrom _ _ | CWrite _ _ | CSync _ | CClose _ | CKill _ | CRun _ _ | CAgentPing _ | CTruncate _ _
  | CConnWrite _ _ | CHttpWrite _ | CWsAccept | CListen _ => (true, now)
  | CAgentDial _ => (Dialed 4, now)
  | CConnRead _ => (Some (mkLine "OK 52" (Some (mkResponse true EmptyString (Some 1) (Some (0, EmptyString, EmptyString))
      (Some EmptyString) (Some []) (Some true) (Some EmptyString))) None None), now)
  | CConnLines _ => ([mkLine EmptyString None (Some (mkFrame "exit" EmptyString EmptyString 0 EmptyString EmptyString))
      (Some (mkPtyFrame "exit" EmptyString 0 0 0 EmptyString))], EndOfFile, now)
  | CRandom n => (Some (replicate (Z.to_nat n) "r"%char), now)
  | CGetSecret _ _ => (SecretAbsent, now)
  | CCreateSecret _ _ _ _ => (SecretCreated, now)
  | CDeleteSecret _ _ => (SecretDeleted, now)
  | CCtl q => (accepting q, now)
  | CGuest q => (willing q, now)
  | CImage q => (building q, now)
  end.
