(* ===== verification/Guarded.v ===== *)
(** Calls that are made only after others.

    [guarded ok p Q t]: after the events [t], the program [p] makes every call
    only when [ok] holds of the events before it, and returns with [Q], whatever
    the answers are and whatever other requests do to the shared memory, and so
    for each request of a pool in every interleaving ([pool_guarded]). *)
From S2P Require Import Prelude GoLib Host.
#[local] Open Scope go_scope.

Section guarded.
Context {G : Type} (ok : trace -> call -> Prop).

Fixpoint guarded {A} (p : prog G A) (Q : A -> trace -> Prop) (t : trace) : Prop :=
  match p with
  | Ret a => Q a t
  | Atomic f k => forall g, guarded (k (f g).1) Q t
  | Sys c k => ok t c /\ forall x, guarded (k x) Q (t ++ [Ev c x])
  end.

Lemma guarded_mono {A} (p : prog G A) (Q Q' : A -> trace -> Prop) t :
  guarded p Q t -> (forall a t', Q a t' -> Q' a t') -> guarded p Q' t.
Proof.
  intros Hp HQ. revert t Hp. induction p as [a|X f k IH|c k IH]; cbn; intros t Hp; [auto|auto|].
  split; [apply Hp|]. intros x. apply IH, Hp.
Qed.

Lemma guarded_ret {A} (a : A) (Q : A -> trace -> Prop) t : Q a t -> guarded (mret a) Q t.
Proof. exact id. Qed.

Lemma guarded_sys c Q t : ok t c -> (forall x, Q x (t ++ [Ev c x])) -> guarded (sys c) Q t.
Proof. by split. Qed.

Lemma guarded_atomic {X} (f : G -> X * G) Q t : (forall x, Q x t) -> guarded (atomic f) Q t.
Proof. intros H g. apply H. Qed.

Lemma guarded_bind {A B} (p : prog G A) (f : A -> prog G B) Q t :
  guarded p (fun a => guarded (f a) Q) t -> guarded (p ≫= f) Q t.
Proof.
  unfold mbind, prog_mbind. revert t.
  induction p as [a|X h k IH|c k IH]; cbn; intros t Hp; [exact Hp|auto|].
  split; [apply Hp|]. intros x. apply IH, Hp.
Qed.

Lemma guarded_try {E A B} (p : prog G (res E A)) (k : A -> prog G (res E B)) Q t :
  guarded p (fun r => match r with Ok a => guarded (k a) Q | Err e => Q (Err e) end) t ->
  guarded (prog_try p k) Q t.
Proof. intros Hp. apply guarded_bind. eapply guarded_mono; [exact Hp|]. intros [a|e] t' H; exact H. Qed.

Lemma guarded_check {E} (e : E) (p : prog G bool) Q t :
  guarded p (fun b => Q (if b then Ok tt else Err e)) t -> guarded (check e p) Q t.
Proof. intros Hp. apply guarded_bind. exact Hp. Qed.

Lemma guarded_some_or {E A} (e : E) (p : prog G (option A)) Q t :
  guarded p (fun r => Q (match r with Some a => Ok a | None => Err e end)) t -> guarded (some_or e p) Q t.
Proof. intros Hp. apply guarded_bind. exact Hp. Qed.

Lemma guarded_for_each {E A} (l : list A) (f : A -> prog G (res E unit)) (I : list A -> trace -> Prop)
    (Q : res E unit -> trace -> Prop) t :
  I [] t ->
  (forall pre a post t, l = pre ++ a :: post -> I pre t ->
     guarded (f a) (fun r t => match r with Ok _ => I (pre ++ [a]) t | Err e => Q (Err e) t end) t) ->
  (forall t, I l t -> Q (Ok tt) t) ->
  guarded (for_each l f) Q t.
Proof.
  intros H0 Hstep Hend.
  assert (forall post pre t, l = pre ++ post -> I pre t -> guarded (for_each post f) Q t) as Hgen.
  { induction post as [|a post IH]; intros pre t1 Hl HI.
    - apply guarded_ret, Hend. by rewrite app_nil_r in Hl; subst.
    - apply guarded_try. eapply guarded_mono; [by eapply Hstep|]. intros [[]|e] t2 H2; [|exact H2].
      eapply (IH (pre ++ [a])); [by rewrite <-app_assoc|exact H2]. }
  by eapply (Hgen l []).
Qed.

(** Calls the guard never forbids. *)
Lemma guarded_calls {A} (p : prog G A) t :
  calls_in (fun c => forall t, ok t c) p ->
  guarded p (fun _ t' => exists ext, t' = t ++ ext /\ Forall (fun e => forall t, ok t (ev_call e)) ext) t.
Proof.
  revert t. induction p as [a|X f k IH|c k IH]; cbn; intros t Hp.
  - exists []. by rewrite app_nil_r.
  - intros g. by apply IH.
  - split; [apply Hp|]. intros x. eapply guarded_mono; [by apply IH, Hp|]. intros a t' (ext & -> & Hext).
    exists (Ev c x :: ext). rewrite <-app_assoc. split; [done|]. constructor; [apply Hp|exact Hext].
Qed.

(** The events the program adds are of calls it can make. *)
Lemma guarded_also {A} (P : call -> Prop) (p : prog G A) Q t :
  guarded p Q t -> calls_in P p ->
  guarded p (fun a t' => Q a t' /\ exists ext, t' = t ++ ext /\ Forall (fun e => P (ev_call e)) ext) t.
Proof.
  revert t. induction p as [a|X f k IH|c k IH]; cbn; intros t Hp Hc.
  - split; [done|]. exists []. by rewrite app_nil_r.
  - intros g. by apply IH.
  - split; [apply Hp|]. intros x. eapply guarded_mono; [apply IH; [apply Hp|apply Hc]|].
    intros a t' (HQ & ext & -> & Hext). split; [done|]. exists (Ev c x :: ext). rewrite <-app_assoc.
    split; [done|]. constructor; [apply Hc|done].
Qed.

(** Every run makes guarded calls and ends as promised. *)
Lemma guarded_run {O A} (h : env O) (p : prog G A) Q g o t :
  guarded p Q t ->
  let '(a, _, _, t') := run h p g o in
  Q a (t ++ t') /\ forall pre c x post, t' = pre ++ Ev c x :: post -> ok (t ++ pre) c.
Proof.
  revert g o t. induction p as [a|X f k IH|c k IH]; cbn; intros g o t Hp.
  - rewrite app_nil_r. split; [done|]. by intros [|] ???.
  - by apply IH.
  - destruct Hp as [Hc Hp]. destruct (h c o) as [x o1] eqn:Eh. specialize (IH x g o1 _ (Hp x)).
    destruct (run h (k x) g o1) as [[[a g2] o2] t2]. rewrite <-app_assoc in IH. destruct IH as [HQ Hok].
    split; [done|]. intros [|e pre] c' x' post Heq.
    + apply (f_equal (map ev_call)) in Heq. injection Heq as <- _. by rewrite app_nil_r.
    + injection Heq as <- Heq. specialize (Hok pre c' x' post Heq). by rewrite <-app_assoc in Hok.
Qed.
End guarded.

(** Calls a guard never forbids, with what another guard's proof shows of them. *)
Lemma guarded_other {G A} (ok ok' : trace -> call -> Prop) (p : prog G A) Q t :
  guarded ok' p Q t -> calls_in (fun c => forall t, ok t c) p -> guarded ok p (fun a t' => Q a t' /\ t `prefix_of` t') t.
Proof.
  revert t. induction p as [a|X f k IH|c k IH]; cbn; intros t Hp Hc; [done|intros g; by apply IH|].
  split; [apply Hc|]. intros x. eapply guarded_mono; [apply IH; [apply Hp|apply Hc]|].
  intros a t' [HQ Hpre]. split; [done|]. etrans; [|exact Hpre]. by apply prefix_app_r.
Qed.

(** *** What a program adds to the trace, whatever the answers *)

Section adds.
Context {G : Type}.

Definition adds {A} (p : prog G A) (Q : A -> trace -> Prop) : Prop :=
  forall t, guarded (fun _ _ => True) p (fun x t' => exists ext, t' = t ++ ext /\ Q x ext) t.

Lemma adds_ret {A} (a : A) (Q : A -> trace -> Prop) : Q a [] -> adds (mret a) Q.
Proof. intros H t. exists []. by rewrite app_nil_r. Qed.

Lemma adds_sys c : adds (sys c) (fun x ext => ext = [Ev c x]).
Proof. intros t. split; [done|]. intros x. by exists [Ev c x]. Qed.

Lemma adds_atomic {X} (f : G -> X * G) : adds (atomic f) (fun _ ext => ext = []).
Proof. intros t g. exists []. by rewrite app_nil_r. Qed.

Lemma adds_mono {A} (p : prog G A) (Q R : A -> trace -> Prop) : adds p Q -> (forall a e, Q a e -> R a e) -> adds p R.
Proof. intros Hp H t. eapply guarded_mono; [apply Hp|]. intros a t' (e & -> & HQ). eauto. Qed.

Lemma adds_bind {A B} (p : prog G A) (f : A -> prog G B) (Q : A -> trace -> Prop) (R : B -> trace -> Prop) :
  adds p Q -> (forall a e1, Q a e1 -> adds (f a) (fun b e2 => R b (e1 ++ e2))) -> adds (p ≫= f) R.
Proof.
  intros Hp Hf t. apply guarded_bind. eapply guarded_mono; [apply Hp|]. intros a t1 (e1 & -> & HQ).
  eapply guarded_mono; [by eapply Hf|]. intros b t2 (e2 & -> & HR). exists (e1 ++ e2). by rewrite app_assoc.
Qed.

Lemma adds_try {E A B} (p : prog G (res E A)) (k : A -> prog G (res E B)) (Q : res E A -> trace -> Prop)
    (R : res E B -> trace -> Prop) :
  adds p Q -> (forall a e1, Q (Ok a) e1 -> adds (k a) (fun b e2 => R b (e1 ++ e2))) ->
  (forall e e1, Q (Err e) e1 -> R (Err e) e1) -> adds (prog_try p k) R.
Proof.
  intros Hp Hk He. unfold prog_try. eapply adds_bind; [exact Hp|]. intros [a|e] e1 HQ; [by apply Hk|].
  apply adds_ret. rewrite app_nil_r. by apply He.
Qed.

Lemma adds_calls {A} (P : call -> Prop) (p : prog G A) :
  calls_in P p -> adds p (fun _ ext => Forall (fun e => P (ev_call e)) ext).
Proof.
  intros Hp t. eapply guarded_mono; [apply (guarded_also _ P _ (fun _ _ => True)); [|exact Hp]|].
  - eapply guarded_mono; [apply guarded_calls; by apply calls_any|done].
  - intros x t' (_ & ext & -> & Hext). eauto.
Qed.

Lemma adds_any {A} (p : prog G A) : adds p (fun _ _ => True).
Proof. eapply adds_mono; [apply (adds_calls (fun _ => True)); by apply calls_any|done]. Qed.

(** Every run. *)
Lemma adds_run {O A} (h : env O) (p : prog G A) Q g o :
  adds p Q -> let '(a, _, _, t) := run h p g o in Q a t.
Proof.
  intros Hp. pose proof (guarded_run _ h p _ g o [] (Hp [])) as H. destruct (run h p g o) as [[[a g'] o'] t].
  destruct H as [(ext & Heq & HQ) _]. rewrite !app_nil_l in Heq. by subst ext.
Qed.
End adds.

(** What is in a trace stays. *)
Lemma in_prefix (t t' : trace) e : t `prefix_of` t' -> e ∈ t -> e ∈ t'.
Proof. intros [k ->] H. apply elem_of_app. by left. Qed.
Lemma prefix_snoc (t t' : trace) e : t `prefix_of` t' -> t `prefix_of` (t' ++ [e]).
Proof. intros. by apply prefix_app_r. Qed.
Lemma last_in (t : trace) e : e ∈ t ++ [e].
Proof. apply elem_of_app. right. by apply list_elem_of_singleton. Qed.

(** *** Pools *)

(** The events of a pool, each with the request it belongs to. *)
Abbreviation tagged := (list (nat * event)).
Definition own (i : nat) (tt : tagged) : trace := (filter (fun x => x.1 = i) tt).*2.

Lemma own_snoc i j e tt : own i (tt ++ [(j, e)]) = if decide (j = i) then own i tt ++ [e] else own i tt.
Proof.
  unfold own. rewrite list.filter_app, fmap_app. destruct (decide (j = i)) as [->|Hne].
  - by rewrite filter_cons_True.
  - by rewrite filter_cons_False, filter_nil, app_nil_r.
Qed.

Lemma own_sub i tt e : e ∈ own i tt -> e ∈ tt.*2.
Proof.
  unfold own. rewrite !list_elem_of_fmap. intros ([j e'] & -> & H). apply list_elem_of_filter in H as [_ H]. by exists (j, e').
Qed.

Lemma own_tagged i tt e : e ∈ own i tt -> (i, e) ∈ tt.
Proof.
  unfold own. rewrite list_elem_of_fmap. intros ([j e'] & -> & H). apply list_elem_of_filter in H as [Hj H]. cbn in *. by subst.
Qed.

(** In every interleaving each request makes its calls under the guard, judged
    by the events of its own. *)
Lemma pool_guarded {G} allowed (ok : trace -> call -> Prop) (ps : list (prog G unit)) g n :
  Forall (fun p => guarded ok p (fun _ _ => True) []) ps ->
  rtc (pool_step allowed) (mkNode ps g []) n ->
  exists tt : tagged, n_trace n = tt.*2 /\
  forall pre i c x post, tt = pre ++ (i, Ev c x) :: post -> ok (own i pre) c /\ allowed (pre.*2) c x.
Proof.
  intros Hps Hrtc.
  set (inv (n : node G) := exists tt : tagged, n_trace n = tt.*2 /\
    (forall i p, n_pool n !! i = Some p -> guarded ok p (fun _ _ => True) (own i tt)) /\
    forall pre i c x post, tt = pre ++ (i, Ev c x) :: post -> ok (own i pre) c /\ allowed (pre.*2) c x).
  assert (inv (mkNode ps g [])) as Hinv.
  { exists []. split; [done|]. split; [|by intros [|]]. intros i p Hi. exact (Forall_lookup_1 _ _ _ _ Hps Hi). }
  enough (inv n) as (tt & Ht & _ & H) by eauto. clear Hps. revert Hinv. induction Hrtc as [|n1 n2 n3 H12 _ IH]; [done|].
  intros Hinv. apply IH. clear IH n3. destruct Hinv as (tt & Ht & Hps & Hok).
  inversion H12 as [ps' g' t i X f k Hi|ps' g' t i c k x Hi Hx]; subst; cbn in *.
  - exists tt. split; [done|]. split; [|exact Hok]. intros j p. cbn.
    destruct (decide (i = j)) as [<-|Hne]; [|rewrite list_lookup_insert_ne by done; apply Hps].
    rewrite list_lookup_insert_eq by exact (lookup_lt_Some _ _ _ Hi). intros [= <-]. apply (Hps _ _ Hi).
  - destruct (Hps _ _ Hi) as [Hc Hk]. exists (tt ++ [(i, Ev c x)]). split; [rewrite fmap_app; cbn; congruence|]. split.
    + intros j p. cbn. rewrite own_snoc. destruct (decide (i = j)) as [<-|Hne].
      * rewrite list_lookup_insert_eq by exact (lookup_lt_Some _ _ _ Hi). intros [= <-]. apply Hk.
      * rewrite list_lookup_insert_ne by done. apply Hps.
    + intros pre j c' x' post Heq. destruct post as [|e post _] using rev_ind.
      * apply app_inj_tail in Heq as [-> Heq].
        change (match (j, Ev c' x') with (j, Ev c x) => ok (own j pre) c /\ allowed (pre.*2) c x end).
        rewrite <-Heq. split; [done|]. by rewrite <-Ht.
      * rewrite app_comm_cons, app_assoc in Heq. apply app_inj_tail in Heq as [-> _]. by eapply Hok.
Qed.

(** A schedule on which every answer passes a test. *)
Fixpoint passes {G O} (f : trace -> forall c, answer c -> bool) (h : env O) (who : list nat) (n : node G) (o : O) : bool :=
  match who with
  | [] => true
  | i :: who =>
      match n_pool n !! i with Some (Sys c k) => f (n_trace n) c (h c o).1 | _ => true end
      && let '(n, o) := step_at h i n o in passes f h who n o
  end.

Lemma passes_rtc {G O} f (h : env O) who (n : node G) o :
  passes f h who n o = true -> rtc (pool_step (fun t c x => f t c x = true)) n (schedule h who n o).1.
Proof.
  revert n o. induction who as [|i who IH]; intros n o Hp; [done|]. cbn [schedule passes] in *.
  apply andb_prop in Hp as [Hi Hp]. destruct (step_at h i n o) as [n1 o1] eqn:E. etrans; [|by apply IH]. clear Hp IH.
  unfold step_at in E. destruct n as [ps g t]. cbn in E, Hi. destruct (ps !! i) as [[a|X m k|c k]|] eqn:Hk; simplify_eq; [done| | |done].
  - apply rtc_once. by apply step_atomic.
  - destruct (h c o) as [x o2]. simplify_eq. apply rtc_once. by apply step_sys.
Qed.
