(* ===== verification/Ociroot.v ===== *)
(** * Root file systems from images

    internal/ociroot and internal/fork/imagebuild.go: an OCI image is unpacked
    into a directory of the host, the guest agent is put into it, and mkfs.ext4 makes
    the disk of a template from the result.  The image is not trusted.

    - [Ociroot]: extract.go, inject.go, ext4.go, pull.go and imagebuild.go.
    - [Tree]: a file system with symbolic and hard links, and what the calls do
      on it.
    - [Ends]: where a program ends on a given file system.
    - [Contained]: what unpacking and putting in the agent leave alone.
    - [Sizing]: the size of the disk.
    - [OciExamples]: images that reach out of their directory. *)
From S2P Require Import Prelude GoLib GoFs Host.
#[local] Open Scope go_scope.

Module Ociroot.

Inductive join_error := JoinAbsolute | JoinTraversal | JoinFailed.
Inductive oci_error :=
| OciCreateDest
| OciReadTar
| OciJoin (e : join_error)
| OciMkdir
| OciMkdirParent
| OciWriteFile
| OciSymlinkEscapes
| OciSymlink
| OciHardlinkTarget (e : join_error)
| OciHardlink
| OciInit
| OciNoShell
| OciBinDir
| OciBusybox
| OciApplet
| OciMountPoint
| OciMeasure
| OciExt4.

Inductive build_error :=
| BuildNoAgent
| BuildPull
| BuildTempDir
| BuildExtract (e : oci_error)
| BuildInject (e : oci_error)
| BuildSize (e : oci_error)
| BuildExt4Failed (e : oci_error).

Definition mountPoints : list string := ["proc"; "sys"; "dev"; "tmp"; "run"; "workspace"].

Definition hasDotDotPrefix (p : string) : bool := has_prefix "../" p.

Definition escapesLexically (destDir p : string) : bool :=
  match Rel (Clean destDir) p with
  | None => true
  | Some rel => String.eqb rel ".." || hasDotDotPrefix rel
  end.

(** [os.FileMode(m).Perm()] *)
Definition Perm (m : Z) : Z := Z.land m 511.

Definition minRootfsMB : Z := 64.

(** The nearest number of 53 binary digits, the even one of two: what a [float64]
    holds of an integer, also of one that stands for a multiple of a power of two. *)
Definition round53 (n : Z) : Z :=
  let e := Z.log2 (Z.abs n) - 52 in
  if e <=? 0 then n
  else
    let q := n / 2 ^ e in
    let r := n mod 2 ^ e in
    let half := 2 ^ (e - 1) in
    (if (r <? half) || ((r =? half) && Z.even q) then q else q + 1) * 2 ^ e.

(** [rootfsHeadroom] as a [float64], times two to the power of 52. *)
Definition rootfsHeadroom : Z := 6305039478318694.

(** [int(math.Ceil(float64(total) * rootfsHeadroom / mib))]: the product is kept times
    two to the power of 52, so that the quotient has two to the power of 72 below. *)
Definition with_headroom (total : Z) : Z :=
  - ((- round53 (round53 total * rootfsHeadroom)) / 2 ^ 72).

Section ociroot.
Context {G : Type}.

Definition secureJoin (destDir entryName : string) : prog G (res join_error string) :=
  if is_abs entryName then mret (Err JoinAbsolute)
  else if escapesLexically destDir (Join [destDir; entryName]) then mret (Err JoinTraversal)
  else
    must joined := some_or JoinFailed (sys (CImage (ISecureJoin destDir entryName))) in
    if escapesLexically destDir joined then mret (Err JoinTraversal)
    else mret (Ok joined).

Definition symlinkTargetStaysInside (destDir linkPath target : string) : prog G bool :=
  let walk :=
    if is_abs target then Some (Clean target)
    else
      match Rel (Clean destDir) (Dir linkPath) with
      | None => None
      | Some linkDirRel =>
          if String.eqb linkDirRel ".." || hasDotDotPrefix linkDirRel then None
          else if escapesLexically destDir (Join [Dir linkPath; target]) then None
          else Some (Join [linkDirRel; target])
      end in
  match walk with
  | None => mret false
  | Some walk =>
      r ← sys (CImage (ISecureJoin destDir walk));
      match r with
      | None => mret false
      | Some resolved => mret (negb (escapesLexically destDir resolved))
      end
  end.

(** An error of [io.Copy] comes after the data that could be read was written; the
    deferred close runs on every way out. *)
Definition writeRegular (target : string) (e : tar_entry) (perm : Z) : prog G (res unit unit) :=
  must f := some_or tt (sys (CImage (IOpenFile target perm))) in
  r ← must _ := check tt (sys (CImage (ICopy f (te_data e)))) in
      if negb (te_complete e) then mret (Err tt)
      else
        must _ := check tt (sys (CImage (IChmod f perm))) in
        check tt (sys (CImage (IClose f)));
  _ ← sys (CImage (IClose f));
  mret r.

Definition applyOwnership (path : string) (hdr : tar_entry) : prog G unit :=
  _ ← sys (CImage (ILchown path (te_Uid hdr) (te_Gid hdr)));
  mret tt.

(** [fmt.Errorf("...: %w", err)] *)
Definition wrapped {E F A} (w : E -> F) (p : prog G (res E A)) : prog G (res F A) :=
  r ← p; mret (match r with Ok a => Ok a | Err e => Err (w e) end).

Definition extractEntry (destDir : string) (hdr : tar_entry) : prog G (res oci_error unit) :=
  must target := wrapped OciJoin (secureJoin destDir (te_Name hdr)) in
  match te_Typeflag hdr with
  | TarDir =>
      must _ := check OciMkdir (sys (CImage (IMkdirAll target (Perm (te_Mode hdr))))) in
      _ ← applyOwnership target hdr;
      mret (Ok tt)
  | TarReg =>
      must _ := check OciMkdirParent (sys (CImage (IMkdirAll (Dir target) 493))) in
      must _ := wrapped (fun _ => OciWriteFile) (writeRegular target hdr (Perm (te_Mode hdr))) in
      _ ← applyOwnership target hdr;
      mret (Ok tt)
  | TarSymlink =>
      inside ← symlinkTargetStaysInside destDir target (te_Linkname hdr);
      if negb inside then mret (Err OciSymlinkEscapes)
      else
        must _ := check OciMkdirParent (sys (CImage (IMkdirAll (Dir target) 493))) in
        _ ← sys (CImage (IRemove target));
        check OciSymlink (sys (CImage (ISymlink (te_Linkname hdr) target)))
  | TarLink =>
      must linkTarget := wrapped OciHardlinkTarget (secureJoin destDir (te_Linkname hdr)) in
      must _ := check OciMkdirParent (sys (CImage (IMkdirAll (Dir target) 493))) in
      _ ← sys (CImage (IRemove target));
      check OciHardlink (sys (CImage (ILink linkTarget target)))
  | TarChar | TarBlock | TarFifo | TarOther => mret (Ok tt)
  end.

Definition ExtractImage (img : image) (destDir : string) : prog G (res oci_error unit) :=
  must _ := check OciCreateDest (sys (CImage (IMkdirAll destDir 493))) in
  must _ := for_each (im_entries img) (extractEntry destDir) in
  mret (if im_ended img then Ok tt else Err OciReadTar).

(** The deferred closes run on every way out, the last opened first. *)
Definition copyFile (src dst : string) (perm : Z) : prog G (res unit unit) :=
  must f_in := some_or tt (sys (CImage (IOpen src))) in
  r ← must _ := check tt (sys (CImage (IMkdirAll (Dir dst) 493))) in
      must out := some_or tt (sys (CImage (IOpenFile dst perm))) in
      r ← must _ := check tt (sys (CImage (ICopyFile out f_in))) in
          must _ := check tt (sys (CImage (IChmod out perm))) in
          check tt (sys (CImage (IClose out)));
      _ ← sys (CImage (IClose out));
      mret r;
  _ ← sys (CImage (IClose f_in));
  mret r.

Definition ensureShell (destDir busyboxPath : string) : prog G (res oci_error unit) :=
  let binDir := Join [destDir; "bin"] in
  let shPath := Join [binDir; "sh"] in
  there ← sys (CImage (ILstat shPath));
  if there : bool then mret (Ok tt)
  else if String.eqb busyboxPath EmptyString then mret (Err OciNoShell)
  else
    must _ := check OciBinDir (sys (CImage (IMkdirAll binDir 493))) in
    must _ := wrapped (fun _ => OciBusybox) (copyFile busyboxPath (Join [binDir; "busybox"]) 493) in
    for_each ["sh"; "echo"; "cat"; "ls"] (fun applet =>
      let link := Join [binDir; applet] in
      there ← sys (CImage (ILstat link));
      if there : bool then mret (Ok tt)
      else check OciApplet (sys (CImage (ISymlink "busybox" link)))).

Definition InjectAgent (destDir agentBinPath busyboxPath : string) : prog G (res oci_error unit) :=
  must _ := wrapped (fun _ => OciInit) (copyFile agentBinPath (Join [destDir; "init"]) 493) in
  must _ := ensureShell destDir busyboxPath in
  for_each mountPoints (fun mp =>
    check OciMountPoint (sys (CImage (IMkdirAll (Join [destDir; mp]) 493)))).

Fixpoint total_size (es : list walk_entry) (total : Z) : option Z :=
  match es with
  | [] => Some total
  | WalkFailed _ :: _ => None
  | WalkFile size :: es => total_size es (i64 (total + size))
  | _ :: es => total_size es total
  end.

Definition DirSizeMB (dir : string) : prog G (res oci_error Z) :=
  es ← sys (CImage (IWalkDir dir));
  mret (match total_size es 0 with
        | None => Err OciMeasure
        | Some total =>
            let sizeMB := with_headroom total in
            Ok (if sizeMB <? minRootfsMB then minRootfsMB else sizeMB)
        end).

Definition execRunner (argv : list string) : prog G bool :=
  match argv with
  | [] => mret false
  | _ => sys (CRun argv EmptyString)
  end.

Definition BuildExt4 (srcDir outPath : string) (sizeMB : Z) : prog G (res oci_error unit) :=
  check OciExt4 (execRunner ["mkfs.ext4"; "-F"; "-q"; "-d"; srcDir; outPath; format_d sizeMB +:+ "M"]).

Definition PullImage (ref : string) : prog G (option image) := sys (CImage (IPull ref)).

(** The temporary directory is removed on every way out. *)
Definition buildRootfsFromImage (ref outPath agentBin busyboxBin : string) : prog G (res build_error unit) :=
  if String.eqb agentBin EmptyString then mret (Err BuildNoAgent)
  else
    must img := some_or BuildPull (PullImage ref) in
    must tmpDir := some_or BuildTempDir (sys (CImage (IMkdirTemp "ociroot-extract-"))) in
    r ← must _ := wrapped BuildExtract (ExtractImage img tmpDir) in
        must _ := wrapped BuildInject (InjectAgent tmpDir agentBin busyboxBin) in
        must sizeMB := wrapped BuildSize (DirSizeMB tmpDir) in
        wrapped BuildExt4Failed (BuildExt4 tmpDir outPath sizeMB);
    _ ← sys (CImage (IRemoveAll tmpDir));
    mret r.
End ociroot.
End Ociroot.

(** ** A file system with links *)

Module Tree.

(** What a name stands for.  Names of one file share its number. *)
Inductive node := NDir | NFile (ino : Z) | NLink (target : string).
#[global] Instance node_eq_dec : EqDecision node.
Proof. solve_decision. Defined.

Record tree := mkTree { names : gmap fpath node; data : gmap Z bytes; next : Z }.

Definition kind (t : tree) (p : fpath) : option node := if bool_decide (p = []) then Some NDir else names t !! p.

(** How the kernel walks a path: dot-dot leads to the directory above the one it is
    in, and a symbolic link on the way is replaced by its target, which starts at
    the root or at the directory of the link.  The last link is only followed by
    the calls that ask for it.  The last name need not exist.  A walk meets at most as
    many links as the kernel allows. *)
Fixpoint resolve (links : nat) (t : tree) (follow : bool) : fpath -> list string -> option fpath :=
  fix go (cur : fpath) (todo : list string) : option fpath :=
    match todo with
    | [] => Some cur
    | x :: rest =>
        if String.eqb x EmptyString || String.eqb x "." then go cur rest
        else if String.eqb x ".." then go (removelast cur) rest
        else
          let here := cur ++ [x] in
          let last := match rest with [] => true | _ => false end in
          match names t !! here with
          | None => if last then Some here else None
          | Some NDir => go here rest
          | Some (NFile _) => if last then Some here else None
          | Some (NLink target) =>
              if last && negb follow then Some here
              else
                match links with
                | O => None
                | S links' =>
                    resolve links' t follow (if is_abs target then [] else cur) (split_byte slash target ++ rest)
                end
          end
    end.

Definition MAXSYMLINKS : nat := 40.
Definition at_path (t : tree) (follow : bool) (p : string) : option fpath :=
  resolve MAXSYMLINKS t follow [] (split_byte slash p).
Definition look (t : tree) (follow : bool) (p : string) : option node := at_path t follow p ≫= kind t.

Definition set_name (t : tree) (p : fpath) (n : node) : tree := mkTree (<[p := n]> (names t)) (data t) (next t).
Definition set_data (t : tree) (i : Z) (b : bytes) : tree := mkTree (names t) (<[i := b]> (data t)) (next t).

(** A name that is not there yet. *)
Definition create (t : tree) (p : string) (n : node) : bool * tree :=
  match at_path t false p with
  | None => (false, t)
  | Some q => match kind t q with Some _ => (false, t) | None => (true, set_name t q n) end
  end.

Definition is_dir (o : option node) : bool := match o with Some NDir => true | _ => false end.

(** [os.MkdirAll] of the path with the given elements. *)
Fixpoint mkdir_all (n : nat) (t : tree) (es : fpath) : bool * tree :=
  match look t true (abs_of es) with
  | Some NDir => (true, t)
  | Some _ => (false, t)
  | None =>
      match n with
      | O => (false, t)
      | S n' =>
          let '(ok, t1) := mkdir_all n' t (removelast es) in
          if negb ok then (false, t1)
          else
            let '(ok, t2) := create t1 (abs_of es) NDir in
            (ok || is_dir (look t2 false (abs_of es)), t2)
      end
  end.

Definition open_trunc (t : tree) (p : string) : option Z * tree :=
  match at_path t true p with
  | None => (None, t)
  | Some q =>
      match kind t q with
      | Some (NFile i) => (Some i, set_data t i [])
      | Some _ => (None, t)
      | None => (Some (next t), mkTree (<[q := NFile (next t)]> (names t)) (<[next t := []]> (data t)) (next t + 1))
      end
  end.

Definition open_read (t : tree) (p : string) : option Z :=
  match look t true p with Some (NFile i) => Some i | _ => None end.

Definition append (t : tree) (i : Z) (b : bytes) : bool * tree :=
  match data t !! i with
  | None => (false, t)
  | Some old => (true, set_data t i (old ++ b))
  end.

(** Names strictly below. *)
Definition holds_names (t : tree) (p : fpath) : bool :=
  existsb (fun kv => is_prefix p kv.1 && negb (bool_decide (kv.1 = p))) (map_to_list (names t)).

(** A directory is only removed when it is empty. *)
Definition remove (t : tree) (p : string) : bool * tree :=
  match at_path t false p with
  | None => (false, t)
  | Some q =>
      match kind t q with
      | None => (false, t)
      | Some n =>
          if bool_decide (q = []) || (bool_decide (n = NDir) && holds_names t q) then (false, t)
          else (true, mkTree (delete q (names t)) (data t) (next t))
      end
  end.

Definition remove_all (t : tree) (p : string) : bool * tree :=
  match at_path t false p with
  | None => (false, t)
  | Some q => (true, mkTree (filter (fun kv => is_prefix q kv.1 = false) (names t)) (data t) (next t))
  end.

(** link(2): the old name is not followed, a directory has no second name. *)
Definition link (t : tree) (old new : string) : bool * tree :=
  match look t false old with
  | None | Some NDir => (false, t)
  | Some n => create t new n
  end.

Definition entries_below (t : tree) (p : fpath) : list walk_entry :=
  map (fun kv => match kv.2 with
                 | NDir => WalkDir
                 | NFile i => WalkFile (Z.of_nat (length (default [] (data t !! i))))
                 | NLink _ => WalkOther
                 end)
    (List.filter (fun kv => is_prefix p kv.1) (map_to_list (names t))).

(** The calls of the image builder on a tree.  The path joiner of the library, the
    registry, the choice of a temporary directory and mkfs.ext4 are arguments. *)
Section disk.
Variable SecureJoin : tree -> string -> string -> option string.
Variable pull : string -> option image.
Variable temp : tree -> option fpath.
Variable tool : list string -> tree -> bool * tree.

Definition disk : env tree := fun c t =>
  match c return answer c * tree with
  | CImage q =>
      match q return ianswer q * tree with
      | IPull ref => (pull ref, t)
      | ISecureJoin root p => (SecureJoin t root p, t)
      | IMkdirTemp _ =>
          match temp t with Some d => (Some (abs_of d), set_name t d NDir) | None => (None, t) end
      | IMkdirAll p _ => mkdir_all (length (clean_elems p)) t (clean_elems p)
      | IOpenFile p _ => open_trunc t p
      | IOpen p => (open_read t p, t)
      | ICopy fd b => append t fd b
      | ICopyFile dst src => append t dst (default [] (data t !! src))
      | IChmod _ _ | IClose _ => (true, t)
      | ILchown p _ _ | ILstat p => (bool_decide (is_Some (look t false p)), t)
      | IRemove p => remove t p
      | IRemoveAll p => remove_all t p
      | ISymlink target p => create t p (NLink target)
      | ILink old new => link t old new
      | IWalkDir p => (entries_below t (clean_elems p), t)
      end
  | CRun argv _ => tool argv t
  | c => ((obliging c 0).1, t)
  end.
End disk.
End Tree.

(** ** Programs on a tree *)

Module Ends.

(** Where a program ends on a tree, whatever the Go memory. *)
Section ends.
Context {G O : Type} (h : env O).

Definition ends {A} (p : prog G A) (Q : A -> O -> Prop) (o : O) : Prop :=
  forall g, let '(a, _, o', _) := run h p g o in Q a o'.

Lemma ends_mono {A} (p : prog G A) (Q Q' : A -> O -> Prop) o :
  ends p Q o -> (forall a o', Q a o' -> Q' a o') -> ends p Q' o.
Proof. intros Hp HQ g. specialize (Hp g). destruct (run h p g o) as [[[a g'] o'] tr]. auto. Qed.

Lemma ends_ret {A} (a : A) (Q : A -> O -> Prop) o : Q a o -> ends (mret a) Q o.
Proof. by intros HQ g. Qed.

Lemma ends_sys c (Q : answer c -> O -> Prop) o : Q (h c o).1 (h c o).2 -> ends (sys c) Q o.
Proof. intros HQ g. cbn. by destruct (h c o). Qed.

Lemma ends_bind {A B} (p : prog G A) (f : A -> prog G B) Q o :
  ends p (fun a => ends (f a) Q) o -> ends (p ≫= f) Q o.
Proof.
  intros Hp g. rewrite run_bind. specialize (Hp g). destruct (run h p g o) as [[[a g1] o1] t1].
  specialize (Hp g1). by destruct (run h (f a) g1 o1) as [[[b g2] o2] t2].
Qed.

Lemma ends_try {E A B} (p : prog G (res E A)) (k : A -> prog G (res E B)) Q o :
  ends p (fun r o' => match r with Ok a => ends (k a) Q o' | Err e => Q (Err e) o' end) o -> ends (prog_try p k) Q o.
Proof. intros Hp. apply ends_bind. eapply ends_mono; [exact Hp|]. intros [a|e] o' H; [exact H|by apply ends_ret]. Qed.

Lemma ends_check {E} (e : E) (p : prog G bool) Q o :
  ends p (fun ok => Q (if ok then Ok tt else Err e)) o -> ends (check e p) Q o.
Proof. intros Hp. apply ends_bind. eapply ends_mono; [exact Hp|]. intros a o' H. by apply ends_ret. Qed.

Lemma ends_some_or {E A} (e : E) (p : prog G (option A)) Q o :
  ends p (fun r => Q (match r with Some a => Ok a | None => Err e end)) o -> ends (some_or e p) Q o.
Proof. intros Hp. apply ends_bind. eapply ends_mono; [exact Hp|]. intros a o' H. by apply ends_ret. Qed.

Lemma ends_for_each {E A} (l : list A) (f : A -> prog G (res E unit)) (I : O -> Prop) (Q : res E unit -> O -> Prop) o :
  I o -> (forall a o, a ∈ l -> I o -> ends (f a) (fun r o' => match r with Ok _ => I o' | Err e => Q (Err e) o' end) o) ->
  (forall o, I o -> Q (Ok tt) o) -> ends (for_each l f) Q o.
Proof.
  intros H0 Hf HQ. revert o H0. induction l as [|a l IH]; intros o H0; cbn [for_each]; [by apply ends_ret, HQ|].
  apply ends_try. eapply ends_mono; [apply Hf; [by left|done]|]. intros [[]|e] o' H; [|done].
  apply IH; [|done]. intros b o2 Hb. apply Hf. by right.
Qed.

Lemma ends_and {A} (p : prog G A) (Q R : A -> O -> Prop) o : ends p Q o -> ends p R o -> ends p (fun a o' => Q a o' /\ R a o') o.
Proof. intros HQ HR g. specialize (HQ g). specialize (HR g). by destruct (run h p g o) as [[[a g'] o'] tr]. Qed.

Lemma ends_run {A} (p : prog G A) Q o : ends p Q o <-> forall g, let '(a, _, o', _) := run h p g o in Q a o'.
Proof. done. Qed.
End ends.
#[global] Opaque ends.

(** One call. *)
Ltac call := match goal with |- ends ?h (sys ?c) ?Q ?o => refine (ends_sys h c Q o _) end.
End Ends.

(** ** Containment *)

Module Contained.
Import Ociroot Tree Ends.

Definition linked (t : tree) (q : fpath) : Prop := q <> [] /\ exists target, names t !! q = Some (NLink target).
(** No symbolic link on the way to a path, and none at it. *)
Definition no_links (t : tree) (p : fpath) : Prop := forall q, is_prefix q p = true -> ~ linked t q.

(** Every directory down to [d] is one; no file has a name inside [d] and one outside; numbers are not reused. *)
Record ok (d : fpath) (t : tree) : Prop := {
  ok_base : forall q, q <> [] -> is_prefix q d = true -> names t !! q = Some NDir;
  ok_apart : forall p q i, is_prefix d p = true -> is_prefix d q = false ->
    names t !! p = Some (NFile i) -> names t !! q = Some (NFile i) -> False;
  ok_fresh : forall p i, names t !! p = Some (NFile i) -> i < next t }.

(** Outside [d], names are what they were and so are the files they name. *)
Definition same (d : fpath) (t t' : tree) : Prop :=
  forall q, is_prefix d q = false ->
    names t' !! q = names t !! q /\ forall i, names t !! q = Some (NFile i) -> data t' !! i = data t !! i.

Lemma same_refl d t : same d t t.
Proof. by intros q Hq. Qed.

Lemma same_trans d t1 t2 t3 : same d t1 t2 -> same d t2 t3 -> same d t1 t3.
Proof.
  intros H1 H2 q Hq. destruct (H1 q Hq) as [N1 D1], (H2 q Hq) as [N2 D2]. split; [congruence|].
  intros i Hi. rewrite D2 by congruence. by apply D1.
Qed.

Definition step (d : fpath) (t t' : tree) : Prop := ok d t' /\ same d t t'.

Lemma step_refl d t : ok d t -> step d t t.
Proof. intros H. split; [done|apply same_refl]. Qed.

Lemma step_trans d t1 t2 t3 : step d t1 t2 -> step d t2 t3 -> step d t1 t3.
Proof. intros [_ S1] [H2 S2]. split; [done|by eapply same_trans]. Qed.

(** A file with a name inside [d]. *)
Definition mine (d : fpath) (t : tree) (i : Z) : Prop :=
  exists p, is_prefix d p = true /\ names t !! p = Some (NFile i).
Definition own (d : fpath) (t : tree) (n : node) : Prop := match n with NFile i => mine d t i | _ => True end.

Lemma is_prefix_app a b : is_prefix a (a ++ b) = true.
Proof. apply is_prefix_spec. by exists b. Qed.

Lemma is_prefix_refl a : is_prefix a a = true.
Proof. apply is_prefix_spec. exists []. by rewrite app_nil_r. Qed.

Lemma is_prefix_cancel d a b : is_prefix (d ++ a) (d ++ b) = is_prefix a b.
Proof. induction d as [|x d IH]; [done|]. cbn. by rewrite String.eqb_refl, IH. Qed.

Lemma is_prefix_antisym a b : is_prefix a b = true -> is_prefix b a = true -> a = b.
Proof.
  intros (r & ->)%is_prefix_spec (r' & H)%is_prefix_spec. rewrite <- app_assoc in H.
  rewrite <- (app_nil_r a) in H at 1. apply app_inv_head in H. symmetry in H. apply app_nil in H as [-> _]. by rewrite app_nil_r.
Qed.

Lemma is_prefix_trans a b c : is_prefix a b = true -> is_prefix b c = true -> is_prefix a c = true.
Proof. intros (r & ->)%is_prefix_spec (r' & ->)%is_prefix_spec. rewrite <- app_assoc. apply is_prefix_app. Qed.

(** A free name inside [d] is given to what is already inside, or to what is no file. *)
Lemma set_name_step d t q n :
  ok d t -> is_prefix d q = true -> q <> [] -> names t !! q = None -> own d t n -> step d t (set_name t q n).
Proof.
  intros [B A F] Hq Hne Hn Ho. split; [split; cbn|].
  - intros p Hp Hd. rewrite lookup_insert_ne; [by apply B|]. intros ->. rewrite B in Hn; done.
  - intros p1 p2 i H1 H2. destruct (decide (p2 = q)) as [->|Hne2]; [by rewrite Hq in H2|]. rewrite (lookup_insert_ne _ q p2) by done.
    destruct (decide (p1 = q)) as [->|Hne1].
    + rewrite lookup_insert_eq. intros [= ->] Hp2. destruct Ho as (p & Hp & Hi). by apply (A p p2 i).
    + rewrite lookup_insert_ne by done. by apply A.
  - intros p i. destruct (decide (p = q)) as [->|Hne1].
    + rewrite lookup_insert_eq. intros [= ->]. destruct Ho as (p & Hp & Hi). by apply (F p).
    + rewrite lookup_insert_ne by done. apply F.
  - intros p Hp. cbn. split; [|done]. apply lookup_insert_ne. intros ->. by rewrite Hq in Hp.
Qed.

Lemma set_data_step d t i b : ok d t -> mine d t i -> step d t (set_data t i b).
Proof.
  intros [B A F] (p & Hp & Hi). split; [by split|]. intros q Hq. split; [done|]. intros j Hj. cbn. apply lookup_insert_ne.
  intros ->. by apply (A p q j).
Qed.

(** *** Paths without links *)

Lemma plain_special x : plain x -> String.eqb x EmptyString || String.eqb x "." = false /\ String.eqb x ".." = false.
Proof.
  intros Hp. pose proof (clean_step_plain true [] x Hp) as H. unfold clean_step in H.
  destruct (String.eqb x EmptyString || String.eqb x "."); [done|]. split; [done|]. by destruct (String.eqb x "..").
Qed.

(** The last name may be a link where it is not followed. *)
Definition straight (t : tree) (follow : bool) (p : fpath) : Prop :=
  forall q, is_prefix q p = true -> linked t q -> q = p /\ follow = false.

Lemma resolve_straight l t follow cur rest q :
  Forall plain rest -> straight t follow (cur ++ rest) -> resolve l t follow cur rest = Some q -> q = cur ++ rest.
Proof.
  intros Hp. revert cur. induction Hp as [|x rest Hx Hrest IH]; intros cur Hs.
  - destruct l; intros [= ->]; by rewrite app_nil_r.
  - destruct (plain_special x Hx) as [E1 E2].
    replace (resolve l t follow cur (x :: rest)) with
      (match names t !! (cur ++ [x]) with
       | None | Some (NFile _) => if match rest with [] => true | _ => false end then Some (cur ++ [x]) else None
       | Some NDir => resolve l t follow (cur ++ [x]) rest
       | Some (NLink target) =>
          if match rest with [] => true | _ => false end && negb follow then Some (cur ++ [x])
          else match l with O => None | S l' => resolve l' t follow (if is_abs target then [] else cur) (split_byte slash target ++ rest) end
       end) by (destruct l; cbn [resolve]; by rewrite E1, E2).
    assert (cur ++ x :: rest = (cur ++ [x]) ++ rest) as Ec by (by rewrite <- app_assoc).
    destruct (names t !! (cur ++ [x])) as [[|i|target]|] eqn:En.
    + rewrite Ec. apply IH. by rewrite <- Ec.
    + destruct rest; [by intros [= <-]|done].
    + destruct (Hs (cur ++ [x])) as [He ->]; [rewrite Ec; apply is_prefix_app|split; [by destruct cur|by exists target]|].
      rewrite Ec in He. rewrite <- (app_nil_r (cur ++ [x])) in He at 1. apply app_inv_head in He as <-. cbn. by intros [= <-].
    + destruct rest; [by intros [= <-]|done].
Qed.

Lemma at_path_straight t follow p q : Forall plain p -> straight t follow p -> at_path t follow (abs_of p) = Some q -> q = p.
Proof.
  intros Hp Hs. unfold at_path. rewrite split_abs_of by done. destruct p as [|x p]; [by intros [= <-]|].
  rewrite decide_False by done.
  change (resolve MAXSYMLINKS t follow [] (EmptyString :: x :: p)) with (resolve MAXSYMLINKS t follow [] (x :: p)).
  by apply (resolve_straight MAXSYMLINKS t follow []).
Qed.

Lemma no_links_straight t follow p : no_links t p -> straight t follow p.
Proof. intros H q Hq Hl. by destruct (H q Hq). Qed.

Lemma no_links_prefix t p q : is_prefix q p = true -> no_links t p -> no_links t q.
Proof. intros Hq H r Hr. apply H. by eapply is_prefix_trans. Qed.

Lemma removelast_prefix (p : fpath) : is_prefix (removelast p) p = true.
Proof.
  destruct (decide (p = [])) as [->|Hne]; [done|]. rewrite (app_removelast_last EmptyString Hne) at 2. apply is_prefix_app.
Qed.

Lemma removelast_plain (p : fpath) : Forall plain p -> Forall plain (removelast p).
Proof.
  destruct (decide (p = [])) as [->|Hne]; [done|]. rewrite (app_removelast_last EmptyString Hne) at 1. by intros [H _]%Forall_app.
Qed.

Lemma Dir_abs p : Forall plain p -> p <> [] -> Dir (abs_of p) = abs_of (removelast p).
Proof.
  intros Hp Hne. rewrite (app_removelast_last EmptyString Hne) in Hp |- * at 1. apply Forall_app in Hp as [H1 H2].
  inversion H2; subst. by apply Dir_abs_of.
Qed.

(** Towards [d] or into it. *)
Definition towards (d p : fpath) : Prop := is_prefix d p = true \/ is_prefix p d = true.

Lemma towards_up d p : towards d p -> towards d (removelast p).
Proof.
  intros [(r & ->)%is_prefix_spec|Hp].
  - destruct (decide (r = [])) as [->|Hr]; [right; rewrite app_nil_r; apply removelast_prefix|]. left. rewrite removelast_app by done. apply is_prefix_app.
  - right. eapply is_prefix_trans; [apply removelast_prefix|done].
Qed.

(** *** The calls *)

(** Names only appear, and none of them is a link. *)
Definition grows (t t' : tree) : Prop :=
  forall q, names t' !! q = names t !! q \/ (names t !! q = None /\ names t' !! q = Some NDir).

Lemma dirs_grow_refl t : grows t t.
Proof. by left. Qed.

Lemma dirs_grow_trans t1 t2 t3 : grows t1 t2 -> grows t2 t3 -> grows t1 t3.
Proof. intros H1 H2 q. destruct (H1 q) as [E1|[N1 D1]], (H2 q) as [E2|[N2 D2]]; [left|right|right|]; (split || idtac); congruence. Qed.

Lemma dirs_grow_no_links t t' p : grows t t' -> no_links t p -> no_links t' p.
Proof.
  intros Hg H q Hq (Hne & target & Ht). destruct (Hg q) as [E|[_ D]]; [|congruence]. apply (H q Hq). split; [done|]. exists target. congruence.
Qed.

(** A new name on a way without links. *)
Lemma create_spec d t p n :
  ok d t -> towards d p -> Forall plain p -> straight t false p -> own d t n ->
  let '(b, t') := create t (abs_of p) n in
  step d t t' /\ (t' = t \/ names t !! p = None /\ t' = set_name t p n).
Proof.
  intros Hok Ht Hp Hs Ho. unfold create. destruct (at_path t false (abs_of p)) as [q|] eqn:Eq; [|by split; [apply step_refl|left]].
  apply at_path_straight in Eq as ->; [|done..]. unfold kind. case_bool_decide as Hne; [by split; [apply step_refl|left]|].
  destruct (names t !! p) as [m|] eqn:En; [by split; [apply step_refl|left]|]. split; [|by right].
  apply set_name_step; try done. destruct Ht as [H|H]; [done|]. rewrite (ok_base d t Hok) in En; done.
Qed.

Lemma mkdir_all_spec d n t p :
  ok d t -> towards d p -> Forall plain p -> no_links t p ->
  let '(b, t') := mkdir_all n t p in step d t t' /\ grows t t'.
Proof.
  revert t p. induction n as [|n IH]; intros t p Hok Ht Hp Hl; cbn [mkdir_all].
  - destruct (look t true (abs_of p)) as [[| |]|]; (split; [by apply step_refl|apply dirs_grow_refl]).
  - destruct (look t true (abs_of p)) as [[| |]|]; try (split; [by apply step_refl|apply dirs_grow_refl]).
    specialize (IH t (removelast p) Hok (towards_up d p Ht) (removelast_plain p Hp) (no_links_prefix t p _ (removelast_prefix p) Hl)).
    destruct (mkdir_all n t (removelast p)) as [b t1]. destruct IH as [S1 G1]. destruct b; cbn [negb]; [|done].
    pose proof (create_spec d t1 p NDir (proj1 S1) Ht Hp (no_links_straight _ _ _ (dirs_grow_no_links _ _ _ G1 Hl)) I) as Hc.
    destruct (create t1 (abs_of p) NDir) as [b t2]. destruct Hc as [S2 Hc]. split; [by eapply step_trans|].
    eapply dirs_grow_trans; [exact G1|]. destruct Hc as [->|[Hn ->]]; [apply dirs_grow_refl|]. intros q. cbn.
    destruct (decide (q = p)) as [->|Hne]; [right; by rewrite lookup_insert_eq|left; by rewrite lookup_insert_ne].
Qed.

Lemma open_trunc_spec d t p :
  ok d t -> is_prefix d p = true -> p <> [] -> Forall plain p -> no_links t p ->
  let '(r, t') := open_trunc t (abs_of p) in
  step d t t' /\ (forall i, r = Some i -> mine d t' i) /\ (forall q, no_links t q -> no_links t' q).
Proof.
  intros Hok Hd Hne Hp Hl. unfold open_trunc.
  destruct (at_path t true (abs_of p)) as [q|] eqn:Eq; [|by split; [apply step_refl|split]].
  apply at_path_straight in Eq as ->; [|done|by apply no_links_straight]. unfold kind. rewrite bool_decide_eq_false_2 by done.
  destruct (names t !! p) as [[|i|target]|] eqn:En; try by (split; [apply step_refl|split]).
  - split; [|split; [|done]].
    + apply set_data_step; [done|by exists p].
    + intros j [= <-]. by exists p.
  - destruct Hok as [B A F]. assert (forall q, names t !! q <> Some (NFile (next t))) as Hfr by (intros q Hq; apply F in Hq; lia).
    split; [split; [split; cbn|]|split].
    + intros q Hq Hqd. rewrite lookup_insert_ne; [by apply B|]. intros <-. rewrite B in En; done.
    + intros p1 p2 i H1 H2. destruct (decide (p2 = p)) as [->|Hne2]; [by rewrite Hd in H2|]. rewrite (lookup_insert_ne _ p p2) by done.
      destruct (decide (p1 = p)) as [->|Hne1]; [rewrite lookup_insert_eq; intros [= <-]; by intros ?%Hfr|].
      rewrite lookup_insert_ne by done. by apply A.
    + intros q i. destruct (decide (q = p)) as [->|Hne1]; [rewrite lookup_insert_eq; intros [= <-]; lia|].
      rewrite lookup_insert_ne by done. intros ?%F. lia.
    + intros q Hq. cbn. split; [apply lookup_insert_ne; intros ->; by rewrite Hd in Hq|]. intros i Hi. apply lookup_insert_ne. intros <-. by apply Hfr in Hi.
    + intros i [= <-]. exists p. split; [done|]. cbn. by rewrite lookup_insert_eq.
    + intros q Hq r Hr (Hr0 & target & Ht). apply (Hq r Hr). split; [done|]. exists target. cbn in Ht.
      destruct (decide (r = p)) as [->|Hne1]; [by rewrite lookup_insert_eq in Ht|by rewrite lookup_insert_ne in Ht].
Qed.

Lemma append_spec d t i b :
  ok d t -> mine d t i -> let '(r, t') := append t i b in step d t t' /\ names t' = names t.
Proof.
  intros Hok Hm. unfold append. destruct (data t !! i); [|by split; [apply step_refl|]]. split; [by apply set_data_step|done].
Qed.

(** Something is below. *)
Definition occupied (d : fpath) (t : tree) : Prop := exists x r, is_Some (names t !! (d ++ x :: r)).

Lemma holds_names_spec t d : holds_names t d = true <-> occupied d t.
Proof.
  unfold holds_names. rewrite existsb_exists. split.
  - intros ([q n] & Hin%list_elem_of_In%elem_of_map_to_list & [(r & Hq)%is_prefix_spec Hne]%andb_true_iff). cbn in *. subst q.
    destruct r as [|x r]; [|exists x, r; by exists n]. by rewrite app_nil_r, (bool_decide_eq_true_2 (d = d)) in Hne.
  - intros (x & r & n & Hn). exists (d ++ x :: r, n). split; [by apply list_elem_of_In, elem_of_map_to_list|]. cbn.
    rewrite is_prefix_app, bool_decide_eq_false_2; [done|]. intros H. rewrite <- (app_nil_r d) in H at 2. by apply app_inv_head in H.
Qed.

(** The directory itself is only ever taken for a link's place when something is in it. *)
Definition standing (d p : fpath) (t : tree) : Prop := p <> d \/ occupied d t.

Lemma remove_spec d t p :
  ok d t -> is_prefix d p = true -> Forall plain p -> no_links t p -> standing d p t ->
  let '(b, t') := remove t (abs_of p) in step d t t' /\ (t' = t \/ names t' = delete p (names t)).
Proof.
  intros Hok Hd Hp Hl Hst. unfold remove. destruct (at_path t false (abs_of p)) as [q|] eqn:Eq; [|by split; [apply step_refl|left]].
  apply at_path_straight in Eq as ->; [|done|by apply no_links_straight].
  destruct (kind t p) as [n|] eqn:Ek; [|by split; [apply step_refl|left]].
  destruct (_ || _) eqn:Ec; [by split; [apply step_refl|left]|]. apply orb_false_iff in Ec as [Hne Hdir].
  apply bool_decide_eq_false in Hne. split; [|by right].
  assert (is_prefix p d = false) as Hpd.
  { apply not_true_iff_false. intros H. assert (p = d) as -> by by apply is_prefix_antisym. destruct Hst as [|Ho]; [done|].
    apply holds_names_spec in Ho. unfold kind in Ek. rewrite bool_decide_eq_false_2, (ok_base d t Hok) in Ek by done.
    injection Ek as <-. by rewrite bool_decide_eq_true_2, Ho in Hdir. }
  destruct Hok as [B A F]. split; [split; cbn|].
  - intros q Hq Hqd. rewrite lookup_delete_ne; [by apply B|]. intros ->. by rewrite Hpd in Hqd.
  - intros p1 p2 i H1 H2 [_ E1]%lookup_delete_Some [_ E2]%lookup_delete_Some. by apply (A p1 p2 i).
  - intros q i [_ E]%lookup_delete_Some. by apply (F q).
  - intros q Hq. cbn. split; [|done]. apply lookup_delete_ne. intros ->. by rewrite Hd in Hq.
Qed.

Lemma removed_no_links t t' p q : t' = t \/ names t' = delete p (names t) -> no_links t q -> no_links t' q.
Proof.
  intros [->|E]; [done|]. intros H r Hr (Hne & target & Ht). apply (H r Hr). split; [done|]. exists target. rewrite E in Ht. by apply lookup_delete_Some in Ht as [_ ?].
Qed.

Lemma link_spec d t old p :
  ok d t -> is_prefix d old = true -> Forall plain old -> no_links t old ->
  is_prefix d p = true -> Forall plain p -> no_links t p ->
  let '(b, t') := link t (abs_of old) (abs_of p) in step d t t'.
Proof.
  intros Hok Ho Hop Hol Hd Hp Hl. unfold link, look.
  destruct (at_path t false (abs_of old)) as [q|] eqn:Eq; cbn [mbind option_bind]; [|by apply step_refl].
  apply at_path_straight in Eq as ->; [|done|by apply no_links_straight].
  destruct (kind t old) as [n|] eqn:Ek; [|by apply step_refl].
  destruct (decide (n = NDir)) as [->|Hn]; [by apply step_refl|].
  assert (own d t n) as Hown.
  { unfold kind in Ek. case_bool_decide; [congruence|]. destruct n; [done|by exists old|done]. }
  pose proof (create_spec d t p n Hok (or_introl Hd) Hp (no_links_straight _ _ _ Hl) Hown) as Hc.
  destruct n; [done| |]; by destruct (create t (abs_of p) _) as [b t'], Hc.
Qed.

(** *** The path joiner *)

(** What the documentation of github.com/cyphar/filepath-securejoin says of [SecureJoin]: the
    path it returns is inside the root, and no component of it below the root is a
    symbolic link; where there are no links it is the path as it is written, in which
    dot-dot stops at the root. *)
Class Joiner (SecureJoin : tree -> string -> string -> option string) : Prop := {
  join_scoped : forall t d p r, Forall plain d -> SecureJoin t (abs_of d) p = Some r ->
    exists q, Forall plain q /\ r = abs_of (d ++ q) /\
      forall q', q' <> [] -> is_prefix q' q = true -> ~ linked t (d ++ q');
  join_plain : forall t d p r, Forall plain d -> (forall q, ~ linked t (d ++ q)) ->
    SecureJoin t (abs_of d) p = Some r -> r = abs_of (d ++ clean_elems (String slash p)) }.

Section contained.
Context {G : Type} (SecureJoin : tree -> string -> string -> option string) `{!Joiner SecureJoin}.
Context (pull : string -> option image) (temp : tree -> option fpath) (tool : list string -> tree -> bool * tree).
Context (d : fpath) (d_plain : Forall plain d) (d_below : d <> []).
Let h := disk SecureJoin pull temp tool.
Let root := abs_of d.

Lemma ok_not_linked t q : ok d t -> is_prefix q d = true -> ~ linked t q.
Proof. intros Hok Hq (Hne & target & Ht). rewrite (ok_base d t Hok) in Ht; done. Qed.

Lemma ends_mkdir s perm p t (Q : bool -> tree -> Prop) :
  clean_elems s = p -> ok d t -> towards d p -> Forall plain p -> no_links t p ->
  (forall b t', step d t t' -> grows t t' -> Q b t') -> ends (G:=G) h (sys (CImage (IMkdirAll s perm))) Q t.
Proof.
  intros <- Hok Ht Hp Hl HQ. call. change (Q (mkdir_all (length (clean_elems s)) t (clean_elems s)).1 (mkdir_all (length (clean_elems s)) t (clean_elems s)).2).
  pose proof (mkdir_all_spec d (length (clean_elems s)) t (clean_elems s) Hok Ht Hp Hl) as Hm.
  destruct (mkdir_all _ t (clean_elems s)) as [b t']. destruct Hm. by apply HQ.
Qed.

(** A path inside, resolved: where a name of the image stands for. *)
Definition placed (t : tree) (q : fpath) : Prop := Forall plain q /\ no_links t (d ++ q).

Lemma placed_plain t q : placed t q -> Forall plain (d ++ q).
Proof. intros [Hq _]. by apply Forall_app. Qed.

Lemma no_links_below t q :
  ok d t -> (forall q', q' <> [] -> is_prefix q' q = true -> ~ linked t (d ++ q')) -> no_links t (d ++ q).
Proof.
  intros Hok Hl r (s & Hs)%is_prefix_spec. destruct (app_eq_inv _ _ _ _ Hs) as [(k & Ed & Es)|(k & Er & Eq)].
  - apply ok_not_linked; [done|]. apply is_prefix_spec. eauto.
  - rewrite Er. destruct (decide (k = [])) as [->|Hk]; [rewrite app_nil_r; apply ok_not_linked; [done|apply is_prefix_refl]|].
    apply Hl; [done|]. apply is_prefix_spec. eauto.
Qed.

Lemma secureJoin_ends t name :
  ok d t ->
  ends (G:=G) h (secureJoin root name) (fun r t' => t' = t /\ forall p, r = Ok p ->
    exists q, p = abs_of (d ++ q) /\ placed t q /\ (clean_elems (String slash name) <> [] -> standing d (d ++ q) t)) t.
Proof.
  intros Hok. unfold secureJoin. case_match; [by apply ends_ret|]. case_match; [by apply ends_ret|].
  apply ends_try, ends_some_or. call. cbn. destruct (SecureJoin t root name) as [p|] eqn:Ej; [|done].
  case_match; apply ends_ret; [done|]. split; [done|]. intros p' [= <-].
  destruct (join_scoped t d name p d_plain Ej) as (q & Hq & -> & Hl). exists q. split; [done|]. split; [split; [done|]|].
  - by apply no_links_below.
  - intros Hc. destruct (decide (q = [])) as [->|Hne]; [|left; intros E; rewrite <- (app_nil_r d) in E at 2; by apply app_inv_head in E].
    right. destruct (decide (holds_names t d = true)) as [?%holds_names_spec|Hf]; [done|]. rewrite holds_names_spec in Hf.
    assert (forall q, ~ linked t (d ++ q)) as Hfree.
    { intros [|x r]; [rewrite app_nil_r; apply ok_not_linked; [done|apply is_prefix_refl]|]. intros (_ & target & Ht). apply Hf. by exists x, r, (NLink target). }
    pose proof (join_plain t d name _ d_plain Hfree Ej) as E. apply (f_equal clean_elems) in E.
    assert (Forall plain (clean_elems (String slash name))) as Hpl by by apply clean_elems_rooted.
    rewrite !clean_elems_abs_of in E by (by rewrite ?app_nil_r; try apply Forall_app). by apply app_inv_head in E.
Qed.

Lemma ends_wrapped {E F A} (w : E -> F) (p : prog G (res E A)) Q t :
  ends h p (fun r => Q (match r with Ok a => Ok a | Err e => Err (w e) end)) t -> ends h (wrapped w p) Q t.
Proof. intros Hp. apply ends_bind. eapply ends_mono; [exact Hp|]. intros r t' H. by apply ends_ret. Qed.

(** A call that changes nothing. *)
Lemma ends_idle c (Q : answer c -> tree -> Prop) t :
  (h c t).2 = t -> (forall x, Q x t) -> ends (G:=G) h (sys c) Q t.
Proof. intros Ht HQ. call. rewrite Ht. apply HQ. Qed.

#[local] Ltac idle := match goal with |- ends _ (sys ?c) ?Q ?o => refine (ends_idle c Q o eq_refl _) end.

Lemma ends_parent q perm t (Q : bool -> tree -> Prop) :
  ok d t -> placed t q -> (forall b t', step d t t' -> grows t t' -> Q b t') ->
  ends (G:=G) h (sys (CImage (IMkdirAll (Dir (abs_of (d ++ q))) perm))) Q t.
Proof.
  intros Hok Hq HQ. pose proof (placed_plain t q Hq) as Hp. apply (ends_mkdir _ _ (removelast (d ++ q))); [|done| | | |done].
  - rewrite Dir_abs, clean_elems_abs_of; [done|by apply removelast_plain|done|by destruct d].
  - apply towards_up. left. apply is_prefix_app.
  - by apply removelast_plain.
  - eapply no_links_prefix; [apply removelast_prefix|apply Hq].
Qed.

Lemma dirs_grow_placed t t' q : grows t t' -> placed t q -> placed t' q.
Proof. intros Hg [Hq Hl]. split; [done|by eapply dirs_grow_no_links]. Qed.

Lemma dirs_grow_standing t t' p : grows t t' -> standing d p t -> standing d p t'.
Proof.
  intros Hg [H|(x & r & n & Hn)]; [by left|]. right. exists x, r. destruct (Hg (d ++ x :: r)) as [E|[E _]]; [rewrite E; by exists n|congruence].
Qed.

(** What is written to a file that was opened inside. *)
Lemma ends_open p perm t (Q : option Z -> tree -> Prop) :
  ok d t -> is_prefix d p = true -> Forall plain p -> no_links t p ->
  (forall r t', step d t t' -> (forall i, r = Some i -> mine d t' i) -> (forall q, no_links t q -> no_links t' q) -> Q r t') ->
  ends (G:=G) h (sys (CImage (IOpenFile (abs_of p) perm))) Q t.
Proof.
  intros Hok Hd Hp Hl HQ. call. change (Q (open_trunc t (abs_of p)).1 (open_trunc t (abs_of p)).2).
  assert (p <> []) as Hne by (intros ->; by destruct d).
  pose proof (open_trunc_spec d t p Hok Hd Hne Hp Hl) as Ho. destruct (open_trunc t (abs_of p)) as [r t']. destruct Ho as (S & M & L). by apply HQ.
Qed.

Lemma append_keeps fd b t (Q : bool -> tree -> Prop) :
  ok d t -> mine d t fd -> (forall r t', step d t t' -> names t' = names t -> Q r t') ->
  Q (append t fd b).1 (append t fd b).2.
Proof.
  intros Hok Hm HQ. pose proof (append_spec d t fd b Hok Hm) as Ha. destruct (append t fd b) as [r t']. destruct Ha. by apply HQ.
Qed.

Lemma ends_copy fd b t (Q : bool -> tree -> Prop) :
  ok d t -> mine d t fd -> (forall r t', step d t t' -> names t' = names t -> Q r t') ->
  ends (G:=G) h (sys (CImage (ICopy fd b))) Q t.
Proof. intros Hok Hm HQ. call. by apply (append_keeps fd b t Q). Qed.

Lemma ends_copy_file fd src t (Q : bool -> tree -> Prop) :
  ok d t -> mine d t fd -> (forall r t', step d t t' -> names t' = names t -> Q r t') ->
  ends (G:=G) h (sys (CImage (ICopyFile fd src))) Q t.
Proof. intros Hok Hm HQ. call. by apply (append_keeps fd (default [] (data t !! src)) t Q). Qed.

Lemma writeRegular_ends t q e perm :
  ok d t -> placed t q -> ends (G:=G) h (writeRegular (abs_of (d ++ q)) e perm) (fun _ t' => step d t t') t.
Proof.
  intros Hok Hq. unfold writeRegular. apply ends_try, ends_some_or.
  apply ends_open; [done|apply is_prefix_app|by apply (placed_plain t)|apply Hq|]. intros [fd|] t1 S1 M1 _; [|done].
  specialize (M1 fd eq_refl). apply ends_bind, ends_try, ends_check. apply ends_copy; [apply S1|done|]. intros r t2 S2 _.
  assert (step d t t2) as S by by eapply step_trans.
  assert (forall r : res unit unit, ends (G:=G) h (_ ← sys (CImage (IClose fd)); mret r) (fun _ t' => step d t t') t2) as Hclose.
  { intros r'. apply ends_bind. idle. intros x. by apply ends_ret. }
  destruct r; [|apply Hclose]. destruct (negb (te_complete e)); [apply ends_ret, Hclose|].
  apply ends_try, ends_check. idle. intros []; [|apply Hclose]. apply ends_check. idle. intros []; apply Hclose.
Qed.

(** A link takes the place of a name below the directory, not that of the directory. *)
Definition below_root (e : tar_entry) : Prop :=
  match te_Typeflag e with
  | TarSymlink | TarLink => clean_elems (String slash (te_Name e)) <> []
  | _ => True
  end.

Lemma applyOwnership_ends t t0 p e : step d t0 t -> ends (G:=G) h (_ ← applyOwnership p e; mret (Ok tt)) (fun (_ : res oci_error unit) t' => step d t0 t') t.
Proof. intros S. apply ends_bind, ends_bind. idle. intros x. by do 2 apply ends_ret. Qed.

Lemma symlinkTargetStaysInside_ends t p target Q :
  (forall b, Q b t) -> ends (G:=G) h (symlinkTargetStaysInside root p target) Q t.
Proof.
  intros HQ. unfold symlinkTargetStaysInside. case_match; [|by apply ends_ret]. apply ends_bind. idle. intros [r|]; by apply ends_ret.
Qed.

(** The place of a link: its parents are made and what was there is taken away. *)
Lemma ends_cleared t q (k : prog G (res oci_error unit)) :
  ok d t -> placed t q -> standing d (d ++ q) t ->
  (forall t', step d t t' -> (forall r, no_links t r -> no_links t' r) -> ends h k (fun _ t2 => step d t t2) t') ->
  ends h (must _ := check OciMkdirParent (sys (CImage (IMkdirAll (Dir (abs_of (d ++ q))) 493))) in
          _ ← sys (CImage (IRemove (abs_of (d ++ q)))); k) (fun _ t' => step d t t') t.
Proof.
  intros Hok Hq Hst Hk. apply ends_try, ends_check, ends_parent; [done..|]. intros b t1 S1 G1. destruct b; [|done].
  pose proof (dirs_grow_placed _ _ _ G1 Hq) as Hq1. apply ends_bind. call. change (h (CImage (IRemove ?p)) t1) with (remove t1 p).
  pose proof (remove_spec d t1 (d ++ q) (proj1 S1) (is_prefix_app d q) (placed_plain _ _ Hq1) (proj2 Hq1) (dirs_grow_standing _ _ _ G1 Hst)) as Hr.
  destruct (remove t1 (abs_of (d ++ q))) as [b t2]. destruct Hr as [S2 Hr]. cbn [fst snd]. apply Hk; [by eapply step_trans|].
  intros r Hl. eapply removed_no_links; [exact Hr|]. by eapply dirs_grow_no_links.
Qed.

Lemma extractEntry_ends t e :
  ok d t -> below_root e -> ends (G:=G) h (extractEntry root e) (fun _ t' => step d t t') t.
Proof.
  intros Hok He. unfold extractEntry. apply ends_try, ends_wrapped. eapply ends_mono; [by apply secureJoin_ends|].
  intros [p|err] t' [-> Hp]; [|by apply step_refl]. destruct (Hp p eq_refl) as (q & -> & Hq & Hst). clear Hp.
  pose proof (placed_plain t q Hq) as Hpl. unfold below_root in He. destruct (te_Typeflag e).
  - apply ends_try, ends_check, ends_parent; [done..|]. intros b t1 S1 G1. destruct b; [|done].
    apply ends_try, ends_wrapped. eapply ends_mono; [apply writeRegular_ends; [apply S1|by eapply dirs_grow_placed]|].
    intros [[]|?] t2 S2; [apply applyOwnership_ends|]; by eapply step_trans.
  - apply ends_try, ends_check, (ends_mkdir _ _ (d ++ q)); [by apply clean_elems_abs_of|done|left; apply is_prefix_app|done|apply Hq|].
    intros b t1 S1 _. destruct b; [by apply applyOwnership_ends|done].
  - apply ends_bind, symlinkTargetStaysInside_ends. intros []; cbn [negb]; [|by apply ends_ret, step_refl].
    apply ends_cleared; [done|done|by apply Hst|]. intros t1 S1 L1. apply ends_check. call. change (h (CImage (ISymlink ?x ?p)) t1) with (create t1 p (NLink x)).
    pose proof (create_spec d t1 (d ++ q) (NLink (te_Linkname e)) (proj1 S1) (or_introl (is_prefix_app d q)) Hpl (no_links_straight _ _ _ (L1 _ (proj2 Hq))) I) as Hc.
    destruct (create t1 _ _) as [b t2]. eapply step_trans; [exact S1|apply Hc].
  - apply ends_try, ends_wrapped. eapply ends_mono; [by apply secureJoin_ends|]. intros [p|err] t' [-> Hp]; [|by apply step_refl].
    destruct (Hp p eq_refl) as (o & -> & Ho & _). apply ends_cleared; [done|done|by apply Hst|]. intros t1 S1 L1. apply ends_check. call.
    change (h (CImage (ILink ?x ?p)) t1) with (link t1 x p).
    pose proof (link_spec d t1 (d ++ o) (d ++ q) (proj1 S1) (is_prefix_app d o) (placed_plain t o Ho) (L1 _ (proj2 Ho)) (is_prefix_app d q) Hpl (L1 _ (proj2 Hq))) as Hc.
    destruct (link t1 _ _) as [b t2]. eapply step_trans; [exact S1|apply Hc].
  - by apply ends_ret, step_refl.
  - by apply ends_ret, step_refl.
  - by apply ends_ret, step_refl.
  - by apply ends_ret, step_refl.
Qed.

Lemma ExtractImage_ends t img :
  ok d t -> Forall below_root (im_entries img) -> ends (G:=G) h (ExtractImage img root) (fun _ t' => step d t t') t.
Proof.
  intros Hok Hb. unfold ExtractImage.
  apply ends_try, ends_check, (ends_mkdir _ _ d); [by apply clean_elems_abs_of|done|left; apply is_prefix_refl|done|intros q Hq; by apply ok_not_linked|].
  intros b t1 S1 _. destruct b; [|done]. apply ends_try, (ends_for_each h _ _ (step d t)); [done| |intros t2 S2; by apply ends_ret].
  intros e t2 He S2. eapply ends_mono; [apply extractEntry_ends; [apply S2|]|].
  - rewrite Forall_forall in Hb. by apply Hb, list_elem_of_In.
  - intros [[]|err] t3 S3; by eapply step_trans.
Qed.

(** *** Putting in the agent *)

(** The paths the agent, the shell and the mount points are written to. *)
Definition agent_paths : list fpath := ["init"] :: ["bin"; "busybox"] :: map (fun mp => [mp]) mountPoints.
Definition unlinked (t : tree) : Prop := forall q, q ∈ agent_paths -> no_links t (d ++ q).

Lemma agent_paths_plain q : q ∈ agent_paths -> Forall plain q.
Proof.
  intros Hq. assert (Forall (Forall plain) agent_paths) as H; [|rewrite Forall_forall in H; by apply H, list_elem_of_In].
  apply (bool_decide_unpack _). by vm_compute.
Qed.

Lemma unlinked_placed t q : unlinked t -> q ∈ agent_paths -> placed t q.
Proof. intros Hu Hq. split; [by apply agent_paths_plain|by apply Hu]. Qed.

Lemma copyFile_ends t q src perm :
  ok d t -> placed t q ->
  ends (G:=G) h (copyFile src (abs_of (d ++ q)) perm) (fun _ t' => step d t t' /\ forall r, no_links t r -> no_links t' r) t.
Proof.
  intros Hok Hq. unfold copyFile. apply ends_try, ends_some_or. idle. intros [fd|]; [|by split; [apply step_refl|]].
  set (Q := fun (_ : res unit unit) (t' : tree) => step d t t' /\ forall r, no_links t r -> no_links t' r).
  assert (forall c (r : res unit unit) t', (h c t').2 = t' -> Q r t' -> ends (G:=G) h (_ ← sys c; mret r) Q t') as Hclose.
  { intros c r t' Hc HQ. apply ends_bind. refine (ends_idle c _ t' Hc _). intros x. by apply ends_ret. }
  apply ends_bind, ends_try, ends_check, ends_parent; [done..|]. intros b t1 S1 G1.
  assert (forall r, Q r t1) as Q1 by (split; [done|intros; by eapply dirs_grow_no_links]). destruct b; [|by apply Hclose].
  pose proof (dirs_grow_placed _ _ _ G1 Hq) as Hq1. apply ends_try, ends_some_or, ends_open; [apply S1|apply is_prefix_app|by apply (placed_plain t1)|apply Hq1|].
  intros r t2 S2 M2 L2. assert (forall r, Q r t2) as Q2 by (split; [by eapply step_trans|intros; by apply L2, Q1]; exact (Ok tt)).
  destruct r as [out|]; [|by apply Hclose]. specialize (M2 out eq_refl).
  apply ends_bind, ends_try, ends_check, ends_copy_file; [apply S2|done|]. intros r t3 S3 N3.
  assert (forall r, Q r t3) as Q3.
  { intros r'. split; [eapply step_trans; [apply (Q2 r')|done]|]. intros p Hp w Hw (Hne & target & Ht).
    apply (proj2 (Q2 r') p Hp w Hw). split; [done|]. exists target. by rewrite <- N3. }
  assert (forall r : res unit unit, ends (G:=G) h (_ ← sys (CImage (IClose out)); mret r) (fun r => ends (G:=G) h (_ ← sys (CImage (IClose fd)); mret r) Q) t3) as Hend.
  { intros r'. apply ends_bind. idle. intros x. apply ends_ret. by apply Hclose. }
  destruct r; [|apply Hend]. apply ends_try, ends_check. idle. intros []; [|apply Hend]. apply ends_check. idle. intros []; apply Hend.
Qed.

Definition kept (t t' : tree) : Prop := step d t t' /\ unlinked t'.

Lemma kept_trans t1 t2 t3 : kept t1 t2 -> kept t2 t3 -> kept t1 t3.
Proof. intros [S1 _] [S2 U2]. split; [by eapply step_trans|done]. Qed.

Lemma copyFile_kept t q src perm :
  ok d t -> unlinked t -> q ∈ agent_paths -> ends (G:=G) h (copyFile src (abs_of (d ++ q)) perm) (fun _ t' => kept t t') t.
Proof.
  intros Hok Hu Hq. eapply ends_mono; [apply copyFile_ends; [done|by apply unlinked_placed]|].
  intros _ t' [S L]. split; [done|]. intros p Hp. by apply L, Hu.
Qed.

Lemma mkdir_kept t q perm p (Q : bool -> tree -> Prop) :
  ok d t -> unlinked t -> p ∈ agent_paths -> is_prefix q p = true -> (forall b t', kept t t' -> Q b t') ->
  ends (G:=G) h (sys (CImage (IMkdirAll (abs_of (d ++ q)) perm))) Q t.
Proof.
  intros Hok Hu Hp Hqp HQ. assert (Forall plain q) as Hq.
  { apply is_prefix_spec in Hqp as (r & ->). apply agent_paths_plain in Hp. by apply Forall_app in Hp as [? _]. }
  assert (Forall plain (d ++ q)) as Hdq by by apply Forall_app.
  apply (ends_mkdir _ _ (d ++ q)); [by apply clean_elems_abs_of|done|left; apply is_prefix_app|done| |].
  - eapply no_links_prefix; [|by apply (Hu p)]. apply is_prefix_spec in Hqp as (r & ->). rewrite app_assoc. apply is_prefix_app.
  - intros b t' S Hg. apply HQ. split; [done|]. intros r Hr. by eapply dirs_grow_no_links, Hu.
Qed.

Definition applets : list string := ["sh"; "echo"; "cat"; "ls"].

(** A link beside busybox is on no way to what is written. *)
Lemma applet_kept t applet (Q : bool -> tree -> Prop) :
  ok d t -> unlinked t -> applet ∈ applets -> (forall b t', kept t t' -> Q b t') ->
  ends (G:=G) h (sys (CImage (ISymlink "busybox" (abs_of (d ++ ["bin"; applet]))))) Q t.
Proof.
  intros Hok Hu Ha HQ. call. change (h (CImage (ISymlink ?x ?p)) t) with (create t p (NLink x)).
  assert (Forall (fun a => plain a /\ Forall (fun q => is_prefix ["bin"; a] q = false) agent_paths) applets) as Happ
    by (apply (bool_decide_unpack _); by vm_compute).
  rewrite Forall_forall in Happ. destruct (Happ applet) as [Hpl Hoff]; [by apply list_elem_of_In|]. clear Happ.
  assert (Forall plain (d ++ ["bin"; applet])) as Hp.
  { apply Forall_app. split; [done|]. constructor; [by apply (bool_decide_unpack _)|by constructor]. }
  assert (straight t false (d ++ ["bin"; applet])) as Hs.
  { intros q (r & Hr)%is_prefix_spec Hl. destruct (decide (r = [])) as [->|Hne]; [by rewrite app_nil_r in Hr|].
    exfalso. refine (Hu ["bin"; "busybox"] _ q _ Hl); [by apply (bool_decide_unpack _)|].
    assert (is_prefix q (d ++ ["bin"]) = true) as Hq.
    { apply is_prefix_spec. exists (removelast r). apply (f_equal (@removelast _)) in Hr. rewrite !removelast_app in Hr by done. exact Hr. }
    eapply is_prefix_trans; [exact Hq|]. change (d ++ ["bin"; "busybox"]) with (d ++ ["bin"] ++ ["busybox"]). rewrite app_assoc. apply is_prefix_app. }
  pose proof (create_spec d t _ (NLink "busybox") Hok (or_introl (is_prefix_app d _)) Hp Hs I) as Hc.
  destruct (create t _ _) as [b t']. destruct Hc as [S Hc]. apply HQ. split; [done|]. destruct Hc as [->|[Hn ->]]; [done|].
  intros q Hq r Hr (Hne & target & Ht). cbn in Ht. destruct (decide (r = d ++ ["bin"; applet])) as [->|Hnr].
  - rewrite Forall_forall in Hoff. apply list_elem_of_In in Hq. specialize (Hoff q Hq). rewrite is_prefix_cancel in Hr. by rewrite Hr in Hoff.
  - rewrite lookup_insert_ne in Ht by done. apply (Hu q Hq r Hr). split; [done|]. by exists target.
Qed.

Lemma ensureShell_ends t busybox :
  ok d t -> unlinked t -> ends (G:=G) h (ensureShell root busybox) (fun _ t' => kept t t') t.
Proof.
  intros Hok Hu. unfold ensureShell, root.
  assert (Forall plain ["bin"]) as Hbin by by apply (bool_decide_unpack _).
  assert (forall a, plain a -> Join [Join [abs_of d; "bin"]; a] = abs_of (d ++ ["bin"; a])) as EJ.
  { intros a Ha. rewrite (Join_plain d ["bin"]), (Join_plain (d ++ ["bin"]) [a]), <- app_assoc; [done|by apply Forall_app|by apply Forall_singleton|done..]. }
  rewrite !EJ by by apply (bool_decide_unpack _).
  assert (kept t t) as K0 by (split; [by apply step_refl|done]).
  apply ends_bind. idle. intros []; [by apply ends_ret|]. case_match; [by apply ends_ret|].
  rewrite (Join_plain d ["bin"]) by done.
  apply ends_try, ends_check, (mkdir_kept _ _ _ ["bin"; "busybox"]); [done|done|by apply (bool_decide_unpack _)|done|]. intros b t1 K1. destruct b; [|done].
  apply ends_try, ends_wrapped. eapply ends_mono; [apply copyFile_kept; [apply K1|apply K1|by apply (bool_decide_unpack _)]|].
  intros r t2 K2. assert (kept t t2) as K by by eapply kept_trans. destruct r as [[]|]; [|done].
  apply (ends_for_each h _ _ (kept t)); [done| |done]. intros a t3 Ha K3.
  assert (Forall plain applets) as Hpl by (apply (bool_decide_unpack _); by vm_compute). rewrite Forall_forall in Hpl.
  rewrite <- (Join_plain d ["bin"]), EJ by (done || by apply Hpl, list_elem_of_In).
  apply ends_bind. idle. intros []; [by apply ends_ret|]. apply ends_check, applet_kept; [apply K3|apply K3|done|].
  intros [] t4 K4; by eapply kept_trans.
Qed.

Lemma InjectAgent_ends t agent busybox :
  ok d t -> unlinked t -> ends (G:=G) h (InjectAgent root agent busybox) (fun _ t' => kept t t') t.
Proof.
  intros Hok Hu. unfold InjectAgent, root. rewrite (Join_plain d ["init"]) by (done || by apply (bool_decide_unpack _)).
  apply ends_try, ends_wrapped. eapply ends_mono; [apply copyFile_kept; [done|done|by apply (bool_decide_unpack _)]|].
  intros r t1 K1. destruct r as [[]|]; [|done]. apply ends_try. eapply ends_mono; [apply ensureShell_ends; apply K1|].
  intros r t2 K2. assert (kept t t2) as K by by eapply kept_trans. destruct r as [[]|]; [|done].
  apply (ends_for_each h _ _ (kept t)); [done| |done]. intros mp t3 Hmp K3.
  assert ([mp] ∈ agent_paths) as Hin by (do 2 apply list_elem_of_further; by apply list_elem_of_In, (in_map (fun m => [m])), list_elem_of_In).
  rewrite Join_plain by (done || by apply agent_paths_plain).
  apply ends_check, (mkdir_kept _ _ _ [mp]); [apply K3|apply K3|done|apply is_prefix_refl|]. intros [] t4 K4; by eapply kept_trans.
Qed.
End contained.

(** *** The whole build *)

(** os.MkdirTemp makes a directory under a name that was not in use, in one that
    is reached without links. *)
Class FreshTemp (temp : tree -> option fpath) : Prop := {
  temp_new : forall t d, temp t = Some d -> Forall plain d /\ d <> [] /\ (forall q, names t !! (d ++ q) = None) /\
    forall q, q <> [] -> q <> d -> is_prefix q d = true -> names t !! q = Some NDir }.

(** But for one name, names are what they were and so are the files they name. *)
Definition unchanged_but (out : fpath) (t t' : tree) : Prop :=
  forall q, q <> out -> names t' !! q = names t !! q /\ forall i, names t !! q = Some (NFile i) -> data t' !! i = data t !! i.

(** mkfs.ext4 writes the image it is told to, and nothing else. *)
Class Mkfs (tool : list string -> tree -> bool * tree) : Prop := {
  mkfs_output : forall src out size t, Forall plain out ->
    unchanged_but out t (tool ["mkfs.ext4"; "-F"; "-q"; "-d"; src; abs_of out; size] t).2 }.

Lemma temp_ok t d :
  d <> [] -> (forall q, names t !! (d ++ q) = None) ->
  (forall q, q <> [] -> q <> d -> is_prefix q d = true -> names t !! q = Some NDir) ->
  (forall p i, names t !! p = Some (NFile i) -> i < next t) -> ok d (set_name t d NDir).
Proof.
  intros Hne Hnew Hup Hfr. split; cbn.
  - intros q Hq Hqd. destruct (decide (q = d)) as [->|Hn]; [by rewrite lookup_insert_eq|]. rewrite lookup_insert_ne by done. by apply Hup.
  - intros p q i (r & ->)%is_prefix_spec Hq. destruct (decide (r = [])) as [->|Hr]; [by rewrite app_nil_r, lookup_insert_eq|].
    rewrite lookup_insert_ne by (intros E; rewrite <- (app_nil_r d) in E at 1; by apply app_inv_head in E). by rewrite Hnew.
  - intros p i. destruct (decide (p = d)) as [->|Hn]; [by rewrite lookup_insert_eq|]. rewrite lookup_insert_ne by done. apply Hfr.
Qed.

Lemma resolve_dirs l t follow cur rest :
  Forall plain rest -> (forall q, is_prefix q rest = true -> q <> [] -> names t !! (cur ++ q) = Some NDir) ->
  resolve l t follow cur rest = Some (cur ++ rest).
Proof.
  intros Hp. revert cur. induction Hp as [|x rest Hx Hrest IH]; intros cur Hd; [destruct l; by rewrite app_nil_r|].
  destruct (plain_special x Hx) as [E1 E2]. assert (names t !! (cur ++ [x]) = Some NDir) as En by (apply Hd; [cbn; by rewrite String.eqb_refl|done]).
  replace (resolve l t follow cur (x :: rest)) with (resolve l t follow (cur ++ [x]) rest) by (destruct l; cbn [resolve]; by rewrite E1, E2, En).
  rewrite IH; [by rewrite <- app_assoc|]. intros q Hq _. rewrite <- app_assoc. apply Hd; [cbn; by rewrite String.eqb_refl|done].
Qed.

Lemma at_path_dirs t follow d :
  Forall plain d -> (forall q, q <> [] -> is_prefix q d = true -> names t !! q = Some NDir) -> at_path t follow (abs_of d) = Some d.
Proof.
  intros Hp Hd. unfold at_path. rewrite split_abs_of by done. destruct d as [|x d]; [done|]. rewrite decide_False by done.
  change (resolve MAXSYMLINKS t follow [] (EmptyString :: x :: d)) with (resolve MAXSYMLINKS t follow [] (x :: d)).
  apply (resolve_dirs MAXSYMLINKS t follow []); [done|]. intros q Hq Hne. by apply Hd.
Qed.

(** Removing the temporary directory leaves what was there before it. *)
Lemma remove_temp t t' out d :
  Forall plain d -> (forall q, names t !! (d ++ q) = None) ->
  (forall q, q <> [] -> is_prefix q d = true -> names t' !! q = Some NDir) ->
  (forall q, q <> out -> is_prefix d q = false ->
     names t' !! q = names t !! q /\ forall i, names t !! q = Some (NFile i) -> data t' !! i = data t !! i) ->
  unchanged_but out t (remove_all t' (abs_of d)).2.
Proof.
  intros Hp Hnew Hd Hs q Hq. unfold remove_all. rewrite at_path_dirs by done. cbn. destruct (is_prefix d q) eqn:Eq.
  - assert (names t !! q = None) as -> by (apply is_prefix_spec in Eq as (r & ->); apply Hnew). split; [|done].
    apply map_lookup_filter_None. right. intros n _. cbn. by rewrite Eq.
  - destruct (Hs q Hq Eq) as [<- Hdata]. split; [|done]. destruct (names t' !! q) as [n|] eqn:En.
    + by apply map_lookup_filter_Some.
    + apply map_lookup_filter_None. by left.
Qed.

Section build.
Context {G : Type} (SecureJoin : tree -> string -> string -> option string) `{!Joiner SecureJoin}.
Context (pull : string -> option image) (temp : tree -> option fpath) `{!FreshTemp temp}.
Context (tool : list string -> tree -> bool * tree) `{!Mkfs tool}.
Let h := disk SecureJoin pull temp tool.

(** From the unpacked tree to the disk, in a directory of its own. *)
Lemma rest_of_build t d img out agent busybox :
  Forall plain d -> d <> [] -> ok d t -> Forall plain out -> ~ towards d out -> Forall below_root (im_entries img) ->
  ends (G:=G) h (ExtractImage img (abs_of d)) (fun r t2 => r = Ok tt -> unlinked d t2) t ->
  ends (G:=G) h
    (must _ := wrapped BuildExtract (ExtractImage img (abs_of d)) in
     must _ := wrapped BuildInject (InjectAgent (abs_of d) agent busybox) in
     must sizeMB := wrapped BuildSize (DirSizeMB (abs_of d)) in
     wrapped BuildExt4Failed (BuildExt4 (abs_of d) (abs_of out) sizeMB))
    (fun _ t' => (forall q, q <> [] -> is_prefix q d = true -> names t' !! q = Some NDir) /\
       forall q, q <> out -> is_prefix d q = false ->
         names t' !! q = names t !! q /\ forall i, names t !! q = Some (NFile i) -> data t' !! i = data t !! i) t.
Proof.
  intros Hp Hne Hok Hop Hout Hb Hu.
  set (Q := fun (_ : res build_error unit) t' => (forall q, q <> [] -> is_prefix q d = true -> names t' !! q = Some NDir) /\
       forall q, q <> out -> is_prefix d q = false ->
         names t' !! q = names t !! q /\ forall i, names t !! q = Some (NFile i) -> data t' !! i = data t !! i).
  assert (forall r t', step d t t' -> Q r t') as HQ by (intros r t' [[B _ _] S]; split; [exact B|intros q _; apply S]).
  apply ends_try, ends_wrapped. eapply ends_mono; [apply ends_and; [by apply ExtractImage_ends|exact Hu]|].
  intros [[]|e] t2 [S2 U2]; [|by apply HQ]. specialize (U2 eq_refl).
  apply ends_try, ends_wrapped. eapply ends_mono; [apply InjectAgent_ends; [done|done|apply S2|done]|].
  intros r t3 [S3 _]. assert (step d t t3) as S by by eapply step_trans. destruct r as [[]|]; [|by apply HQ].
  apply ends_try, ends_wrapped, ends_bind. call. apply ends_ret. cbn [fst snd disk h]. destruct (total_size _ 0) as [total|]; [|by apply HQ].
  apply ends_wrapped. unfold BuildExt4, execRunner. apply ends_check. call. change (disk SecureJoin pull temp tool (CRun ?a EmptyString) t3) with (tool a t3).
  pose proof (mkfs_output (abs_of d) out (format_d (if with_headroom total <? minRootfsMB then minRootfsMB else with_headroom total) +:+ "M") t3 Hop) as Ht.
  destruct (tool _ t3) as [b t4]. cbn [fst snd] in *. split.
  - intros q Hq Hqd. rewrite (proj1 (Ht q ltac:(intros ->; apply Hout; by right))). by apply (ok_base d t3 (proj1 S)).
  - intros q Hq Hqd. destruct (Ht q Hq) as [N1 D1], (proj2 S q Hqd) as [N2 D2]. split; [congruence|]. intros i Hi. rewrite D1 by congruence. by apply D2.
Qed.

(** C18. Unpacking an image and making a disk of it changes nothing on the host but the
    disk: every other name, inside the temporary directory and outside, ends as it
    was, and so does every file that has one, whatever the image holds, at whatever
    point the build fails, and however its links and hard links point; provided that no
    link of the image takes the place of its root directory, and that none stands,
    once the image is unpacked, where the agent, the shell or a mount point is
    written. *)
Theorem image_build_contained t (g : G) ref out agent busybox :
  (forall p i, names t !! p = Some (NFile i) -> i < next t) -> Forall plain out ->
  (forall d, temp t = Some d -> ~ towards d out) ->
  (forall img, pull ref = Some img -> Forall below_root (im_entries img)) ->
  (forall img d, pull ref = Some img -> temp t = Some d ->
     ends (G:=G) (disk SecureJoin pull temp tool) (ExtractImage img (abs_of d)) (fun r t2 => r = Ok tt -> unlinked d t2) (set_name t d NDir)) ->
  let '(_, _, t', _) := run (disk SecureJoin pull temp tool) (buildRootfsFromImage ref (abs_of out) agent busybox) g t in
  unchanged_but out t t'.
Proof.
  intros Hfr Hop Hout Hb Hu. revert g. apply ends_run. unfold buildRootfsFromImage. case_match; [by apply ends_ret|].
  apply ends_try, ends_some_or. unfold PullImage. call. cbn [disk fst snd]. destruct (pull ref) as [img|]; [|done].
  apply ends_try, ends_some_or. call. cbn [disk fst snd]. destruct (temp t) as [d|] eqn:Ed; [|done].
  destruct (temp_new t d Ed) as (Hp & Hne & Hnew & Hup). apply ends_bind. eapply ends_mono; [apply rest_of_build; try done|].
  - by apply temp_ok.
  - by apply Hout.
  - by apply Hb.
  - by apply Hu.
  - intros r t' [HB HS]. apply ends_bind. call. apply ends_ret. apply remove_temp; [done|done|done|]. intros q Hq Hqd.
    destruct (HS q Hq Hqd) as [N D]. cbn in N, D. rewrite lookup_insert_ne in N, D by (intros <-; by rewrite is_prefix_refl in Hqd). done.
Qed.
End build.
End Contained.

(** ** The size of the disk *)

Module Sizing.
Import Ociroot.

(** A rounding moves a number by at most one part in two to the power of 53. *)
Lemma round53_near n : 0 <= n -> (2 ^ 53 - 1) * n <= 2 ^ 53 * round53 n <= (2 ^ 53 + 1) * n.
Proof.
  intros Hn. unfold round53. rewrite Z.abs_eq by done. destruct (_ <=? 0) eqn:Ee; [lia|]. apply Z.leb_gt in Ee.
  set (e := Z.log2 n - 52) in *. assert (0 < n) as Hpos by (destruct (decide (n = 0)) as [->|]; [by vm_compute in Ee|lia]).
  assert (2 ^ 53 * 2 ^ (e - 1) <= n) as Hlow.
  { rewrite <- Z.pow_add_r by lia. replace (53 + (e - 1)) with (Z.log2 n) by lia. by apply Z.log2_spec. }
  assert (2 ^ e = 2 * 2 ^ (e - 1)) as He by (rewrite <- Z.pow_succ_r by lia; f_equal; lia).
  pose proof (Z.div_mod n (2 ^ e) ltac:(lia)) as Hdm. pose proof (Z.mod_pos_bound n (2 ^ e) ltac:(lia)) as Hm.
  set (q := n / 2 ^ e) in *. set (r := n mod 2 ^ e) in *. set (half := 2 ^ (e - 1)) in *.
  destruct (_ || _) eqn:Er.
  - assert (r <= half) by (apply orb_true_iff in Er as [?%Z.ltb_lt|[?%Z.eqb_eq _]%andb_true_iff]; lia). lia.
  - assert (half <= r) by (apply orb_false_iff in Er as [?%Z.ltb_ge _]; lia). lia.
Qed.

Lemma round53_nonneg n : 0 <= n -> 0 <= round53 n.
Proof. intros Hn. pose proof (round53_near n Hn). lia. Qed.

Lemma with_headroom_near total :
  0 <= total -> total <= with_headroom total * 2 ^ 20 /\ (with_headroom total - 1) * 2 ^ 20 * 2 <= 3 * total.
Proof.
  intros Ht. unfold with_headroom, rootfsHeadroom. pose proof (round53_near total Ht) as H1. pose proof (round53_nonneg total Ht) as H2.
  set (f := round53 total) in *. pose proof (round53_near (f * 6305039478318694) ltac:(lia)) as H3. set (r := round53 (f * 6305039478318694)) in *.
  pose proof (Z.div_mod (- r) (2 ^ 72) ltac:(lia)) as Hd. pose proof (Z.mod_pos_bound (- r) (2 ^ 72) ltac:(lia)) as Hm.
  set (c := - r / 2 ^ 72) in *. set (m := - r mod 2 ^ 72) in *. lia.
Qed.

(** What a walk over the directory can read, and the bytes of the files it meets. *)
Definition readable (e : walk_entry) : Prop :=
  match e with WalkFailed _ => False | WalkFile size => 0 <= size | _ => True end.
Definition content (es : list walk_entry) : Z :=
  fold_right (fun e n => match e with WalkFile size => size + n | _ => n end) 0 es.

Lemma content_nonneg es : Forall readable es -> 0 <= content es.
Proof. induction 1 as [|e es He _ IH]; [done|]. cbn [content fold_right]. fold (content es). destruct e; cbn in He; lia. Qed.

Lemma total_size_exact es n :
  Forall readable es -> 0 <= n -> n + content es < 2 ^ 63 -> total_size es n = Some (n + content es).
Proof.
  intros Hes. revert n. induction Hes as [|e es He Hes IH]; intros n Hn Hb; [cbn; f_equal; lia|].
  pose proof (content_nonneg es Hes) as Hc. destruct e as [msg| |size|]; cbn [total_size content fold_right readable] in *; fold (content es) in *; [done|by apply IH| |by apply IH].
  rewrite i64_small by (unfold is_i64; lia). rewrite IH by lia. f_equal. lia.
Qed.

(** The disk made of a directory has room for every byte of its files, and is at least
    64 MB; it is never more than half as large again as they are, but for the last MB. *)
Theorem disk_holds_content {G O} (h : env O) (g : G) o dir :
  Forall readable (h (CImage (IWalkDir dir)) o).1 -> content (h (CImage (IWalkDir dir)) o).1 < 2 ^ 63 ->
  exists size, (run h (DirSizeMB dir) g o).1.1.1 = Ok size /\ minRootfsMB <= size /\
    content (h (CImage (IWalkDir dir)) o).1 <= size * 2 ^ 20 /\
    (minRootfsMB < size -> (size - 1) * 2 ^ 20 * 2 <= 3 * content (h (CImage (IWalkDir dir)) o).1).
Proof.
  intros Hr Hb. unfold DirSizeMB. cbn. destruct (h (CImage (IWalkDir dir)) o) as [es o']. cbn [fst] in *.
  pose proof (content_nonneg es Hr) as Hc. rewrite (total_size_exact es 0) by (done || lia). eexists. split; [done|].
  pose proof (with_headroom_near (content es) Hc) as [H1 H2]. unfold minRootfsMB. rewrite Z.add_0_l. destruct (_ <? 64) eqn:E; lia.
Qed.
End Sizing.

(** ** Examples *)

Module OciExamples.
Import Ociroot Tree Ends Contained.

(** A path joiner: links start at the root of the image, dot-dot stops there, and names
    that do not exist are taken as they are. *)
Fixpoint scoped (links : nat) (t : tree) (d : fpath) : fpath -> list string -> option fpath :=
  fix go (cur : fpath) (todo : list string) : option fpath :=
    match todo with
    | [] => Some cur
    | x :: rest =>
        if String.eqb x EmptyString || String.eqb x "." then go cur rest
        else if String.eqb x ".." then go (removelast cur) rest
        else
          match names t !! (d ++ cur ++ [x]) with
          | Some (NLink target) =>
              match links with
              | O => None
              | S links' => scoped links' t d (if is_abs target then [] else cur) (split_byte slash target ++ rest)
              end
          | _ => go (cur ++ [x]) rest
          end
    end.

Definition is_link (o : option node) : bool := match o with Some (NLink _) => true | _ => false end.
Definition linked_on (t : tree) (d q : fpath) : bool :=
  existsb (fun n => is_link (names t !! (d ++ take n q))) (seq 1 (length q)).

Definition ex_join (t : tree) (root p : string) : option string :=
  let d := clean_elems root in
  match scoped 255 t d [] (split_byte slash p) with
  | None => None
  | Some q => if bool_decide (Forall plain q) && negb (linked_on t d q) then Some (abs_of (d ++ q)) else None
  end.

Lemma linked_on_spec t d q q' : linked_on t d q = false -> q' <> [] -> is_prefix q' q = true -> ~ linked t (d ++ q').
Proof.
  intros Hf Hne (r & ->)%is_prefix_spec (_ & target & Ht). apply not_true_iff_false in Hf. apply Hf, existsb_exists.
  exists (length q'). split; [apply in_seq; rewrite length_app; destruct q'; cbn; (done || lia)|]. by rewrite take_app_length, Ht.
Qed.

Lemma scoped_plain links t d acc todo :
  (forall q, ~ linked t (d ++ q)) -> Forall (fun x => x <> "..") acc ->
  scoped links t d (rev acc) todo = Some (rev (fold_left (clean_step true) todo acc)).
Proof.
  intros Hl. revert acc. induction todo as [|x todo IH]; intros acc Ha; [by destruct links|].
  assert (is_link (names t !! (d ++ rev acc ++ [x])) = false) as Hn.
  { destruct (names t !! (d ++ rev acc ++ [x])) as [[| |target]|] eqn:En; try done. exfalso. apply (Hl (rev acc ++ [x])).
    split; [by destruct d, (rev acc)|by exists target]. }
  replace (scoped links t d (rev acc) (x :: todo)) with (scoped links t d (rev (clean_step true acc x)) todo).
  - cbn [fold_left]. apply IH. unfold clean_step. destruct (_ || _); [done|]. destruct (String.eqb_spec x ".."); [|by constructor].
    destruct Ha as [|y acc Hy Ha]; [done|]. by destruct (String.eqb_spec y "..").
  - unfold clean_step. destruct links; cbn [scoped]; (destruct (_ || _); [done|]); destruct (String.eqb x "..").
    1, 3: destruct Ha as [|y acc Hy Ha]; [done|]; destruct (String.eqb_spec y ".."); [done|]; cbn [rev]; by rewrite removelast_last.
    all: cbn [rev]; by destruct (names t !! (d ++ rev acc ++ [x])) as [[| |]|].
Qed.

#[global] Instance ex_joiner : Joiner ex_join.
Proof.
  split.
  - intros t d p r Hd. unfold ex_join. rewrite clean_elems_abs_of by done. destruct (scoped _ _ _ _ _) as [q|]; [|done].
    destruct (_ && _) eqn:E; [|done]. intros [= <-]. apply andb_true_iff in E as [Hq%bool_decide_eq_true Hl%negb_true_iff].
    exists q. split; [done|]. split; [done|]. intros q'. by apply linked_on_spec.
  - intros t d p r Hd Hl. unfold ex_join. rewrite clean_elems_abs_of by done.
    pose proof (scoped_plain 255 t d [] (split_byte slash p) Hl ltac:(constructor)) as Es. change (rev []) with (@nil string) in Es.
    rewrite Es. destruct (_ && _); [|done]. by intros [= <-].
Qed.

(** The temporary directory of the example, where it is free. *)
Definition ex_dir : fpath := ["tmp"; "ociroot-extract-1"].
Definition ex_temp (t : tree) : option fpath :=
  if bool_decide (names t !! ["tmp"] = Some NDir) && negb (existsb (fun kv => is_prefix ex_dir kv.1) (map_to_list (names t)))
  then Some ex_dir else None.

#[global] Instance ex_fresh_temp : FreshTemp ex_temp.
Proof.
  split. intros t d. unfold ex_temp. destruct (_ && _) eqn:E; [|done]. intros [= <-].
  apply andb_true_iff in E as [Ht%bool_decide_eq_true Hf%negb_true_iff%not_true_iff_false].
  split; [by apply (bool_decide_unpack _)|]. split; [done|]. split.
  - intros q. destruct (names t !! (ex_dir ++ q)) as [n|] eqn:En; [|done]. exfalso. apply Hf, existsb_exists.
    exists (ex_dir ++ q, n). split; [by apply list_elem_of_In, elem_of_map_to_list|apply is_prefix_app].
  - intros q Hq Hne (r & Hr)%is_prefix_spec. destruct q as [|a [|b q]]; [done| |].
    + by injection Hr as <- _.
    + injection Hr as <- <- Hr. symmetry in Hr. by apply app_nil in Hr as [-> _].
Qed.

(** A tool that makes the file it is told to. *)
Definition ex_tool (argv : list string) (t : tree) : bool * tree :=
  match argv with
  | [_; _; _; _; _; out; _] => (true, set_name t (clean_elems out) (NFile (next t)))
  | _ => (false, t)
  end.

#[global] Instance ex_mkfs : Mkfs ex_tool.
Proof.
  split. intros src out size t Ho q Hq. cbn [ex_tool snd set_name names data]. rewrite clean_elems_abs_of by done. split; [by apply lookup_insert_ne|done].
Qed.

Definition ex_bytes (x : string) : bytes := String.list_ascii_of_string x.
Definition ex_entry (name : string) (k : tar_type) (target : string) : tar_entry :=
  mkTarEntry name k 493 target 0 0 (ex_bytes name) true.

(** A host with a password file and the agent's binary. *)
Definition ex_host : tree :=
  mkTree (list_to_map [(["tmp"], NDir); (["etc"], NDir); (["etc"; "shadow"], NFile 1); (["agent"], NFile 2); (["data"], NDir)])
    (list_to_map [(1, ex_bytes "root:*:"); (2, ex_bytes "the agent")]) 3.

Definition ex_build (entries : list tar_entry) : res build_error unit * tree :=
  let '(r, _, t, _) := run (disk ex_join (fun _ => Some (mkImage entries true)) ex_temp ex_tool)
    (buildRootfsFromImage "img" "/data/rootfs.ext4" "/agent" EmptyString) tt ex_host in (r, t).

(** An image with a shell, links within and a hard link. *)
Definition ex_image : list tar_entry :=
  [ex_entry "usr/bin" TarDir EmptyString; ex_entry "usr/bin/dash" TarReg EmptyString; ex_entry "bin" TarDir EmptyString;
   ex_entry "bin/sh" TarSymlink "/usr/bin/dash"; ex_entry "lib" TarSymlink "usr/lib"; ex_entry "lib/libc.so" TarReg EmptyString;
   ex_entry "usr/bin/sh" TarLink "usr/bin/dash"].

(** Whether no link stands where the agent is written. *)
Definition clear_of_links (d : fpath) (t : tree) : bool := forallb (fun q => negb (linked_on t [] (d ++ q))) agent_paths.
Lemma clear_of_links_spec d t : clear_of_links d t = true -> unlinked d t.
Proof.
  intros Hc q Hq r Hr Hl. unfold clear_of_links in Hc. rewrite forallb_forall in Hc. apply list_elem_of_In in Hq.
  specialize (Hc q Hq). apply negb_true_iff in Hc. destruct (decide (r = [])) as [->|Hne]; [by destruct Hl|].
  by apply (linked_on_spec t [] (d ++ q) r).
Qed.

Lemma ex_host_fresh p i : names ex_host !! p = Some (NFile i) -> i < next ex_host.
Proof.
  assert (forallb (fun kv => match kv.2 with NFile i => i <? 3 | _ => true end) (map_to_list (names ex_host)) = true) as Hall by by vm_compute.
  rewrite forallb_forall in Hall. intros Hp%elem_of_map_to_list%list_elem_of_In%Hall. by apply Z.ltb_lt in Hp.
Qed.

Lemma image_build_contained_witness :
  ex_temp ex_host = Some ex_dir /\ (ex_build ex_image).1 = Ok tt /\
  unchanged_but ["data"; "rootfs.ext4"] ex_host (ex_build ex_image).2.
Proof.
  split; [by vm_compute|]. split; [by vm_compute|].
  pose proof (image_build_contained ex_join (fun _ => Some (mkImage ex_image true)) ex_temp ex_tool ex_host tt "img" ["data"; "rootfs.ext4"] "/agent" EmptyString) as H.
  unfold ex_build. change "/data/rootfs.ext4" with (abs_of ["data"; "rootfs.ext4"]).
  destruct (run _ _ tt ex_host) as [[[r g] t] tr]. apply H.
  - apply ex_host_fresh.
  - by apply (bool_decide_unpack _).
  - intros d Hd. assert (Some ex_dir = Some d) as [= <-] by (rewrite <- Hd; by vm_compute). intros [Hc|Hc]; by vm_compute in Hc.
  - intros img [= <-]. repeat (constructor; [first [exact I | by vm_compute]|]). constructor.
  - intros img d [= <-] Hd. assert (Some ex_dir = Some d) as [= <-] by (rewrite <- Hd; by vm_compute).
    apply ends_run. intros []. destruct (run _ _ _ _) as [[[r' g'] t'] tr'] eqn:E. intros _. apply clear_of_links_spec.
    vm_compute in E. injection E as _ _ <- _. by vm_compute.
Defined.

(** An image that has a link for its init: the agent is written through it, over a
    file of the host. *)
Example init_link_overwrites_host :
  let '(r, t) := ex_build (ex_image ++ [ex_entry "init" TarSymlink "/etc/shadow"]) in
  r = Ok tt /\ data ex_host !! 1 = Some (ex_bytes "root:*:") /\ data t !! 1 = Some (ex_bytes "the agent").
Proof. by vm_compute. Qed.

(** An image whose root is a link: it takes the place of the temporary directory, which
    is still empty, and what is put in goes to the host's root directory. *)
Example root_link_reaches_host :
  let '(r, t) := ex_build [ex_entry "." TarSymlink "/"] in
  names ex_host !! ["init"] = None /\ names t !! ["init"] <> None.
Proof. by vm_compute. Qed.

(** A link to nowhere passes for a shell. *)
Example dangling_shell_accepted :
  (ex_build [ex_entry "bin/sh" TarSymlink "nowhere"]).1 = Ok tt.
Proof. by vm_compute. Qed.

(** A hundred MB of files. *)
Example disk_of_hundred : with_headroom (100 * 2 ^ 20) = 140.
Proof. by vm_compute. Qed.
End OciExamples.
