(* ===== verification/Vsock.v ===== *)
(** * The host side of the guest agent protocol (internal/vsock/client.go)

    One line of JSON per message on a connection to the guest.

    - [Vsock]: dialing with Firecracker's CONNECT preamble, the request/response
      client, and the streams of an execution, of run_code and of a terminal.
    - [StreamFacts]: what a stream's reader returns for every sequence of frames.
    - [Sharing]: requests on one connection get their own answers when they
      follow each other, and each other's when they overlap. *)
From S2P Require Import Prelude GoLib GoFs Host.
#[local] Open Scope go_scope.

Module Vsock.

Definition AgentPort : Z := 52.
Definition MaxTarBytes : Z := Z.shiftl 64 20.

(** [NilDeref] is a run-time panic: the code reads a part of the response that
    the guest left out. *)
Inductive vsock_error :=
| NotExist | DialError | ConnectWrite | ConnectRejected (resp : string) | ConnectNoResponse
| SendFailed | ConnectionClosed | BadResponse | AgentError (msg : string) | NilDeref
| EmptyTar | TarTooBig (n : Z)
| StreamSend | BadFrame | UnknownFrame (kind : string) | RecvFailed | Cancelled | ClosedEarly
| SpawnError (msg : string) | CallbackFailed.

Section client.
Context {G : Type}.

(** *** Dialing *)

Definition dial (path : string) : prog G (res vsock_error Z) :=
  r ← sys (CAgentDial path);
  mret (match r with Dialed conn => Ok conn | DialNoSocket => Err NotExist | DialFailed => Err DialError end).

Definition hang_up {A} (conn : Z) (e : vsock_error) : prog G (res vsock_error A) :=
  _ ← sys (CAgentClose conn); mret (Err e).

Definition is_OK (resp : string) : bool := has_prefix "OK" resp.

(** The preamble of Connect and DialStream. *)
Definition preamble (conn guestPort : Z) : prog G (res vsock_error Z) :=
  w ← sys (CConnWrite conn (WConnect guestPort));
  if negb w then hang_up conn ConnectWrite
  else
    l ← sys (CConnRead conn);
    match l with
    | None => hang_up conn ConnectNoResponse
    | Some l => if negb (is_OK (l_text l)) then hang_up conn (ConnectRejected (l_text l)) else mret (Ok conn)
    end.

Definition Connect (udsPath : string) (guestPort : Z) : prog G (res vsock_error Z) :=
  must conn := dial udsPath in preamble conn guestPort.

Definition ConnectUnix (sockPath : string) : prog G (res vsock_error Z) := dial sockPath.

Definition DialStream (udsPath : string) (guestPort : Z) : prog G (res vsock_error Z) :=
  must conn := dial udsPath in preamble conn guestPort.

(** Here any answer to the preamble will do. *)
Definition DialStreamUnix (sockPath : string) : prog G (res vsock_error Z) :=
  must conn := dial sockPath in
  w ← sys (CConnWrite conn (WConnect AgentPort));
  if negb w then hang_up conn ConnectWrite
  else
    l ← sys (CConnRead conn);
    match l with None => hang_up conn ConnectNoResponse | Some _ => mret (Ok conn) end.

Definition Close (conn : Z) : prog G unit := sys (CAgentClose conn).

(** *** Requests *)

Definition send (conn : Z) (req : agent_request) : prog G (res vsock_error agent_response) :=
  w ← sys (CConnWrite conn (WRequest req));
  if negb w then mret (Err SendFailed)
  else
    l ← sys (CConnRead conn);
    mret (match l with
          | None => Err ConnectionClosed
          | Some l =>
              match l_response l with
              | None => Err BadResponse
              | Some resp => if negb (ar_OK resp) then Err (AgentError (ar_Error resp)) else Ok resp
              end
          end).

(** The part of a successful response the caller dereferences. *)
Definition part {A} (o : option A) : res vsock_error A :=
  match o with Some a => Ok a | None => Err NilDeref end.

Definition Ping (conn : Z) : prog G (res vsock_error Z) :=
  must resp := send conn APing in mret (part (ar_Ping resp)).

(** A pointer is returned, so that a missing part is a nil result. *)
Definition Exec (conn : Z) (command workingDir : string) (env : gmap string string) (timeout : Z)
  : prog G (res vsock_error (option (Z * string * string))) :=
  must resp := send conn (AExec command workingDir env timeout) in mret (Ok (ar_Exec resp)).

Definition Configure (conn : Z) (env secrets : gmap string string) : prog G (res vsock_error unit) :=
  must _ := send conn (AConfigure env secrets) in mret (Ok tt).

Definition NotifyForkedWithConfig (conn generation : Z) (entropy : bytes)
    (network : option (string * string * Z * string)) (volumes : list (string * string * bool))
  : prog G (res vsock_error (option bool)) :=
  now ← sys CNow;
  must resp := send conn (ANotifyForked generation now entropy network volumes) in
  mret (Ok (ar_NotifyForked resp)).
Definition NotifyForkedWithNetwork (conn generation : Z) (entropy : bytes)
    (network : option (string * string * Z * string)) : prog G (res vsock_error (option bool)) :=
  NotifyForkedWithConfig conn generation entropy network [].
Definition NotifyForked (conn generation : Z) (entropy : bytes) : prog G (res vsock_error (option bool)) :=
  NotifyForkedWithNetwork conn generation entropy None.

Definition ReadFile (conn : Z) (path : string) : prog G (res vsock_error string) :=
  must resp := send conn (AReadFile path) in mret (part (ar_ReadFile resp)).
Definition WriteFile (conn : Z) (path content : string) (mode : Z) : prog G (res vsock_error unit) :=
  must _ := send conn (AWriteFile path content mode) in mret (Ok tt).
Definition ListDir (conn : Z) (path : string) : prog G (res vsock_error (list string)) :=
  must resp := send conn (AListDir path) in mret (part (ar_ListDir resp)).
Definition Mkdir (conn : Z) (path : string) : prog G (res vsock_error unit) :=
  must _ := send conn (AMkdir path) in mret (Ok tt).
Definition Remove (conn : Z) (path : string) : prog G (res vsock_error unit) :=
  must _ := send conn (ARemove path) in mret (Ok tt).

Definition TarDir (conn : Z) (path : string) : prog G (res vsock_error string) :=
  must resp := send conn (ATarDir path) in
  mret (match ar_TarDir resp with None => Err EmptyTar | Some tar => Ok tar end).
Definition UntarDir (conn : Z) (path tar : string) : prog G (res vsock_error unit) :=
  if MaxTarBytes <? Z.of_nat (String.length tar) then mret (Err (TarTooBig (Z.of_nat (String.length tar))))
  else must _ := send conn (AUntarDir path tar) in mret (Ok tt).

(** *** Streams *)

(** How a stream that delivered no terminal frame failed. *)
Definition ended (e : stream_end) : vsock_error :=
  match e with EndReadError => RecvFailed | EndCancelled => Cancelled | EndOfFile => ClosedEarly end.

(** The reader of an execution: [onChunk] handles one chunk, keeping a state. *)
Section exec_stream.
Context {S : Type} (onChunk : S -> string -> string -> prog G (option S)).

Fixpoint exec_frames (s : S) (ls : list line) (e : stream_end) : prog G (S * res vsock_error frame) :=
  match ls with
  | [] => mret (s, Err (ended e))
  | l :: ls =>
      match l_frame l with
      | None => mret (s, Err BadFrame)
      | Some f =>
          if String.eqb (f_Kind f) "chunk" then
            r ← onChunk s (f_Stream f) (f_Data f);
            match r with None => mret (s, Err CallbackFailed) | Some s => exec_frames s ls e end
          else if String.eqb (f_Kind f) "exit" then mret (s, Ok f)
          else mret (s, Err (UnknownFrame (f_Kind f)))
      end
  end.

Definition ExecStream (conn : Z) (command workingDir : string) (env : gmap string string) (timeout : Z) (s : S)
  : prog G (S * res vsock_error frame) :=
  w ← sys (CConnWrite conn (WRequest (AExecStream command workingDir env timeout)));
  if negb w then mret (s, Err StreamSend)
  else '(ls, e) ← sys (CConnLines conn); exec_frames s ls e.
End exec_stream.

(** The reader of run_code hands every frame on, the terminal one included. *)
Section run_code.
Context {S : Type} (onFrame : S -> frame -> prog G S).

Fixpoint code_frames (s : S) (ls : list line) (e : stream_end) : prog G (S * res vsock_error unit) :=
  match ls with
  | [] => mret (s, Err (ended e))
  | l :: ls =>
      match l_frame l with
      | None => mret (s, Err BadFrame)
      | Some f =>
          s ← onFrame s f;
          if String.eqb (f_Kind f) "exit" then mret (s, Ok tt) else code_frames s ls e
      end
  end.

Definition RunCode (conn : Z) (code language : string) (timeout : Z) (s : S) : prog G (S * res vsock_error unit) :=
  w ← sys (CConnWrite conn (WRequest (ARunCode code language timeout)));
  if negb w then mret (s, Err StreamSend)
  else '(ls, e) ← sys (CConnLines conn); code_frames s ls e.
End run_code.

(** The reader of a terminal. *)
Section pty.
Context {S : Type} (onOutput : S -> string -> prog G (option S)).

Fixpoint pty_frames (s : S) (ls : list line) (e : stream_end) : prog G (S * res vsock_error pty_frame) :=
  match ls with
  | [] => mret (s, Err (ended e))
  | l :: ls =>
      match l_pty l with
      | None => mret (s, Err BadFrame)
      | Some f =>
          if String.eqb (pf_Kind f) "output" then
            r ← onOutput s (pf_Data f);
            match r with None => mret (s, Err CallbackFailed) | Some s => pty_frames s ls e end
          else if String.eqb (pf_Kind f) "exit" then mret (s, Ok f)
          else mret (s, Err (UnknownFrame (pf_Kind f)))
      end
  end.

Definition Pty (conn cols rows : Z) (s : S) : prog G (S * res vsock_error pty_frame) :=
  w ← sys (CConnWrite conn (WRequest (APty cols rows)));
  if negb w then mret (s, Err StreamSend)
  else '(ls, e) ← sys (CConnLines conn); pty_frames s ls e.
End pty.

(** Frames towards the guest, once [Pty] has sent its request. *)
Definition writeFrame (conn : Z) (f : pty_frame) : prog G bool := sys (CConnWrite conn (WPtyFrame f)).
Definition SendInput (conn : Z) (data : string) : prog G bool :=
  writeFrame conn (mkPtyFrame "input" data 0 0 0 EmptyString).
Definition Resize (conn cols rows : Z) : prog G bool :=
  writeFrame conn (mkPtyFrame "resize" EmptyString cols rows 0 EmptyString).

(** StreamConn.Exec: both streams collected. *)
Definition collect (s : string * string) (stream data : string) : prog G (option (string * string)) :=
  mret (Some (if String.eqb stream "stdout" then (s.1 +:+ data, s.2) else (s.1, s.2 +:+ data))).
Definition StreamExec (conn : Z) (command workingDir : string) (env : gmap string string) (timeout : Z)
  : prog G (res vsock_error (Z * string * string)) :=
  '(s, exit) ← ExecStream collect conn command workingDir env timeout (EmptyString, EmptyString);
  mret (match exit with
        | Err e => Err e
        | Ok f => if negb (String.eqb (f_Error f) EmptyString) then Err (SpawnError (f_Error f))
                  else Ok (f_ExitCode f, s.1, s.2)
        end).

End client.
End Vsock.

(** ** What a stream's reader returns *)

Module StreamFacts.
Import Vsock.

Definition is_chunk (l : line) : bool :=
  match l_frame l with Some f => String.eqb (f_Kind f) "chunk" | None => false end.

(** The chunks before the first line that is something else, and that line. *)
Fixpoint chunks (ls : list line) : list frame :=
  match ls with
  | l :: ls => match l_frame l with
               | Some f => if String.eqb (f_Kind f) "chunk" then f :: chunks ls else []
               | None => []
               end
  | [] => []
  end.
Definition terminal (ls : list line) : option line := List.find (fun l => negb (is_chunk l)) ls.

Definition verdict (ls : list line) (e : stream_end) : res vsock_error frame :=
  match terminal ls with
  | None => Err (ended e)
  | Some l =>
      match l_frame l with
      | None => Err BadFrame
      | Some f => if String.eqb (f_Kind f) "exit" then Ok f else Err (UnknownFrame (f_Kind f))
      end
  end.

Definition output (stdout : bool) (fs : list frame) : string :=
  foldr (fun f acc => if Bool.eqb (String.eqb (f_Stream f) "stdout") stdout then f_Data f +:+ acc else acc) EmptyString fs.

Lemma exec_frames_exact {G} ls e out err :
  exec_frames (G := G) collect (out, err) ls e =
  mret (out +:+ output true (chunks ls), err +:+ output false (chunks ls), verdict ls e).
Proof.
  unfold verdict, terminal. revert out err. induction ls as [|l ls IH]; intros out err; cbn [exec_frames chunks List.find].
  - by rewrite !string_app_nil_r.
  - unfold is_chunk at 1. destruct (l_frame l) as [f|] eqn:Ef; cbn [negb].
    + destruct (String.eqb (f_Kind f) "chunk") eqn:Ek; cbn [negb].
      * unfold collect at 1. cbn. destruct (String.eqb (f_Stream f) "stdout"); cbn; unfold mbind, prog_mbind; cbn;
          rewrite IH; cbn; by rewrite !string_app_assoc.
      * rewrite Ef. cbn. rewrite !string_app_nil_r. by destruct (String.eqb (f_Kind f) "exit").
    + rewrite Ef. cbn. by rewrite !string_app_nil_r.
Qed.

(** Running a command over a stream returns exactly what the guest streamed: the
    bytes of each output in order, up to the first line that is not a chunk.  It
    succeeds if and only if that line is an exit frame without a spawn error,
    and then with its exit code; in every other case, a malformed or unknown
    frame, the connection lost before the exit frame, a cancelled request, it
    fails, and no output is returned as if complete. *)
Theorem stream_exec_exact {G O} (h : env O) conn command dir env timeout (g : G) o :
  let '(w, o1) := h (CConnWrite conn (WRequest (AExecStream command dir env timeout))) o in
  let '((ls, e), o2) := h (CConnLines conn) o1 in
  (run h (StreamExec conn command dir env timeout) g o).1.1.1 =
  (if w : bool then
     match verdict ls e with
     | Err err => Err err
     | Ok f => if String.eqb (f_Error f) EmptyString
               then Ok (f_ExitCode f, output true (chunks ls), output false (chunks ls))
               else Err (SpawnError (f_Error f))
     end
   else Err StreamSend).
Proof.
  unfold StreamExec, ExecStream. cbn [run mbind prog_mbind prog_bind sys].
  destruct (h (CConnWrite _ _) o) as [w o1] eqn:Ew. destruct (h (CConnLines conn) o1) as [[ls e] o2] eqn:El.
  destruct w; cbn; [|done]. rewrite El. cbn. rewrite exec_frames_exact. cbn.
  destruct (verdict ls e) as [f|err]; [|done]. by destruct (String.eqb (f_Error f) EmptyString).
Qed.

End StreamFacts.

(** ** Requests that share a connection *)

Module Sharing.
Import Vsock.

Definition requests_on (conn : Z) (t : trace) : list agent_request :=
  omap (fun e => match e with
                 | Ev (CConnWrite c (WRequest r)) true => if c =? conn then Some r else None
                 | _ => None
                 end) t.
Definition reads_on (conn : Z) (t : trace) : nat :=
  length (List.filter (fun e => match e with Ev (CConnRead c) (Some _) => c =? conn | _ => false end) t).

(** A guest that answers the requests of a connection in order. *)
Definition in_order (answer_of : agent_request -> agent_response) (t : trace) (c : call) : answer c -> Prop :=
  match c return answer c -> Prop with
  | CConnRead conn => fun x => forall l, x = Some l -> exists r,
      requests_on conn t !! reads_on conn t = Some r /\ l_response l = Some (answer_of r)
  | _ => fun _ => True
  end.

(** Every request of the connection has been answered. *)
Definition idle (conn : Z) (t : trace) : Prop := length (requests_on conn t) = reads_on conn t.

Lemma requests_snoc conn t e : requests_on conn (t ++ [e]) = requests_on conn t ++ requests_on conn [e].
Proof. apply omap_app. Qed.
Lemma reads_snoc conn t e : reads_on conn (t ++ [e]) = (reads_on conn t + reads_on conn [e])%nat.
Proof. unfold reads_on. by rewrite List.filter_app, length_app. Qed.

Section sharing.
Context {G : Type} (answer_of : agent_request -> agent_response).

(** On an idle connection a request gets its own answer and leaves the
    connection idle. *)
Lemma send_exclusive conn req (g : G) t :
  idle conn t ->
  wp (in_order answer_of) (send conn req)
    (fun r _ t' => forall resp, r = Ok resp -> resp = answer_of req /\ idle conn t') g t.
Proof.
  unfold idle. intros Hidle. apply wp_bind, wp_sys. intros w _. destruct w; cbn [negb]; [|by apply wp_ret].
  apply wp_bind, wp_sys. intros l Hl. apply wp_ret. intros resp Hresp.
  destruct l as [l|]; [|done]. destruct (Hl l eq_refl) as (r & Hr & Hresp').
  rewrite requests_snoc, reads_snoc in Hr. cbn in Hr. rewrite Z.eqb_refl, Nat.add_0_r, <- Hidle in Hr.
  rewrite lookup_app_r, Nat.sub_diag in Hr by done. injection Hr as <-.
  rewrite Hresp' in Hresp. destruct (ar_OK (answer_of req)); cbn in Hresp; [|done]. injection Hresp as <-.
  split; [done|]. rewrite !requests_snoc, !reads_snoc, !length_app, Hidle. cbn. rewrite Z.eqb_refl. cbn. lia.
Qed.

End sharing.

(** A request that reads a file and keeps the result. *)
Definition read_into (conn : Z) (i : nat) (path : string) : prog (gmap nat (res vsock_error string)) unit :=
  r ← ReadFile conn path; modify <[i := r]>.

Definition file_response (content : string) : agent_response :=
  mkResponse true EmptyString None None (Some content) None None None.


Definition reply (r : agent_response) : line := mkLine EmptyString (Some r) None None.

(** Two requests that share a connection without a lock can get each other's
    answers, from a guest that answers every request correctly and in order: both
    requests are written before either answer is read, and the answers go to
    whoever reads first. *)
Theorem shared_connection_swaps answer_of conn p1 p2 c1 c2 :
  answer_of (AReadFile p1) = file_response c1 -> answer_of (AReadFile p2) = file_response c2 ->
  exists n, rtc (pool_step (in_order answer_of)) (mkNode [read_into conn 0 p1; read_into conn 1 p2] ∅ []) n /\
    n_pool n = [Ret tt; Ret tt] /\
    n_mem n !! 0%nat = Some (Ok c2) /\ n_mem n !! 1%nat = Some (Ok c1).
Proof.
  intros H1 H2. eexists. split; [|split; [|split]].
  - eapply rtc_l; [eapply (step_sys _ _ _ _ 0 (CConnWrite conn (WRequest (AReadFile p1))) _ true); [reflexivity|exact I]|]. cbn.
    eapply rtc_l; [eapply (step_sys _ _ _ _ 1 (CConnWrite conn (WRequest (AReadFile p2))) _ true); [reflexivity|exact I]|]. cbn.
    eapply rtc_l; [eapply (step_sys _ _ _ _ 1 (CConnRead conn) _ (Some (reply (file_response c1)))); [reflexivity|]|].
    { intros l [= <-]. exists (AReadFile p1). cbn. rewrite Z.eqb_refl, H1. by split. }
    cbn.
    eapply rtc_l; [eapply (step_sys _ _ _ _ 0 (CConnRead conn) _ (Some (reply (file_response c2)))); [reflexivity|]|].
    { intros l [= <-]. exists (AReadFile p2). cbn. rewrite !Z.eqb_refl, H2. by split. }
    cbn.
    eapply rtc_l; [eapply (step_atomic _ _ _ _ 0); reflexivity|]. cbn.
    eapply rtc_l; [eapply (step_atomic _ _ _ _ 1); reflexivity|]. cbn. reflexivity.
  - reflexivity.
  - cbn. rewrite lookup_insert_ne by done. apply lookup_insert_eq.
  - cbn. apply lookup_insert_eq.
Qed.

Lemma shared_connection_swaps_witness :
  let answer_of r := match r with
                     | AReadFile p => file_response (if String.eqb p "/etc/a" then "alpha" else "beta")
                     | _ => file_response EmptyString
                     end in
  exists n, rtc (pool_step (in_order answer_of)) (mkNode [read_into 7 0 "/etc/a"; read_into 7 1 "/etc/b"] ∅ []) n /\
    n_pool n = [Ret tt; Ret tt] /\
    n_mem n !! 0%nat = Some (Ok "beta") /\ n_mem n !! 1%nat = Some (Ok "alpha").
Proof.
  intros answer_of. exact (shared_connection_swaps answer_of 7 "/etc/a" "/etc/b" "alpha" "beta" eq_refl eq_refl).
Defined.

End Sharing.
