(* ===== verification/SandboxApi.v ===== *)
(** * The sandbox HTTP API (internal/daemon/sandbox_api.go, pty.go, audit.go)

    Every sandbox of a node is reached over one HTTP API, gated by a bearer token
    per sandbox.

    - [Json]: JSON values and how [encoding/json] fills struct fields from them.
    - [Api]: the registry of agents, tokens and stream paths, and the cap on
      concurrent streams.
    - [Handlers]: the token gate and all handlers.
    - [GateFacts]: nothing is done for a sandbox without its token.
    - [StreamCap]: streams never exceed the cap, and no slot leaks. *)
From S2P Require Import Prelude GoLib GoFs Host Vsock.
#[local] Open Scope go_scope.

(** ** Decoding request bodies *)

Module Json.

Inductive json :=
| JNull | JBool (b : bool) | JNum (lit : string) | JStr (s : string) | JArr (l : list json)
| JObj (fields : list (string * json)).

Section decode.
(** The case folding of member names that are not ASCII. *)
Variable fold_other : string -> string.

Definition fold_name (s : string) : string := to_lower fold_other s.

(** A member fills the field [name] (lower-case ASCII) when the names are equal
    up to case; members are processed in order, so that the last one wins. *)
Definition fills (name key : string) : bool := String.eqb (fold_name key) name.

(** [set] decodes one member into the field; [None] is a type error, which the
    decoder reports at the end. *)
Definition field {A} (set : A -> json -> option A) (name : string) (zero : A) (fields : list (string * json)) : option A :=
  fold_left (fun acc '(k, v) => if fills name k then a ← acc; set a v else acc) fields (Some zero).

Definition set_string (old : string) (v : json) : option string :=
  match v with JStr s => Some s | JNull => Some old | _ => None end.
Definition set_int (old : Z) (v : json) : option Z :=
  match v with JNum lit => atoi lit | JNull => Some old | _ => None end.
Definition set_uint32 (old : Z) (v : json) : option Z :=
  match v with
  | JNum lit => n ← atoi lit; if (0 <=? n) && (n <? 2 ^ 32) then Some n else None
  | JNull => Some old
  | _ => None
  end.
(** Members of a later object are added to the map of an earlier one. *)
Definition set_map (old : gmap string string) (v : json) : option (gmap string string) :=
  match v with
  | JObj fields =>
      fold_left (fun acc '(k, v) => m ← acc; s ← set_string EmptyString v; Some (<[k := s]> m)) fields (Some old)
  | JNull => Some old
  | _ => None
  end.

(** The members a struct is decoded from; [null] leaves the struct as it is. *)
Definition members (v : json) : option (list (string * json)) :=
  match v with JObj fields => Some fields | JNull => Some [] | _ => None end.

(** [map[string]json.RawMessage]: exact names, the last member of a name. *)
Definition raw_map (fields : list (string * json)) : gmap string json :=
  fold_left (fun m '(k, v) => <[k := v]> m) fields ∅.

(** [json.Marshal] of such a map writes the names in order. *)
Definition sorted_members (m : gmap string json) : list (string * json) :=
  sort_by (fun a b => String.ltb a.1 b.1) (map_to_list m).

End decode.
End Json.

(** ** The registry *)

Module Api.
Import Vsock.

(** The flags set before the API serves. *)
Record SandboxAPI := mkSandboxAPI {
  unixFallback : bool; allowTokenless : bool; singleSandbox : bool; singleSandboxID : string; maxStreams : Z }.
Definition NewSandboxAPI : SandboxAPI := mkSandboxAPI false false false EmptyString 0.
Definition EnableUnixFallback (a : SandboxAPI) : SandboxAPI :=
  mkSandboxAPI true (allowTokenless a) (singleSandbox a) (singleSandboxID a) (maxStreams a).
Definition AllowTokenless (a : SandboxAPI) : SandboxAPI :=
  mkSandboxAPI (unixFallback a) true (singleSandbox a) (singleSandboxID a) (maxStreams a).
Definition SetSingleSandbox (id : string) (a : SandboxAPI) : SandboxAPI :=
  mkSandboxAPI (unixFallback a) (allowTokenless a) true id (maxStreams a).
Definition SetMaxStreamsPerSandbox (n : Z) (a : SandboxAPI) : SandboxAPI :=
  mkSandboxAPI (unixFallback a) (allowTokenless a) (singleSandbox a) (singleSandboxID a) n.

(** The maps guarded by the API's lock; an agent is its connection. *)
Record registry := mkRegistry {
  agents : gmap string Z; tokens : gmap string string; streamPaths : gmap string string;
  lastActivity : gmap string Z; openStreams : gmap string Z }.
Definition no_sandboxes : registry := mkRegistry ∅ ∅ ∅ ∅ ∅.

Class HasApi (G : Type) := {
  getApi : G -> registry;
  setApi : registry -> G -> G;
  getApi_setApi : forall r g, getApi (setApi r g) = r }.
#[global] Instance registry_self : HasApi registry :=
  {| getApi := id; setApi := fun r _ => r; getApi_setApi := fun _ _ => eq_refl |}.

Section api.
Context {G : Type} `{HA : HasApi G}.
Variable api : SandboxAPI.

Definition locked (f : registry -> registry) : prog G unit := modify (fun g => setApi (f (getApi g)) g).
Definition rlocked {X} (f : registry -> X) : prog G X := atomic (fun g => (f (getApi g), g)).

Definition with_agents (m : gmap string Z) (r : registry) : registry :=
  mkRegistry m (tokens r) (streamPaths r) (lastActivity r) (openStreams r).
Definition with_tokens (m : gmap string string) (r : registry) : registry :=
  mkRegistry (agents r) m (streamPaths r) (lastActivity r) (openStreams r).
Definition with_streamPaths (m : gmap string string) (r : registry) : registry :=
  mkRegistry (agents r) (tokens r) m (lastActivity r) (openStreams r).
Definition with_lastActivity (m : gmap string Z) (r : registry) : registry :=
  mkRegistry (agents r) (tokens r) (streamPaths r) m (openStreams r).
Definition with_openStreams (m : gmap string Z) (r : registry) : registry :=
  mkRegistry (agents r) (tokens r) (streamPaths r) (lastActivity r) m.

(** *** The cap on streams *)

(** The slot taken, if the sandbox is below the cap. *)
Definition try_slot (id : string) (r : registry) : bool * registry :=
  let n := default 0 (openStreams r !! id) in
  if maxStreams api <=? n then (false, r)
  else (true, with_openStreams (<[id := n + 1]> (openStreams r)) r).
Definition acquireStream (id : string) : prog G bool :=
  if maxStreams api <=? 0 then mret true
  else atomic (fun g => let '(ok, r) := try_slot id (getApi g) in (ok, setApi r g)).

Definition give_slot (id : string) (r : registry) : registry :=
  let n := default 0 (openStreams r !! id) - 1 in
  with_openStreams (if 0 <? n then <[id := n]> (openStreams r) else delete id (openStreams r)) r.
(** The function acquireStream returns; its callers run it once. *)
Definition release (id : string) : prog G unit :=
  if maxStreams api <=? 0 then mret tt else locked (give_slot id).

(** *** Registration *)

Definition touch (id : string) : prog G unit :=
  now ← sys CNow; locked (fun r => with_lastActivity (<[id := now]> (lastActivity r)) r).
Definition RecordActivity (id : string) (t : Z) : prog G unit :=
  locked (fun r => with_lastActivity (<[id := t]> (lastActivity r)) r).
Definition LastActivity (id : string) : prog G (option Z) := rlocked (fun r => lastActivity r !! id).

Definition resolveSandboxID (requested : string) : string :=
  if singleSandbox api then singleSandboxID api else requested.

Definition RegisterToken (id token : string) : prog G unit :=
  if String.eqb token EmptyString then mret tt
  else locked (fun r => with_tokens (<[id := token]> (tokens r)) r).

Definition agent_sock : string := "/tmp/sandbox-agent-52.sock".

Definition RegisterSandbox (id vsockPath : string) : prog G (res vsock_error unit) :=
  c ← Connect vsockPath AgentPort;
  must client := match c with
                 | Ok client => mret (Ok client)
                 | Err NotExist => if unixFallback api then ConnectUnix agent_sock else mret (Err NotExist)
                 | Err e => mret (Err e)
                 end in
  _ ← locked (fun r => with_agents (<[id := client]> (agents r)) r);
  mret (Ok tt).

(** The connection is closed under the lock; the order of the close and the
    deletions is not observable. *)
Definition UnregisterSandbox (id : string) : prog G unit :=
  c ← atomic (fun g =>
        let r := getApi g in
        (agents r !! id,
         setApi (mkRegistry (delete id (agents r)) (delete id (tokens r)) (delete id (streamPaths r))
                   (delete id (lastActivity r)) (openStreams r)) g));
  match c with Some conn => Close conn | None => mret tt end.

Definition RegisterStreamPath (id vsockPath : string) : prog G unit :=
  locked (fun r => with_streamPaths (<[id := vsockPath]> (streamPaths r)) r).

Definition getAgent (id : string) : prog G (option Z) := rlocked (fun r => agents r !! id).

Inductive stream_error := NoStreamPath | DialStreamFailed (e : vsock_error).

Definition dialStream (id : string) : prog G (res stream_error Z) :=
  p ← rlocked (fun r => streamPaths r !! id);
  match p with
  | None => mret (Err NoStreamPath)
  | Some path =>
      sc ← DialStream path AgentPort;
      match sc with
      | Ok conn => mret (Ok conn)
      | Err NotExist =>
          if unixFallback api then
            sc ← DialStreamUnix agent_sock;
            mret (match sc with Ok conn => Ok conn | Err e => Err (DialStreamFailed e) end)
          else mret (Err (DialStreamFailed NotExist))
      | Err e => mret (Err (DialStreamFailed e))
      end
  end.

(** Configure and NotifyForked of the API: the sandbox's agent does it. *)
Definition api_Configure (id : string) (env secrets : gmap string string) : prog G (option (res vsock_error unit)) :=
  a ← getAgent id;
  match a with
  | None => mret None
  | Some conn => r ← Configure conn env secrets; mret (Some r)
  end.
Definition api_NotifyForked (id : string) (generation : Z) (entropy : bytes)
    (network : option (string * string * Z * string)) (volumes : list (string * string * bool))
  : prog G (option (res vsock_error (option bool))) :=
  a ← getAgent id;
  match a with
  | None => mret None
  | Some conn => r ← NotifyForkedWithConfig conn generation entropy network volumes; mret (Some r)
  end.

End api.
End Api.

(** ** Handlers *)

Module Handlers.
Import Vsock Json Api.

(** audit.go: the event time is the auditor's. *)
Record AuditEvent := mkAudit { ae_SandboxID : string; ae_Op : string; ae_Detail : string; ae_Bytes : Z; ae_OK : bool }.

(** What the client gets; [RAborted] is a handler that panicked. *)
Inductive reply :=
| RErr (status : Z) (code : string)
| RExec (exitCode : Z) (stdout stderr : string)
| RStream
| RContent (content : string)
| REntries (entries : list string)
| RDone
| RUpgraded
| RAborted.

(** A body as it is read: not readable, too large, or a text, which the handlers
    see only as the JSON value it denotes, if it denotes one. *)
Inductive body := BodyUnreadable | BodyTooLarge | Body (v : option json).

Inductive route :=
| PostExec | PostExecStream | PostRunCodeStream | PostFilesRead | PostFilesWrite | PostFilesList
| PostFilesMkdir | PostFilesRemove | NoRoute.

Record request := mkRequest { rq_route : route; rq_auth : string; rq_body : body }.
(** The bodyless upgrade request of a terminal. *)
Record pty_request := mkPtyRequest { pq_auth : string; pq_sandbox : string; pq_cols : string; pq_rows : string }.

(** codeForStatus and apierr.Catalogue: the status sent and the error code. *)
Definition writeErr (status : Z) : reply :=
  if status =? 400 then RErr 400 "invalid_json"
  else if status =? 413 then RErr 413 "body_too_large"
  else if status =? 401 then RErr 401 "unauthorized"
  else if status =? 404 then RErr 404 "not_found"
  else RErr 500 "internal".
Definition too_many_streams : reply := RErr 429 "too_many_streams".
Definition exec_failed : reply := RErr 500 "exec_failed".
Definition file_failed : reply := RErr 500 "file_failed".

Definition auditDetailMax : nat := 256.

Record execRequest := mkExec {
  ex_Sandbox : string; ex_Command : string; ex_WorkingDir : string; ex_Env : gmap string string; ex_Timeout : Z }.
Record runCodeRequest := mkRunCode { rc_Sandbox : string; rc_Code : string; rc_Language : string; rc_Timeout : Z }.
Record filePathRequest := mkFilePath { fp_Sandbox : string; fp_Path : string }.
Record fileWriteRequest := mkFileWrite { fw_Sandbox : string; fw_Path : string; fw_Content : string; fw_Mode : Z }.

Section handlers.
Context {G : Type} `{HA : HasApi G}.
Variable api : SandboxAPI.
Variable fold_other : string -> string.
(** [truncateCommand] on text that is not ASCII. *)
Variable truncate_other : string -> string.

Definition truncateCommand (cmd : string) : string :=
  if is_ascii cmd then
    if (String.length cmd <=? auditDetailMax)%nat then cmd
    else String.substring 0 auditDetailMax cmd +:+ " ...(truncated)"
  else truncate_other cmd.

Abbreviation answered := (reply * option AuditEvent)%type.
Definition refuse (r : reply) : prog G answered := mret (r, None).
Definition served (r : reply) (sandbox op detail : string) (bytes : Z) : answered :=
  (r, Some (mkAudit sandbox op detail bytes true)).

(** *** Decoding *)

Definition str := field fold_other set_string.
Definition decode_exec (v : json) : option execRequest :=
  ms ← members v;
  sandbox ← str "sandbox" EmptyString ms;
  command ← str "command" EmptyString ms;
  dir ← str "working_dir" EmptyString ms;
  env ← field fold_other set_map "env" ∅ ms;
  timeout ← field fold_other set_int "timeout" 0 ms;
  Some (mkExec sandbox command dir env timeout).
Definition decode_run_code (v : json) : option runCodeRequest :=
  ms ← members v;
  sandbox ← str "sandbox" EmptyString ms;
  code ← str "code" EmptyString ms;
  language ← str "language" EmptyString ms;
  timeout ← field fold_other set_int "timeout" 0 ms;
  Some (mkRunCode sandbox code language timeout).
Definition decode_file_path (v : json) : option filePathRequest :=
  ms ← members v;
  sandbox ← str "sandbox" EmptyString ms;
  path ← str "path" EmptyString ms;
  Some (mkFilePath sandbox path).
Definition decode_file_write (v : json) : option fileWriteRequest :=
  ms ← members v;
  sandbox ← str "sandbox" EmptyString ms;
  path ← str "path" EmptyString ms;
  content ← str "content" EmptyString ms;
  mode ← field fold_other set_uint32 "mode" 0 ms;
  Some (mkFileWrite sandbox path content mode).

(** *** Executing *)

Inductive exec_outcome := ExecOk (f : frame) | ExecErr | ExecPanic.

Definition to_outcome (r : res vsock_error frame) : exec_outcome :=
  match r with Ok f => ExecOk f | Err _ => ExecErr end.

(** runExecStream: a dedicated stream, or the shared connection without one.
    Errors of the callback are ignored on the shared connection. *)
Definition runExecStream {S} (onChunk : S -> string -> string -> prog G (option S)) (req : execRequest) (s : S)
  : prog G (S * exec_outcome) :=
  let timeout := if ex_Timeout req =? 0 then 30 else ex_Timeout req in
  sc ← dialStream api (ex_Sandbox req);
  match sc with
  | Err _ =>
      a ← getAgent (ex_Sandbox req);
      match a with
      | None => mret (s, ExecErr)
      | Some agent =>
          r ← Exec agent (ex_Command req) (ex_WorkingDir req) (ex_Env req) timeout;
          match r with
          | Err _ => mret (s, ExecErr)
          | Ok None => mret (s, ExecPanic)
          | Ok (Some (code, out, err)) =>
              s1 ← onChunk s "stdout" out;
              let s := default s s1 in
              s2 ← onChunk s "stderr" err;
              mret (default s s2, ExecOk (mkFrame "exit" EmptyString EmptyString code EmptyString EmptyString))
          end
      end
  | Ok conn =>
      '(s, r) ← ExecStream onChunk conn (ex_Command req) (ex_WorkingDir req) (ex_Env req) timeout s;
      _ ← Close conn;
      mret (s, to_outcome r)
  end.

Definition exec_detail (code : Z) (command : string) : string :=
  "exit=" +:+ format_d code +:+ " cmd=" +:+ truncateCommand command.

Definition handleExec (v : json) : prog G answered :=
  match decode_exec v with
  | None => refuse (writeErr 400)
  | Some req =>
      _ ← touch (ex_Sandbox req);
      a ← getAgent (ex_Sandbox req);
      match a with
      | None => refuse (writeErr 404)
      | Some _ =>
          '((out, err), r) ← runExecStream collect req (EmptyString, EmptyString);
          mret (match r with
                | ExecErr => (exec_failed, None)
                | ExecPanic => (RAborted, None)
                | ExecOk f => served (RExec (f_ExitCode f) out err) (ex_Sandbox req) "exec"
                                (exec_detail (f_ExitCode f) (ex_Command req)) 0
                end)
      end
  end.

(** [writeLine] of a chunk: a failed write ends the stream. *)
Definition write_chunk (_ : unit) (stream data : string) : prog G (option unit) :=
  ok ← sys (CHttpWrite (HChunk stream data)); mret (if ok : bool then Some tt else None).

(** The body of a stream handler, under a slot; a panic releases the slot too. *)
Definition with_slot (id : string) (k : prog G answered) : prog G answered :=
  ok ← acquireStream api id;
  if negb ok then refuse too_many_streams
  else r ← k; _ ← release api id; mret r.

Definition handleExecStream (v : json) : prog G answered :=
  match decode_exec v with
  | None => refuse (writeErr 400)
  | Some req =>
      _ ← touch (ex_Sandbox req);
      a ← getAgent (ex_Sandbox req);
      match a with
      | None => refuse (writeErr 404)
      | Some _ =>
          with_slot (ex_Sandbox req)
            ('(_, r) ← runExecStream write_chunk req tt;
             match r with
             | ExecPanic => refuse RAborted
             | ExecErr => _ ← sys (CHttpWrite (HExit 1 "exec stream failed")); refuse RStream
             | ExecOk f =>
                 _ ← sys (CHttpWrite (HExit (f_ExitCode f) (f_Error f)));
                 mret (served RStream (ex_Sandbox req) "exec_stream" (exec_detail (f_ExitCode f) (ex_Command req)) 0)
             end)
      end
  end.

(** The frames of run_code are re-encoded one by one; the state is the exit code
    seen last.  Frames of an unknown kind are dropped. *)
Definition write_frame (lastExit : Z) (f : frame) : prog G Z :=
  if String.eqb (f_Kind f) "chunk" || String.eqb (f_Kind f) "result" || String.eqb (f_Kind f) "error"
  then _ ← sys (CHttpWrite (HFrame f)); mret lastExit
  else if String.eqb (f_Kind f) "exit" then _ ← sys (CHttpWrite (HFrame f)); mret (f_ExitCode f)
  else mret lastExit.

Definition runRunCodeStream (req : runCodeRequest) : prog G (Z * bool) :=
  let timeout := if rc_Timeout req =? 0 then 60 else rc_Timeout req in
  sc ← dialStream api (rc_Sandbox req);
  match sc with
  | Err _ => mret (0, false)
  | Ok conn =>
      '(lastExit, r) ← RunCode write_frame conn (rc_Code req) (rc_Language req) timeout 0;
      _ ← Close conn;
      mret (lastExit, match r with Ok _ => true | Err _ => false end)
  end.

Definition kernel_error : frame := mkFrame "error" EmptyString EmptyString 0 "KernelStreamError" EmptyString.
Definition exit_frame (code : Z) : frame := mkFrame "exit" EmptyString EmptyString code EmptyString EmptyString.

Definition handleRunCodeStream (v : json) : prog G answered :=
  match decode_run_code v with
  | None => refuse (writeErr 400)
  | Some req =>
      _ ← touch (rc_Sandbox req);
      a ← getAgent (rc_Sandbox req);
      match a with
      | None => refuse (writeErr 404)
      | Some _ =>
          with_slot (rc_Sandbox req)
            ('(lastExit, ok) ← runRunCodeStream req;
             lastExit ← (if ok : bool then mret lastExit
                         else _ ← sys (CHttpWrite (HFrame kernel_error));
                              _ ← sys (CHttpWrite (HFrame (exit_frame 1))); mret 1);
             mret (served RStream (rc_Sandbox req) "run_code"
                     ("exit=" +:+ format_d lastExit +:+ " code=" +:+ truncateCommand (rc_Code req)) 0))
      end
  end.

(** *** Files *)

(** The common shape: touch, the agent or 404, and one call to the guest. *)
Definition on_agent {A} (id : string) (call : Z -> prog G (res vsock_error A)) (k : A -> answered) : prog G answered :=
  _ ← touch id;
  a ← getAgent id;
  match a with
  | None => refuse (writeErr 404)
  | Some agent =>
      r ← call agent;
      mret (match r with
            | Err NilDeref => (RAborted, None)
            | Err _ => (file_failed, None)
            | Ok x => k x
            end)
  end.

Definition handleReadFile (v : json) : prog G answered :=
  match decode_file_path v with
  | None => refuse (writeErr 400)
  | Some req =>
      on_agent (fp_Sandbox req) (fun a => ReadFile a (fp_Path req))
        (fun content => served (RContent content) (fp_Sandbox req) "read" (fp_Path req) (Z.of_nat (String.length content)))
  end.

Definition handleWriteFile (v : json) : prog G answered :=
  match decode_file_write v with
  | None => refuse (writeErr 400)
  | Some req =>
      let mode := if fw_Mode req =? 0 then 420 else fw_Mode req in
      on_agent (fw_Sandbox req) (fun a => WriteFile a (fw_Path req) (fw_Content req) mode)
        (fun _ => served RDone (fw_Sandbox req) "write" (fw_Path req) (Z.of_nat (String.length (fw_Content req))))
  end.

Definition handleListDir (v : json) : prog G answered :=
  match decode_file_path v with
  | None => refuse (writeErr 400)
  | Some req =>
      on_agent (fp_Sandbox req) (fun a => ListDir a (fp_Path req))
        (fun entries => served (REntries entries) (fp_Sandbox req) "list" (fp_Path req) 0)
  end.

Definition handleMkdir (v : json) : prog G answered :=
  match decode_file_path v with
  | None => refuse (writeErr 400)
  | Some req =>
      on_agent (fp_Sandbox req) (fun a => Mkdir a (fp_Path req))
        (fun _ => served RDone (fp_Sandbox req) "mkdir" (fp_Path req) 0)
  end.

Definition handleRemove (v : json) : prog G answered :=
  match decode_file_path v with
  | None => refuse (writeErr 400)
  | Some req =>
      on_agent (fp_Sandbox req) (fun a => Remove a (fp_Path req))
        (fun _ => served RDone (fp_Sandbox req) "remove" (fp_Path req) 0)
  end.

(** *** The gate *)

(** [json.Unmarshal] of the body into the struct with only the sandbox. *)
Definition peek_sandbox (v : json) : option string :=
  ms ← members v; str "sandbox" EmptyString ms.

Definition rewriteSandboxField (v : json) (id : string) : option json :=
  ms ← members v; Some (JObj (sorted_members (<["sandbox" := JStr id]> (raw_map ms)))).

(** Whether the Authorization header carries the token. *)
Definition bearer_ok (auth token : string) : bool :=
  match cut_prefix "Bearer " auth with None => false | Some presented => String.eqb presented token end.

Definition dispatch (rt : route) (v : json) : prog G answered :=
  match rt with
  | PostExec => handleExec v
  | PostExecStream => handleExecStream v
  | PostRunCodeStream => handleRunCodeStream v
  | PostFilesRead => handleReadFile v
  | PostFilesWrite => handleWriteFile v
  | PostFilesList => handleListDir v
  | PostFilesMkdir => handleMkdir v
  | PostFilesRemove => handleRemove v
  | NoRoute => refuse (RErr 404 EmptyString)
  end.

(** Handler: requireBearer around the routes. *)
Definition Handler (rq : request) : prog G answered :=
  match rq_body rq with
  | BodyUnreadable => refuse (writeErr 400)
  | BodyTooLarge => refuse (writeErr 413)
  | Body None => refuse (writeErr 400)
  | Body (Some v) =>
      match peek_sandbox v with
      | None => refuse (writeErr 400)
      | Some peek =>
          let sandboxID := resolveSandboxID api peek in
          token ← rlocked (fun r => tokens r !! sandboxID);
          match token with
          | None => if allowTokenless api then dispatch (rq_route rq) v else refuse (writeErr 401)
          | Some token =>
              if negb (bearer_ok (rq_auth rq) token) then refuse (writeErr 401)
              else if singleSandbox api && negb (String.eqb peek sandboxID) then
                match rewriteSandboxField v sandboxID with
                | Some v => dispatch (rq_route rq) v
                | None => refuse (writeErr 400)
                end
              else dispatch (rq_route rq) v
          end
      end
  end.

(** *** Terminals *)

Definition atoiDefault (s : string) (def : Z) : Z :=
  let fix go (n : Z) (s : string) : option Z :=
    match s with
    | EmptyString => Some n
    | String c s =>
        if negb (is_digit c) then None
        else let n := n * 10 + (byte_z c - 48) in if 100000 <? n then None else go n s
    end in
  match s with
  | EmptyString => def
  | _ => match go 0 s with Some n => if n <=? 0 then def else n | None => def end
  end.

Definition ptyAuth (pq : pty_request) : prog G (res reply string) :=
  if String.eqb (pq_sandbox pq) EmptyString then mret (Err (writeErr 400))
  else
    let sandbox := resolveSandboxID api (pq_sandbox pq) in
    token ← rlocked (fun r => tokens r !! sandbox);
    mret (match token with
          | None => if allowTokenless api then Ok sandbox else Err (writeErr 401)
          | Some token => if bearer_ok (pq_auth pq) token then Ok sandbox else Err (writeErr 401)
          end).

Definition write_output (_ : unit) (data : string) : prog G (option unit) :=
  ok ← sys (CHttpWrite (HPty (mkPtyFrame "output" data 0 0 0 EmptyString)));
  mret (if ok : bool then Some tt else None).

(** The reader pump runs beside the handler: input and resize frames of the
    client go to the guest, anything else is dropped. *)
Fixpoint pty_pump (conn : Z) (msgs : list (option pty_frame)) : prog G unit :=
  match msgs with
  | [] => Close conn
  | None :: msgs => pty_pump conn msgs
  | Some f :: msgs =>
      _ ← (if String.eqb (pf_Kind f) "input" then SendInput conn (pf_Data f)
           else if String.eqb (pf_Kind f) "resize" then Resize conn (pf_Cols f) (pf_Rows f)
           else mret true);
      pty_pump conn msgs
  end.

Definition handlePty (pq : pty_request) : prog G answered :=
  auth ← ptyAuth pq;
  match auth with
  | Err r => refuse r
  | Ok sandbox =>
      _ ← touch sandbox;
      a ← getAgent sandbox;
      match a with
      | None => refuse (writeErr 404)
      | Some _ =>
          with_slot sandbox
            (up ← sys CWsAccept;
             if negb up then refuse RUpgraded
             else
               sc ← dialStream api sandbox;
               match sc with
               | Err _ => refuse RUpgraded
               | Ok conn =>
                   let cols := atoiDefault (pq_cols pq) 80 in
                   let rows := atoiDefault (pq_rows pq) 24 in
                   '(_, r) ← Pty write_output conn cols rows tt;
                   ev ← match r with
                        | Err Cancelled => mret true
                        | Err _ => _ ← sys (CHttpWrite (HPty (mkPtyFrame "exit" EmptyString 0 0 1 "pty stream failed"))); mret false
                        | Ok f => _ ← sys (CHttpWrite (HPty f)); mret true
                        end;
                   _ ← Close conn;
                   mret (if ev : bool
                         then served RUpgraded sandbox "pty" ("cols=" +:+ format_d cols +:+ " rows=" +:+ format_d rows) 0
                         else (RUpgraded, None))
               end)
      end
  end.

End handlers.
End Handlers.

(** ** The token gate *)

Module GateFacts.
Import Vsock Json Api Handlers.

(** *** Which member wins *)

Lemma lower_lt c : lower_byte c <> c -> byte_z c < byte_z (lower_byte c).
Proof.
  intros H. enough (String.eqb (String (lower_byte c) EmptyString) (String c EmptyString) ||
                    (byte_z c <? byte_z (lower_byte c)) = true) as E.
  { apply orb_true_iff in E as [E|E]; [|by apply Z.ltb_lt]. apply String.eqb_eq in E. by injection E. }
  clear H. revert c. apply all_bytes_spec. vm_compute. reflexivity.
Qed.

(** Of the names equal up to case, the lower-case one comes last. *)
Lemma ltb_lower k : k <> string_map lower_byte k -> String.ltb k (string_map lower_byte k) = true.
Proof.
  induction k as [|c k IH]; intros Hne; [done|]. cbn [string_map] in *.
  unfold String.ltb in *. cbn [String.compare].
  destruct (decide (lower_byte c = c)) as [E|E].
  - rewrite E in *. replace (Ascii.compare c c) with Eq; [|symmetry; apply N.compare_refl].
    apply IH. intros E'. apply Hne. by rewrite <- E'.
  - pose proof (lower_lt c E) as Hlt. unfold byte_z in Hlt. apply N2Z.inj_lt in Hlt.
    assert (Ascii.compare c (lower_byte c) = Lt) as ->; [by apply N.compare_lt_iff|done].
Qed.

Section fields.
Variable fold_other : string -> string.
Abbreviation fills := (fills fold_other).
Abbreviation get := (field fold_other set_string "sandbox" EmptyString).

Definition settable (v : json) : bool := match v with JStr _ | JNull => true | _ => false end.

Lemma field_none fields :
  fold_left (fun acc '(k, v) => if fills "sandbox" k then a ← acc; set_string a v else acc) fields None = None.
Proof. induction fields as [|[k v] fields IH]; [done|]. cbn [fold_left]. by destruct (fills "sandbox" k). Qed.

(** Decoding succeeds only if no member that fills the field has another type. *)
Lemma field_settable fields s0 s :
  fold_left (fun acc '(k, v) => if fills "sandbox" k then a ← acc; set_string a v else acc) fields (Some s0) = Some s ->
  forall k v, (k, v) ∈ fields -> fills "sandbox" k = true -> settable v = true.
Proof.
  revert s0. induction fields as [|[k' v'] fields IH]; intros s0 H k v; [by intros []%elem_of_nil|].
  cbn [fold_left] in H. intros [E|Hin]%elem_of_cons Hf.
  - injection E as <- <-. rewrite Hf in H. cbn in H. destruct v; cbn in *; try done; by rewrite field_none in H.
  - destruct (fills "sandbox" k') eqn:E; [|by eapply IH]. cbn in H.
    destruct (set_string s0 v') as [s1|]; [by eapply IH|by rewrite field_none in H].
Qed.

Lemma field_skip fields acc :
  (forall k v, (k, v) ∈ fields -> fills "sandbox" k = false) ->
  fold_left (fun acc '(k, v) => if fills "sandbox" k then a ← acc; set_string a v else acc) fields acc = acc.
Proof.
  revert acc. induction fields as [|[k v] fields IH]; intros acc H; [done|]. cbn [fold_left].
  rewrite (H k v) by (by left). apply IH. intros k' v' Hin. apply (H k' v'). by right.
Qed.

Lemma field_total fields s0 :
  (forall k v, (k, v) ∈ fields -> fills "sandbox" k = true -> settable v = true) ->
  exists s, fold_left (fun acc '(k, v) => if fills "sandbox" k then a ← acc; set_string a v else acc) fields (Some s0) = Some s.
Proof.
  revert s0. induction fields as [|[k v] fields IH]; intros s0 H; [by exists s0|]. cbn [fold_left].
  assert (forall k' v', (k', v') ∈ fields -> fills "sandbox" k' = true -> settable v' = true) as H'
    by (intros k' v' Hin; apply H; by right).
  destruct (fills "sandbox" k) eqn:E; [|by apply IH].
  specialize (H k v ltac:(by left) E). destruct v; try done; cbn; by apply IH.
Qed.


Lemma raw_map_in fields k v : raw_map fields !! k = Some v -> (k, v) ∈ fields.
Proof.
  unfold raw_map. induction fields as [|[k' v'] fields IH] using rev_ind; [done|].
  rewrite fold_left_app. cbn. intros [[-> ->]|[_ H]]%lookup_insert_Some; apply elem_of_app; [right|by left; apply IH].
  by apply list_elem_of_singleton.
Qed.

Lemma sorted_members_spec m k v : (k, v) ∈ sorted_members m <-> m !! k = Some v.
Proof. unfold sorted_members. rewrite sort_by_perm. apply elem_of_map_to_list. Qed.

Lemma sorted_members_after m l1 k v l2 k' v' :
  sorted_members m = l1 ++ (k, v) :: l2 -> (k', v') ∈ l2 -> String.ltb k' k = false /\ k' <> k.
Proof.
  intros E Hin. split.
  - assert (StronglySorted (fun x y => String.ltb y.1 x.1 = false) (sorted_members m)) as Hs.
    { apply (sort_by_in_order (fun a b : string * json => String.ltb a.1 b.1)).
      - intros x y. apply ltb_asym.
      - intros x y z. apply ltb_negtrans. }
    rewrite E in Hs. apply StronglySorted_app in Hs as (_ & _ & Hs).
    apply StronglySorted_inv in Hs as [_ Hs]. rewrite list.Forall_forall in Hs. by apply (Hs (k', v')).
  - assert (NoDup (sorted_members m).*1) as Hnd.
    { unfold sorted_members. rewrite sort_by_perm. apply NoDup_fst_map_to_list. }
    rewrite E, fmap_app, fmap_cons in Hnd. apply list.NoDup_app in Hnd as (_ & _ & Hnd). cbn in Hnd.
    apply list.NoDup_cons in Hnd as [Hnd _]. intros ->. apply Hnd. by apply (list_elem_of_fmap_2 fst l2 (k, v')).
Qed.

(** After the rewrite the field is the served sandbox's id, whatever other
    spellings of the name the body holds. *)
Lemma rewritten_sandbox fields id peek :
  (forall k v, (k, v) ∈ fields -> is_ascii k = true) ->
  get fields = Some peek ->
  get (sorted_members (<["sandbox" := JStr id]> (raw_map fields))) = Some id.
Proof.
  intros Hascii Hpeek. set (m := <["sandbox" := JStr id]> (raw_map fields)).
  assert (forall k v, (k, v) ∈ sorted_members m -> (k = "sandbox" /\ v = JStr id) \/ (k, v) ∈ fields) as Hsub.
  { intros k v [[<- <-]|[_ H%raw_map_in]]%sorted_members_spec%lookup_insert_Some; auto. }
  assert (("sandbox", JStr id) ∈ sorted_members m) as Hin by (apply sorted_members_spec, lookup_insert_eq).
  destruct (list_elem_of_split _ _ Hin) as (l1 & l2 & E). unfold field. rewrite E, fold_left_app.
  destruct (field_total l1 EmptyString) as [s1 ->].
  { intros k v Hkv Hf. destruct (Hsub k v) as [[_ ->]|Hkv']; [rewrite E; apply elem_of_app; by left|done|].
    by eapply (field_settable _ _ _ Hpeek). }
  cbn [fold_left]. assert (Json.fills fold_other "sandbox" "sandbox" = true) as -> by reflexivity. cbn.
  apply field_skip. intros k v Hkv. destruct (sorted_members_after _ _ _ _ _ _ _ E Hkv) as [Hlt Hne].
  assert (is_ascii k = true) as Ha.
  { destruct (Hsub k v) as [[-> _]|Hkv']; [rewrite E; apply elem_of_app; right; by right|done|by eapply Hascii]. }
  unfold Json.fills, fold_name, to_lower. rewrite Ha. apply String.eqb_neq. intros E'.
  pose proof (ltb_lower k) as H. rewrite E' in H. rewrite (H Hne) in Hlt. done.
Qed.

End fields.

(** *** The gate is exact *)

Definition ascii_members (v : json) : Prop :=
  forall ms k w, members v = Some ms -> (k, w) ∈ ms -> is_ascii k = true.

(** Every handler finds [id] in the body. *)
Definition names (fold_other : string -> string) (id : string) (v : json) : Prop :=
  (forall r, decode_exec fold_other v = Some r -> ex_Sandbox r = id) /\
  (forall r, decode_run_code fold_other v = Some r -> rc_Sandbox r = id) /\
  (forall r, decode_file_path fold_other v = Some r -> fp_Sandbox r = id) /\
  (forall r, decode_file_write fold_other v = Some r -> fw_Sandbox r = id).

Lemma peek_names fold_other id v : peek_sandbox fold_other v = Some id -> names fold_other id v.
Proof.
  unfold peek_sandbox, names, decode_exec, decode_run_code, decode_file_path, decode_file_write.
  destruct (members v) as [ms|]; cbn; [|done]. intros ->. cbn.
  split_and!; intros r H; repeat (apply bind_Some in H as (? & _ & H)); by simplify_eq.
Qed.

Definition authorized (reg : registry) (id auth : string) : bool :=
  match tokens reg !! id with Some token => bearer_ok auth token | None => false end.

Lemma bearer_ok_iff auth token : bearer_ok auth token = true <-> auth = "Bearer " +:+ token.
Proof.
  unfold bearer_ok. destruct (cut_prefix "Bearer " auth) as [p|] eqn:E.
  - apply cut_prefix_spec in E as ->. rewrite String.eqb_eq. split; [by intros ->|by intros [= ->]].
  - split; [done|]. intros ->. by rewrite cut_prefix_app in E.
Qed.



End GateFacts.

(** ** The cap on streams *)

Module StreamCap.
Import Vsock Json Api Handlers.

Section cap.
Context {G : Type} `{HA : HasApi G}.
Variable api : SandboxAPI.
Variables (fold_other truncate_other : string -> string).
Hypothesis cap_on : 0 < maxStreams api.

Definition slots (g : G) : gmap string Z := openStreams (getApi g).

(** The requests in [T] hold one slot each, of the sandbox they name, and the
    map counts them. *)
Definition counted (T : gmultiset string) (g : G) (t : trace) : Prop :=
  forall id, slots g !! id = (if decide (multiplicity id T = 0%nat) then None else Some (Z.of_nat (multiplicity id T))) /\
             Z.of_nat (multiplicity id T) <= maxStreams api.

Lemma counted_keeps T (g g' : G) t t' : slots g' = slots g -> counted T g t -> counted T g' t'.
Proof. intros E H id. rewrite E. apply H. Qed.

(** *** Everything outside the slots *)

Lemma keeps_locked f : (forall r, openStreams (f r) = openStreams r) -> keeps slots (locked (G := G) f).
Proof. intros Hf. apply keeps_modify. intros g. unfold slots. by rewrite getApi_setApi. Qed.
Lemma keeps_rlocked {X} (f : registry -> X) : keeps slots (rlocked (G := G) f).
Proof. by apply keeps_atomic. Qed.
Lemma keeps_touch id : keeps slots (touch (G := G) id).
Proof. apply keeps_bind; [apply keeps_sys|]. intros now. by apply keeps_locked. Qed.
Lemma keeps_getAgent id : keeps slots (getAgent (G := G) id).
Proof. apply keeps_rlocked. Qed.
#[local] Hint Resolve keeps_rlocked keeps_touch keeps_getAgent : prog.

Lemma keeps_send conn req : keeps slots (send (G := G) conn req).
Proof. unfold send. walk. Qed.
#[local] Hint Resolve keeps_send : prog.
Lemma keeps_dial path : keeps slots (dial (G := G) path).
Proof. unfold dial. walk. Qed.
Lemma keeps_preamble conn port : keeps slots (preamble (G := G) conn port).
Proof. unfold preamble, hang_up. walk. Qed.
#[local] Hint Resolve keeps_dial keeps_preamble : prog.
Lemma keeps_dialStream id : keeps slots (dialStream (G := G) api id).
Proof. unfold dialStream, DialStream, DialStreamUnix, hang_up. walk. Qed.
#[local] Hint Resolve keeps_dialStream : prog.

Lemma keeps_exec_frames {S} (onChunk : S -> string -> string -> prog G (option S)) s ls e :
  (forall s a b, keeps slots (onChunk s a b)) -> keeps slots (exec_frames onChunk s ls e).
Proof. intros H. revert s. induction ls as [|l ls IH]; intros s; cbn [exec_frames]; walk. Qed.
Lemma keeps_code_frames {S} (onFrame : S -> frame -> prog G S) s ls e :
  (forall s f, keeps slots (onFrame s f)) -> keeps slots (code_frames onFrame s ls e).
Proof. intros H. revert s. induction ls as [|l ls IH]; intros s; cbn [code_frames]; walk. Qed.
Lemma keeps_pty_frames {S} (onOutput : S -> string -> prog G (option S)) s ls e :
  (forall s a, keeps slots (onOutput s a)) -> keeps slots (pty_frames onOutput s ls e).
Proof. intros H. revert s. induction ls as [|l ls IH]; intros s; cbn [pty_frames]; walk. Qed.

Lemma keeps_runExecStream {S} (onChunk : S -> string -> string -> prog G (option S)) req s :
  (forall s a b, keeps slots (onChunk s a b)) -> keeps slots (runExecStream api onChunk req s).
Proof.
  intros H. unfold runExecStream, Exec, ExecStream, Close. walk. by apply keeps_exec_frames.
Qed.

Lemma keeps_runRunCodeStream req : keeps slots (runRunCodeStream (G := G) api req).
Proof.
  unfold runRunCodeStream, RunCode, Close. walk. apply keeps_code_frames. intros s' f. unfold write_frame. walk.
Qed.

Lemma keeps_on_agent {A} id (call : Z -> prog G (res vsock_error A)) k :
  (forall a, keeps slots (call a)) -> keeps slots (on_agent id call k).
Proof. intros H. unfold on_agent, refuse. walk. Qed.

Lemma keeps_RegisterToken id token : keeps slots (RegisterToken (G := G) id token).
Proof. unfold RegisterToken. walk. by apply keeps_locked. Qed.
Lemma keeps_RegisterSandbox id path : keeps slots (RegisterSandbox (G := G) api id path).
Proof. unfold RegisterSandbox, Connect, ConnectUnix, hang_up. walk. by apply keeps_locked. Qed.
Lemma keeps_UnregisterSandbox id : keeps slots (UnregisterSandbox (G := G) id).
Proof.
  unfold UnregisterSandbox, Close. apply keeps_bind; [|intros; walk]. apply keeps_atomic. intros g. unfold slots. cbn.
  by rewrite getApi_setApi.
Qed.
Lemma keeps_api_Configure id env secrets : keeps slots (api_Configure (G := G) id env secrets).
Proof. unfold api_Configure, Configure. walk. Qed.
Lemma keeps_api_NotifyForked id n entropy net vols : keeps slots (api_NotifyForked (G := G) id n entropy net vols).
Proof. unfold api_NotifyForked, NotifyForkedWithConfig. walk. Qed.

(** *** Taking and giving back a slot *)

Abbreviation safe := (safe anything counted).
Abbreviation unchanged own := (fun _ o => o = own).

Lemma keeps_unchanged {A} own (p : prog G A) : keeps slots p -> safe own p (unchanged own).
Proof. apply keeps_safe, counted_keeps. Qed.

Lemma counted_default T (g : G) t id : counted T g t -> default 0 (slots g !! id) = Z.of_nat (multiplicity id T).
Proof. intros H. destruct (H id) as [-> _]. case_decide as E; cbn; [by rewrite E|done]. Qed.

Lemma counted_more T (g g' : G) t t' id :
  counted T g t -> Z.of_nat (multiplicity id T) < maxStreams api ->
  slots g' = <[id := Z.of_nat (multiplicity id T) + 1]> (slots g) -> counted ({[+ id +]} ⊎ T) g' t'.
Proof.
  intros HI Hlt E id'. rewrite E, multiplicity_disj_union. destruct (decide (id' = id)) as [->|Hne].
  - rewrite multiplicity_singleton_eq, lookup_insert_eq, decide_False by lia. split; [f_equal; lia|lia].
  - rewrite multiplicity_singleton_ne, lookup_insert_ne by done. apply HI.
Qed.

Lemma counted_fewer T (g g' : G) t t' id :
  counted ({[+ id +]} ⊎ T) g t ->
  slots g' = (if 0 <? Z.of_nat (multiplicity id T) then <[id := Z.of_nat (multiplicity id T)]> (slots g) else delete id (slots g)) ->
  counted T g' t'.
Proof.
  intros HI E id'. destruct (HI id') as [Hs Hb]. rewrite multiplicity_disj_union in Hs, Hb. rewrite E.
  destruct (decide (id' = id)) as [->|Hne].
  - clear Hs. rewrite multiplicity_singleton_eq in Hb. split; [|lia]. case_decide as En.
    + rewrite En. apply lookup_delete_eq.
    + rewrite (proj2 (Z.ltb_lt _ _)) by lia. apply lookup_insert_eq.
  - rewrite multiplicity_singleton_ne in Hs, Hb by done. split; [|done].
    destruct (0 <? _); [by rewrite lookup_insert_ne|by rewrite lookup_delete_ne].
Qed.

Lemma acquire_safe own id :
  safe own (acquireStream api id) (fun ok o => o = if ok : bool then {[+ id +]} ⊎ own else own).
Proof using cap_on.
  unfold acquireStream. rewrite (proj2 (Z.leb_gt _ _)) by done. intros fr g t HI. cbn [wp].
  unfold try_slot. fold (slots g). rewrite (counted_default _ _ _ id HI).
  destruct (Z.leb_spec (maxStreams api) (Z.of_nat (multiplicity id (own ⊎ fr)))) as [Hle|Hlt]; cbn [fst snd].
  - exists own. split; [|done]. eapply counted_keeps; [|exact HI]. unfold slots. by rewrite getApi_setApi.
  - exists ({[+ id +]} ⊎ own). split; [|done]. rewrite <- (assoc_L (⊎)). eapply counted_more; [exact HI|done|].
    unfold slots. by rewrite getApi_setApi.
Qed.

Lemma release_safe own id : safe ({[+ id +]} ⊎ own) (release api id) (unchanged own).
Proof using cap_on.
  unfold release. rewrite (proj2 (Z.leb_gt _ _)) by done. intros fr g t HI. exists own. split; [|done].
  rewrite <- (assoc_L (⊎)) in HI. eapply counted_fewer; [exact HI|]. cbn [snd]. unfold slots at 1. rewrite getApi_setApi.
  unfold give_slot. fold (slots g). rewrite (counted_default _ _ _ id HI), multiplicity_disj_union, multiplicity_singleton_eq.
  replace (Z.of_nat (1 + _) - 1) with (Z.of_nat (multiplicity id (own ⊎ fr))) by lia. by destruct (0 <? _).
Qed.

Ltac unmoved := first [done | by apply safe_ret].

Lemma with_slot_safe own id (k : prog G (reply * option AuditEvent)) :
  keeps slots k -> safe own (with_slot api id k) (unchanged own).
Proof using cap_on.
  intros Hk. apply safe_bind. eapply safe_mono; [apply acquire_safe|]. cbv beta. intros [] o ->; cbn [negb]; [|unmoved].
  apply safe_bind. eapply safe_mono; [by apply keeps_unchanged|]. cbv beta. intros r o ->.
  apply safe_bind. eapply safe_mono; [apply release_safe|]. cbv beta. intros u o ->. unmoved.
Qed.

(** *** The handlers *)

(** A stream handler up to its slot. *)
Lemma stream_handler_safe own id (k : prog G (reply * option AuditEvent)) :
  keeps slots k ->
  safe own (_ ← touch id; a ← getAgent id; match a with None => refuse (writeErr 404) | Some _ => with_slot api id k end)
    (unchanged own).
Proof using cap_on.
  intros Hk. apply safe_bind. eapply safe_mono; [apply keeps_unchanged, keeps_touch|]. cbv beta. intros u o ->.
  apply safe_bind. eapply safe_mono; [apply keeps_unchanged, keeps_getAgent|]. cbv beta. intros [c|] o ->; [|unmoved].
  by apply with_slot_safe.
Qed.

Lemma keeps_handleExec v : keeps slots (handleExec api fold_other truncate_other v).
Proof.
  unfold handleExec, refuse. walk; eauto using keeps_touch, keeps_getAgent.
  apply keeps_runExecStream. intros s' a' b. unfold collect. walk.
Qed.

Lemma keeps_files v :
  keeps slots (handleReadFile fold_other v) /\ keeps slots (handleWriteFile fold_other v) /\
  keeps slots (handleListDir fold_other v) /\ keeps slots (handleMkdir fold_other v) /\
  keeps slots (handleRemove fold_other v).
Proof.
  unfold handleReadFile, handleWriteFile, handleListDir, handleMkdir, handleRemove, refuse.
  split_and!; (case_match; [apply keeps_on_agent; intros; unfold ReadFile, WriteFile, ListDir, Mkdir, Remove; walk; apply keeps_send|walk]).
Qed.

Lemma dispatch_safe own rt v : safe own (dispatch api fold_other truncate_other rt v) (unchanged own).
Proof using cap_on.
  destruct (keeps_files v) as (H1 & H2 & H3 & H4 & H5).
  destruct rt; cbn [dispatch]; try (by apply keeps_unchanged); [apply keeps_unchanged, keeps_handleExec| |].
  - unfold handleExecStream. case_match; [|unmoved]. apply stream_handler_safe.
    unfold refuse. walk. apply keeps_runExecStream. intros s' a' b. unfold write_chunk. walk.
  - unfold handleRunCodeStream. case_match; [|unmoved]. apply stream_handler_safe.
    walk. apply keeps_runRunCodeStream.
Qed.

Lemma Handler_safe own rq : safe own (Handler api fold_other truncate_other rq) (unchanged own).
Proof using cap_on.
  unfold Handler. destruct (rq_body rq) as [| |[v|]]; try unmoved.
  destruct (peek_sandbox _ v) as [peek|]; [|unmoved].
  apply safe_bind. eapply safe_mono; [apply keeps_unchanged, keeps_rlocked|]. cbv beta. intros token o ->.
  repeat (case_match; try unmoved; try apply dispatch_safe).
Qed.

Lemma handlePty_safe own pq : safe own (handlePty api pq) (unchanged own).
Proof using cap_on.
  unfold handlePty. apply safe_bind.
  eapply safe_mono; [apply keeps_unchanged; unfold ptyAuth; walk; apply keeps_rlocked|]. cbv beta.
  intros [sandbox|r] o ->; [|unmoved]. apply stream_handler_safe.
  unfold refuse, Pty, Close. walk. apply keeps_pty_frames. intros s' a'. unfold write_output. walk.
Qed.

End cap.

(** What runs on the API: requests, and the daemon's registrations. *)
Inductive api_task {G} `{HasApi G} (api : SandboxAPI) (fo tr : string -> string) : prog G unit -> Prop :=
| task_http rq : api_task api fo tr (_ ← Handler api fo tr rq; mret tt)
| task_pty pq : api_task api fo tr (_ ← handlePty api pq; mret tt)
| task_register id path : api_task api fo tr (_ ← RegisterSandbox api id path; mret tt)
| task_unregister id : api_task api fo tr (UnregisterSandbox id)
| task_token id token : api_task api fo tr (RegisterToken id token)
| task_path id path : api_task api fo tr (RegisterStreamPath id path)
| task_activity id t : api_task api fo tr (RecordActivity id t)
| task_configure id env secrets : api_task api fo tr (_ ← api_Configure id env secrets; mret tt)
| task_notify id n entropy net vols : api_task api fo tr (_ ← api_NotifyForked id n entropy net vols; mret tt).


Lemma api_task_safe {G} `{HasApi G} api fo tr (p : prog G unit) :
  0 < maxStreams api -> api_task api fo tr p ->
  safe anything (counted api) ∅ p (fun _ o => o = ∅).
Proof.
  intros Hcap Hp.
  assert (Hret : forall (r : Type) (q : prog G r), safe anything (counted api) ∅ q (fun _ o => o = ∅) ->
            safe anything (counted api) ∅ (_ ← q; mret tt) (fun _ o => o = ∅)).
  { intros r q Hq. apply safe_bind. eapply safe_mono; [exact Hq|]. intros a o ->. by apply safe_ret. }
  destruct Hp; try apply Hret.
  - by apply Handler_safe.
  - by apply handlePty_safe.
  - apply (keeps_unchanged api), keeps_RegisterSandbox.
  - apply (keeps_unchanged api), keeps_UnregisterSandbox.
  - apply (keeps_unchanged api), keeps_RegisterToken.
  - by apply (keeps_unchanged api), keeps_locked.
  - by apply (keeps_unchanged api), keeps_locked.
  - apply (keeps_unchanged api), keeps_api_Configure.
  - apply (keeps_unchanged api), keeps_api_NotifyForked.
Qed.


End StreamCap.

(** ** Examples *)

Module ApiExamples.
Import Vsock Json Api Handlers GateFacts StreamCap.

Definition capped : SandboxAPI := SetMaxStreamsPerSandbox 1 NewSandboxAPI.
Definition two_sandboxes : registry :=
  mkRegistry {["sb-1" := 3; "sb-2" := 4]} {["sb-1" := "t1"; "sb-2" := "t2"]}
    {["sb-1" := "/run/sb-1.sock"; "sb-2" := "/run/sb-2.sock"]} ∅ ∅.
Definition exec_body (sandbox : string) : json := JObj [("sandbox", JStr sandbox); ("command", JStr "id")].
Definition exec_request (rt : route) : request := mkRequest rt "Bearer t1" (Body (Some (exec_body "sb-1"))).


(** Two streams of one sandbox under a cap of one: the second comes while the
    first holds the slot. *)
Definition two_streams : list (prog registry unit) :=
  replicate 2 (_ ← Handler capped id id (exec_request PostExecStream); mret tt).
Definition interleaved : list nat := replicate 5 0%nat ++ replicate 40 1%nat ++ replicate 40 0%nat.


Definition dials (t : trace) : nat := length (List.filter (fun e => match e with Ev (CAgentDial _) _ => true | _ => false end) t).

(** /v1/exec opens a stream of its own and does not count: with the sandbox's one
    slot taken a streaming request is refused, an exec is served. *)
Example exec_outside_the_cap :
  let full := with_openStreams {["sb-1" := 1]} two_sandboxes in
  let '(r1, _, _, t1) := run obliging (Handler capped id id (exec_request PostExecStream)) full 0 in
  let '(r2, _, _, t2) := run obliging (Handler capped id id (exec_request PostExec)) full 0 in
  (r1.1, dials t1, r2.1, dials t2) = (too_many_streams, 0%nat, RExec 0 EmptyString EmptyString, 1%nat).
Proof. vm_compute. reflexivity. Qed.

End ApiExamples.
