(* ===== verification/Kms.v ===== *)
(** * Keys of encrypted templates

    A template's data-encryption key (DEK) is generated by the controller,
    wrapped by a key-encryption key (KEK), stored wrapped in a Secret, delivered
    wrapped with each request and unwrapped on the node.

    - [Kms]: internal/kms/kms.go and local.go: the wrapper interface and the
      local AES-256-GCM wrapper, which unwraps exactly what it wrapped.
    - [KeyMem]: internal/storecrypt/key.go and the in-memory key provider of
      internal/fork/encryption.go, on a heap of byte arrays, since zeroising a
      key writes through every reference to its array.
    - [Stash]: the request key provider of internal/fork/encryption.go.
    - [EncSecret]: internal/controller/enc_key_secret.go over a Kubernetes API
      server with stale reads and lost answers: all reconciles of a template
      agree on one key. *)
From S2P Require Import Prelude GoLib GoFs Gcm Sha256 Host.
#[local] Open Scope go_scope.

(** [io.ReadFull(rand.Reader, buf)] and [rand.Read(buf)] fill a buffer of [n]
    bytes. *)
Definition random {G} (n : nat) : prog G (option bytes) :=
  r ← sys (CRandom (Z.of_nat n)); mret (match r with Some b => Some (resize n "000"%char b) | None => None end).

(** ** The key-encryption key *)

Module Kms.

Record WrappedKey := mkWrapped { KEKID : string; Ciphertext : bytes }.

Inductive kms_error :=
| KEKLength (n : Z) | KEKRead | NonceFailed | SealPanic | KEKMismatch (held : string) | TooShort | AuthFailed.

(** The interface the controller and the node's key provider use. *)
Record Wrapper (G : Type) := mkWrapper {
  w_Wrap : bytes -> prog G (res kms_error WrappedKey);
  w_Unwrap : WrappedKey -> prog G (res kms_error bytes);
  w_KEKID : string }.
Arguments mkWrapper {G}.
Arguments w_Wrap {G}.
Arguments w_Unwrap {G}.
Arguments w_KEKID {G}.

(** Unwrapping [w] gives [dek] or fails. *)
Definition opens_to {G} (kms : Wrapper G) (w : WrappedKey) (dek : bytes) : Prop :=
  forall g t, wp anything (w_Unwrap kms w) (fun r _ _ => forall d, r = Ok d -> d = dek) g t.

(** What a wrapper promises its clients: what it wraps it unwraps, and it does
    not touch Secrets. *)
Definition no_secret (c : call) : Prop :=
  match c with CGetSecret _ _ | CCreateSecret _ _ _ _ | CDeleteSecret _ _ => False | _ => True end.
Class LawfulWrapper {G} (kms : Wrapper G) : Prop := {
  Wrap_opens : forall dek g t,
    wp anything (w_Wrap kms dek) (fun r _ _ => forall w, r = Ok w -> opens_to kms w dek) g t;
  Wrap_calls : forall dek, calls_in no_secret (w_Wrap kms dek) }.

Definition kekLen : nat := 32.

Record LocalKEK := mkLocalKEK { aead : bytes; kekID : string }.

Definition NewLocalKEK (kek : bytes) : res kms_error LocalKEK :=
  if negb (length kek =? kekLen)%nat then Err (KEKLength (Z.of_nat (length kek)))
  else Ok (mkLocalKEK kek ("local:" +:+ hex_encode (take 8 (Sum256 kek)))).

Definition LoadLocalKEKFromFile {G} (path : string) : prog G (res kms_error LocalKEK) :=
  must b := some_or KEKRead (sys (CReadFile path)) in
  mret (NewLocalKEK (String.list_ascii_of_string b)).

Definition Wrap {G} (l : LocalKEK) (plaintextDEK : bytes) : prog G (res kms_error WrappedKey) :=
  must nonce := some_or NonceFailed (random Gcm.nonceSize) in
  mret (match Gcm.Seal (aead l) nonce plaintextDEK [] with
        | None => Err SealPanic
        | Some ct => Ok (mkWrapped (kekID l) (nonce ++ ct))
        end).

Definition Unwrap (l : LocalKEK) (w : WrappedKey) : res kms_error bytes :=
  if negb (String.eqb (KEKID w) (kekID l)) then Err (KEKMismatch (kekID l))
  else if (length (Ciphertext w) <? Gcm.nonceSize)%nat then Err TooShort
  else
    match Gcm.Open (aead l) (take Gcm.nonceSize (Ciphertext w)) (drop Gcm.nonceSize (Ciphertext w)) [] with
    | None => Err AuthFailed
    | Some dek => Ok dek
    end.

Definition local_wrapper {G} (l : LocalKEK) : Wrapper G :=
  mkWrapper (Wrap l) (fun w => mret (Unwrap l w)) (kekID l).

(** *** Unwrapping is exact *)

Definition kek_ok (l : LocalKEK) : Prop := length (aead l) = kekLen.

Lemma NewLocalKEK_ok kek l : NewLocalKEK kek = Ok l -> kek_ok l /\ aead l = kek.
Proof.
  unfold NewLocalKEK. destruct (length kek =? kekLen)%nat eqn:E; [|done].
  intros [= <-]. by apply Nat.eqb_eq in E.
Qed.

Lemma Unwrap_iff l w dek :
  kek_ok l ->
  Unwrap l w = Ok dek <->
  KEKID w = kekID l /\ exists nonce ct, length nonce = Gcm.nonceSize /\
    Ciphertext w = nonce ++ ct /\ Gcm.Seal (aead l) nonce dek [] = Some ct.
Proof.
  intros Hl. unfold Unwrap. split.
  - destruct (String.eqb_spec (KEKID w) (kekID l)) as [HK|]; [|done]. cbn [negb].
    destruct (Nat.ltb_spec (length (Ciphertext w)) Gcm.nonceSize) as [|Hlen]; [done|].
    destruct (Gcm.Open _ _ _ _) as [d|] eqn:E; [|done]. intros [= <-]. split; [done|].
    apply Gcm.Seal_Open in E; [|done]. eexists _, _. split; [|split; [|exact E]].
    + rewrite length_take. lia.
    + by rewrite take_drop.
  - intros (HK & nonce & ct & Hn & Hct & Hs). rewrite HK, String.eqb_refl, Hct. cbn [negb].
    rewrite (proj2 (Nat.ltb_ge _ _)) by (rewrite length_app; lia).
    rewrite take_app_length', drop_app_length' by done.
    by rewrite (Gcm.Open_Seal _ Hl _ _ _ _ Hs).
Qed.

Lemma Wrap_ok {G} (l : LocalKEK) dek (g : G) t :
  kek_ok l ->
  wp anything (Wrap l dek) (fun r _ _ => forall w, r = Ok w -> Unwrap l w = Ok dek) g t.
Proof.
  intros Hl. apply wp_try, wp_some_or, wp_bind, wp_sys. intros r _. apply wp_ret.
  destruct r as [b|]; [|by intros w].
  apply wp_ret. intros w. destruct (Gcm.Seal _ _ _ _) as [ct|] eqn:E; [|done]. intros [= <-].
  apply Unwrap_iff; [done|]. split; [done|]. eexists _, ct. split; [|by split].
  apply length_resize.
Qed.

Lemma local_lawful {G} l : kek_ok l -> LawfulWrapper (G := G) (local_wrapper l).
Proof.
  intros Hl. split.
  - intros dek g t. eapply wp_mono; [by apply Wrap_ok|]. cbn. intros r _ _ H w Hw.
    intros g' t'. apply wp_ret. intros d Hd. rewrite (H w Hw) in Hd. by simplify_eq.
  - intros dek. unfold local_wrapper, w_Wrap, Wrap, random. walk.
Qed.

(** The system's random source does not fail. *)
Definition draws (t : trace) (c : call) : answer c -> Prop :=
  match c return answer c -> Prop with CRandom _ => fun x => x <> None | _ => fun _ => True end.

(** A 32-byte key-encryption key wraps every key of a size the cipher takes, and
    unwraps the result to the same key.  Conversely it unwraps nothing but texts
    it could have wrapped: a wrapped key is accepted only if it names this
    key-encryption key and is, nonce and tag included, the sealing of the key
    that is returned. *)
Theorem local_kek_exact (kek : bytes) (l : LocalKEK) :
  NewLocalKEK kek = Ok l ->
  (forall (G : Type) (dek : bytes) (g : G) t, Z.of_nat (length dek) <= Gcm.max_plaintext ->
     wp draws (Wrap l dek) (fun r _ _ => exists w, r = Ok w /\ Unwrap l w = Ok dek) g t) /\
  (forall w dek, Unwrap l w = Ok dek ->
     KEKID w = kekID l /\ exists nonce ct, length nonce = Gcm.nonceSize /\
       Ciphertext w = nonce ++ ct /\ Gcm.Seal kek nonce dek [] = Some ct).
Proof.
  intros [Hl <-]%NewLocalKEK_ok. split.
  - intros G dek g t Hdek. apply wp_try, wp_some_or, wp_bind, wp_sys. intros r Hr. apply wp_ret.
    destruct r as [b|]; [|by destruct Hr]. apply wp_ret.
    destruct (Gcm.Seal_defined (aead l) (resize Gcm.nonceSize "000"%char b) dek []) as [ct Hct];
      [apply length_resize|done|]. rewrite Hct. eexists. split; [reflexivity|].
    apply Unwrap_iff; [done|]. split; [done|]. eexists _, ct. split; [apply length_resize|by split].
  - intros w dek. by apply Unwrap_iff.
Qed.

End Kms.

(** ** Keys in memory *)

Module KeyMem.

Definition keyLen : nat := 32.
Definition redacted : string := "[REDACTED key]".

(** A [storecrypt.Key] is a reference to a byte array. *)
Abbreviation Key := nat.

(** Go memory: the arrays allocated so far, and the provider's map. *)
Record kmem := mkKmem { arrays : gmap nat bytes; next : nat; keys : gmap string Key }.

Definition alloc (b : bytes) (m : kmem) : Key * kmem :=
  (next m, mkKmem (<[next m := b]> (arrays m)) (S (next m)) (keys m)).
Definition contents (m : kmem) (k : Key) : bytes := default [] (arrays m !! k).

(** [rnd] is what [crypto/rand] fills the new array with, or its failure. *)
Definition NewKey (rnd : option bytes) (m : kmem) : option Key * kmem :=
  match rnd with
  | None => (None, m)
  | Some b => let '(k, m) := alloc (resize keyLen "000"%char b) m in (Some k, m)
  end.
Definition Zeroize (k : Key) (m : kmem) : kmem :=
  mkKmem (<[k := replicate (length (contents m k)) "000"%char]> (arrays m)) (next m) (keys m).
Definition KeyString (k : Key) : string := redacted.
Definition MarshalText (k : Key) : bytes := String.list_ascii_of_string redacted.

Definition NewInMemoryKeyProvider : kmem := mkKmem ∅ 0 ∅.

Definition mem_KeyFor (rnd : option bytes) (scopeID : string) (m : kmem) : option Key * kmem :=
  match keys m !! scopeID with
  | Some k => let '(dup, m) := alloc (contents m k) m in (Some dup, m)
  | None =>
      match NewKey rnd m with
      | (None, m) => (None, m)
      | (Some k, m) =>
          let m := mkKmem (arrays m) (next m) (<[scopeID := k]> (keys m)) in
          let '(dup, m) := alloc (contents m k) m in (Some dup, m)
      end
  end.

Definition mem_ForgetKey (scopeID : string) (m : kmem) : kmem :=
  match keys m !! scopeID with
  | None => m
  | Some k => let m := Zeroize k m in mkKmem (arrays m) (next m) (delete scopeID (keys m))
  end.

(** *** A client of the provider *)

(** The engine asks for keys, zeroises what it was given once it is done with
    it, and has keys forgotten. *)
Inductive op := AskKey (scopeID : string) (rnd : option bytes) | Wipe (i : nat) | Forget (scopeID : string).

Record client := mkClient { c_mem : kmem; c_given : list Key }.

(** What the client observes of an operation is the key it was given. *)
Definition step (o : op) (c : client) : option bytes * client :=
  match o with
  | AskKey s rnd =>
      match mem_KeyFor rnd s (c_mem c) with
      | (None, m) => (None, mkClient m (c_given c))
      | (Some k, m) => (Some (contents m k), mkClient m (c_given c ++ [k]))
      end
  | Wipe i =>
      (None, match c_given c !! i with
             | Some k => mkClient (Zeroize k (c_mem c)) (c_given c)
             | None => c
             end)
  | Forget s => (None, mkClient (mem_ForgetKey s (c_mem c)) (c_given c))
  end.

Fixpoint serve (l : list op) (c : client) : list (option bytes) * client :=
  match l with
  | [] => ([], c)
  | o :: l => let '(x, c) := step o c in let '(xs, c) := serve l c in (x :: xs, c)
  end.

(** The promise: one value per scope until it is forgotten. *)
Definition spec_step (o : op) (a : gmap string bytes) : option bytes * gmap string bytes :=
  match o with
  | AskKey s rnd =>
      match a !! s, rnd with
      | Some v, _ => (Some v, a)
      | None, None => (None, a)
      | None, Some b => let v := resize keyLen "000"%char b in (Some v, <[s := v]> a)
      end
  | Wipe _ => (None, a)
  | Forget s => (None, delete s a)
  end.

Fixpoint spec_serve (l : list op) (a : gmap string bytes) : list (option bytes) * gmap string bytes :=
  match l with
  | [] => ([], a)
  | o :: l => let '(x, a) := spec_step o a in let '(xs, a) := spec_serve l a in (x :: xs, a)
  end.

Definition is_zero (b : bytes) : Prop := Forall (fun x => x = "000"%char) b.

(** The provider's arrays are its own, hold the promised values, and every array
    that neither the provider nor the client refers to any more is wiped. *)
Record related (a : gmap string bytes) (c : client) : Prop := {
  rel_values : forall s v, a !! s = Some v <-> exists k, keys (c_mem c) !! s = Some k /\ arrays (c_mem c) !! k = Some v;
  rel_alloc : forall k, is_Some (arrays (c_mem c) !! k) <-> (k < next (c_mem c))%nat;
  rel_keys : forall s k, keys (c_mem c) !! s = Some k -> (k < next (c_mem c))%nat /\ k ∉ c_given c;
  rel_inj : forall s s' k, keys (c_mem c) !! s = Some k -> keys (c_mem c) !! s' = Some k -> s = s';
  rel_given : Forall (fun k => (k < next (c_mem c))%nat) (c_given c);
  rel_wiped : forall k v, arrays (c_mem c) !! k = Some v -> k ∉ c_given c ->
                (forall s, keys (c_mem c) !! s <> Some k) -> is_zero v }.

Lemma contents_lookup m k v : arrays m !! k = Some v -> contents m k = v.
Proof. unfold contents. by intros ->. Qed.

Lemma is_zero_replicate n : is_zero (replicate n "000"%char).
Proof. by apply Forall_replicate. Qed.

Section related.
Variables (a : gmap string bytes) (m : kmem) (given : list Key).
Hypothesis R : related a (mkClient m given).

Lemma key_value s k : keys m !! s = Some k -> exists v, a !! s = Some v /\ contents m k = v.
Proof using R.
  intros Hk. destruct (proj2 (rel_alloc _ _ R k)) as [v Hv]; [by apply (rel_keys _ _ R s)|].
  exists v. split; [|by apply contents_lookup]. apply (rel_values _ _ R). eauto.
Qed.

Lemma no_key s : keys m !! s = None -> a !! s = None.
Proof using R.
  intros Hk. destruct (a !! s) as [v|] eqn:E; [|done]. apply (rel_values _ _ R) in E as (k & Hk' & _).
  cbn in Hk'. congruence.
Qed.

(** The client is given a new array. *)
Lemma related_give b : related a (mkClient (alloc b m).2 (given ++ [next m])).
Proof using R.
  destruct R as [H1 H2 H3 H4 H5 H6]; split; cbn in *.
  - intros s v. rewrite H1. split; intros (k & Hk & Hv); exists k; (split; [done|]);
      destruct (H3 s k Hk) as [Hlt _]; by rewrite lookup_insert_ne in * by lia.
  - intros k. destruct (decide (k = next m)) as [->|Hne]; [rewrite lookup_insert_eq; split; [lia|eauto]|].
    rewrite lookup_insert_ne, H2 by done. lia.
  - intros s k Hk. destruct (H3 s k Hk) as [Hlt Hng]. split; [lia|].
    rewrite elem_of_app, list_elem_of_singleton. intros [?| ->]; [done|lia].
  - done.
  - rewrite Forall_app, Forall_singleton. split; [|lia]. revert H5. apply Forall_impl. cbn. lia.
  - intros k v Hv Hng Hnk. rewrite elem_of_app, list_elem_of_singleton in Hng.
    rewrite lookup_insert_ne in Hv by (intros <-; tauto). eapply H6; [exact Hv|tauto|done].
Qed.

(** The provider stores a new key. *)
Lemma related_store s v :
  keys m !! s = None ->
  related (<[s := v]> a)
    (mkClient (mkKmem (<[next m := v]> (arrays m)) (S (next m)) (<[s := next m]> (keys m))) given).
Proof using R.
  intros Hs. destruct R as [H1 H2 H3 H4 H5 H6]; split; cbn in *.
  - intros s' v'. destruct (decide (s' = s)) as [->|Hne].
    + rewrite !lookup_insert_eq. split; [intros [= <-]; exists (next m); by rewrite lookup_insert_eq|].
      intros (k & [= <-] & Hv). by rewrite lookup_insert_eq in Hv.
    + rewrite !lookup_insert_ne, H1 by done. split; intros (k & Hk & Hv); exists k; (split; [done|]);
        destruct (H3 s' k Hk) as [Hlt _]; by rewrite lookup_insert_ne in * by lia.
  - intros k. destruct (decide (k = next m)) as [->|Hne]; [rewrite lookup_insert_eq; split; [lia|eauto]|].
    rewrite lookup_insert_ne, H2 by done. lia.
  - intros s' k [[<- <-]|[Hne Hk]]%lookup_insert_Some.
    + split; [lia|]. intros Hin. rewrite list.Forall_forall in H5. specialize (H5 _ Hin). lia.
    + destruct (H3 s' k Hk). split; [lia|done].
  - intros s1 s2 k [[<- <-]|[Hne Hk]]%lookup_insert_Some [[<- E]|[Hne' Hk']]%lookup_insert_Some; try done.
    + destruct (H3 s2 _ Hk'). lia.
    + subst. destruct (H3 s1 _ Hk). lia.
    + by eapply H4.
  - revert H5. apply Forall_impl. cbn. lia.
  - intros k v' Hv Hng Hnk. destruct (decide (k = next m)) as [->|Hne].
    + exfalso. apply (Hnk s). by rewrite lookup_insert_eq.
    + rewrite lookup_insert_ne in Hv by done. apply (H6 k); [done..|]. intros s' Hk.
      apply (Hnk s'). rewrite lookup_insert_ne; [done|]. intros ->. congruence.
Qed.

(** A key the client was given is wiped. *)
Lemma related_wipe k : k ∈ given -> related a (mkClient (Zeroize k m) given).
Proof using R.
  intros Hk. destruct R as [H1 H2 H3 H4 H5 H6]; split; cbn in *.
  - intros s v. rewrite H1. split; intros (k' & Hk' & Hv); exists k'; (split; [done|]);
      destruct (H3 s k' Hk') as [_ Hng]; by rewrite lookup_insert_ne in * by (intros ->; done).
  - intros k'. destruct (decide (k' = k)) as [->|Hne]; [|by rewrite lookup_insert_ne].
    rewrite lookup_insert_eq. rewrite list.Forall_forall in H5. split; [by intros; apply H5|eauto].
  - done.
  - done.
  - done.
  - intros k' v Hv Hng Hnk. rewrite lookup_insert_ne in Hv by (intros ->; done). by eapply H6.
Qed.

(** A key of the provider is wiped and dropped. *)
Lemma related_forget s : related (delete s a) (mkClient (mem_ForgetKey s m) given).
Proof using R.
  unfold mem_ForgetKey. destruct (keys m !! s) as [k|] eqn:Hs.
  2:{ by rewrite delete_id by (by apply no_key). }
  destruct R as [H1 H2 H3 H4 H5 H6]; split; cbn in *.
  - intros s' v. destruct (decide (s' = s)) as [->|Hne].
    + rewrite lookup_delete_eq. split; [done|]. intros (k' & Hk' & _). by rewrite lookup_delete_eq in Hk'.
    + rewrite !lookup_delete_ne, H1 by done. split; intros (k' & Hk' & Hv); exists k'; (split; [done|]);
        rewrite lookup_insert_ne in *; try done; intros ->; by apply Hne, (H4 _ _ k').
  - intros k'. destruct (decide (k' = k)) as [->|Hne]; [|by rewrite lookup_insert_ne].
    rewrite lookup_insert_eq. split; [intros _; by apply (H3 s)|eauto].
  - intros s' k' [_ Hk']%lookup_delete_Some. eauto.
  - intros s1 s2 k' [_ Hk1]%lookup_delete_Some [_ Hk2]%lookup_delete_Some. eauto.
  - done.
  - intros k' v Hv Hng Hnk. destruct (decide (k' = k)) as [->|Hne].
    + rewrite lookup_insert_eq in Hv. injection Hv as <-. apply is_zero_replicate.
    + rewrite lookup_insert_ne in Hv by done. apply (H6 k'); [done..|]. intros s' Hk'.
      apply (Hnk s'). rewrite lookup_delete_ne; [done|]. intros ->. congruence.
Qed.

End related.

Lemma related_init : related ∅ (mkClient NewInMemoryKeyProvider []).
Proof.
  split; cbn; try done.
  - intros s v. rewrite lookup_empty. split; [done|]. by intros (k & Hk & _).
  - intros k. rewrite lookup_empty. split; [by intros [? ?]|lia].
Qed.

Lemma related_step o a c :
  related a c -> (step o c).1 = (spec_step o a).1 /\ related (spec_step o a).2 (step o c).2.
Proof.
  destruct c as [m given]. intros R. destruct o as [s rnd|i|s]; cbn [step spec_step].
  - unfold mem_KeyFor. cbn [c_mem c_given]. destruct (keys m !! s) as [k|] eqn:Hs.
    + destruct (key_value _ _ _ R s k Hs) as (v & Hv & Hc). rewrite Hv. cbn. split.
      * f_equal. unfold contents at 1. cbn. by rewrite lookup_insert_eq.
      * apply (related_give _ _ _ R).
    + rewrite (no_key _ _ _ R s Hs). destruct rnd as [b|]; [|by split]. cbn [NewKey alloc fst snd].
      set (v := resize _ _ b). pose proof (related_store _ _ _ R s v Hs) as R'. split; cbn.
      * f_equal. unfold contents. cbn. by rewrite !lookup_insert_eq.
      * exact (related_give _ _ _ R' _).
  - split; [done|]. cbn [c_given]. destruct (given !! i) as [k|] eqn:Hi; [|done].
    apply (related_wipe _ _ _ R). by eapply list_elem_of_lookup_2.
  - split; [done|]. apply (related_forget _ _ _ R).
Qed.

(** Whatever sequence of requests, wipes and forgets the engine makes, it is
    given exactly the keys of the promise, one value per scope until that scope
    is forgotten: wiping a key it was given never damages the provider's copy.
    And every array that neither of them refers to any more holds zeros, so a
    forgotten key survives only in copies the engine was given and has not
    wiped. *)
Theorem key_custody (l : list op) :
  let '(seen, c) := serve l (mkClient NewInMemoryKeyProvider []) in
  let '(promised, a) := spec_serve l ∅ in
  seen = promised /\
  (forall s, (exists v, a !! s = Some v) <-> is_Some (keys (c_mem c) !! s)) /\
  (forall k v, arrays (c_mem c) !! k = Some v -> k ∉ c_given c ->
     (forall s, keys (c_mem c) !! s <> Some k) -> is_zero v).
Proof.
  assert (forall c a, related a c -> (serve l c).1 = (spec_serve l a).1 /\ related (spec_serve l a).2 (serve l c).2) as H.
  { induction l as [|o l IH]; intros c a R; [done|]. cbn [serve spec_serve].
    destruct (related_step o a c R) as [H1 H2]. destruct (step o c) as [x c'], (spec_step o a) as [y a'].
    cbn in H1, H2. subst. destruct (IH c' a' H2) as [H3 H4].
    destruct (serve l c') as [xs c''], (spec_serve l a') as [ys a'']. cbn in *. by subst. }
  destruct (H _ _ related_init) as [H1 H2].
  destruct (serve _ _) as [seen c], (spec_serve _ _) as [promised a]. cbn in H1, H2.
  split; [done|]. split; [|apply (rel_wiped _ _ H2)]. intros s. split.
  - intros [v Hv]. apply (rel_values _ _ H2) in Hv as (k & Hk & _). eauto.
  - intros [k Hk]. destruct (proj2 (rel_alloc _ _ H2 k)) as [v Hv]; [by apply (rel_keys _ _ H2 s)|].
    exists v. apply (rel_values _ _ H2). eauto.
Qed.

End KeyMem.

(** ** The request key provider *)

Module Stash.
Import Kms.

Record wrappedDEK := mkWrappedDEK { ciphertext : bytes; wd_kekID : string }.

(** Go memory that holds the provider's map, each access under its lock. *)
Class HasWrapped (G : Type) := {
  getW : G -> gmap string wrappedDEK;
  setW : gmap string wrappedDEK -> G -> G;
  getW_setW : forall w g, getW (setW w g) = w }.

#[global] Instance wrapped_self : HasWrapped (gmap string wrappedDEK) :=
  {| getW := id; setW := fun w _ => w; getW_setW := fun _ _ => eq_refl |}.

Inductive key_error := NoWrappedKey | NoKMS | UnwrapFailed (err : kms_error).

Section provider.
Context {G : Type} `{HW : HasWrapped G}.
(** [None]: no KMS is configured. *)
Variable kms : option (Wrapper G).

Definition SetWrappedKey (scopeID : string) (ciphertext : bytes) (kekID : string) : prog G unit :=
  modify (fun g => setW (<[scopeID := mkWrappedDEK ciphertext kekID]> (getW g)) g).

Definition KeyFor (scopeID : string) : prog G (res key_error bytes) :=
  must wd := some_or NoWrappedKey (atomic (fun g => (getW g !! scopeID, g))) in
  match kms with
  | None => mret (Err NoKMS)
  | Some k =>
      dek ← w_Unwrap k (mkWrapped (wd_kekID wd) (ciphertext wd));
      mret (match dek with Ok d => Ok d | Err e => Err (UnwrapFailed e) end)
  end.

Definition ForgetKey (scopeID : string) : prog G unit :=
  modify (fun g => setW (delete scopeID (getW g)) g).

End provider.
End Stash.

(** ** The key Secret of a template *)

Module EncSecret.
Import Kms Stash.

Definition encKeySecretSuffix : string := "-enc-key".
Definition encKeyWrappedDataKey : string := "wrapped-dek".
Definition encKeyKEKIDDataKey : string := "kek-id".
Definition encKeyLen : nat := 32.
Definition encKeySecretName (templateID : string) : string := templateID +:+ encKeySecretSuffix.

Inductive enc_error :=
| HoldsNoKey | NoWrapper | RandFailed | WrapFailed (err : kms_error) | OwnerFailed
| ConflictReread | ConflictNoKey | CreateFailed | GetFailed | DeleteFailed.

Definition data_bytes (data : gmap string bytes) (k : string) : bytes := default [] (data !! k).
Definition text (b : bytes) : string := String.string_of_list_ascii b.

Section ensure.
Context {G : Type}.
(** [controllerutil.SetControllerReference]: whether the owner may own the
    Secret; it changes nothing but the Secret's owner references. *)
Variable SetControllerReference : string -> string -> bool.
Variable w : option (Wrapper G).

(** The data of a Secret that exists: refused when it holds no key. *)
Definition read_key (e : enc_error) (data : gmap string bytes) : res enc_error (bytes * string) :=
  let wrapped := data_bytes data encKeyWrappedDataKey in
  match wrapped with
  | [] => Err e
  | _ => Ok (wrapped, text (data_bytes data encKeyKEKIDDataKey))
  end.

Definition EnsureEncKey (ns templateID : string) (owner : option string) : prog G (res enc_error (bytes * string)) :=
  let name := encKeySecretName templateID in
  r ← sys (CGetSecret ns name);
  match r with
  | SecretFound data => mret (read_key HoldsNoKey data)
  | SecretAbsent =>
      match w with
      | None => mret (Err NoWrapper)
      | Some w =>
          must dek := some_or RandFailed (random encKeyLen) in
          wrapped ← w_Wrap w dek;
          match wrapped with
          | Err e => mret (Err (WrapFailed e))
          | Ok wrapped =>
              let data := {[ encKeyWrappedDataKey := Ciphertext wrapped;
                             encKeyKEKIDDataKey := String.list_ascii_of_string (KEKID wrapped) ]} in
              if match owner with Some o => negb (SetControllerReference o name) | None => false end
              then mret (Err OwnerFailed)
              else
                c ← sys (CCreateSecret ns name data owner);
                match c with
                | SecretExists =>
                    r ← sys (CGetSecret ns name);
                    mret (match r with SecretFound data => read_key ConflictNoKey data | _ => Err ConflictReread end)
                | SecretCreateFailed _ => mret (Err CreateFailed)
                | SecretCreated => mret (Ok (Ciphertext wrapped, KEKID wrapped))
                end
          end
      end
  | SecretGetFailed => mret (Err GetFailed)
  end.

Definition DeleteEncKey (ns templateID : string) : prog G (res enc_error unit) :=
  r ← sys (CDeleteSecret ns (encKeySecretName templateID));
  mret (match r with SecretDeleteFailed _ => Err DeleteFailed | _ => Ok tt end).

End ensure.

(** *** The API server *)

(** What the Secret [name] of [ns] holds after the calls [t]. *)
Definition store_step (ns name : string) (s : option (gmap string bytes)) (e : event) : option (gmap string bytes) :=
  match e with
  | Ev (CCreateSecret ns' name' data _) (SecretCreated | SecretCreateFailed true) =>
      if bool_decide (ns' = ns /\ name' = name) then Some data else s
  | Ev (CDeleteSecret ns' name') (SecretDeleted | SecretDeleteFailed true) =>
      if bool_decide (ns' = ns /\ name' = name) then None else s
  | _ => s
  end.
Definition stored (ns name : string) (t : trace) : option (gmap string bytes) :=
  fold_left (store_step ns name) t None.

(** Creating is atomic and refused when the Secret exists; a read returns what
    is stored now or, from the client's cache, what was stored at some earlier
    time. *)
Definition api_server (t : trace) (c : call) : answer c -> Prop :=
  match c return answer c -> Prop with
  | CGetSecret ns name => fun x =>
      match x with
      | SecretFound data => exists t0 t1, t = t0 ++ t1 /\ stored ns name t0 = Some data
      | SecretAbsent => exists t0 t1, t = t0 ++ t1 /\ stored ns name t0 = None
      | SecretGetFailed => True
      end
  | CCreateSecret ns name _ _ => fun x =>
      match x with
      | SecretCreated | SecretCreateFailed true => stored ns name t = None
      | SecretExists => stored ns name t <> None
      | SecretCreateFailed false => True
      end
  | CDeleteSecret ns name => fun x =>
      match x with
      | SecretDeleted | SecretDeleteFailed true => stored ns name t <> None
      | _ => True
      end
  | _ => fun _ => True
  end.
Definition served (t : trace) : Prop := obeys api_server [] t.

(** The Secret is not deleted in [t]. *)
Definition kept (ns name : string) (t : trace) : Prop :=
  forall x, Ev (CDeleteSecret ns name) x ∉ t.

Section server.
Variables (ns name : string).

Lemma stored_snoc t e : stored ns name (t ++ [e]) = store_step ns name (stored ns name t) e.
Proof. unfold stored. by rewrite fold_left_app. Qed.

Lemma served_app t0 t1 : served (t0 ++ t1) -> served t0.
Proof.
  intros H pre c x post ->. apply (H pre c x (post ++ t1)). by rewrite <- app_assoc.
Qed.

Lemma served_snoc t c x : served t -> api_server t c x -> served (t ++ [Ev c x]).
Proof.
  intros Ht Hx pre c' x' post E. destruct post as [|e post _] using rev_ind.
  - apply app_inj_tail in E as [-> E].
    change (match Ev c' x' with Ev c x => api_server pre c x end). by rewrite <- E.
  - rewrite app_comm_cons, app_assoc in E. apply app_inj_tail in E as [-> _]. by apply (Ht pre c' x' post).
Qed.

Lemma served_at t c x t' : served (t ++ Ev c x :: t') -> api_server t c x.
Proof. intros H. by apply (H t c x t'). Qed.

(** Once stored, a Secret that is not deleted stays as it is. *)
Lemma stored_stable t0 t1 data :
  served (t0 ++ t1) -> kept ns name (t0 ++ t1) -> stored ns name t0 = Some data ->
  stored ns name (t0 ++ t1) = Some data.
Proof.
  induction t1 as [|[c x] t1 IH] using rev_ind; intros Hs Hk Hd; [by rewrite app_nil_r|].
  rewrite app_assoc in *. assert (stored ns name (t0 ++ t1) = Some data) as IH'.
  { apply IH; [by eapply served_app| |done]. intros y Hy. apply (Hk y), elem_of_app. by left. }
  rewrite stored_snoc, IH'. pose proof (served_at _ _ _ _ Hs) as Hlaw.
  destruct c; try done; cbn in *.
  - destruct x as [| |[]]; try done; case_bool_decide as E; try done; destruct E as [-> ->]; congruence.
  - assert (~ (ns0 = ns /\ name0 = name)) as E.
    { intros [-> ->]. apply (Hk x), elem_of_app. right. by apply list_elem_of_singleton. }
    destruct x as [| |[]]; by rewrite ?bool_decide_false.
Qed.

Lemma found_stored t data :
  served t -> kept ns name t -> Ev (CGetSecret ns name) (SecretFound data) ∈ t -> stored ns name t = Some data.
Proof.
  intros Hs Hk (pre & post & ->)%list_elem_of_split.
  destruct (served_at _ _ _ _ Hs) as (t0 & t1 & -> & Hd). rewrite <- app_assoc in *.
  by apply stored_stable.
Qed.

Lemma created_stored t data owner :
  served t -> kept ns name t -> Ev (CCreateSecret ns name data owner) SecretCreated ∈ t ->
  stored ns name t = Some data.
Proof.
  intros Hs Hk (pre & post & ->)%list_elem_of_split.
  rewrite cons_middle, app_assoc in *. apply stored_stable; [done..|].
  rewrite stored_snoc. cbn. by rewrite bool_decide_true.
Qed.

Lemma stored_created t data :
  stored ns name t = Some data -> exists owner x, Ev (CCreateSecret ns name data owner) x ∈ t.
Proof.
  induction t as [|[c x] t IH] using rev_ind; [done|]. rewrite stored_snoc. intros H.
  assert (stored ns name t = Some data -> exists owner y, Ev (CCreateSecret ns name data owner) y ∈ t ++ [Ev c x]) as Hold.
  { intros (o & y & Hin)%IH. exists o, y. apply elem_of_app. by left. }
  destruct c; try (by apply Hold); cbn in H.
  - destruct x as [| |[]]; try (by apply Hold); case_bool_decide as E; try (by apply Hold);
      destruct E as [-> ->]; injection H as ->; eexists _, _; apply elem_of_app; right; by apply list_elem_of_singleton.
  - destruct x as [| |[]]; try (by apply Hold); case_bool_decide; try done; by apply Hold.
Qed.

End server.

(** *** One key per template *)

Definition key_of (data : gmap string bytes) : bytes * string :=
  (data_bytes data encKeyWrappedDataKey, text (data_bytes data encKeyKEKIDDataKey)).

(** The data is a key drawn from [crypto/rand] in [t], wrapped. *)
Definition minted {G} (kms : Wrapper G) (data : gmap string bytes) (dek : bytes) (t : trace) : Prop :=
  exists b w, Ev (CRandom 32) (Some b) ∈ t /\ dek = resize encKeyLen "000"%char b /\
    key_of data = (Ciphertext w, KEKID w) /\ opens_to kms w dek.

(** The Secret a reconcile's result was read from or written to. *)
Definition backed (ns name : string) (k : bytes * string) (t : trace) : Prop :=
  exists data, key_of data = k /\
    (Ev (CGetSecret ns name) (SecretFound data) ∈ t \/
     exists owner, Ev (CCreateSecret ns name data owner) SecretCreated ∈ t).

Lemma read_key_ok e data k : read_key e data = Ok k -> key_of data = k.
Proof. unfold read_key, key_of. by destruct (data_bytes data encKeyWrappedDataKey); intros [= <-]. Qed.

Section agreement.
Context {G : Type} (kms : Wrapper G) {Lawful : LawfulWrapper kms}.
Variable scr : string -> string -> bool.
Variables (ns templateID : string).
Abbreviation name := (encKeySecretName templateID).

Definition minting (t : trace) : Prop :=
  forall ns' name' data owner x, Ev (CCreateSecret ns' name' data owner) x ∈ t -> exists dek, minted kms data dek t.
Definition ensured (r : res enc_error (bytes * string)) (t : trace) : Prop :=
  (forall k, r = Ok k -> backed ns name k t) /\ minting t.

Lemma minting_no_secret t ext :
  minting t -> Forall (fun e => no_secret (ev_call e)) ext -> minting (t ++ ext).
Proof.
  intros Ht Hext ns' name' data owner x [Hin|Hin]%elem_of_app.
  - destruct (Ht _ _ _ _ _ Hin) as (dek & b & w & Hb & H). exists dek, b, w. split; [|done].
    apply elem_of_app. by left.
  - rewrite list.Forall_forall in Hext. by destruct (Hext _ Hin).
Qed.

Lemma minting_get t ns' name' x : minting t -> minting (t ++ [Ev (CGetSecret ns' name') x]).
Proof.
  intros Ht ns1 name1 data owner y [Hin|Hin]%elem_of_app.
  - destruct (Ht _ _ _ _ _ Hin) as (dek & b & w & Hb & H). exists dek, b, w. split; [|done].
    apply elem_of_app. by left.
  - by apply list_elem_of_singleton in Hin.
Qed.

(** The last part: the Secret is created, or the winner's is read. *)
Lemma create_ensured dek b (w : WrappedKey) owner g t :
  minting t -> Ev (CRandom 32) (Some b) ∈ t -> dek = resize encKeyLen "000"%char b -> opens_to kms w dek ->
  let data := {[ encKeyWrappedDataKey := Ciphertext w;
                 encKeyKEKIDDataKey := String.list_ascii_of_string (KEKID w) ]} in
  wp anything
    (c ← sys (CCreateSecret ns name data owner);
     match c with
     | SecretExists =>
         r ← sys (CGetSecret ns name);
         mret (match r with SecretFound data => read_key ConflictNoKey data | _ => Err ConflictReread end)
     | SecretCreateFailed _ => mret (Err CreateFailed)
     | SecretCreated => mret (Ok (Ciphertext w, KEKID w))
     end) (fun r (_ : G) t' => ensured r t') g t.
Proof.
  intros Ht Hb Hdek Hw data.
  assert (key_of data = (Ciphertext w, KEKID w)) as Hkey.
  { unfold key_of, data_bytes, data, text.
    rewrite lookup_insert_eq, lookup_insert_ne, lookup_singleton_eq by done. cbn.
    by rewrite String.string_of_list_ascii_of_string. }
  assert (forall x, minting (t ++ [Ev (CCreateSecret ns name data owner) x])) as Hmint.
  { intros x ns' name' data' owner' y [Hin|Hin]%elem_of_app.
    - destruct (Ht _ _ _ _ _ Hin) as (dek' & b' & w' & Hb' & H). exists dek', b', w'. split; [|done].
      apply elem_of_app. by left.
    - apply list_elem_of_singleton in Hin. injection Hin as -> -> -> ->. exists dek, b, w.
      split; [|done]. apply elem_of_app. by left. }
  apply wp_bind, wp_sys. intros c _. destruct c as [| |committed].
  - apply wp_ret. split; [|apply Hmint]. intros k [= <-]. exists data. split; [done|]. right. exists owner.
    apply elem_of_app. right. by apply list_elem_of_singleton.
  - apply wp_bind, wp_sys. intros r _. apply wp_ret. split; [|by apply minting_get].
    intros k Hk. destruct r as [data'| |]; try done. exists data'. split; [by apply read_key_ok in Hk|].
    left. apply elem_of_app. right. by apply list_elem_of_singleton.
  - apply wp_ret. split; [done|apply Hmint].
Qed.

Lemma EnsureEncKey_ensured owner g :
  wp anything (EnsureEncKey scr (Some kms) ns templateID owner) (fun r _ t => ensured r t) g [].
Proof using Lawful.
  assert (minting []) as H0 by (intros ? ? ? ? ? []%elem_of_nil).
  apply wp_bind, wp_sys. intros r _. cbn [app]. pose proof (minting_get [] ns name r H0) as H1. cbn [app] in H1.
  destruct r as [data| |].
  - apply wp_ret. split; [|done]. intros k Hk. exists data. split; [by apply read_key_ok in Hk|].
    left. by apply list_elem_of_singleton.
  - apply wp_try, wp_some_or, wp_bind, wp_sys. intros rnd _. apply wp_ret.
    assert (minting ([Ev (CGetSecret ns name) SecretAbsent] ++ [Ev (CRandom (Z.of_nat encKeyLen)) rnd])) as H2
      by (by apply minting_no_secret; repeat constructor).
    destruct rnd as [b|]; [|by split].
    set (dek := resize _ _ b). apply wp_bind.
    eapply wp_mono; [apply wp_and; [apply (Wrap_opens dek)|apply (wp_calls no_secret); apply Wrap_calls]|].
    cbn beta. intros wr g' t' [Hw (ext & -> & Hext)].
    pose proof (minting_no_secret _ ext H2 Hext) as H3.
    destruct wr as [wr|e]; [|by apply wp_ret; split].
    case_match; [by apply wp_ret; split|].
    eapply (create_ensured dek b); [done| |done|by apply Hw].
    apply elem_of_app. left. apply elem_of_app. right. by apply list_elem_of_singleton.
  - by apply wp_ret; split.
Qed.

(** A reconcile that made the calls [t] and returned [r]. *)
Definition reconciled (r : res enc_error (bytes * string)) (t : trace) : Prop :=
  exists (O : Type) (h : env O) owner g o g' o',
    run h (EnsureEncKey scr (Some kms) ns templateID owner) g o = (r, g', o', t).

Lemma reconciled_ensured r t : reconciled r t -> ensured r t.
Proof using Lawful.
  intros (O & h & owner & g & o & g' & o' & Hrun).
  pose proof (wp_run h _ _ g o [] (EnsureEncKey_ensured owner g)) as H. by rewrite Hrun in H.
Qed.

(** Only reconciles of the template create its Secret. *)
Definition only_reconciles (t : trace) : Prop :=
  forall data owner x, Ev (CCreateSecret ns name data owner) x ∈ t ->
    exists r t1, reconciled r t1 /\ t1 ⊆ t /\ Ev (CCreateSecret ns name data owner) x ∈ t1.

Lemma backed_stored t t1 k :
  served t -> kept ns name t -> t1 ⊆ t -> backed ns name k t1 ->
  exists data, stored ns name t = Some data /\ key_of data = k.
Proof.
  intros Hs Hk Hsub (data & Hd & [Hin|[owner Hin]]); exists data; (split; [|done]).
  - by apply found_stored, Hsub.
  - eapply created_stored; [done..|]. by apply Hsub.
Qed.

Lemma stash_opens `{HW : HasWrapped G} (k : bytes * string) dek g t :
  opens_to kms (mkWrapped k.2 k.1) dek ->
  wp anything (_ ← SetWrappedKey templateID k.1 k.2; KeyFor (Some kms) templateID)
    (fun r _ _ => forall d, r = Ok d -> d = dek) g t.
Proof.
  intros Hk. apply wp_bind, wp_modify, wp_try, wp_some_or, wp_atomic. cbn [fst snd].
  rewrite getW_setW, lookup_insert_eq. apply wp_bind. eapply wp_mono; [apply Hk|].
  cbn. intros [d'|e] _ _ H d [= <-]. by apply H.
Qed.

End agreement.

(** C12. Any number of reconciles of a template run concurrently, on an API server
    whose reads may be stale and whose answers may get lost, in any order [t].
    As long as nobody deletes the Secret, every reconcile that succeeds returns
    the same wrapped key.  It is a 32-byte key drawn at random by one of them,
    and a node with the same key-encryption key that is handed the wrapped key
    never unwraps it to anything else. *)
Theorem enc_key_agreement {G} (kms : Wrapper G) {Lawful : LawfulWrapper kms} {HW : HasWrapped G}
    scr ns templateID (t t1 : trace) k :
  served t -> kept ns (encKeySecretName templateID) t ->
  only_reconciles kms scr ns templateID t ->
  reconciled kms scr ns templateID (Ok k) t1 -> t1 ⊆ t ->
  (forall k' t2, reconciled kms scr ns templateID (Ok k') t2 -> t2 ⊆ t -> k' = k) /\
  exists dek, length dek = encKeyLen /\
    (exists b, Ev (CRandom 32) (Some b) ∈ t /\ dek = resize encKeyLen "000"%char b) /\
    forall g t', wp anything (_ ← SetWrappedKey templateID k.1 k.2; KeyFor (Some kms) templateID)
      (fun r _ _ => forall d, r = Ok d -> d = dek) g t'.
Proof.
  intros Hs Hk Honly Hrun Hsub.
  destruct (backed_stored ns templateID t t1 k Hs Hk Hsub) as (data & Hdata & Hkey);
    [by apply (reconciled_ensured kms scr) in Hrun as [Hb _]; apply Hb|].
  split.
  - intros k' t2 Hrun2 Hsub2.
    destruct (backed_stored ns templateID t t2 k' Hs Hk Hsub2) as (data' & Hdata' & <-);
      [by apply (reconciled_ensured kms scr) in Hrun2 as [Hb _]; apply Hb|]. congruence.
  - destruct (stored_created _ _ _ _ Hdata) as (owner & x & Hin).
    destruct (Honly _ _ _ Hin) as (r & t3 & [_ Hmint]%(reconciled_ensured kms scr) & Hsub3 & Hin3).
    destruct (Hmint _ _ _ _ _ Hin3) as (dek & b & w & Hb & Hdek & Hw & Hopen).
    exists dek. split; [by rewrite Hdek, length_resize|]. split; [exists b; split; [by apply Hsub3|done]|].
    intros g t'. apply stash_opens. rewrite <- Hkey, Hw. by destruct w.
Qed.

End EncSecret.

(** ** Concrete runs *)

Module KmsExamples.
Import Kms Stash EncSecret.

Definition kek : bytes := z_byte <$> seqZ 0 32.
Definition the_kek : LocalKEK := Eval vm_compute in
  match NewLocalKEK kek with Ok l => l | Err _ => mkLocalKEK [] EmptyString end.
Definition memory := gmap string wrappedDEK.

Lemma local_kek_exact_witness :
  NewLocalKEK kek = Ok the_kek /\
  (forall (G : Type) (dek : bytes) (g : G) t, Z.of_nat (length dek) <= Gcm.max_plaintext ->
     wp draws (Wrap the_kek dek) (fun r _ _ => exists w, r = Ok w /\ Unwrap the_kek w = Ok dek) g t) /\
  (forall w dek, Unwrap the_kek w = Ok dek ->
     KEKID w = kekID the_kek /\ exists nonce ct, length nonce = Gcm.nonceSize /\
       Ciphertext w = nonce ++ ct /\ Gcm.Seal kek nonce dek [] = Some ct).
Proof.
  assert (NewLocalKEK kek = Ok the_kek) as H by (vm_compute; reflexivity).
  split; [exact H|]. exact (local_kek_exact kek the_kek H).
Defined.

(** A cluster whose API server holds one Secret; its state is that Secret and
    how many random bytes were drawn. *)
Definition cluster : env (option (gmap string bytes) * Z) := fun c o =>
  match c return answer c * _ with
  | CGetSecret _ _ => (match o.1 with Some d => SecretFound d | None => SecretAbsent end, o)
  | CCreateSecret _ _ d _ => match o.1 with Some _ => (SecretExists, o) | None => (SecretCreated, (Some d, o.2)) end
  | CRandom n => (Some (z_byte <$> seqZ o.2 n), (o.1, o.2 + n))
  | c => ((obliging c 0).1, o)
  end.

Definition ex_ensure : prog memory (res enc_error (bytes * string)) :=
  EnsureEncKey (fun _ _ => true) (Some (local_wrapper the_kek)) "team" "py" (Some "uid-1").

(** The first reconcile mints the key, the second finds it. *)
Definition ex_dek : bytes := z_byte <$> seqZ 0 32.
Definition ex_nonce : bytes := z_byte <$> seqZ 32 12.
Definition ex_wrapped : bytes := Eval vm_compute in
  ex_nonce ++ default [] (Gcm.Seal (aead the_kek) ex_nonce ex_dek []).
Definition ex_data : gmap string bytes :=
  {[ encKeyWrappedDataKey := ex_wrapped; encKeyKEKIDDataKey := String.list_ascii_of_string (kekID the_kek) ]}.
Definition ex_first : trace :=
  [Ev (CGetSecret "team" "py-enc-key") SecretAbsent; Ev (CRandom 32) (Some ex_dek); Ev (CRandom 12) (Some ex_nonce);
   Ev (CCreateSecret "team" "py-enc-key" ex_data (Some "uid-1")) SecretCreated].
Definition ex_second : trace := [Ev (CGetSecret "team" "py-enc-key") (SecretFound ex_data)].

Lemma the_kek_ok : kek_ok the_kek.
Proof. reflexivity. Qed.

Lemma ex_first_run :
  reconciled (local_wrapper (G := memory) the_kek) (fun _ _ => true) "team" "py" (Ok (ex_wrapped, kekID the_kek)) ex_first.
Proof. exists _, cluster, (Some "uid-1"), ∅, (None, 0). eexists _, _. vm_compute. reflexivity. Qed.

Lemma ex_second_run :
  reconciled (local_wrapper (G := memory) the_kek) (fun _ _ => true) "team" "py" (Ok (ex_wrapped, kekID the_kek)) ex_second.
Proof. exists _, cluster, (Some "uid-1"), ∅, (Some ex_data, 44). eexists _, _. vm_compute. reflexivity. Qed.

Lemma cluster_served : served (ex_first ++ ex_second).
Proof.
  unfold ex_first, ex_second. cbn [app].
  assert (served []) as H by (intros pre c x post E; by destruct pre).
  pose proof (served_snoc _ (CGetSecret "team" "py-enc-key") SecretAbsent H ltac:(by exists [], [])) as H1.
  pose proof (served_snoc _ (CRandom 32) (Some ex_dek) H1 I) as H2.
  pose proof (served_snoc _ (CRandom 12) (Some ex_nonce) H2 I) as H3.
  pose proof (served_snoc _ (CCreateSecret "team" "py-enc-key" ex_data (Some "uid-1")) SecretCreated H3 eq_refl) as H4.
  apply (served_snoc _ (CGetSecret "team" "py-enc-key") (SecretFound ex_data) H4).
  eexists _, []. split; [by rewrite app_nil_r|]. reflexivity.
Qed.

Lemma ex_creates data owner x :
  Ev (CCreateSecret "team" "py-enc-key" data owner) x ∈ ex_first ++ ex_second ->
  Ev (CCreateSecret "team" "py-enc-key" data owner) x ∈ ex_first.
Proof. intros [H|H]%elem_of_app; [done|]. by apply list_elem_of_singleton in H. Qed.

Lemma enc_key_agreement_witness :
  let k := (ex_wrapped, kekID the_kek) in
  let kms := local_wrapper (G := memory) the_kek in
  (forall k' t2, reconciled kms (fun _ _ => true) "team" "py" (Ok k') t2 -> t2 ⊆ ex_first ++ ex_second -> k' = k) /\
  exists dek, length dek = encKeyLen /\
    (exists b, Ev (CRandom 32) (Some b) ∈ ex_first ++ ex_second /\ dek = resize encKeyLen "000"%char b) /\
    forall g t', wp anything (_ ← SetWrappedKey "py" k.1 k.2; KeyFor (Some kms) "py")
      (fun r _ _ => forall d, r = Ok d -> d = dek) g t'.
Proof.
  refine (enc_key_agreement (local_wrapper the_kek) (Lawful := local_lawful the_kek the_kek_ok)
            (fun _ _ => true) "team" "py" (ex_first ++ ex_second) ex_first _ cluster_served _ _ ex_first_run _).
  - intros x. unfold ex_first, ex_second. cbn [app]. rewrite !elem_of_cons, elem_of_nil. intuition discriminate.
  - intros data owner x Hin%ex_creates. exists (Ok (ex_wrapped, kekID the_kek)), ex_first.
    split; [exact ex_first_run|]. split; [|done]. intros e He. apply elem_of_app. by left.
  - intros e He. apply elem_of_app. by left.
Defined.

End KmsExamples.
