(* ===== verification/Firecracker.v ===== *)
(** internal/firecracker: launching, configuring and snapshotting microVMs.

    - [Uid]: the per-VM uid allocator of jailer.go, at uint32 width.
    - [Jail]: VM ids, the chroot layout and the guards that confine it.
    - [Client]: StartVM, startJailedVM and the client methods of client.go.
    - [UidFacts]: a jailed uid is never shared by two live processes, whatever
      VMs are launched and killed concurrently.
    - [Template]: the template build of template.go; a VM is snapshotted only
      after every init command succeeded.
    - [FcExamples]: the concrete runs the witnesses use. *)
From S2P Require Import Prelude GoLib GoFs Host.
#[local] Open Scope go_scope.

(** ** The uid allocator *)

Module Uid.

Record UIDAllocator := mkUIDAllocator {
  low : Z; high : Z; next : Z; inUse : gset Z }.

Definition NewUIDAllocator (low high : Z) : UIDAllocator := mkUIDAllocator low high 0 ∅.

(** The candidate loop of Acquire from index [i]; [n] iterations at most. *)
Fixpoint scan (a : UIDAllocator) (n : Z) (fuel : nat) (i : Z) : option (Z * Z) :=
  match fuel with
  | O => None
  | S fuel =>
      if i <? n then
        let candidate := u32 (low a + u32 (next a + i) mod n) in
        if bool_decide (candidate ∈ inUse a) then scan a n fuel (u32 (i + 1))
        else Some (candidate, i)
      else None
  end.

Definition range_size (a : UIDAllocator) : Z := u32 (u32 (high a - low a) + 1).

Definition Acquire (a : UIDAllocator) : option Z * UIDAllocator :=
  let n := range_size a in
  match scan a n (Z.to_nat n) 0 with
  | Some (candidate, i) =>
      (Some candidate,
       mkUIDAllocator (low a) (high a) (u32 (u32 (next a + i) + 1) mod n) ({[candidate]} ∪ inUse a))
  | None => (None, a)
  end.

Definition MarkInUse (uid : Z) (a : UIDAllocator) : UIDAllocator :=
  if (uid <? low a) || (high a <? uid) then a
  else mkUIDAllocator (low a) (high a) (next a) ({[uid]} ∪ inUse a).

Definition Release (uid : Z) (a : UIDAllocator) : UIDAllocator :=
  mkUIDAllocator (low a) (high a) (next a) (inUse a ∖ {[uid]}).

(** *** Facts *)

(** What the constructor and every operation maintain; the range NewEngine
    accepts has a nonzero low end, so its size does not wrap to zero. *)
Definition wf (a : UIDAllocator) : Prop :=
  0 < low a <= high a /\ high a < 2 ^ 32 /\
  0 <= next a < high a - low a + 1 /\
  (forall u, u ∈ inUse a -> low a <= u <= high a).

Lemma range_size_exact a : wf a -> range_size a = high a - low a + 1.
Proof.
  intros (Hl & Hh & _). unfold range_size.
  rewrite !u32_small; unfold is_u32; rewrite ?u32_small; unfold is_u32; lia.
Qed.

Lemma scan_sound a n fuel i c j :
  scan a n fuel i = Some (c, j) ->
  c = u32 (low a + u32 (next a + j) mod n) /\ (c ∉ inUse a) /\ j < n.
Proof.
  revert i. induction fuel as [|fuel IH]; intros i; [done|]. cbn [scan].
  case_ifs; zbool; intros H; simplify_eq; eauto.
Qed.

(** The scan gives up only after every index has been looked at. *)
Lemma scan_complete a n fuel i :
  n < 2 ^ 32 -> 0 <= i -> n <= i + Z.of_nat fuel -> scan a n fuel i = None ->
  forall j, i <= j < n -> u32 (low a + u32 (next a + j) mod n) ∈ inUse a.
Proof.
  intros Hn. revert i. induction fuel as [|fuel IH]; intros i Hi Hf; [lia|]. cbn [scan].
  destruct (Z.ltb_spec i n); [|lia]. case_bool_decide as Hc; [|done].
  rewrite u32_small by (unfold is_u32; lia). intros Hs j Hj.
  destruct (decide (j = i)) as [-> |]; [exact Hc|]. apply (IH (i + 1)); [lia|lia|exact Hs|lia].
Qed.

Lemma candidate_range a j :
  wf a -> let n := high a - low a + 1 in
  low a <= u32 (low a + u32 (next a + j) mod n) <= high a.
Proof.
  intros (Hl & Hh & _) n.
  pose proof (Z.mod_pos_bound (u32 (next a + j)) n ltac:(lia)).
  rewrite u32_small; unfold is_u32; lia.
Qed.

(** In a range of at most 2^31 uids every uid is some index's candidate. *)
Lemma candidate_covers a u :
  wf a -> high a - low a + 1 <= 2 ^ 31 -> low a <= u <= high a ->
  let n := high a - low a + 1 in
  exists j, 0 <= j < n /\ u32 (low a + u32 (next a + j) mod n) = u.
Proof.
  intros (Hl & Hh & Hx & _) Hn Hu n.
  exists ((u - low a - next a) mod n).
  pose proof (Z.mod_pos_bound (u - low a - next a) n ltac:(lia)) as Hb.
  split; [lia|]. rewrite (u32_small (next a + _)) by (unfold is_u32; lia).
  rewrite Zplus_mod_idemp_r. replace (next a + (u - low a - next a)) with (u - low a) by lia.
  rewrite Z.mod_small by lia. rewrite u32_small by (unfold is_u32; lia). lia.
Qed.

Lemma Acquire_sound a u a' :
  wf a -> Acquire a = (Some u, a') ->
  low a <= u <= high a /\ (u ∉ inUse a) /\ inUse a' = {[u]} ∪ inUse a /\ wf a'.
Proof.
  intros Hwf. unfold Acquire. rewrite range_size_exact by done.
  destruct (scan _ _ _ _) as [[c i]|] eqn:Es; [|done]. intros H; simplify_eq/=.
  apply scan_sound in Es as (-> & Hnot & Hi).
  pose proof (candidate_range a i Hwf) as Hr. destruct Hwf as (Hl & Hh & Hx & Hs).
  split; [exact Hr|]. split; [exact Hnot|]. split; [done|].
  split; [done|]. split; [done|]. cbn. split; [apply Z.mod_pos_bound; lia|].
  intros v [Hv|Hv]%elem_of_union; [apply elem_of_singleton in Hv; subst; exact Hr|by apply Hs].
Qed.

Lemma Acquire_none a :
  wf a -> high a - low a + 1 <= 2 ^ 31 -> (Acquire a).1 = None ->
  (Acquire a).2 = a /\ forall u, low a <= u <= high a -> u ∈ inUse a.
Proof.
  intros Hwf Hn. unfold Acquire. rewrite range_size_exact by done.
  destruct (scan _ _ _ _) as [[c i]|] eqn:Es; [done|]. intros _. split; [done|]. intros u Hu.
  destruct (candidate_covers a u Hwf Hn Hu) as (j & Hj & <-).
  eapply scan_complete; [|reflexivity| |exact Es|exact Hj]; lia.
Qed.

Lemma mark_uid_wf u a : wf a -> wf (MarkInUse u a).
Proof.
  intros (Hl & Hh & Hx & Hs). unfold MarkInUse. case_ifs; [done|]. zbool.
  split; [done|]. split; [done|]. split; [done|]. cbn. intros v Hv.
  apply elem_of_union in Hv as [Hv|Hv]; [apply elem_of_singleton in Hv; lia|by apply Hs].
Qed.

Lemma release_uid_wf u a : wf a -> wf (Release u a).
Proof.
  intros (Hl & Hh & Hx & Hs). split; [done|]. split; [done|]. split; [done|].
  cbn. intros v Hv. apply Hs. set_solver.
Qed.

End Uid.

(** What the launch code needs of the Go memory: the shared uid allocator. *)
Class HasUids (G : Type) := {
  getA : G -> Uid.UIDAllocator;
  setA : Uid.UIDAllocator -> G -> G;
  getA_setA : forall a g, getA (setA a g) = a }.

#[global] Instance alloc_has_uids : HasUids Uid.UIDAllocator :=
  {| getA := id; setA := fun a _ => a; getA_setA := fun _ _ => eq_refl |}.

(** ** Configuration and errors *)

(** jailer.go JailerConfig; [Allocator] says whether the shared allocator, which
    lives in the Go memory, is set. *)
Record JailerConfig := mkJailerConfig {
  JailerBin : string; ChrootBaseDir : string; UIDRange : Z * Z;
  CgroupVersion : Z; DataDir : string; Allocator : bool }.
Definition Enabled (j : JailerConfig) : bool := negb (String.eqb (JailerBin j) EmptyString).
Definition no_jailer : JailerConfig := mkJailerConfig EmptyString EmptyString (0, 0) 0 EmptyString false.

Record VolumeDrive := mkVolumeDrive {
  vd_DriveID : string; vd_PathOnHost : string; vd_ReadOnly : bool }.
Record NetworkIdentity := mkNetworkIdentity {
  ni_IfaceID : string; ni_GuestMAC : string; ni_HostDevName : string }.

Record VMConfig := mkVMConfig {
  ID : string; FirecrackerBin : string; WorkDir : string; SocketPath : string;
  RootfsPath : string; VcpuCount : Z; MemSizeMib : Z; BootArgs : string;
  Jailer : JailerConfig; ChrootFiles : list string;
  VolumeDrives : list VolumeDrive; Network : option NetworkIdentity }.

Definition DefaultVMConfig : VMConfig :=
  mkVMConfig EmptyString "/usr/local/bin/firecracker" EmptyString EmptyString EmptyString
    1 512 "console=ttyS0 reboot=k panic=1 pci=off" no_jailer [] [] None.

Inductive fc_error :=
| EInvalidID
| ENoID
| EBinaryName
| ENoAllocator
| EParentElement
| EEscapesBase
| ERelativePath
| EOutsideRoots
| EResolve
| EMkdir
| EReplaceStale
| ELink
| ECopy
| EUIDExhausted
| EStart
| ENotReady
| EClock
| EApi
| EExportPath
| EExport
| ENoAgent
| EInit (command : string) (code : option Z)
| EStat.

(** ** Ids, layout and guards of the jail *)

Module Jail.

Definition jailerExecFileName : string := "firecracker".
Definition jailedAPISocketRelPath : string := "/run/firecracker.socket".

(** validate.go vmIDPattern: ^[a-zA-Z0-9][a-zA-Z0-9_-]{0,63}$ *)
Definition alnum (c : ascii) : bool := is_lower c || is_upper c || is_digit c.
Definition id_byte (c : ascii) : bool := alnum c || Ascii.eqb c "_" || Ascii.eqb c "-".
Definition validateVMID (id : string) : bool :=
  match id with
  | EmptyString => false
  | String c r => alnum c && string_forallb id_byte r && (String.length r <=? 63)%nat
  end.

Definition jailerChrootDir (baseDir vmID : string) : string :=
  Join [baseDir; jailerExecFileName; vmID; "root"].
Definition jailerVMDir (baseDir vmID : string) : string := Join [baseDir; jailerExecFileName; vmID].
Definition jailedAPISocketPath (baseDir vmID : string) : string :=
  Join [jailerChrootDir baseDir vmID; jailedAPISocketRelPath].
Definition chrootPath (baseDir vmID p : string) : string :=
  Join [jailerChrootDir baseDir vmID; Clean p].

Definition jailerArgs (cfg : VMConfig) (id : string) (uid gid : Z) : list string :=
  let cgroupVersion := if CgroupVersion (Jailer cfg) =? 0 then 2 else CgroupVersion (Jailer cfg) in
  ["--id"; id;
   "--exec-file"; FirecrackerBin cfg;
   "--uid"; format_d uid;
   "--gid"; format_d gid;
   "--chroot-base-dir"; ChrootBaseDir (Jailer cfg);
   "--cgroup-version"; format_d cgroupVersion;
   "--";
   "--api-sock"; jailedAPISocketRelPath].

Definition backslash_to_slash (c : ascii) : ascii := if Ascii.eqb c "\" then slash else c.
Definition hasParentTraversal (p : string) : bool :=
  existsb (String.eqb "..") (split_byte slash (string_map backslash_to_slash p)).

(** [clean == r || strings.HasPrefix(clean, r+"/")]. *)
Definition under (clean r : string) : bool :=
  String.eqb clean r || has_prefix (r +:+ "/") clean.

Section guards.
Context {G : Type}.

Definition withinRoot (path root : string) : prog G bool :=
  resolved ← sys (CEvalSymlinks root);
  let roots := Clean root :: match resolved with Some r => [Clean r] | None => [] end in
  mret (existsb (under (Clean path)) roots).

Definition guardJailerLayout (cfg : VMConfig) : prog G (res fc_error unit) :=
  if hasParentTraversal (ID cfg) then mret (Err EParentElement)
  else for_each [jailerVMDir (ChrootBaseDir (Jailer cfg)) (ID cfg);
                 jailerChrootDir (ChrootBaseDir (Jailer cfg)) (ID cfg)]
         (fun p => check EEscapesBase (withinRoot p (ChrootBaseDir (Jailer cfg)))).

Fixpoint within_any (clean : string) (roots : list string) : prog G bool :=
  match roots with
  | [] => mret false
  | root :: roots =>
      if String.eqb root EmptyString then within_any clean roots
      else ok ← withinRoot clean root;
           if ok : bool then mret true else within_any clean roots
  end.

Definition guardChrootSource (cfg : VMConfig) (p : string) : prog G (res fc_error unit) :=
  if hasParentTraversal p then mret (Err EParentElement)
  else
    let clean := Clean p in
    if negb (is_abs clean) then mret (Err ERelativePath)
    else check EOutsideRoots (within_any clean [WorkDir cfg; DataDir (Jailer cfg)]).

Definition guardExportPath (p dataDir : string) : res fc_error unit :=
  if String.eqb dataDir EmptyString then Ok tt
  else if under (Clean p) (Clean dataDir) then Ok tt
  else Err EExportPath.

(** ** Preparing the chroot *)

Definition sameInode (a b : string) : prog G (option bool) :=
  ai ← sys (CStat a);
  match ai with
  | None => mret None
  | Some ai =>
      bi ← sys (CStat b);
      mret (match bi with Some bi => Some (fi_ino ai =? fi_ino bi) | None => None end)
  end.

(** template.go copyFile *)
Definition copyFile (src dst : string) : prog G bool :=
  opened ← sys (COpen src);
  if opened : bool then
    created ← sys (CCreate dst);
    if created : bool then
      copied ← sys (CReadFrom dst src);
      if copied : bool then sys (CSync dst) else mret false
    else mret false
  else mret false.

(** Hard-link [resolved] at [dst], or copy it when the link crosses filesystems. *)
Definition link_or_copy (resolved dst : string) : prog G (res fc_error unit) :=
  linked ← sys (CLink resolved dst);
  match linked with
  | LinkOk => mret (Ok tt)
  | LinkFailed => mret (Err ELink)
  | LinkXdev =>
      _ ← sys (CStat resolved);
      check ECopy (copyFile resolved dst)
  end.

Definition prepare_one (cfg : VMConfig) (vmID f : string) : prog G (res fc_error unit) :=
  must _ := guardChrootSource cfg f in
  must resolved := some_or EResolve (sys (CEvalSymlinks f)) in
  must _ := guardChrootSource cfg resolved in
  let dst := chrootPath (ChrootBaseDir (Jailer cfg)) vmID f in
  must _ := check EMkdir (sys (CMkdirAll (Dir dst))) in
  same ← sameInode resolved dst;
  match same with
  | Some true => mret (Ok tt)
  | _ =>
      removed ← sys (CRemove dst);
      match removed with
      | RmFailed => mret (Err EReplaceStale)
      | _ => link_or_copy resolved dst
      end
  end.

(** The mapping prepareChroot returns is the identity on [files]. *)
Definition prepareChroot (cfg : VMConfig) (vmID : string) (files : list string)
  : prog G (res fc_error (list (string * string))) :=
  must _ := for_each files (prepare_one cfg vmID) in
  mret (Ok (map (fun f => (f, f)) files)).

Fixpoint chown_all (targets : list string) (uid gid : Z) : prog G unit :=
  match targets with
  | [] => mret tt
  | t :: targets => _ ← sys (CChown t uid gid); chown_all targets uid gid
  end.

(** client.go chownIntoJail *)
Definition chownIntoJail (chrootDir : string) (cfg : VMConfig) (id : string) (uid gid : Z) : prog G unit :=
  chown_all (Join [chrootDir; "run"]
             :: map (chrootPath (ChrootBaseDir (Jailer cfg)) id) (ChrootFiles cfg)) uid gid.

End guards.

End Jail.

(** ** The client of one Firecracker process *)

Module Client.
Import Uid Jail.

Record Client := mkClient {
  socketPath : string; process : option Z; workDir : string;
  c_id : string; chrootDir : string; c_jailerVMDir : string; dataDir : string;
  jailedUID : Z; jailedGID : Z; allocator : bool }.

Section client.
Context {G : Type} {HU : HasUids G}.

(** The critical sections of the shared allocator. *)
Definition acquire_uid : prog G (option Z) :=
  atomic (fun g => let '(u, a) := Acquire (getA g) in (u, setA a g)).
Definition release_uid (uid : Z) : prog G unit := modify (fun g => setA (Release uid (getA g)) g).

(** *** HTTP helpers *)

Definition api (c : Client) (m : http_method) (path : string) (b : body) : prog G bool :=
  status ← sys (CApi (socketPath c) m path b);
  mret (match status with Some st => st <? 400 | None => false end).
Definition put (c : Client) (path : string) (b : body) : prog G bool := api c MPut path b.
Definition patch (c : Client) (path : string) (b : body) : prog G bool := api c MPatch path b.
Definition get (c : Client) (path : string) : prog G bool :=
  status ← sys (CApiGet (socketPath c) path);
  mret (match status with Some st => st <? 400 | None => false end).

(** *** Waiting for the API socket *)

Definition poll_interval : Z := 10000000.

(** One poll every 10ms until the deadline; [EClock] is the fuel running out,
    which a clock that advances by the time slept rules out. *)
Fixpoint poll (c : Client) (deadline : Z) (fuel : nat) : prog G (res fc_error unit) :=
  match fuel with
  | O => mret (Err EClock)
  | S fuel =>
      now ← sys CNow;
      if now <? deadline then
        st ← sys (CStat (socketPath c));
        ok ← match st with Some _ => get c "/" | None => mret false end;
        if ok : bool then mret (Ok tt)
        else _ ← sys (CSleep poll_interval); poll c deadline fuel
      else mret (Err ENotReady)
  end.

Definition poll_fuel (timeout : Z) : nat := S (S (Z.to_nat (timeout / poll_interval))).

Definition waitReady (c : Client) (timeout : Z) : prog G (res fc_error unit) :=
  start ← sys CNow; poll c (start + timeout) (poll_fuel timeout).

(** A launch that does not become ready is killed and reaped. *)
Definition ready_or_kill (c : Client) (pid timeout : Z) : prog G (res fc_error unit) :=
  ready ← waitReady c timeout;
  match ready with
  | Ok _ => mret (Ok tt)
  | Err _ => _ ← sys (CKill pid); _ ← sys (CWait pid); mret (Err ENotReady)
  end.

(** *** Launch *)

Definition VsockRelPath : string := "vsock.sock".

Definition startJailed (cfg : VMConfig) (uid : Z) : prog G (res fc_error Client) :=
  let id := ID cfg in
  let chrootDir := jailerChrootDir (ChrootBaseDir (Jailer cfg)) id in
  must _ := check EMkdir (sys (CMkdirAll (Join [chrootDir; "run"]))) in
  must _ := prepareChroot cfg id (ChrootFiles cfg) in
  _ ← chownIntoJail chrootDir cfg id uid uid;
  let socketPath := jailedAPISocketPath (ChrootBaseDir (Jailer cfg)) id in
  _ ← sys (CRemove socketPath);
  must pid := some_or EStart (sys (CStart (JailerBin (Jailer cfg)) (jailerArgs cfg id uid uid) EmptyString)) in
  let client := mkClient socketPath (Some pid) EmptyString id chrootDir
                  (jailerVMDir (ChrootBaseDir (Jailer cfg)) id) (DataDir (Jailer cfg)) uid uid true in
  must _ := ready_or_kill client pid (10 * second) in
  mret (Ok client).

(** startJailedVM: the uid acquired for the launch goes back when it fails. *)
Definition startJailedVM (cfg : VMConfig) : prog G (res fc_error Client) :=
  if String.eqb (ID cfg) EmptyString then mret (Err ENoID)
  else if negb (validateVMID (ID cfg)) then mret (Err EInvalidID)
  else if negb (String.eqb (Base (FirecrackerBin cfg)) jailerExecFileName) then mret (Err EBinaryName)
  else if negb (Allocator (Jailer cfg)) then mret (Err ENoAllocator)
  else
    must _ := guardJailerLayout cfg in
    must uid := some_or EUIDExhausted acquire_uid in
    launched ← startJailed cfg uid;
    match launched with
    | Ok client => mret (Ok client)
    | Err e => _ ← release_uid uid; mret (Err e)
    end.

Definition StartVM (cfg : VMConfig) : prog G (res fc_error Client) :=
  if Enabled (Jailer cfg) then startJailedVM cfg
  else if negb (String.eqb (ID cfg) EmptyString) && negb (validateVMID (ID cfg)) then mret (Err EInvalidID)
  else
    let socketPath := if String.eqb (SocketPath cfg) EmptyString
                      then Join [WorkDir cfg; "firecracker.sock"] else SocketPath cfg in
    _ ← sys (CRemove socketPath);
    _ ← sys (CRemove (Join [WorkDir cfg; VsockRelPath]));
    let args := ["--api-sock"; socketPath]
                ++ (if String.eqb (ID cfg) EmptyString then [] else ["--id"; ID cfg]) in
    must pid := some_or EStart (sys (CStart (FirecrackerBin cfg) args (WorkDir cfg))) in
    let client := mkClient socketPath (Some pid) (WorkDir cfg) EmptyString EmptyString EmptyString
                    EmptyString 0 0 false in
    must _ := ready_or_kill client pid (5 * second) in
    mret (Ok client).

(** *** Paths *)

Definition HostPath (c : Client) (p : string) : string :=
  if String.eqb (chrootDir c) EmptyString then p else Join [chrootDir c; Clean p].

Definition VsockHostPath (c : Client) (relUDSPath : string) : string :=
  let base := if String.eqb (chrootDir c) EmptyString then workDir c else chrootDir c in
  Join [base; relUDSPath].

Definition ConnectVM (socketPath : string) : Client :=
  mkClient socketPath None EmptyString EmptyString EmptyString EmptyString EmptyString 0 0 false.

(** *** Configuration *)

Definition SetBootSource (c : Client) (kernel bootArgs : string) : prog G bool :=
  put c "/boot-source" (BBootSource (mkBootSource kernel bootArgs)).
Definition SetMachineConfig (c : Client) (vcpus memMB : Z) : prog G bool :=
  put c "/machine-config" (BMachineConfig (mkMachineConfig vcpus memMB)).
Definition AddDrive (c : Client) (driveID path : string) (readOnly rootDevice : bool) : prog G bool :=
  put c ("/drives/" +:+ driveID) (BDrive (mkDrive driveID path readOnly rootDevice)).
Definition PatchDrive (c : Client) (driveID pathOnHost : string) : prog G bool :=
  patch c ("/drives/" +:+ driveID) (BDrivePatch (mkDrivePatch driveID pathOnHost)).
Definition SetNetwork (c : Client) (ifaceID guestMAC hostDevName : string) : prog G bool :=
  put c ("/network-interfaces/" +:+ ifaceID)
    (BNetworkInterface (mkNetworkInterface ifaceID guestMAC hostDevName)).

Definition ensureJailedDir (c : Client) (hostDir : string) : prog G bool :=
  if String.eqb (chrootDir c) EmptyString then mret true
  else
    let dir := HostPath c hostDir in
    made ← sys (CMkdirAll dir);
    if made : bool then _ ← sys (CChown dir (jailedUID c) (jailedGID c)); mret true
    else mret false.

Definition SetVsock (c : Client) (guestCID : Z) (udsPath : string) : prog G (res fc_error unit) :=
  must _ := check EMkdir (ensureJailedDir c (Dir udsPath)) in
  check EApi (put c "/vsock" (BVsock (mkVsock guestCID udsPath))).

(** *** Lifecycle and snapshots *)

Definition Start (c : Client) : prog G bool := put c "/actions" (BAction "InstanceStart").
Definition Pause (c : Client) : prog G bool := patch c "/vm" (BVMState "Paused").
Definition Resume (c : Client) : prog G bool := patch c "/vm" (BVMState "Resumed").

Definition exportFromJail (c : Client) (hostPath : string) : prog G (res fc_error unit) :=
  if String.eqb (chrootDir c) EmptyString then mret (Ok tt)
  else
    must _ := mret (guardExportPath hostPath (dataDir c)) in
    let src := HostPath c hostPath in
    same ← sameInode src hostPath;
    match same with
    | Some true => mret (Ok tt)
    | _ =>
        must _ := check EMkdir (sys (CMkdirAll (Dir hostPath))) in
        removed ← sys (CRemove hostPath);
        match removed with
        | RmFailed => mret (Err EReplaceStale)
        | _ =>
            linked ← sys (CLink src hostPath);
            match linked with
            | LinkOk => mret (Ok tt)
            | LinkFailed => mret (Err EExport)
            | LinkXdev => check EExport (copyFile src hostPath)
            end
        end
    end.

Definition CreateSnapshot (c : Client) (memPath snapshotPath : string) : prog G (res fc_error unit) :=
  must _ := for_each [memPath; snapshotPath] (fun p => check EMkdir (ensureJailedDir c (Dir p))) in
  must _ := check EApi (put c "/snapshot/create"
              (BSnapshotCreate (mkSnapshotCreate "Full" snapshotPath memPath))) in
  for_each [memPath; snapshotPath] (exportFromJail c).

Definition LoadSnapshotWithOverrides (c : Client) (memPath snapshotPath : string) (resumeVM : bool)
    (overrides : list NetworkOverride) : prog G bool :=
  put c "/snapshot/load" (BSnapshotLoad (mkSnapshotLoad snapshotPath memPath false resumeVM overrides)).
Definition LoadSnapshot (c : Client) (memPath snapshotPath : string) (resumeVM : bool) : prog G bool :=
  LoadSnapshotWithOverrides c memPath snapshotPath resumeVM [].

(** *** Teardown *)

(** Kill returns the client with its allocator cleared, and whether the kill
    signal was delivered. *)
Definition Kill (c : Client) : prog G (Client * bool) :=
  killed ← match process c with
           | Some pid => k ← sys (CKill pid); _ ← sys (CWait pid); mret k
           | None => mret true
           end;
  _ ← (if allocator c then release_uid (jailedUID c) else mret tt);
  _ ← (if String.eqb (c_jailerVMDir c) EmptyString then mret true else sys (CRemoveAll (c_jailerVMDir c)));
  mret (mkClient (socketPath c) (process c) (workDir c) (c_id c) (chrootDir c) (c_jailerVMDir c)
          (dataDir c) (jailedUID c) (jailedGID c) false, killed).

Definition PID (c : Client) : Z := default 0 (process c).

Record JailerState := mkJailerState { js_ChrootDir : string; js_JailerVMDir : string; js_JailedUID : Z }.
Definition jailerState (c : Client) : JailerState :=
  mkJailerState (chrootDir c) (c_jailerVMDir c) (jailedUID c).

End client.

End Client.

(** ** What a launch and a kill do *)

Module ClientFacts.
Import Uid Jail Client.

Section facts.
Context {G : Type} {HU : HasUids G}.

(** The preparation steps touch no process and no Go memory. *)
Definition prep_call (c : call) : Prop :=
  match c with
  | CMkdirAll _ | CStat _ | CEvalSymlinks _ | CRemove _ | CLink _ _ | CChown _ _ _ | COpen _
  | CCreate _ | CReadFrom _ _ | CSync _ | CNow | CSleep _ | CApiGet _ _ => True
  | _ => False
  end.

Lemma prep_no_proc c : prep_call c -> no_proc c.
Proof. by destruct c. Qed.

Lemma withinRoot_calls p r : calls_in prep_call (withinRoot (G := G) p r).
Proof. unfold withinRoot. walk. Qed.
Lemma withinRoot_keeps {V} (v : G -> V) p r : keeps v (withinRoot p r).
Proof. unfold withinRoot. walk. Qed.
#[local] Hint Resolve withinRoot_calls withinRoot_keeps : prog.

Lemma within_any_calls p rs : calls_in prep_call (within_any (G := G) p rs).
Proof. induction rs; cbn [within_any]; walk. Qed.
Lemma within_any_keeps {V} (v : G -> V) p rs : keeps v (within_any p rs).
Proof. induction rs; cbn [within_any]; walk. Qed.
#[local] Hint Resolve within_any_calls within_any_keeps : prog.

Lemma prepareChroot_calls cfg id fs : calls_in prep_call (prepareChroot (G := G) cfg id fs).
Proof. unfold prepareChroot, prepare_one, guardChrootSource, sameInode, link_or_copy, copyFile. walk. Qed.
Lemma prepareChroot_keeps {V} (v : G -> V) cfg id fs : keeps v (prepareChroot cfg id fs).
Proof. unfold prepareChroot, prepare_one, guardChrootSource, sameInode, link_or_copy, copyFile. walk. Qed.

Lemma guardJailerLayout_calls cfg : calls_in prep_call (guardJailerLayout (G := G) cfg).
Proof. unfold guardJailerLayout. walk. Qed.
Lemma guardJailerLayout_keeps {V} (v : G -> V) cfg : keeps v (guardJailerLayout cfg).
Proof. unfold guardJailerLayout. walk. Qed.

Lemma chown_calls d cfg id u g : calls_in prep_call (chownIntoJail (G := G) d cfg id u g).
Proof. unfold chownIntoJail. generalize (Join [d; "run"] :: map (chrootPath (ChrootBaseDir (Jailer cfg)) id) (ChrootFiles cfg)) as l. induction l; cbn [chown_all]; walk. Qed.
Lemma chown_keeps {V} (v : G -> V) d cfg id u g : keeps v (chownIntoJail d cfg id u g).
Proof. unfold chownIntoJail. generalize (Join [d; "run"] :: map (chrootPath (ChrootBaseDir (Jailer cfg)) id) (ChrootFiles cfg)) as l. induction l; cbn [chown_all]; walk. Qed.

Lemma waitReady_calls c d : calls_in prep_call (waitReady (G := G) c d).
Proof.
  unfold waitReady. walk. generalize (poll_fuel d) as n.
  induction n; cbn [poll]; unfold get; walk.
Qed.
Lemma waitReady_keeps {V} (v : G -> V) c d : keeps v (waitReady c d).
Proof.
  unfold waitReady. walk. generalize (poll_fuel d) as n. induction n; cbn [poll]; unfold get; walk.
Qed.

#[local] Hint Resolve prepareChroot_calls prepareChroot_keeps guardJailerLayout_calls
  guardJailerLayout_keeps chown_calls chown_keeps waitReady_calls waitReady_keeps : prog.

(** A program without process calls and critical sections. *)
Lemma wp_quiet {A} (p : prog G A) (g : G) t :
  calls_in prep_call p -> keeps id p ->
  wp anything p (fun _ g' t' => g' = g /\ live t' = live t) g t.
Proof.
  intros Hc%(calls_mono _ _ _ prep_no_proc) Hk. eapply wp_mono; [apply wp_and; [by apply wp_calls|by apply (wp_keeps id)]|].
  cbn. intros _ g' t' [(ext & -> & Hext) Hg]. split; [exact Hg|by apply live_no_proc].
Qed.

Definition without (pid : Z) (l : list Z) : list Z := filter (fun q => q <> pid) l.

Lemma live_started t bin args dir pid : live (t ++ [Ev (CStart bin args dir) (Some pid)]) = pid :: live t.
Proof. by rewrite live_app. Qed.

Lemma live_start_failed t bin args dir : live (t ++ [Ev (CStart bin args dir) None]) = live t.
Proof. by rewrite live_app. Qed.

Lemma live_waited t pid x : live (t ++ [Ev (CWait pid) x]) = without pid (live t).
Proof. by rewrite live_app. Qed.

Lemma without_cons pid l : without pid (pid :: l) = without pid l.
Proof. unfold without. rewrite filter_cons. by case_decide. Qed.

Lemma without_subset pid l : without pid l ⊆ l.
Proof. intros x Hx. by apply list_elem_of_filter in Hx as [_ Hx]. Qed.

(** A launch that is not ready in time is reaped before the error returns. *)
Lemma ready_or_kill_wp c pid d (g : G) t :
  wp anything (ready_or_kill c pid d)
    (fun r g' t' => g' = g /\
       live t' = match r with Ok _ => live t | Err _ => without pid (live t) end) g t.
Proof.
  unfold ready_or_kill. apply wp_bind. eapply wp_mono; [apply wp_quiet; walk|].
  cbn beta. intros [u|e] g1 t1 [-> Hl]; [by apply wp_ret|].
  apply wp_bind, wp_sys. intros x _. apply wp_bind, wp_sys. intros y _. apply wp_ret.
  split; [done|]. rewrite live_waited, (live_no_proc t1); [by rewrite Hl|by repeat constructor].
Qed.

(** The outcome of a launch attempt under a uid: a client for a new live
    process, or no process at all. *)
Definition launched (r : res fc_error Client) (t t' : trace) : Prop :=
  match r with
  | Ok c => exists pid, process c = Some pid /\ live t' = pid :: live t
  | Err _ => live t' ⊆ live t
  end.

Lemma not_launched e t t' : live t' = live t -> launched (Err e) t t'.
Proof. by intros H x; rewrite H. Qed.

(** A guard that refuses the launch. *)
Ltac refuse :=
  match goal with
  | |- wp _ (if ?b then _ else _) _ _ _ =>
      destruct b; [by apply wp_ret; split; [apply not_launched|]|]
  end.

Lemma startJailed_wp cfg uid (g : G) t :
  wp anything (startJailed cfg uid)
    (fun r g' t' => g' = g /\ launched r t t' /\
       match r with Ok c => allocator c = true /\ jailedUID c = uid | Err _ => True end) g t.
Proof.
  unfold startJailed. cbv zeta.
  apply wp_try. eapply wp_mono; [apply wp_quiet; walk|]. cbn beta.
  intros [?|e] g1 t1 [-> H1]; [|by eauto using not_launched].
  apply wp_try. eapply wp_mono; [apply wp_quiet; walk|]. cbn beta.
  intros [?|e] g2 t2 [-> H2]; rewrite H1 in H2; [|by eauto using not_launched].
  apply wp_bind. eapply wp_mono; [apply wp_quiet; walk|]. cbn beta. intros _ g3 t3 [-> H3].
  apply wp_bind, wp_sys. intros rm _. cbn beta.
  assert (live (t3 ++ [Ev (CRemove (jailedAPISocketPath (ChrootBaseDir (Jailer cfg)) (ID cfg))) rm]) = live t)
    as H4 by (rewrite live_no_proc by (by repeat constructor); congruence).
  apply wp_try, wp_some_or, wp_sys. intros [pid|] _; cbn beta match.
  2: { split; [done|]. split; [|done]. apply not_launched. by rewrite live_start_failed. }
  apply wp_try. eapply wp_mono; [apply ready_or_kill_wp|]. cbn beta.
  intros [?|e] g5 t5 [-> H5]; rewrite live_started, H4 in H5.
  - apply wp_ret. split; [done|]. split; [by exists pid|done].
  - split; [done|]. split; [|done]. cbn. rewrite H5, without_cons. apply without_subset.
Qed.

Definition uids (g : G) : gset Z := inUse (getA g).

(** What StartVM leaves behind: on success one live process more, and in jailer
    mode its uid newly in use; on failure neither. *)
Definition started (r : res fc_error Client) (g g' : G) : Prop :=
  match r with
  | Ok c =>
      if allocator c then (jailedUID c ∉ uids g) /\ uids g' = {[jailedUID c]} ∪ uids g
      else uids g' = uids g
  | Err _ => uids g' = uids g
  end.

Lemma acquire_wp (g : G) t :
  wp anything (acquire_uid)
    (fun r g' t' => t' = t /\
       match r with
       | Some u => (u ∉ uids g) /\ uids g' = {[u]} ∪ uids g
       | None => uids g' = uids g
       end) g t.
Proof.
  apply wp_atomic. unfold uids, Acquire. destruct (scan _ _ _ _) as [[u i]|] eqn:Es; cbn.
  - rewrite getA_setA. split; [done|]. by apply scan_sound in Es as (_ & Hu & _).
  - by rewrite getA_setA.
Qed.

Lemma release_wp u (g : G) t :
  wp anything (release_uid u) (fun _ g' t' => t' = t /\ uids g' = uids g ∖ {[u]}) g t.
Proof. apply wp_modify. unfold uids. by rewrite getA_setA. Qed.

Lemma startJailedVM_wp cfg (g : G) t :
  wp anything (startJailedVM cfg)
    (fun r g' t' => launched r t t' /\ started r g g') g t.
Proof.
  unfold startJailedVM. repeat refuse.
  apply wp_try. eapply wp_mono; [apply wp_quiet; walk|]. cbn beta.
  intros [?|e] g1 t1 [-> H1]; [|by split; [apply not_launched|]].
  apply wp_try, wp_some_or. eapply wp_mono; [apply acquire_wp|]. cbn beta.
  intros [u|] g2 t2 [-> H2]; [|by split; [apply not_launched|]].
  destruct H2 as [Hu H2]. apply wp_bind. eapply wp_mono; [apply startJailed_wp|]. cbn beta.
  intros [c|e] g3 t3 (-> & H3 & H4); unfold launched in *; rewrite <-H1.
  - apply wp_ret. split; [done|]. destruct H4 as [Ha <-]. by cbn; rewrite Ha.
  - apply wp_bind. eapply wp_mono; [apply release_wp|]. intros _ g4 t4 [-> H4']. apply wp_ret.
    split; [done|]. cbn. rewrite H4', H2. set_solver.
Qed.

Lemma StartVM_wp cfg (g : G) t :
  wp anything (StartVM cfg) (fun r g' t' => launched r t t' /\ started r g g') g t.
Proof.
  unfold StartVM. destruct (Enabled _); [apply startJailedVM_wp|].
  refuse. cbv zeta.
  apply wp_bind, wp_sys. intros r1 _. apply wp_bind, wp_sys. intros r2 _. cbn beta.
  apply wp_try, wp_some_or, wp_sys.
  match goal with |- context [(?a ++ [?b]) ++ [?c]] =>
    assert (live ((a ++ [b]) ++ [c]) = live a) as Hl
      by (rewrite <-app_assoc; apply live_no_proc; by repeat constructor);
    revert Hl; generalize ((a ++ [b]) ++ [c]) end.
  intros t1 Hl. intros [pid|] _; cbn beta match; [|split; [apply not_launched; by rewrite live_start_failed|done]].
  apply wp_try. eapply wp_mono; [apply ready_or_kill_wp|]. cbn beta.
  intros [?|e] g5 t5 [-> H5]; rewrite live_started, Hl in H5.
  - apply wp_ret. split; [by exists pid|done].
  - split; [|done]. cbn. rewrite H5, without_cons. apply without_subset.
Qed.

(** All calls of a launch. *)
Definition launch_call (c : call) : Prop :=
  prep_call c \/ match c with CStart _ _ _ | CKill _ | CWait _ => True | _ => False end.

Lemma StartVM_calls cfg : calls_in launch_call (StartVM (G := G) cfg).
Proof.
  assert (forall A (p : prog G A), calls_in prep_call p -> calls_in launch_call p) as Hprep
    by (intros A p; apply calls_mono; by left).
  unfold StartVM, startJailedVM, startJailed, ready_or_kill, acquire_uid, release_uid.
  walk; try (apply Hprep; by walk); first [by left | by right].
Qed.

(** Kill waits for the process and then gives the uid back. *)
Lemma Kill_wp c pid (g : G) t :
  process c = Some pid ->
  wp anything (Kill c)
    (fun _ g' t' => live t' = without pid (live t) /\
       uids g' = if allocator c then uids g ∖ {[jailedUID c]} else uids g) g t.
Proof.
  intros Hp. unfold Kill. rewrite Hp. apply wp_bind, wp_bind, wp_sys. intros k _.
  apply wp_bind, wp_sys. intros w _. apply wp_ret.
  assert (live ((t ++ [Ev (CKill pid) k]) ++ [Ev (CWait pid) w]) = without pid (live t)) as Hl
    by (rewrite live_waited, live_no_proc; [done|by repeat constructor]).
  revert Hl. generalize ((t ++ [Ev (CKill pid) k]) ++ [Ev (CWait pid) w]). intros t1 Hl.
  apply wp_bind. eapply wp_mono with (Q := fun _ g' t' => live t' = without pid (live t) /\
    uids g' = if allocator c then uids g ∖ {[jailedUID c]} else uids g).
  { destruct (allocator c); [|by apply wp_ret; split].
    eapply wp_mono; [apply release_wp|]. by intros _ g' t' [-> H]. }
  intros _ g2 t2 [Hl2 Hu]. apply wp_bind. destruct (String.eqb _ _); [exact (conj Hl2 Hu)|].
  apply wp_sys. intros x _. apply wp_ret. split; [|exact Hu].
  rewrite live_no_proc; [exact Hl2|by repeat constructor].
Qed.

End facts.

End ClientFacts.

(** ** A launch stays inside its jail *)

Module JailFacts.
Import Uid Jail Client ClientFacts.

(** *** Ids and paths *)

Lemma alnum_id_byte c : alnum c = true -> id_byte c = true.
Proof. unfold id_byte. by intros ->. Qed.

Lemma validateVMID_plain id : validateVMID id = true -> plain id.
Proof.
  destruct id as [|c r]; [done|]. cbn [validateVMID]. intros [[Hc Hr]%andb_true_iff _]%andb_true_iff.
  assert (string_forallb id_byte (String c r) = true) as Hall
    by (cbn; rewrite alnum_id_byte by done; exact Hr).
  split; [done|]. split; [|split].
  - intros [= -> ->]. done.
  - intros [= -> ->]. done.
  - by apply forallb_not_contains with (p := id_byte).
Qed.

Lemma Clean_relative p : is_abs p = false -> is_abs (Clean p) = false.
Proof.
  intros Hp. unfold Clean. rewrite Hp.
  assert (Forall (fun s => s <> EmptyString /\ contains_byte slash s = false) (clean_elems p)) as Hall.
  { unfold clean_elems. apply Forall_rev_iff. rewrite Hp.
    assert (Forall (fun f => contains_byte slash f = false) (split_byte slash p)) as Hs by apply split_byte_fields.
    assert (Forall (fun s => s <> EmptyString /\ contains_byte slash s = false) (@nil string)) as H0 by constructor.
    revert H0. generalize (@nil string) as acc. induction Hs as [|s segs Hs _ IH]; intros acc Hacc; [done|].
    cbn [fold_left]. apply IH. unfold clean_step.
    destruct (String.eqb_spec s EmptyString), (String.eqb_spec s "."), (String.eqb_spec s "..");
      simpl; try done; [|by constructor].
    destruct Hacc as [|top below Ht Hb]; [constructor; [done|constructor]|].
    destruct (String.eqb top ".."); [|done]. constructor; [done|]. by constructor. }
  destruct Hall as [|s es [Hs1 Hs2] _]; [done|].
  destruct s as [|c s]; [done|]. rewrite contains_byte_cons in Hs2. apply orb_false_iff in Hs2 as [Hc _].
  assert (forall r, is_abs (String c r) = false) as Hr.
  { intros r. unfold is_abs, has_prefix. cbn [cut_prefix]. by rewrite Hc. }
  destruct es; apply Hr.
Qed.

Lemma Clean_idemp p : is_abs p = true -> Clean (Clean p) = Clean p.
Proof.
  intros Hp. rewrite (Clean_abs p Hp), Clean_abs by done. f_equal.
  by apply clean_elems_abs_of, clean_elems_rooted.
Qed.

Lemma is_abs_Clean p : is_abs (Clean p) = is_abs p.
Proof. destruct (is_abs p) eqn:Hp; [by rewrite Clean_abs|by apply Clean_relative]. Qed.

(** The files of the jail of VM [id]. *)
Definition inside (base id d : string) : Prop :=
  exists rest, clean_elems d = clean_elems base ++ jailerExecFileName :: id :: rest.

(** The jails of two VMs are disjoint. *)
Lemma inside_unique base id id' d : inside base id d -> inside base id' d -> id = id'.
Proof. intros [r Hr] [r' Hr']. rewrite Hr in Hr'. by apply (inj (_ ++.)) in Hr' as [= -> _]. Qed.

Section jail.
Context (base id : string) (Hbase : is_abs base = true) (Hid : plain id).

Lemma chroot_elems :
  jailerChrootDir base id = abs_of (clean_elems base ++ [jailerExecFileName; id; "root"]).
Proof using Hbase Hid.
  unfold jailerChrootDir. rewrite Join_below; [|done|].
  - rewrite (below_cons jailerExecFileName), (below_cons id), !below_one_plain by done. done.
  - cbn [map concat]. rewrite (split_byte_single _ id) by apply Hid. cbn.
    constructor; [by right|]. constructor; [by right|]. constructor; [by right|constructor].
Qed.

Lemma vmdir_elems : jailerVMDir base id = abs_of (clean_elems base ++ [jailerExecFileName; id]).
Proof using Hbase Hid.
  unfold jailerVMDir. rewrite Join_below; [|done|].
  - rewrite (below_cons jailerExecFileName), !below_one_plain by done. done.
  - cbn [map concat]. rewrite (split_byte_single _ id) by apply Hid. cbn.
    constructor; [by right|]. constructor; [by right|constructor].
Qed.

Lemma jail_plain rest : Forall plain rest -> Forall plain (clean_elems base ++ jailerExecFileName :: id :: rest).
Proof using Hbase Hid.
  intros Hr. apply Forall_app. split; [by apply clean_elems_rooted|].
  constructor; [done|]. constructor; [done|exact Hr].
Qed.

Lemma inside_abs_of rest :
  Forall plain rest -> inside base id (abs_of (clean_elems base ++ jailerExecFileName :: id :: rest)).
Proof using Hbase Hid. intros Hr. exists rest. by apply clean_elems_abs_of, jail_plain. Qed.

(** Every path built below the chroot is inside the jail, and so is its parent. *)
Lemma inside_Dir rest x :
  Forall plain rest -> plain x ->
  inside base id (Dir (abs_of (clean_elems base ++ jailerExecFileName :: id :: rest ++ [x]))).
Proof using Hbase Hid.
  intros Hr Hx.
  replace (clean_elems base ++ jailerExecFileName :: id :: rest ++ [x])
    with ((clean_elems base ++ jailerExecFileName :: id :: rest) ++ [x]) by (by rewrite <-app_assoc).
  rewrite Dir_abs_of; [|by apply jail_plain|done]. by apply inside_abs_of.
Qed.

Lemma chroot_join es :
  Forall plain es ->
  inside base id (Join [jailerChrootDir base id; abs_of es]) /\
  inside base id (Dir (Join [jailerChrootDir base id; abs_of es])).
Proof using Hbase Hid.
  intros Hes.
  assert (Join [jailerChrootDir base id; abs_of es] =
    abs_of (clean_elems base ++ jailerExecFileName :: id :: "root" :: es)) as ->.
  { rewrite chroot_elems, Join_below; [|done|].
    - rewrite clean_elems_abs_of by (by apply jail_plain; repeat constructor).
      rewrite below_one_abs by done. by rewrite <-app_assoc.
    - cbn [map concat]. rewrite app_nil_r. by apply downward_abs. }
  split; [apply inside_abs_of; by constructor|].
  destruct es as [|x es _] using rev_ind; [by apply (inside_Dir [] "root")|].
  apply Forall_app in Hes as [Hes Hx]. apply Forall_inv in Hx.
  apply (inside_Dir ("root" :: es)); [by constructor|done].
Qed.

Lemma run_dir_inside : inside base id (Join [jailerChrootDir base id; "run"]).
Proof using Hbase Hid.
  rewrite chroot_elems, Join_plain by (by try apply jail_plain; repeat constructor).
  rewrite <-app_assoc. apply (inside_abs_of ["root"; "run"]). by repeat constructor.
Qed.

Lemma socket_inside : inside base id (jailedAPISocketPath base id).
Proof using Hbase Hid. by apply (chroot_join ["run"; "firecracker.socket"]); repeat constructor. Qed.

Lemma chrootPath_inside f :
  is_abs f = true -> inside base id (chrootPath base id f) /\ inside base id (Dir (chrootPath base id f)).
Proof using Hbase Hid.
  intros Hf. unfold chrootPath. rewrite (Clean_abs f Hf). by apply chroot_join, clean_elems_rooted.
Qed.

End jail.

(** The file a call creates, replaces, removes or hands over. *)
Definition written (c : call) : option string :=
  match c with
  | CMkdirAll p | CRemove p | CRemoveAll p | CLink _ p | CSymlink _ p | CRename _ p
  | CChown p _ _ | CCreate p | CReadFrom p _ | CWrite p _ | CSync p => Some p
  | _ => None
  end.

Definition stays (base id : string) (c : call) : Prop :=
  match written c with Some p => inside base id p | None => True end.

(** The file a call exposes or copies from. *)
Definition source (c : call) : option string :=
  match c with CLink s _ | COpen s | CReadFrom _ s => Some s | _ => None end.

Section launch.
Context {G : Type} {HU : HasUids G} (cfg : VMConfig).
Abbreviation base := (ChrootBaseDir (Jailer cfg)).

(** [s] lies in the VM workspace or the data directory, or in what the host
    resolved one of them to. *)
Definition exposable (t : trace) (s : string) : Prop :=
  exists root, root ∈ [WorkDir cfg; DataDir (Jailer cfg)] /\ root <> EmptyString /\
    (under (Clean s) (Clean root) = true \/
     exists r, Ev (CEvalSymlinks root) (Some r) ∈ t /\ under (Clean s) (Clean r) = true).

Lemma exposable_mono t e s : exposable t s -> exposable (t ++ [e]) s.
Proof.
  intros (root & H1 & H2 & H3). exists root. split; [done|]. split; [done|].
  destruct H3 as [H3|(r & H3 & H4)]; [by left|]. right. exists r. split; [set_solver|done].
Qed.

Definition confined (t : trace) : Prop :=
  Forall (fun e => stays base (ID cfg) (ev_call e)) t /\
  forall e s, e ∈ t -> source (ev_call e) = Some s -> exposable t s.

Lemma confined_snoc t c x :
  confined t -> stays base (ID cfg) c -> (forall s, source c = Some s -> exposable t s) ->
  confined (t ++ [Ev c x]).
Proof.
  intros [H1 H2] Hc Hs. split; [apply Forall_app; by repeat constructor|].
  intros e s [He|He%list_elem_of_singleton]%elem_of_app Hsrc; [by eapply exposable_mono, H2|].
  subst e. by apply exposable_mono, Hs.
Qed.

(** Steps that expose nothing and stay in the jail. *)
Definition harmless (c : call) : Prop := stays base (ID cfg) c /\ source c = None.

Lemma wp_harmless {A} (p : prog G A) (g : G) t :
  calls_in harmless p -> confined t -> wp anything p (fun _ _ t' => confined t') g t.
Proof.
  revert g t. induction p as [a|X f k IH|c k IH]; cbn; intros g t Hp Ht; [done|by apply IH|].
  intros x _. destruct Hp as [[Hc Hs] Hk]. apply IH; [done|]. apply confined_snoc; [done|done|congruence].
Qed.

Lemma wp_sys_harmless c (g : G) t :
  harmless c -> confined t -> wp anything (sys c) (fun _ _ t' => confined t') g t.
Proof. intros Hc. apply wp_harmless. by apply calls_sys. Qed.

Lemma withinRoot_wp p root (g : G) t :
  confined t -> root ∈ [WorkDir cfg; DataDir (Jailer cfg)] -> root <> EmptyString -> is_abs p = true ->
  wp anything (withinRoot (Clean p) root)
    (fun ok _ t' => confined t' /\ (ok = true -> exposable t' p)) g t.
Proof.
  intros Ht Hr Hne Hp. unfold withinRoot. apply wp_bind, wp_sys. intros r _. apply wp_ret.
  split; [by apply confined_snoc|]. rewrite Clean_idemp by done. intros Hex.
  exists root. split; [done|]. split; [done|]. apply existsb_exists in Hex as (q & Hq & Hu).
  destruct Hq as [<-|Hq]; [by left|]. right. destruct r as [r|]; [|done].
  destruct Hq as [<-|[]]. exists r. split; [set_solver|done].
Qed.

Lemma within_any_wp p roots (g : G) t :
  confined t -> roots ⊆ [WorkDir cfg; DataDir (Jailer cfg)] -> is_abs p = true ->
  wp anything (within_any (Clean p) roots)
    (fun ok _ t' => confined t' /\ (ok = true -> exposable t' p)) g t.
Proof.
  revert g t. induction roots as [|root roots IH]; intros g t Ht Hsub Hp; cbn [within_any]; [by apply wp_ret|].
  destruct (String.eqb_spec root EmptyString); [apply IH; [done|set_solver|done]|].
  apply wp_bind. eapply wp_mono; [by apply withinRoot_wp; [|set_solver|..]|]. cbn beta.
  intros [] g1 t1 [Ht1 He]; [by apply wp_ret|]. apply IH; [done|set_solver|done].
Qed.

Lemma guardChrootSource_wp p (g : G) t :
  confined t ->
  wp anything (guardChrootSource cfg p)
    (fun r _ t' => confined t' /\ match r with Ok _ => is_abs p = true /\ exposable t' p | Err _ => True end) g t.
Proof.
  intros Ht. unfold guardChrootSource. destruct (hasParentTraversal p); [by apply wp_ret|]. cbv zeta.
  rewrite is_abs_Clean. destruct (is_abs p) eqn:Hp; cbn [negb]; [|by apply wp_ret].
  apply wp_check. eapply wp_mono; [by apply within_any_wp|]. cbn beta.
  intros [] g1 t1 [Ht1 He]; [|done]. by split; [|split; [|apply He]].
Qed.

(** Linking or copying an exposable file to a place in the jail. *)
Lemma link_or_copy_wp src dst (g : G) t :
  confined t -> exposable t src -> inside base (ID cfg) dst ->
  wp anything (link_or_copy src dst) (fun _ _ t' => confined t') g t.
Proof.
  intros Ht Hs Hd. unfold link_or_copy, copyFile.
  assert (forall c x t', confined t' /\ exposable t' src -> stays base (ID cfg) c ->
    (source c = None \/ source c = Some src) ->
    confined (t' ++ [Ev c x]) /\ exposable (t' ++ [Ev c x]) src) as Hstep.
  { intros c x t' [H1 H2] Hc Hsrc. split; [|by apply exposable_mono].
    apply confined_snoc; [done|done|]. intros s Hs'. destruct Hsrc; congruence. }
  assert (confined t /\ exposable t src) as H0 by done. clear Ht Hs.
  apply wp_bind, wp_sys. intros l _. eapply (Hstep _ l) in H0; [|exact Hd|by right].
  destruct l; [by apply wp_ret, H0| |by apply wp_ret, H0].
  apply wp_bind, wp_sys. intros st _. eapply (Hstep _ st) in H0; [|done|by left].
  apply wp_check, wp_bind, wp_sys. intros b1 _. eapply (Hstep _ b1) in H0; [|done|by right].
  destruct b1; [|by apply wp_ret, H0].
  apply wp_bind, wp_sys. intros b2 _. eapply (Hstep _ b2) in H0; [|exact Hd|by left].
  destruct b2; [|by apply wp_ret, H0].
  apply wp_bind, wp_sys. intros b3 _. eapply (Hstep _ b3) in H0; [|exact Hd|by right].
  destruct b3; [|by apply wp_ret, H0].
  apply wp_sys. intros b4 _. eapply (Hstep _ b4) in H0; [|exact Hd|by left]. apply H0.
Qed.

Context (Hbase : is_abs base = true) (Hid : plain (ID cfg)).

Lemma prepare_one_wp f (g : G) t :
  confined t ->
  wp anything (prepare_one cfg (ID cfg) f)
    (fun r _ t' => confined t' /\ match r with Ok _ => is_abs f = true | Err _ => True end) g t.
Proof using Hbase Hid.
  intros Ht. unfold prepare_one. cbv zeta.
  apply wp_try. eapply wp_mono; [by apply guardChrootSource_wp|]. cbn beta.
  intros [?|?] g1 t1 [Ht1 H1]; [|done]. destruct H1 as [Hf _].
  destruct (chrootPath_inside base (ID cfg) Hbase Hid f Hf) as [Hin Hdir].
  apply wp_try, wp_some_or, wp_sys. intros [r|] _; [|by split; [apply confined_snoc|]].
  apply wp_try. eapply wp_mono; [by apply guardChrootSource_wp, confined_snoc|]. cbn beta.
  intros [?|?] g2 t2 [Ht2 H2]; [|done]. destruct H2 as [_ He].
  apply wp_try, wp_check, wp_sys. intros mk _. eapply (confined_snoc _ _ mk) in Ht2; [|exact Hdir|done].
  eapply exposable_mono in He. destruct mk; [|done].
  eapply (wp_bind _ (sameInode r _)). unfold sameInode.
  apply wp_bind, wp_sys. intros si _. eapply (confined_snoc _ _ si) in Ht2; [|done|done].
  eapply exposable_mono in He. eapply wp_mono with (Q := fun _ _ t' => confined t' /\ exposable t' r).
  { destruct si as [ai|]; [|by apply wp_ret].
    apply wp_bind, wp_sys. intros bi _. apply wp_ret. split; [by apply confined_snoc|by apply exposable_mono]. }
  intros same g3 t3 [Ht3 He3].
  assert (wp anything (removed ← sys (CRemove (chrootPath base (ID cfg) f));
    match removed with RmFailed => mret (Err EReplaceStale) | _ => link_or_copy r (chrootPath base (ID cfg) f) end)
    (fun r _ t' => confined t' /\ match r with Ok _ => is_abs f = true | Err _ => True end) g3 t3) as Hrest.
  { apply wp_bind, wp_sys. intros rm _. eapply (confined_snoc _ _ rm) in Ht3; [|exact Hin|done].
    eapply exposable_mono in He3.
    destruct rm; [| |by apply wp_ret];
      (eapply wp_mono; [by apply link_or_copy_wp|]; intros [?|?] g4 t4 H4; done). }
  destruct same as [[]|]; [by apply wp_ret|exact Hrest|exact Hrest].
Qed.

Lemma prepareChroot_wp fs (g : G) t :
  confined t ->
  wp anything (prepareChroot cfg (ID cfg) fs)
    (fun r _ t' => confined t' /\
       match r with Ok _ => Forall (fun f => is_abs f = true) fs | Err _ => True end) g t.
Proof using Hbase Hid.
  intros Ht. unfold prepareChroot. apply wp_try.
  eapply wp_for_each with (I := fun pre _ t' => confined t' /\ Forall (fun f => is_abs f = true) pre); [done| |].
  - intros pre f post g1 t1 _ [Ht1 Hpre]. eapply wp_mono; [by apply prepare_one_wp|]. cbn beta.
    intros [?|?] g2 t2 [Ht2 Hf]; [|done]. split; [done|]. apply Forall_app. by repeat constructor.
  - intros g1 t1 [Ht1 Hfs]. by apply wp_ret.
Qed.

Lemma chown_harmless u :
  Forall (fun f => is_abs f = true) (ChrootFiles cfg) ->
  calls_in harmless (chownIntoJail (G := G) (jailerChrootDir base (ID cfg)) cfg (ID cfg) u u).
Proof using Hbase Hid.
  intros Hfs. unfold chownIntoJail. cbn [chown_all]. walk; [split; [by apply run_dir_inside|done]|].
  induction Hfs as [|f fs Hf _ IH]; cbn [map chown_all]; walk. split; [by apply chrootPath_inside|done].
Qed.

Lemma ready_harmless c pid d : calls_in harmless (ready_or_kill (G := G) c pid d).
Proof.
  unfold ready_or_kill, waitReady. walk; try done.
  generalize (poll_fuel d) as n. intros n. induction n; cbn [poll]; unfold get; walk; done.
Qed.

Lemma startJailed_confined u (g : G) t :
  confined t -> wp anything (startJailed cfg u) (fun _ _ t' => confined t') g t.
Proof using Hbase Hid.
  intros Ht. unfold startJailed. cbv zeta.
  apply wp_try, wp_check. eapply wp_mono; [by apply wp_sys_harmless; [split; [by apply run_dir_inside|]|]|].
  cbn beta. intros [] g1 t1 Ht1; [|done].
  apply wp_try. eapply wp_mono; [by apply prepareChroot_wp|]. cbn beta.
  intros [?|?] g2 t2 [Ht2 Hfs]; [|done].
  apply wp_bind. eapply wp_mono; [by apply wp_harmless; [apply chown_harmless|]|]. cbn beta. intros _ g3 t3 Ht3.
  apply wp_bind. eapply wp_mono; [by apply wp_sys_harmless; [split; [by apply socket_inside|]|]|].
  cbn beta. intros _ g4 t4 Ht4. apply wp_try, wp_some_or.
  eapply wp_mono; [by apply wp_sys_harmless; [split|]|]. cbn beta. intros [pid|] g5 t5 Ht5; [|done].
  apply wp_try. eapply wp_mono; [by apply wp_harmless; [apply ready_harmless|]|]. cbn beta.
  intros [?|?] g6 t6 Ht6; [by apply wp_ret|done].
Qed.

End launch.


(** *** The wait for the API socket ends *)

(** The time no later clock reading is before. *)
Definition clock_step (b : option Z) (e : event) : option Z :=
  match e with
  | Ev CNow x => Some x
  | Ev (CSleep d) _ => (fun b => b + d) <$> b
  | _ => b
  end.
Definition clock (t : trace) : option Z := fold_left clock_step t None.

(** Go's monotonic clock: readings do not go back and advance by the time slept. *)
Definition monotonic (t : trace) (c : call) : answer c -> Prop :=
  match c return answer c -> Prop with
  | CNow => fun x => forall b, clock t = Some b -> b <= x
  | _ => fun _ => True
  end.

Lemma clock_snoc t e : clock (t ++ [e]) = clock_step (clock t) e.
Proof. unfold clock. by rewrite fold_left_app. Qed.

Lemma poll_ends {G} c deadline fuel b (g : G) t :
  clock t = Some b -> deadline - b <= Z.of_nat fuel * poll_interval ->
  wp monotonic (poll c deadline (S fuel)) (fun r _ _ => r = Ok tt \/ r = Err ENotReady) g t.
Proof.
  revert b g t. induction fuel as [|fuel IH]; intros b g t Hb Hd.
  - cbn [poll]. apply wp_bind, wp_sys. intros now Hnow. specialize (Hnow b Hb).
    destruct (Z.ltb_spec now deadline); [lia|apply wp_ret; auto].
  - change (poll c deadline (S (S fuel))) with
      (now ← sys CNow;
       if now <? deadline then
         st ← sys (CStat (socketPath c));
         ok ← match st with Some _ => get c "/" | None => mret false end;
         if ok : bool then mret (Ok tt)
         else _ ← sys (CSleep poll_interval); poll (G := G) c deadline (S fuel)
       else mret (Err ENotReady)).
    apply wp_bind, wp_sys. intros now Hnow. specialize (Hnow b Hb).
    destruct (Z.ltb_spec now deadline); [|apply wp_ret; auto].
    apply wp_bind, wp_sys. intros st _. apply wp_bind.
    eapply wp_mono with (Q := fun _ _ t' => clock t' = Some now).
    + destruct st as [fi|]; unfold get; [apply wp_bind, wp_sys; intros x _|]; apply wp_ret;
        by rewrite !clock_snoc.
    + intros [] g1 t1 Hc1; [apply wp_ret; auto|].
      apply wp_bind, wp_sys. intros [] _. apply (IH (now + poll_interval)).
      * by rewrite clock_snoc, Hc1.
      * unfold poll_interval in *. lia.
Qed.

(** C36. waitReady ends on every host whose clock is monotonic: it returns that the
    VM is ready or that it is not, and never exhausts the polls the timeout
    allows for at one every ten milliseconds. *)
Theorem waitReady_terminates {G O} (h : env O) (c : Client) (timeout : Z) (g : G) (o : O) :
  0 <= timeout ->
  let '(r, _, _, t) := run h (waitReady c timeout) g o in
  obeys monotonic [] t -> r = Ok tt \/ r = Err ENotReady.
Proof.
  intros Ht.
  assert (wp monotonic (waitReady c timeout) (fun r _ _ => r = Ok tt \/ r = Err ENotReady) g []) as Hwp.
  { unfold waitReady. apply wp_bind, wp_sys. intros start _.
    unfold poll_fuel. eapply poll_ends; [done|]. unfold poll_interval.
    pose proof (Z.mul_succ_div_gt timeout 10000000 ltac:(lia)).
    assert (0 <= timeout / 10000000) by (apply Z.div_pos; lia). lia. }
  pose proof (wp_run_obeys monotonic h _ _ g o [] Hwp) as Hr.
  destruct (run h _ g o) as [[[r g'] o'] t]. exact Hr.
Qed.

End JailFacts.

(** ** A uid is never shared by two live VMs *)

Module UidFacts.
Import Uid Jail Client ClientFacts.

(** What a request owns of the launch machinery: a reserved uid, a process, or
    a process running under a reserved uid. *)
Abbreviation tok := (option Z * option Z)%type.

Definition tok_of (c : Client) : tok := (if allocator c then Some (jailedUID c) else None, process c).

(** The uid a jailer command line runs the VM under. *)
Definition uid_arg (args : list string) : option string :=
  match args with
  | _ :: _ :: "--exec-file" :: _ :: "--uid" :: u :: _ => Some u
  | _ => None
  end.

(** The live processes, each with its uid argument when it is jailed. *)
Definition proc_step (l : list (Z * option string)) (e : event) : list (Z * option string) :=
  match e with
  | Ev (CStart _ args _) (Some pid) => (pid, uid_arg args) :: l
  | Ev (CWait pid) _ => filter (fun q => q.1 <> pid) l
  | _ => l
  end.
Definition procs (t : trace) : list (Z * option string) := fold_left proc_step t [].

(** The kernel does not give a live process's pid to another one. *)
Definition fresh_pids (t : trace) (c : call) : answer c -> Prop :=
  match c return answer c -> Prop with
  | CStart _ _ _ => fun x => forall pid, x = Some pid -> pid ∉ (procs t).*1
  | _ => fun _ => True
  end.

Definition tok_uids (T : gmultiset tok) : list Z := omap fst (elements T).
Definition tok_proc (tk : tok) : option (Z * option string) :=
  pid ← tk.2; Some (pid, format_d <$> tk.1).
Definition tok_procs (T : gmultiset tok) : list (Z * option string) := omap tok_proc (elements T).

(** The tokens of all requests: distinct uids, all of them in use, and exactly
    the live processes. *)
Record inv_core (T : gmultiset tok) (a : UIDAllocator) (t : trace) : Prop := {
  core_uids : NoDup (tok_uids T);
  core_used : forall u, u ∈ tok_uids T -> u ∈ inUse a;
  core_pids : NoDup (procs t).*1;
  core_procs : procs t ≡ₚ tok_procs T }.

Lemma tok_uids_add tk T : tok_uids ({[+ tk +]} ⊎ T) ≡ₚ option_list tk.1 ++ tok_uids T.
Proof.
  unfold tok_uids. rewrite gmultiset_elements_disj_union, gmultiset_elements_singleton.
  by destruct tk as [[u|] p].
Qed.

Lemma tok_procs_add tk T : tok_procs ({[+ tk +]} ⊎ T) ≡ₚ option_list (tok_proc tk) ++ tok_procs T.
Proof.
  unfold tok_procs. rewrite gmultiset_elements_disj_union, gmultiset_elements_singleton.
  by destruct tk as [u [p|]].
Qed.

Lemma procs_snoc t e : procs (t ++ [e]) = proc_step (procs t) e.
Proof. unfold procs. by rewrite fold_left_app. Qed.

Lemma procs_no_proc t c x : no_proc c -> procs (t ++ [Ev c x]) = procs t.
Proof. intros Hc. rewrite procs_snoc. by destruct c. Qed.

(** *** Steps of the machinery *)

Lemma core_acquire T a t u a' :
  inv_core T a t -> Acquire a = (Some u, a') -> inv_core ({[+ (Some u, None) +]} ⊎ T) a' t.
Proof.
  intros [H1 H2 H3 H4]. unfold Acquire. destruct (scan _ _ _ _) as [[c i]|] eqn:Es; [|done].
  intros [= <- <-]. apply scan_sound in Es as (_ & Hc & _). split.
  - rewrite tok_uids_add. cbn. apply list.NoDup_cons. split; [|done]. intros Hin. by apply Hc, H2.
  - intros v. rewrite tok_uids_add. cbn. set_solver.
  - done.
  - by rewrite tok_procs_add.
Qed.

Lemma core_start ou T a t bin args dir pid :
  inv_core ({[+ (ou, None) +]} ⊎ T) a t -> uid_arg args = format_d <$> ou -> pid ∉ (procs t).*1 ->
  inv_core ({[+ (ou, Some pid) +]} ⊎ T) a (t ++ [Ev (CStart bin args dir) (Some pid)]).
Proof.
  intros [H1 H2 H3 H4] Hargs Hpid. rewrite tok_uids_add in H1. rewrite tok_procs_add in H4. split.
  - by rewrite tok_uids_add.
  - intros v. rewrite tok_uids_add. intros Hv. apply H2. by rewrite tok_uids_add.
  - rewrite procs_snoc. cbn. by apply list.NoDup_cons.
  - rewrite procs_snoc, tok_procs_add. cbn. by rewrite Hargs, H4.
Qed.

Lemma filter_perm_head pid (o : option string) (l l' : list (Z * option string)) :
  NoDup l.*1 -> l ≡ₚ (pid, o) :: l' -> filter (fun q => q.1 <> pid) l ≡ₚ l'.
Proof.
  intros Hnd Hl. rewrite Hl in Hnd. cbn in Hnd. apply list.NoDup_cons in Hnd as [Hn _].
  rewrite Hl, filter_cons. case_decide; [done|].
  clear Hl. induction l' as [|[q oq] l' IH]; [done|]. cbn in Hn. rewrite filter_cons.
  rewrite decide_True by set_solver. by rewrite IH by set_solver.
Qed.

Lemma core_wait ou T a t pid x :
  inv_core ({[+ (ou, Some pid) +]} ⊎ T) a t ->
  inv_core ({[+ (ou, None) +]} ⊎ T) a (t ++ [Ev (CWait pid) x]).
Proof.
  intros [H1 H2 H3 H4]. rewrite tok_uids_add in H1. rewrite tok_procs_add in H4. split.
  - by rewrite tok_uids_add.
  - intros v. rewrite tok_uids_add. intros Hv. apply H2. by rewrite tok_uids_add.
  - rewrite procs_snoc. cbn. eapply sublist_NoDup; [exact H3|]. apply fmap_sublist, sublist_filter.
  - rewrite procs_snoc, tok_procs_add. cbn in *. eapply filter_perm_head; [exact H3|exact H4].
Qed.

Lemma core_release u T a t :
  inv_core ({[+ (Some u, None) +]} ⊎ T) a t -> inv_core T (Release u a) t.
Proof.
  intros [H1 H2 H3 H4]. rewrite tok_uids_add in H1. rewrite tok_procs_add in H4.
  apply list.NoDup_cons in H1 as [Hu H1]. split; [done| |done|done].
  intros v Hv. cbn. apply elem_of_difference. split.
  - apply H2. rewrite tok_uids_add. set_solver.
  - intros ->%elem_of_singleton. done.
Qed.

Lemma core_nothing T a t : inv_core ({[+ (None, None) +]} ⊎ T) a t <-> inv_core T a t.
Proof.
  split; intros [H1 H2 H3 H4].
  - rewrite tok_uids_add in H1. rewrite tok_procs_add in H4. split; try done.
    intros v Hv. apply H2. by rewrite tok_uids_add.
  - split; rewrite ?tok_uids_add, ?tok_procs_add; try done.
    intros v. rewrite tok_uids_add. apply H2.
Qed.

Lemma core_no_proc T a t c x : no_proc c -> inv_core T a t -> inv_core T a (t ++ [Ev c x]).
Proof. intros Hc [H1 H2 H3 H4]. by split; rewrite ?procs_no_proc. Qed.

(** The uid arguments of the live processes are pairwise distinct. *)
Lemma core_distinct T a t : inv_core T a t -> NoDup (omap snd (procs t)).
Proof.
  intros [H1 _ _ H4]. rewrite H4. unfold tok_procs.
  assert (omap snd (omap tok_proc (elements T)) `sublist_of` (format_d <$> tok_uids T)) as Hsub.
  { unfold tok_uids. clear. induction (elements T) as [|[[u|] [p|]] l IH]; cbn; [done|..].
    - by apply sublist_skip.
    - by apply sublist_cons.
    - exact IH.
    - exact IH. }
  eapply sublist_NoDup; [|exact Hsub]. apply NoDup_fmap_2; [|exact H1].
  unfold format_d. apply _.
Qed.

Section safety.
Context {G : Type} {HU : HasUids G} (stored : G -> gmultiset tok).
Context (stored_setA : forall a g, stored (setA a g) = stored g).

(** The tokens of the running requests, of the clients kept in the Go memory,
    and of clients nobody holds any more. *)
Definition uid_inv (owned : gmultiset tok) (g : G) (t : trace) : Prop :=
  exists orphans, inv_core (owned ⊎ (stored g ⊎ orphans)) (getA g) t.

Abbreviation safe := (safe fresh_pids uid_inv).

Lemma calm_prep {A} (p : prog G A) :
  calls_in prep_call p -> keeps id p -> calm fresh_pids uid_inv p.
Proof.
  induction p as [a|X f k IH|c k IH]; cbn; [done| |].
  - intros Hc [Hf Hk]. split; [|intros x; by apply IH].
    intros o g t. unfold id in Hf. by rewrite Hf.
  - intros [Hc Hcs] Hk x. split; [|by apply IH].
    intros o g t [orph H] _. exists orph. by apply core_no_proc; [apply prep_no_proc|].
Qed.

Lemma safe_prep {A : Type} (own : gmultiset tok) (p : prog G A) :
  calls_in prep_call p -> keeps id p -> safe own p (fun _ o => o = own).
Proof. intros. by apply calm_safe, calm_prep. Qed.

Lemma safe_call (own : gmultiset tok) (c : call) (Q : answer c -> gmultiset tok -> Prop) :
  no_proc c -> (forall x, Q x own) -> safe own (sys c) Q.
Proof.
  intros Hc HQ fr g t x [orph HI] _. exists own. split; [|apply HQ].
  exists orph. by apply core_no_proc.
Qed.

(** A launch owns its reserved uid, or nothing when it is not jailed. *)
Definition reserved (ou : option Z) : gmultiset tok :=
  match ou with Some u => {[+ (Some u, None) +]} | None => ∅ end.

Lemma core_reserved ou T a t : inv_core ({[+ (ou, None) +]} ⊎ T) a t <-> inv_core (reserved ou ⊎ T) a t.
Proof. destruct ou; [done|]. unfold reserved. by rewrite core_nothing, (left_id_L ∅ (⊎)). Qed.

Lemma safe_start (ou : option Z) (bin : string) (args : list string) (dir : string) (Q : option Z -> gmultiset tok -> Prop) :
  uid_arg args = format_d <$> ou ->
  (forall pid, Q (Some pid) {[+ (ou, Some pid) +]}) -> Q None (reserved ou) ->
  safe (reserved ou) (sys (CStart bin args dir)) Q.
Proof.
  intros Hargs HS HN fr g t [pid|] [orph HI] Hx.
  - exists {[+ (ou, Some pid) +]}. split; [|apply HS]. exists orph. rewrite <-(assoc_L (⊎)) in *. apply core_reserved in HI.
    apply core_start; [exact HI|exact Hargs|by apply Hx].
  - exists (reserved ou). split; [|exact HN]. exists orph.
    destruct HI as [H1 H2 H3 H4]. by split; rewrite ?procs_snoc.
Qed.

Lemma safe_wait (ou : option Z) (pid : Z) (Q : unit -> gmultiset tok -> Prop) :
  Q tt (reserved ou) -> safe {[+ (ou, Some pid) +]} (sys (CWait pid)) Q.
Proof.
  intros HQ fr g t [] [orph HI] _. exists (reserved ou). split; [|done]. exists orph.
  rewrite <-(assoc_L (⊎)) in *. by apply core_reserved, core_wait.
Qed.

Lemma safe_acquire (Q : option Z -> gmultiset tok -> Prop) :
  (forall u, Q (Some u) {[+ (Some u, None) +]}) -> Q None ∅ -> safe ∅ acquire_uid Q.
Proof using stored_setA.
  intros HS HN fr g t [orph HI]. cbn. destruct (Acquire (getA g)) as [[u|] a] eqn:Ea; cbn.
  - exists {[+ (Some u, None) +]}. split; [|done]. exists orph.
    rewrite stored_setA, getA_setA, <-(assoc_L (⊎)). eapply core_acquire; [|exact Ea].
    by rewrite (left_id_L ∅ (⊎)) in HI.
  - exists ∅. split; [|done]. exists orph. rewrite stored_setA, getA_setA.
    unfold Acquire in Ea. destruct (scan _ _ _ _) as [[]|]; by simplify_eq.
Qed.

Lemma safe_release_uid (u : Z) (Q : unit -> gmultiset tok -> Prop) :
  Q tt ∅ -> safe {[+ (Some u, None) +]} (release_uid u) Q.
Proof using stored_setA.
  intros HQ fr g t [orph HI]. exists ∅. split; [|done]. exists orph.
  rewrite (left_id_L ∅ (⊎)). cbn beta iota delta [snd]. rewrite stored_setA, getA_setA. apply core_release.
  by rewrite <-(assoc_L (⊎)) in HI.
Qed.

(** *** Launch and kill *)

Lemma safe_ready_or_kill (ou : option Z) (c : Client) (pid d : Z) (Q : res fc_error unit -> gmultiset tok -> Prop) :
  Q (Ok tt) {[+ (ou, Some pid) +]} -> (forall e, Q (Err e) (reserved ou)) ->
  safe {[+ (ou, Some pid) +]} (ready_or_kill c pid d) Q.
Proof.
  intros HO HE. unfold ready_or_kill. apply safe_bind.
  eapply safe_mono; [apply safe_prep; [apply waitReady_calls|apply waitReady_keeps]|].
  cbn beta. intros [[]|e] o ->; [by apply safe_ret|].
  apply safe_bind, safe_call; [done|]. intros _. apply safe_bind, safe_wait, safe_ret, HE.
Qed.

Lemma safe_startJailed cfg u :
  safe (reserved (Some u)) (startJailed cfg u)
    (fun r o => match r with Ok c => o = {[+ tok_of c +]} /\ is_Some (process c) | Err _ => o = reserved (Some u) end).
Proof.
  unfold startJailed. cbv zeta.
  apply safe_try. eapply safe_mono; [apply safe_prep; walk|]. cbn beta. intros [?|e] o ->; [|done].
  apply safe_try. eapply safe_mono; [apply safe_prep; [apply prepareChroot_calls|apply prepareChroot_keeps]|].
  cbn beta. intros [?|e] o ->; [|done].
  apply safe_bind. eapply safe_mono; [apply safe_prep; [apply chown_calls|apply chown_keeps]|].
  cbn beta. intros _ o ->. apply safe_bind, safe_call; [done|]. intros _.
  apply safe_try, safe_some_or, safe_start; [done| |done]. intros pid. cbn match.
  apply safe_try, safe_ready_or_kill; [|done]. apply safe_ret. by split; [|eexists].
Qed.

Lemma safe_startJailedVM cfg :
  safe ∅ (startJailedVM cfg) (fun r o => match r with Ok c => o = {[+ tok_of c +]} /\ is_Some (process c) | Err _ => o = ∅ end).
Proof using stored_setA.
  unfold startJailedVM.
  repeat match goal with |- safe _ (if ?b then _ else _) _ => destruct b; [by apply safe_ret|] end.
  apply safe_try. eapply safe_mono;
    [apply safe_prep; [apply guardJailerLayout_calls|apply guardJailerLayout_keeps]|].
  cbn beta. intros [?|e] o ->; [|done].
  apply safe_try, safe_some_or, safe_acquire; [|done]. intros u. cbn match.
  apply safe_bind. eapply safe_mono; [apply safe_startJailed|]. cbn beta.
  intros [c|e] o Ho; [by apply safe_ret|]. rewrite Ho. apply safe_bind, safe_release_uid. by apply safe_ret.
Qed.

Lemma safe_StartVM_empty cfg :
  safe ∅ (StartVM cfg) (fun r o => match r with Ok c => o = {[+ tok_of c +]} /\ is_Some (process c) | Err _ => o = ∅ end).
Proof using stored_setA.
  unfold StartVM. destruct (Enabled _); [apply safe_startJailedVM|].
  destruct (_ && _); [by apply safe_ret|]. cbv zeta.
  apply safe_bind, safe_call; [done|]. intros _. apply safe_bind, safe_call; [done|]. intros _.
  apply safe_try, safe_some_or, (safe_start None); [by destruct (String.eqb (ID cfg) EmptyString)| |done]. intros pid. cbn match.
  apply safe_try, safe_ready_or_kill; [|done]. apply safe_ret. by split; [|eexists].
Qed.

(** A request owning [own] owns the new client's token as well after a launch. *)
Lemma safe_StartVM (own : gmultiset tok) cfg :
  safe own (StartVM cfg)
    (fun r o => match r with Ok c => o = {[+ tok_of c +]} ⊎ own /\ is_Some (process c) | Err _ => o = own end).
Proof using stored_setA.
  pose proof (safe_frame fresh_pids uid_inv ∅ own _ _ (safe_StartVM_empty cfg)) as Hf.
  rewrite (left_id_L ∅ (⊎)) in Hf. eapply safe_mono; [exact Hf|]. cbn beta.
  intros [c|e] o (o' & -> & Ho); [by destruct Ho as [-> ?]|by rewrite Ho, (left_id_L ∅ (⊎))].
Qed.

Lemma safe_Kill_single c pid :
  process c = Some pid -> safe {[+ tok_of c +]} (Kill c) (fun _ o => o = ∅).
Proof using stored_setA.
  intros Hp. unfold Kill, tok_of. rewrite Hp. apply safe_bind, safe_bind, safe_call; [done|]. intros k.
  apply safe_bind, safe_wait, safe_ret. apply safe_bind.
  eapply safe_mono with (Q := fun _ o => o = ∅).
  { destruct (allocator c); [by apply safe_release_uid|by apply safe_ret]. }
  intros _ o ->. apply safe_bind. eapply safe_mono with (Q := fun _ o => o = ∅).
  { destruct (String.eqb _ _); [by apply safe_ret|by apply safe_call]. }
  intros _ o ->. by apply safe_ret.
Qed.

(** Killing a VM gives its token up and keeps the rest. *)
Lemma safe_Kill (own : gmultiset tok) c pid :
  process c = Some pid -> safe ({[+ tok_of c +]} ⊎ own) (Kill c) (fun _ o => o = own).
Proof using stored_setA.
  intros Hp. eapply safe_mono; [apply safe_frame, (safe_Kill_single c pid Hp)|].
  cbn beta. intros _ o (o' & -> & ->). by rewrite (left_id_L ∅ (⊎)).
Qed.

End safety.

End UidFacts.

(** ** Template builds *)

Module Template.
Import Uid Jail Client.

Definition initExecTimeoutSecs : Z := 600.
Definition initConnectAttempts : nat := 30.
Definition initConnectDelay : Z := 1 * second.
Definition noAgentFallbackWait : Z := 5 * second.
Definition NetIfaceID : string := "eth0".
Definition PlaceholderTapName : string := "sbtap-template".

Record TemplateManager := mkTemplateManager {
  firecrackerBin : string; kernelPath : string; tm_dataDir : string; jailer : JailerConfig;
  fallbackWait : Z }.
Definition NewTemplateManager (firecrackerBin kernelPath dataDir : string) (jailer : JailerConfig)
  : TemplateManager :=
  mkTemplateManager firecrackerBin kernelPath dataDir jailer noAgentFallbackWait.

Record TemplateResult := mkTemplateResult {
  tr_ID : string; tr_SnapshotDir : string; tr_MemFile : string; tr_VMStateFile : string;
  tr_CreationTimeMs : SpecFloat.spec_float; tr_SnapshotSize : Z }.

Section template.
Context {G : Type} {HU : HasUids G}.

Definition init_exec (conn : Z) (command : string) : prog G (option (Z * string)) :=
  sys (CAgentExec conn command "/workspace" initExecTimeoutSecs).

Definition runInitCommands (conn : Z) (commands : list string) : prog G (res fc_error unit) :=
  for_each commands (fun cmd =>
    r ← init_exec conn cmd;
    mret (match r with
          | None => Err (EInit cmd None)
          | Some (code, _) => if code =? 0 then Ok tt else Err (EInit cmd (Some code))
          end)).

(** Connect and ping, retried; [None] when no attempt was answered. *)
Fixpoint connectInitExec (vsockPath : string) (attempts : nat) : prog G (option Z) :=
  match attempts with
  | O => mret None
  | S attempts =>
      conn ← sys (CAgentConnect vsockPath);
      match conn with
      | Some conn =>
          pong ← sys (CAgentPing conn);
          if pong : bool then mret (Some conn)
          else _ ← sys (CAgentClose conn);
               _ ← sys (CSleep initConnectDelay);
               connectInitExec vsockPath attempts
      | None => _ ← sys (CSleep initConnectDelay); connectInitExec vsockPath attempts
      end
  end.

Definition awaitReadyAndRunInit (tm : TemplateManager) (vsockPath : string) (initCommands : list string)
  : prog G (res fc_error unit) :=
  conn ← connectInitExec vsockPath initConnectAttempts;
  match conn with
  | None =>
      if (0 <? length initCommands)%nat then mret (Err ENoAgent)
      else _ ← sys (CSleep (fallbackWait tm)); mret (Ok tt)
  | Some conn =>
      r ← runInitCommands conn initCommands;
      _ ← sys (CAgentClose conn);
      mret r
  end.

(** CreateTemplate from the launched VM to the returned result. *)
Definition configure_and_snapshot (tm : TemplateManager) (id : string) (cfg : VMConfig)
    (initCommands : list string) (start : Z) (client : Client) : prog G (res fc_error TemplateResult) :=
  let snapshotDir := Join [tm_dataDir tm; "templates"; id; "snapshot"] in
  let templateRootfs := Join [WorkDir cfg; "rootfs.ext4"] in
  must _ := check EApi (SetBootSource client (kernelPath tm) (BootArgs cfg)) in
  must _ := check EApi (SetMachineConfig client (VcpuCount cfg) (MemSizeMib cfg)) in
  must _ := check EApi (AddDrive client "rootfs" templateRootfs false true) in
  must _ := for_each (VolumeDrives cfg) (fun vd =>
              check EApi (AddDrive client (vd_DriveID vd) (vd_PathOnHost vd) (vd_ReadOnly vd) false)) in
  must _ := SetVsock client 3 VsockRelPath in
  must _ := match Network cfg with
            | Some n => check EApi (SetNetwork client (ni_IfaceID n) (ni_GuestMAC n) (ni_HostDevName n))
            | None => mret (Ok tt)
            end in
  must _ := check EApi (Start client) in
  must _ := awaitReadyAndRunInit tm (VsockHostPath client VsockRelPath) initCommands in
  must _ := check EApi (Pause client) in
  let memFile := Join [snapshotDir; "mem"] in
  let vmStateFile := Join [snapshotDir; "vmstate"] in
  must _ := CreateSnapshot client memFile vmStateFile in
  must memInfo := some_or EStat (sys (CStat memFile)) in
  now ← sys CNow;
  mret (Ok (mkTemplateResult id snapshotDir memFile vmStateFile
              (f64_of_int (Z.quot (time_sub now start) 1000000)) (fi_size memInfo))).

Definition CreateTemplate (tm : TemplateManager) (id : string) (cfg : VMConfig)
    (initCommands : list string) : prog G (res fc_error TemplateResult) :=
  if negb (validateVMID id) then mret (Err EInvalidID)
  else
    start ← sys CNow;
    let snapshotDir := Join [tm_dataDir tm; "templates"; id; "snapshot"] in
    let workDir := Join [tm_dataDir tm; "templates"; id] in
    must _ := check EMkdir (sys (CMkdirAll snapshotDir)) in
    let templateRootfs := Join [workDir; "rootfs.ext4"] in
    let hasRootfs := negb (String.eqb (RootfsPath cfg) EmptyString) in
    must _ := if hasRootfs then check ECopy (copyFile (RootfsPath cfg) templateRootfs)
              else mret (Ok tt) in
    let cfg := mkVMConfig id (firecrackerBin tm) workDir (SocketPath cfg) (RootfsPath cfg)
                 (VcpuCount cfg) (MemSizeMib cfg) (BootArgs cfg) (jailer tm)
                 ([kernelPath tm] ++ (if hasRootfs then [templateRootfs] else [])
                  ++ map vd_PathOnHost (VolumeDrives cfg))
                 (VolumeDrives cfg) (Network cfg) in
    must client := StartVM cfg in
    r ← configure_and_snapshot tm id cfg initCommands start client;
    _ ← Kill client;
    mret r.

Definition DeleteTemplate (tm : TemplateManager) (id : string) : prog G (res fc_error unit) :=
  if negb (validateVMID id) then mret (Err EInvalidID)
  else check EReplaceStale (sys (CRemoveAll (Join [tm_dataDir tm; "templates"; id]))).

Definition HasTemplate (tm : TemplateManager) (id : string) : prog G bool :=
  if negb (validateVMID id) then mret false
  else st ← sys (CStat (Join [tm_dataDir tm; "templates"; id; "snapshot"; "mem"]));
       mret (match st with Some _ => true | None => false end).

Fixpoint with_snapshot (templatesDir : string) (es : list (string * bool)) : prog G (list string) :=
  match es with
  | [] => mret []
  | (name, isDir) :: es =>
      if isDir : bool then
        st ← sys (CStat (Join [templatesDir; name; "snapshot"; "mem"]));
        ids ← with_snapshot templatesDir es;
        mret (match st with Some _ => name :: ids | None => ids end)
      else with_snapshot templatesDir es
  end.

Definition ListTemplates (tm : TemplateManager) : prog G (option (list string)) :=
  let templatesDir := Join [tm_dataDir tm; "templates"] in
  r ← sys (CReadDir templatesDir);
  match r with
  | DirAbsent => mret (Some [])
  | DirFailed => mret None
  | DirEntries es => ids ← with_snapshot templatesDir es; mret (Some ids)
  end.

End template.

End Template.

(** ** A broken template is never snapshotted *)

Module TemplateFacts.
Import Uid Jail Client ClientFacts Template.

(** The init commands run so far, with their exit codes. *)
Definition exec_of (e : event) : option (string * option Z) :=
  match e with Ev (CAgentExec _ cmd _ _) r => Some (cmd, fst <$> r) | _ => None end.
Definition execs (t : trace) : list (string * option Z) := omap exec_of t.

(** The socket of the VM an event asks a snapshot of, and whether it succeeded. *)
Definition snapshot_of (e : event) : option (string * bool) :=
  match e with
  | Ev (CApi sock MPut path _) st =>
      if String.eqb path "/snapshot/create"
      then Some (sock, match st with Some st => st <? 400 | None => false end) else None
  | _ => None
  end.

(** Whether the last state change of the VM at [sock] that was accepted paused it. *)
Definition pause_step (sock : string) (paused : bool) (e : event) : bool :=
  match e with
  | Ev (CApi s MPatch "/vm" (BVMState st)) (Some code) =>
      if String.eqb s sock && (code <? 400) then String.eqb st "Paused" else paused
  | Ev (CApi s MPut "/actions" _) (Some code) =>
      if String.eqb s sock && (code <? 400) then false else paused
  | _ => paused
  end.
Definition vm_paused (sock : string) (t : trace) : bool := fold_left (pause_step sock) t false.

Definition all_succeeded (cmds : list string) : list (string * option Z) :=
  map (fun c => (c, Some 0)) cmds.

(** Every snapshot request came after all of [cmds] ran in order with exit code
    zero, with the VM paused. *)
Definition snapshots_ok (cmds : list string) (t : trace) : Prop :=
  forall pre e post sock ok, t = pre ++ e :: post -> snapshot_of e = Some (sock, ok) ->
    execs pre = all_succeeded cmds /\ vm_paused sock pre = true.

(** Calls of the build other than running commands, pausing and snapshotting. *)
Definition setup_call (c : call) : Prop :=
  match c with
  | CAgentExec _ _ _ _ => False
  | CApi _ _ path _ => path <> "/snapshot/create" /\ path <> "/vm"
  | _ => True
  end.

Lemma execs_app t1 t2 : execs (t1 ++ t2) = execs t1 ++ execs t2.
Proof. apply omap_app. Qed.

Lemma setup_execs ext : Forall (fun e => setup_call (ev_call e)) ext -> execs ext = [].
Proof. induction 1 as [|[c x] ext Hc _ IH]; [done|]. destruct c; try done; exact IH. Qed.

Lemma setup_no_snapshot e : setup_call (ev_call e) -> snapshot_of e = None.
Proof.
  destruct e as [[] x]; try done. cbn. intros [Hp _]. destruct m; [|done].
  by destruct (String.eqb_spec path "/snapshot/create").
Qed.

Lemma snapshots_ok_ext cmds t ext :
  snapshots_ok cmds t -> Forall (fun e => snapshot_of e = None) ext -> snapshots_ok cmds (t ++ ext).
Proof.
  intros Ht Hext. induction ext as [|e ext IH] using rev_ind; [by rewrite app_nil_r|].
  apply Forall_app in Hext as [Hext He]. apply Forall_inv in He. rewrite app_assoc.
  intros pre e' post sock ok Heq Hs. destruct post as [|e2 post] using rev_ind.
  - apply app_inj_tail in Heq as [_ <-]. congruence.
  - rewrite app_comm_cons, app_assoc in Heq. apply app_inj_tail in Heq as [Heq _].
    by eapply (IH Hext pre e' post).
Qed.

Lemma snapshots_ok_new cmds t e sock ok :
  snapshots_ok cmds t -> snapshot_of e = Some (sock, ok) ->
  execs t = all_succeeded cmds -> vm_paused sock t = true -> snapshots_ok cmds (t ++ [e]).
Proof.
  intros Ht He Hx Hp pre e' post sock' ok' Heq Hs. destruct post as [|e2 post] using rev_ind.
  - apply app_inj_tail in Heq as [<- <-]. by rewrite He in Hs; simplify_eq.
  - rewrite app_comm_cons, app_assoc in Heq. apply app_inj_tail in Heq as [Heq _]. by eapply Ht.
Qed.

Section facts.
Context {G : Type} {HU : HasUids G}.

(** Setting a VM up keeps what is known of the commands and snapshots. *)
Lemma wp_setup {A} (p : prog G A) cmds xs g t :
  calls_in setup_call p -> snapshots_ok cmds t -> execs t = xs ->
  wp anything p (fun _ _ t' => snapshots_ok cmds t' /\ execs t' = xs) g t.
Proof.
  intros Hc Hs Hx. eapply wp_mono; [by apply wp_calls|]. intros _ g' t' (ext & -> & Hext).
  split; [|by rewrite execs_app, (setup_execs ext), app_nil_r].
  apply snapshots_ok_ext; [done|]. eapply list.Forall_impl; [exact Hext|]. apply setup_no_snapshot.
Qed.

Lemma launch_setup c : launch_call c -> setup_call c.
Proof. by destruct c; intros [|]. Qed.

Lemma StartVM_setup cfg : calls_in setup_call (StartVM (G := G) cfg).
Proof. eapply calls_mono; [apply launch_setup|apply StartVM_calls]. Qed.

Lemma Kill_setup c : calls_in setup_call (Kill (G := G) c).
Proof. unfold Kill, release_uid. walk. Qed.
#[local] Hint Resolve StartVM_setup Kill_setup : prog.

Lemma api_setup c m path b :
  path <> "/snapshot/create" -> path <> "/vm" -> calls_in setup_call (api (G := G) c m path b).
Proof. intros H1 H2. unfold api. walk. by split. Qed.

Lemma connect_setup path n : calls_in setup_call (connectInitExec (G := G) path n).
Proof. induction n; cbn [connectInitExec]; walk. Qed.
#[local] Hint Resolve connect_setup : prog.

Lemma SetVsock_setup c cid path : calls_in setup_call (SetVsock (G := G) c cid path).
Proof. unfold SetVsock, ensureJailedDir. walk. by apply api_setup. Qed.
#[local] Hint Resolve SetVsock_setup : prog.

(** Running the init commands: success means each one exited with zero. *)
Lemma await_wp tm path cmds g t :
  snapshots_ok cmds t -> execs t = [] ->
  wp anything (awaitReadyAndRunInit (G := G) tm path cmds)
    (fun r _ t' => snapshots_ok cmds t' /\
       match r with Ok _ => execs t' = all_succeeded cmds | Err _ => True end) g t.
Proof.
  intros Hs Hx. unfold awaitReadyAndRunInit. apply wp_bind.
  eapply wp_mono; [by apply wp_setup with (xs := []); [walk|..]|]. cbn beta.
  intros [conn|] g1 t1 [Hs1 Hx1].
  2: { destruct cmds; cbn [length Nat.ltb Nat.leb]; [|by apply wp_ret].
       apply wp_bind. eapply wp_mono; [by apply wp_setup with (xs := []); [walk|..]|].
       intros _ g2 t2 [Hs2 Hx2]. by apply wp_ret. }
  apply wp_bind. unfold runInitCommands.
  eapply wp_mono with (Q := fun r _ t' => snapshots_ok cmds t' /\
    match r with Ok _ => execs t' = all_succeeded cmds | Err _ => True end).
  - apply wp_for_each with (I := fun pre _ t' => snapshots_ok cmds t' /\ execs t' = all_succeeded pre);
      [done| |done].
    intros pre cmd post g2 t2 _ [Hs2 Hx2]. apply wp_bind, wp_sys. intros r _. apply wp_ret.
    assert (snapshots_ok cmds (t2 ++ [Ev (CAgentExec conn cmd "/workspace" initExecTimeoutSecs) r]))
      by (apply snapshots_ok_ext; [done|by repeat constructor]).
    destruct r as [[code out]|]; [|done]. destruct (Z.eqb_spec code 0) as [-> |]; [|done].
    split; [done|]. rewrite execs_app, Hx2. unfold all_succeeded. by rewrite map_app.
  - intros r g2 t2 [Hs2 Hx2]. apply wp_bind, wp_sys. intros x _. apply wp_ret.
    split; [apply snapshots_ok_ext; [done|by repeat constructor]|].
    destruct r; [|done]. by rewrite execs_app, Hx2, app_nil_r.
Qed.

Lemma vm_paused_prep sock t ext :
  Forall (fun e => prep_call (ev_call e)) ext -> vm_paused sock (t ++ ext) = vm_paused sock t.
Proof.
  unfold vm_paused. rewrite fold_left_app. generalize (fold_left (pause_step sock) t false) as b.
  intros b Hext. revert b. induction Hext as [|[c x] ext Hc _ IH]; intros b; [done|].
  cbn [fold_left]. rewrite IH. by destruct c.
Qed.

(** A successful pause is known to the snapshot that follows it. *)
Lemma Pause_wp c cmds g t :
  snapshots_ok cmds t -> execs t = all_succeeded cmds ->
  wp anything (Pause (G := G) c)
    (fun ok _ t' => snapshots_ok cmds t' /\ execs t' = all_succeeded cmds /\
       (ok = true -> vm_paused (socketPath c) t' = true)) g t.
Proof.
  intros Hs Hx. unfold Pause, patch, api. apply wp_bind, wp_sys. intros st _. apply wp_ret.
  split; [apply snapshots_ok_ext; [done|by repeat constructor]|].
  split; [by rewrite execs_app, Hx, app_nil_r|]. intros Hok.
  unfold vm_paused. rewrite fold_left_app. cbn [fold_left pause_step].
  destruct st as [code|]; [|done]. by rewrite String.eqb_refl, Hok.
Qed.

Lemma CreateSnapshot_wp c mem st cmds g t :
  snapshots_ok cmds t -> execs t = all_succeeded cmds -> vm_paused (socketPath c) t = true ->
  wp anything (CreateSnapshot (G := G) c mem st)
    (fun r _ t' => snapshots_ok cmds t' /\
       match r with Ok _ => exists e, e ∈ t' /\ snapshot_of e = Some (socketPath c, true) | Err _ => True end) g t.
Proof.
  intros Hs Hx Hp. unfold CreateSnapshot. apply wp_try.
  eapply wp_mono; [apply wp_calls with (P := prep_call); unfold ensureJailedDir; walk|].
  intros r g1 t1 (ext & -> & Hext).
  assert (Forall (fun e => snapshot_of e = None) ext) as Hext'.
  { eapply list.Forall_impl; [exact Hext|]. intros e He. apply setup_no_snapshot, launch_setup. by left. }
  assert (snapshots_ok cmds (t ++ ext)) as Hs1 by by apply snapshots_ok_ext.
  assert (execs (t ++ ext) = all_succeeded cmds) as Hx1.
  { rewrite execs_app, Hx, (setup_execs ext), app_nil_r; [done|].
    eapply list.Forall_impl; [exact Hext|]. intros e He. apply launch_setup. by left. }
  assert (vm_paused (socketPath c) (t ++ ext) = true) as Hp1 by by rewrite vm_paused_prep.
  destruct r as [?|e]; [|by split]. clear Hs Hx Hp Hext Hext'. revert Hs1 Hx1 Hp1.
  generalize (t ++ ext) as t1. intros t1 Hs1 Hx1 Hp1.
  apply wp_try, wp_check. unfold put, api. apply wp_bind, wp_sys. intros code _. apply wp_ret.
  match goal with |- context [t1 ++ [?e]] => set (ev := e) end.
  assert (snapshots_ok cmds (t1 ++ [ev])) as Hs2 by (by eapply snapshots_ok_new).
  destruct (match code with Some st0 => st0 <? 400 | None => false end) eqn:Hcode; [|by split].
  eapply wp_mono.
  { apply wp_calls with (P := setup_call).
    unfold exportFromJail, sameInode, copyFile. walk. }
  intros r g2 t2 (ext2 & -> & Hext2). split.
  - apply snapshots_ok_ext; [done|]. eapply list.Forall_impl; [exact Hext2|]. apply setup_no_snapshot.
  - destruct r; [|done]. exists ev. split; [set_solver|]. subst ev. cbn. by rewrite Hcode.
Qed.

(** One setup step whose failure ends the build. *)
Ltac setup_step :=
  apply wp_try; eapply wp_mono;
    [apply wp_setup with (xs := []);
       [repeat first [by apply api_setup | progress walk]|eassumption|eassumption]|];
    cbn beta; intros [?|?] ? ? [? ?]; [|done].

Lemma configure_wp tm id cfg cmds start c g t :
  snapshots_ok cmds t -> execs t = [] ->
  wp anything (configure_and_snapshot (G := G) tm id cfg cmds start c)
    (fun r _ t' => snapshots_ok cmds t' /\
       match r with Ok _ => exists e, e ∈ t' /\ snapshot_of e = Some (socketPath c, true) | Err _ => True end) g t.
Proof.
  intros Hs Hx. unfold configure_and_snapshot. cbv zeta. do 7 setup_step.
  apply wp_try. eapply wp_mono; [by apply await_wp|]. cbn beta.
  intros [?|?] g1 t1 [Hs1 Hx1]; [|by split].
  apply wp_try, wp_check. eapply wp_mono; [by apply Pause_wp|]. cbn beta.
  intros [] g2 t2 (Hs2 & Hx2 & Hp2); [|by split].
  apply wp_try. eapply wp_mono; [by apply CreateSnapshot_wp; auto|]. cbn beta.
  intros [?|?] g3 t3 [Hs3 He3]; [|by split]. destruct He3 as (e & He & Hes).
  apply wp_try, wp_some_or, wp_sys. intros x _.
  assert (forall ev, snapshot_of ev = None -> forall t', snapshots_ok cmds t' -> snapshots_ok cmds (t' ++ [ev])) as Hext
    by (intros; apply snapshots_ok_ext; [done|by repeat constructor]).
  destruct x as [mi|]; [|by split; [apply Hext|]].
  apply wp_bind, wp_sys. intros now _. apply wp_ret. split; [by apply Hext, Hext|].
  exists e. split; [set_solver|done].
Qed.

Lemma configure_quiet tm tid cfg cmds start c :
  calls_in no_proc (configure_and_snapshot (G := G) tm tid cfg cmds start c) /\
  keeps id (configure_and_snapshot (G := G) tm tid cfg cmds start c).
Proof.
  assert (forall path n, calls_in no_proc (connectInitExec (G := G) path n)) as Hc
    by (intros path n; induction n; cbn [connectInitExec]; walk).
  assert (forall path n, keeps id (connectInitExec (G := G) path n)) as Hk
    by (intros path n; induction n; cbn [connectInitExec]; walk).
  unfold configure_and_snapshot, awaitReadyAndRunInit, runInitCommands, init_exec, SetBootSource,
    SetMachineConfig, AddDrive, SetVsock, SetNetwork, Start, Pause, CreateSnapshot, exportFromJail,
    ensureJailedDir, sameInode, copyFile, put, patch, api.
  split; walk.
Qed.

(** Before the VM is launched nothing runs and nothing is snapshotted. *)
Definition before (cmds : list string) (t : trace) : Prop :=
  snapshots_ok cmds t /\ execs t = [] /\ live t = [].

Lemma wp_before {A} (p : prog G A) cmds (g : G) t :
  calls_in prep_call p -> keeps id p -> before cmds t ->
  wp anything p (fun _ g' t' => g' = g /\ before cmds t') g t.
Proof.
  intros Hc Hk (Hs & Hx & Hl). eapply wp_mono.
  - apply wp_and; [by apply wp_quiet|apply wp_setup; [|exact Hs|exact Hx]].
    eapply calls_mono; [|exact Hc]. intros c H. apply launch_setup. by left.
  - cbn. intros _ g' t' [[-> Hl'] [Hs' Hx']]. split; [done|]. by rewrite Hl in Hl'.
Qed.

Definition build_post (cmds : list string) (g : G) (r : res fc_error TemplateResult) (g' : G) (t : trace) : Prop :=
  snapshots_ok cmds t /\
  (forall v, r = Ok v -> exists e sock, e ∈ t /\ snapshot_of e = Some (sock, true)) /\
  live t = [] /\ inUse (getA g') = inUse (getA g).

Lemma before_post cmds g e t : before cmds t -> build_post cmds g (Err e) g t.
Proof. intros (Hs & _ & Hl). by split. Qed.

(** From the launched VM to the end of the build. *)
Lemma build_launched_wp tm tid cfg cmds start c pid g0 g t :
  snapshots_ok cmds t -> execs t = [] -> process c = Some pid -> live t = [pid] ->
  started (Ok c) g0 g ->
  wp anything (r ← configure_and_snapshot tm tid cfg cmds start c; _ ← Kill c; mret r)
    (build_post cmds g0) g t.
Proof.
  intros Hs Hx Hpid Hl Hst. destruct (configure_quiet tm tid cfg cmds start c) as [Hq1 Hq2].
  apply wp_bind. eapply wp_mono.
  { apply wp_and; [by apply configure_wp|].
    apply wp_and; [by apply wp_calls with (P := no_proc)|by apply (wp_keeps id)]. }
  cbn beta. intros r g1 t1 [[Hs1 He1] [(ext & -> & Hext) Hg]]. unfold id in Hg. subst g1.
  apply wp_bind. eapply wp_mono.
  { apply wp_and; [by apply Kill_wp|apply wp_calls with (P := setup_call); walk]. }
  cbn beta. intros _ g2 t2 [[Hl2 Hu2] (ext2 & -> & Hext2)]. apply wp_ret.
  split; [|split; [|split]].
  - apply snapshots_ok_ext; [done|]. eapply list.Forall_impl; [exact Hext2|]. apply setup_no_snapshot.
  - intros v ->. destruct He1 as (e & He & Hes). exists e, (socketPath c). split; [set_solver|done].
  - rewrite Hl2, live_no_proc, Hl by done. unfold without. rewrite filter_cons. by case_decide.
  - unfold started, uids in *. destruct (allocator c); [|by rewrite Hu2].
    destruct Hst as [Hn Hu]. rewrite Hu2, Hu. set_solver.
Qed.

End facts.

(** ** The properties of a template build *)

(** Whatever the host, the Firecracker API and the guest agent answer: a
    snapshot of the template VM is requested only after every init command has
    run, in order, with exit code zero, and with the VM paused; a build that
    succeeds did take a snapshot; and whatever the result, no VM process is
    left running and no jailer uid is left reserved. *)
Theorem template_build_safe {G O} {HU : HasUids G} (h : env O) (tm : TemplateManager) (id : string)
    (cfg : VMConfig) (cmds : list string) (g : G) (o : O) :
  let '(r, g', _, t) := run h (CreateTemplate tm id cfg cmds) g o in
  (forall pre e post sock ok, t = pre ++ e :: post -> snapshot_of e = Some (sock, ok) ->
     execs pre = all_succeeded cmds /\ vm_paused sock pre = true) /\
  (forall v, r = Ok v -> exists e sock, e ∈ t /\ snapshot_of e = Some (sock, true)) /\
  live t = [] /\ inUse (getA g') = inUse (getA g).
Proof.
  assert (wp anything (CreateTemplate tm id cfg cmds) (build_post cmds g) g []) as Hwp.
  2: { pose proof (wp_run h _ _ g o [] Hwp) as Hr. cbn [app] in Hr.
       destruct (run h _ g o) as [[[r g'] o'] t]. exact Hr. }
  assert (before cmds []) as H0 by (split; [intros [|??]; discriminate|done]).
  unfold CreateTemplate. destruct (negb _); [apply wp_ret; by apply before_post|]. cbv zeta.
  apply wp_bind. eapply wp_mono; [by apply wp_before; [walk|walk|]|]. cbn beta. intros start g1 t1 [-> H1].
  apply wp_try. eapply wp_mono; [by apply wp_before; [walk|walk|]|]. cbn beta.
  intros [?|?] g2 t2 [-> H2]; [|by apply before_post].
  apply wp_try. eapply wp_mono; [by apply wp_before; [unfold copyFile; walk|unfold copyFile; walk|]|]. cbn beta.
  intros [?|?] g3 t3 [-> H3]; [|by apply before_post]. destruct H3 as (Hs & Hx & Hl).
  apply wp_try. eapply wp_mono.
  { apply wp_and; [apply StartVM_wp|by apply wp_setup; [apply StartVM_setup|..]]. }
  cbn beta. intros [c|e] g4 t4 [[Hla Hst] [Hs4 Hx4]].
  - destruct Hla as (pid & Hpid & Hla). rewrite Hl in Hla. by eapply build_launched_wp.
  - split; [done|]. split; [done|]. split; [|exact Hst]. cbn in Hla. rewrite Hl in Hla.
    destruct (live t4) as [|q l]; [done|]. exfalso. by apply (not_elem_of_nil q), Hla; left.
Qed.
End TemplateFacts.

(** ** Concrete runs *)

Module FcExamples.
Import Uid Jail Client JailFacts.

Definition ex_jailer : JailerConfig :=
  mkJailerConfig "/usr/bin/jailer" "/srv/jailer" (10000, 10999) 0 "/var/lib/mitos" true.
Definition ex_cfg : VMConfig :=
  mkVMConfig "sb1" "/usr/bin/firecracker" "/var/lib/mitos/sandboxes/sb1" EmptyString EmptyString 1 512
    EmptyString ex_jailer ["/var/lib/mitos/templates/py/snapshot/mem"] [] None.
Definition ex_uids : UIDAllocator := NewUIDAllocator 10000 10999.


Definition ex_client : Client := ConnectVM "/run/sb1.sock".

(** A trace whose clock readings can be checked to be monotonic. *)
Fixpoint readings_ok (b : option Z) (t : trace) : bool :=
  match t with
  | [] => true
  | e :: t =>
      match e with Ev CNow x => match b with Some b => b <=? x | None => true end | _ => true end
      && readings_ok (clock_step b e) t
  end.

Lemma readings_ok_obeys t0 t : readings_ok (clock t0) t = true -> obeys monotonic t0 t.
Proof.
  revert t0. induction t as [|e t IH]; intros t0 H pre c x post Heq; [by destruct pre|].
  cbn [readings_ok] in H. apply andb_true_iff in H as [He Ht]. destruct pre as [|e' pre].
  - injection Heq as -> _. rewrite app_nil_r. destruct c; try done.
    intros b Hb. cbn in He. rewrite Hb in He. by apply Z.leb_le.
  - injection Heq as <- ->. rewrite <-clock_snoc in Ht. specialize (IH _ Ht pre c x post eq_refl).
    by rewrite <-app_assoc in IH.
Qed.

Lemma waitReady_terminates_witness :
  obeys monotonic [] (run (G := unit) obliging (waitReady ex_client (5 * second)) tt 0).2 /\
  ((run (G := unit) obliging (waitReady ex_client (5 * second)) tt 0).1.1.1 = Ok tt \/
   (run (G := unit) obliging (waitReady ex_client (5 * second)) tt 0).1.1.1 = Err ENotReady).
Proof.
  assert (obeys monotonic [] (run (G := unit) obliging (waitReady ex_client (5 * second)) tt 0).2) as Ho
    by (apply (readings_ok_obeys []); vm_compute; reflexivity).
  split; [exact Ho|].
  pose proof (waitReady_terminates (G := unit) obliging ex_client (5 * second) tt 0 ltac:(vm_compute; discriminate)) as H.
  revert Ho H. destruct (run (G := unit) obliging (waitReady ex_client (5 * second)) tt 0) as [[[r g] o] t].
  intros Ho H. exact (H Ho).
Defined.

End FcExamples.
