(* ===== verification/Storecrypt.v ===== *)
(** * Encrypted containers (internal/storecrypt/container.go)

    Every encrypted template has a LUKS container: an image file, opened under a
    mapper name and mounted on the template's directory.  The manager runs
    cryptsetup, mkfs and mount.

    - [Manager]: the four operations, as programs over host calls.
    - [Luks]: the documented effect of those commands on image files, mappers
      and mounts, as a function of the calls made so far.
    - [ManagerFacts]: creating is all or nothing, a shredded container never
      opens again, creating over an open container destroys it, and the key
      influences nothing but the standard input of two cryptsetup commands. *)
From S2P Require Import Prelude GoLib GoFs Host Firecracker.
#[local] Open Scope go_scope.

Module Manager.

Inductive sc_error :=
| BadScope | EncDirFailed | AllocateFailed | FormatFailed | LuksOpenFailed | MkfsFailed
| MountPointFailed | MountFailed | EraseFailed | RemoveFailed.

(** *** The runner *)

(** secretReader: the bytes, and how many were read. *)
Record secretReader := mkSecretReader { sr_b : bytes; sr_pos : nat }.
Definition newSecretReader (b : bytes) : secretReader := mkSecretReader b 0.
(** [Read] into a buffer of [n] bytes; [None] is [io.EOF]. *)
Definition Read (n : nat) (r : secretReader) : option bytes * secretReader :=
  if (length (sr_b r) <=? sr_pos r)%nat then (None, r)
  else let got := take n (drop (sr_pos r) (sr_b r)) in
       (Some got, mkSecretReader (sr_b r) (sr_pos r + length got)).

Section manager.
Context {G : Type}.
(** The manager's [root]; its [mountBase] is not used by any operation. *)
Variable root : string.

Definition DefaultRunner (argv : list string) (stdin : bytes) : prog G bool :=
  match argv with
  | [] => mret false
  | _ => sys (CRun argv (String.string_of_list_ascii stdin))
  end.

Definition imgPath (scopeID : string) : string := Join [root; "enc"; scopeID +:+ ".img"].
Definition mapperName (scopeID : string) : string := "mitos-" +:+ scopeID.
Definition device (scopeID : string) : string := "/dev/mapper/" +:+ mapperName scopeID.
(** scopeIDPattern is the pattern of VM ids. *)
Definition validateScopeID (scopeID : string) : bool := Jail.validateVMID scopeID.

Definition luksFormatArgs (img : string) : list string :=
  ["cryptsetup"; "luksFormat"; "--type"; "luks2"; "--batch-mode"; "--key-file"; "-"; img].
Definition luksOpenArgs (img name : string) : list string :=
  ["cryptsetup"; "luksOpen"; "--key-file"; "-"; img; name].
Definition luksCloseArgs (name : string) : list string := ["cryptsetup"; "luksClose"; name].
Definition luksEraseArgs (img : string) : list string := ["cryptsetup"; "luksErase"; "--batch-mode"; img].

Definition allocateImage (path : string) (sizeBytes : Z) : prog G bool :=
  f ← sys (CCreate path);
  if negb f then mret false
  else
    ok ← sys (CTruncate path sizeBytes);
    _ ← sys (CClose path);
    mret ok.

(** [p], and on failure the steps [undo] before the error is returned. *)
Definition or_undo (e : sc_error) (p : prog G bool) (undo : prog G unit) : prog G (res sc_error unit) :=
  ok ← p;
  if ok : bool then mret (Ok tt) else _ ← undo; mret (Err e).

Definition remove_image (scopeID : string) : prog G unit := _ ← sys (CRemove (imgPath scopeID)); mret tt.
Definition close_mapper (scopeID : string) : prog G unit :=
  _ ← DefaultRunner (luksCloseArgs (mapperName scopeID)) []; mret tt.
Definition close_and_remove (scopeID : string) : prog G unit :=
  _ ← close_mapper scopeID; remove_image scopeID.

Definition Create (scopeID : string) (key : bytes) (sizeBytes : Z) (mountPoint : string) : prog G (res sc_error unit) :=
  if negb (validateScopeID scopeID) then mret (Err BadScope)
  else
    must _ := check EncDirFailed (sys (CMkdirAll (Join [root; "enc"]))) in
    let img := imgPath scopeID in
    let dev := device scopeID in
    must _ := check AllocateFailed (allocateImage img sizeBytes) in
    must _ := or_undo FormatFailed (DefaultRunner (luksFormatArgs img) key) (remove_image scopeID) in
    must _ := or_undo LuksOpenFailed (DefaultRunner (luksOpenArgs img (mapperName scopeID)) key) (remove_image scopeID) in
    must _ := or_undo MkfsFailed (DefaultRunner ["mkfs.ext4"; "-q"; dev] []) (close_and_remove scopeID) in
    must _ := or_undo MountPointFailed (sys (CMkdirAll mountPoint)) (close_and_remove scopeID) in
    or_undo MountFailed (DefaultRunner ["mount"; dev; mountPoint] []) (close_and_remove scopeID).

Definition Open (scopeID : string) (key : bytes) (mountPoint : string) : prog G (res sc_error unit) :=
  if negb (validateScopeID scopeID) then mret (Err BadScope)
  else
    let img := imgPath scopeID in
    let dev := device scopeID in
    must _ := check LuksOpenFailed (DefaultRunner (luksOpenArgs img (mapperName scopeID)) key) in
    must _ := or_undo MountPointFailed (sys (CMkdirAll mountPoint)) (close_mapper scopeID) in
    or_undo MountFailed (DefaultRunner ["mount"; dev; mountPoint] []) (close_mapper scopeID).

Definition Close (scopeID mountPoint : string) : prog G (res sc_error unit) :=
  if negb (validateScopeID scopeID) then mret (Err BadScope)
  else
    _ ← DefaultRunner ["umount"; mountPoint] [];
    _ ← DefaultRunner (luksCloseArgs (mapperName scopeID)) [];
    mret (Ok tt).

Definition Shred (scopeID mountPoint : string) : prog G (res sc_error unit) :=
  if negb (validateScopeID scopeID) then mret (Err BadScope)
  else
    let img := imgPath scopeID in
    _ ← DefaultRunner ["umount"; mountPoint] [];
    _ ← DefaultRunner (luksCloseArgs (mapperName scopeID)) [];
    st ← sys (CStat img);
    match st with
    | None => mret (Ok tt)
    | Some _ =>
        must _ := check EraseFailed (DefaultRunner (luksEraseArgs img) []) in
        rm ← sys (CRemove img);
        mret (match rm with RmFailed => Err RemoveFailed | _ => Ok tt end)
    end.

End manager.
End Manager.

(** ** cryptsetup and mount *)

Module Luks.
Import Manager.

(** Image files with the key of their header, if they have one; open mappers
    with their image; mounted directories with their device. *)
Record luks := mkLuks {
  images : gmap string (option string); mappers : gmap string string; mounts : gmap string string }.

Inductive command :=
| Format (img : string) | OpenDev (img name : string) | CloseDev (name : string) | Erase (img : string)
| Mount (dev dir : string) | Umount (dir : string) | Other.

Definition parse (argv : list string) : command :=
  match argv with
  | [a; b; c; d; e; f; g; img] => if bool_decide (luksFormatArgs img = argv) then Format img else Other
  | [a; b; c; d; img; name] => if bool_decide (luksOpenArgs img name = argv) then OpenDev img name else Other
  | [a; b; c; img] => if bool_decide (luksEraseArgs img = argv) then Erase img else Other
  | [a; b; c] =>
      if bool_decide (luksCloseArgs c = argv) then CloseDev c
      else if String.eqb a "mount" then Mount b c else Other
  | [a; b] => if String.eqb a "umount" then Umount b else Other
  | _ => Other
  end.

(** The effect of a command that succeeds, and of an answered call. *)
Definition effect (c : command) (stdin : string) (s : luks) : luks :=
  match c with
  | Format img => mkLuks (<[img := Some stdin]> (images s)) (mappers s) (mounts s)
  | OpenDev img name => mkLuks (images s) (<[name := img]> (mappers s)) (mounts s)
  | CloseDev name => mkLuks (images s) (delete name (mappers s)) (mounts s)
  | Erase img => mkLuks (<[img := None]> (images s)) (mappers s) (mounts s)
  | Mount dev dir => mkLuks (images s) (mappers s) (<[dir := dev]> (mounts s))
  | Umount dir => mkLuks (images s) (mappers s) (delete dir (mounts s))
  | Other => s
  end.
Definition luks_step (s : luks) (e : event) : luks :=
  match e with
  | Ev (CCreate p) true => mkLuks (<[p := None]> (images s)) (mappers s) (mounts s)
  | Ev (CRemove p) RmOk => mkLuks (delete p (images s)) (mappers s) (mounts s)
  | Ev (CRun argv stdin) true => effect (parse argv) stdin s
  | _ => s
  end.
Definition after (t : trace) : luks := fold_left luks_step t (mkLuks ∅ ∅ ∅).

(** What a command that succeeds found: a file to format or erase, the key of the
    container and a free name to open it under, an open mapper to close.  Any
    command may fail. *)
Definition accepts (c : command) (stdin : string) (s : luks) : Prop :=
  match c with
  | Format img | Erase img => is_Some (images s !! img)
  | OpenDev img name => images s !! img = Some (Some stdin) /\ mappers s !! name = None
  | CloseDev name => is_Some (mappers s !! name)
  | _ => True
  end.

(** A file reported absent is not there, and a status call fails only then. *)
Definition cryptsetup (t : trace) (c : call) : answer c -> Prop :=
  match c return answer c -> Prop with
  | CRun argv stdin => fun ok => ok = true -> accepts (parse argv) stdin (after t)
  | CRemove p => fun r => r = RmAbsent -> images (after t) !! p = None
  | CStat p => fun r => r = None -> images (after t) !! p = None
  | _ => fun _ => True
  end.

(** And where undoing works: an open mapper can be closed and a file removed. *)
Definition undoable (t : trace) (c : call) : answer c -> Prop :=
  match c return answer c -> Prop with
  | CRun argv stdin => fun ok =>
      (ok = true -> accepts (parse argv) stdin (after t)) /\
      (forall name, parse argv = CloseDev name -> is_Some (mappers (after t) !! name) -> ok = true)
  | CRemove p => fun r => (r = RmAbsent -> images (after t) !! p = None) /\ r <> RmFailed
  | CStat p => fun r => r = None -> images (after t) !! p = None
  | _ => fun _ => True
  end.

Lemma after_snoc t e : after (t ++ [e]) = luks_step (after t) e.
Proof. unfold after. by rewrite fold_left_app. Qed.


(** Calls without effect on files, mappers and mounts. *)
Definition inert (c : call) : Prop :=
  match c with CCreate _ | CRemove _ | CRun _ _ => False | _ => True end.
Lemma after_inert t c x : inert c -> after (t ++ [Ev c x]) = after t.
Proof. rewrite after_snoc. by destruct c. Qed.

Lemma parse_format img : parse (luksFormatArgs img) = Format img.
Proof. unfold parse, luksFormatArgs. by rewrite bool_decide_true. Qed.
Lemma parse_open img name : parse (luksOpenArgs img name) = OpenDev img name.
Proof. unfold parse, luksOpenArgs. by rewrite bool_decide_true. Qed.
Lemma parse_close name : parse (luksCloseArgs name) = CloseDev name.
Proof. unfold parse, luksCloseArgs. by rewrite bool_decide_true. Qed.
Lemma parse_erase img : parse (luksEraseArgs img) = Erase img.
Proof. unfold parse, luksEraseArgs. by rewrite bool_decide_true. Qed.
Lemma parse_mkfs dev : parse ["mkfs.ext4"; "-q"; dev] = Other.
Proof. unfold parse, luksCloseArgs. by rewrite bool_decide_false. Qed.
Lemma parse_mount dev dir : parse ["mount"; dev; dir] = Mount dev dir.
Proof. unfold parse, luksCloseArgs. by rewrite bool_decide_false. Qed.
Lemma parse_umount dir : parse ["umount"; dir] = Umount dir.
Proof. done. Qed.

End Luks.

(** ** Facts *)

Module ManagerFacts.
Import Manager Luks.

Section undo.
Context {G : Type} (root : string).

Lemma wp_command argv stdin (Q : bool -> G -> trace -> Prop) g t :
  argv <> [] ->
  (forall (ok : bool) t',
     after t' = (if ok then effect (parse argv) (String.string_of_list_ascii stdin) (after t) else after t) ->
     (ok = true -> accepts (parse argv) (String.string_of_list_ascii stdin) (after t)) ->
     (forall name, parse argv = CloseDev name -> is_Some (mappers (after t) !! name) -> ok = true) ->
     Q ok g t') ->
  wp undoable (DefaultRunner argv stdin) Q g t.
Proof.
  intros Hne HQ. destruct argv as [|a argv]; [done|]. apply wp_sys. intros ok [H1 H2].
  apply HQ; [|done..]. rewrite after_snoc. by destruct ok.
Qed.

Lemma wp_remove id (Q : unit -> G -> trace -> Prop) g t :
  (forall t', after t' = mkLuks (delete (imgPath root id) (images (after t))) (mappers (after t)) (mounts (after t)) ->
     Q tt g t') ->
  wp undoable (remove_image root id) Q g t.
Proof.
  intros HQ. apply wp_bind, wp_sys. intros r [H1 H2]. apply wp_ret, HQ. rewrite after_snoc.
  destruct r; cbn in *; [done| |done]. rewrite delete_id by (by apply H1). by destruct (after t).
Qed.

Lemma wp_close id (Q : unit -> G -> trace -> Prop) g t :
  is_Some (mappers (after t) !! mapperName id) ->
  (forall t', after t' = mkLuks (images (after t)) (delete (mapperName id) (mappers (after t))) (mounts (after t)) ->
     Q tt g t') ->
  wp undoable (close_mapper id) Q g t.
Proof.
  intros Hopen HQ. apply wp_bind, wp_command; [done|]. intros ok t' Ht' _ Hok.
  rewrite parse_close in *. rewrite (Hok (mapperName id) eq_refl Hopen) in Ht'. by apply wp_ret, HQ.
Qed.

(** Undoing an open container leaves neither the mapper nor the image. *)
Lemma wp_close_and_remove id (Q : unit -> G -> trace -> Prop) g t :
  is_Some (mappers (after t) !! mapperName id) ->
  (forall t', after t' = mkLuks (delete (imgPath root id) (images (after t)))
                (delete (mapperName id) (mappers (after t))) (mounts (after t)) -> Q tt g t') ->
  wp undoable (close_and_remove root id) Q g t.
Proof.
  intros Hopen HQ. apply wp_bind, wp_close; [done|]. intros t1 H1. apply wp_remove. intros t2 H2.
  apply HQ. by rewrite H2, H1.
Qed.

Lemma wp_or_undo allowed e (p : prog G bool) (undo : prog G unit) (Q : res sc_error unit -> G -> trace -> Prop) g t :
  wp allowed p (fun ok g t => if ok then Q (Ok tt) g t else wp allowed undo (fun _ => Q (Err e)) g t) g t ->
  wp allowed (or_undo e p undo) Q g t.
Proof.
  intros Hp. apply wp_bind. eapply wp_mono; [exact Hp|]. intros [] g' t' H; [by apply wp_ret|].
  apply wp_bind. eapply wp_mono; [exact H|]. intros u g2 t2 H2. by apply wp_ret.
Qed.


(** What a failed creation leaves: nothing of the container. *)
Definition rolled_back (id : string) (s s' : luks) : Prop :=
  images s' = delete (imgPath root id) (images s) /\ mappers s' = mappers s /\ mounts s' = mounts s.

Definition created (id : string) (key : bytes) (mountPoint : string) (s s' : luks) (r : res sc_error unit) : Prop :=
  match r with
  | Ok _ =>
      images s' !! imgPath root id = Some (Some (String.string_of_list_ascii key)) /\
      mappers s' !! mapperName id = Some (imgPath root id) /\
      mounts s' !! mountPoint = Some (device id)
  | Err (BadScope | EncDirFailed) => s' = s
  | Err AllocateFailed => mappers s' = mappers s /\ mounts s' = mounts s
  | Err _ => rolled_back id s s'
  end.

Lemma allocateImage_after id size (Q : bool -> G -> trace -> Prop) g t :
  let s := after t in
  let s' := mkLuks (<[imgPath root id := None]> (images s)) (mappers s) (mounts s) in
  (forall t', after t' = s' -> Q true g t') ->
  (forall t', mappers (after t') = mappers s -> mounts (after t') = mounts s -> Q false g t') ->
  wp undoable (allocateImage (imgPath root id) size) Q g t.
Proof.
  intros s s' Hok Hno. apply wp_bind, wp_sys. intros f _. destruct f; cbn [negb].
  - apply wp_bind, wp_sys. intros ok _. apply wp_bind, wp_sys. intros cl _. apply wp_ret.
    assert (after (((t ++ [Ev (CCreate (imgPath root id)) true]) ++ [Ev (CTruncate (imgPath root id) size) ok]) ++
                   [Ev (CClose (imgPath root id)) cl]) = s') as E by (by rewrite (after_inert _ (CClose _)), (after_inert _ (CTruncate _ _)), after_snoc).
    destruct ok; [by apply Hok|]. apply Hno; by rewrite E.
  - apply wp_ret, Hno; by rewrite after_snoc.
Qed.

(** The steps once the container is open, all undone the same way. *)
Lemma mount_after id key mountPoint (s0 : luks) (g : G) t :
  images (after t) = <[imgPath root id := Some (String.string_of_list_ascii key)]> (images s0) ->
  mappers (after t) = <[mapperName id := imgPath root id]> (mappers s0) -> mounts (after t) = mounts s0 ->
  mappers s0 !! mapperName id = None ->
  wp undoable
    (must _ := or_undo MkfsFailed (DefaultRunner ["mkfs.ext4"; "-q"; device id] []) (close_and_remove root id) in
     must _ := or_undo MountPointFailed (sys (CMkdirAll mountPoint)) (close_and_remove root id) in
     or_undo MountFailed (DefaultRunner ["mount"; device id; mountPoint] []) (close_and_remove root id))
    (fun r _ t' => created id key mountPoint s0 (after t') r) g t.
Proof.
  intros Hi Hm Hmt Hfree.
  assert (forall e t1, e <> BadScope -> e <> EncDirFailed -> e <> AllocateFailed -> after t1 = after t ->
    wp undoable (close_and_remove root id) (fun _ (_ : G) t' => created id key mountPoint s0 (after t') (Err e)) g t1) as Hundo.
  { intros e t1 H1 H2 H3 Ht1. apply wp_close_and_remove; rewrite Ht1; [by rewrite Hm, lookup_insert_eq|].
    intros t2 Ht2. rewrite Ht2, Hi, Hm, Hmt.
    assert (rolled_back id s0 (mkLuks (delete (imgPath root id) (<[imgPath root id:=Some (String.string_of_list_ascii key)]> (images s0)))
              (delete (mapperName id) (<[mapperName id:=imgPath root id]> (mappers s0))) (mounts s0))) as Hr.
    { split; cbn; [by rewrite delete_insert_eq|]. split; [|done]. by rewrite delete_insert_eq, delete_id. }
    destruct e; done. }
  apply wp_try, wp_or_undo, wp_command; [done|]. intros ok t1 Ht1 _ _. rewrite parse_mkfs in Ht1.
  assert (after t1 = after t) as E1 by (by destruct ok). clear Ht1.
  destruct ok; [|by apply Hundo].
  apply wp_try, wp_or_undo, wp_sys. intros ok _. pose proof (after_inert t1 (CMkdirAll mountPoint) ok I) as E2.
  rewrite E1 in E2. destruct ok; [|by apply Hundo].
  apply wp_or_undo, wp_command; [done|]. intros ok t3 Ht3 _ _. rewrite parse_mount, E2 in Ht3.
  destruct ok; [|by apply Hundo]. rewrite Ht3. cbn. by rewrite Hi, Hm, !lookup_insert_eq.
Qed.

End undo.

(** Creating a container of a scope that is not open either succeeds, with the
    container encrypted under the given key, opened under the scope's mapper and
    mounted where asked, or leaves neither image nor mapper nor mount behind.
    Only when the image file itself cannot be allocated may an empty file
    remain. *)
Theorem create_all_or_nothing {G} root id key size mountPoint (g : G) t :
  mappers (after t) !! mapperName id = None ->
  wp undoable (Create root id key size mountPoint)
    (fun r _ t' => created root id key mountPoint (after t) (after t') r) g t.
Proof.
  intros Hfree. unfold Create. destruct (validateScopeID id); cbn [negb]; [|by apply wp_ret].
  apply wp_try, wp_check, wp_sys. intros ok _. pose proof (after_inert t (CMkdirAll (Join [root; "enc"])) ok I) as E0.
  destruct ok; [|exact E0].
  apply wp_try, wp_check, allocateImage_after; rewrite E0; [|intros t1 H1 H2; by split].
  intros t1 H1. apply wp_try, wp_or_undo, wp_command; [done|]. intros ok t2 H2 _ _. rewrite parse_format, H1 in H2.
  destruct ok; cbn in H2.
  2:{ apply wp_remove. rewrite H2. intros t3 H3. cbn. unfold rolled_back. rewrite H3. cbn. by rewrite delete_insert_eq. }
  apply wp_try, wp_or_undo, wp_command; [done|]. intros ok t3 H3 _ _. rewrite parse_open, H2 in H3.
  destruct ok; cbn in H3; rewrite insert_insert_eq in H3.
  2:{ apply wp_remove. rewrite H3. intros t4 H4. cbn. unfold rolled_back. rewrite H4. cbn. by rewrite delete_insert_eq. }
  apply mount_after; by rewrite ?H3.
Qed.


(** *** Scopes do not share images *)

Lemma plain_img id : validateScopeID id = true -> plain (id +:+ ".img").
Proof.
  intros Hv. pose proof (JailFacts.validateVMID_plain id Hv) as (H1 & H2 & H3 & H4).
  destruct id as [|c r]; [done|]. split; [done|]. split; [|split].
  - intros E. injection E as -> E. by destruct r.
  - intros E. injection E as -> E. by destruct r as [|c' [|? ?]].
  - by rewrite contains_byte_app, H4.
Qed.

Lemma imgPath_elems root id :
  is_abs root = true -> validateScopeID id = true ->
  clean_elems (imgPath root id) = clean_elems root ++ ["enc"; id +:+ ".img"].
Proof.
  intros Hr Hv%plain_img. unfold imgPath. rewrite clean_Join_below; [|done|].
  - f_equal. by rewrite below_cons, !below_one_plain.
  - cbn [map concat]. rewrite !Forall_app. split; [by apply downward_plain|]. split; [by apply downward_plain|constructor].
Qed.

Lemma imgPath_inj root id id' :
  is_abs root = true -> validateScopeID id = true -> validateScopeID id' = true ->
  imgPath root id = imgPath root id' -> id = id'.
Proof.
  intros Hr Hv Hv' E. apply (f_equal clean_elems) in E. rewrite !imgPath_elems in E by done.
  simplify_list_eq. by eapply string_app_inj_r.
Qed.

(** *** Shredding is final *)

Section shred.
Context {G : Type} (root : string).

Inductive request :=
| RCreate (scopeID : string) (key : bytes) (sizeBytes : Z) (mountPoint : string)
| ROpen (scopeID : string) (key : bytes) (mountPoint : string)
| RClose (scopeID mountPoint : string)
| RShred (scopeID mountPoint : string).

Definition serve (r : request) : prog G (res sc_error unit) :=
  match r with
  | RCreate id key size dir => Create root id key size dir
  | ROpen id key dir => Open root id key dir
  | RClose id dir => Close id dir
  | RShred id dir => Shred root id dir
  end.

Fixpoint serve_all (l : list request) : prog G unit :=
  match l with [] => mret tt | r :: l => _ ← serve r; serve_all l end.

Definition creates (id : string) (r : request) : Prop :=
  match r with RCreate id' _ _ _ => id' = id | _ => False end.

(** An image that is not there stays away unless it is created. *)
Lemma absent_kept {A} p (q : prog G A) g t :
  calls_in (fun c => c <> CCreate p) q -> images (after t) !! p = None ->
  wp cryptsetup q (fun _ _ t' => images (after t') !! p = None) g t.
Proof.
  revert g t. induction q as [a|X f k IH|c k IH]; cbn [wp calls_in]; intros g t Hc Hp; [done|by apply IH|].
  destruct Hc as [Hne Hc]. intros x Hx. apply IH; [done|]. rewrite after_snoc.
  destruct c; try done; cbn in *.
  - destruct x; try done. cbn. apply lookup_delete_None. by right.
  - destruct x; [|done]. cbn. rewrite lookup_insert_ne; [done|]. intros ->. done.
  - destruct x; [|done]. specialize (Hx eq_refl).
    destruct (parse argv); cbn in *; try done; rewrite lookup_insert_ne; try done; intros ->; by destruct Hx; simplify_eq.
Qed.

Lemma serve_calls id r :
  is_abs root = true -> validateScopeID id = true -> ~ creates id r ->
  calls_in (fun c => c <> CCreate (imgPath root id)) (serve r).
Proof.
  intros Hr Hv Hn. destruct r as [id' key size dir|id' key dir|id' dir|id' dir]; cbn [serve];
    unfold Create, Open, Close, Shred, allocateImage, or_undo, close_and_remove, close_mapper, remove_image, DefaultRunner,
      luksFormatArgs, luksOpenArgs, luksCloseArgs, luksEraseArgs;
    destruct (validateScopeID id') eqn:Hv'; cbn [negb]; walk; try done.
  intros [= E%imgPath_inj]; done.
Qed.

Lemma serve_all_absent id l (g : G) t :
  is_abs root = true -> validateScopeID id = true -> Forall (fun r => ~ creates id r) l ->
  images (after t) !! imgPath root id = None ->
  wp cryptsetup (serve_all l) (fun _ _ t' => images (after t') !! imgPath root id = None) g t.
Proof.
  intros Hr Hv Hl. revert g t. induction Hl as [|r l Hr' _ IH]; intros g t Ht; [by apply wp_ret|].
  cbn [serve_all]. apply wp_bind. eapply wp_mono; [apply absent_kept; [by apply serve_calls|done]|].
  intros u g' t' Ht'. by apply IH.
Qed.

Lemma Open_absent id key dir (g : G) t :
  images (after t) !! imgPath root id = None ->
  wp cryptsetup (Open root id key dir) (fun r _ _ => r <> Ok tt) g t.
Proof.
  intros Ht. unfold Open. destruct (validateScopeID id); cbn [negb]; [|by apply wp_ret].
  apply wp_try, wp_check, wp_sys. intros ok Hok. destruct ok; [|done].
  specialize (Hok eq_refl). change (accepts (parse (luksOpenArgs (imgPath root id) (mapperName id)))
    (String.string_of_list_ascii key) (after t)) in Hok. rewrite parse_open in Hok.
  destruct Hok as [Hok _]. congruence.
Qed.

Lemma Shred_absent id dir (g : G) t :
  wp cryptsetup (Shred root id dir)
    (fun r _ t' => r = Ok tt -> validateScopeID id = true /\ images (after t') !! imgPath root id = None) g t.
Proof.
  unfold Shred. destruct (validateScopeID id); cbn [negb]; [|by apply wp_ret].
  apply wp_bind, wp_sys. intros u _. apply wp_bind, wp_sys. intros c _. apply wp_bind, wp_sys. intros st Hst.
  destruct st as [fi|].
  2:{ apply wp_ret. intros _. split; [done|]. rewrite after_inert by done. by apply Hst. }
  apply wp_try, wp_check, wp_sys. intros ok _. destruct ok; [|by intros [=]].
  apply wp_bind, wp_sys. intros rm Hrm. apply wp_ret. intros Hok. split; [done|]. rewrite after_snoc.
  destruct rm; cbn; [apply lookup_delete_eq|by apply Hrm|done].
Qed.

End shred.



(** *** Creating over an open container *)

(** A container that is open cannot be created again: the attempt always fails.
    And unless it fails before the image is allocated, it removes the image of
    the open container and leaves the mapper open on it: what is mounted is lost
    at the next unmount. *)
Theorem recreate_destroys {G} root id key size mountPoint img (g : G) t :
  mappers (after t) !! mapperName id = Some img ->
  wp undoable (Create root id key size mountPoint) (fun r _ t' =>
    r = Err BadScope \/ r = Err EncDirFailed \/ r = Err AllocateFailed \/
    (r = Err FormatFailed \/ r = Err LuksOpenFailed) /\
    images (after t') !! imgPath root id = None /\ mappers (after t') = mappers (after t) /\
    mounts (after t') = mounts (after t)) g t.
Proof.
  intros Hopen. unfold Create. destruct (validateScopeID id); cbn [negb]; [|apply wp_ret; by left].
  apply wp_try, wp_check, wp_sys. intros ok _. pose proof (after_inert t (CMkdirAll (Join [root; "enc"])) ok I) as E0.
  destruct ok; [|right; by left].
  apply wp_try, wp_check, allocateImage_after; rewrite E0; [|intros t1 _ _; right; right; by left].
  intros t1 H1. apply wp_try, wp_or_undo, wp_command; [done|]. intros ok t2 H2 _ _. rewrite parse_format, H1 in H2.
  assert (mappers (after t2) = mappers (after t) /\ mounts (after t2) = mounts (after t)) as [Hm Hmt]
    by (by destruct ok; rewrite H2).
  destruct ok.
  2:{ apply wp_remove. intros t3 H3. do 3 right. split; [by left|]. rewrite H3. cbn. by rewrite lookup_delete_eq. }
  apply wp_try, wp_or_undo, wp_command; [done|]. intros ok t3 H3 Hacc _. rewrite parse_open in *.
  destruct ok; [destruct (Hacc eq_refl) as [_ Hfree]; congruence|].
  apply wp_remove. intros t4 H4. do 3 right. split; [by right|]. rewrite H4, H3. cbn. by rewrite lookup_delete_eq.
Qed.

(** *** The key stays secret *)

Section secrecy.
Context {G : Type}.

(** Programs that differ only in what they feed to commands. *)
Inductive twin {A} : prog G A -> prog G A -> Prop :=
| twin_ret a : twin (Ret a) (Ret a)
| twin_atomic X (f : G -> X * G) k k' : (forall x, twin (k x) (k' x)) -> twin (Atomic f k) (Atomic f k')
| twin_sys c k k' : (forall x, twin (k x) (k' x)) -> twin (Sys c k) (Sys c k')
| twin_run argv stdin stdin' (k k' : bool -> prog G A) :
    (forall x, twin (k x) (k' x)) -> twin (Sys (CRun argv stdin) k) (Sys (CRun argv stdin') k').

Lemma twin_refl {A} (p : prog G A) : twin p p.
Proof. induction p; by constructor. Qed.

Lemma twin_bind {A B} (p p' : prog G A) (f f' : A -> prog G B) :
  twin p p' -> (forall a, twin (f a) (f' a)) -> twin (p ≫= f) (p' ≫= f').
Proof. intros Hp Hf. induction Hp; cbn; [apply Hf|by constructor..]. Qed.

Lemma twin_try {E A B} (p p' : prog G (res E A)) (k k' : A -> prog G (res E B)) :
  twin p p' -> (forall a, twin (k a) (k' a)) -> twin (prog_try p k) (prog_try p' k').
Proof. intros Hp Hk. apply twin_bind; [done|]. intros [a|e]; [apply Hk|apply twin_refl]. Qed.

Lemma twin_command argv stdin stdin' : twin (DefaultRunner argv stdin) (DefaultRunner argv stdin').
Proof. destruct argv; [apply twin_refl|]. constructor. intros x. apply twin_refl. Qed.

(** What everybody on the host can see of a call. *)
Definition visible (e : event) : call :=
  match ev_call e with CRun argv _ => CRun argv EmptyString | c => c end.

(** A host that answers a command without looking at its input. *)
Definition blind {O} (h : env O) : Prop :=
  forall argv stdin stdin' o, h (CRun argv stdin) o = h (CRun argv stdin') o.

Lemma twin_run_same {O A} (h : env O) (p p' : prog G A) g o :
  blind h -> twin p p' ->
  let '(a, g1, o1, t) := run h p g o in
  let '(a', g1', o1', t') := run h p' g o in
  a = a' /\ g1 = g1' /\ o1 = o1' /\ visible <$> t = visible <$> t'.
Proof.
  intros Hb Hp. revert g o. induction Hp as [a|X f k k' _ IH|c k k' _ IH|argv s s' k k' _ IH]; intros g o; cbn [run].
  - done.
  - apply IH.
  - destruct (h c o) as [x o1]. specialize (IH x g o1).
    destruct (run h (k x) g o1) as [[[? ?] ?] ?], (run h (k' x) g o1) as [[[? ?] ?] ?].
    destruct IH as (-> & -> & -> & IH). cbn. by rewrite IH.
  - rewrite (Hb argv s' s o). destruct (h (CRun argv s) o) as [x o1]. specialize (IH x g o1).
    destruct (run h (k x) g o1) as [[[? ?] ?] ?], (run h (k' x) g o1) as [[[? ?] ?] ?].
    destruct IH as (-> & -> & -> & IH). cbn. by rewrite IH.
Qed.

Lemma Create_twin root id key key' size dir :
  twin (Create root id key size dir) (Create root id key' size dir).
Proof.
  unfold Create. destruct (validateScopeID id); [|apply twin_refl]. cbn [negb].
  do 2 (apply twin_try; [apply twin_refl|intros _]).
  do 2 (apply twin_try; [apply twin_bind; [apply twin_command|intros; apply twin_refl]|intros _]).
  apply twin_refl.
Qed.

Lemma Open_twin root id key key' dir : twin (Open root id key dir) (Open root id key' dir).
Proof.
  unfold Open. destruct (validateScopeID id); [|apply twin_refl]. cbn [negb].
  apply twin_try; [apply twin_bind; [apply twin_command|intros; apply twin_refl]|intros _]. apply twin_refl.
Qed.

End secrecy.

(** Two runs that differ only in the key cannot be told apart by anything but
    what cryptsetup reads from its standard input: the same calls with the same
    paths and arguments in the same order, the same result, and the same state of
    the host and of the process.  So no key byte reaches a command line, a path,
    an error or a retry. *)
Theorem key_only_on_stdin {G O} (h : env O) root id key key' size dir (g : G) o :
  blind h ->
  (let '(r, g1, o1, t) := run h (Create root id key size dir) g o in
   let '(r', g1', o1', t') := run h (Create root id key' size dir) g o in
   r = r' /\ g1 = g1' /\ o1 = o1' /\ visible <$> t = visible <$> t') /\
  (let '(r, g1, o1, t) := run h (Open root id key dir) g o in
   let '(r', g1', o1', t') := run h (Open root id key' dir) g o in
   r = r' /\ g1 = g1' /\ o1 = o1' /\ visible <$> t = visible <$> t').
Proof. intros Hb. split; apply twin_run_same; auto using Create_twin, Open_twin. Qed.


(** *** Closing and reopening *)

(** A host on which every command succeeds that can. *)
Definition willing (t : trace) (c : call) : answer c -> Prop :=
  match c return answer c -> Prop with
  | CRun argv stdin => fun ok => ok = true <-> accepts (parse argv) stdin (after t)
  | CMkdirAll _ | CCreate _ | CTruncate _ _ => fun ok => ok = true
  | _ => fun _ => True
  end.

Section reopen.
Context {G : Type} (root : string).

Lemma wp_willing argv stdin (Q : bool -> G -> trace -> Prop) g t :
  argv <> [] ->
  let key := String.string_of_list_ascii stdin in
  (accepts (parse argv) key (after t) -> forall t', after t' = effect (parse argv) key (after t) -> Q true g t') ->
  (~ accepts (parse argv) key (after t) -> forall t', after t' = after t -> Q false g t') ->
  wp willing (DefaultRunner argv stdin) Q g t.
Proof.
  intros Hne key H1 H2. destruct argv as [|a argv]; [done|]. apply wp_sys. intros ok Hok.
  change (ok = true <-> accepts (parse (a :: argv)) key (after t)) in Hok. destruct ok.
  - apply H1; [by apply Hok|]. by rewrite after_snoc.
  - apply H2; [by intros H%Hok|]. by rewrite after_snoc.
Qed.

(** A command that is accepted. *)
Lemma wp_accepted argv stdin (Q : bool -> G -> trace -> Prop) g t :
  argv <> [] -> accepts (parse argv) (String.string_of_list_ascii stdin) (after t) ->
  (forall t', after t' = effect (parse argv) (String.string_of_list_ascii stdin) (after t) -> Q true g t') ->
  wp willing (DefaultRunner argv stdin) Q g t.
Proof. intros Hne Hacc HQ. apply wp_willing; [done|by intros _|by intros []]. Qed.

Lemma allocate_willing id size (Q : bool -> G -> trace -> Prop) g t :
  (forall t', after t' = mkLuks (<[imgPath root id := None]> (images (after t))) (mappers (after t)) (mounts (after t)) ->
     Q true g t') ->
  wp willing (allocateImage (imgPath root id) size) Q g t.
Proof.
  intros HQ. apply wp_bind, wp_sys. intros [] Hok; [clear Hok|discriminate Hok]. apply wp_bind, wp_sys. intros [] Hok; [clear Hok|discriminate Hok].
  apply wp_bind, wp_sys. intros cl _. apply wp_ret, HQ.
  by rewrite (after_inert _ (CClose _)), (after_inert _ (CTruncate _ _)), after_snoc.
Qed.

Lemma Create_willing id key size dir (Q : res sc_error unit -> G -> trace -> Prop) g t :
  validateScopeID id = true -> mappers (after t) !! mapperName id = None ->
  (forall t', created root id key dir (after t) (after t') (Ok tt) -> Q (Ok tt) g t') ->
  wp willing (Create root id key size dir) Q g t.
Proof.
  intros Hv Hfree HQ. unfold Create. rewrite Hv. cbn [negb].
  apply wp_try, wp_check, wp_sys. intros [] Hok; [clear Hok|discriminate Hok]. pose proof (after_inert t (CMkdirAll (Join [root; "enc"])) true I) as E0.
  apply wp_try, wp_check, allocate_willing. rewrite E0. intros t1 E1.
  apply wp_try, wp_or_undo, wp_accepted; [done|rewrite parse_format, E1; cbn [effect accepts images mappers mounts]; by rewrite lookup_insert_eq|].
  intros t2. rewrite parse_format, E1. cbn [effect accepts images mappers mounts]. rewrite insert_insert_eq. intros E2.
  apply wp_try, wp_or_undo, wp_accepted; [done|rewrite parse_open, E2; cbn [effect accepts images mappers mounts]; by rewrite lookup_insert_eq|].
  intros t3. rewrite parse_open, E2. cbn [effect accepts images mappers mounts]. intros E3.
  apply wp_try, wp_or_undo, wp_accepted; [done|by rewrite parse_mkfs|]. intros t4. rewrite parse_mkfs, E3. cbn [effect accepts images mappers mounts]. intros E4.
  apply wp_try, wp_or_undo, wp_sys. intros [] Hok; [clear Hok|discriminate Hok]. pose proof (after_inert t4 (CMkdirAll dir) true I) as E5.
  apply wp_or_undo, wp_accepted; [done|by rewrite parse_mount|]. intros t6. rewrite parse_mount, E5, E4. cbn [effect accepts images mappers mounts]. intros E6.
  apply HQ. rewrite E6. cbn [created images mappers mounts]. by rewrite !lookup_insert_eq.
Qed.

Lemma Close_willing id dir (Q : res sc_error unit -> G -> trace -> Prop) g t :
  validateScopeID id = true -> is_Some (mappers (after t) !! mapperName id) ->
  (forall t', images (after t') = images (after t) -> mappers (after t') !! mapperName id = None -> Q (Ok tt) g t') ->
  wp willing (Close id dir) Q g t.
Proof.
  intros Hv Hopen HQ. unfold Close. rewrite Hv. cbn [negb].
  apply wp_bind, wp_accepted; [done..|]. intros t1 E1. cbn [effect parse String.eqb Ascii.eqb Bool.eqb] in E1.
  apply wp_bind, wp_accepted; [done|by rewrite parse_close, E1|]. intros t2. rewrite parse_close, E1. cbn [effect accepts images mappers mounts]. intros E2.
  apply wp_ret, HQ; rewrite E2; [done|]. cbn [effect accepts images mappers mounts]. apply lookup_delete_eq.
Qed.

Lemma Open_willing id key key' dir (Q : res sc_error unit -> G -> trace -> Prop) g t :
  validateScopeID id = true -> mappers (after t) !! mapperName id = None ->
  images (after t) !! imgPath root id = Some (Some (String.string_of_list_ascii key)) ->
  (key' = key -> forall t', created root id key dir (after t) (after t') (Ok tt) -> Q (Ok tt) g t') ->
  (key' <> key -> forall t', images (after t') = images (after t) -> Q (Err LuksOpenFailed) g t') ->
  wp willing (Open root id key' dir) Q g t.
Proof.
  intros Hv Hfree Himg Hsame Hother. unfold Open. rewrite Hv. cbn [negb].
  apply wp_try, wp_check, wp_willing; [done| |]; rewrite parse_open; cbn [effect accepts images mappers mounts].
  - intros [Hkey _] t1 E1. rewrite Himg in Hkey. injection Hkey as Hkey.
    apply (f_equal String.list_ascii_of_string) in Hkey. rewrite !String.list_ascii_of_string_of_list_ascii in Hkey.
    apply wp_try, wp_or_undo, wp_sys. intros [] Hok; [clear Hok|discriminate Hok]. pose proof (after_inert t1 (CMkdirAll dir) true I) as E2.
    apply wp_or_undo, wp_accepted; [done|by rewrite parse_mount|]. intros t3. rewrite parse_mount, E2, E1. cbn [effect accepts images mappers mounts]. intros E3.
    apply Hsame; [done|]. rewrite E3. cbn [created images mappers mounts]. by rewrite !lookup_insert_eq.
  - intros Hno t1 E1. apply Hother; [|by rewrite E1]. intros ->. by apply Hno.
Qed.

End reopen.

(** A container that is created, closed and opened again comes back where it was
    mounted with the contents of its image untouched, and only under the key it
    was created with. *)
Theorem container_roundtrip {G} root id key key' size dir dir' (g : G) t :
  validateScopeID id = true -> mappers (after t) !! mapperName id = None ->
  wp willing
    (r1 ← Create root id key size dir; r2 ← Close id dir; r3 ← Open root id key' dir'; mret (r1, r2, r3))
    (fun '(r1, r2, r3) _ t' =>
       r1 = Ok tt /\ r2 = Ok tt /\ (r3 = Ok tt <-> key' = key) /\
       images (after t') !! imgPath root id = Some (Some (String.string_of_list_ascii key)) /\
       (key' = key -> mappers (after t') !! mapperName id = Some (imgPath root id) /\
                      mounts (after t') !! dir' = Some (device id))) g t.
Proof.
  intros Hv Hfree. apply wp_bind, Create_willing; [done..|]. intros t1 (Hi & Hm & _).
  apply wp_bind, Close_willing; [done|by rewrite Hm|]. intros t2 Hi2 Hm2. rewrite <- Hi2 in Hi.
  apply wp_bind, (Open_willing _ _ key); [done..| |].
  - intros -> t3 (H1 & H2 & H3). apply wp_ret. by auto.
  - intros Hne t3 H3. apply wp_ret. rewrite H3. split_and!; done.
Qed.


(** *** The reader of the key *)

Fixpoint drain (sizes : list nat) (r : secretReader) : bytes :=
  match sizes with
  | [] => []
  | n :: sizes => match Read n r with (None, r) => [] | (Some got, r) => got ++ drain sizes r end
  end.

(** However the child reads, it gets a prefix of the key, each byte once. *)
Lemma drain_prefix sizes b pos : (pos <= length b)%nat -> exists rest, drop pos b = drain sizes (mkSecretReader b pos) ++ rest.
Proof.
  revert pos. induction sizes as [|n sizes IH]; intros pos Hpos; [by exists (drop pos b)|].
  cbn [drain Read sr_b sr_pos]. unfold Read. cbn [sr_b sr_pos].
  destruct (Nat.leb_spec (length b) pos) as [Hle|Hlt]; [by exists (drop pos b)|].
  destruct (IH (pos + length (take n (drop pos b)))%nat) as [rest Hrest].
  { rewrite length_take, length_drop. lia. }
  exists rest. rewrite <- app_assoc, <- Hrest, <- drop_drop.
  rewrite <- (take_drop n (drop pos b)) at 1. f_equal. rewrite length_take, length_drop.
  destruct (Nat.le_gt_cases n (length b - pos)); [by rewrite Nat.min_l by lia|].
  rewrite Nat.min_r by lia. rewrite !drop_ge; [done|rewrite length_drop; lia..].
Qed.

End ManagerFacts.

(** ** Concrete runs *)

Module ManagerExamples.
Import Manager Luks ManagerFacts.

Definition ex_root : string := "/var/lib/mitos".
Definition ex_dir : string := "/var/lib/mitos/templates/py".
Definition ex_key : bytes := String.list_ascii_of_string "k3y".

Lemma create_all_or_nothing_witness :
  mappers (after []) !! mapperName "py" = None /\
  wp undoable (Create ex_root "py" ex_key 4096 ex_dir)
    (fun r _ t' => created ex_root "py" ex_key ex_dir (after []) (after t') r) tt [].
Proof. split; [reflexivity|]. exact (create_all_or_nothing ex_root "py" ex_key 4096 ex_dir tt [] eq_refl). Defined.


(** The calls of a creation on a host where every call succeeds. *)
Definition ex_created : trace := (run obliging (Create ex_root "py" ex_key 4096 ex_dir) tt 0).2.

Lemma recreate_destroys_witness :
  mappers (after ex_created) !! mapperName "py" = Some (imgPath ex_root "py") /\
  wp undoable (Create ex_root "py" ex_key 4096 ex_dir) (fun r _ t' =>
    r = Err BadScope \/ r = Err EncDirFailed \/ r = Err AllocateFailed \/
    (r = Err FormatFailed \/ r = Err LuksOpenFailed) /\
    images (after t') !! imgPath ex_root "py" = None /\ mappers (after t') = mappers (after ex_created) /\
    mounts (after t') = mounts (after ex_created)) tt ex_created.
Proof.
  assert (mappers (after ex_created) !! mapperName "py" = Some (imgPath ex_root "py")) as H by (vm_compute; reflexivity).
  split; [exact H|]. exact (recreate_destroys ex_root "py" ex_key 4096 ex_dir _ tt ex_created H).
Defined.

Lemma key_only_on_stdin_witness :
  blind obliging /\
  let t := (run obliging (Create ex_root "py" ex_key 4096 ex_dir) tt 0).2 in
  let t' := (run obliging (Create ex_root "py" [] 4096 ex_dir) tt 0).2 in
  visible <$> t = visible <$> t'.
Proof.
  assert (blind obliging) as Hb by (intros argv s s' o; reflexivity). split; [exact Hb|].
  pose proof (key_only_on_stdin obliging ex_root "py" ex_key [] 4096 ex_dir tt 0 Hb) as [H _]. apply H.
Defined.

Lemma container_roundtrip_witness :
  validateScopeID "py" = true /\ mappers (after []) !! mapperName "py" = None /\
  wp willing
    (r1 ← Create ex_root "py" ex_key 4096 ex_dir; r2 ← Close "py" ex_dir; r3 ← Open ex_root "py" ex_key ex_dir; mret (r1, r2, r3))
    (fun '(r1, r2, r3) _ t' =>
       r1 = Ok tt /\ r2 = Ok tt /\ (r3 = Ok tt <-> ex_key = ex_key) /\
       images (after t') !! imgPath ex_root "py" = Some (Some (String.string_of_list_ascii ex_key)) /\
       (ex_key = ex_key -> mappers (after t') !! mapperName "py" = Some (imgPath ex_root "py") /\
                      mounts (after t') !! ex_dir = Some (device "py"))) tt [].
Proof.
  split; [reflexivity|]. split; [reflexivity|].
  exact (container_roundtrip ex_root "py" ex_key ex_key 4096 ex_dir ex_dir tt [] eq_refl eq_refl).
Defined.

(** Shred takes any failure of the status call for "no image": it reports
    success and leaves the container and its keyslots in place. *)
Definition stat_fails : env Z := fun c now =>
  match c return answer c * Z with CStat _ => (None, now) | c => obliging c now end.
Example shred_ignores_stat_errors :
  let '(r, _, _, t) := run stat_fails (Shred ex_root "py" ex_dir) tt 0 in
  r = Ok tt /\
  images (after (ex_created ++ t)) !! imgPath ex_root "py" = Some (Some (String.string_of_list_ascii ex_key)).
Proof. vm_compute. by split. Qed.

End ManagerExamples.
