(* ===== verification/Volume.v ===== *)
(** internal/volume: the backing files of per-fork volumes, and the part of the
    fork engine that prepares them (prepareForkVolumes and its helpers in
    internal/fork/engine.go).

    - [Backend]: the preparation strategies of backend.go and size.go.
    - [ForkVolumes]: the engine's dispatch on the fork policy, the drive rebinds
      and the guest's mount table.
    - [VolumeFacts]: a fork writes only its own backings, and what it can write
      it shares with nobody.
    - [VolumeExamples]: concrete runs. *)
From S2P Require Import Prelude GoLib GoFs Host Firecracker.
#[local] Open Scope go_scope.

Inductive vol_error :=
| VInvalidName
| VMkdir
| VCreate
| VClose
| VMkfs
| VReflink
| VCopy
| VCleanup
| VQuantity.

Module Backend.

(** namePattern is the pattern of VM ids. *)
Definition validateName (name : string) : res vol_error unit :=
  if Jail.validateVMID name then Ok tt else Err VInvalidName.

Definition ForkPolicyFresh : string := "Fresh".
Definition ForkPolicyShare : string := "Share".
Definition ForkPolicyClone : string := "Clone".
Definition ForkPolicySnapshot : string := "Snapshot".

Record Spec := mkSpec {
  Name : string; SizeMB : Z; MountPath : string; ReadOnly : bool; Policy : string }.
Record Prepared := mkPrepared {
  p_Name : string; HostPath : string; p_MountPath : string; p_ReadOnly : bool }.

(** size.go *)
Definition DefaultSizeMB : Z := 1024.
Definition bytesPerMB : Z := 1024 * 1024.
Definition ParseSizeMB (parse_quantity : string -> option Z) (s : string) : res vol_error Z :=
  if String.eqb s EmptyString then Ok DefaultSizeMB
  else match parse_quantity s with
       | None => Err VQuantity
       | Some bytes => Ok (Z.quot bytes bytesPerMB)
       end.

(** The backend is its root directory; its runner runs a command. *)
Section backend.
Context {G : Type} (root : string).

Definition runner (argv : list string) : prog G bool :=
  match argv with [] => mret false | _ => sys (CRun argv EmptyString) end.

Definition volumesDir (sandboxID : string) : string := Join [root; "sandboxes"; sandboxID; "volumes"].
Definition volumePath (sandboxID name : string) : string := Join [volumesDir sandboxID; name +:+ ".ext4"].
Definition VolumePath : string -> string -> string := volumePath.
Definition TemplateVolumePath (templateID name : string) : string :=
  Join [root; "templates"; templateID; "volumes"; name +:+ ".ext4"].

Definition size_arg (spec : Spec) : string := format_d (SizeMB spec) +:+ "M".

Definition FreshTemplate (spec : Spec) (templateID : string) : prog G (res vol_error string) :=
  must _ := mret (validateName (Name spec)) in
  let dst := TemplateVolumePath templateID (Name spec) in
  must _ := check VMkdir (sys (CMkdirAll (Dir dst))) in
  must _ := check VCreate (sys (CCreate dst)) in
  must _ := check VClose (sys (CClose dst)) in
  must _ := check VMkfs (runner ["mkfs.ext4"; "-F"; "-q"; dst; size_arg spec]) in
  mret (Ok dst).

Definition Fresh (spec : Spec) (sandboxID : string) : prog G (res vol_error Prepared) :=
  must _ := mret (validateName (Name spec)) in
  let dst := volumePath sandboxID (Name spec) in
  must _ := check VMkdir (sys (CMkdirAll (Dir dst))) in
  must _ := check VCreate (sys (CCreate dst)) in
  must _ := check VClose (sys (CClose dst)) in
  must _ := check VMkfs (runner ["mkfs.ext4"; "-F"; "-q"; dst; size_arg spec]) in
  mret (Ok (mkPrepared (Name spec) dst (MountPath spec) (ReadOnly spec))).

Definition ReflinkCopy (src dst : string) : prog G (res vol_error unit) :=
  must _ := check VMkdir (sys (CMkdirAll (Dir dst))) in
  cloned ← runner ["cp"; "--reflink=always"; src; dst];
  if cloned : bool then mret (Ok tt)
  else check VReflink (runner ["cp"; "--reflink=auto"; src; dst]).

Definition Snapshot (spec : Spec) (sandboxID sourcePath : string) : prog G (res vol_error Prepared) :=
  must _ := mret (validateName (Name spec)) in
  let dst := volumePath sandboxID (Name spec) in
  must _ := ReflinkCopy sourcePath dst in
  mret (Ok (mkPrepared (Name spec) dst (MountPath spec) (ReadOnly spec))).

Definition Share (spec : Spec) (sourcePath : string) : prog G (res vol_error Prepared) :=
  must _ := mret (validateName (Name spec)) in
  mret (Ok (mkPrepared (Name spec) sourcePath (MountPath spec) true)).

Definition Clone (spec : Spec) (sandboxID sourcePath : string) : prog G (res vol_error Prepared) :=
  must _ := mret (validateName (Name spec)) in
  let dst := volumePath sandboxID (Name spec) in
  must _ := check VMkdir (sys (CMkdirAll (Dir dst))) in
  must _ := check VCopy (runner ["cp"; sourcePath; dst]) in
  mret (Ok (mkPrepared (Name spec) dst (MountPath spec) (ReadOnly spec))).

Definition Cleanup (sandboxID : string) : prog G (res vol_error unit) :=
  check VCleanup (sys (CRemoveAll (volumesDir sandboxID))).

End backend.

End Backend.

Module ForkVolumes.
Import Backend.

(** engine.go driveRebind *)
Record driveRebind := mkDriveRebind { rb_DriveID : string; rb_PathOnHost : string }.


(** The UTF-8 form of a rune, as fmt prints it with %c. *)
Definition rune_string (r : Z) : string :=
  let byte z s := String (z_byte z) s in
  let invalid := byte 239 (byte 191 (byte 189 EmptyString)) in
  if (r <? 0) || (1114111 <? r) || ((55296 <=? r) && (r <=? 57343)) then invalid
  else if r <? 128 then byte r EmptyString
  else if r <? 2048 then byte (192 + r / 64) (byte (128 + r mod 64) EmptyString)
  else if r <? 65536 then
    byte (224 + r / 4096) (byte (128 + r / 64 mod 64) (byte (128 + r mod 64) EmptyString))
  else byte (240 + r / 262144) (byte (128 + r / 4096 mod 64)
         (byte (128 + r / 64 mod 64) (byte (128 + r mod 64) EmptyString))).

Definition volumeDeviceName (i : nat) : string := "/dev/vd" +:+ rune_string (98 + Z.of_nat i).

Definition volumeMountTable (prepared : list Prepared) : list VolumeMountEntry :=
  imap (fun i p => mkVolumeMountEntry (volumeDeviceName i) (p_MountPath p) (p_ReadOnly p)) prepared.

Definition driveReadOnly (spec : Spec) : bool :=
  ReadOnly spec || String.eqb (Policy spec) ForkPolicyShare.

Section volumes.
Context {G : Type} (root : string).

(** prepareForkVolume: an unset or unknown policy is Fresh. *)
Definition prepareForkVolume (templateID sandboxID : string) (spec : Spec)
  : prog G (res vol_error Prepared) :=
  let seed := TemplateVolumePath root templateID (Name spec) in
  if String.eqb (Policy spec) ForkPolicyFresh then Fresh root spec sandboxID
  else if String.eqb (Policy spec) ForkPolicySnapshot then Snapshot root spec sandboxID seed
  else if String.eqb (Policy spec) ForkPolicyShare then Share spec seed
  else if String.eqb (Policy spec) ForkPolicyClone then Clone root spec sandboxID seed
  else Fresh root spec sandboxID.

(** The loop of prepareForkVolumes; the first failure rolls the backings back. *)
Fixpoint prepare_all (templateID sandboxID : string) (specs : list Spec)
    (rebinds : list driveRebind) (prepared : list Prepared)
  : prog G (res vol_error (list driveRebind * list Prepared)) :=
  match specs with
  | [] => mret (Ok (rebinds, prepared))
  | spec :: specs =>
      r ← prepareForkVolume templateID sandboxID spec;
      match r with
      | Err e => _ ← Cleanup root sandboxID; mret (Err e)
      | Ok p => prepare_all templateID sandboxID specs
                  (rebinds ++ [mkDriveRebind (Name spec) (HostPath p)]) (prepared ++ [p])
      end
  end.

Definition prepareForkVolumes (enabled : bool) (templateID sandboxID : string) (specs : list Spec)
  : prog G (res vol_error (list driveRebind * list Prepared)) :=
  if negb enabled || (length specs =? 0)%nat then mret (Ok ([], []))
  else prepare_all templateID sandboxID specs [] [].

End volumes.

End ForkVolumes.

Module VolumeFacts.
Import Backend ForkVolumes JailFacts.

(** The file a volume command formats or copies to. *)
Definition cmd_target (argv : list string) : option string :=
  match argv with
  | ["mkfs.ext4"; _; _; dst; _] => Some dst
  | ["cp"; _; _; dst] => Some dst
  | ["cp"; _; dst] => Some dst
  | _ => None
  end.

(** The file a call writes, creates or removes. *)
Definition target (c : call) : option string :=
  match c with CRun argv _ => cmd_target argv | _ => written c end.

Lemma plain_ext4 name : plain name -> plain (name +:+ ".ext4").
Proof.
  intros (H1 & _ & _ & Hs). destruct name as [|c name]; [done|].
  split; [done|]. split; [|split].
  - intros [= _ H]. destruct name; discriminate.
  - intros [= _ H]. destruct name as [|d name]; [discriminate|]. injection H as _ H. destruct name; discriminate.
  - rewrite contains_byte_app, Hs. done.
Qed.

Lemma split_ext4 name : plain name -> Forall downward (concat (map (split_byte slash) [name +:+ ".ext4"])).
Proof. intros Hn. cbn [map concat]. rewrite app_nil_r. by apply downward_plain, plain_ext4. Qed.

Section fork.
Context (root sandboxID : string) (Hroot : is_abs root = true) (Hid : plain sandboxID).

(** The volume files of one sandbox. *)
Definition own (d : string) : Prop :=
  exists rest, clean_elems d = clean_elems root ++ "sandboxes" :: sandboxID :: "volumes" :: rest.

Lemma volumesDir_elems :
  volumesDir root sandboxID = abs_of (clean_elems root ++ ["sandboxes"; sandboxID; "volumes"]).
Proof using Hroot Hid.
  unfold volumesDir. rewrite Join_below; [|done|].
  - by rewrite (below_cons "sandboxes"), (below_cons sandboxID), !below_one_plain.
  - cbn [map concat]. rewrite (split_byte_single _ sandboxID) by apply Hid. cbn.
    constructor; [by right|]. constructor; [by right|]. constructor; [by right|constructor].
Qed.

Lemma own_plain rest :
  Forall plain rest -> Forall plain (clean_elems root ++ "sandboxes" :: sandboxID :: "volumes" :: rest).
Proof using Hroot Hid.
  intros Hr. apply Forall_app. split; [by apply clean_elems_rooted|].
  constructor; [done|]. constructor; [done|]. by constructor.
Qed.

Lemma volumePath_elems name :
  plain name ->
  volumePath root sandboxID name =
    abs_of ((clean_elems root ++ "sandboxes" :: sandboxID :: "volumes" :: []) ++ [name +:+ ".ext4"]).
Proof using Hroot Hid.
  intros Hn. unfold volumePath. rewrite volumesDir_elems, Join_below; [|done|by apply split_ext4].
  rewrite clean_elems_abs_of by (by apply own_plain). by rewrite below_one_plain by (by apply plain_ext4).
Qed.

Lemma volumesDir_own : own (volumesDir root sandboxID).
Proof using Hroot Hid.
  exists []. rewrite volumesDir_elems. by apply clean_elems_abs_of, own_plain.
Qed.

Lemma volumePath_own name :
  plain name -> own (volumePath root sandboxID name) /\ own (Dir (volumePath root sandboxID name)).
Proof using Hroot Hid.
  intros Hn. rewrite volumePath_elems by done. split.
  - exists [name +:+ ".ext4"]. rewrite clean_elems_abs_of; [by rewrite <-app_assoc|].
    rewrite <-app_assoc. apply own_plain. constructor; [by apply plain_ext4|constructor].
  - exists []. rewrite Dir_abs_of; [by apply clean_elems_abs_of, own_plain|by apply own_plain|by apply plain_ext4].
Qed.

Definition within_own (c : call) : Prop :=
  match target c with Some d => own d | None => True end.

(** A prepared volume: the fork's own backing, or the shared seed read-only. *)
Definition isolated (templateID : string) (spec : Spec) (p : Prepared) : Prop :=
  p_Name p = Name spec /\ p_MountPath p = MountPath spec /\
  (HostPath p = volumePath root sandboxID (Name spec) /\ own (HostPath p) /\ p_ReadOnly p = ReadOnly spec \/
   Policy spec = ForkPolicyShare /\ HostPath p = TemplateVolumePath root templateID (Name spec) /\
   p_ReadOnly p = true /\ driveReadOnly spec = true).

Section run.
Context {G : Type}.

Definition prepared_ok (templateID : string) (spec : Spec) (r : res vol_error Prepared)
    (_ : G) (t : trace) : Prop :=
  Forall (fun e => within_own (ev_call e)) t /\
  match r with Ok p => isolated templateID spec p | Err _ => True end.

Lemma own_prog (p : prog G (res vol_error Prepared)) templateID spec g t :
  calls_in within_own p -> Forall (fun e => within_own (ev_call e)) t ->
  wp anything p (fun r _ _ => match r with Ok p => isolated templateID spec p | Err _ => True end) g t ->
  wp anything p (prepared_ok templateID spec) g t.
Proof.
  intros Hc Ht Hp. eapply wp_mono; [apply wp_and; [by apply wp_calls|exact Hp]|].
  intros r g' t' [(ext & -> & Hext) Hr]. split; [by apply Forall_app|exact Hr].
Qed.

(** Steps that do not decide the result. *)
Lemma wp_any {A} (p : prog G A) (Q : A -> G -> trace -> Prop) g t :
  (forall a g' t', Q a g' t') -> wp anything p Q g t.
Proof.
  intros HQ. revert g t. induction p as [a|X f k IH|c k IH]; cbn; intros g t; auto.
Qed.

Lemma wp_try_any {A B} (p : prog G (res vol_error A)) (k : A -> prog G (res vol_error B)) (P : B -> Prop) g t :
  (forall a g' t', wp anything (k a) (fun r _ _ => match r with Ok b => P b | Err _ => True end) g' t') ->
  wp anything (prog_try p k) (fun r _ _ => match r with Ok b => P b | Err _ => True end) g t.
Proof. intros Hk. apply wp_try, wp_any. intros [a|e] g' t'; [apply Hk|done]. Qed.

Lemma runner_calls (argv : list string) :
  within_own (CRun argv EmptyString) -> calls_in within_own (runner (G := G) argv).
Proof. intros H. unfold runner. destruct argv; [done|by apply calls_sys]. Qed.

Lemma prepareForkVolume_ok templateID spec (g : G) t :
  Forall (fun e => within_own (ev_call e)) t ->
  wp anything (prepareForkVolume root templateID sandboxID spec) (prepared_ok templateID spec) g t.
Proof using Hroot Hid.
  intros Ht. unfold prepareForkVolume. cbv zeta.
  assert (forall A (p : prog G (res vol_error A)) Q,
    (Jail.validateVMID (Name spec) = true -> wp anything p Q g t) -> (forall e, Q (Err e) g t) ->
    wp anything (must _ := mret (validateName (Name spec)) in p) Q g t) as Hname.
  { intros A p Q Hp HQ. apply wp_try, wp_ret. unfold validateName.
    destruct (Jail.validateVMID (Name spec)); [by apply Hp|apply HQ]. }
  assert (wp anything (Fresh root spec sandboxID) (prepared_ok templateID spec) g t) as HFresh.
  { apply Hname; [|done]. intros Hv%validateVMID_plain.
    destruct (volumePath_own (Name spec) Hv) as [Ho Hd]. cbv zeta. apply own_prog; [|done|].
    - walk; first [done | by apply runner_calls].
    - do 4 (apply wp_try_any; intros _ ? ?). apply wp_ret. split; [done|]. split; [done|]. by left. }
  destruct (String.eqb _ _); [exact HFresh|].
  destruct (String.eqb _ _).
  { apply Hname; [|done]. intros Hv%validateVMID_plain.
    destruct (volumePath_own (Name spec) Hv) as [Ho Hd]. cbv zeta. apply own_prog; [|done|].
    - unfold ReflinkCopy. walk; first [done | by apply runner_calls].
    - apply wp_try_any. intros _ ? ?. apply wp_ret. split; [done|]. split; [done|]. by left. }
  destruct (String.eqb_spec (Policy spec) ForkPolicyShare) as [Hshare|].
  { apply Hname; [|done]. intros Hv%validateVMID_plain. apply wp_ret. split; [done|].
    split; [done|]. split; [done|]. right. split; [done|]. split; [done|]. split; [done|].
    unfold driveReadOnly. rewrite Hshare. apply orb_true_r. }
  destruct (String.eqb _ _); [|exact HFresh].
  apply Hname; [|done]. intros Hv%validateVMID_plain.
  destruct (volumePath_own (Name spec) Hv) as [Ho Hd]. cbv zeta. apply own_prog; [|done|].
  - walk; first [done | by apply runner_calls].
  - do 2 (apply wp_try_any; intros _ ? ?). apply wp_ret. split; [done|]. split; [done|]. by left.
Qed.

(** What the whole preparation leaves: own files only, and one isolated volume
    and rebind per spec, or a rollback as the last thing done. *)
Definition all_prepared (templateID : string) (specs : list Spec) (t : trace)
    (r : res vol_error (list driveRebind * list Prepared)) : Prop :=
  match r with
  | Ok (rebinds, prepared) =>
      Forall2 (isolated templateID) specs prepared /\
      rebinds = zip_with (fun s p => mkDriveRebind (Name s) (HostPath p)) specs prepared
  | Err _ => exists t0 ok, t = t0 ++ [Ev (CRemoveAll (volumesDir root sandboxID)) ok]
  end.

Lemma prepare_all_ok templateID done_ specs prepared (g : G) t :
  Forall (fun e => within_own (ev_call e)) t -> Forall2 (isolated templateID) done_ prepared ->
  wp anything (prepare_all root templateID sandboxID specs
      (zip_with (fun s p => mkDriveRebind (Name s) (HostPath p)) done_ prepared) prepared)
    (fun r _ t' => Forall (fun e => within_own (ev_call e)) t' /\ all_prepared templateID (done_ ++ specs) t' r) g t.
Proof using Hroot Hid.
  revert done_ prepared g t. induction specs as [|spec specs IH]; intros done_ prepared g t Ht Hd; cbn [prepare_all].
  - apply wp_ret. by rewrite app_nil_r.
  - apply wp_bind. eapply wp_mono; [by apply prepareForkVolume_ok|].
    intros [p|e] g1 t1 [Ht1 Hp].
    + assert (length done_ = length prepared) as Hlen by (by eapply Forall2_length).
      replace (zip_with (fun s p => mkDriveRebind (Name s) (HostPath p)) done_ prepared
                 ++ [mkDriveRebind (Name spec) (HostPath p)])
        with (zip_with (fun s p => mkDriveRebind (Name s) (HostPath p)) (done_ ++ [spec]) (prepared ++ [p]))
        by (by rewrite zip_with_app).
      replace (done_ ++ spec :: specs) with ((done_ ++ [spec]) ++ specs) by (by rewrite <-app_assoc).
      apply IH; [done|]. apply Forall2_app; [done|]. by apply Forall2_cons.
    + apply wp_bind, wp_check, wp_sys. intros ok _. apply wp_ret. split; [|by exists t1, ok].
      apply Forall_app. split; [done|]. constructor; [apply volumesDir_own; done|constructor].
Qed.

End run.
End fork.

(** The volume files of two sandboxes are disjoint. *)
Lemma own_unique root id id' d : own root id d -> own root id' d -> id = id'.
Proof. intros [r Hr] [r' Hr']. rewrite Hr in Hr'. by apply (inj (_ ++.)) in Hr' as [= -> _]. Qed.

Lemma prepareForkVolumes_ok {G} root templateID sandboxID enabled specs (g : G) :
  is_abs root = true -> Jail.validateVMID sandboxID = true ->
  wp anything (prepareForkVolumes root enabled templateID sandboxID specs)
    (fun r _ t => Forall (fun e => within_own root sandboxID (ev_call e)) t /\
       all_prepared root sandboxID templateID (if enabled then specs else []) t r) g [].
Proof.
  intros Hroot Hid%validateVMID_plain. unfold prepareForkVolumes. destruct enabled; cbn [negb orb]; [|by apply wp_ret].
  destruct specs as [|s specs]; [by apply wp_ret|]. cbn [length Nat.eqb].
  apply (prepare_all_ok root sandboxID Hroot Hid templateID [] (s :: specs) []); constructor.
Qed.

(** C34. Preparing a fork's volumes, whatever the host answers: every file created,
    formatted, copied to or removed belongs to that fork and to no other; on
    success each volume, in the order of the specs, is backed either by the
    fork's own file or, for the Share policy only, by the template seed, and
    then it is read-only both in the guest's mount table and as the drive baked
    into the template; on failure the fork's backings are removed last. *)
Theorem fork_volumes_isolated {G O} (h : env O) (root templateID sandboxID : string) (enabled : bool)
    (specs : list Spec) (g : G) (o : O) :
  is_abs root = true -> Jail.validateVMID sandboxID = true ->
  let '(r, _, _, t) := run h (prepareForkVolumes root enabled templateID sandboxID specs) g o in
  (forall e d, e ∈ t -> target (ev_call e) = Some d ->
     own root sandboxID d /\ forall id', id' <> sandboxID -> ~ own root id' d) /\
  match r with
  | Ok (rebinds, prepared) =>
      let used := if enabled then specs else [] in
      Forall2 (isolated root sandboxID templateID) used prepared /\
      map rb_PathOnHost rebinds = map HostPath prepared /\ map rb_DriveID rebinds = map Name used
  | Err _ => exists t0 ok, t = t0 ++ [Ev (CRemoveAll (volumesDir root sandboxID)) ok]
  end.
Proof.
  intros Hroot Hid. pose proof (prepareForkVolumes_ok root templateID sandboxID enabled specs g Hroot Hid) as Hwp.
  apply validateVMID_plain in Hid.
  pose proof (wp_run h _ _ g o [] Hwp) as Hr. cbn [app] in Hr.
  destruct (run h _ g o) as [[[r g'] o'] t]. destruct Hr as [Hin Hr]. split.
  - intros e d He Hd. rewrite list.Forall_forall in Hin. specialize (Hin e He).
    unfold within_own in Hin. rewrite Hd in Hin. split; [done|].
    intros id' Hne Hin'. apply Hne. by eapply own_unique.
  - destruct r as [[rebinds prepared]|e]; [|exact Hr]. destruct Hr as [Hf ->]. split; [done|].
    clear -Hf. induction Hf as [|s p ss ps Hsp _ [IH1 IH2]]; [done|]. cbn. by rewrite IH1, IH2.
Qed.

End VolumeFacts.

Module VolumeExamples.
Import Backend ForkVolumes VolumeFacts FcExamples.

Definition ex_specs : list Spec :=
  [mkSpec "data" 64 "/data" false ForkPolicySnapshot; mkSpec "models" 1024 "/models" false ForkPolicyShare].
Definition ex_root : string := "/var/lib/mitos".

Lemma fork_volumes_isolated_witness :
  is_ok (run (G := unit) obliging (prepareForkVolumes ex_root true "py" "sb1" ex_specs) tt 0).1.1.1 = true /\
  let '(r, _, _, t) := run (G := unit) obliging (prepareForkVolumes ex_root true "py" "sb1" ex_specs) tt 0 in
  (forall e d, e ∈ t -> target (ev_call e) = Some d ->
     own ex_root "sb1" d /\ forall id', id' <> "sb1" -> ~ own ex_root id' d) /\
  match r with
  | Ok (rebinds, prepared) =>
      Forall2 (isolated ex_root "sb1" "py") ex_specs prepared /\
      map rb_PathOnHost rebinds = map HostPath prepared /\ map rb_DriveID rebinds = map Name ex_specs
  | Err _ => exists t0 ok, t = t0 ++ [Ev (CRemoveAll (volumesDir ex_root "sb1")) ok]
  end.
Proof.
  split; [vm_compute; reflexivity|].
  exact (fork_volumes_isolated obliging ex_root "py" "sb1" true ex_specs tt 0 eq_refl eq_refl).
Defined.

End VolumeExamples.
