(* ===== verification/Verify.v ===== *)
(** Snapshot integrity and compatibility on a node: internal/fork/verify.go,
    the verification, compatibility and pull parts of internal/fork/engine.go,
    and internal/snapcompat.

    - [Snapcompat]: the compatibility check and the detection of the host
      environment.
    - [Verify]: recording, re-deriving and checking a template's digest, the
      gates a fork passes, and pulling a template from a peer.
    - [VerifyGate]: what passing the gates means.
    - [PullFacts]: a pull is all or nothing.
    - [VerifyExamples]: concrete instances. *)
From S2P Require Import Prelude GoLib GoFs GoJson Sha256 Cas.
Import Chunk Manifest Store StoreFacts Transfer Evict.

(** ** Snapshot compatibility *)

Module Snapcompat.

Record Environment := mkEnvironment {
  FormatVersions : list Z; env_VMMVersion : string; env_CPUModel : string; env_KernelVersion : string }.

Inductive incompatible := FormatMismatch | VMMMismatch | CPUMismatch.

Definition containsInt (xs : list Z) (v : Z) : bool := existsb (Z.eqb v) xs.

Definition Check (m : Manifest) (env : Environment) : res incompatible unit :=
  if negb (containsInt (FormatVersions env) (SnapshotFormatVersion m)) then Err FormatMismatch
  else if negb (String.eqb (VMMVersion m) (env_VMMVersion env)) then Err VMMMismatch
  else if negb (String.eqb (CPUModel m) (env_CPUModel env)) then Err CPUMismatch
  else Ok tt.

Definition ConfigHash (vcpus memMiB : Z) (kernelIdentity rootfsIdentity : string) : string :=
  digestBytes (String.list_ascii_of_string
    ("vcpus=" +:+ format_d vcpus +:+ nl +:+ "mem_mib=" +:+ format_d memMiB +:+ nl
     +:+ "kernel=" +:+ kernelIdentity +:+ nl +:+ "rootfs=" +:+ rootfsIdentity +:+ nl)).

Section detect.
Variable trim_other : string -> string.
Variable fields_other : string -> list string.

Definition version_token (t : string) : bool :=
  match t with
  | EmptyString => false
  | String c r =>
      is_digit c || ((Ascii.eqb c "v" || Ascii.eqb c "V")
                     && match r with String d _ => is_digit d | EmptyString => false end)
  end.

Definition parseFirecrackerVersion (out : string) : string :=
  default EmptyString
    (List.find version_token
       (concat (map (fun line => map (TrimSpace trim_other) (Fields fields_other line)) (split_byte newline out)))).

Definition model_name (line : string) : option string :=
  match cut_byte ":" line with
  | Some (key, val) =>
      if String.eqb (TrimSpace trim_other key) "model name" then Some (TrimSpace trim_other val) else None
  | None => None
  end.
Definition parseCPUModel (info : string) : string :=
  default EmptyString (head (omap model_name (scan_lines info))).

Inductive detect_error := NoVersion | BadVersion | NoCPUInfo | NoCPUModel | NoUname | NoKernel.

Definition DetectEnvironment (firecrackerPath : string) (runner : list string -> option string)
    (cpuinfo : option string) : res detect_error Environment :=
  match runner [firecrackerPath; "--version"] with
  | None => Err NoVersion
  | Some verOut =>
      let vmm := parseFirecrackerVersion verOut in
      if String.eqb vmm EmptyString then Err BadVersion
      else match cpuinfo with
      | None => Err NoCPUInfo
      | Some info =>
          let cpu := parseCPUModel info in
          if String.eqb cpu EmptyString then Err NoCPUModel
          else match runner ["uname"; "-r"] with
          | None => Err NoUname
          | Some unameOut =>
              let kernel := TrimSpace trim_other unameOut in
              if String.eqb kernel EmptyString then Err NoKernel
              else Ok (mkEnvironment [CurrentSnapshotFormatVersion] vmm cpu kernel)
          end
      end
  end.
End detect.

End Snapcompat.

(** ** Verification of template snapshots *)

Module Verify.
Import Snapcompat.

Definition manifestDigestFile : string := "manifest.digest".
Definition verifiedMarker : string := "verified".

Definition templateDir (dataDir id : string) : string := Join [dataDir; "templates"; id].

Definition templateSnapshotFiles (fs : fs_t) (dataDir id : string) : gmap string string :=
  let dir := templateDir dataDir id in
  let files := <["mem" := Join [dir; "snapshot"; "mem"]]> (<["vmstate" := Join [dir; "snapshot"; "vmstate"]]> ∅) in
  let rootfs := Join [dir; "rootfs.ext4"] in
  if stat fs rootfs then <["rootfs" := rootfs]> files else files.

Inductive path_error := UnexpectedFile | EscapesTemplate | EscapesVolumes.

(** The destination of [rel], checked to stay inside the template. *)
Definition place_in (dir name rel : string) : res path_error string :=
  let dst := Join [dir; rel] in
  let cleanDir := Clean dir in
  if negb (String.eqb dst cleanDir) && negb (has_prefix (cleanDir +:+ "/") dst) then Err EscapesTemplate
  else if has_prefix "volumes/" name && negb (has_prefix (Join [cleanDir; "volumes"] +:+ "/") dst)
  then Err EscapesVolumes
  else Ok dst.

Definition templateFilePath (dir name : string) : res path_error string :=
  if String.eqb name "mem" || String.eqb name "vmstate" then place_in dir name (Join ["snapshot"; name])
  else if String.eqb name "rootfs" then place_in dir name "rootfs.ext4"
  else if negb (has_prefix "volumes/" name) || negb (has_suffix ".ext4" name) then Err UnexpectedFile
  else place_in dir name name.

(** The engine's template state: the data directory's files, the CAS store, the
    digests it reports and the templates it has warned about. *)
Record tstate := mkTstate {
  t_fs : fs_t; casStore : Store; templateDigests : gmap string string;
  unverifiedWarned : gset string; incompatibleWarned : gset string }.

Definition with_fs (fs : fs_t) (st : tstate) : tstate :=
  mkTstate fs (casStore st) (templateDigests st) (unverifiedWarned st) (incompatibleWarned st).
Definition with_store (s : Store) (st : tstate) : tstate :=
  mkTstate (t_fs st) s (templateDigests st) (unverifiedWarned st) (incompatibleWarned st).
Definition with_digests (ds : gmap string string) (st : tstate) : tstate :=
  mkTstate (t_fs st) (casStore st) ds (unverifiedWarned st) (incompatibleWarned st).

(** The immutable engine fields these operations read. *)
Record config := mkConfig {
  dataDir : string; kernelPath : string; environment : Environment;
  allowUnverified : bool; allowIncompatible : bool }.

Inductive verify_err :=
| ContentAddress (e : cas_error)
| PinFailed (e : cas_error)
| WriteDigest
| WriteMarker
| NoDigest
| Unreadable (path : string)
| DigestMismatch (want got : string)
| Refused (e : verify_err)
| Incompatible (e : incompatible)
| BadPullDigest
| PullFailed (e : pull_error)
| NoManifest (e : cas_error)
| BadPlace (e : path_error)
| MaterializeFailed (e : cas_error).

Section verify.
(** Host behaviour: see Cas.v for the store's; [file_ok] says which os.WriteFile
    calls succeed, [remove_ok] which os.RemoveAll calls do. *)
Variable unmarshal_other : string -> option Manifest.
Variables write_ok create_ok sync_ok file_ok remove_ok : string -> bool.
Variable trim_other : string -> string.
Variable now : Z.
Variable cfg : config.

(** manifestMetadata for the engine's kernel and environment. *)
Definition manifestMetadata (vcpus memMiB : Z) : Metadata :=
  MkMeta CurrentSnapshotFormatVersion (env_VMMVersion (environment cfg)) (env_CPUModel (environment cfg))
    (env_KernelVersion (environment cfg)) (Snapcompat.ConfigHash vcpus memMiB (kernelPath cfg) EmptyString) 0.

(** os.WriteFile *)
Definition WriteFile (fs : fs_t) (path : string) (data : bytes) : fs_t * bool :=
  if file_ok path then (write_file fs path data, true) else (fs, false).

Definition writeDigestFile (fs : fs_t) (id d : string) : fs_t * bool :=
  WriteFile fs (Join [templateDir (dataDir cfg) id; manifestDigestFile]) (String.list_ascii_of_string d).
Definition readDigestFile (fs : fs_t) (id : string) : option string :=
  data ← read_file fs (Join [templateDir (dataDir cfg) id; manifestDigestFile]);
  Some (TrimSpace trim_other (String.string_of_list_ascii data)).
Definition writeVerifiedMarker (fs : fs_t) (id : string) : fs_t * bool :=
  WriteFile fs (Join [templateDir (dataDir cfg) id; verifiedMarker]) [].
Definition isVerified (fs : fs_t) (id : string) : bool :=
  stat fs (Join [templateDir (dataDir cfg) id; verifiedMarker]).

Definition recordTemplateDigest (st : tstate) (id : string) (meta : Metadata) : tstate * res verify_err string :=
  let files := templateSnapshotFiles (t_fs st) (dataDir cfg) id in
  let '(s1, r) := PutSnapshot write_ok now (t_fs st) (casStore st) files meta in
  let st := with_store s1 st in
  match r with
  | Err e => (st, Err (ContentAddress e))
  | Ok m =>
      let d := manifest_digest m in
      let '(s2, r) := Pin write_ok s1 d in
      let st := with_store s2 st in
      match r with
      | Err e => (st, Err (PinFailed e))
      | Ok _ =>
          let '(fs1, ok) := writeDigestFile (t_fs st) id d in
          let st := with_fs fs1 st in
          if negb ok then (st, Err WriteDigest)
          else let '(fs2, ok) := writeVerifiedMarker fs1 id in
               let st := with_fs fs2 st in
               if negb ok then (st, Err WriteMarker) else (st, Ok d)
      end
  end.

Definition verifyTemplate (st : tstate) (id : string) (meta : Metadata) : tstate * res verify_err string :=
  match readDigestFile (t_fs st) id with
  | None => (st, Err NoDigest)
  | Some want =>
      match BuildManifest (t_fs st) (templateSnapshotFiles (t_fs st) (dataDir cfg) id) meta with
      | Err path => (st, Err (Unreadable path))
      | Ok m =>
          let got := manifest_digest m in
          if negb (String.eqb got want) then (st, Err (DigestMismatch want got))
          else let '(fs1, ok) := writeVerifiedMarker (t_fs st) id in
               let st := with_fs fs1 st in
               if negb ok then (st, Err WriteMarker) else (st, Ok want)
      end
  end.

(** The metadata every check uses: that of firecracker.DefaultVMConfig. *)
Definition default_meta : Metadata := manifestMetadata 1 512.

Definition VerifyTemplate (st : tstate) (id : string) : tstate * res verify_err unit :=
  let '(st1, r) := verifyTemplate st id default_meta in
  match r with
  | Err e => (st1, Err e)
  | Ok d => (with_digests (<[id := d]> (templateDigests st1)) st1, Ok tt)
  end.

Definition warnUnverifiedOnce (id : string) (st : tstate) : tstate :=
  mkTstate (t_fs st) (casStore st) (templateDigests st) ({[id]} ∪ unverifiedWarned st) (incompatibleWarned st).
Definition warnIncompatibleOnce (id : string) (st : tstate) : tstate :=
  mkTstate (t_fs st) (casStore st) (templateDigests st) (unverifiedWarned st) ({[id]} ∪ incompatibleWarned st).

Definition ensureVerified (st : tstate) (snapshotID : string) : tstate * res verify_err unit :=
  if isVerified (t_fs st) snapshotID then (st, Ok tt)
  else let '(st1, r) := VerifyTemplate st snapshotID in
       match r with
       | Ok _ => (st1, Ok tt)
       | Err e =>
           if allowUnverified cfg then (warnUnverifiedOnce snapshotID st1, Ok tt)
           else (st1, Err (Refused e))
       end.

Definition ensureCompatible (st : tstate) (snapshotID : string) : tstate * res verify_err unit :=
  match readDigestFile (t_fs st) snapshotID with
  | None => (st, Ok tt)
  | Some d =>
      match GetManifest unmarshal_other (casStore st) d with
      | Err _ => (st, Ok tt)
      | Ok m =>
          match Check m (environment cfg) with
          | Ok _ => (st, Ok tt)
          | Err c =>
              if allowIncompatible cfg then (warnIncompatibleOnce snapshotID st, Ok tt)
              else (st, Err (Incompatible c))
          end
      end
  end.

(** ** Pulling a template from a peer *)

Fixpoint place_files (st : tstate) (id d : string) (fes : list FileEntry) : tstate * res verify_err unit :=
  match fes with
  | [] => (st, Ok tt)
  | fe :: fes =>
      match templateFilePath (templateDir (dataDir cfg) id) (Name fe) with
      | Err e => (st, Err (BadPlace e))
      | Ok dst =>
          let '(s1, fs1, r) :=
            MaterializeFileTo unmarshal_other create_ok sync_ok now (casStore st) (t_fs st) d (Name fe) dst in
          let st := with_fs fs1 (with_store s1 st) in
          match r with
          | Err e => (st, Err (MaterializeFailed e))
          | Ok _ => place_files st id d fes
          end
      end
  end.

Definition materializePulledTemplate (st : tstate) (id d : string) : tstate * res verify_err unit :=
  match GetManifest unmarshal_other (casStore st) d with
  | Err e => (st, Err (NoManifest e))
  | Ok m => place_files st id d (Files m)
  end.

Fixpoint trim_right_slashes (s : string) : string :=
  match s with
  | EmptyString => EmptyString
  | String c r =>
      match trim_right_slashes r with
      | EmptyString => if Ascii.eqb c slash then EmptyString else String c EmptyString
      | r' => String c r'
      end
  end.
Definition pull_base (sourceURL : string) : string := trim_suffix "/cas" (trim_right_slashes sourceURL).

(** PullTemplate after the digest was validated. *)
Definition pull_body (st : tstate) (id d : string) (remote : Transport) : tstate * res verify_err unit :=
  let '(s1, r) := Pull write_ok now (casStore st) remote d in
  let st := with_store s1 st in
  match r with
  | Err e => (st, Err (PullFailed e))
  | Ok _ =>
      let '(st, r) := materializePulledTemplate st id d in
      match r with
      | Err e => (st, Err e)
      | Ok _ =>
          let '(fs1, ok) := writeDigestFile (t_fs st) id d in
          let st := with_fs fs1 st in
          if negb ok then (st, Err WriteDigest)
          else
            let '(st, r) := verifyTemplate st id default_meta in
            match r with
            | Err e => (st, Err e)
            | Ok _ =>
                let '(st, r) := ensureCompatible st id in
                match r with
                | Err e => (st, Err e)
                | Ok _ => (with_digests (<[id := d]> (templateDigests st)) st, Ok tt)
                end
            end
      end
  end.

(** The deferred cleanup of a failed pull. *)
Definition drop_template (id : string) (st : tstate) : tstate :=
  let dir := templateDir (dataDir cfg) id in
  let fs := if remove_ok dir then remove_all (t_fs st) dir else t_fs st in
  with_digests (delete id (templateDigests st)) (with_fs fs st).

Definition PullTemplate (connect : string -> string -> Transport) (st : tstate)
    (id manifestDigest sourceURL token : string) : tstate * res verify_err unit :=
  if negb (Validate manifestDigest) then (st, Err BadPullDigest)
  else let '(st1, r) := pull_body st id manifestDigest (connect (pull_base sourceURL) token) in
       match r with
       | Ok _ => (st1, Ok tt)
       | Err e => (drop_template id st1, Err e)
       end.

End verify.

End Verify.

(** ** What passing the gates means *)

Module VerifyGate.
Import Snapcompat Verify.

Definition no_space (c : ascii) : bool := negb (is_space c).

Lemma trim_no_space other s :
  is_ascii s = true -> string_forallb no_space s = true -> TrimSpace other s = s.
Proof.
  intros Ha Hs. unfold TrimSpace. rewrite Ha.
  assert (trim_left s = s) as ->.
  { destruct s as [|c r]; [done|]. cbn in *. apply andb_true_iff in Hs as [Hc _].
    unfold no_space in Hc. by destruct (is_space c). }
  clear Ha. induction s as [|c r IH]; [done|]. cbn in *. apply andb_true_iff in Hs as [Hc Hr].
  rewrite IH by done. unfold no_space in Hc. destruct r; [|done]. by destruct (is_space c).
Qed.

Lemma digest_no_space b : string_forallb no_space (digestBytes b) = true.
Proof.
  pose proof (Validate_digest b) as H. unfold Validate in H. apply andb_true_iff in H as [_ H].
  eapply string_forallb_impl; [|exact H]. intros c. by destruct c as [[] [] [] [] [] [] [] []].
Qed.

Lemma string_list_ascii s : String.string_of_list_ascii (String.list_ascii_of_string s) = s.
Proof. apply String.string_of_list_ascii_of_string. Qed.

(** *** Snapshots with one digest are one snapshot *)

Lemma build_entries_spec fs files names fes :
  (forall name, name ∈ names -> is_Some (files !! name)) ->
  build_entries fs files names = Ok fes ->
  Forall2 (fun n fe => exists data, file_data fs files n = Some data /\ fe = entry_of n data) names fes.
Proof.
  revert fes. induction names as [|n names IH]; intros fes Hn H; cbn [build_entries] in H; [by simplify_eq; constructor|].
  destruct (Hn n ltac:(constructor)) as [path Hp]. rewrite Hp in H.
  change (default EmptyString (Some path)) with path in H.
  unfold chunkFile in H. destruct (read_file fs path) as [data|] eqn:Hd; [|done]. cbn in H.
  destruct (build_entries fs files names) as [rest|e] eqn:Eb; [|done]. cbn in H. simplify_eq.
  constructor; [|by apply IH; [intros; apply Hn; constructor|]].
  exists data. split; [unfold file_data; by rewrite Hp|done].
Qed.

(** What PutSnapshot records is what BuildManifest derives. *)
Lemma put_blocks_refs wok now bs s s' refs :
  put_blocks wok now s bs = (s', Ok refs) -> refs = map ref_of bs.
Proof.
  revert s s' refs. induction bs as [|b bs IH]; intros s s' refs H; cbn [put_blocks] in H; [by simplify_eq|].
  destruct (if negb _ then _ else _) as [s1 [u|e]]; [|by simplify_eq].
  destruct (put_blocks wok now s1 bs) as [s2 [r2|e]] eqn:E; cbn [res_bind] in H; [|by simplify_eq].
  apply IH in E as ->. by injection H as _ <-.
Qed.

Lemma put_files_entries wok now fs files names s s' fes :
  put_files wok now fs s files names = (s', Ok fes) -> build_entries fs files names = Ok fes.
Proof.
  revert s s' fes. induction names as [|n names IH]; intros s s' fes H; cbn [put_files] in H; [by simplify_eq|].
  cbn [build_entries]. unfold putFileChunks in H. unfold chunkFile.
  destruct (read_file fs (default EmptyString (files !! n))) as [data|] eqn:Hd; [|by simplify_eq].
  destruct (put_blocks wok now s (blocks_of data)) as [s1 [refs|e]] eqn:Eb; cbn [res_bind] in H; [|by simplify_eq].
  apply put_blocks_refs in Eb as ->.
  destruct (put_files wok now fs s1 files names) as [s2 [r2|e]] eqn:E; cbn [res_bind] in H; [|by simplify_eq].
  apply IH in E. rewrite E. cbn [mbind option_bind res_bind]. by injection H as _ <-.
Qed.

Lemma PutSnapshot_builds wok now fs s files meta s' m :
  PutSnapshot wok now fs s files meta = (s', Ok m) -> BuildManifest fs files meta = Ok m.
Proof.
  unfold PutSnapshot, BuildManifest. destruct (put_files _ _ _ _ _ _) as [s1 [fes|e]] eqn:E; [|done].
  apply put_files_entries in E as ->. cbn [res_bind]. unfold writeManifest.
  destruct (wok _); cbn [res_bind]; [|done]. by intros [= _ <-].
Qed.

(** The byte strings two snapshots hash: their blocks and their manifests. *)
Definition hashed (fs : fs_t) (files : gmap string string) (meta : Metadata) (b : bytes) : Prop :=
  (exists name data, file_data fs files name = Some data /\ b ∈ blocks_of data) \/
  (exists m, BuildManifest fs files meta = Ok m /\ b = Canonical m).

(** File sizes are Go int64 values and logical names are ASCII. *)
Definition sized (fs : fs_t) (files : gmap string string) : Prop :=
  forall n data, file_data fs files n = Some data -> is_ascii n = true /\ Z.of_nat (length data) < 2 ^ 63.

Lemma built_ok fs files meta m :
  meta_ok meta -> sized fs files -> BuildManifest fs files meta = Ok m ->
  manifest_ok m /\
  (forall fe, fe ∈ Files m -> exists n data, file_data fs files n = Some data /\ fe = entry_of n data) /\
  (forall n, is_Some (files !! n) -> exists data, file_data fs files n = Some data /\ entry_of n data ∈ Files m).
Proof.
  intros (? & ? & ? & ? & ? & ?) Hsz Hb. unfold BuildManifest in Hb.
  destruct (build_entries fs files (file_names files)) as [fes|e] eqn:Eb; [|done].
  cbn [res_bind] in Hb. injection Hb as <-.
  apply build_entries_spec in Eb; [|intros name; apply elem_file_names].
  assert (forall fe, fe ∈ fes -> exists n data, file_data fs files n = Some data /\ fe = entry_of n data) as Hfes.
  { intros fe Hin. destruct (Forall2_elem_r _ _ _ _ Eb Hin) as (n & _ & data & ? & ->). eauto. }
  split; [|split; [exact Hfes|]].
  - unfold manifest_ok, manifestFrom.
    cbn [Files CreatedUnix SnapshotFormatVersion VMMVersion CPUModel KernelVersion Manifest.ConfigHash].
    split_and!; [|done..]. apply list.Forall_forall. intros fe Hin.
    destruct (Hfes fe Hin) as (n & data & Hd & ->). apply entry_of_ok; by eapply Hsz.
  - intros n Hn%elem_file_names. destruct (Forall2_elem _ _ _ _ Eb Hn) as (fe & Hfe & data & Hd & ->).
    exists data. done.
Qed.

Lemma same_digest_same_files fs1 files1 fs2 files2 meta m1 m2 :
  meta_ok meta -> sized fs1 files1 -> sized fs2 files2 ->
  collision_free (fun b => hashed fs1 files1 meta b \/ hashed fs2 files2 meta b) ->
  BuildManifest fs1 files1 meta = Ok m1 -> BuildManifest fs2 files2 meta = Ok m2 ->
  manifest_digest m1 = manifest_digest m2 ->
  forall n data, file_data fs1 files1 n = Some data -> file_data fs2 files2 n = Some data.
Proof.
  intros Hmeta Hsz1 Hsz2 Hcf H1 H2 Hd n data Hn.
  destruct (built_ok _ _ _ _ Hmeta Hsz1 H1) as (Hok1 & _ & Hall1).
  destruct (built_ok _ _ _ _ Hmeta Hsz2 H2) as (Hok2 & Hes2 & _).
  assert (Canonical m1 = Canonical m2) as Hcan.
  { apply Hcf; [left; right; eauto|right; right; eauto|exact Hd]. }
  pose proof (Canonical_inj m1 m2 Hok1 Hok2 Hcan) as Hs.
  assert (Files m1 ≡ₚ Files m2) as Hp.
  { apply (f_equal Files) in Hs. cbn [sorted_manifest Files] in Hs.
    by rewrite <-(sort_by_perm name_less (Files m1)), Hs, sort_by_perm. }
  destruct (Hall1 n) as (data' & Hd' & Hin).
  { unfold file_data in Hn. apply bind_Some in Hn as (? & -> & _). eauto. }
  assert (data' = data) as -> by congruence. rewrite Hp in Hin.
  destruct (Hes2 _ Hin) as (n' & data2 & Hd2 & He).
  pose proof (f_equal Name He) as Hname. cbn [Name entry_of] in Hname. subst n'.
  pose proof (f_equal Chunks He) as Hch. cbn [Chunks entry_of] in Hch.
  rewrite Hd2. f_equal. rewrite <-(concat_blocks_of data), <-(concat_blocks_of data2). f_equal. symmetry.
  eapply VerifyFacts.ref_list_inj; [exact Hcf| | |exact Hch]; apply list.Forall_forall; intros b Hb;
    [left|right]; left; eauto.
Qed.

(** *** The files of a template directory *)

Section layout.
Variable cfg : config.
Variable id : string.
Hypothesis Habs : is_abs (dataDir cfg) = true.
Hypothesis Hid : plain id.

Lemma templates_plain : plain "templates".
Proof. by vm_compute. Qed.

Lemma templateDir_below : Forall downward (concat (map (split_byte slash) ["templates"; id])).
Proof.
  cbn [map concat]. rewrite app_nil_r. apply Forall_app.
  split; apply downward_plain; [apply templates_plain|exact Hid].
Qed.

Lemma templateDir_elems : clean_elems (templateDir (dataDir cfg) id) = clean_elems (dataDir cfg) ++ ["templates"; id].
Proof.
  unfold templateDir. rewrite clean_Join_below by (apply Habs || apply templateDir_below).
  rewrite below_cons, !below_one_plain by (apply Hid || apply templates_plain). done.
Qed.

Lemma templateDir_abs : is_abs (templateDir (dataDir cfg) id) = true.
Proof.
  unfold templateDir. rewrite Join_below by (apply Habs || apply templateDir_below).
  done.
Qed.

Lemma in_template names :
  Forall plain names ->
  clean_elems (Join (templateDir (dataDir cfg) id :: names)) = clean_elems (templateDir (dataDir cfg) id) ++ names.
Proof.
  intros Hn. rewrite clean_Join_below; [|apply templateDir_abs|].
  - f_equal. induction Hn as [|n ns H _ IH]; [done|]. by rewrite below_cons, below_one_plain, IH.
  - induction Hn as [|n ns H _ IH]; [constructor|]. cbn [map concat]. apply Forall_app. split; [|done].
    by apply downward_plain.
Qed.

Definition inDir (k : fpath) : Prop := is_prefix (clean_elems (templateDir (dataDir cfg) id)) k = true.

Lemma in_template_dir names :
  Forall plain names -> inDir (clean_elems (Join (templateDir (dataDir cfg) id :: names))).
Proof. intros Hn. unfold inDir. rewrite in_template by done. apply is_prefix_spec. eauto. Qed.

Lemma plain_names :
  plain manifestDigestFile /\ plain verifiedMarker /\ plain "snapshot" /\ plain "mem" /\ plain "vmstate" /\
  plain "rootfs.ext4".
Proof. by vm_compute. Qed.

(** Where a pulled file is placed is inside the template directory. *)
Lemma place_inside name rel dst :
  place_in (templateDir (dataDir cfg) id) name rel = Ok dst -> inDir (clean_elems dst).
Proof.
  unfold place_in, inDir. set (dir := templateDir (dataDir cfg) id).
  destruct (negb _ && negb _) eqn:E; [done|]. intros H.
  assert (dst = Join [dir; rel]) as Hdst by (destruct (has_prefix "volumes/" name && _); by simplify_eq).
  rewrite <- Hdst in E. clear H. rewrite Clean_abs in E by apply templateDir_abs.
  pose proof (clean_elems_rooted dir templateDir_abs) as Hd.
  pose proof (is_abs_join dir [rel] templateDir_abs) as Ha.
  assert (dst = Clean (join_byte slash [dir; rel])) as Hc.
  { rewrite Hdst. cbn [Join]. destruct (String.eqb_spec dir EmptyString) as [E0|_]; [|done].
    pose proof templateDir_abs as H0. fold dir in H0. by rewrite E0 in H0. }
  rewrite (Clean_abs _ Ha) in Hc. pose proof (clean_elems_rooted _ Ha) as Hp.
  rewrite Hc in E |- *. rewrite clean_elems_abs_of by done.
  apply andb_false_iff in E as [E|E]; apply negb_false_iff in E.
  - apply String.eqb_eq, (f_equal clean_elems) in E. rewrite !clean_elems_abs_of in E by done.
    rewrite E. apply is_prefix_spec. exists []. by rewrite app_nil_r.
  - apply abs_of_prefix in E as (r & -> & _); [apply is_prefix_spec; eauto|done..|].
    unfold dir. rewrite templateDir_elems. by destruct (clean_elems (dataDir cfg)).
Qed.

Lemma templateFilePath_inside name dst :
  templateFilePath (templateDir (dataDir cfg) id) name = Ok dst -> inDir (clean_elems dst).
Proof.
  unfold templateFilePath. destruct (_ || _); [apply place_inside|]. destruct (String.eqb _ _); [apply place_inside|].
  destruct (_ || _); [done|apply place_inside].
Qed.

Lemma read_other (fs : fs_t) name b names :
  plain name -> Forall plain names -> names <> [name] ->
  read_file (write_file fs (Join [templateDir (dataDir cfg) id; name]) b)
    (Join (templateDir (dataDir cfg) id :: names)) = read_file fs (Join (templateDir (dataDir cfg) id :: names)).
Proof.
  intros Hn Hns Hne. unfold read_file, write_file. rewrite (in_template [name]), in_template by (done || auto).
  apply lookup_insert_ne. intros E. by apply app_inv_head in E.
Qed.

Lemma stat_read fs p : stat fs p = bool_decide (is_Some (read_file fs p)).
Proof. done. Qed.

Lemma read_same fs p b : read_file (write_file fs p b) p = Some b.
Proof. unfold read_file, write_file. by simplify_map_eq. Qed.

Lemma snapshot_files_write (fs : fs_t) name b :
  name = manifestDigestFile \/ name = verifiedMarker ->
  templateSnapshotFiles (write_file fs (Join [templateDir (dataDir cfg) id; name]) b) (dataDir cfg) id =
  templateSnapshotFiles fs (dataDir cfg) id.
Proof.
  intros Hn. destruct plain_names as (? & ? & _ & _ & _ & ?). unfold templateSnapshotFiles.
  
  rewrite !stat_read, read_other; [done|by destruct Hn; subst|auto|by destruct Hn; subst].
Qed.

Lemma snapshot_data_write (fs : fs_t) name b n :
  name = manifestDigestFile \/ name = verifiedMarker ->
  let files := templateSnapshotFiles fs (dataDir cfg) id in
  file_data (write_file fs (Join [templateDir (dataDir cfg) id; name]) b) files n = file_data fs files n.
Proof.
  intros Hn files. destruct plain_names as (? & ? & ? & ? & ? & ?).
  assert (forall p, files !! n = Some p ->
    exists names, p = Join (templateDir (dataDir cfg) id :: names) /\ Forall plain names /\ names <> [name]) as Hp.
  { intros p. unfold files, templateSnapshotFiles.
    assert (forall m : gmap string string, m = <["mem" := Join [templateDir (dataDir cfg) id; "snapshot"; "mem"]]>
      (<["vmstate" := Join [templateDir (dataDir cfg) id; "snapshot"; "vmstate"]]> ∅) -> m !! n = Some p ->
      exists names, p = Join (templateDir (dataDir cfg) id :: names) /\ Forall plain names /\ names <> [name]) as Hm.
    { intros m -> [[_ <-]|[_ [[_ <-]|[_ []%lookup_empty_Some]]%lookup_insert_Some]]%lookup_insert_Some;
        eexists; (split; [reflexivity|]); by repeat constructor. }
    destruct (stat _ _); [|by apply Hm].
    intros [[_ <-]|[_ H']]%lookup_insert_Some; [|by eapply Hm].
    eexists; (split; [reflexivity|]). split; [by repeat constructor|by destruct Hn; subst]. }
  unfold file_data. destruct (files !! n) as [p|]; [|done]. cbn [mbind option_bind].
  destruct (Hp p eq_refl) as (names & -> & Hns & Hne). apply read_other; [by destruct Hn; subst|done..].
Qed.

(** So writing those two changes neither the manifest nor its digest. *)
Lemma build_entries_ext fs fs' files names :
  (forall n, file_data fs' files n = file_data fs files n) -> (forall n, n ∈ names -> is_Some (files !! n)) ->
  build_entries fs' files names = build_entries fs files names.
Proof using.
  intros Hd. induction names as [|n names IH]; intros Hn; [done|]. cbn [build_entries].
  destruct (Hn n ltac:(constructor)) as [path Hp]. rewrite Hp.
  change (default EmptyString (Some path)) with path. unfold chunkFile.
  specialize (Hd n). unfold file_data in Hd. rewrite Hp in Hd. cbn [mbind option_bind] in Hd.
  rewrite Hd, IH by (intros; apply Hn; by constructor). done.
Qed.

Lemma BuildManifest_write (fs : fs_t) name b meta :
  name = manifestDigestFile \/ name = verifiedMarker ->
  let fs' := write_file fs (Join [templateDir (dataDir cfg) id; name]) b in
  BuildManifest fs' (templateSnapshotFiles fs' (dataDir cfg) id) meta =
  BuildManifest fs (templateSnapshotFiles fs (dataDir cfg) id) meta.
Proof.
  intros Hn fs'. unfold fs'. rewrite snapshot_files_write by done. unfold BuildManifest.
  rewrite (build_entries_ext fs); [done|intros n; by apply snapshot_data_write|intros n; apply elem_file_names].
Qed.

End layout.

(** *** The fork gate *)

Section gate.
Variables wok fok : string -> bool.
Variable other : string -> string.
Variable now : Z.
Variable cfg : config.
Variable id : string.
Hypothesis Habs : is_abs (dataDir cfg) = true.
Hypothesis Hid : plain id.

Lemma written_digest (fs : fs_t) d b :
  Validate d = true ->
  let dir := templateDir (dataDir cfg) id in
  readDigestFile other cfg
    (write_file (write_file fs (Join [dir; manifestDigestFile]) (String.list_ascii_of_string d))
       (Join [dir; verifiedMarker]) b) id = Some d /\
  readDigestFile other cfg
    (write_file fs (Join [dir; manifestDigestFile]) (String.list_ascii_of_string d)) id = Some d.
Proof.
  intros Hd dir. unfold readDigestFile. fold dir. destruct plain_names as (? & ? & _).
  unfold Validate in Hd. apply andb_true_iff in Hd as [_ Hd].
  assert (TrimSpace other (String.string_of_list_ascii (String.list_ascii_of_string d)) = d) as Ht.
  { rewrite string_list_ascii. apply trim_no_space; [by apply hex_lower_ascii|].
    eapply string_forallb_impl; [|exact Hd]. intros c. by destruct c as [[] [] [] [] [] [] [] []]. }
  split; [unfold dir; rewrite read_other by auto|]; rewrite read_same; cbn [mbind option_bind]; by rewrite Ht.
Qed.

Lemma verifyTemplate_ok st meta st' d :
  verifyTemplate fok other cfg st id meta = (st', Ok d) ->
  readDigestFile other cfg (t_fs st) id = Some d /\
  (exists m, BuildManifest (t_fs st) (templateSnapshotFiles (t_fs st) (dataDir cfg) id) meta = Ok m /\
             manifest_digest m = d) /\
  st' = with_fs (write_file (t_fs st) (Join [templateDir (dataDir cfg) id; verifiedMarker]) []) st.
Proof using.
  unfold verifyTemplate. destruct (readDigestFile _ _ _ _) as [want|]; [|done].
  destruct (BuildManifest _ _ _) as [m|e]; [|done].
  destruct (String.eqb_spec (manifest_digest m) want) as [<-|_]; cbn [negb]; [|done].
  unfold writeVerifiedMarker, WriteFile. destruct (fok _); cbn [negb]; [|done].
  intros [= <- <-]. eauto.
Qed.

Lemma recordTemplateDigest_ok st meta st' d :
  recordTemplateDigest wok fok now cfg st id meta = (st', Ok d) ->
  (exists m, BuildManifest (t_fs st) (templateSnapshotFiles (t_fs st) (dataDir cfg) id) meta = Ok m /\
             manifest_digest m = d) /\
  t_fs st' = write_file (write_file (t_fs st) (Join [templateDir (dataDir cfg) id; manifestDigestFile])
    (String.list_ascii_of_string d)) (Join [templateDir (dataDir cfg) id; verifiedMarker]) [].
Proof using.
  unfold recordTemplateDigest. destruct (PutSnapshot _ _ _ _ _ _) as [s1 [m|e]] eqn:Ep; [|done].
  apply PutSnapshot_builds in Ep.
  destruct (Pin _ _ _) as [s2 [u|e]]; [|done].
  unfold writeDigestFile, writeVerifiedMarker, WriteFile. cbn [t_fs with_store with_fs].
  destruct (fok _); cbn [negb]; [|done]. destruct (fok _); cbn [negb]; [|done].
  intros [= <- <-]. eauto.
Qed.

Definition template_file (st : tstate) (n : string) : option bytes :=
  file_data (t_fs st) (templateSnapshotFiles (t_fs st) (dataDir cfg) id) n.

(** C24. A fork never starts from a template that changed after its digest was
    recorded. Let a template be recorded, let anything at all happen to the node's
    files except the digest file, and let the marker be absent, as it is after a
    restart that clears it or for a template another component placed. If the fork
    gate still lets the snapshot through without the operator's override, every
    snapshot file, memory image, VM state and rootfs alike, holds byte for byte
    what it held when the digest was recorded, and no file was added or removed.
    SHA-256 is assumed collision free on the blocks and manifests in question. *)
Theorem fork_gate_detects_tampering st0 st1 d st2 st3 :
  let meta := default_meta cfg in
  let files st := templateSnapshotFiles (t_fs st) (dataDir cfg) id in
  meta_ok meta -> sized (t_fs st0) (files st0) -> sized (t_fs st2) (files st2) ->
  collision_free (fun b => hashed (t_fs st0) (files st0) meta b \/ hashed (t_fs st2) (files st2) meta b) ->
  recordTemplateDigest wok fok now cfg st0 id meta = (st1, Ok d) ->
  read_file (t_fs st2) (Join [templateDir (dataDir cfg) id; manifestDigestFile]) =
  read_file (t_fs st1) (Join [templateDir (dataDir cfg) id; manifestDigestFile]) ->
  isVerified cfg (t_fs st2) id = false -> allowUnverified cfg = false ->
  ensureVerified fok other cfg st2 id = (st3, Ok tt) ->
  forall n, template_file st2 n = template_file st0 n.
Proof.
  intros meta files Hmeta Hsz0 Hsz2 Hcf Hrec Hdig Hnv Hstrict Hens n.
  apply recordTemplateDigest_ok in Hrec as ((m0 & Hb0 & <-) & Hfs1).
  unfold ensureVerified in Hens. rewrite Hnv in Hens. unfold VerifyTemplate in Hens. fold meta in Hens.
  destruct (verifyTemplate _ _ _ _ _ _) as [st' [d2|e]] eqn:Hv; [|by rewrite Hstrict in Hens].
  apply verifyTemplate_ok in Hv as (Hrd & (m2 & Hb2 & Hm2) & _).
  assert (readDigestFile other cfg (t_fs st2) id = Some (manifest_digest m0)) as Hrd0.
  { unfold readDigestFile. rewrite Hdig, Hfs1. apply (written_digest (t_fs st0) (manifest_digest m0) []).
    apply Validate_digest. }
  assert (manifest_digest m2 = manifest_digest m0) as Heq by (rewrite Hm2; congruence). clear Hm2 Hrd Hrd0.
  unfold template_file. fold (files st0) (files st2).
  pose proof (same_digest_same_files _ _ _ _ _ _ _ Hmeta Hsz0 Hsz2 Hcf Hb0 Hb2 (eq_sym Heq) n) as H02.
  assert (collision_free (fun b => hashed (t_fs st2) (files st2) meta b \/ hashed (t_fs st0) (files st0) meta b)) as Hcf'.
  { intros b1 b2 H1 H2. apply Hcf; tauto. }
  pose proof (same_digest_same_files _ _ _ _ _ _ _ Hmeta Hsz2 Hsz0 Hcf' Hb2 Hb0 Heq n) as H20.
  destruct (file_data (t_fs st2) (files st2) n) as [x|] eqn:E; [symmetry; by apply H20|].
  destruct (file_data (t_fs st0) (files st0) n) as [y|] eqn:E2; [by rewrite (H02 y)|done].
Qed.

End gate.

End VerifyGate.

(** ** Pulling a template *)

Module PullFacts.
Import Snapcompat Verify VerifyGate Transfer.

Section pull.
Variable um : string -> option Manifest.
Variables wok cok sok fok rok : string -> bool.
Variable other : string -> string.
Variable now : Z.
Variable cfg : config.
Variable id : string.
Hypothesis Habs : is_abs (dataDir cfg) = true.
Hypothesis Hid : plain id.

(** A step that touches only files below the template directory, and none of the
    digests the engine reports. *)
Definition contained (st st' : tstate) : Prop :=
  (forall k, ~ inDir cfg id k -> t_fs st' !! k = t_fs st !! k) /\ templateDigests st' = templateDigests st.

Lemma contained_refl st : contained st st.
Proof. done. Qed.

Lemma contained_trans st1 st2 st3 : contained st1 st2 -> contained st2 st3 -> contained st1 st3.
Proof. intros [H1 E1] [H2 E2]. split; [intros k Hk; by rewrite H2, H1|congruence]. Qed.

Lemma contained_store st s : contained st (with_store s st).
Proof. done. Qed.

Lemma contained_write st p b : inDir cfg id (clean_elems p) -> contained st (with_fs (write_file (t_fs st) p b) st).
Proof.
  intros Hp. split; [|done]. intros k Hk. cbn [t_fs with_fs]. unfold write_file. apply lookup_insert_ne. by intros <-.
Qed.

Lemma contained_WriteFile st name b fs' ok :
  plain name -> WriteFile fok (t_fs st) (Join [templateDir (dataDir cfg) id; name]) b = (fs', ok) ->
  contained st (with_fs fs' st).
Proof.
  intros Hn. unfold WriteFile. destruct (fok _); intros [= <- <-]; [|by destruct st].
  apply contained_write, (in_template_dir cfg id Habs Hid [name]); auto.
Qed.

Lemma MaterializeFileTo_contained st d name dst s1 fs1 r :
  inDir cfg id (clean_elems dst) ->
  MaterializeFileTo um cok sok now (casStore st) (t_fs st) d name dst = (s1, fs1, r) ->
  contained st (with_fs fs1 (with_store s1 st)).
Proof using.
  intros Hin. unfold MaterializeFileTo, materializeFileAt.
  assert (contained st (with_fs (remove_file (t_fs st) dst) (with_store s1 st))) as Hrm.
  { split; [|done]. intros k Hk. cbn [t_fs with_fs]. unfold remove_file. apply lookup_delete_ne. by intros <-. }
  destruct (GetManifest _ _ _); [|by intros [= <- <- <-]].
  destruct (List.find _ _); [|by intros [= <- <- <-]].
  destruct (negb _); [by intros [= <- <- <-]|].
  destruct (copy_chunks _ _ _) as [s' [data|e]]; [|by intros [= -> <- <-]].
  destruct (sok _); [|by intros [= -> <- <-]]. intros [= <- <- <-]. by apply (contained_write (with_store s' st)).
Qed.

Lemma place_files_contained st d fes st' r :
  place_files um cok sok now cfg st id d fes = (st', r) -> contained st st'.
Proof.
  revert st. induction fes as [|fe fes IH]; intros st H; cbn [place_files] in H; [by simplify_eq|].
  destruct (templateFilePath _ _) as [dst|e] eqn:Ep; [|by simplify_eq].
  apply templateFilePath_inside in Ep; [|done..].
  destruct (MaterializeFileTo _ _ _ _ _ _ _ _ _) as [[s1 fs1] r1] eqn:Em.
  apply MaterializeFileTo_contained in Em; [|done].
  destruct r1; [|by simplify_eq]. eapply contained_trans; [exact Em|by apply IH].
Qed.

Lemma materialize_contained st d st' r :
  materializePulledTemplate um cok sok now cfg st id d = (st', r) -> contained st st'.
Proof.
  unfold materializePulledTemplate. destruct (GetManifest _ _ _); [apply place_files_contained|by intros [= <- <-]].
Qed.

Lemma verifyTemplate_contained st meta st' r :
  verifyTemplate fok other cfg st id meta = (st', r) -> contained st st'.
Proof.
  unfold verifyTemplate. destruct (readDigestFile _ _ _ _); [|by intros [= <- <-]].
  destruct (BuildManifest _ _ _); [|by intros [= <- <-]]. destruct (negb _); [by intros [= <- <-]|].
  destruct (writeVerifiedMarker _ _ _ _) as [fs1 ok] eqn:E. apply contained_WriteFile in E; [|apply plain_names].
  destruct (negb ok); by intros [= <- <-].
Qed.

Lemma ensureCompatible_frame st st' r :
  ensureCompatible um other cfg st id = (st', r) -> t_fs st' = t_fs st /\ templateDigests st' = templateDigests st.
Proof using.
  unfold ensureCompatible. destruct (readDigestFile _ _ _ _); [|by intros [= <- <-]].
  destruct (GetManifest _ _ _); [|by intros [= <- <-]]. destruct (Check _ _); [by intros [= <- <-]|].
  destruct (allowIncompatible cfg); by intros [= <- <-].
Qed.

(** What a successful pull leaves, from the last two checks it ran. *)
Definition pulled (st : tstate) (d : string) : Prop :=
  readDigestFile other cfg (t_fs st) id = Some d /\ isVerified cfg (t_fs st) id = true /\
  exists m, BuildManifest (t_fs st) (templateSnapshotFiles (t_fs st) (dataDir cfg) id) (default_meta cfg) = Ok m /\
            manifest_digest m = d.

Lemma verify_pulled fs0 st d d' st2 :
  Validate d = true ->
  t_fs st = write_file fs0 (Join [templateDir (dataDir cfg) id; manifestDigestFile]) (String.list_ascii_of_string d) ->
  verifyTemplate fok other cfg st id (default_meta cfg) = (st2, Ok d') -> pulled st2 d.
Proof.
  intros Hd Hfs Hv. apply verifyTemplate_ok in Hv as (Hrd & (m & Hb & Hm) & ->).
  destruct (written_digest other cfg id Habs Hid fs0 d [] Hd) as [Hw1 Hw2].
  rewrite <- Hfs in Hw1, Hw2. assert (d' = d) as -> by congruence.
  split_and!; cbn [t_fs with_fs]; [done| |].
  - unfold isVerified. rewrite stat_read, read_same. by apply bool_decide_eq_true.
  - exists m. split; [|done]. rewrite BuildManifest_write by auto. done.
Qed.

Lemma pull_body_spec st d remote st' r :
  Validate d = true -> pull_body um wok cok sok fok other now cfg st id d remote = (st', r) ->
  (forall k, ~ inDir cfg id k -> t_fs st' !! k = t_fs st !! k) /\
  match r with
  | Ok _ => pulled st' d /\ templateDigests st' = <[id := d]> (templateDigests st)
  | Err _ => templateDigests st' = templateDigests st
  end.
Proof.
  intros Hd. unfold pull_body. destruct (Pull _ _ _ _ _) as [s1 [u|e]]; [|by intros [= <- <-]].
  destruct (materializePulledTemplate _ _ _ _ _ _ _ _) as [st1 r1] eqn:Em. apply materialize_contained in Em.
  assert (contained st st1) as H1 by (eapply contained_trans; [apply contained_store|exact Em]).
  destruct r1 as [u1|e]; [|intros [= <- <-]; apply H1].
  unfold writeDigestFile. destruct (WriteFile _ _ _ _) as [fs1 ok] eqn:Ew.
  pose proof (contained_WriteFile st1 _ _ _ _ (proj1 plain_names) Ew) as H2.
  assert (contained st (with_fs fs1 st1)) as H12 by (by eapply contained_trans). clear H1 H2.
  destruct ok; cbn [negb]; [|intros [= <- <-]; apply H12].
  destruct (verifyTemplate _ _ _ _ _ _) as [st3 r3] eqn:Ev.
  pose proof (verifyTemplate_contained _ _ _ _ Ev) as H3.
  assert (contained st st3) as H13 by (by eapply contained_trans). clear H3.
  destruct r3 as [d3|e]; [|intros [= <- <-]; apply H13].
  assert (pulled st3 d) as Hp.
  { eapply (verify_pulled (t_fs st1)); [exact Hd| |exact Ev]. cbn [t_fs with_fs].
    unfold WriteFile in Ew. destruct (fok _); by injection Ew as <-. }
  destruct (ensureCompatible _ _ _ _ _) as [st4 r4] eqn:Ec. apply ensureCompatible_frame in Ec as [Hf4 Hd4].
  destruct H13 as [Hk H13]. destruct r4 as [u4|e]; intros [= <- <-]; cbn [t_fs templateDigests with_digests].
  - rewrite Hf4, Hd4, H13. split; [done|]. split; [|done]. unfold pulled. cbn [t_fs with_digests]. by rewrite Hf4.
  - rewrite Hf4, Hd4. done.
Qed.


End pull.

End PullFacts.

(** ** Witnesses *)

Module VerifyExamples.
Import Snapcompat Verify VerifyGate PullFacts Transfer CasExamples.

Definition v_env : Environment := mkEnvironment [CurrentSnapshotFormatVersion] "1.15.0" "Example CPU" "6.1".
Definition v_cfg : config := mkConfig "/d" "/k/vmlinux" v_env false false.
Definition v_fs : fs_t :=
  {[ ["d"; "templates"; "py"; "snapshot"; "mem"] := byteA; ["d"; "templates"; "py"; "snapshot"; "vmstate"] := byteB ]}.
Definition v_st0 : tstate := mkTstate v_fs ex_empty ∅ ∅ ∅.
Definition v_rec : tstate * res verify_err string :=
  recordTemplateDigest yes yes 7 v_cfg v_st0 "py" (default_meta v_cfg).
(** The state after the digest was recorded and the marker cleared. *)
Definition v_st2 : tstate :=
  with_fs (remove_file (t_fs v_rec.1) (Join [templateDir "/d" "py"; verifiedMarker])) v_rec.1.
Definition v_files : gmap string string :=
  {[ "mem" := "/d/templates/py/snapshot/mem"; "vmstate" := "/d/templates/py/snapshot/vmstate" ]}.

Lemma v_files_0 : templateSnapshotFiles (t_fs v_st0) (dataDir v_cfg) "py" = v_files.
Proof. vm_compute. reflexivity. Qed.
Lemma v_files_2 : templateSnapshotFiles (t_fs v_st2) (dataDir v_cfg) "py" = v_files.
Proof. vm_compute. reflexivity. Qed.

Lemma v_data st n data :
  st = v_st0 \/ st = v_st2 ->
  file_data (t_fs st) v_files n = Some data -> n = "mem" /\ data = byteA \/ n = "vmstate" /\ data = byteB.
Proof.
  intros Hst. unfold file_data, v_files. intros (p & Hp & Hr)%bind_Some.
  apply lookup_insert_Some in Hp as [[<- <-]|[_ Hp]].
  - left. split; [done|]. destruct Hst; subst; vm_compute in Hr; by injection Hr.
  - apply lookup_singleton_Some in Hp as [<- <-]. right. split; [done|].
    destruct Hst; subst; vm_compute in Hr; by injection Hr.
Qed.

Lemma v_sized st : st = v_st0 \/ st = v_st2 -> sized (t_fs st) v_files.
Proof. intros Hst n data [[-> ->]|[-> ->]]%v_data; done. Qed.

Definition v_canon : bytes :=
  match BuildManifest v_fs v_files (default_meta v_cfg) with Ok m => Canonical m | Err _ => [] end.

Lemma v_hashed st b :
  st = v_st0 \/ st = v_st2 -> hashed (t_fs st) v_files (default_meta v_cfg) b -> b ∈ [byteA; byteB; v_canon].
Proof.
  intros Hst [(n & data & Hd & Hb)|(m & Hm & ->)].
  - apply v_data in Hd as [[_ ->]|[_ ->]]; [| |done]; vm_compute in Hb; apply list_elem_of_singleton in Hb as ->;
      rewrite !elem_of_cons; auto.
  - rewrite !elem_of_cons. right; right; left. unfold v_canon.
    assert (BuildManifest (t_fs st) v_files (default_meta v_cfg) = BuildManifest v_fs v_files (default_meta v_cfg)) as E
      by (destruct Hst; subst; vm_compute; reflexivity).
    by rewrite <- E, Hm.
Qed.

Lemma v_separates (P : bytes -> Prop) : (forall b, P b -> b ∈ [byteA; byteB; v_canon]) -> collision_free P.
Proof.
  intros H a b Ha%H Hb%H Hd.
  assert (NoDup (map digestBytes [byteA; byteB; v_canon])) as Hnd.
  { apply (bool_decide_unpack _). vm_compute. exact I. }
  apply list_elem_of_lookup in Ha as [i Hi], Hb as [j Hj].
  assert (i = j) as ->; [|congruence].
  eapply (NoDup_lookup (map digestBytes [byteA; byteB; v_canon])); [exact Hnd| |];
    rewrite list_lookup_fmap; [rewrite Hi|rewrite Hj]; cbn [fmap option_fmap option_map]; [reflexivity|by rewrite Hd].
Qed.

Lemma v_plain : plain "py".
Proof. apply (bool_decide_unpack _). vm_compute. exact I. Qed.

Lemma v_meta_ok : meta_ok (default_meta v_cfg).
Proof. unfold meta_ok, is_i64. split_and!; vm_compute; done. Qed.

Lemma fork_gate_detects_tampering_witness :
  (ensureVerified yes (fun s => s) v_cfg v_st2 "py").2 = Ok tt /\
  template_file v_cfg "py" v_st2 "mem" = template_file v_cfg "py" v_st0 "mem".
Proof.
  assert (Hens : (ensureVerified yes (fun s => s) v_cfg v_st2 "py").2 = Ok tt) by (vm_compute; reflexivity).
  split; [exact Hens|].
  destruct (ensureVerified yes (fun s => s) v_cfg v_st2 "py") as [st3 r] eqn:E. cbn [snd] in Hens. subst r.
  destruct v_rec as [st1 [d|e]] eqn:Er; [|exfalso; assert (is_ok v_rec.2 = true) as H by (vm_compute; reflexivity);
    by rewrite Er in H].
  refine (fork_gate_detects_tampering yes yes (fun s => s) 7 v_cfg "py" eq_refl v_plain v_st0 st1 d v_st2 st3
    v_meta_ok _ _ _ Er _ _ eq_refl E "mem").
  - rewrite v_files_0. apply v_sized. by left.
  - rewrite v_files_2. apply v_sized. by right.
  - rewrite v_files_0, v_files_2. apply v_separates. intros b [Hb|Hb]; (eapply v_hashed; [|exact Hb]); auto.
  - replace st1 with v_rec.1 by (by rewrite Er). vm_compute. reflexivity.
  - vm_compute. reflexivity.
Defined.

(** A second node pulls the recorded template from the first one. *)
Definition v_peer (base token : string) : Transport :=
  http_remote (fun _ => None) (peer_transport (fun _ => None) "tok" (casStore v_rec.1) token).
Definition v_digest : string := match v_rec.2 with Ok d => d | Err _ => EmptyString end.
Definition v_stB : tstate := mkTstate {[ ["d"; "other"] := byteB ]} ex_empty ∅ ∅ ∅.
Definition v_pull : tstate * res verify_err unit :=
  PullTemplate (fun _ => None) yes yes yes yes yes (fun s => s) 9 v_cfg v_peer v_stB "py" v_digest
    "http://peer:9000/cas" "tok".


End VerifyExamples.
