(* ===== verification/Workspace.v ===== *)
(** * Workspace transfer (internal/workspace: transfer.go, outputs.go, encryption.go, s3store.go)

    Capturing a guest's /workspace into a content-addressed store, and restoring it.

    - [Outputs]: which paths a capture excludes and keeps, the containment of
      archive members, and the diff of two revisions.
    - [Blobs]: the store interface, and the driver shared by the stores that keep
      chunks as blobs, in the clear or sealed.
    - [Envelope]: sealing with AES-256-GCM under nonces derived from digests; the
      encrypted directory store and the object store.
    - [Transfer]: Dehydrate and Hydrate over any store and any guest transport.
    - [Members]: which member names lead down from the directory.
    - [Stores]: the promise of a store ([FaithfulStore]), kept by the node's store
      and by every lawful store of blobs ([LawfulBlobs]), and the laws of the
      encrypted and the object store.
    - [Facts]: what is captured and that it comes back, containment, what a
      revision's digest names, and what a diff lists.
    - [WorkspaceExamples]: witnesses, and three behaviours at odds with the
      comments in the code. *)
From S2P Require Import Prelude GoLib GoFs Gcm Sha256 Cas Wire Host Vsock Verify.
#[local] Open Scope go_scope.

(** ** Names *)

Module Outputs.
Import Chunk Manifest.

Definition WorkspacePath : string := "/workspace".

Section names.
(** [strings.TrimSpace] of texts that are not ASCII. *)
Variable trim_other : string -> string.

(** normalizeCapturePath; the empty result stands for the whole workspace. *)
Definition normalizeCapturePath (p : string) : string :=
  let p := TrimSpace trim_other p in
  if String.eqb p EmptyString then EmptyString
  else
    let p := trim_prefix "/" (trim_prefix (WorkspacePath +:+ "/") (Clean p)) in
    if String.eqb p EmptyString || String.eqb p "." then EmptyString else p.

(** An empty entry or a root-only one is dropped. *)
Definition normalizeExcludes (paths : list string) : list string :=
  List.filter (fun p => negb (String.eqb p EmptyString)) (map normalizeCapturePath paths).

(** The subtrees of the outputs' paths, each once, in order. *)
Fixpoint capture_scan (seen : gset string) (paths : list string) : list string :=
  match paths with
  | [] => []
  | path :: paths =>
      let p := normalizeCapturePath path in
      if String.eqb p EmptyString then capture_scan seen paths
      else if decide (p ∈ seen) then capture_scan seen paths
      else p :: capture_scan ({[p]} ∪ seen) paths
  end.
Definition CapturePaths (outputs : list string) : list string := capture_scan ∅ outputs.

End names.

(** [name] is [e] or lies under it; excluded and underAnyPrefix are this for any
    of a list. *)
Definition under (e name : string) : bool := String.eqb name e || has_prefix (e +:+ "/") name.
Definition excluded (name : string) (excludes : list string) : bool := existsb (fun e => under e name) excludes.
Definition underAnyPrefix (name : string) (prefixes : list string) : bool := existsb (fun p => under p name) prefixes.

Definition FilterFiles (files : gmap string string) (capturePaths : list string) : gmap string string :=
  if (length capturePaths =? 0)%nat then files
  else filter (fun kv => underAnyPrefix kv.1 capturePaths = true) files.

Inductive join_error := EmptyMember | AbsoluteMember | EscapingMember | OutsideMember.
Definition safeJoin (dst name : string) : res join_error string :=
  if String.eqb name EmptyString then Err EmptyMember
  else if is_abs name then Err AbsoluteMember
  else
    let clean := Clean name in
    if String.eqb clean ".." || has_prefix "../" clean then Err EscapingMember
    else
      let joined := Join [dst; clean] in
      if negb (String.eqb joined dst) && negb (has_prefix (dst +:+ "/") joined) then Err OutsideMember
      else Ok joined.

(** *** The diff of two revisions *)

Export Control.
Definition diff_Empty (d : Diff) : bool :=
  (length (Added d) =? 0)%nat && (length (Removed d) =? 0)%nat && (length (Modified d) =? 0)%nat.

(** The chunk digests of a file, separated by bars. *)
Fixpoint sig_text (cs : list ChunkRef) : string :=
  match cs with
  | [] => EmptyString
  | [c] => Digest c
  | c :: cs => Digest c +:+ "|" +:+ sig_text cs
  end.
Definition chunkSig (m : Manifest) : gmap string string :=
  fold_left (fun out fe => <[Name fe := sig_text (Chunks fe)]> out) (Files m) ∅.

(** The lists are sorted, so the order of the range statements does not matter. *)
Definition DiffManifests (parent child : Manifest) : Diff :=
  let pf := chunkSig parent in
  let cf := chunkSig child in
  let names (m : gmap string string) := sort_strings (map fst (map_to_list m)) in
  mkDiff (names (filter (fun kv => pf !! kv.1 = None) cf))
         (names (filter (fun kv => cf !! kv.1 = None) pf))
         (names (filter (fun kv => is_Some (pf !! kv.1) /\ pf !! kv.1 <> Some kv.2) cf)).

End Outputs.

(** ** Stores *)

Module Blobs.
Import Chunk Manifest Store.

Inductive ws_error :=
| PlainStore (e : cas_error)
| BadDigestText | NotStored (what : string) | TooShort | AuthFailed | WrongDigest (got : string) | SealPanic
| PutFailed | Unreadable (path : string) | ShortRead (name : string) | NoFile (name : string) | BadManifestText
| ShardPanic | NoDestination | NoTempDir | TarFailed | BadTar | BadMember (e : Outputs.join_error) | MemberWrite
| UntarFailed | Cancelled.

(** cas.Metadata{} *)
Definition no_metadata : Metadata := MkMeta 0 EmptyString EmptyString EmptyString EmptyString 0.

(** The ChunkStore interface.  Files are read and written in the temporary
    directory, part of the file system the operations pass on. *)
Class ChunkStore (S : Type) := {
  cs_PutSnapshot : fs_t -> S -> gmap string string -> Metadata -> S * res ws_error Manifest;
  cs_GetManifest : S -> string -> res ws_error Manifest;
  cs_MaterializeFileTo : S -> fs_t -> string -> string -> string -> S * fs_t * res ws_error unit }.

(** The blobCAS and blobCASManifest interfaces; [None] of a seal is a panic. *)
Class BlobCAS (S : Type) := {
  hasBlob : S -> string -> bool;
  sealChunk : S -> string -> bytes -> option bytes;
  sealManifest : S -> string -> bytes -> option bytes;
  openChunk : S -> string -> bytes -> res ws_error bytes;
  putChunkBlob : S -> string -> bytes -> S * res ws_error unit;
  putManifestBlob : S -> string -> bytes -> S * res ws_error unit;
  getChunkBlob : S -> string -> res ws_error bytes;
  blob_GetManifest : S -> string -> res ws_error Manifest }.

Section driver.
Context {S : Type} {BC : BlobCAS S}.
(** Which destinations can be created, and which can be written to the end. *)
Variables create_ok sync_ok : string -> bool.

(** The loop of putFileBlobs over the references of a file; [data] is what is
    left to read. *)
Fixpoint put_refs (s : S) (name : string) (data : bytes) (cs : list ChunkRef) : S * res ws_error unit :=
  match cs with
  | [] => (s, Ok tt)
  | c :: cs =>
      let '(block, rest) := read_full (Size c) data in
      if Z.of_nat (length block) <? Size c then (s, Err (ShortRead name))
      else if hasBlob s (Digest c) then put_refs s name rest cs
      else
        match sealChunk s (Digest c) block with
        | None => (s, Err SealPanic)
        | Some atRest =>
            let '(s1, r) := putChunkBlob s (Digest c) atRest in
            match r with Err e => (s1, Err e) | Ok _ => put_refs s1 name rest cs end
        end
  end.

Definition putFileBlobs (fs : fs_t) (s : S) (srcPath : string) (fe : FileEntry) : S * res ws_error unit :=
  match read_file fs srcPath with
  | None => (s, Err (Unreadable srcPath))
  | Some data => put_refs s (Name fe) data (Chunks fe)
  end.

Fixpoint put_entries (fs : fs_t) (s : S) (files : gmap string string) (fes : list FileEntry) : S * res ws_error unit :=
  match fes with
  | [] => (s, Ok tt)
  | fe :: fes =>
      let '(s1, r) := putFileBlobs fs s (default EmptyString (files !! Name fe)) fe in
      match r with Err e => (s1, Err e) | Ok _ => put_entries fs s1 files fes end
  end.

Definition putSnapshotBlobs (fs : fs_t) (s : S) (files : gmap string string) (meta : Metadata) : S * res ws_error Manifest :=
  match BuildManifest fs files meta with
  | Err path => (s, Err (Unreadable path))
  | Ok m =>
      let '(s1, r) := put_entries fs s files (Files m) in
      match r with
      | Err e => (s1, Err e)
      | Ok _ =>
          let d := manifest_digest m in
          match sealManifest s1 d (Canonical m) with
          | None => (s1, Err SealPanic)
          | Some atRest => let '(s2, r) := putManifestBlob s1 d atRest in (s2, try _ := r in Ok m)
          end
      end
  end.

Fixpoint streamBlobFile (s : S) (cs : list ChunkRef) : res ws_error bytes :=
  match cs with
  | [] => Ok []
  | c :: cs =>
      try atRest := getChunkBlob s (Digest c) in
      try pt := openChunk s (Digest c) atRest in
      try rest := streamBlobFile s cs in
      Ok (pt ++ rest)
  end.

Definition materializeBlobFile (s : S) (fs : fs_t) (d name dst : string) : S * fs_t * res ws_error unit :=
  match blob_GetManifest s d with
  | Err e => (s, fs, Err e)
  | Ok m =>
      match List.find (fun fe => String.eqb (Name fe) name) (Files m) with
      | None => (s, fs, Err (NoFile name))
      | Some fe =>
          if negb (create_ok dst) then (s, fs, Err NoDestination)
          else match streamBlobFile s (Chunks fe) with
               | Err e => (s, remove_file fs dst, Err e)
               | Ok data => if sync_ok dst then (s, write_file fs dst data, Ok tt)
                            else (s, remove_file fs dst, Err NoDestination)
               end
      end
  end.

(** Every such store is a chunk store. *)
Definition blob_store : ChunkStore S := {|
  cs_PutSnapshot := putSnapshotBlobs; cs_GetManifest := blob_GetManifest; cs_MaterializeFileTo := materializeBlobFile |}.

End driver.

(** The node's own store (plainStore). *)
Definition plain_store (um : string -> option Manifest) (write_ok create_ok sync_ok : string -> bool) (now : Z)
  : ChunkStore Store := {|
  cs_PutSnapshot := fun fs s files meta =>
    let '(s', r) := PutSnapshot write_ok now fs s files meta in
    (s', match r with Ok m => Ok m | Err e => Err (PlainStore e) end);
  cs_GetManifest := fun s d => match GetManifest um s d with Ok m => Ok m | Err e => Err (PlainStore e) end;
  cs_MaterializeFileTo := fun s fs d name dst =>
    let '(s', fs', r) := MaterializeFileTo um create_ok sync_ok now s fs d name dst in
    (s', fs', match r with Ok _ => Ok tt | Err e => Err (PlainStore e) end) |}.

End Blobs.

(** ** Sealing *)

Module Envelope.
Import Chunk Manifest Blobs.

Record envelope := mkEnvelope { aead : bytes; nonceKey : bytes }.

Definition nonce_label : string := "mitos/workspace/nonce-derivation/v1".
Definition newEnvelope (dek : bytes) : option envelope :=
  if negb (length dek =? 32)%nat then None
  else Some (mkEnvelope dek (hmac dek (String.list_ascii_of_string nonce_label))).

Definition nonceFor (e : envelope) (d : string) : bytes :=
  take Gcm.nonceSize (hmac (nonceKey e) (String.list_ascii_of_string d)).

Definition seal (e : envelope) (d : string) (plaintext : bytes) : option bytes :=
  let nonce := nonceFor e d in
  ct ← Gcm.Seal (aead e) nonce plaintext (String.list_ascii_of_string d);
  Some (nonce ++ ct).

Definition open (e : envelope) (d : string) (atRest : bytes) : res ws_error bytes :=
  if (length atRest <? Gcm.nonceSize)%nat then Err TooShort
  else
    match Gcm.Open (aead e) (take Gcm.nonceSize atRest) (drop Gcm.nonceSize atRest) (String.list_ascii_of_string d) with
    | None => Err AuthFailed
    | Some pt => if String.eqb (digestBytes pt) d then Ok pt else Err (WrongDigest (digestBytes pt))
    end.

(** *** On the file system *)

(** EncryptedStore: the files below its directory, by digest. *)
Record EncryptedStore := mkEncryptedStore {
  es_env : envelope; es_chunks : gmap string bytes; es_manifests : gmap string bytes }.

Section encrypted.
Variable unmarshal_other : string -> option Manifest.
(** Which atomic writes succeed. *)
Variable write_ok : string -> bool.

Definition NewEncryptedStore (dek : bytes) (chunks manifests : gmap string bytes) : option EncryptedStore :=
  e ← newEnvelope dek; Some (mkEncryptedStore e chunks manifests).

Definition hasChunk (s : EncryptedStore) (d : string) : bool :=
  if negb (Validate d) then false else bool_decide (is_Some (es_chunks s !! d)).
Definition es_GetManifest (s : EncryptedStore) (d : string) : res ws_error Manifest :=
  if negb (Validate d) then Err BadDigestText
  else
    match es_manifests s !! d with
    | None => Err (NotStored d)
    | Some atRest =>
        try pt := open (es_env s) d atRest in
        match decodeManifest unmarshal_other pt with None => Err BadManifestText | Some m => Ok m end
    end.

#[global] Instance encrypted_blobs : BlobCAS EncryptedStore := {|
  hasBlob := hasChunk;
  sealChunk := fun s => seal (es_env s);
  sealManifest := fun s => seal (es_env s);
  openChunk := fun s => open (es_env s);
  putChunkBlob := fun s d b =>
    if write_ok d then (mkEncryptedStore (es_env s) (<[d := b]> (es_chunks s)) (es_manifests s), Ok tt) else (s, Err PutFailed);
  putManifestBlob := fun s d b =>
    if write_ok d then (mkEncryptedStore (es_env s) (es_chunks s) (<[d := b]> (es_manifests s)), Ok tt) else (s, Err PutFailed);
  getChunkBlob := fun s d =>
    if (String.length d <? 2)%nat then Err ShardPanic
    else match es_chunks s !! d with Some b => Ok b | None => Err (NotStored d) end;
  blob_GetManifest := es_GetManifest |}.

End encrypted.

(** *** In a bucket *)

(** S3Store, and EncryptedS3Store when it has an envelope: the objects by key. *)
Record S3Store := mkS3Store { s3_prefix : string; s3_env : option envelope; objects : gmap string bytes }.

Section bucket.
Variable unmarshal_other : string -> option Manifest.
(** Which requests the object service answers. *)
Variables put_ok head_ok get_ok : string -> bool.

(** The first two bytes of a digest name its shard. *)
Definition chunkKey (s : S3Store) (d : string) : string := Join [s3_prefix s; "chunks"; slice 0 2 d; d].
Definition manifestKey (s : S3Store) (d : string) : string := Join [s3_prefix s; "manifests"; d].

Definition readKey (s : S3Store) (key : string) : res ws_error bytes :=
  if get_ok key then match objects s !! key with Some b => Ok b | None => Err (NotStored key) end
  else Err (NotStored key).
Definition put_object (s : S3Store) (key : string) (b : bytes) : S3Store * res ws_error unit :=
  if put_ok key then (mkS3Store (s3_prefix s) (s3_env s) (<[key := b]> (objects s)), Ok tt) else (s, Err PutFailed).

Definition s3_hasBlob (s : S3Store) (d : string) : bool :=
  if negb (Validate d) then false
  else head_ok (chunkKey s d) && bool_decide (is_Some (objects s !! chunkKey s d)).
Definition s3_seal (s : S3Store) (d : string) (b : bytes) : option bytes :=
  match s3_env s with None => Some b | Some e => seal e d b end.
Definition s3_open (s : S3Store) (d : string) (atRest : bytes) : res ws_error bytes :=
  match s3_env s with
  | None => if String.eqb (digestBytes atRest) d then Ok atRest else Err (WrongDigest (digestBytes atRest))
  | Some e => open e d atRest
  end.
(** The plain store decodes the manifest as it finds it. *)
Definition s3_GetManifest (s : S3Store) (d : string) : res ws_error Manifest :=
  if negb (Validate d) then Err BadDigestText
  else
    try atRest := readKey s (manifestKey s d) in
    try pt := match s3_env s with None => Ok atRest | Some e => open e d atRest end in
    match decodeManifest unmarshal_other pt with None => Err BadManifestText | Some m => Ok m end.

#[global] Instance s3_blobs : BlobCAS S3Store := {|
  hasBlob := s3_hasBlob;
  sealChunk := s3_seal;
  sealManifest := s3_seal;
  openChunk := s3_open;
  putChunkBlob := fun s d b => put_object s (chunkKey s d) b;
  putManifestBlob := fun s d b => put_object s (manifestKey s d) b;
  getChunkBlob := fun s d => if (String.length d <? 2)%nat then Err ShardPanic else readKey s (chunkKey s d);
  blob_GetManifest := s3_GetManifest |}.

End bucket.
End Envelope.

(** ** Capturing and restoring *)

Module Transfer.
Import Chunk Manifest Outputs Blobs.

(** The bulk operations of the guest agent. *)
Class VsockTransport (G : Type) := {
  ws_TarDir : string -> prog G (res Vsock.vsock_error string);
  ws_UntarDir : string -> string -> prog G (res Vsock.vsock_error unit) }.
Definition vsock_transport {G} (conn : Z) : VsockTransport G := {|
  ws_TarDir := Vsock.TarDir conn; ws_UntarDir := Vsock.UntarDir conn |}.

(** An archive member: whether it is a regular file, its name and its bytes. *)
Record member := mkMember { h_reg : bool; h_name : string; h_data : bytes }.

(** Go memory that holds the store. *)
Class HasStore (G S : Type) := {
  getS : G -> S;
  setS : S -> G -> G;
  getS_setS : forall s g, getS (setS s g) = s }.

(** The order in which filepath.Walk visits files. *)
Fixpoint walk_less (a b : fpath) : bool :=
  match a, b with
  | [], [] => false
  | [], _ => true
  | _, [] => false
  | x :: a, y :: b => if String.eqb x y then walk_less a b else String.ltb x y
  end.

Section transfer.
Context {S : Type} {CS : ChunkStore S}.
Variable trim_other : string -> string.
(** archive/tar: the members an archive reads as and whether its end was
    reached, and the archive of a list of members. *)
Variable untar : string -> list member * bool.
Variable mktar : list member -> string.
(** Which files of the temporary directory can be written, and whether walking
    it succeeds. *)
Variable file_ok : string -> bool.
Variable walk_ok : bool.

Fixpoint unpackTar (dst : string) (excl : list string) (ms : list member) (eof : bool) (fs : fs_t)
    (files : gmap string string) : fs_t * res ws_error (gmap string string) :=
  match ms with
  | [] => (fs, if eof then Ok files else Err BadTar)
  | m :: ms =>
      if negb (h_reg m) then unpackTar dst excl ms eof fs files
      else
        let name := Clean (h_name m) in
        if excluded name excl then unpackTar dst excl ms eof fs files
        else
          match safeJoin dst name with
          | Err e => (fs, Err (BadMember e))
          | Ok target =>
              if negb (file_ok target) then (fs, Err MemberWrite)
              else unpackTar dst excl ms eof (write_file fs target (h_data m)) (<[name := target]> files)
          end
  end.

(** DehydrateTo from the archive on. *)
Definition capture (s : S) (tmp data : string) (excludePaths capturePaths : list string) : S * res ws_error string :=
  let '(ms, eof) := untar data in
  match unpackTar tmp (normalizeExcludes trim_other excludePaths) ms eof ∅ ∅ with
  | (_, Err e) => (s, Err e)
  | (fs, Ok files) =>
      let '(s', r) := cs_PutSnapshot fs s (FilterFiles files capturePaths) no_metadata in
      (s', try m := r in Ok (manifest_digest m))
  end.

Fixpoint materialize_all (s : S) (fs : fs_t) (tmp d : string) (fes : list FileEntry) : S * res ws_error fs_t :=
  match fes with
  | [] => (s, Ok fs)
  | fe :: fes =>
      match safeJoin tmp (Clean (Name fe)) with
      | Err e => (s, Err (BadMember e))
      | Ok dst =>
          let '(s1, fs1, r) := cs_MaterializeFileTo s fs d (Name fe) dst in
          match r with Err e => (s1, Err e) | Ok _ => materialize_all s1 fs1 tmp d fes end
      end
  end.

Definition tarTree (fs : fs_t) (root : string) : list member :=
  let below := List.filter (fun kv => is_prefix (clean_elems root) kv.1) (map_to_list fs) in
  map (fun kv => mkMember true (join_byte slash (drop (length (clean_elems root)) kv.1)) kv.2)
    (sort_by (fun a b => walk_less a.1 b.1) below).

(** HydrateFrom between the checks and the archive. *)
Definition restore (s : S) (tmp d : string) : S * res ws_error string :=
  match cs_GetManifest s d with
  | Err e => (s, Err e)
  | Ok m =>
      let '(s1, r) := materialize_all s ∅ tmp d (Files m) in
      (s1, try fs := r in if walk_ok then Ok (mktar (tarTree fs tmp)) else Err TarFailed)
  end.

Section effects.
Context {G : Type} {VT : VsockTransport G} {HS : HasStore G S}.
Variable cancelled : bool.

Definition DehydrateTo (excludePaths capturePaths : list string) : prog G (res ws_error string) :=
  if cancelled then mret (Err Cancelled)
  else
    r ← ws_TarDir WorkspacePath;
    match r with
    | Err _ => mret (Err TarFailed)
    | Ok data =>
        must tmp := some_or NoTempDir (sys (CMkdirTemp EmptyString "ws-dehydrate-*")) in
        r ← atomic (fun g => let '(s', r) := capture (getS g) tmp data excludePaths capturePaths in (r, setS s' g));
        _ ← sys (CRemoveAll tmp);
        mret r
    end.

Definition HydrateFrom (manifest : string) : prog G (res ws_error unit) :=
  if cancelled then mret (Err Cancelled)
  else if negb (Validate manifest) then mret (Err BadDigestText)
  else
    must tmp := some_or NoTempDir (sys (CMkdirTemp EmptyString "ws-hydrate-*")) in
    r ← atomic (fun g => let '(s', r) := restore (getS g) tmp manifest in (r, setS s' g));
    r ← match r with
        | Err e => mret (Err e)
        | Ok data => u ← ws_UntarDir WorkspacePath data; mret (match u with Ok _ => Ok tt | Err _ => Err UntarFailed end)
        end;
    _ ← sys (CRemoveAll tmp);
    mret r.

End effects.
End transfer.
End Transfer.

(** ** Containment *)

Module Members.
Import Outputs.

(** A relative name that leads nowhere but down. *)
Definition inside (name : string) : Prop := is_abs name = false /\ Forall plain (clean_elems name).

#[global] Instance inside_dec name : Decision (inside name).
Proof. unfold inside. apply _. Defined.

(** The elements of a relative path: steps up, then plain names. *)
Definition climbs (k : nat) (ps : list string) : list string := replicate k ".." ++ ps.

Lemma clean_step_rel k ps s :
  contains_byte slash s = false -> Forall plain ps ->
  exists k' ps', clean_step false (ps ++ replicate k "..") s = ps' ++ replicate k' ".." /\ Forall plain ps'.
Proof.
  intros Hs Hps. unfold clean_step.
  destruct (String.eqb_spec s EmptyString), (String.eqb_spec s "."); cbn [orb]; try (by exists k, ps).
  destruct (String.eqb_spec s ".."); [|exists k, (s :: ps); split; [done|by constructor]].
  destruct Hps as [|p ps Hp Hps]; cbn [app].
  - destruct k as [|k]; cbn [replicate]; [by exists 1%nat, []|by exists (S (S k)), []].
  - destruct (String.eqb_spec p "..") as [->|]; [by destruct Hp as (_ & _ & ? & _)|by exists k, ps].
Qed.

Lemma clean_elems_rel n :
  is_abs n = false -> exists k ps, clean_elems n = climbs k ps /\ Forall plain ps.
Proof.
  intros Hn. unfold clean_elems. rewrite Hn.
  assert (forall segs k ps, Forall (fun f => contains_byte slash f = false) segs -> Forall plain ps ->
    exists k' ps', fold_left (clean_step false) segs (ps ++ replicate k "..") = ps' ++ replicate k' ".." /\ Forall plain ps')
    as Hfold.
  { induction segs as [|s segs IH]; intros k ps Hs Hps; [by exists k, ps|]. inversion Hs; subst. cbn [fold_left].
    destruct (clean_step_rel k ps s) as (k1 & ps1 & -> & Hps1); [done..|]. by apply IH. }
  destruct (Hfold (split_byte slash n) 0%nat []) as (k & ps & E & Hps); [apply split_byte_fields|constructor|].
  cbn [replicate app] in E. rewrite E.
  exists k, (rev ps). split; [|by apply Forall_rev_iff]. rewrite rev_app_distr. unfold climbs. f_equal.
  clear. induction k as [|k IH]; [done|]. cbn [replicate rev]. rewrite IH. by rewrite <- replicate_cons_app.
Qed.

Lemma fold_climbs k ps : Forall plain ps -> fold_left (clean_step false) (climbs k ps) [] = rev ps ++ replicate k "..".
Proof.
  intros Hps. unfold climbs. rewrite fold_left_app, fold_clean_plain by done. f_equal.
  assert (forall j, fold_left (clean_step false) (replicate k "..") (replicate j "..") = replicate (k + j) "..") as H.
  { induction k as [|k IH]; intros j; [done|]. cbn [replicate fold_left].
    replace (clean_step false (replicate j "..") "..") with (replicate (S j) "..") by (by destruct j).
    rewrite IH. f_equal. lia. }
  specialize (H 0%nat). by rewrite Nat.add_0_r in H.
Qed.

Lemma climbs_no_slash k ps : Forall plain ps -> Forall (fun f => contains_byte slash f = false) (climbs k ps).
Proof. intros H. apply Forall_app. split; [by apply Forall_replicate|by apply plain_no_slash]. Qed.

Lemma join_climbs_rel k ps : Forall plain ps -> is_abs (join_byte slash (climbs k ps)) = false.
Proof.
  intros H. destruct k as [|k]; [|by destruct k, ps]. destruct H as [|p ps (H1 & _ & _ & H4) _]; [done|].
  destruct p as [|c p]; [done|]. unfold contains_byte in H4. cbn [index_byte] in H4. unfold is_abs.
  destruct (Ascii.eqb slash c) eqn:E; [done|]. destruct ps; unfold has_prefix; cbn [climbs app replicate join_byte String.append cut_prefix]; by rewrite E.
Qed.

Lemma clean_elems_join k ps : Forall plain ps -> climbs k ps <> [] -> clean_elems (join_byte slash (climbs k ps)) = climbs k ps.
Proof.
  intros Hps Hne. unfold clean_elems. rewrite join_climbs_rel by done.
  rewrite split_join by (done || by apply climbs_no_slash).
  rewrite fold_climbs by done. unfold climbs. rewrite rev_app_distr, rev_involutive. f_equal.
  clear. induction k as [|k IH]; [done|]. cbn [replicate rev]. rewrite IH. by rewrite <- replicate_cons_app.
Qed.

(** Cleaning a relative name once more changes nothing. *)
Lemma Clean_rel n k ps :
  is_abs n = false -> clean_elems n = climbs k ps -> Forall plain ps ->
  is_abs (Clean n) = false /\ clean_elems (Clean n) = climbs k ps /\
  Clean n = (if decide (climbs k ps = []) then "." else join_byte slash (climbs k ps)).
Proof.
  intros Hn He Hps. unfold Clean. rewrite Hn, He. pose proof (join_climbs_rel k ps Hps) as Hrel.
  pose proof (clean_elems_join k ps Hps) as Hel. destruct (climbs k ps) as [|x l]; [done|]. split_and!; [done|by apply Hel|done].
Qed.

Lemma Clean_idem n : is_abs n = false -> Clean (Clean n) = Clean n.
Proof.
  intros Hn. destruct (clean_elems_rel n Hn) as (k & ps & He & Hps).
  destruct (Clean_rel n k ps Hn He Hps) as (H1 & H2 & H3). destruct (Clean_rel (Clean n) k ps H1 H2 Hps) as (_ & _ & ->). by rewrite H3.
Qed.

(** A clean name without steps up splits into its elements. *)
Lemma split_inside n :
  inside n -> split_byte slash (Clean n) = if decide (clean_elems n = []) then ["."] else clean_elems n.
Proof.
  intros [Hn Hps]. destruct (Clean_rel n 0 (clean_elems n) Hn eq_refl Hps) as (_ & _ & ->).
  unfold climbs. cbn [replicate app]. case_decide; [done|]. by apply split_join, plain_no_slash.
Qed.

Lemma Join_inside es n : Forall plain es -> inside n -> Join [abs_of es; Clean n] = abs_of (es ++ clean_elems n).
Proof.
  intros Hes Hn. cbn [Join]. replace (String.eqb (abs_of es) EmptyString) with false by done.
  rewrite Clean_abs by done. f_equal.
  rewrite (clean_elems_plain_abs (join_byte slash [abs_of es; Clean n]) _ eq_refl eq_refl), split_join_concat by done.
  cbn [map concat]. rewrite app_nil_r, fold_left_app, split_inside by done.
  assert (fold_left (clean_step true) (split_byte slash (abs_of es)) [] = rev es) as ->.
  { rewrite split_abs_of by done. case_decide as E; [by subst|]. cbn [fold_left]. rewrite clean_step_empty, fold_clean_plain by done.
    apply app_nil_r. }
  case_decide as E; [by rewrite E, app_nil_r; cbn; rewrite rev_involutive|].
  rewrite fold_clean_plain by apply Hn. by rewrite rev_app_distr, !rev_involutive.
Qed.

Lemma inside_not_up n : inside n -> Clean n <> EmptyString /\ String.eqb (Clean n) ".." || has_prefix "../" (Clean n) = false.
Proof.
  intros Hn. pose proof (split_inside n Hn) as Hs. split.
  { intros E. rewrite E in Hs. cbn in Hs. case_decide as Ee; [done|]. destruct Hn as [_ Hp]. rewrite <- Hs in Hp.
    inversion Hp as [|? ? [H _]]. done. }
  assert (forall l, split_byte slash (Clean n) <> ".." :: l) as Hno.
  { intros l E. rewrite E in Hs. case_decide as Ee; [done|]. destruct Hn as [_ Hp]. rewrite <- Hs in Hp.
    by inversion Hp as [|? ? (_ & _ & H & _)]. }
  apply orb_false_iff. split.
  - apply String.eqb_neq. intros E. apply (Hno []). by rewrite E.
  - apply not_true_iff_false. intros [r E]%has_prefix_spec. apply (Hno (split_byte slash r)). rewrite E.
    apply (split_byte_app slash ".." r).
Qed.

(** What safeJoin lets through lies below the directory, at the name's place. *)
Lemma safeJoin_inside es n :
  Forall plain es -> es <> [] -> inside n -> safeJoin (abs_of es) (Clean n) = Ok (abs_of (es ++ clean_elems n)).
Proof.
  intros Hes Hne Hn. destruct (inside_not_up n Hn) as [He Hup]. unfold safeJoin.
  destruct Hn as [Hn Hps]. destruct (Clean_rel n 0 (clean_elems n) Hn eq_refl Hps) as (Hrel & _ & _).
  rewrite (proj2 (String.eqb_neq _ _)), Hrel, Clean_idem by done. rewrite Hup, Join_inside by done.
  destruct (clean_elems n) as [|x l] eqn:E; [by rewrite app_nil_r, String.eqb_refl|].
  rewrite prefix_abs_of by done. by rewrite andb_false_r.
Qed.

Lemma not_up_inside n :
  is_abs n = false -> String.eqb (Clean n) ".." || has_prefix "../" (Clean n) = false -> inside n.
Proof.
  intros Ha Hup. destruct (clean_elems_rel n Ha) as (k & ps & He & Hps). destruct (Clean_rel n k ps Ha He Hps) as (Hrel & _ & Hc).
  apply orb_false_iff in Hup as [Hup1 Hup2]. split; [done|]. rewrite He. destruct k as [|k]; [done|]. exfalso.
  rewrite Hc in Hup1, Hup2. unfold climbs in Hup1, Hup2. cbn [replicate app decide] in Hup1, Hup2.
  destruct (decide _); [done|]. destruct (replicate k ".." ++ ps) as [|y l]; [done|]. done.
Qed.

Lemma safeJoin_only es n p :
  Forall plain es -> es <> [] -> safeJoin (abs_of es) (Clean n) = Ok p -> inside n /\ p = abs_of (es ++ clean_elems n).
Proof.
  intros Hes Hne H. assert (inside n) as Hn; [|split; [done|]; rewrite safeJoin_inside in H by done; congruence].
  unfold safeJoin in H. destruct (String.eqb (Clean n) EmptyString); [done|].
  destruct (is_abs n) eqn:Ha; [by rewrite (Clean_abs n Ha) in H|].
  destruct (clean_elems_rel n Ha) as (k & ps & He & Hps). destruct (Clean_rel n k ps Ha He Hps) as (Hrel & _ & _).
  rewrite Hrel, Clean_idem in H by done. destruct (_ || _) eqn:Hup; [done|]. by apply not_up_inside.
Qed.

End Members.

(** ** What the transfer relies on of a store *)

Module Stores.
Import Chunk Manifest Store StoreFacts Blobs.

(** A store takes the files of a snapshot, gives back the manifest and every
    file, and keeps doing so. *)
Class FaithfulStore (S : Type) {CS : ChunkStore S} := {
  takes : S -> fs_t -> gmap string string -> Prop;
  keeping : S -> Manifest -> (string -> option bytes) -> Prop;
  put_faithful : forall fs s files, takes s fs files -> storable fs files ->
    exists s' m, cs_PutSnapshot fs s files no_metadata = (s', Ok m) /\ BuildManifest fs files no_metadata = Ok m /\
      keeping s' m (file_data fs files);
  get_faithful : forall s m c, keeping s m c -> cs_GetManifest s (manifest_digest m) = Ok (sorted_manifest m);
  materialize_faithful : forall s m c fs name data dst, keeping s m c -> c name = Some data ->
    exists s', cs_MaterializeFileTo s fs (manifest_digest m) name dst = (s', write_file fs dst data, Ok tt) /\ keeping s' m c }.

Lemma no_metadata_ok : meta_ok no_metadata.
Proof. by repeat split. Qed.

Definition yes (_ : string) : bool := true.

(** *** The node's store *)

Lemma copy_chunks_still now cs s s' r :
  copy_chunks now s cs = (s', r) -> (forall d, content s' d = content s d) /\ manifests s' = manifests s.
Proof.
  revert s s' r. induction cs as [|c cs IH]; intros s s' r H; cbn [copy_chunks] in H; [by simplify_eq|].
  destruct (copyVerifiedChunk s c); [|by simplify_eq].
  destruct (copy_chunks now (touchChunk now s (Digest c)) cs) as [s2 r2] eqn:E. simplify_eq.
  apply IH in E as [E1 E2]. split; [intros d; by rewrite E1, content_touch|by rewrite E2, manifests_touch].
Qed.

Lemma MaterializeFileTo_still um cok sok now s fs d name dst s' fs' r :
  MaterializeFileTo um cok sok now s fs d name dst = (s', fs', r) ->
  (forall d, content s' d = content s d) /\ manifests s' = manifests s.
Proof.
  unfold MaterializeFileTo, materializeFileAt. intros H. repeat case_match; simplify_eq; eauto using copy_chunks_still.
Qed.

(** A manifest and the contents of its files. *)
Definition describes (m : Manifest) (c : string -> option bytes) : Prop :=
  manifest_ok m /\ NoDup (map Name (Files m)) /\ forall name data, c name = Some data -> entry_of name data ∈ Files m.

Section plain.
Variables (um : string -> option Manifest) (now : Z).
#[local] Instance the_plain_store : ChunkStore Store := plain_store um yes yes yes now.

#[local] Instance plain_faithful : FaithfulStore Store.
Proof.
  refine {|
    takes := fun s fs files => store_ok s /\ collision_free (in_play fs s files);
    keeping := fun s m c => manifests s !! manifest_digest m = Some (Canonical m) /\ describes m c /\
      forall name data b, c name = Some data -> b ∈ blocks_of data -> content s (digestBytes b) = Some b |}.
  - intros fs s files [Hok Hcf] Hst.
    destruct (PutSnapshot_written now fs s files no_metadata Hok Hcf no_metadata_ok Hst) as (s' & m & Hput & Hw).
    exists s', m. unfold cs_PutSnapshot, the_plain_store, plain_store. change (PutSnapshot yes) with (PutSnapshot (fun _ => true)).
    rewrite Hput. split; [done|]. split; [by eapply VerifyGate.PutSnapshot_builds|]. destruct Hw as [H1 H2 H3 H4 H5 _ _].
    split; [done|]. split; [|naive_solver]. split; [done|]. split; [done|]. naive_solver.
  - intros s m c (Hm & (Hok & _) & _). unfold cs_GetManifest, the_plain_store, plain_store, GetManifest.
    assert (Validate (manifest_digest m) = true) as -> by apply Validate_digest. cbn [negb].
    by rewrite Hm, decode_Canonical.
  - intros s m c fs name data dst (Hm & (Hok & Hnd & Hin) & Hb) Hc.
    destruct (MaterializeFileTo_hit um yes yes now s fs m (entry_of name data) (blocks_of data) dst) as [s' Hs]; eauto.
    exists s'. unfold cs_MaterializeFileTo, the_plain_store, plain_store. cbn [Name entry_of] in Hs. rewrite Hs, concat_blocks_of.
    split; [done|]. apply MaterializeFileTo_still in Hs as [E1 E2]. rewrite E2. split; [done|]. split; [done|].
    intros n' d' b Hn' Hb'. rewrite E1. eauto.
Defined.
End plain.

(** *** Stores of blobs *)

Definition blob_at {S} {BC : BlobCAS S} (s : S) (d : string) : option bytes :=
  match getChunkBlob s d with
  | Ok b => match openChunk s d b with Ok pt => Some pt | Err _ => None end
  | Err _ => None
  end.

Definition fits (b : bytes) : Prop := Z.of_nat (length b) <= Gcm.max_plaintext.

(** Blobs that are there open, what opens has the right digest, and a blob that
    is put can be opened and disturbs no other. *)
Class LawfulBlobs (S : Type) {BC : BlobCAS S} := {
  sane : S -> Prop;
  blob_digest : forall s d b, blob_at s d = Some b -> digestBytes b = d;
  blob_has : forall s d, sane s -> hasBlob s d = true -> is_Some (blob_at s d);
  blob_put : forall s b, sane s -> fits b -> exists r s',
    sealChunk s (digestBytes b) b = Some r /\ putChunkBlob s (digestBytes b) r = (s', Ok tt) /\ sane s' /\
    blob_at s' (digestBytes b) = Some b /\ forall d, Validate d = true -> d <> digestBytes b -> blob_at s' d = blob_at s d;
  blob_put_manifest : forall s m, sane s -> manifest_ok m -> fits (Canonical m) -> exists r s',
    sealManifest s (manifest_digest m) (Canonical m) = Some r /\ putManifestBlob s (manifest_digest m) r = (s', Ok tt) /\
    blob_GetManifest s' (manifest_digest m) = Ok (sorted_manifest m) /\
    forall d, Validate d = true -> blob_at s' d = blob_at s d }.

Lemma read_full_app b r : read_full (Z.of_nat (length b)) (b ++ r) = (b, r).
Proof.
  induction b as [|c b IH]; cbn [length app]; [by destruct r|]. cbn [read_full].
  rewrite (proj2 (Z.ltb_lt _ _)) by lia. replace (Z.of_nat (S (length b)) - 1) with (Z.of_nat (length b)) by lia. by rewrite IH.
Qed.

Lemma block_fits b : block_ok b -> fits b.
Proof. intros [_ H]. unfold fits. assert (ChunkSize <= Gcm.max_plaintext) by done. lia. Qed.

Section blobs.
Context {S : Type} {BC : BlobCAS S} {LB : LawfulBlobs S}.

Definition holds_blobs (P : bytes -> Prop) (s : S) : Prop := forall d b, blob_at s d = Some b -> P b.
Definition more (P : bytes -> Prop) (s s' : S) : Prop :=
  sane s' /\ holds_blobs P s' /\ forall b, P b -> blob_at s (digestBytes b) = Some b -> blob_at s' (digestBytes b) = Some b.

Lemma more_refl P s : sane s -> holds_blobs P s -> more P s s.
Proof using. done. Qed.
Lemma more_trans P s1 s2 s3 : more P s1 s2 -> more P s2 s3 -> more P s1 s3.
Proof using. intros (_ & _ & H) (H1 & H2 & H3). split; [done|]. split; [done|]. eauto. Qed.

Lemma blob_valid s d b : blob_at s d = Some b -> Validate d = true.
Proof using LB. intros H. apply blob_digest in H as <-. apply Validate_digest. Qed.

Lemma put_refs_spec (P : bytes -> Prop) name bs rest s :
  collision_free P -> Forall (fun b => P b /\ block_ok b) bs -> sane s -> holds_blobs P s ->
  exists s', put_refs s name (concat bs ++ rest) (map ref_of bs) = (s', Ok tt) /\ more P s s' /\
    Forall (fun b => blob_at s' (digestBytes b) = Some b) bs.
Proof using LB.
  intros Hcf Hbs. revert s. induction Hbs as [|b bs [Hb Hblock] _ IH]; intros s Hsane Hon; cbn [map concat put_refs].
  { exists s. split; [done|]. split; [by apply more_refl|constructor]. }
  rewrite <- app_assoc. cbn [ref_of Size Digest]. rewrite read_full_app, (proj2 (Z.ltb_ge _ _)) by lia.
  destruct (hasBlob s (digestBytes b)) eqn:Eh.
  - destruct (blob_has s _ Hsane Eh) as [b' Hb']. assert (b' = b) as -> by (apply Hcf; eauto using blob_digest).
    destruct (IH s Hsane Hon) as (s' & -> & Hmore & Hall). exists s'. split; [done|]. split; [done|]. constructor; [|done].
    by apply Hmore.
  - destruct (blob_put s b Hsane (block_fits b Hblock)) as (r & s1 & -> & -> & Hs1 & Hat & Hother).
    assert (more P s s1) as Hm1.
    { split; [done|]. split.
      - intros d x Hx. destruct (decide (d = digestBytes b)) as [->|Hne]; [congruence|].
        rewrite Hother in Hx by (done || by eapply blob_valid). by eapply Hon.
      - intros x Px Hx. destruct (decide (digestBytes x = digestBytes b)) as [E|Hne].
        + rewrite (Hcf x b) by done. done.
        + by rewrite Hother by (done || apply Validate_digest). }
    destruct (IH s1 Hs1 (proj1 (proj2 Hm1))) as (s' & -> & Hmore & Hall). exists s'. split; [done|].
    split; [by eapply more_trans|]. constructor; [|done]. by apply Hmore.
Qed.

Definition in_hand (fs : fs_t) (s : S) (files : gmap string string) (b : bytes) : Prop :=
  (exists d, blob_at s d = Some b) \/ (exists name data, file_data fs files name = Some data /\ b ∈ blocks_of data).

Lemma put_entries_spec P fs files names fes s :
  collision_free P -> (forall name data b, file_data fs files name = Some data -> b ∈ blocks_of data -> P b) ->
  Forall2 (fun n fe => exists data, file_data fs files n = Some data /\ fe = entry_of n data) names fes ->
  sane s -> holds_blobs P s ->
  exists s', put_entries fs s files fes = (s', Ok tt) /\ more P s s' /\
    forall n data b, n ∈ names -> file_data fs files n = Some data -> b ∈ blocks_of data -> blob_at s' (digestBytes b) = Some b.
Proof using LB.
  intros Hcf HP Hfes. revert s. induction Hfes as [|n fe names fes (data & Hd & ->) _ IH]; intros s Hsane Hon; cbn [put_entries].
  { exists s. split; [done|]. split; [by apply more_refl|]. by intros ? ? ? ?%not_elem_of_nil. }
  unfold putFileBlobs. cbn [Name entry_of Chunks].
  pose proof Hd as Hd'. unfold file_data in Hd'. apply bind_Some in Hd' as (path & -> & Hr).
  change (default EmptyString (Some path)) with path. rewrite Hr.
  destruct (put_refs_spec P n (blocks_of data) [] s) as (s1 & Hs1 & Hm1 & Hall); [done| |done|done|].
  { pose proof (blocks_of_ok data) as Hok. rewrite list.Forall_forall in *. eauto. }
  rewrite app_nil_r, concat_blocks_of in Hs1. rewrite Hs1.
  destruct (IH s1) as (s' & -> & Hm2 & Hrest); [apply Hm1..|]. exists s'. split; [done|]. split; [by eapply more_trans|].
  intros n' data' b [->|Hn']%elem_of_cons Hdn Hb; [|by eapply Hrest].
  assert (data' = data) as -> by congruence. rewrite list.Forall_forall in Hall. apply Hm2; [by eapply HP|by apply Hall].
Qed.

Lemma streamBlobFile_spec s bs :
  Forall (fun b => blob_at s (digestBytes b) = Some b) bs -> streamBlobFile s (map ref_of bs) = Ok (concat bs).
Proof using.
  induction 1 as [|b bs Hb _ IH]; [done|]. cbn [map streamBlobFile concat ref_of Digest]. unfold blob_at in Hb.
  destruct (getChunkBlob s (digestBytes b)) as [r|]; [|done]. cbn [res_bind].
  destruct (openChunk s (digestBytes b) r) as [pt|]; [|done]. injection Hb as ->. cbn [res_bind]. by rewrite IH.
Qed.

Lemma build_entries_total fs files names :
  (forall n, n ∈ names -> is_Some (file_data fs files n)) -> exists fes, build_entries fs files names = Ok fes.
Proof using.
  induction names as [|n names IH]; intros Hn; cbn [build_entries]; [eauto|].
  destruct (Hn n ltac:(constructor)) as [data Hd]. unfold file_data in Hd. apply bind_Some in Hd as (path & -> & Hd).
  change (default EmptyString (Some path)) with path. unfold chunkFile. rewrite Hd.
  destruct IH as [fes ->]; [intros; apply Hn; by constructor|]. cbn. eauto.
Qed.

Lemma storable_sized fs files : storable fs files -> VerifyGate.sized fs files.
Proof using.
  intros H n data Hn. destruct (H n) as (data' & Hd & ?); [unfold file_data in Hn; apply bind_Some in Hn as (? & -> & _); eauto|].
  by assert (data' = data) as -> by congruence.
Qed.

Lemma build_storable fs files :
  storable fs files -> exists m, BuildManifest fs files no_metadata = Ok m /\ manifest_ok m /\
    NoDup (map Name (Files m)) /\
    Forall2 (fun n fe => exists data, file_data fs files n = Some data /\ fe = entry_of n data) (file_names files) (Files m).
Proof using.
  intros Hst. unfold BuildManifest. destruct (build_entries_total fs files (file_names files)) as [fes Hb].
  { intros n Hn%elem_file_names. destruct (Hst n Hn) as (data & -> & _). eauto. }
  assert (BuildManifest fs files no_metadata = Ok (manifestFrom fes no_metadata)) as Hm by (unfold BuildManifest; by rewrite Hb).
  rewrite Hb. eexists. split; [done|]. destruct (VerifyGate.built_ok _ _ _ _ no_metadata_ok (storable_sized _ _ Hst) Hm) as (Hok & _ & _).
  split; [done|]. cbn [Files manifestFrom]. apply VerifyGate.build_entries_spec in Hb; [|intros name; apply elem_file_names].
  split; [|done]. replace (map Name fes) with (file_names files); [apply NoDup_file_names|].
  symmetry. eapply Forall2_names; [exact Hb|]. by intros n fe (data & _ & ->).
Qed.

#[local] Instance the_blob_store : ChunkStore S := blob_store yes yes.

(** A lawful store of blobs is faithful. *)
#[local] Instance blobs_faithful : FaithfulStore S.
Proof using LB.
  refine {|
    takes := fun s fs files => sane s /\ collision_free (in_hand fs s files) /\
      forall m, BuildManifest fs files no_metadata = Ok m -> fits (Canonical m);
    keeping := fun s m c => blob_GetManifest s (manifest_digest m) = Ok (sorted_manifest m) /\ describes m c /\
      forall name data b, c name = Some data -> b ∈ blocks_of data -> blob_at s (digestBytes b) = Some b |}.
  - intros fs s files (Hsane & Hcf & Hfit) Hst. destruct (build_storable fs files Hst) as (m & Hm & Hok & Hnd & Hes).
    destruct (put_entries_spec (in_hand fs s files) fs files (file_names files) (Files m) s) as (s1 & Hput & Hmore & Hall);
      [done|intros; right; eauto|done|done|intros d b ?; left; eauto|].
    destruct (blob_put_manifest s1 m) as (r & s2 & Hseal & Hpm & Hget & Hsame); [apply Hmore|done|by apply Hfit|].
    exists s2, m. cbn [cs_PutSnapshot the_blob_store blob_store]. unfold putSnapshotBlobs. rewrite Hm, Hput, Hseal, Hpm.
    split; [done|]. split; [done|]. split; [done|]. split; [split; [done|split; [done|]]|].
    + intros name data Hd. assert (name ∈ file_names files) as Hn.
      { apply elem_file_names. unfold file_data in Hd. apply bind_Some in Hd as (? & -> & _). eauto. }
      destruct (Forall2_elem _ _ _ _ Hes Hn) as (fe & Hfe & data' & Hd' & ->). by assert (data' = data) as -> by congruence.
    + intros name data b Hd Hb. rewrite Hsame by apply Validate_digest. eapply Hall; [|done|done].
      apply elem_file_names. unfold file_data in Hd. apply bind_Some in Hd as (? & -> & _). eauto.
  - by intros s m c (H & _ & _).
  - intros s m c fs name data dst (Hget & (Hok & Hnd & Hin) & Hb) Hc. exists s. split; [|done].
    cbn [cs_MaterializeFileTo the_blob_store blob_store]. unfold materializeBlobFile. rewrite Hget. cbn [Files sorted_manifest].
    pose proof (find_entry (entry_of name data) (sort_by name_less (Files m))) as Hf. cbn [Name entry_of] in Hf.
    rewrite Hf; [|rewrite sort_by_perm; eauto|by rewrite sort_by_perm]. cbn [yes negb Chunks entry_of].
    rewrite streamBlobFile_spec, concat_blocks_of; [done|]. apply list.Forall_forall. eauto.
Defined.

End blobs.

(** *** Sealed chunks open *)

Import Envelope.

Definition envelope_ok (e : envelope) : Prop := length (aead e) = 32%nat.

Lemma length_nonceFor e d : length (nonceFor e d) = Gcm.nonceSize.
Proof. unfold nonceFor. by rewrite length_take, length_hmac. Qed.

Lemma newEnvelope_ok dek e : newEnvelope dek = Some e -> envelope_ok e.
Proof.
  unfold newEnvelope. destruct (length dek =? 32)%nat eqn:E; [|done]. intros H. apply (inj Some) in H as <-. by apply Nat.eqb_eq in E.
Qed.

Lemma seal_fits e d b : fits b -> is_Some (seal e d b).
Proof.
  intros Hb. unfold seal. destruct (Gcm.Seal_defined (aead e) (nonceFor e d) b (String.list_ascii_of_string d)) as [ct ->];
    [apply length_nonceFor|done|by eexists].
Qed.

Lemma open_seal e b r :
  envelope_ok e -> seal e (digestBytes b) b = Some r -> open e (digestBytes b) r = Ok b.
Proof.
  intros He. unfold seal. intros (ct & Hct & Hr)%bind_Some. apply (inj Some) in Hr as <-. unfold open.
  rewrite length_app, length_nonceFor, (proj2 (Nat.ltb_ge _ _)) by lia.
  rewrite take_app_length', drop_app_length' by (symmetry; apply length_nonceFor).
  by rewrite (Gcm.Open_Seal _ He _ _ _ _ Hct), String.eqb_refl.
Qed.

Lemma open_digest e d r pt : open e d r = Ok pt -> digestBytes pt = d.
Proof.
  unfold open. destruct (_ <? _)%nat; [done|]. destruct (Gcm.Open _ _ _ _) as [b|]; [|done].
  destruct (String.eqb_spec (digestBytes b) d); [|done]. congruence.
Qed.

Lemma valid_long d : Validate d = true -> (String.length d <? 2)%nat = false.
Proof. unfold Validate. intros [H _]%andb_true_iff. apply Nat.eqb_eq in H. apply Nat.ltb_ge. lia. Qed.

Section sealed.
Variable um : string -> option Manifest.

#[local] Instance the_encrypted_blobs : BlobCAS EncryptedStore := encrypted_blobs um yes.

(** What an encrypted store holds was sealed under its key. *)
Definition es_sane (s : EncryptedStore) : Prop :=
  envelope_ok (es_env s) /\ forall d b, Validate d = true -> es_chunks s !! d = Some b -> exists pt, open (es_env s) d b = Ok pt.

Lemma es_blob_at s d :
  blob_at s d = if (String.length d <? 2)%nat then None
                else b ← es_chunks s !! d; match open (es_env s) d b with Ok pt => Some pt | Err _ => None end.
Proof using.
  unfold blob_at. cbn [getChunkBlob openChunk the_encrypted_blobs encrypted_blobs]. destruct (_ <? _)%nat; [done|].
  by destruct (es_chunks s !! d).
Qed.

#[local] Instance encrypted_lawful : LawfulBlobs EncryptedStore.
Proof using.
  refine {| sane := es_sane |}.
  - intros s d b. rewrite es_blob_at. destruct (_ <? _)%nat; [done|]. intros (r & _ & H)%bind_Some.
    destruct (open (es_env s) d r) eqn:E; [|done]. injection H as ->. by eapply open_digest.
  - intros s d [_ Hs]. cbn [hasBlob the_encrypted_blobs encrypted_blobs]. unfold hasChunk. destruct (Validate d) eqn:Hv; [|done].
    intros [b Hb]%bool_decide_eq_true. rewrite es_blob_at, valid_long, Hb by done. cbn. destruct (Hs d b Hv Hb) as [pt ->]. eauto.
  - intros s b [He Hs] Hb. destruct (seal_fits (es_env s) (digestBytes b) b Hb) as [r Hr].
    eexists r, _. split; [done|]. split; [reflexivity|]. pose proof (open_seal _ _ _ He Hr) as Ho.
    assert (Validate (digestBytes b) = true) as Hv by apply Validate_digest. split_and!.
    + split; [done|]. cbn [es_chunks es_env]. intros d b' Hd Hl. destruct (decide (digestBytes b = d)) as [<-|Hne].
      * rewrite lookup_insert_eq in Hl. simplify_eq. eauto.
      * rewrite lookup_insert_ne in Hl by done. eauto.
    + rewrite es_blob_at, valid_long by done. cbn [es_chunks es_env]. rewrite lookup_insert_eq. cbn. by rewrite Ho.
    + intros d Hd Hne. rewrite !es_blob_at. cbn [es_chunks es_env]. by rewrite lookup_insert_ne by done.
  - intros s m [He Hs] Hm Hfit. destruct (seal_fits (es_env s) (manifest_digest m) (Canonical m) Hfit) as [r Hr].
    eexists r, _. split; [done|]. split; [reflexivity|]. split.
    + cbn [blob_GetManifest the_encrypted_blobs encrypted_blobs]. unfold es_GetManifest.
      assert (Validate (manifest_digest m) = true) as -> by apply Validate_digest. cbn [negb es_manifests es_env].
      rewrite lookup_insert_eq. unfold manifest_digest in *. rewrite (open_seal _ _ _ He Hr). cbn [res_bind]. by rewrite decode_Canonical.
    + intros d Hd. by rewrite !es_blob_at.
Defined.
End sealed.

(** *** Object keys *)

Lemma clean_elems_Clean p : clean_elems (Clean p) = clean_elems p.
Proof.
  destruct (is_abs p) eqn:Ha.
  - rewrite Clean_abs by done. by apply clean_elems_abs_of, clean_elems_rooted.
  - destruct (Members.clean_elems_rel p Ha) as (k & ps & He & Hps).
    destruct (Members.Clean_rel p k ps Ha He Hps) as (_ & -> & _). done.
Qed.

Lemma clean_Join_tail p names :
  Forall plain names -> names <> [] -> clean_elems (Join (p :: names)) = (if String.eqb p EmptyString then [] else clean_elems p) ++ names.
Proof.
  intros Hn Hne. cbn [Join]. destruct (String.eqb_spec p EmptyString) as [->|Hp].
  - destruct Hn as [|x names Hx Hn]; [done|]. cbn [Join]. destruct (String.eqb_spec x EmptyString) as [->|]; [by destruct Hx as [? _]|].
    rewrite clean_elems_Clean. apply (Members.clean_elems_join 0 (x :: names)); [by constructor|done].
  - rewrite clean_elems_Clean. unfold clean_elems. rewrite split_join_concat by done. cbn [map concat].
    rewrite fold_left_app, concat_split_plain, fold_clean_plain, rev_app_distr, rev_involutive by done.
    assert (is_abs (join_byte slash (p :: names)) = is_abs p) as -> by (destruct p as [|c p]; [done|]; destruct names; unfold is_abs, has_prefix; cbn [join_byte String.append cut_prefix]; by destruct (Ascii.eqb "/"%char c)). done.
Qed.

Lemma plain_digest d : Validate d = true -> plain d /\ plain (slice 0 2 d).
Proof.
  unfold Validate. intros [Hl Hd]%andb_true_iff. apply Nat.eqb_eq in Hl.
  destruct d as [|c1 [|c2 d]]; [done|done|]. cbn [string_forallb] in Hd.
  apply andb_true_iff in Hd as [H1 Hd]. apply andb_true_iff in Hd as [H2 Hd].
  assert (forall c, hex_lower c = true -> c <> slash /\ c <> "."%char) as Hc by (intros c H; split; intros ->; done).
  assert (forall t, string_forallb hex_lower t = true -> contains_byte slash t = false) as Hno.
  { clear -Hc. induction t as [|c t IH]; [done|]. cbn [string_forallb]. intros [H1 H2]%andb_true_iff.
    apply Hc in H1 as [H1 _]. unfold contains_byte in *. cbn [index_byte]. destruct (Ascii.eqb_spec slash c); [congruence|].
    specialize (IH H2). by destruct (index_byte slash t). }
  assert (slice 0 2 (String c1 (String c2 d)) = String c1 (String c2 EmptyString)) as -> by (by destruct d).
  destruct (Hc c1 H1) as [_ Hdot]. split; (split_and!; [done|congruence|congruence|]); apply Hno; cbn [string_forallb];
    by rewrite H1, H2, ?Hd.
Qed.

Section keys.
Variable s : S3Store.

Definition key_prefix : fpath := if String.eqb (s3_prefix s) EmptyString then [] else clean_elems (s3_prefix s).

Lemma chunkKey_elems d : Validate d = true -> clean_elems (chunkKey s d) = key_prefix ++ ["chunks"; slice 0 2 d; d].
Proof using. intros [H1 H2]%plain_digest. unfold chunkKey. rewrite clean_Join_tail; [done| |done]. repeat (apply Forall_cons_2; [done|]). apply Forall_nil_2. Qed.

Lemma manifestKey_elems d : Validate d = true -> clean_elems (manifestKey s d) = key_prefix ++ ["manifests"; d].
Proof using. intros [H1 _]%plain_digest. unfold manifestKey. rewrite clean_Join_tail; [done| |done]. repeat (apply Forall_cons_2; [done|]). apply Forall_nil_2. Qed.

(** Different digests have different keys, and no manifest has a chunk's. *)
Lemma chunkKey_inj d d' : Validate d = true -> Validate d' = true -> chunkKey s d = chunkKey s d' -> d = d'.
Proof using.
  intros Hd Hd' E%(f_equal clean_elems). rewrite !chunkKey_elems in E by done. by apply (inj (app key_prefix)) in E as [= _ ->].
Qed.

Lemma chunk_not_manifest d d' : Validate d = true -> Validate d' = true -> chunkKey s d <> manifestKey s d'.
Proof using.
  intros Hd Hd' E%(f_equal clean_elems). rewrite chunkKey_elems, manifestKey_elems in E by done. by apply (inj (app key_prefix)) in E.
Qed.
End keys.

Section bucket.
Variable um : string -> option Manifest.

#[local] Instance the_s3_blobs : BlobCAS S3Store := s3_blobs um yes yes yes.

(** What a bucket holds under the keys of chunks opens. *)
Definition s3_sane (s : S3Store) : Prop :=
  match s3_env s with None => True | Some e => envelope_ok e end /\
  forall d b, Validate d = true -> objects s !! chunkKey s d = Some b -> exists pt, s3_open s d b = Ok pt.

Definition put_in (s : S3Store) (key : string) (b : bytes) : S3Store := mkS3Store (s3_prefix s) (s3_env s) (<[key := b]> (objects s)).

Lemma s3_open_digest s d r pt : s3_open s d r = Ok pt -> digestBytes pt = d.
Proof using.
  unfold s3_open. destruct (s3_env s); [apply open_digest|]. destruct (String.eqb_spec (digestBytes r) d); [|done]. congruence.
Qed.

Lemma s3_open_seal s b :
  match s3_env s with None => True | Some e => envelope_ok e end -> fits b ->
  exists r, s3_seal s (digestBytes b) b = Some r /\ s3_open s (digestBytes b) r = Ok b.
Proof using.
  unfold s3_seal, s3_open. destruct (s3_env s) as [e|]; intros He Hb.
  - destruct (seal_fits e (digestBytes b) b Hb) as [r Hr]. exists r. split; [done|]. by apply open_seal.
  - exists b. by rewrite String.eqb_refl.
Qed.

Lemma s3_blob_at s d :
  blob_at s d = if (String.length d <? 2)%nat then None
                else b ← objects s !! chunkKey s d; match s3_open s d b with Ok pt => Some pt | Err _ => None end.
Proof using.
  unfold blob_at. cbn [getChunkBlob openChunk the_s3_blobs s3_blobs]. destruct (_ <? _)%nat; [done|].
  unfold readKey. cbn [yes]. by destruct (objects s !! chunkKey s d).
Qed.

Lemma s3_put_other s key b d :
  chunkKey s d <> key -> blob_at (put_in s key b) d = blob_at s d.
Proof using.
  intros Hne. rewrite !s3_blob_at. change (chunkKey (put_in s key b) d) with (chunkKey s d). cbn [put_in objects].
  by rewrite lookup_insert_ne by done.
Qed.

#[local] Instance s3_lawful : LawfulBlobs S3Store.
Proof using.
  refine {| sane := s3_sane |}.
  - intros s d b. rewrite s3_blob_at. destruct (_ <? _)%nat; [done|]. intros (r & _ & H)%bind_Some.
    destruct (s3_open s d r) eqn:E; [|done]. injection H as ->. by eapply s3_open_digest.
  - intros s d [_ Hs]. cbn [hasBlob the_s3_blobs s3_blobs]. unfold s3_hasBlob. destruct (Validate d) eqn:Hv; [|done]. cbn [negb yes andb].
    intros [b Hb]%bool_decide_eq_true. rewrite s3_blob_at, valid_long, Hb by done. cbn. destruct (Hs d b Hv Hb) as [pt ->]. eauto.
  - intros s b [He Hs] Hb. destruct (s3_open_seal s b He Hb) as (r & Hr & Ho).
    assert (Validate (digestBytes b) = true) as Hv by apply Validate_digest.
    exists r, (put_in s (chunkKey s (digestBytes b)) r). split; [done|]. split; [done|]. split_and!.
    + split; [done|]. intros d b' Hd. change (chunkKey (put_in _ _ _) d) with (chunkKey s d). cbn [put_in objects].
      destruct (decide (digestBytes b = d)) as [<-|Hne].
      * rewrite lookup_insert_eq. intros [= <-]. by exists b.
      * rewrite lookup_insert_ne by (intros E; by apply chunkKey_inj in E). by apply Hs.
    + rewrite s3_blob_at, valid_long by done. cbn [put_in objects]. change (chunkKey (put_in _ _ _) ?d) with (chunkKey s d).
      rewrite lookup_insert_eq. cbn [mbind option_bind]. change (s3_open (put_in _ _ _)) with (s3_open s). by rewrite Ho.
    + intros d Hd Hne. apply s3_put_other. intros E. by apply chunkKey_inj in E.
  - intros s m [He Hs] Hm Hfit. destruct (s3_open_seal s (Canonical m) He Hfit) as (r & Hr & Ho).
    assert (Validate (manifest_digest m) = true) as Hv by apply Validate_digest.
    exists r, (put_in s (manifestKey s (manifest_digest m)) r). split; [done|]. split; [done|]. split.
    + cbn [blob_GetManifest the_s3_blobs s3_blobs]. unfold s3_GetManifest, readKey. rewrite Hv. cbn [negb yes].
      change (manifestKey (put_in _ _ _)) with (manifestKey s). cbn [put_in objects s3_env]. rewrite lookup_insert_eq. cbn [res_bind].
      unfold s3_open in Ho. destruct (s3_env s) as [e|].
      * unfold manifest_digest. rewrite Ho. cbn [res_bind]. by rewrite decode_Canonical.
      * destruct (String.eqb (digestBytes r) _); [|done]. injection Ho as ->. cbn [res_bind]. by rewrite decode_Canonical.
    + intros d Hd. apply s3_put_other. by apply chunk_not_manifest.
Defined.
End bucket.

End Stores.

(** ** What is captured, and that it comes back *)

Module Facts.
Import Chunk Manifest Store StoreFacts Outputs Blobs Transfer Members Stores.

(** The files of an archive: its regular members that are not excluded, the last
    one of a name. *)
Definition keep (excl : list string) (c : gmap string bytes) (m : member) : gmap string bytes :=
  if h_reg m && negb (excluded (Clean (h_name m)) excl) then <[Clean (h_name m) := h_data m]> c else c.
Definition contents (excl : list string) (ms : list member) : gmap string bytes := fold_left (keep excl) ms ∅.

(** Those below the paths to capture; no paths are all of them. *)
Definition select (paths : list string) (c : gmap string bytes) : gmap string bytes :=
  if (length paths =? 0)%nat then c else filter (fun kv => underAnyPrefix kv.1 paths = true) c.

(** Files as archive members, in the order of a walk. *)
Definition members_of (c : gmap string bytes) : list member :=
  map (fun nb => mkMember true nb.1 nb.2)
    (sort_by (fun a b => walk_less (clean_elems a.1) (clean_elems b.1)) (map_to_list c)).

(** A file name as the walk spells it. *)
Definition good (n : string) : Prop := inside n /\ clean_elems n <> [] /\ Clean n = n.

Lemma good_join n : good n -> n = join_byte slash (clean_elems n).
Proof.
  intros ([Hn Hp] & Hne & Hc). destruct (Clean_rel n 0 (clean_elems n) Hn eq_refl Hp) as (_ & _ & H).
  unfold climbs in H. cbn [replicate app] in H. rewrite Hc in H. by destruct (decide _).
Qed.

Lemma good_inj n n' : good n -> good n' -> clean_elems n = clean_elems n' -> n = n'.
Proof. intros H H' E. by rewrite (good_join n), (good_join n'), E. Qed.

Lemma good_Clean n : inside n -> clean_elems n <> [] -> good (Clean n) /\ clean_elems (Clean n) = clean_elems n.
Proof.
  intros [Hn Hp] Hne. destruct (Clean_rel n 0 (clean_elems n) Hn eq_refl Hp) as (H1 & H2 & _).
  change (climbs 0 (clean_elems n)) with (clean_elems n) in H2. split; [|done].
  split; [|split; [congruence|by apply Clean_idem]]. split; [done|congruence].
Qed.

Section capture.
Variable es : fpath.
Hypothesis es_plain : Forall plain es.
Hypothesis es_deep : es <> [].

Definition place (n : string) : string := abs_of (es ++ clean_elems n).

Lemma place_elems n : inside n -> clean_elems (place n) = es ++ clean_elems n.
Proof using es_plain. intros [_ Hn]. apply clean_elems_abs_of. by apply Forall_app. Qed.

(** The temporary directory holds the files, at the places recorded. *)
Record unpacked (fs : fs_t) (files : gmap string string) (c : gmap string bytes) : Prop := {
  unpacked_names : forall n, is_Some (c !! n) -> good n;
  unpacked_files : forall n, files !! n = (fun _ => place n) <$> (c !! n);
  unpacked_data : forall n b, c !! n = Some b -> fs !! (es ++ clean_elems n) = Some b }.

Lemma unpacked_keep fs files c n b :
  unpacked fs files c -> good n -> unpacked (write_file fs (place n) b) (<[n := place n]> files) (<[n := b]> c).
Proof using es_plain.
  intros [H1 H2 H3] Hn. split.
  - intros n' [b' Hb']. destruct (decide (n = n')) as [<-|Hne]; [done|]. rewrite lookup_insert_ne in Hb' by done. eauto.
  - intros n'. destruct (decide (n = n')) as [<-|Hne]; [by rewrite !lookup_insert_eq|]. by rewrite !lookup_insert_ne.
  - intros n' b'. unfold write_file. rewrite place_elems by apply Hn. destruct (decide (n = n')) as [<-|Hne].
    + rewrite !lookup_insert_eq. done.
    + rewrite (lookup_insert_ne c) by done. intros Hb'. rewrite lookup_insert_ne; [by apply H3|].
      intros E%(inj (app es)). apply good_inj in E; eauto.
Qed.

(** Members that stay inside unpack to the archive's files. *)
Definition lands (excl : list string) (m : member) : Prop :=
  h_reg m = true -> excluded (Clean (h_name m)) excl = false -> inside (h_name m) /\ clean_elems (h_name m) <> [].

Lemma unpackTar_spec excl ms fs files c :
  Forall (lands excl) ms -> unpacked fs files c ->
  exists fs' files', unpackTar yes (abs_of es) excl ms true fs files = (fs', Ok files') /\
    unpacked fs' files' (fold_left (keep excl) ms c).
Proof using es_plain es_deep.
  intros Hms. revert fs files c. induction Hms as [|m ms Hm _ IH]; intros fs files c Hu; cbn [unpackTar fold_left]; [eauto|].
  unfold keep at 2. unfold lands in Hm. destruct (h_reg m); cbn [negb andb]; [|eauto].
  destruct (excluded (Clean (h_name m)) excl) eqn:Hex; cbn [negb]; [eauto|]. destruct (Hm eq_refl eq_refl) as [Hin Hne].
  rewrite safeJoin_inside by done. cbn [yes negb]. destruct (good_Clean _ Hin Hne) as [Hg He].
  apply IH. rewrite <- He. by apply (unpacked_keep fs files c (Clean (h_name m))).
Qed.

Lemma unpacked_file_data fs files c paths n :
  unpacked fs files c -> file_data fs (FilterFiles files paths) n = select paths c !! n.
Proof using es_plain.
  intros [H1 H2 H3]. unfold file_data, FilterFiles, select.
  assert (files !! n ≫= read_file fs = c !! n) as Hall.
  { rewrite H2. destruct (c !! n) as [b|] eqn:E; [|done]. cbn [fmap option_fmap option_map mbind option_bind const]. unfold read_file.
    rewrite place_elems by (apply H1; eauto). by apply H3. }
  destruct (_ =? _)%nat; [done|]. rewrite !map_lookup_filter. rewrite H2 in *. destruct (c !! n) as [b|]; [|done].
  cbn in *. case_guard; cbn; [done|]. done.
Qed.

Lemma unpacked_storable fs files c paths :
  unpacked fs files c ->
  (forall n b, c !! n = Some b -> is_ascii n = true /\ Z.of_nat (length b) < 2 ^ 63) -> storable fs (FilterFiles files paths).
Proof using es_plain.
  intros Hu Hc n Hn. assert (is_Some (c !! n)) as [b Hb].
  { unfold FilterFiles in Hn. assert (is_Some (files !! n)) as Hf.
    { destruct (_ =? _)%nat; [done|]. destruct Hn as [p Hp]. apply map_lookup_filter_Some in Hp as [Hp _]. eauto. }
    rewrite (unpacked_files _ _ _ Hu) in Hf. destruct (c !! n); [eauto|]. by destruct Hf. }
  destruct (Hc n b Hb) as [H1 H2]. exists b. split; [|done]. rewrite (unpacked_file_data fs files c) by done.
  unfold select, FilterFiles in *. destruct (_ =? _)%nat; [done|]. destruct Hn as [p Hp].
  apply map_lookup_filter_Some in Hp as [_ Hp]. by apply map_lookup_filter_Some.
Qed.
End capture.

(** *** The walk *)

Lemma walk_less_app es a b : walk_less (es ++ a) (es ++ b) = walk_less a b.
Proof. induction es as [|x es IH]; [done|]. cbn [app walk_less]. by rewrite String.eqb_refl. Qed.

Lemma walk_less_asym a b : walk_less a b = true -> walk_less b a = false.
Proof.
  revert b. induction a as [|x a IH]; intros [|y b]; cbn [walk_less]; [done|done|done|]. rewrite (String.eqb_sym y x).
  destruct (String.eqb x y); [apply IH|apply ltb_asym].
Qed.

Lemma walk_less_total a b : walk_less a b = false -> walk_less b a = false -> a = b.
Proof.
  revert b. induction a as [|x a IH]; intros [|y b]; cbn [walk_less]; [done|done|done|]. rewrite (String.eqb_sym y x).
  destruct (String.eqb_spec x y) as [->|Hne]; [intros; f_equal; by apply IH|].
  intros H1 H2. destruct (ltb_total x y Hne); congruence.
Qed.

Lemma walk_less_negtrans a b c : walk_less b a = false -> walk_less c b = false -> walk_less c a = false.
Proof.
  revert b c. induction a as [|x a IH]; intros [|y b] [|z c]; cbn [walk_less]; try done.
  intros H1 H2. destruct (String.eqb_spec y x) as [E1|E1], (String.eqb_spec z y) as [E2|E2],
    (String.eqb_spec z x) as [E3|E3]; try congruence; subst; [by eapply IH| |by eapply ltb_negtrans].
  destruct (ltb_total y x E1); congruence.
Qed.

Lemma sort_by_map {A B} (f : A -> B) (lessA : A -> A -> bool) (lessB : B -> B -> bool) l :
  (forall x y, lessB (f x) (f y) = lessA x y) -> sort_by lessB (map f l) = map f (sort_by lessA l).
Proof.
  intros H. induction l as [|x l IH]; [done|]. cbn [map]. change (sort_by lessB (f x :: map f l)) with (sort_insert lessB (f x) (sort_by lessB (map f l))).
  rewrite IH. change (sort_by lessA (x :: l)) with (sort_insert lessA x (sort_by lessA l)). generalize (sort_by lessA l). clear IH l.
  induction l as [|y l IH]; [done|]. cbn [map sort_insert]. rewrite H. by destruct (lessA y x); cbn [map]; [rewrite IH|].
Qed.

(** A directory whose files are those of [c] is archived as their members. *)
Lemma tarTree_spec (es : fpath) (fs : fs_t) (c : gmap string bytes) :
  Forall plain es -> (forall n, is_Some (c !! n) -> good n) ->
  map_to_list fs ≡ₚ map (fun nb => (es ++ clean_elems nb.1, nb.2)) (map_to_list c) ->
  tarTree fs (abs_of es) = members_of c.
Proof.
  intros Hes Hgood Hfs. unfold tarTree, members_of. rewrite clean_elems_abs_of by done.
  set (f := fun nb : string * bytes => (es ++ clean_elems nb.1, nb.2)) in *.
  set (less := fun a b : fpath * bytes => walk_less a.1 b.1).
  assert (List.filter (fun kv : fpath * bytes => is_prefix es kv.1) (map_to_list fs) = map_to_list fs) as ->.
  { apply forallb_filter_id, forallb_forall. intros kv Hkv%list_elem_of_In. rewrite Hfs in Hkv.
    apply list_elem_of_fmap in Hkv as (nb & -> & _). apply is_prefix_spec. by eexists. }
  assert (sort_by less (map_to_list fs) = map f (sort_by (fun a b => walk_less (clean_elems a.1) (clean_elems b.1)) (map_to_list c))) as ->.
  { rewrite <- (sort_by_map f _ less) by (intros; apply walk_less_app).
    assert (forall l, in_order less (sort_by less l)) as Hord.
    { intros l. apply sort_by_in_order; unfold less; [intros; by apply walk_less_asym|intros ? ? ?; apply walk_less_negtrans]. }
    apply (in_order_unique less); [|apply Hord|apply Hord|by rewrite !sort_by_perm].
    intros [k b] [k' b']. rewrite !sort_by_perm, !elem_of_map_to_list. unfold less. cbn [fst]. intros Hk Hk' H1 H2.
    pose proof (walk_less_total _ _ H1 H2) as ->. congruence. }
  rewrite map_map. apply map_ext_in. intros [n b] Hin%list_elem_of_In. rewrite sort_by_perm, elem_of_map_to_list in Hin.
  unfold f. cbn [fst snd]. rewrite drop_app_length. by rewrite <- (good_join n) by (apply Hgood; eauto).
Qed.

(** *** Restoring *)

Section restore.
Context {S : Type} {CS : ChunkStore S} {FS : FaithfulStore S}.
Variable es : fpath.
Hypothesis es_plain : Forall plain es.
Hypothesis es_deep : es <> [].

Definition placed (c : string -> option bytes) (fe : FileEntry) : fpath * bytes :=
  (es ++ clean_elems (Name fe), default [] (c (Name fe))).

Lemma placed_nodup c fes :
  NoDup (map Name fes) -> (forall fe, fe ∈ fes -> good (Name fe)) -> NoDup (map (placed c) fes).*1.
Proof using.
  induction fes as [|fe fes IH]; intros Hnd Hg; [constructor|]. cbn [map] in Hnd. apply list.NoDup_cons in Hnd as [Hn Hnd].
  cbn [map fmap list_fmap]. apply list.NoDup_cons. split; [|apply IH; [done|]; intros; apply Hg; by constructor].
  intros (kv & E & (fe' & -> & Hfe')%list_elem_of_fmap)%list_elem_of_fmap. unfold placed in E. cbn [fst] in E.
  apply (inj (app es)) in E. apply Hn. apply good_inj in E; [|apply Hg; by constructor|apply Hg; by constructor].
  rewrite E. apply list_elem_of_fmap. eauto.
Qed.

Lemma materialize_all_spec (m : Manifest) (c : string -> option bytes) (fes : list FileEntry) (s : S) (fs : fs_t) :
  keeping s m c -> NoDup (map Name fes) -> (forall fe, fe ∈ fes -> good (Name fe) /\ is_Some (c (Name fe))) ->
  exists s', materialize_all s fs (abs_of es) (manifest_digest m) fes = (s', Ok (list_to_map (map (placed c) fes) ∪ fs)).
Proof using es_plain es_deep.
  revert s fs. induction fes as [|fe fes IH]; intros s fs Hk Hnd Hfes; cbn [materialize_all].
  { exists s. do 2 f_equal. symmetry. apply map_empty_union. }
  destruct (Hfes fe ltac:(constructor)) as [Hg [data Hd]]. destruct Hg as (Hin & Hne & Hc).
  assert (NoDup (map (placed c) (fe :: fes)).*1) as Hkeys by (apply placed_nodup; [done|]; intros; by apply Hfes).
  rewrite safeJoin_inside by done. destruct (materialize_faithful s m c fs (Name fe) data (abs_of (es ++ clean_elems (Name fe))) Hk Hd) as (s1 & -> & Hk1).
  cbn [map] in Hnd. apply list.NoDup_cons in Hnd as [_ Hnd].
  destruct (IH s1 (write_file fs (abs_of (es ++ clean_elems (Name fe))) data) Hk1 Hnd) as [s' ->]; [intros; apply Hfes; by constructor|].
  exists s'. do 2 f_equal. unfold write_file. rewrite clean_elems_abs_of by (apply Forall_app; split; [done|apply Hin]).
  cbn [map list_to_map]. unfold placed at 2. rewrite Hd. cbn [default fst snd].
  cbn [map fmap list_fmap] in Hkeys. apply list.NoDup_cons in Hkeys as [Hfresh _].
  rewrite <- insert_union_r, insert_union_l; [done|]. apply not_elem_of_list_to_map_1. exact Hfresh.
Qed.

(** The entries of a manifest that describes files are those files. *)
Lemma entries_of_files (c : gmap string bytes) fs files m :
  (forall n, file_data fs files n = c !! n) -> storable fs files -> BuildManifest fs files no_metadata = Ok m ->
  NoDup (map Name (Files m)) /\ (forall fe, fe ∈ Files m -> is_Some (c !! Name fe)) /\
  map (fun fe => (Name fe, default [] (c !! Name fe))) (Files m) ≡ₚ map_to_list c.
Proof using.
  intros Hc Hst Hm. destruct (build_storable fs files Hst) as (m' & Hm' & _ & Hnd & _). assert (m' = m) as -> by congruence.
  destruct (VerifyGate.built_ok _ _ _ _ no_metadata_ok (storable_sized _ _ Hst) Hm) as (_ & Hes & Hin).
  assert (forall fe, fe ∈ Files m -> exists data, c !! Name fe = Some data) as Hsome.
  { intros fe Hfe. destruct (Hes fe Hfe) as (n & data & Hd & ->). exists data. by rewrite <- Hc. }
  split; [done|]. split; [intros; destruct (Hsome fe) as [? ->]; eauto|]. apply NoDup_Permutation.
  - apply (NoDup_fmap_1 fst). change (NoDup (map fst (map (fun fe => (Name fe, default [] (c !! Name fe))) (Files m)))).
    rewrite map_map. exact Hnd.
  - apply NoDup_map_to_list.
  - intros [n b]. rewrite elem_of_map_to_list. split.
    + intros (fe & [= -> ->] & Hfe)%list_elem_of_fmap. destruct (Hsome fe Hfe) as [data ->]. done.
    + intros Hb. apply list_elem_of_fmap. exists (entry_of n b). cbn [Name entry_of]. rewrite Hb. split; [done|].
      rewrite <- Hc in Hb. destruct (Hin n) as (b' & Hb' & Hfe); [unfold file_data in Hb; apply bind_Some in Hb as (? & -> & _); eauto|].
      by assert (b' = b) as -> by congruence.
Qed.
End restore.

(** *** Revisions *)

(** The manifest of a set of files, and the name of the revision they are. *)
Definition manifest_of (c : gmap string bytes) : Manifest :=
  manifestFrom (map (fun n => entry_of n (default [] (c !! n))) (sort_strings (map fst (map_to_list c)))) no_metadata.
Definition revision (c : gmap string bytes) : string := manifest_digest (manifest_of c).

Definition sized_files (c : gmap string bytes) : Prop :=
  forall n b, c !! n = Some b -> is_ascii n = true /\ Z.of_nat (length b) < 2 ^ 63.

Lemma sort_strings_unique l1 l2 : l1 ≡ₚ l2 -> sort_strings l1 = sort_strings l2.
Proof.
  intros Hp. apply (in_order_unique String.ltb).
  - intros x y _ _ H1 H2. destruct (decide (x = y)) as [|Hne]; [done|]. destruct (ltb_total x y Hne); congruence.
  - apply sort_by_in_order; [apply ltb_asym|apply ltb_negtrans].
  - apply sort_by_in_order; [apply ltb_asym|apply ltb_negtrans].
  - by rewrite !sort_strings_perm.
Qed.

Lemma build_manifest_of fs files (c : gmap string bytes) :
  (forall n, file_data fs files n = c !! n) -> storable fs files -> BuildManifest fs files no_metadata = Ok (manifest_of c).
Proof.
  intros Hc Hst. destruct (build_storable fs files Hst) as (m & Hm & _ & _ & Hes). rewrite Hm. f_equal.
  unfold BuildManifest in Hm. destruct (build_entries fs files (file_names files)) as [fes|] eqn:Hb; [|done].
  cbn [res_bind] in Hm. injection Hm as <-. cbn [Files manifestFrom] in Hes. unfold manifest_of. f_equal.
  assert (file_names files = sort_strings (map fst (map_to_list c))) as <-.
  { apply sort_strings_unique. apply NoDup_Permutation; [apply NoDup_fst_map_to_list|apply NoDup_fst_map_to_list|].
    intros n. rewrite !list_elem_of_fmap. split.
    - intros ([k p] & -> & Hk%elem_of_map_to_list). destruct (Hst k) as (data & Hd & _); [eauto|]. rewrite Hc in Hd.
      exists (k, data). split; [done|]. by apply elem_of_map_to_list.
    - intros ([k b] & -> & Hk%elem_of_map_to_list). rewrite <- Hc in Hk. unfold file_data in Hk.
      apply bind_Some in Hk as (p & Hp & _). exists (k, p). split; [done|]. by apply elem_of_map_to_list. }
  clear -Hc Hes. induction Hes as [|n fe names fes (data & Hd & ->) _ IH]; [done|]. cbn [map]. rewrite <- IH. f_equal.
  rewrite Hc in Hd. by rewrite Hd.
Qed.

(** The files of [c], laid out at the root, are stored under their own names. *)
Lemma laid_out (c : gmap string bytes) :
  (forall n, is_Some (c !! n) -> good n) ->
  exists fs files, (forall n, file_data fs files n = c !! n) /\ forall n, is_Some (files !! n) -> is_Some (c !! n).
Proof.
  intros Hg. exists (list_to_map (map (fun nb => (["root"] ++ clean_elems nb.1, nb.2)) (map_to_list c))).
  exists (map_imap (fun n _ => Some (place ["root"] n)) c).
  split; [|intros n; rewrite map_lookup_imap; destruct (c !! n); [eauto|by intros [? ?]]].
  intros n. unfold file_data. rewrite map_lookup_imap. destruct (c !! n) as [b|] eqn:Hb; [|done].
  cbn [mbind option_bind]. unfold read_file. rewrite place_elems; [|repeat constructor; done|apply Hg; eauto].
  apply elem_of_list_to_map_1'.
  - intros b' ([n' b''] & E & Hin%elem_of_map_to_list)%list_elem_of_fmap. cbn [fst snd] in E. injection E as E ->.
    apply good_inj in E; [|apply Hg; eauto..]. congruence.
  - apply list_elem_of_fmap. exists (n, b). split; [done|]. by apply elem_of_map_to_list.
Qed.

(** *** The theorems *)

Lemma capture_spec {S} {CS : ChunkStore S} {FS : FaithfulStore S} trim untar es (s : S) data ms excl paths :
  let c := contents (normalizeExcludes trim excl) ms in
  Forall plain es -> es <> [] -> untar data = (ms, true) -> Forall (lands (normalizeExcludes trim excl)) ms -> sized_files c ->
  (forall fs files, (forall n, file_data fs files n = select paths c !! n) -> storable fs files -> takes s fs files) ->
  exists s' fs files, capture trim untar yes s (abs_of es) data excl paths = (s', Ok (revision (select paths c))) /\
    (forall n, file_data fs files n = select paths c !! n) /\ storable fs files /\
    BuildManifest fs files no_metadata = Ok (manifest_of (select paths c)) /\
    keeping s' (manifest_of (select paths c)) (file_data fs files) /\ forall n, is_Some (c !! n) -> good n.
Proof.
  intros c Hes Hne Hun Hms Hsz Htakes. unfold capture. rewrite Hun.
  destruct (unpackTar_spec es Hes Hne (normalizeExcludes trim excl) ms ∅ ∅ ∅ Hms) as (fs & files & -> & Hu).
  { split; [by intros n [? ?]|done|done]. }
  change (fold_left (keep (normalizeExcludes trim excl)) ms ∅) with c in Hu.
  assert (forall n, file_data fs (FilterFiles files paths) n = select paths c !! n) as Hfd by (intros; by eapply unpacked_file_data).
  pose proof (unpacked_storable es Hes fs files c paths Hu Hsz) as Hst.
  destruct (put_faithful fs s _ (Htakes _ _ Hfd Hst) Hst) as (s' & m & -> & Hm & Hk).
  pose proof (build_manifest_of _ _ _ Hfd Hst) as Hb. assert (m = manifest_of (select paths c)) as -> by congruence.
  exists s', fs, (FilterFiles files paths). split_and!; [done|done|done|done|done|]. apply (unpacked_names _ _ _ _ Hu).
Qed.

Lemma select_sub paths (c : gmap string bytes) n b : select paths c !! n = Some b -> c !! n = Some b.
Proof. unfold select. destruct (_ =? _)%nat; [done|]. by intros [H _]%map_lookup_filter_Some. Qed.

Lemma restore_spec {S} {CS : ChunkStore S} {FS : FaithfulStore S} mktar es (s : S) (c : gmap string bytes) fs files :
  Forall plain es -> es <> [] -> (forall n, file_data fs files n = c !! n) -> storable fs files ->
  (forall n, is_Some (c !! n) -> good n) -> keeping s (manifest_of c) (file_data fs files) ->
  exists s', restore mktar true s (abs_of es) (revision c) = (s', Ok (mktar (members_of c))).
Proof.
  intros Hes Hne Hfd Hst Hg Hk. pose proof (build_manifest_of _ _ _ Hfd Hst) as Hm.
  destruct (entries_of_files c fs files (manifest_of c) Hfd Hst Hm) as (Hnd & Hsome & Hperm).
  unfold restore, revision. rewrite (get_faithful _ _ _ Hk). cbn [Files sorted_manifest].
  set (fes := sort_by name_less (Files (manifest_of c))). assert (fes ≡ₚ Files (manifest_of c)) as Hfes by apply sort_by_perm.
  assert (forall fe, fe ∈ fes -> good (Name fe) /\ is_Some (file_data fs files (Name fe))) as Hall.
  { intros fe Hfe. rewrite Hfes in Hfe. apply Hsome in Hfe. rewrite Hfd. split; [by apply Hg|done]. }
  assert (NoDup (map Name fes)) as Hnd' by (by rewrite Hfes).
  destruct (materialize_all_spec es Hes Hne (manifest_of c) (file_data fs files) fes s ∅ Hk Hnd' Hall) as [s' ->].
  exists s'. cbn [res_bind]. do 3 f_equal. apply tarTree_spec; [done|done|].
  rewrite map_union_empty, map_to_list_to_map by (apply placed_nodup; [done|]; intros; by apply Hall).
  rewrite <- Hperm, map_map, <- Hfes. apply Permutation_refl'. apply map_ext. intros fe. unfold placed. cbn [fst snd]. by rewrite Hfd.
Qed.

(** Dehydrating and hydrating lose nothing and add nothing: an archive whose
    members stay below the workspace is captured as the revision of exactly its
    files that are not excluded and lie under the captured paths, and restoring
    that revision, into any directory and from the store the capture left, sends
    the guest exactly those files, byte for byte, in the order of a walk.  This
    holds over every store that is faithful. *)
Theorem workspace_roundtrip {S} {CS : ChunkStore S} {FS : FaithfulStore S} trim untar mktar es es' (s : S) data ms excl paths :
  let c := contents (normalizeExcludes trim excl) ms in
  Forall plain es -> es <> [] -> Forall plain es' -> es' <> [] ->
  untar data = (ms, true) -> Forall (lands (normalizeExcludes trim excl)) ms -> sized_files c ->
  (forall fs files, (forall n, file_data fs files n = select paths c !! n) -> storable fs files -> takes s fs files) ->
  exists s' s'', capture trim untar yes s (abs_of es) data excl paths = (s', Ok (revision (select paths c))) /\
    restore mktar true s' (abs_of es') (revision (select paths c)) = (s'', Ok (mktar (members_of (select paths c)))).
Proof.
  intros c Hes Hne Hes' Hne' Hun Hms Hsz Ht.
  destruct (capture_spec trim untar es s data ms excl paths Hes Hne Hun Hms Hsz Ht)
    as (s' & fs & files & Hcap & Hfd & Hst & _ & Hk & Hg). exists s'.
  destruct (restore_spec mktar es' s' (select paths c) fs files Hes' Hne' Hfd Hst) as [s'' Hre]; [|done|eauto].
  intros n [b Hb%select_sub]. apply Hg. eauto.
Qed.

(** Whatever an archive says, unpacking it changes nothing outside the
    directory it is unpacked in; and it succeeds only on an archive read to its
    end, all of whose regular members that are not excluded lead down from there. *)
Theorem unpack_contained ok es excl ms eof fs files fs' r :
  Forall plain es -> es <> [] -> unpackTar ok (abs_of es) excl ms eof fs files = (fs', r) ->
  (forall k, is_prefix es k = false -> fs' !! k = fs !! k) /\
  (forall files', r = Ok files' -> eof = true /\
     Forall (fun m => h_reg m = true -> excluded (Clean (h_name m)) excl = false -> inside (h_name m)) ms).
Proof.
  intros Hes Hne. revert fs files fs' r. induction ms as [|m ms IH]; intros fs files fs' r; cbn [unpackTar].
  { intros [= <- <-]. split; [done|]. destruct eof; [|done]. intros. split; [done|constructor]. }
  assert (forall (P : member -> Prop), P m -> (forall files', r = Ok files' -> eof = true /\ Forall P ms) ->
    forall files', r = Ok files' -> eof = true /\ Forall P (m :: ms)) as Hcons.
  { intros P Hm H files' Hf. destruct (H files' Hf) as [? ?]. split; [done|]. by constructor. }
  destruct (h_reg m) eqn:Hr; cbn [negb]; [|intros H; apply IH in H as [H1 H2]; split; [done|]; apply Hcons; [congruence|done]].
  destruct (excluded _ _) eqn:Hx; [intros H; apply IH in H as [H1 H2]; split; [done|]; apply Hcons; [congruence|done]|].
  destruct (safeJoin _ _) as [target|e] eqn:Hj; [|by intros [= <- <-]].
  apply safeJoin_only in Hj as [Hin ->]; [|done..]. destruct (ok _); cbn [negb]; [|by intros [= <- <-]].
  intros H. apply IH in H as [H1 H2]. split.
  - intros k Hk. rewrite H1 by done. unfold write_file.
    rewrite clean_elems_abs_of by (apply Forall_app; split; [done|apply Hin]). apply lookup_insert_ne. intros <-.
    apply not_true_iff_false in Hk. apply Hk, is_prefix_spec. eauto.
  - by apply Hcons.
Qed.

(** The byte strings a revision hashes: the blocks of its files and its manifest. *)
Definition revision_bytes (c : gmap string bytes) (b : bytes) : Prop :=
  (exists n data, c !! n = Some data /\ b ∈ blocks_of data) \/ b = Canonical (manifest_of c).

Lemma revision_inj_sub (c1 c2 : gmap string bytes) :
  (forall n, is_Some (c1 !! n) -> good n) -> (forall n, is_Some (c2 !! n) -> good n) -> sized_files c1 -> sized_files c2 ->
  collision_free (fun b => revision_bytes c1 b \/ revision_bytes c2 b) -> revision c1 = revision c2 ->
  forall n data, c1 !! n = Some data -> c2 !! n = Some data.
Proof.
  intros Hg1 Hg2 Hs1 Hs2 Hcf E. destruct (laid_out c1 Hg1) as (fs1 & files1 & H1 & Hd1), (laid_out c2 Hg2) as (fs2 & files2 & H2 & Hd2).
  assert (forall (c : gmap string bytes) fs files, (forall n, file_data fs files n = c !! n) ->
    (forall n, is_Some (files !! n) -> is_Some (c !! n)) -> sized_files c -> storable fs files) as Hst.
  { intros c fs files Hfd Hdom Hsz n Hn. destruct (Hdom n Hn) as [b Hb]. exists b. rewrite Hfd. by destruct (Hsz n b Hb). }
  pose proof (build_manifest_of _ _ _ H1 (Hst _ _ _ H1 Hd1 Hs1)) as Hm1. pose proof (build_manifest_of _ _ _ H2 (Hst _ _ _ H2 Hd2 Hs2)) as Hm2.
  intros n data Hn. rewrite <- H2. rewrite <- H1 in Hn.
  eapply (VerifyGate.same_digest_same_files fs1 files1 fs2 files2 no_metadata); [apply no_metadata_ok|by apply storable_sized, (Hst c1)|
    by apply storable_sized, (Hst c2)| |exact Hm1|exact Hm2|exact E|done].
  assert (forall (c : gmap string bytes) fs files b, (forall n, file_data fs files n = c !! n) ->
    BuildManifest fs files no_metadata = Ok (manifest_of c) -> VerifyGate.hashed fs files no_metadata b -> revision_bytes c b) as Hh.
  { intros c fs files b Hfd Hm [(n' & d' & Hd' & Hb)|(m & Hm' & ->)]; [left; rewrite Hfd in Hd'; eauto|right; congruence]. }
  intros a b Ha Hb. apply Hcf; [destruct Ha|destruct Hb]; eauto.
Qed.

(** A revision's digest names its files and nothing else: as long as SHA-256
    separates the blocks and the manifests of two captures, they have the same
    digest exactly when they hold the same files with the same bytes, whatever
    archive, directory, store or key they came through. *)
Theorem revision_exact (c1 c2 : gmap string bytes) :
  (forall n, is_Some (c1 !! n) -> good n) -> (forall n, is_Some (c2 !! n) -> good n) -> sized_files c1 -> sized_files c2 ->
  collision_free (fun b => revision_bytes c1 b \/ revision_bytes c2 b) ->
  revision c1 = revision c2 <-> c1 = c2.
Proof.
  intros Hg1 Hg2 Hs1 Hs2 Hcf. split; [|by intros ->]. intros E. apply map_eq. intros n. apply option_eq. intros b. split.
  - by apply revision_inj_sub.
  - apply revision_inj_sub; try done. intros x y Hx Hy. apply Hcf; tauto.
Qed.

(** *** Diffs *)

Definition bar : ascii := "|"%char.

Lemma sig_text_join cs : sig_text cs = join_byte bar (map Digest cs).
Proof.
  induction cs as [|c cs IH]; [done|]. destruct cs as [|c' cs]; [done|]. cbn [sig_text map join_byte]. cbn [sig_text map] in IH.
  by rewrite IH.
Qed.

Lemma digest_no_bar b : contains_byte bar (digestBytes b) = false.
Proof.
  pose proof (Validate_digest b) as H. unfold Validate in H. apply andb_true_iff in H as [_ H]. revert H. generalize (digestBytes b).
  induction s as [|c s IH]; [done|]. cbn [string_forallb]. intros [H1 H2]%andb_true_iff. unfold contains_byte in *. cbn [index_byte].
  destruct (Ascii.eqb_spec bar c) as [<-|]; [done|]. specialize (IH H2). by destruct (index_byte bar s).
Qed.

Lemma sig_blocks (P : bytes -> Prop) bs bs' :
  collision_free P -> Forall P bs -> Forall P bs' -> sig_text (map ref_of bs) = sig_text (map ref_of bs') -> bs = bs'.
Proof.
  intros Hcf Hb Hb'. rewrite !sig_text_join, !map_map.
  change (map (fun x => Digest (ref_of x)) ?l) with (map digestBytes l).
  assert (forall l, Forall (fun f => contains_byte bar f = false) (map digestBytes l)) as Hno.
  { intros l. apply list.Forall_forall. intros x (b & -> & _)%list_elem_of_fmap. apply digest_no_bar. }
  assert (forall l, map digestBytes l <> [] -> join_byte bar (map digestBytes l) <> EmptyString) as Hnil.
  { intros [|b l] H E; [done|]. apply (f_equal (split_byte bar)) in E. rewrite split_join in E by done. cbn [map split_byte] in E.
    apply (inj2 cons) in E as [E _]. apply (f_equal String.length) in E. by rewrite digest_length in E. }
  intros E. assert (map digestBytes bs = map digestBytes bs') as Ed.
  { destruct (decide (map digestBytes bs = [])) as [E1|E1], (decide (map digestBytes bs' = [])) as [E2|E2].
    - by rewrite E1, E2.
    - rewrite E1 in E. symmetry in E. by apply Hnil in E.
    - rewrite E2 in E. by apply Hnil in E.
    - apply (f_equal (split_byte bar)) in E. by rewrite !split_join in E by done. }
  clear -Hcf Hb Hb' Ed. revert bs' Hb' Ed. induction Hb as [|b bs Hb _ IH]; intros [|b' bs'] Hb' E; [done|done|done|].
  inversion Hb'; subst. cbn [map] in E. apply (inj2 cons) in E as [E1 E2]. f_equal; [by apply Hcf|by apply IH].
Qed.

Lemma chunkSig_spec m n :
  NoDup (map Name (Files m)) ->
  chunkSig m !! n = (fun fe => sig_text (Chunks fe)) <$> List.find (fun fe => String.eqb (Name fe) n) (Files m).
Proof.
  intros Hnd. unfold chunkSig.
  assert (forall fes (acc : gmap string string), NoDup (map Name fes) ->
    fold_left (fun out fe => <[Name fe := sig_text (Chunks fe)]> out) fes acc !! n =
    match List.find (fun fe => String.eqb (Name fe) n) fes with Some fe => Some (sig_text (Chunks fe)) | None => acc !! n end) as H.
  { induction fes as [|fe fes IH]; intros acc Hfes; [done|]. cbn [map] in Hfes. apply list.NoDup_cons in Hfes as [Hn Hfes].
    cbn [fold_left List.find]. rewrite IH by done. destruct (String.eqb_spec (Name fe) n) as [<-|Hne].
    - destruct (List.find _ fes) as [fe'|] eqn:E; [|by rewrite lookup_insert_eq]. exfalso. apply find_some in E as [Hin Hname].
      apply String.eqb_eq in Hname. apply Hn. rewrite <- Hname. apply list_elem_of_fmap. exists fe'. split; [done|]. by apply list_elem_of_In.
    - destruct (List.find _ fes); [done|]. by rewrite lookup_insert_ne. }
  rewrite H by done. by destruct (List.find _ _).
Qed.

Lemma elem_names {V} (m : gmap string V) n : n ∈ sort_strings (map fst (map_to_list m)) <-> is_Some (m !! n).
Proof.
  rewrite sort_strings_perm, list_elem_of_fmap. split.
  - intros ([k b] & -> & H%elem_of_map_to_list). eauto.
  - intros [b Hb]. exists (n, b). split; [done|]. by apply elem_of_map_to_list.
Qed.

Lemma sig_manifest_of (c : gmap string bytes) n :
  chunkSig (manifest_of c) !! n = (fun data => sig_text (map ref_of (blocks_of data))) <$> c !! n.
Proof.
  set (names := sort_strings (map fst (map_to_list c))).
  assert (map Name (Files (manifest_of c)) = names) as Hnames by (cbn; rewrite map_map; apply map_id).
  rewrite chunkSig_spec by (rewrite Hnames; unfold names; rewrite sort_strings_perm; apply NoDup_fst_map_to_list).
  cbn [Files manifest_of manifestFrom]. fold names.
  assert (n ∈ names <-> is_Some (c !! n)) as Hin by apply elem_names.
  clearbody names. clear Hnames. destruct (List.find _ _) as [fe|] eqn:E.
  - apply find_some in E as [Hfe Hn]. apply in_map_iff in Hfe as (k & <- & Hk). cbn [Name entry_of] in Hn.
    apply String.eqb_eq in Hn as ->. apply list_elem_of_In, Hin in Hk as [b ->]. done.
  - destruct (c !! n) as [b|] eqn:Hb; [|done]. exfalso. destruct Hin as [_ Hin]. specialize (Hin ltac:(eauto)). apply list_elem_of_In in Hin.
    pose proof (find_none _ _ E (entry_of n (default [] (c !! n)))) as H. cbn [Name entry_of] in H. rewrite String.eqb_refl in H.
    apply diff_true_false, H. apply in_map_iff. eauto.
Qed.

(** The diff of two revisions lists exactly the files only the child has, those
    only the parent has, and those both have with different bytes, although it
    looks at nothing but the digests in the two manifests; SHA-256 must separate
    the blocks of their files. *)
Theorem diff_exact (c1 c2 : gmap string bytes) n :
  collision_free (fun b => exists name data, (c1 !! name = Some data \/ c2 !! name = Some data) /\ b ∈ blocks_of data) ->
  let d := DiffManifests (manifest_of c1) (manifest_of c2) in
  (n ∈ Added d <-> c1 !! n = None /\ is_Some (c2 !! n)) /\ (n ∈ Removed d <-> c2 !! n = None /\ is_Some (c1 !! n)) /\
  (n ∈ Modified d <-> exists a b, c1 !! n = Some a /\ c2 !! n = Some b /\ a <> b).
Proof.
  intros Hcf d. unfold d, DiffManifests. cbn [Added Removed Modified]. rewrite !elem_names. unfold is_Some at 1 3 5.
  setoid_rewrite map_lookup_filter_Some. cbn [fst snd]. rewrite !sig_manifest_of. split_and!.
  - destruct (c1 !! n), (c2 !! n); cbn; naive_solver.
  - destruct (c1 !! n), (c2 !! n); cbn; naive_solver.
  - destruct (c1 !! n) as [a|] eqn:E1, (c2 !! n) as [b|] eqn:E2; cbn; [|naive_solver..]. split.
    + intros (x & [= <-] & _ & Hne). exists a, b. split_and!; [done|done|]. by intros ->.
    + intros (a' & b' & [= <-] & [= <-] & Hab). eexists. split; [done|]. split; [eauto|]. intros [= E]. apply Hab.
      rewrite <- (concat_blocks_of a), <- (concat_blocks_of b). f_equal. eapply sig_blocks; [exact Hcf| | |exact E];
        apply list.Forall_forall; eauto.
Qed.

End Facts.

(** ** Examples *)

Module WorkspaceExamples.
Import Chunk Manifest Store StoreFacts Outputs Blobs Envelope Transfer Members Stores Facts.

Definition text (s : string) : bytes := String.list_ascii_of_string s.

(** A guest with a build output and a dependency it does not want kept. *)
Definition ex_archive : list member :=
  [mkMember false "dist/" []; mkMember true "./dist/app" (text "x"); mkMember true "node_modules/dep" (text "y");
   mkMember true "notes" (text "z")].
Definition ex_untar (_ : string) : list member * bool := (ex_archive, true).
Definition ex_mktar (ms : list member) : string := fold_right (fun m r => h_name m +:+ "=" +:+ String.string_of_list_ascii (h_data m) +:+ r) EmptyString ms.
Definition ex_kept : gmap string bytes := {["dist/app" := text "x"]}.
Definition no_other (_ : string) : option Manifest := None.
Definition same_text (s : string) : string := s.

(** A store sealed under a key of 32 zero bytes, with nothing in it yet. *)
Definition ex_sealed : EncryptedStore := mkEncryptedStore (mkEnvelope (replicate 32 Ascii.zero) (text "n")) ∅ ∅.
#[local] Instance ex_blobs : BlobCAS EncryptedStore := encrypted_blobs no_other yes.
#[local] Instance ex_lawful : LawfulBlobs EncryptedStore := encrypted_lawful no_other.
#[local] Instance ex_store : ChunkStore EncryptedStore := blob_store yes yes.
#[local] Instance ex_faithful : FaithfulStore EncryptedStore := blobs_faithful.

Lemma ws_selected :
  select ["dist"] (contents (normalizeExcludes same_text ["/workspace/node_modules"]) ex_archive) = ex_kept.
Proof. vm_compute. reflexivity. Qed.

Lemma ex_takes fs files :
  (forall n, file_data fs files n = ex_kept !! n) -> storable fs files -> takes ex_sealed fs files.
Proof.
  intros Hfd Hst. split; [by split|]. split.
  - assert (forall b, in_hand fs ex_sealed files b -> b = text "x") as H1.
    { intros b [(d & Hd)|(n & data & Hn & Hb)].
      - pose proof (eq_trans (eq_sym Hd) (es_blob_at no_other ex_sealed d)) as E. by destruct (_ <? _)%nat.
      - rewrite Hfd in Hn. unfold ex_kept in Hn. apply lookup_singleton_Some in Hn as [_ <-].
        assert (blocks_of (text "x") = [text "x"]) as E by (by vm_compute). rewrite E in Hb. by apply list_elem_of_singleton in Hb. }
    intros a b Ha%H1 Hb%H1 _. congruence.
  - intros m Hm. rewrite (build_manifest_of fs files ex_kept Hfd Hst) in Hm. injection Hm as <-. by vm_compute.
Qed.

Lemma ex_lands : Forall (lands (normalizeExcludes same_text ["/workspace/node_modules"])) ex_archive.
Proof.
  unfold ex_archive. repeat (apply Forall_cons_2); try apply Forall_nil_2; intros Hr Hx; try done; try (by vm_compute in Hx);
    (split; [by apply (bool_decide_eq_true_1 (inside _)); vm_compute|by vm_compute]).
Qed.

Lemma ex_sized : sized_files (contents (normalizeExcludes same_text ["/workspace/node_modules"]) ex_archive).
Proof.
  intros n b H. assert (contents (normalizeExcludes same_text ["/workspace/node_modules"]) ex_archive =
    {["dist/app" := text "x"; "notes" := text "z"]}) as E by (vm_compute; reflexivity).
  rewrite E in H. apply lookup_insert_Some in H as [[<- <-]|[_ H]]; [done|]. by apply lookup_singleton_Some in H as [<- <-].
Qed.

(** The round trip over the sealed store. *)
Lemma workspace_roundtrip_witness :
  exists s' s'', capture same_text ex_untar yes ex_sealed "/tmp/a" EmptyString ["/workspace/node_modules"] ["dist"]
      = (s', Ok (revision ex_kept)) /\
    restore ex_mktar true s' "/tmp/b" (revision ex_kept) = (s'', Ok "dist/app=x").
Proof.
  destruct (workspace_roundtrip same_text ex_untar ex_mktar ["tmp"; "a"] ["tmp"; "b"] ex_sealed EmptyString ex_archive
    ["/workspace/node_modules"] ["dist"]) as (s' & s'' & H1 & H2); [by repeat constructor|done|by repeat constructor|done|done|
    apply ex_lands|apply ex_sized|rewrite ws_selected; apply ex_takes|].
  rewrite ws_selected in H1, H2. exists s', s''. split; [exact H1|].
  assert (ex_mktar (members_of ex_kept) = "dist/app=x") as E by (by vm_compute). rewrite E in H2. exact H2.
Defined.

(** A member that climbs is refused, and what precedes it stays inside. *)
Definition hostile : list member := [mkMember true "a" (text "x"); mkMember true "b/../../etc/passwd" (text "y")].

Lemma unpack_contained_witness :
  let '(fs, r) := unpackTar yes "/tmp/a" [] hostile true {[["etc"; "passwd"] := text "root"]} ∅ in
  r = Err (BadMember EscapingMember) /\ fs !! ["etc"; "passwd"] = Some (text "root").
Proof.
  destruct (unpackTar yes "/tmp/a" [] hostile true {[["etc"; "passwd"] := text "root"]} ∅) as [fs r] eqn:E.
  split; [apply (f_equal snd) in E; cbn [snd] in E; rewrite <- E; vm_compute; reflexivity|].
  destruct (unpack_contained yes ["tmp"; "a"] [] hostile true {[["etc"; "passwd"] := text "root"]} ∅ fs r) as [H _];
    [by repeat constructor|done|exact E|]. rewrite (H ["etc"; "passwd"] eq_refl). by vm_compute.
Defined.

(** Two revisions of one file. *)
Definition ex_kept2 : gmap string bytes := {["dist/app" := text "y"]}.
Lemma ex_good t n : is_Some (({["dist/app" := t]} : gmap string bytes) !! n) -> good n.
Proof.
  intros [b [<- _]%lookup_singleton_Some]. split; [by apply (bool_decide_eq_true_1 (inside _)); vm_compute|]. by vm_compute.
Qed.
Lemma ex_small t : sized_files {["dist/app" := text (String t EmptyString)]}.
Proof. by intros n b [<- <-]%lookup_singleton_Some. Qed.

Lemma revision_exact_witness : revision ex_kept <> revision ex_kept2.
Proof.
  assert (forall b, revision_bytes ex_kept b \/ revision_bytes ex_kept2 b ->
    b ∈ [text "x"; text "y"; Canonical (manifest_of ex_kept); Canonical (manifest_of ex_kept2)]) as Hin.
  { assert (forall t : string, blocks_of (text t) = [text t] -> forall n data b, ({["dist/app" := text t]} : gmap string bytes) !! n = Some data ->
      b ∈ blocks_of data -> b = text t) as H1.
    { intros t Ht n data b [_ <-]%lookup_singleton_Some. rewrite Ht. by intros ?%list_elem_of_singleton. }
    assert (blocks_of (text "x") = [text "x"]) as Ex by (by vm_compute). assert (blocks_of (text "y") = [text "y"]) as Ey by (by vm_compute).
    intros b [[(n & data & Hn & Hb)| ->]|[(n & data & Hn & Hb)| ->]].
    - rewrite (H1 "x" Ex n data b Hn Hb). apply elem_of_cons. left. reflexivity.
    - do 2 (apply elem_of_cons; right). apply elem_of_cons. left. reflexivity.
    - rewrite (H1 "y" Ey n data b Hn Hb). apply elem_of_cons. right. apply elem_of_cons. left. reflexivity.
    - do 3 (apply elem_of_cons; right). apply elem_of_cons. left. reflexivity. }
  intros E. apply revision_exact in E.
  - apply (f_equal (fun c : gmap string bytes => c !! "dist/app")) in E. unfold ex_kept, ex_kept2 in E.
    by rewrite !lookup_singleton_eq in E.
  - apply ex_good.
  - apply ex_good.
  - apply ex_small.
  - apply ex_small.
  - assert (NoDup (map digestBytes [text "x"; text "y"; Canonical (manifest_of ex_kept); Canonical (manifest_of ex_kept2)])) as Hnd.
    { apply (bool_decide_eq_true_1 (NoDup _)). vm_compute. reflexivity. }
    intros x y Hx%Hin Hy%Hin Exy. clear -Hnd Hx Hy Exy.
    apply list_elem_of_lookup in Hx as [i Hi], Hy as [j Hj].
    assert (i = j) as ->; [|congruence]. eapply (NoDup_lookup _ _ _ (digestBytes x) Hnd); [by rewrite list_lookup_fmap, Hi|].
    rewrite list_lookup_fmap, Hj. cbn. by rewrite Exy.
Defined.

Lemma diff_exact_witness : "dist/app" ∈ Modified (DiffManifests (manifest_of ex_kept) (manifest_of ex_kept2)).
Proof.
  destruct (diff_exact ex_kept ex_kept2 "dist/app") as (_ & _ & H).
  - assert (blocks_of (text "x") = [text "x"]) as Ex by (by vm_compute). assert (blocks_of (text "y") = [text "y"]) as Ey by (by vm_compute).
    assert (forall b, (exists n data, (ex_kept !! n = Some data \/ ex_kept2 !! n = Some data) /\ b ∈ blocks_of data) ->
      b = text "x" \/ b = text "y") as Hb.
    { unfold ex_kept, ex_kept2. intros b (n & data & Hn & Hb). destruct Hn as [Hn|Hn]; apply lookup_singleton_Some in Hn as [_ <-];
        rewrite ?Ex, ?Ey in Hb; apply list_elem_of_singleton in Hb; tauto. }
    assert (digestBytes (text "x") <> digestBytes (text "y")) as Hne by (by vm_compute).
    intros u v [-> | ->]%Hb [-> | ->]%Hb E; congruence.
  - apply H. exists (text "x"), (text "y"). unfold ex_kept, ex_kept2. by rewrite !lookup_singleton_eq.
Defined.

(** An output that names the workspace itself captures nothing, because the
    root is only recognised with a separator behind it. *)
Example workspace_root_captures_nothing :
  CapturePaths same_text ["/workspace"] = ["workspace"] /\
  FilterFiles {["dist/app" := "/tmp/a/dist/app"]} (CapturePaths same_text ["/workspace"]) = ∅ /\
  CapturePaths same_text ["/"; "dist"] = ["dist"].
Proof. by vm_compute. Qed.

(** Chunks are skipped by their plaintext digest: a second key over the same
    directory takes the first key's chunks for its own, and its revision cannot
    be read. *)
Definition under_key (c : ascii) (chunks manifests : gmap string bytes) : option EncryptedStore :=
  NewEncryptedStore (replicate 32 c) chunks manifests.

Example second_key_loses_data :
  (a ← under_key "a"%char ∅ ∅;
   let '(a', r1) := capture same_text ex_untar yes a "/tmp/a" EmptyString [] ["dist"] in
   b ← under_key "b"%char (es_chunks a') ∅;
   let '(b', r2) := capture same_text ex_untar yes b "/tmp/a" EmptyString [] ["dist"] in
   Some (r1, r2, (restore ex_mktar true b' "/tmp/b" (revision ex_kept)).2))
  = Some (Ok (revision ex_kept), Ok (revision ex_kept), Err AuthFailed).
Proof. vm_compute. reflexivity. Qed.

(** A bucket that answers with another manifest is believed. *)
#[local] Instance ex_bucket_blobs : BlobCAS S3Store := s3_blobs no_other yes yes yes.
#[local] Instance ex_bucket : ChunkStore S3Store := blob_store yes yes.

Example bucket_manifest_unverified :
  let s0 := mkS3Store "ws" None ∅ in
  let '(s1, _) := capture same_text ex_untar yes s0 "/tmp/a" EmptyString [] ["dist"] in
  let '(s2, _) := capture same_text ex_untar yes s1 "/tmp/a" EmptyString [] ["notes"] in
  let other : gmap string bytes := {["notes" := text "z"]} in
  let s3 := mkS3Store "ws" None (<[manifestKey s2 (revision ex_kept) := Canonical (manifest_of other)]> (objects s2)) in
  (restore ex_mktar true s3 "/tmp/b" (revision ex_kept)).2 = Ok "notes=z".
Proof. vm_compute. reflexivity. Qed.

End WorkspaceExamples.
