(* ===== verification/Agent.v ===== *)
(** * The guest agent (guest/agent, internal/guestenv)

    The process that runs as init inside a sandbox and answers the host.

    - [GuestEnv]: the environment of a session.
    - [Agent]: the handlers of every request, the streams of an execution, of
      run_code and of a terminal, and the loop of a connection, as programs over
      the guest's system calls.  The agent's memory is the configured environment
      and whether the kernel runs. *)
From S2P Require Import Prelude GoLib GoFs Host Guarded Vsock Workspace.
#[local] Open Scope go_scope.

(** ** internal/guestenv *)

Module GuestEnv.

Definition equals : ascii := "=".

(** The values so far and the names in the order they were first set. *)
Definition set (st : gmap string string * list string) (kv : string * string) : gmap string string * list string :=
  let '(merged, order) := st in
  (<[kv.1 := kv.2]> merged, if bool_decide (is_Some (merged !! kv.1)) then order else order ++ [kv.1]).

(** [range] gives the entries of a map in the order a range statement visits them. *)
Definition Merge (range : gmap string string -> list (string * string)) (base : list string) (configured request : gmap string string)
  : list string :=
  let verbatim := List.filter (fun kv => bool_decide (cut_byte equals kv = None)) base in
  let '(merged, order) := fold_left set (omap (cut_byte equals) base ++ range configured ++ range request) (∅, []) in
  verbatim ++ map (fun k => k +:+ "=" +:+ default EmptyString (merged !! k)) order.

End GuestEnv.

(** ** guest/agent *)

Module Agent.
Import Vsock Outputs.

(** The parts of the kernel manager that change; executions are serialised by its
    mutex, which is left out: the interleavings without it include those with it. *)
Record agent := mkAgent { ag_configured : gmap string string; k_started : bool; k_dead : bool }.
Definition with_configured (f : gmap string string -> gmap string string) (a : agent) : agent :=
  mkAgent (f (ag_configured a)) (k_started a) (k_dead a).
Definition set_started (a : agent) : agent := mkAgent (ag_configured a) true (k_dead a).
Definition set_dead (a : agent) : agent := mkAgent (ag_configured a) (k_started a) true.

Definition workspaceRoot : string := "/workspace".
Definition clockStepThresholdNanos : Z := 500 * 1000 * 1000.
Definition guestNetIface : string := "eth0".
Definition resolvConfPath : string := "/etc/resolv.conf".
Definition volumeFSType : string := "ext4".
Definition defaultDriverPath : string := "/opt/mitos/kernel_driver.py".
Definition SIGKILL : Z := 9.
Definition SIGUSR2 : Z := 12.

(** archive/tar members: their type, name and bytes. *)
Inductive tar_type := TypeDir | TypeReg | TypeOther.
Record tar_member := mkTarMember { tm_type : tar_type; tm_name : string; tm_data : bytes }.

Definition ask (q : gcall) : prog agent (ganswer q) := sys (CGuest q).

(** Responses *)
Definition failed (msg : string) : agent_response := mkResponse false msg None None None None None None.
Definition succeeded : agent_response := mkResponse true EmptyString None None None None None None.

Section agent.
(** The %q of a string; the order of a range; [strings.Fields] of texts that are not
    ASCII; archive/tar: the archive of a list of members, and the members an archive
    reads as with the error that ended the reading, if one did. *)
Variable quoted : string -> string.
Variable range : gmap string string -> list (string * string).
Variable fields_other : string -> list string.
Variable mktar : list tar_member -> string.
Variable untar : string -> list tar_member * option string.
(** The structured part of a result or error frame, from its name and value. *)
Variable payload : string -> string -> string.

(** *** The environment *)

Definition handleConfigure (env secrets : gmap string string) : prog agent agent_response :=
  _ ← modify (with_configured (fun m => secrets ∪ (env ∪ m)));
  mret succeeded.

Definition session_env (env : gmap string string) : prog agent (list string) :=
  configured ← atomic (fun g => (ag_configured g, g));
  base ← ask GEnviron;
  mret (GuestEnv.Merge range base configured env).

(** *** Commands *)

Definition work_dir (dir : string) : string := if String.eqb dir EmptyString then workspaceRoot else dir.
Definition exec_timeout (timeout : Z) : Z :=
  let d := i64 (timeout * second) in if d =? 0 then 30 * second else d.

Definition exec_code (err : option run_error) (deadline : bool) : Z :=
  match err with
  | None => 0
  | Some (ExitError code) => code
  | Some OtherError => if deadline then 124 else 1
  end.

Definition handleExec (command dir : string) (env : gmap string string) (timeout : Z) : prog agent agent_response :=
  e ← session_env env;
  '(stdout, stderr, err, deadline) ← ask (GRun command (work_dir dir) e (exec_timeout timeout));
  mret (mkResponse true EmptyString None (Some (exec_code err deadline, stdout, stderr)) None None None None).

(** *** Files *)

Definition handleReadFile (path : string) : prog agent agent_response :=
  d ← ask (GReadFile path);
  mret (match d with
        | Err msg => failed msg
        | Ok data => mkResponse true EmptyString None None (Some data) None None None
        end).

Definition handleWriteFile (path content : string) (mode : Z) : prog agent agent_response :=
  d ← ask (GMkdirAll (Dir path));
  match d with
  | Err msg => mret (failed msg)
  | Ok _ =>
      w ← ask (GWriteFile path content (if mode =? 0 then 420 else mode));
      mret (match w with Err msg => failed msg | Ok _ => succeeded end)
  end.

(** Entries whose metadata cannot be read are left out. *)
Definition handleListDir (path : string) : prog agent agent_response :=
  d ← ask (GReadDir path);
  mret (match d with
        | Err msg => failed msg
        | Ok entries => mkResponse true EmptyString None None None (Some (map fst (List.filter snd entries))) None None
        end).

Definition done_or (p : prog agent (res string unit)) : prog agent agent_response :=
  x ← p; mret (match x with Err msg => failed msg | Ok _ => succeeded end).

(** *** The transfer of a workspace *)

Definition pathAllowed (p : string) : bool :=
  if String.eqb p EmptyString then false
  else
    let clean := Clean p in
    String.eqb clean workspaceRoot || has_prefix (workspaceRoot +:+ "/") clean.

(** A member's bytes must be as many as its header says. *)
Definition size_error (path : string) : string := "archive/tar: wrong number of bytes in " +:+ path.

Fixpoint tar_walk (dir : string) (entries : list (list string * walk_entry)) (ms : list tar_member)
  : prog agent (res string (list tar_member)) :=
  match entries with
  | [] => mret (Ok ms)
  | (rel, e) :: entries =>
      match e with
      | WalkFailed msg => mret (Err msg)
      | WalkDir =>
          tar_walk dir entries (match rel with [] => ms | _ => ms ++ [mkTarMember TypeDir (join_byte slash rel +:+ "/") []] end)
      | WalkFile size =>
          if bool_decide (rel = []) then tar_walk dir entries ms
          else
            let path := Join (dir :: rel) in
            must data := ask (GReadAll path) in
            if negb (Z.of_nat (length data) =? size) then mret (Err (size_error path))
            else tar_walk dir entries (ms ++ [mkTarMember TypeReg (join_byte slash rel) data])
      | WalkOther => tar_walk dir entries ms
      end
  end.

Definition tarDir (dir : string) : prog agent (res string string) :=
  s ← ask (GStat dir);
  match s with
  | StatAbsent => mret (Ok (mktar []))
  | StatFailed msg => mret (Err msg)
  | StatInfo false => mret (Err (dir +:+ " is not a directory"))
  | StatInfo true =>
      entries ← ask (GWalk dir);
      must ms := tar_walk dir entries [] in
      mret (Ok (mktar ms))
  end.

Definition outside (op path : string) : string := op +:+ ": path " +:+ quoted path +:+ " is outside the workspace transfer allowlist".
Definition too_big (op : string) (n : Z) : string := op +:+ ": tar size " +:+ format_d n +:+ " exceeds max " +:+ format_d MaxTarBytes.

Definition handleTarDir (path : string) : prog agent agent_response :=
  if negb (pathAllowed path) then mret (failed (outside "tar_dir" path))
  else
    t ← tarDir path;
    mret (match t with
          | Err msg => failed ("tar_dir: " +:+ msg)
          | Ok data =>
              let n := Z.of_nat (String.length data) in
              if MaxTarBytes <? n then failed (too_big "tar_dir" n)
              else mkResponse true EmptyString None None None None None (Some data)
          end).

(** Reads are bounded by the size of an archive. *)
Definition limited (data : bytes) : bytes :=
  if Z.of_nat (length data) <=? MaxTarBytes then data else take (Z.to_nat MaxTarBytes) data.

Definition writeRegular (target : string) (data : bytes) : prog agent (res string unit) :=
  must _ := ask (GOpenTrunc target) in
  c ← ask (GCopy target (limited data));
  match c with
  | Err msg => _ ← ask (GClose target); mret (Err msg)
  | Ok _ => ask (GClose target)
  end.

Definition member_error (name : string) (e : join_error) : string :=
  match e with
  | EmptyMember => "empty tar member name"
  | AbsoluteMember => "refusing absolute tar member " +:+ quoted name
  | EscapingMember => "refusing tar member " +:+ quoted name +:+ ": escapes target directory"
  | OutsideMember => "refusing tar member " +:+ quoted name +:+ ": resolves outside target directory"
  end.

(** [safeJoin] is the same code as the host's. *)
Fixpoint untar_members (dst : string) (ms : list tar_member) (err : option string) : prog agent (res string unit) :=
  match ms with
  | [] => mret (match err with Some msg => Err msg | None => Ok tt end)
  | m :: ms =>
      match safeJoin dst (tm_name m) with
      | Err e => mret (Err (member_error (tm_name m) e))
      | Ok target =>
          match tm_type m with
          | TypeDir => must _ := ask (GMkdirAll target) in untar_members dst ms err
          | TypeReg =>
              must _ := ask (GMkdirAll (Dir target)) in
              must _ := writeRegular target (tm_data m) in
              untar_members dst ms err
          | TypeOther => mret (Err ("refusing tar member " +:+ quoted (tm_name m) +:+ " with unsupported type"))
          end
      end
  end.

Definition untarDir (dst data : string) : prog agent (res string unit) :=
  must _ := ask (GMkdirAll dst) in
  let '(ms, err) := untar data in untar_members dst ms err.

Definition handleUntarDir (path tar : string) : prog agent agent_response :=
  if negb (pathAllowed path) then mret (failed (outside "untar_dir" path))
  else
    let n := Z.of_nat (String.length tar) in
    if MaxTarBytes <? n then mret (failed (too_big "untar_dir" n))
    else
      u ← untarDir path tar;
      mret (match u with Err msg => failed ("untar_dir: " +:+ msg) | Ok _ => succeeded end).

(** *** After a fork *)

Definition le32 (z : Z) : bytes := map (fun i => z_byte (Z.shiftr (u32 z) (8 * i))) [0; 1; 2; 3].
(** struct rand_pool_info *)
Definition rand_pool_info (entropy : bytes) : bytes :=
  let n := Z.of_nat (length entropy) in le32 (n * 8) ++ le32 n ++ entropy.

Definition reseedCRNG (entropy : bytes) : prog agent bool :=
  if (length entropy =? 0)%nat then mret false
  else
    f ← ask GOpenRandom;
    match f with
    | Err _ => mret false
    | Ok _ =>
        a ← ask (GAddEntropy (rand_pool_info entropy));
        ok ← (if is_ok a then mret true else w ← ask (GMixEntropy entropy); mret (is_ok w));
        _ ← ask (GClose "/dev/urandom");
        mret ok
    end.

Definition stepClock (hostWallClockNanos : Z) : prog agent Z :=
  if hostWallClockNanos =? 0 then mret 0
  else
    t ← ask GClockGet;
    match t with
    | None => mret 0
    | Some guestNanos =>
        let drift := i64 (hostWallClockNanos - guestNanos) in
        if (if drift <? 0 then i64 (- drift) <=? clockStepThresholdNanos else drift <=? clockStepThresholdNanos) then mret 0
        else
          s ← ask (GClockSet hostWallClockNanos);
          mret (if is_ok s then drift else 0)
    end.

Definition writeForkGeneration (generation : Z) : prog agent unit :=
  d ← ask (GMkdirAll "/run/sandbox");
  if is_ok d then _ ← ask (GWriteFile "/run/sandbox/fork-generation" (format_d generation) 420); mret tt else mret tt.

Definition writeResolvConf (path resolverIP : string) : prog agent (res string unit) :=
  if String.eqb resolverIP EmptyString then mret (Ok tt)
  else ask (GWriteFile path ("nameserver " +:+ resolverIP +:+ nl) 420).

Fixpoint run_all (steps : list (list string)) : prog agent unit :=
  match steps with [] => mret tt | argv :: steps => _ ← ask (GCommand argv); run_all steps end.

(** The guest's address, the gateway, the prefix length and the resolver. *)
Definition configureNetwork (cfg : option (string * string * Z * string)) : prog agent unit :=
  match cfg with
  | None => mret tt
  | Some (guestIP, gatewayIP, prefixLen, resolverIP) =>
      _ ← run_all [["ip"; "link"; "set"; guestNetIface; "up"]; ["ip"; "addr"; "flush"; "dev"; guestNetIface];
                   ["ip"; "addr"; "add"; guestIP +:+ "/" +:+ format_d prefixLen; "dev"; guestNetIface];
                   ["ip"; "route"; "replace"; "default"; "via"; gatewayIP; "dev"; guestNetIface]];
      _ ← writeResolvConf resolvConfPath resolverIP;
      mret tt
  end.

Definition isMounted (mountPath : string) : prog agent bool :=
  m ← ask GProcMounts;
  mret (match m with
        | None => false
        | Some lines => existsb (fun l => match Fields fields_other l with _ :: f :: _ => String.eqb f mountPath | _ => false end) lines
        end).

(** The entries are device, path and whether read-only. *)
Fixpoint mountVolumes (entries : list (string * string * bool)) (mounted : Z) : prog agent Z :=
  match entries with
  | [] => mret mounted
  | (device, path, ro) :: entries =>
      if String.eqb device EmptyString || String.eqb path EmptyString then mountVolumes entries mounted
      else
        m ← isMounted path;
        if m : bool then mountVolumes entries (mounted + 1)
        else
          d ← ask (GMkdirAll path);
          if negb (is_ok d) then mountVolumes entries mounted
          else
            r ← ask (GMount device path volumeFSType ro);
            mountVolumes entries (if is_ok r then mounted + 1 else mounted)
  end.

Fixpoint signal_all (self : Z) (entries : list (string * bool)) (signaled : Z) : prog agent Z :=
  match entries with
  | [] => mret signaled
  | (name, isDir) :: entries =>
      match (if isDir then atoi name else None) with
      | None => signal_all self entries signaled
      | Some pid =>
          if (pid =? 1) || (pid =? self) then signal_all self entries signaled
          else
            k ← ask (GKill pid SIGUSR2);
            signal_all self entries (if k : bool then signaled + 1 else signaled)
      end
  end.
Definition signalUserspace : prog agent Z :=
  self ← ask GGetpid;
  d ← ask GProcDir;
  match d with None => mret 0 | Some entries => signal_all self entries 0 end.

Record NotifyForkedResponse := mkNotifyForked { AppliedClockStepNanos : Z; ReseededRNG : bool; SignaledProcesses : Z }.

Definition handleNotifyForked (generation nanos : Z) (entropy : bytes) (network : option (string * string * Z * string))
    (volumes : list (string * string * bool)) : prog agent NotifyForkedResponse :=
  reseeded ← reseedCRNG entropy;
  step ← stepClock nanos;
  _ ← writeForkGeneration generation;
  _ ← configureNetwork network;
  _ ← mountVolumes volumes 0;
  signaled ← signalUserspace;
  mret (mkNotifyForked step reseeded signaled).

(** *** Requests *)

(** The streaming requests are taken before; they do not reach this. *)
Definition handleRequest (r : agent_request) : prog agent agent_response :=
  match r with
  | APing => up ← ask GUptime; mret (mkResponse true EmptyString (Some up) None None None None None)
  | AExec command dir env timeout => handleExec command dir env timeout
  | AReadFile path => handleReadFile path
  | AWriteFile path content mode => handleWriteFile path content mode
  | AListDir path => handleListDir path
  | AMkdir path => done_or (ask (GMkdirAll path))
  | ARemove path => done_or (ask (GRemoveAll path))
  | AConfigure env secrets => handleConfigure env secrets
  | ANotifyForked generation nanos entropy network volumes =>
      x ← handleNotifyForked generation nanos entropy network volumes;
      mret (mkResponse true EmptyString None None None None (Some (ReseededRNG x)) None)
  | ATarDir path => handleTarDir path
  | AUntarDir path tar => handleUntarDir path tar
  | AExecStream _ _ _ _ => mret (failed "unknown request type: exec_stream")
  | ARunCode _ _ _ => mret (failed "unknown request type: run_code")
  | APty _ _ => mret (failed "unknown request type: pty")
  end.

(** *** Streams *)

Definition emit (conn : Z) (f : frame) : prog agent unit := _ ← ask (GReply conn (LFrame f)); mret tt.
Definition chunk (stream data : string) : frame := mkFrame "chunk" stream data 0 EmptyString EmptyString.
Definition exit_frame (code : Z) (error : string) : frame := mkFrame "exit" EmptyString EmptyString code error EmptyString.
Definition error_frame (name value : string) : frame := mkFrame "error" EmptyString EmptyString 0 EmptyString (payload name value).
Definition result_frame (text : string) : frame := mkFrame "result" EmptyString EmptyString 0 EmptyString (payload "result" text).

Fixpoint emit_all (conn : Z) (fs : list frame) : prog agent unit :=
  match fs with [] => mret tt | f :: fs => _ ← emit conn f; emit_all conn fs end.

Definition stream_code (err : option run_error) (deadline : bool) : Z :=
  match err with
  | None => 0
  | Some e => if deadline then 124 else match e with ExitError code => code | OtherError => 1 end
  end.

(** [GStart] stands for the two pipes and the start; its error is the text sent. *)
Definition handleExecStream (conn : Z) (command dir : string) (env : gmap string string) (timeout : Z) : prog agent unit :=
  e ← session_env env;
  p ← ask (GStart command (work_dir dir) e (exec_timeout timeout));
  match p with
  | Err msg => emit conn (exit_frame 1 msg)
  | Ok pid =>
      chunks ← ask (GPumps pid);
      _ ← emit_all conn (map (fun '(stream, data) => chunk stream data) chunks);
      '(err, deadline) ← ask (GWait pid);
      emit conn (exit_frame (stream_code err deadline) EmptyString)
  end.

(** *** The kernel *)

Definition errorFrames (conn : Z) (msg : string) : prog agent unit :=
  emit_all conn [error_frame "KernelUnavailable" msg; exit_frame 127 EmptyString].

Definition kernel_dir : prog agent (option string) :=
  s ← ask (GStat workspaceRoot);
  mret (match s with StatInfo true => Some workspaceRoot | _ => None end).

Definition ensureStarted (python driverPath : string) : prog agent (res string unit) :=
  '(started, dead) ← atomic (fun g => ((k_started g, k_dead g), g));
  if dead : bool then mret (Err "kernel previously died")
  else if started : bool then mret (Ok tt)
  else
    s ← ask (GStat driverPath);
    match s with
    | StatInfo _ =>
        dir ← kernel_dir;
        must _ := ask (GKernelStart python driverPath dir) in
        l ← ask GKernelLine;
        match l with
        | KernelEnd | KernelScanError _ => _ ← ask GKernelKill; mret (Err "kernel driver produced no ready line")
        | KernelEvent e =>
            if String.eqb (de_Kind e) "ready" then _ ← modify set_started; mret (Ok tt)
            else _ ← ask GKernelKill; mret (Err "kernel driver did not signal ready")
        | KernelBlank | KernelBad _ => _ ← ask GKernelKill; mret (Err "kernel driver did not signal ready")
        end
    | _ => mret (Err ("driver " +:+ driverPath +:+ " not found"))
    end.

(** What an event is sent as; [done] ends the run. *)
Definition event_frames (e : driverEvent) : list frame :=
  if String.eqb (de_Kind e) "stdout" then [chunk "stdout" (de_Text e)]
  else if String.eqb (de_Kind e) "stderr" then [chunk "stderr" (de_Text e)]
  else if String.eqb (de_Kind e) "result" then [result_frame (de_Text e)]
  else if String.eqb (de_Kind e) "error" then [error_frame (de_Name e) (de_Value e)]
  else [].

(** The events of a run, at most [fuel]; [None] is out of fuel.  An error is one of
    the transport. *)
Fixpoint kernel_events (fuel : nat) (conn : Z) : prog agent (option (res string unit)) :=
  match fuel with
  | O => mret None
  | S fuel =>
      l ← ask GKernelLine;
      match l with
      | KernelEnd => _ ← modify set_dead; _ ← errorFrames conn "kernel exited unexpectedly"; mret (Some (Ok tt))
      | KernelScanError msg => _ ← modify set_dead; mret (Some (Err ("kernel stream: " +:+ msg)))
      | KernelBad msg => _ ← modify set_dead; mret (Some (Err ("decode kernel event: " +:+ msg)))
      | KernelBlank => kernel_events fuel conn
      | KernelEvent e =>
          if String.eqb (de_Kind e) "done" then
            _ ← emit conn (exit_frame (if String.eqb (de_Status e) "error" then 1 else 0) EmptyString);
            mret (Some (Ok tt))
          else _ ← emit_all conn (event_frames e); kernel_events fuel conn
      end
  end.

Definition run_kernel (fuel : nat) (python driverPath : string) (conn : Z) (code language : string) (timeout : Z)
  : prog agent (option (res string unit)) :=
  if negb (String.eqb language EmptyString) && negb (String.eqb language "python") then
    _ ← errorFrames conn ("unsupported language " +:+ quoted language +:+ ": this base image provides only a python kernel");
    mret (Some (Ok tt))
  else
    s ← ensureStarted python driverPath;
    match s with
    | Err msg =>
        _ ← errorFrames conn ("kernel unavailable: " +:+ msg +:+ "; rebuild the base image with FULL_ROOTFS=1 so ipykernel and "
                                +:+ driverPath +:+ " are installed");
        mret (Some (Ok tt))
    | Ok _ =>
        w ← ask (GKernelWrite code timeout);
        match w with
        | Err msg => _ ← modify set_dead; _ ← errorFrames conn ("write to kernel: " +:+ msg); mret (Some (Ok tt))
        | Ok _ =>
            f ← ask GKernelFlush;
            match f with
            | Err msg => _ ← modify set_dead; _ ← errorFrames conn ("flush to kernel: " +:+ msg); mret (Some (Ok tt))
            | Ok _ => kernel_events fuel conn
            end
        end
    end.

(** Whether the run ended within the fuel. *)
Definition handleRunCodeStream (fuel : nat) (conn : Z) (code language : string) (timeout : Z) : prog agent bool :=
  r ← run_kernel fuel "python3" defaultDriverPath conn code language timeout;
  match r with
  | None => mret false
  | Some (Err msg) => _ ← emit_all conn [error_frame "KernelStreamError" msg; exit_frame 1 EmptyString]; mret true
  | Some (Ok _) => mret true
  end.

(** *** The terminal *)

Definition pty_line (conn : Z) (f : pty_frame) : prog agent unit := _ ← ask (GReply conn (LPty f)); mret tt.
Definition pty_exit (conn code : Z) (error : string) : prog agent unit :=
  pty_line conn (mkPtyFrame "exit" EmptyString 0 0 code error).

(** uint16 of the size, with the defaults. *)
Definition setWinsize (cols rows : Z) : prog agent (res string unit) :=
  ask (GWinsize ((if cols <=? 0 then 80 else cols) mod 65536) ((if rows <=? 0 then 24 else rows) mod 65536)).

Record PtyRequest := mkPtyRequest { pr_Command : string; pr_WorkingDir : string; pr_Env : gmap string string; pr_Cols : Z; pr_Rows : Z }.

(** The shell's process when it was started; otherwise the exit frame was sent. *)
Definition start_pty (conn : Z) (req : PtyRequest) : prog agent (option Z) :=
  m ← ask GOpenPty;
  match m with
  | Err msg => _ ← pty_exit conn 1 msg; mret None
  | Ok slavePath =>
      w ← setWinsize (pr_Cols req) (pr_Rows req);
      match w with
      | Err msg => _ ← pty_exit conn 1 ("set winsize: " +:+ msg); mret None
      | Ok _ =>
          s ← ask (GOpenSlave slavePath);
          match s with
          | Err msg => _ ← pty_exit conn 1 ("open slave: " +:+ msg); mret None
          | Ok _ =>
              e ← session_env (pr_Env req);
              p ← ask (GStartPty (if String.eqb (pr_Command req) EmptyString then "/bin/sh" else pr_Command req)
                         (work_dir (pr_WorkingDir req)) (e ++ ["TERM=xterm-256color"]));
              match p with
              | Err msg => _ ← pty_exit conn 1 ("start shell: " +:+ msg); mret None
              | Ok pid => mret (Some pid)
              end
          end
      end
  end.

(** The goroutine that reads the host's frames; a line that is no frame is skipped. *)
Fixpoint pty_reader (pid : Z) (lines : list (option pty_frame)) : prog agent unit :=
  match lines with
  | [] => _ ← ask (GKill (- pid) SIGKILL); mret tt
  | None :: lines => pty_reader pid lines
  | Some f :: lines =>
      if String.eqb (pf_Kind f) "input" then
        w ← ask (GPtyInput (pf_Data f));
        if w : bool then pty_reader pid lines else _ ← ask (GKill (- pid) SIGKILL); mret tt
      else if String.eqb (pf_Kind f) "resize" then _ ← setWinsize (pf_Cols f) (pf_Rows f); pty_reader pid lines
      else pty_reader pid lines
  end.

(** The loop that frames the shell's output. *)
Fixpoint pty_output (conn : Z) (chunks : list string) : prog agent unit :=
  match chunks with
  | [] => mret tt
  | c :: chunks => _ ← pty_line conn (mkPtyFrame "output" c 0 0 0 EmptyString); pty_output conn chunks
  end.
Definition pty_code (err : option run_error) : Z :=
  match err with None => 0 | Some (ExitError code) => code | Some OtherError => 1 end.
Definition pty_pump (conn pid : Z) : prog agent unit :=
  chunks ← ask (GPtyOutput pid);
  _ ← pty_output conn chunks;
  '(err, _) ← ask (GWait pid);
  pty_exit conn (pty_code err) EmptyString.

(** The terminal without its reader, which runs beside the pump. *)
Definition handlePtyStream (conn : Z) (req : PtyRequest) : prog agent unit :=
  p ← start_pty conn req;
  match p with None => mret tt | Some pid => pty_pump conn pid end.

(** *** Connections *)

Definition writeResponse (conn : Z) (r : agent_response) : prog agent unit := _ ← ask (GReply conn (LResponse r)); mret tt.

Definition streaming (type : string) : bool :=
  String.eqb type "exec_stream" || String.eqb type "run_code" || String.eqb type "pty".

(** The lines that the scanner delivers; a streaming request is the last one read. *)
Fixpoint handleConnection (fuel : nat) (conn : Z) (lines : list guest_line) : prog agent unit :=
  match lines with
  | [] => mret tt
  | l :: lines =>
      match l with
      | GBad msg => _ ← writeResponse conn (failed ("invalid request: " +:+ msg)); handleConnection fuel conn lines
      | GNil type =>
          _ ← writeResponse conn (failed (type +:+ " request is nil"));
          if streaming type then mret tt else handleConnection fuel conn lines
      | GUnknown type => _ ← writeResponse conn (failed ("unknown request type: " +:+ type)); handleConnection fuel conn lines
      | GRequest (AExecStream command dir env timeout) => handleExecStream conn command dir env timeout
      | GRequest (ARunCode code language timeout) => _ ← handleRunCodeStream fuel conn code language timeout; mret tt
      | GRequest (APty cols rows) => handlePtyStream conn (mkPtyRequest EmptyString EmptyString ∅ cols rows)
      | GRequest r => resp ← handleRequest r; _ ← writeResponse conn resp; handleConnection fuel conn lines
      end
  end.

(** *** Start *)

Fixpoint mount_all (mounts : list (string * string * string)) : prog agent unit :=
  match mounts with
  | [] => mret tt
  | (source, target, fstype) :: mounts =>
      _ ← ask (GMkdirAll target);
      _ ← ask (GMount source target fstype false);
      mount_all mounts
  end.
Definition initSystem : prog agent unit :=
  _ ← mount_all [("proc", "/proc", "proc"); ("sysfs", "/sys", "sysfs"); ("devtmpfs", "/dev", "devtmpfs"); ("tmpfs", "/tmp", "tmpfs");
                 ("tmpfs", "/run", "tmpfs")];
  _ ← ask (GMkdirAll workspaceRoot);
  _ ← ask (GSethostname "sandbox");
  mret tt.

End agent.
End Agent.
