(* ===== verification/AgentFacts.v ===== *)
(** * What the guest agent does

    - [EnvFacts]: a session's environment has every name once, with the value of
      the highest precedence.
    - [NotifyFacts]: what the answer to a fork notification says was done.
    - [TransferFacts]: the transfer touches nothing outside the workspace.
    - [KernelFacts]: what a run of code sends, and that a dead kernel stays dead.
    - [ConnectionFacts]: a connection answers its requests one by one, in order. *)
From S2P Require Import Prelude GoLib GoFs Host Guarded Vsock Workspace Agent.
#[local] Open Scope go_scope.

Module EnvFacts.
Import GuestEnv.

(** The last value of each name. *)
Definition values (l : list (string * string)) : gmap string string := fold_left (fun m kv => <[kv.1 := kv.2]> m) l ∅.

Lemma values_from l (m : gmap string string) : fold_left (fun m kv => <[kv.1 := kv.2]> m) l m = values l ∪ m.
Proof.
  unfold values. revert m. induction l as [|[k v] l IH] using rev_ind; intros m; [cbn; by rewrite map_empty_union|].
  rewrite !fold_left_app. cbn. rewrite IH. by rewrite insert_union_l.
Qed.

Lemma values_app l l' : values (l ++ l') = values l' ∪ values l.
Proof. unfold values at 1. rewrite fold_left_app. apply values_from. Qed.

Lemma values_perm (m : gmap string string) l : l ≡ₚ map_to_list m -> values l = m.
Proof.
  intros Hl. assert (NoDup l.*1) as Hnd by (rewrite Hl; apply NoDup_fst_map_to_list).
  transitivity (list_to_map l : gmap string string); [|rewrite <-(list_to_map_to_list m); by apply list_to_map_proper].
  clear Hl. induction l as [|[k v] l IH] using rev_ind; [done|]. rewrite values_app. cbn in Hnd. rewrite fmap_app in Hnd.
  apply list.NoDup_app in Hnd as (Hnd & Hdis & _). rewrite IH by done. rewrite list_to_map_app. cbn.
  unfold values. cbn. rewrite insert_empty. apply map_union_comm. apply map_disjoint_singleton_l_2.
  apply not_elem_of_list_to_map_1. intros Hk. apply (Hdis k Hk). by left.
Qed.

(** The state of the merge: the values, and their names once each. *)
Definition good_state (st : gmap string string * list string) : Prop := NoDup st.2 /\ forall k, k ∈ st.2 <-> is_Some (st.1 !! k).

Lemma set_good st kv : good_state st -> good_state (set st kv).
Proof.
  destruct st as [m order], kv as [k v]. intros [Hnd Hdom]. unfold set, good_state in *. cbn in *. case_bool_decide as Hk.
  - split; [done|]. intros k'. rewrite Hdom. destruct (decide (k = k')) as [<-|Hne]; [rewrite lookup_insert_eq; naive_solver|].
    by rewrite lookup_insert_ne.
  - split.
    + apply list.NoDup_app. split; [done|]. split; [|apply NoDup_singleton]. intros k' Hk' ->%list_elem_of_singleton. by apply Hk, Hdom.
    + intros k'. rewrite elem_of_app, Hdom, list_elem_of_singleton. destruct (decide (k = k')) as [<-|Hne].
      * rewrite lookup_insert_eq. naive_solver.
      * rewrite lookup_insert_ne by done. naive_solver.
Qed.

Lemma fold_set_good l st : good_state st -> good_state (fold_left set l st) /\ (fold_left set l st).1 = values l ∪ st.1.
Proof.
  intros Hst. induction l as [|kv l IH] using rev_ind; [split; [done|]; unfold values; cbn; by rewrite map_empty_union|].
  rewrite fold_left_app. cbn. destruct IH as [Hg Hm]. split; [by apply set_good|].
  destruct (fold_left set l st) as [m order]. cbn in *. rewrite values_app, Hm, insert_union_l. f_equal.
  change (values [kv]) with (<[kv.1 := kv.2]> (∅ : gmap string string)). by rewrite <-insert_union_l, map_empty_union.
Qed.

Definition entry (kv : string * string) : string := kv.1 +:+ "=" +:+ kv.2.

(** The environment of a session.  Every name is there exactly once, with its value
    in the request, else in what was configured, else the last one of the base; base
    entries without a value are kept as they are.  The order in which the maps are
    ranged over does not matter for this. *)
Theorem merge_exact range base (configured request : gmap string string) :
  (forall m, range m ≡ₚ map_to_list m) ->
  let out := Merge range base configured request in
  exists named, Permutation named (map_to_list (request ∪ (configured ∪ values (omap (cut_byte equals) base)))) /\
    out = List.filter (fun kv => bool_decide (cut_byte equals kv = None)) base ++ map entry named.
Proof.
  intros Hrange out. unfold out, Merge. set (l := omap (cut_byte equals) base ++ range configured ++ range request).
  destruct (fold_set_good l (∅, [])) as [[Hnd Hdom] Hm]; [split; [constructor|]; intros k; cbn; rewrite lookup_empty; split; [by intros ?%elem_of_nil|by intros [? ?]]|].
  destruct (fold_left set l (∅, [])) as [merged order]. cbn in *. rewrite map_union_empty in Hm.
  assert (merged = request ∪ (configured ∪ values (omap (cut_byte equals) base))) as Hmerged.
  { rewrite Hm. unfold l. rewrite !values_app, (values_perm configured (range configured)), (values_perm request (range request)) by apply Hrange. by rewrite map_union_assoc. }
  exists (map (fun k => (k, default EmptyString (merged !! k))) order). split.
  - rewrite <-Hmerged. apply NoDup_Permutation.
    + apply NoDup_fmap_2; [|done]. by intros ? ? [= ?].
    + apply NoDup_map_to_list.
    + intros [k v]. rewrite elem_of_map_to_list. rewrite list_elem_of_fmap. split.
      * intros (k' & [= -> ->] & Hk'). apply Hdom in Hk' as [v' Hv']. by rewrite Hv'.
      * intros Hv. exists k. rewrite Hv. split; [done|]. apply Hdom. eauto.
  - f_equal. rewrite map_map. by apply map_ext.
Qed.
End EnvFacts.

(** ** After a fork *)

Module NotifyFacts.
Import Agent.

Abbreviation ev q x := (Ev (CGuest q) x).

Lemma adds_guest {A} (q : gcall) (f : ganswer q -> prog agent A) (Q : A -> trace -> Prop) :
  (forall x, adds (f x) (fun a e => Q a (ev q x :: e))) -> adds (r ← ask q; f r) Q.
Proof. intros H. eapply adds_bind; [apply (adds_sys (CGuest q))|]. intros x e ->. apply H. Qed.

(** The guest's kernel took the entropy, credited or only mixed in. *)
Definition takes (entropy : bytes) (e : event) : bool :=
  match e with
  | Ev (CGuest (GAddEntropy b)) x => is_ok x && bool_decide (b = rand_pool_info entropy)
  | Ev (CGuest (GMixEntropy b)) x => is_ok x && bool_decide (b = entropy)
  | _ => false
  end.
Definition entropy_taken (entropy : bytes) (t : trace) : bool := negb (bool_decide (entropy = [])) && existsb (takes entropy) t.

Definition entropy_call (c : call) : Prop :=
  match c with CGuest (GOpenRandom | GAddEntropy _ | GMixEntropy _ | GClose _) => True | _ => False end.
Definition clock_call (c : call) : Prop := match c with CGuest (GClockGet | GClockSet _) => True | _ => False end.

Lemma reseed_adds entropy :
  adds (reseedCRNG entropy) (fun b t => b = entropy_taken entropy t /\ Forall (fun e => entropy_call (ev_call e)) t).
Proof.
  unfold reseedCRNG, entropy_taken. destruct entropy as [|c entropy]; cbn [length Nat.eqb]; [by apply adds_ret|].
  rewrite bool_decide_eq_false_2 by done. cbn [negb andb].
  apply adds_guest. intros [[]|msg]; [|apply adds_ret; split; [done|by repeat constructor]].
  apply adds_guest. intros [[]|msg]; cbn [is_ok].
  - eapply adds_bind; [by apply (adds_ret true (fun b e => b = true /\ e = []))|]. intros b e [-> ->]. apply adds_guest. intros y. apply adds_ret.
    split; [|by repeat constructor]. cbn. by rewrite bool_decide_eq_true_2.
  - eapply (adds_bind _ _ (fun b e => exists w, b = is_ok w /\ e = [ev (GMixEntropy (c :: entropy)) w])).
    { apply adds_guest. intros w. apply adds_ret. by exists w. }
    intros b e (w & -> & ->). apply adds_guest. intros y. apply adds_ret. split; [|by repeat constructor].
    cbn. rewrite bool_decide_eq_true_2 by done. by destruct w.
Qed.

Lemma i64_bound x : is_i64 (i64 x).
Proof. unfold is_i64, i64, wraps. pose proof (Z.mod_pos_bound (x + 2 ^ (64 - 1)) (2 ^ 64)). lia. Qed.

(** The clock is set only to the host's, and only when it is off by more than the
    threshold; what is reported is the step that was made. *)
Definition set_clock (nanos : Z) (e : event) : bool :=
  match e with Ev (CGuest (GClockSet n)) x => is_ok x && (n =? nanos) | _ => false end.
Definition clock_read (e : event) : option Z := match e with Ev (CGuest GClockGet) x => x | _ => None end.

Lemma clock_adds nanos :
  adds (stepClock nanos) (fun step t => Forall (fun e => clock_call (ev_call e)) t /\
    (step <> 0 -> existsb (set_clock nanos) t = true /\
       exists now, omap clock_read t = [now] /\ step = i64 (nanos - now) /\ clockStepThresholdNanos < Z.abs step)).
Proof.
  unfold stepClock. destruct (nanos =? 0); [by apply adds_ret|]. apply adds_guest. intros [now|].
  2: { apply adds_ret. split; [by repeat constructor|done]. }
  set (drift := i64 (nanos - now)). destruct (if drift <? 0 then _ else _) eqn:Hd.
  { apply adds_ret. split; [by repeat constructor|done]. }
  apply adds_guest. intros y. apply adds_ret. split; [by repeat constructor|]. intros Hs. destruct y as [[]|msg]; cbn [is_ok] in *; [|done].
  cbn. rewrite Z.eqb_refl. split; [done|]. exists now. split; [done|]. split; [done|].
  pose proof (i64_bound (nanos - now)) as Hr. fold drift in Hr. unfold is_i64 in Hr.
  destruct (Z.ltb_spec drift 0); apply Z.leb_gt in Hd; [|lia].
  destruct (Z.eq_dec drift (- 2 ^ 63)) as [Hm|Hm]; [rewrite Hm in Hd; by vm_compute in Hd|].
  rewrite i64_small in Hd by (unfold is_i64; lia). lia.
Qed.

(** Signals: who was sent one, and whether it arrived. *)
Definition signal_sent (e : event) : option (Z * Z * bool) :=
  match e with Ev (CGuest (GKill pid sig)) x => Some (pid, sig, x) | _ => None end.
Definition arrived (t : trace) : Z := Z.of_nat (length (List.filter (fun s => s.2) (omap signal_sent t))).

Definition signal_call (c : call) : Prop := match c with CGuest (GGetpid | GProcDir | GKill _ _) => True | _ => False end.
Definition signals_ok (t : trace) : Prop := Forall (fun s => s.1.1 <> 1 /\ s.1.2 = SIGUSR2) (omap signal_sent t).

Lemma signal_all_adds self entries n :
  adds (signal_all self entries n) (fun r t => r = n + arrived t /\ signals_ok t /\ Forall (fun e => signal_call (ev_call e)) t).
Proof.
  revert n. induction entries as [|[nm isDir] entries IH]; intros n; cbn [signal_all].
  { apply adds_ret. split; [unfold arrived; cbn; lia|]. split; constructor. }
  destruct (if isDir then atoi nm else None) as [pid|]; [|apply IH]. destruct (Z.eqb_spec pid 1) as [|Hp]; [apply IH|].
  cbn [orb]. destruct (pid =? self); [apply IH|]. apply adds_guest. intros y. eapply adds_mono; [apply IH|].
  intros r t (-> & Hok & Hf). split; [|by split; constructor]. unfold arrived. cbn. destruct y; cbn; lia.
Qed.
(** Of the calls that follow, a mount is of a volume of the notice. *)
Definition later_call (volumes : list (string * string * bool)) (c : call) : Prop :=
  match c with
  | CGuest (GMount device path fstype ro) => (device, path, ro) ∈ volumes /\ fstype = volumeFSType
  | CGuest (GMkdirAll _ | GWriteFile _ _ _ | GCommand _ | GProcMounts) => True
  | _ => False
  end.
#[local] Hint Extern 1 (later_call _ _) => exact I : prog.

Lemma run_all_calls P steps : (forall argv, P (CGuest (GCommand argv))) -> calls_in P (run_all steps).
Proof. intros HP. induction steps as [|argv steps IH]; [exact I|]. cbn. split; [apply HP|]. intros x. exact IH. Qed.

Lemma configureNetwork_calls volumes cfg : calls_in (later_call volumes) (configureNetwork cfg).
Proof.
  unfold configureNetwork. destruct cfg as [[[[ip gw] n] resolver]|]; [|exact I]. apply calls_bind; [by apply run_all_calls|].
  intros []. unfold writeResolvConf, ask. walk.
Qed.

Lemma mountVolumes_calls other volumes entries n :
  (forall e, e ∈ entries -> e ∈ volumes) -> calls_in (later_call volumes) (mountVolumes other entries n).
Proof.
  revert n. induction entries as [|[[device path] ro] entries IH]; intros n Hin; [exact I|]. cbn [mountVolumes].
  assert (forall n, calls_in (later_call volumes) (mountVolumes other entries n)) as Hrest by (intros; apply IH; intros; apply Hin; by right).
  case_match; [apply Hrest|]. apply calls_bind; [unfold isMounted, ask; walk|]. intros []; [apply Hrest|].
  apply calls_bind; [by apply calls_sys|]. intros x. case_match; [apply Hrest|].
  apply calls_bind; [apply calls_sys; split; [apply Hin; left|done]|]. intros y. apply Hrest.
Qed.

Lemma signalUserspace_adds :
  adds signalUserspace (fun n t => n = arrived t /\ signals_ok t /\ Forall (fun e => signal_call (ev_call e)) t).
Proof.
  unfold signalUserspace. apply adds_guest. intros self. apply adds_guest. intros [entries|].
  2: { apply adds_ret. split; [done|]. split; [constructor|by repeat constructor]. }
  eapply adds_mono; [apply signal_all_adds|]. intros n t (-> & Hok & Hf). split; [unfold arrived; cbn; lia|]. split; [done|]. by repeat constructor.
Qed.

(** The calls of a notification and its answer: the entropy, the clock, then the
    generation, the network and the mounts, and last the signals. *)
Definition notice_honest (nanos : Z) (entropy : bytes) (volumes : list (string * string * bool)) (x : NotifyForkedResponse) (t : trace) : Prop :=
  exists t1 t2 t3 t4, t = t1 ++ t2 ++ t3 ++ t4 /\
    (Forall (fun e => entropy_call (ev_call e)) t1 /\ ReseededRNG x = entropy_taken entropy t1) /\
    (Forall (fun e => clock_call (ev_call e)) t2 /\
     (AppliedClockStepNanos x <> 0 -> existsb (set_clock nanos) t2 = true /\ exists now, omap clock_read t2 = [now] /\
        AppliedClockStepNanos x = i64 (nanos - now) /\ clockStepThresholdNanos < Z.abs (AppliedClockStepNanos x))) /\
    Forall (fun e => later_call volumes (ev_call e)) t3 /\
    (SignaledProcesses x = arrived t4 /\ signals_ok t4 /\ Forall (fun e => signal_call (ev_call e)) t4).

Lemma notify_adds other generation nanos entropy network volumes :
  adds (handleNotifyForked other generation nanos entropy network volumes) (notice_honest nanos entropy volumes).
Proof.
  eapply adds_bind; [apply reseed_adds|]. intros reseeded t1 [Hre Ht1]. eapply adds_bind; [apply clock_adds|]. intros step t2 [Ht2 Hstep].
  eapply adds_bind; [apply (adds_calls (later_call volumes)); unfold writeForkGeneration, ask; walk|]. intros [] t3 Ht3.
  eapply adds_bind; [apply adds_calls, configureNetwork_calls|]. intros [] t4 Ht4.
  eapply adds_bind; [by apply adds_calls, mountVolumes_calls|]. intros n t5 Ht5.
  eapply adds_bind; [apply signalUserspace_adds|]. intros signaled t6 Ht6. apply adds_ret.
  exists t1, t2, (t3 ++ t4 ++ t5), t6. split; [by rewrite app_nil_r, !app_assoc|]. split; [done|]. split; [done|].
  split; [|done]. by rewrite !Forall_app.
Qed.

(** The answer to a fork notification says what was done.  Before anything else the
    entropy is offered to the guest's kernel, and the answer says that it was taken
    exactly when it was; then the clock, which is stepped only to the host's and only
    when it was off by more than the threshold, by the step reported; then the
    generation, the network and the mounts, of volumes of the notice alone; and last
    the signals, to no init process, of which as many arrived as the answer says. *)
Theorem fork_notice_honest {O} (h : env O) other generation nanos entropy network volumes g o :
  let '(x, _, _, t) := run h (handleNotifyForked other generation nanos entropy network volumes) g o in
  notice_honest nanos entropy volumes x t.
Proof. apply adds_run, notify_adds. Qed.
End NotifyFacts.

(** ** The transfer of a workspace *)

Module TransferFacts.
Import Agent Outputs Members.

Lemma Join_inside_abs b n : is_abs b = true -> inside n -> Join [b; Clean n] = abs_of (clean_elems b ++ clean_elems n).
Proof.
  intros Hb Hn. cbn [Join]. destruct (String.eqb_spec b EmptyString) as [->|_]; [done|].
  pose proof (is_abs_join b [Clean n] Hb) as Ha. rewrite Clean_abs by done. f_equal.
  rewrite (clean_elems_plain_abs _ _ Ha eq_refl), split_join_concat by done.
  cbn [map concat]. rewrite app_nil_r, fold_left_app, split_inside by done.
  assert (fold_left (clean_step true) (split_byte slash b) [] = rev (clean_elems b)) as ->.
  { unfold clean_elems. by rewrite Hb, rev_involutive. }
  case_decide as E; [by rewrite E, app_nil_r; cbn; rewrite rev_involutive|].
  rewrite fold_clean_plain by apply Hn. by rewrite rev_app_distr, !rev_involutive.
Qed.

Lemma safeJoin_abs b n p :
  is_abs b = true -> safeJoin b n = Ok p -> inside n /\ p = abs_of (clean_elems b ++ clean_elems n).
Proof.
  intros Hb. unfold safeJoin. destruct (String.eqb n EmptyString); [done|]. destruct (is_abs n) eqn:Ha; [done|].
  destruct (_ || _) eqn:Hup; [done|]. pose proof (not_up_inside n Ha Hup) as Hn. rewrite Join_inside_abs by done.
  destruct (_ && _); [done|]. by intros [= <-].
Qed.

(** A path that the gate lets through is the workspace or lies below it. *)
Lemma pathAllowed_below p : pathAllowed p = true -> is_abs p = true /\ exists r, clean_elems p = "workspace" :: r.
Proof.
  unfold pathAllowed. destruct (String.eqb p EmptyString); [done|]. intros H. destruct (is_abs p) eqn:Ha.
  - split; [done|]. rewrite (Clean_abs p Ha) in H. pose proof (clean_elems_rooted p Ha) as Hp. apply orb_prop in H as [H|H].
    + apply String.eqb_eq in H. exists []. apply (f_equal clean_elems) in H. rewrite clean_elems_abs_of in H by done. by rewrite H.
    + destruct (abs_of_prefix ["workspace"] (clean_elems p)) as (r & -> & _); [|done..|by exists r].
      by apply (bool_decide_unpack _).
  - exfalso. destruct (clean_elems_rel p Ha) as (k & ps & He & Hps). destruct (Clean_rel p k ps Ha He Hps) as (Hrel & _ & _).
    apply orb_prop in H as [H|H]; [apply String.eqb_eq in H; by rewrite H in Hrel|].
    apply has_prefix_spec in H as [r H]. by rewrite H in Hrel.
Qed.

(** A path is the workspace or lies below it; the directory that is only made sure
    to exist may also be the root. *)
Definition in_workspace (p : string) : Prop := exists r, clean_elems p = "workspace" :: r.
Definition confined (c : call) : Prop :=
  match c with
  | CGuest (GStat p | GWalk p | GReadAll p | GOpenTrunc p | GCopy p _ | GClose p) => in_workspace p
  | CGuest (GMkdirAll p) => in_workspace p \/ p = "/"
  | _ => False
  end.

Lemma below_in_workspace r : Forall plain r -> in_workspace (abs_of ("workspace" :: r)).
Proof.
  intros Hr. exists r. apply clean_elems_abs_of. constructor; [by apply (bool_decide_unpack _)|done].
Qed.

Lemma dir_in_workspace r : Forall plain r -> in_workspace (Dir (abs_of ("workspace" :: r))) \/ Dir (abs_of ("workspace" :: r)) = "/".
Proof.
  intros Hr. destruct r as [|x r _] using rev_ind; [by right|left]. apply Forall_app in Hr as [Hr Hx]. inversion Hx; subst.
  rewrite app_comm_cons, Dir_abs_of; [by apply below_in_workspace| |done]. constructor; [by apply (bool_decide_unpack _)|done].
Qed.

Lemma untar_members_confined quoted dst ms err :
  pathAllowed dst = true -> calls_in confined (untar_members quoted dst ms err).
Proof.
  intros Hd. destruct (pathAllowed_below dst Hd) as [Ha (r & Hr)]. pose proof (clean_elems_rooted dst Ha) as Hp. rewrite Hr in Hp.
  inversion Hp as [|? ? _ Hpr]; subst. induction ms as [|m ms IH]; [exact I|]. cbn [untar_members].
  destruct (safeJoin dst (tm_name m)) as [target|e] eqn:Hj; [|exact I]. apply safeJoin_abs in Hj as [[_ Hin] ->]; [|done].
  rewrite Hr. cbn [app]. assert (Forall plain (r ++ clean_elems (tm_name m))) as Hall by (by apply Forall_app).
  pose proof (below_in_workspace _ Hall) as Hb. destruct (tm_type m); [| |exact I].
  - apply calls_try; [apply calls_sys; by left|]. intros _. apply IH.
  - apply calls_try; [apply calls_sys; by apply dir_in_workspace|]. intros _. apply calls_try; [|intros _; apply IH].
    unfold writeRegular. apply calls_try; [by apply calls_sys|]. intros _. apply calls_bind; [by apply calls_sys|].
    intros [[]|msg]; [by apply calls_sys|]. apply calls_bind; [by apply calls_sys|]. intros; exact I.
Qed.

(** Below the workspace, joined names stay there. *)
Lemma join_in_workspace dir rel :
  pathAllowed dir = true -> Forall plain rel -> in_workspace (Join (dir :: rel)).
Proof.
  intros Hd Hrel. destruct (pathAllowed_below dir Hd) as [Ha (r & Hr)]. unfold in_workspace. rewrite clean_Join_below; [|done|].
  - rewrite Hr. by eexists.
  - induction Hrel as [|x rel Hx _ IH]; [constructor|]. cbn. apply Forall_app. split; [by apply downward_plain|done].
Qed.

(** The names of a walk are file names. *)
Definition file_names (e : event) : bool :=
  match e with
  | Ev (CGuest (GWalk _)) x => forallb (fun en => bool_decide (Forall plain en.1)) x
  | _ => true
  end.
Definition kept_in (t : trace) : Prop := forallb file_names t = true -> Forall (fun e => confined (ev_call e)) t.

Lemma kept_calls {A} (p : prog agent A) : calls_in confined p -> adds p (fun _ => kept_in).
Proof. intros Hp. eapply adds_mono; [by apply adds_calls|]. by intros a t Ht _. Qed.

Lemma tar_walk_confined dir entries ms :
  pathAllowed dir = true -> Forall (fun en => Forall plain en.1) entries -> calls_in confined (tar_walk dir entries ms).
Proof.
  intros Hd Hen. revert ms. induction Hen as [|[rel e] entries Hrel _ IH]; intros ms; [exact I|]. cbn [tar_walk].
  destruct e; [exact I|apply IH| |apply IH]. case_bool_decide; [apply IH|]. apply calls_try.
  - by apply calls_sys, join_in_workspace.
  - intros data. case_match; [exact I|apply IH].
Qed.

Lemma tarDir_kept mktar dir : pathAllowed dir = true -> adds (tarDir mktar dir) (fun _ => kept_in).
Proof.
  intros Hd. destruct (pathAllowed_below dir Hd) as [_ Hin]. apply NotifyFacts.adds_guest. intros s.
  assert (forall t, kept_in t -> kept_in (Ev (CGuest (GStat dir)) s :: t)) as Hs.
  { intros t Ht Hn. constructor; [done|]. by apply Ht. }
  destruct s as [|msg|[]]; try by (apply adds_ret, Hs; constructor). apply NotifyFacts.adds_guest. intros entries. cbn in entries.
  destruct (forallb (fun en => bool_decide (Forall plain en.1)) entries) eqn:Hen.
  - eapply adds_mono.
    + apply kept_calls, calls_try; [|by intros]. apply tar_walk_confined; [done|]. apply Forall_forall. intros en Hx.
      rewrite forallb_forall in Hen. apply (bool_decide_eq_true_1 _), Hen, Hx.
    + intros a t Ht. apply Hs. intros Hn. cbn in Hn. rewrite Hen in Hn. constructor; [done|]. by apply Ht.
  - eapply adds_mono; [apply adds_any|]. intros a t _. apply Hs. intros Hn. cbn in Hn. by rewrite Hen in Hn.
Qed.

Lemma handleUntarDir_confined quoted untar path tar : calls_in confined (handleUntarDir quoted untar path tar).
Proof.
  unfold handleUntarDir. destruct (pathAllowed path) eqn:Hp; cbn [negb]; [|exact I]. case_match; [exact I|].
  apply calls_bind; [|by intros]. unfold untarDir. apply calls_try.
  - apply calls_sys. left. by apply pathAllowed_below.
  - intros _. destruct (untar tar) as [ms err]. by apply untar_members_confined.
Qed.

End TransferFacts.

(** ** Running code *)

Module KernelFacts.
Import Agent.

(** The frames sent to the host. *)
Definition sent (e : event) : option frame := match e with Ev (CGuest (GReply _ (LFrame f))) _ => Some f | _ => None end.
Definition frames (t : trace) : list frame := omap sent t.
Definition quiet (f : frame) : Prop := f_Kind f <> "exit".
(** One exit frame, at the end. *)
Definition closed (fs : list frame) : Prop := exists body code, fs = body ++ [exit_frame code EmptyString] /\ Forall quiet body.

(** Lines of the driver that do not end a run. *)
Definition goes_on (e : event) : bool :=
  match e with
  | Ev (CGuest GKernelLine) x =>
      match x with KernelBlank => true | KernelEvent ev => negb (String.eqb (de_Kind ev) "done") | _ => false end
  | _ => false
  end.
Definition going (t : trace) : nat := length (List.filter goes_on t).

Lemma frames_app t1 t2 : frames (t1 ++ t2) = frames t1 ++ frames t2.
Proof. apply omap_app. Qed.
Lemma going_app t1 t2 : going (t1 ++ t2) = (going t1 + going t2)%nat.
Proof. unfold going. by rewrite List.filter_app, length_app. Qed.
Lemma closed_app body fs : Forall quiet body -> closed fs -> closed (body ++ fs).
Proof. intros Hb (b & code & -> & Hq). exists (body ++ b), code. rewrite app_assoc. split; [done|]. by apply Forall_app. Qed.

Lemma emit_adds conn f : adds (emit conn f) (fun _ t => exists x, t = [Ev (CGuest (GReply conn (LFrame f))) x]).
Proof. apply NotifyFacts.adds_guest. intros x. apply adds_ret. by exists x. Qed.

Lemma emit_all_adds conn fs : adds (emit_all conn fs) (fun _ t => frames t = fs /\ going t = 0%nat).
Proof.
  induction fs as [|f fs IH]; cbn [emit_all]; [by apply adds_ret|].
  eapply adds_bind; [apply emit_adds|]. intros _ t1 (x & ->). eapply adds_mono; [apply IH|]. intros _ t [<- H]. by split.
Qed.

Lemma errorFrames_adds payload conn msg : adds (errorFrames payload conn msg) (fun _ t => closed (frames t) /\ going t = 0%nat).
Proof.
  eapply adds_mono; [apply emit_all_adds|]. intros _ t [-> H]. split; [|done]. exists [error_frame payload "KernelUnavailable" msg], 127.
  split; [done|]. by repeat constructor.
Qed.
Lemma errorFrames_end {X} payload conn msg (x : X) :
  adds (_ ← errorFrames payload conn msg; mret x) (fun r t => r = x /\ closed (frames t) /\ going t = 0%nat).
Proof. eapply adds_bind; [apply errorFrames_adds|]. intros [] t Ht. apply adds_ret. by rewrite app_nil_r. Qed.

Lemma event_frames_quiet payload e : Forall quiet (event_frames payload e).
Proof. unfold event_frames. repeat case_match; by repeat constructor. Qed.

(** The verdict of a run: what was sent when it ended, ended with an error of the
    transport, or did not end within the fuel. *)
Definition run_verdict (fuel : nat) (r : option (res string unit)) (t : trace) : Prop :=
  match r with
  | None => (fuel <= going t)%nat
  | Some (Ok _) => closed (frames t)
  | Some (Err _) => Forall quiet (frames t)
  end.

Lemma run_verdict_app fuel fuel' r t1 t2 :
  Forall quiet (frames t1) -> (fuel' <= going t1 + fuel)%nat -> run_verdict fuel r t2 -> run_verdict fuel' r (t1 ++ t2).
Proof.
  intros Hq Hf. unfold run_verdict. rewrite frames_app, going_app. destruct r as [[[]|msg]|]; [by apply closed_app|by rewrite Forall_app|lia].
Qed.

Lemma kernel_events_adds payload fuel conn : adds (kernel_events payload fuel conn) (run_verdict fuel).
Proof.
  induction fuel as [|fuel IH]; cbn [kernel_events]; [apply adds_ret, Nat.le_0_l|]. apply NotifyFacts.adds_guest. intros l. cbn in l.
  destruct l as [|msg| |msg|e].
  - eapply adds_bind; [apply adds_atomic|]. intros _ t ->. eapply adds_mono; [apply errorFrames_end|]. intros r t (-> & Hc & _). exact Hc.
  - eapply adds_bind; [apply adds_atomic|]. intros _ t ->. apply adds_ret. constructor.
  - eapply adds_mono; [apply IH|]. intros r t Ht. apply (run_verdict_app fuel (S fuel) r [Ev (CGuest GKernelLine) KernelBlank]); [constructor|cbn; lia|done].
  - eapply adds_bind; [apply adds_atomic|]. intros _ t ->. apply adds_ret. constructor.
  - destruct (String.eqb (de_Kind e) "done") eqn:Hd.
    + eapply adds_bind; [apply emit_adds|]. intros _ t (x & ->). apply adds_ret. by exists [], (if String.eqb (de_Status e) "error" then 1 else 0).
    + eapply adds_bind; [apply emit_all_adds|]. intros _ t [Hf Hg]. eapply adds_mono; [apply IH|]. intros r t' Ht'.
      apply (run_verdict_app fuel (S fuel) r (Ev (CGuest GKernelLine) (KernelEvent e) :: t)); [|unfold going; cbn; rewrite Hd; cbn; lia|done].
      change (Forall quiet (frames t)). rewrite Hf. apply event_frames_quiet.
Qed.

(** Starting the kernel sends nothing. *)
Definition not_sent (c : call) : Prop := match c with CGuest (GReply _ _) => False | _ => True end.
Lemma not_sent_frames t : Forall (fun e => not_sent (ev_call e)) t -> frames t = [].
Proof. induction 1 as [|[c x] t Hc _ IH]; [done|]. destruct c; try exact IH. by match goal with q : gcall |- _ => destruct q end. Qed.

Lemma ensureStarted_silent python driver : calls_in not_sent (ensureStarted python driver).
Proof.
  unfold ensureStarted, kernel_dir, ask. apply calls_bind; [apply calls_atomic|]. intros [started dead].
  repeat (case_match; [exact I|]). apply calls_bind; [by apply calls_sys|]. intros []; try exact I.
  apply calls_bind; [walk|]. intros dir. apply calls_try; [by apply calls_sys|]. intros _. apply calls_bind; [by apply calls_sys|].
  intros l. repeat case_match; walk.
Qed.

Lemma run_kernel_adds quoted payload fuel python driver conn code language timeout :
  adds (run_kernel quoted payload fuel python driver conn code language timeout) (run_verdict fuel).
Proof.
  unfold run_kernel. case_match.
  { eapply adds_mono; [apply errorFrames_end|]. intros r t (-> & Hc & _). exact Hc. }
  eapply adds_bind; [apply adds_calls, ensureStarted_silent|]. intros s t0 Ht0%not_sent_frames.
  assert (forall r t, run_verdict fuel r t -> run_verdict fuel r (t0 ++ t)) as Hskip.
  { intros r t. apply run_verdict_app; [by rewrite Ht0|lia]. }
  assert (forall msg t1, frames t1 = [] -> adds (_ ← modify set_dead; _ ← errorFrames payload conn msg; mret (Some (Ok tt)))
    (fun r t => run_verdict fuel r (t0 ++ t1 ++ t))) as Hdead.
  { intros msg t1 Ht1. eapply adds_bind; [apply adds_atomic|]. intros _ t ->. eapply adds_mono; [apply errorFrames_end|].
    intros r t (-> & Hc & _). apply Hskip. unfold run_verdict. by rewrite frames_app, Ht1. }
  destruct s as [[]|msg].
  - apply NotifyFacts.adds_guest. intros [[]|msg]; [|by apply (Hdead _ [Ev (CGuest (GKernelWrite code timeout)) (Err msg)])].
    apply NotifyFacts.adds_guest. intros [[]|msg].
    + eapply adds_mono; [apply kernel_events_adds|]. intros r t Ht. apply Hskip.
      by apply (run_verdict_app fuel fuel r [Ev (CGuest (GKernelWrite code timeout)) (Ok tt); Ev (CGuest GKernelFlush) (Ok tt)]).
    + by apply (Hdead _ [Ev (CGuest (GKernelWrite code timeout)) (Ok tt); Ev (CGuest GKernelFlush) (Err msg)]).
  - eapply adds_mono; [apply errorFrames_end|]. intros r t (-> & Hc & _). by apply Hskip.
Qed.

Lemma run_code_adds quoted payload fuel conn code language timeout :
  adds (handleRunCodeStream quoted payload fuel conn code language timeout)
    (fun ok t => if ok then closed (frames t) else (fuel <= going t)%nat).
Proof.
  eapply adds_bind; [apply run_kernel_adds|]. intros [[[]|msg]|] t Ht; [apply adds_ret; by rewrite app_nil_r| |apply adds_ret; by rewrite app_nil_r].
  eapply adds_bind; [apply emit_all_adds|]. intros [] t' [Hf _]. apply adds_ret. rewrite app_nil_r, frames_app, Hf.
  apply closed_app; [done|]. exists [error_frame payload "KernelStreamError" msg], 1. split; [done|]. by repeat constructor.
Qed.

(** *** The kernel's death *)

(** The answers to a request's code and after it that end the kernel. *)
Definition fatal (e : event) : bool :=
  match e with
  | Ev (CGuest (GKernelWrite _ _)) x => negb (is_ok x)
  | Ev (CGuest GKernelFlush) x => negb (is_ok x)
  | Ev (CGuest GKernelLine) x => match x with KernelBlank | KernelEvent _ => false | _ => true end
  | _ => false
  end.
Definition hands_over (e : event) : bool := match e with Ev (CGuest (GKernelWrite _ _)) _ => true | _ => false end.
Fixpoint died (t : trace) : bool :=
  match t with [] => false | e :: t => if hands_over e then fatal e || existsb fatal t else died t end.

Lemma died_app t1 t2 : existsb hands_over t1 = false -> died (t1 ++ t2) = died t2.
Proof. induction t1 as [|e t1 IH]; [done|]. cbn. by destruct (hands_over e). Qed.
Lemma died_none t : existsb hands_over t = false -> died t = false.
Proof. intros H. rewrite <-(app_nil_r t). by rewrite died_app. Qed.

Section died.
Context {O : Type} (h : env O).

(** A program that only sends. *)
Definition sends {A} (p : prog agent A) (a : A) : Prop :=
  forall g o, exists o' t, run h p g o = (a, g, o', t) /\ Forall (fun e => ~ not_sent (ev_call e)) t.

Lemma only_sent t : Forall (fun e => ~ not_sent (ev_call e)) t -> existsb fatal t = false /\ existsb hands_over t = false.
Proof.
  induction 1 as [|[c x] t Hc _ [IH1 IH2]]; [done|]. cbn. rewrite IH1, IH2, !orb_false_r.
  destruct c; try (by destruct Hc). by match goal with q : gcall |- _ => destruct q; try (by destruct Hc) end.
Qed.

Lemma sends_ret {A} (a : A) : sends (mret a) a.
Proof. intros g o. exists o, []. split; [done|constructor]. Qed.
Lemma sends_bind {A B} (p : prog agent A) (f : A -> prog agent B) a b : sends p a -> sends (f a) b -> sends (p ≫= f) b.
Proof.
  intros Hp Hf g o. destruct (Hp g o) as (o1 & t1 & E1 & H1). destruct (Hf g o1) as (o2 & t2 & E2 & H2).
  exists o2, (t1 ++ t2). rewrite run_bind, E1, E2. split; [done|]. by apply Forall_app.
Qed.
Lemma sends_emit_all conn fs : sends (emit_all conn fs) tt.
Proof.
  induction fs as [|f fs IH]; [apply sends_ret|]. apply (sends_bind _ _ tt); [|exact IH]. intros g o. unfold emit, ask. rewrite run_bind.
  cbn [run sys]. destruct (h _ o) as [x o1]. exists o1. eexists. split; [done|]. constructor; [by intros []|constructor].
Qed.
Lemma sends_errorFrames {X} payload conn msg (x : X) : sends (_ ← errorFrames payload conn msg; mret x) x.
Proof. apply (sends_bind _ _ tt); [apply sends_emit_all|apply sends_ret]. Qed.

(** Memory and calls of a run: the kernel is dead afterwards when it was, or when a
    call that ends it was made. *)
Definition dies {A} (p : prog agent A) : Prop :=
  forall g o, let '(_, g', _, t) := run h p g o in k_dead g' = k_dead g || existsb fatal t.

Lemma dies_sends {A} (p : prog agent A) a : sends p a -> dies p.
Proof. intros Hp g o. destruct (Hp g o) as (o' & t & -> & Ht). apply only_sent in Ht as [-> _]. by rewrite orb_false_r. Qed.
Lemma dies_bind {A B} (p : prog agent A) (f : A -> prog agent B) : dies p -> (forall a, dies (f a)) -> dies (p ≫= f).
Proof.
  intros Hp Hf g o. rewrite run_bind. specialize (Hp g o). destruct (run h p g o) as [[[a g1] o1] t1].
  specialize (Hf a g1 o1). destruct (run h (f a) g1 o1) as [[[b g2] o2] t2]. by rewrite Hf, Hp, existsb_app, orb_assoc.
Qed.

Lemma dies_fatal {A} (p : prog agent A) a e :
  sends p a -> fatal e = true -> forall g o, let '(_, g', _, t) := run h (_ ← modify set_dead; p) g o in k_dead g' = k_dead g || existsb fatal (e :: t).
Proof.
  intros Hp He g o. cbn. destruct (Hp (set_dead g) o) as (o' & t & -> & _). by rewrite He, orb_true_r.
Qed.

Lemma kernel_events_dies payload fuel conn : dies (kernel_events payload fuel conn).
Proof.
  induction fuel as [|fuel IH]; cbn [kernel_events]; [apply (dies_sends _ None), sends_ret|]. intros g o. unfold ask. rewrite run_bind. cbn [run sys].
  destruct (h (CGuest GKernelLine) o) as [l o1]. cbn in l. destruct l as [|msg| |msg|e]; cbn [app].
  - pose proof (dies_fatal (A := option (res string unit)) (_ ← errorFrames payload conn "kernel exited unexpectedly"; mret (Some (Ok tt))) _ (Ev (CGuest GKernelLine) KernelEnd) (sends_errorFrames _ _ _ _) eq_refl g o1) as H.
    by destruct (run h _ g o1) as [[[]]].
  - pose proof (dies_fatal (A := option (res string unit)) (mret (Some (Err ("kernel stream: " +:+ msg)))) _ (Ev (CGuest GKernelLine) (KernelScanError msg)) (sends_ret _) eq_refl g o1) as H.
    by destruct (run h _ g o1) as [[[]]].
  - specialize (IH g o1). by destruct (run h _ g o1) as [[[]]].
  - pose proof (dies_fatal (A := option (res string unit)) (mret (Some (Err ("decode kernel event: " +:+ msg)))) _ (Ev (CGuest GKernelLine) (KernelBad msg)) (sends_ret _) eq_refl g o1) as H.
    by destruct (run h _ g o1) as [[[]]].
  - assert (dies (if String.eqb (de_Kind e) "done"
       then _ ← emit conn (exit_frame (if String.eqb (de_Status e) "error" then 1 else 0) EmptyString); mret (Some (Ok tt))
       else _ ← emit_all conn (event_frames payload e); kernel_events payload fuel conn)) as Hd.
    { case_match; apply dies_bind; [apply (dies_sends _ tt), (sends_emit_all conn [_])|intros; apply (dies_sends _ _ (sends_ret (Some (Ok tt : res string unit))))|
        apply (dies_sends _ tt), sends_emit_all|by intros]. }
    specialize (Hd g o1). by destruct (run h _ g o1) as [[[]]].
Qed.

(** Starting leaves the mark of death alone, succeeds only on a kernel that is not
    dead, hands no code over, and makes no call when the kernel is dead. *)
Lemma ensureStarted_alive python driver g o :
  let '(r, g', _, t) := run h (ensureStarted python driver) g o in
  k_dead g' = k_dead g /\ existsb hands_over t = false /\ (k_dead g = true -> is_ok r = false /\ t = []).
Proof.
  unfold ensureStarted, kernel_dir, prog_try, ask. rewrite run_bind. cbn [run atomic fst snd app]. destruct (k_dead g) eqn:Hd; [by cbn|].
  destruct (k_started g); [by cbn|]. rewrite run_bind. cbn [run sys]. destruct (h _ o) as [st o1]. destruct st as [|msg|b]; try by cbn.
  rewrite run_bind, run_bind. cbn [run sys]. destruct (h _ o1) as [st o2]. cbn [run mret prog_mret]. rewrite run_bind. cbn [run sys].
  destruct (h _ o2) as [ks o3]. destruct ks as [[]|msg]; [|by cbn]. rewrite run_bind. cbn [run sys]. destruct (h _ o3) as [l o4].
  destruct l as [|msg| |msg|e]; [..|destruct (String.eqb (de_Kind e) "ready"); [by cbn|]]; rewrite run_bind; cbn [run sys];
    destruct (h _ o4) as [kk o5]; by cbn.
Qed.

Lemma run_kernel_died quoted payload fuel python driver conn code language timeout g o :
  let '(_, g', _, t) := run h (run_kernel quoted payload fuel python driver conn code language timeout) g o in
  k_dead g' = k_dead g || died t /\ (k_dead g = true -> Forall (fun e => ~ not_sent (ev_call e)) t).
Proof.
  assert (forall msg (x : option (res string unit)) g o, let '(_, g', _, t) := run h (_ ← errorFrames payload conn msg; mret x) g o in
    g' = g /\ existsb hands_over t = false /\ Forall (fun e => ~ not_sent (ev_call e)) t) as Herr.
  { intros msg x g0 o0. destruct (sends_errorFrames payload conn msg x g0 o0) as (o' & t & -> & Ht). split; [done|]. split; [by apply only_sent|done]. }
  unfold run_kernel. destruct (_ && _).
  { specialize (Herr ("unsupported language " +:+ quoted language +:+ ": this base image provides only a python kernel") (Some (Ok tt)) g o).
    destruct (run h _ g o) as [[[r g'] o'] t]. destruct Herr as (-> & Hh & Ht). rewrite died_none, orb_false_r by exact Hh. split; [done|by intros]. }
  rewrite run_bind. pose proof (ensureStarted_alive python driver g o) as Hs. destruct (run h (ensureStarted _ _) g o) as [[[s g1] o1] t1].
  destruct Hs as (Hg1 & Hh1 & Hd). destruct s as [[]|msg].
  - destruct (k_dead g) eqn:Hk; [by destruct (Hd eq_refl)|]. unfold ask. rewrite run_bind. cbn [run sys].
    destruct (h _ o1) as [w o2]. destruct w as [[]|msg].
    + rewrite run_bind. cbn [run sys]. destruct (h _ o2) as [f o3]. destruct f as [[]|msg].
      * pose proof (kernel_events_dies payload fuel conn g1 o3) as He. destruct (run h _ g1 o3) as [[[r g2] o4] t2]. cbn [app].
        rewrite died_app by done. split; [|done]. rewrite He, Hg1. by cbn.
      * pose proof (dies_fatal (A := option (res string unit)) (_ ← errorFrames payload conn ("flush to kernel: " +:+ msg); mret (Some (Ok tt))) _
          (Ev (CGuest GKernelFlush) (Err msg)) (sends_errorFrames _ _ _ _) eq_refl g1 o3) as He.
        destruct (run h _ g1 o3) as [[[r g2] o4] t2]. cbn [app]. rewrite died_app by done. split; [|done]. rewrite He, Hg1. by cbn.
    + pose proof (dies_fatal (A := option (res string unit)) (_ ← errorFrames payload conn ("write to kernel: " +:+ msg); mret (Some (Ok tt))) _
        (Ev (CGuest (GKernelWrite code timeout)) (Err msg)) (sends_errorFrames _ _ _ _) eq_refl g1 o2) as He.
      destruct (run h _ g1 o2) as [[[r g2] o4] t2]. cbn [app]. rewrite died_app by done. split; [|done]. rewrite He, Hg1. by cbn.
  - match goal with |- context[run h (_ ← errorFrames payload conn ?m; mret ?x) g1 o1] => specialize (Herr m x g1 o1) end.
    destruct (run h _ g1 o1) as [[[r g2] o2] t2]. destruct Herr as (-> & Hh & Ht). rewrite died_app, died_none, orb_false_r by done.
    split; [done|]. intros Hk. destruct (Hd Hk) as [_ ->]. done.
Qed.
End died.

(** C28. A run of code ends with its exit frame.  The host gets any number of frames that
    are none and then exactly one exit frame, unless the driver keeps sending lines
    that do not end the run.  The kernel is dead afterwards when it was before or
    when it failed after the code was handed over; and no code is handed to a dead
    kernel, nor is it started again: the request is only answered. *)
Theorem run_code_exact {O} (h : env O) quoted payload fuel conn code language timeout g o :
  let '(ok, g', _, t) := run h (handleRunCodeStream quoted payload fuel conn code language timeout) g o in
  (if ok then closed (frames t) else (fuel <= going t)%nat) /\
  k_dead g' = k_dead g || died t /\
  (k_dead g = true -> Forall (fun e => ~ not_sent (ev_call e)) t).
Proof.
  pose proof (adds_run h _ _ g o (run_code_adds quoted payload fuel conn code language timeout)) as Hf. revert Hf.
  unfold handleRunCodeStream. rewrite run_bind. pose proof (run_kernel_died h quoted payload fuel "python3" defaultDriverPath conn code language timeout g o) as Hk.
  destruct (run h (run_kernel _ _ _ _ _ _ _ _ _) g o) as [[[r g1] o1] t1]. destruct Hk as [Hd Hq].
  assert (exists b : bool, sends h (match r with
      | None => mret false
      | Some (Err msg) => _ ← emit_all conn [error_frame payload "KernelStreamError" msg; exit_frame 1 EmptyString]; mret true
      | Some (Ok _) => mret true
      end) b) as [b Hs].
  { destruct r as [[[]|msg]|]; eexists; try apply sends_ret. apply (sends_bind _ _ _ tt); [apply sends_emit_all|apply sends_ret]. }
  destruct (Hs g1 o1) as (o2 & t2 & -> & Ht2). intros Hf. split; [exact Hf|]. pose proof (only_sent t2 Ht2) as [Hn2 Hh2]. split.
  - rewrite Hd. f_equal. clear -Hn2 Hh2. induction t1 as [|e t1 IH]; cbn.
    + symmetry. by apply died_none.
    + case_match; [by rewrite existsb_app, Hn2, orb_false_r|done].
  - intros Hdead. apply Forall_app. split; [by apply Hq|done].
Qed.
End KernelFacts.

(** ** Connections *)

Module ConnectionFacts.
Import Agent KernelFacts.

#[local] Hint Extern 1 (not_sent _) => exact I : prog.

Section requests.
Variable quoted : string -> string.
Variable range : gmap string string -> list (string * string).
Variable other : string -> list string.
Variable mktar : list tar_member -> string.
Variable untar : string -> list tar_member * option string.
Variable payload : string -> string -> string.

Lemma tar_walk_silent dir entries ms : calls_in not_sent (tar_walk dir entries ms).
Proof.
  revert ms. induction entries as [|[rel e] entries IH]; intros ms; [exact I|]. cbn [tar_walk]. destruct e; [exact I|apply IH| |apply IH].
  case_bool_decide; [apply IH|]. apply calls_try; [by apply calls_sys|]. intros data. case_match; [exact I|apply IH].
Qed.
Lemma untar_members_silent dst ms err : calls_in not_sent (untar_members quoted dst ms err).
Proof.
  induction ms as [|m ms IH]; [exact I|]. cbn [untar_members]. destruct (Outputs.safeJoin dst (tm_name m)); [|exact I].
  destruct (tm_type m); [| |exact I]; unfold writeRegular, ask; walk; exact IH.
Qed.
Lemma run_all_silent steps : calls_in not_sent (run_all steps).
Proof. by apply NotifyFacts.run_all_calls. Qed.
Lemma mountVolumes_silent entries n : calls_in not_sent (mountVolumes other entries n).
Proof.
  eapply calls_mono; [|by apply (NotifyFacts.mountVolumes_calls other entries entries n)]. intros c Hc.
  destruct c; try exact I. match goal with q : gcall |- _ => destruct q; try exact I end. by destruct Hc.
Qed.
Lemma signal_all_silent self entries n : calls_in not_sent (signal_all self entries n).
Proof. revert n. induction entries as [|[nm d] entries IH]; intros n; [exact I|]. cbn [signal_all]. repeat case_match; unfold ask; walk; apply IH. Qed.
#[local] Hint Resolve tar_walk_silent untar_members_silent run_all_silent mountVolumes_silent signal_all_silent : prog.

Abbreviation handle := (handleRequest quoted range other mktar untar).
Abbreviation serve := (handleConnection quoted range other mktar untar payload).

Lemma handleRequest_silent r : calls_in not_sent (handle r).
Proof.
  destruct r; cbn [handleRequest];
    unfold handleExec, session_env, handleReadFile, handleWriteFile, handleListDir, done_or, handleConfigure, handleTarDir, tarDir, handleUntarDir,
      untarDir, handleNotifyForked, reseedCRNG, stepClock, writeForkGeneration, configureNetwork, writeResolvConf, signalUserspace, ask; walk.
Qed.

(** Requests that take the connection over, and those before the first one. *)
Definition takes_over (l : guest_line) : bool :=
  match l with
  | GRequest (AExecStream _ _ _ _ | ARunCode _ _ _ | APty _ _) => true
  | GNil type => streaming type
  | _ => false
  end.
Fixpoint before_stream (lines : list guest_line) : list guest_line :=
  match lines with l :: lines => if takes_over l then [] else l :: before_stream lines | [] => [] end.

(** The calls made for a line: those of handling it, and the answer they led to. *)
Definition answered {O} (h : env O) (conn : Z) (l : guest_line) (t : trace) : Prop :=
  exists calls resp x, t = calls ++ [Ev (CGuest (GReply conn (LResponse resp))) x] /\
  match l with
  | GRequest r => Forall (fun e => not_sent (ev_call e)) calls /\ exists g o g' o', run h (handle r) g o = (resp, g', o', calls)
  | _ => calls = [] /\ ar_OK resp = false
  end.

(** Answers go to the connection alone. *)
Definition to_conn (conn : Z) (c : call) : Prop := match c with CGuest (GReply c' _) => c' = conn | _ => True end.
#[local] Hint Extern 1 (to_conn _ _) => (exact I || reflexivity) : prog.

Lemma emit_all_to conn fs : calls_in (to_conn conn) (emit_all conn fs).
Proof. induction fs as [|f fs IH]; [exact I|]. cbn [emit_all]. unfold emit, ask. walk. Qed.
Lemma silent_to {A} conn (p : prog agent A) : calls_in not_sent p -> calls_in (to_conn conn) p.
Proof. apply calls_mono. intros c. destruct c; try done. by match goal with q : gcall |- _ => destruct q end. Qed.
#[local] Hint Resolve emit_all_to : prog.
Lemma errorFrames_to conn msg : calls_in (to_conn conn) (errorFrames payload conn msg).
Proof. apply emit_all_to. Qed.
Lemma ensureStarted_to conn python driver : calls_in (to_conn conn) (ensureStarted python driver).
Proof. apply silent_to, ensureStarted_silent. Qed.
Lemma kernel_events_to fuel conn : calls_in (to_conn conn) (kernel_events payload fuel conn).
Proof.
  induction fuel as [|fuel IH]; [exact I|]. cbn [kernel_events]. unfold ask, emit, errorFrames. walk; unfold ask; walk; exact IH.
Qed.
Lemma pty_output_to conn chunks : calls_in (to_conn conn) (pty_output conn chunks).
Proof. induction chunks as [|c chunks IH]; [exact I|]. cbn [pty_output]. unfold pty_line, ask. walk. Qed.
#[local] Hint Resolve errorFrames_to ensureStarted_to kernel_events_to pty_output_to : prog.

Lemma serve_to fuel conn lines : calls_in (to_conn conn) (serve fuel conn lines).
Proof.
  induction lines as [|l lines IH]; [exact I|]. cbn [handleConnection].
  assert (forall r, calls_in (to_conn conn) (resp ← handle r; _ ← writeResponse conn resp; serve fuel conn lines)) as Hr.
  { intros r. apply calls_bind; [apply silent_to, handleRequest_silent|]. unfold writeResponse, ask. walk. }
  destruct l as [r|type|type|msg]; [destruct r; try apply Hr|..]; try (unfold writeResponse, ask; walk; exact IH);
    unfold handleExecStream, session_env, handleRunCodeStream, run_kernel, handlePtyStream, start_pty, session_env, pty_exit, pty_line, setWinsize,
      pty_pump, emit, pty_exit, pty_line, ask; walk.
Qed.

Lemma run_writeResponse {O} (h : env O) conn resp (k : prog agent unit) g o :
  exists x o1, run h (_ ← writeResponse conn resp; k) g o =
    let '(a, g2, o2, t) := run h k g o1 in (a, g2, o2, [Ev (CGuest (GReply conn (LResponse resp))) x] ++ t).
Proof.
  unfold writeResponse, ask. rewrite run_bind, run_bind. cbn [run sys mret prog_mret]. destruct (h _ o) as [x o1]. exists x, o1.
  by destruct (run h k g o1) as [[[]]].
Qed.

(** C29. A connection answers its requests one by one.  Up to the first request that
    takes the connection over for a stream, every line gets exactly one answer, in
    the order of the lines and before the next line is handled; the answer is that
    of handling this very request, and a line that is no request gets an error.
    Without such a request nothing else is done.  Nothing is ever written to
    another connection. *)
Theorem connection_in_order {O} (h : env O) fuel conn lines g o :
  let t := (run h (serve fuel conn lines) g o).2 in
  exists segs rest, t = concat segs ++ rest /\ Forall2 (answered h conn) (before_stream lines) segs /\
    (before_stream lines = lines -> rest = []) /\ Forall (fun e => to_conn conn (ev_call e)) t.
Proof.
  intros t. assert (exists segs rest, t = concat segs ++ rest /\ Forall2 (answered h conn) (before_stream lines) segs /\
    (before_stream lines = lines -> rest = [])) as (segs & rest & Ht & Hs & Hr).
  2: { exists segs, rest. split_and!; [done..|]. pose proof (adds_run h _ _ g o (adds_calls _ _ (serve_to fuel conn lines))) as H.
       unfold t. by destruct (run h _ g o) as [[[]]]. }
  unfold t. clear t. revert g o. induction lines as [|l lines IH]; intros g o; [by exists [], []|]. cbn [before_stream].
  destruct (takes_over l) eqn:Hl; [exists [], (run h (serve fuel conn (l :: lines)) g o).2; split_and!; [done|constructor|done]|].
  assert (forall g o resp calls, (match l with
      | GRequest r => Forall (fun e => not_sent (ev_call e)) calls /\ exists g o g' o', run h (handle r) g o = (resp, g', o', calls)
      | _ => calls = [] /\ ar_OK resp = false
      end) -> exists segs rest, calls ++ (run h (_ ← writeResponse conn resp; serve fuel conn lines) g o).2 = concat segs ++ rest /\
      Forall2 (answered h conn) (l :: before_stream lines) segs /\ (l :: before_stream lines = l :: lines -> rest = [])) as Hstep.
  { intros g0 o0 resp calls Hc. destruct (run_writeResponse h conn resp (serve fuel conn lines) g0 o0) as (x & o1 & ->).
    destruct (IH g0 o1) as (segs & rest & Ht & Hs & Hr). destruct (run h _ g0 o1) as [[[a g2] o2] t]. cbn in Ht. subst t.
    exists ((calls ++ [Ev (CGuest (GReply conn (LResponse resp))) x]) :: segs), rest. split_and!.
    - cbn. by rewrite <-!app_assoc.
    - constructor; [|done]. by exists calls, resp, x.
    - intros [= E]. by apply Hr. }
  assert (forall r, l = GRequest r -> exists segs rest, (run h (resp ← handle r; _ ← writeResponse conn resp; serve fuel conn lines) g o).2 = concat segs ++ rest /\
      Forall2 (answered h conn) (l :: before_stream lines) segs /\ (l :: before_stream lines = l :: lines -> rest = [])) as Hreq.
  { intros r ->. rewrite run_bind. pose proof (adds_run h _ _ g o (adds_calls _ _ (handleRequest_silent r))) as Hq.
    destruct (run h (handle r) g o) as [[[resp g1] o1] calls] eqn:Er. specialize (Hstep g1 o1 resp calls (conj Hq (ex_intro _ g (ex_intro _ o (ex_intro _ g1 (ex_intro _ o1 Er)))))).
    by destruct (run h _ g1 o1) as [[[]]]. }
  destruct l as [r|type|type|msg]; [destruct r; try done; by apply Hreq|..]; cbn in Hl; cbn [handleConnection]; rewrite ?Hl; by apply (Hstep g o _ []).
Qed.
End requests.
End ConnectionFacts.

(** ** Examples *)

Module AgentExamples.
Import GuestEnv EnvFacts Agent Outputs.

(** Of two base entries the later one counts, what was configured overrides the
    base, and the request overrides both. *)
Lemma merge_exact_witness :
  exists named, Permutation named [("A", "2"); ("B", "c"); ("C", "r")] /\
    Merge map_to_list ["A=1"; "loose"; "A=2"; "B=b"] {[ "B" := "c"; "C" := "c" ]} {[ "C" := "r" ]} = ["loose"] ++ map entry named.
Proof.
  destruct (merge_exact map_to_list ["A=1"; "loose"; "A=2"; "B=b"] {[ "B" := "c"; "C" := "c" ]} {[ "C" := "r" ]} ltac:(reflexivity))
    as (named & Hp & Ho). exists named. split; [|exact Ho]. rewrite Hp.
  assert ({[ "C" := "r" ]} ∪ ({[ "B" := "c"; "C" := "c" ]} ∪ values (omap (cut_byte equals) ["A=1"; "loose"; "A=2"; "B=b"]))
    = (list_to_map [("A", "2"); ("B", "c"); ("C", "r")] : gmap string string)) as -> by (by vm_compute).
  apply map_to_list_to_map. apply (bool_decide_unpack _). vm_compute. exact I.
Defined.

(** A command that is killed at its deadline ends with an exit error.  The request
    that answers at once reports that error's code, the stream reports 124. *)
Example timeout_codes : exec_code (Some (ExitError (-1))) true = -1 /\ stream_code (Some (ExitError (-1))) true = 124.
Proof. done. Qed.

(** A directory that the allowlist takes but that is not clean refuses every member. *)
Example unclean_target_refuses : pathAllowed "/workspace/" = true /\ safeJoin "/workspace/" "notes" = Err OutsideMember.
Proof. vm_compute. done. Qed.

(** /proc/mounts writes a space in a path as an escape: such a mount is not seen. *)
Definition spaced_mount : env unit := fun c o =>
  match c return answer c * unit with
  | CGuest GProcMounts => (Some ["/dev/vdb /data\040x ext4 rw 0 0"], o)
  | c => ((obliging c 0).1, o)
  end.
Example mount_with_space_unseen :
  (run spaced_mount (isMounted (fun _ => []) "/data x") (mkAgent ∅ false false) tt).1.1.1 = false /\
  (run spaced_mount (isMounted (fun _ => []) "/data\040x") (mkAgent ∅ false false) tt).1.1.1 = true.
Proof. vm_compute. done. Qed.
End AgentExamples.
