(* ===== verification/Link.v ===== *)
(** * A host and a guest on one connection

    The host's client of internal/vsock and the agent of guest/agent, run against
    each other: a request the host writes is handled by the agent, and the lines
    the agent writes are the lines the host reads.

    - [Link]: the connection, as an environment of the host's programs.
    - [LinkFacts]: requests and the streamed command, from end to end. *)
From S2P Require Import Prelude GoLib GoFs Host Guarded Vsock Workspace Agent AgentFacts.
#[local] Open Scope go_scope.

Module Link.
Import Vsock Agent KernelFacts ConnectionFacts.

Section link.
Context {H O : Type} (host : env H) (guest : env O).
Variable quoted : string -> string.
Variable range : gmap string string -> list (string * string).
Variable other : string -> list string.
Variable mktar : list tar_member -> string.
Variable untar : string -> list tar_member * option string.
Variable payload : string -> string -> string.
(** The lines of the kernel's driver that one run may take. *)
Variable fuel : nat.
Abbreviation handle := (handleRequest quoted range other mktar untar).
Abbreviation serve := (handleConnection quoted range other mktar untar payload fuel).

(** The state of the host, of the guest and of the agent, the lines that are on
    their way to the host, and the calls the agent has made. *)
Record link := mkLink { lk_host : H; lk_guest : O; lk_agent : agent; lk_lines : list line; lk_calls : trace }.

Definition line_of (l : agent_line) : line :=
  match l with
  | LResponse r => mkLine EmptyString (Some r) None None
  | LFrame f => mkLine EmptyString None (Some f) None
  | LPty f => mkLine EmptyString None None (Some f)
  end.
Definition arrives (conn : Z) (e : event) : option line :=
  match e with
  | Ev (CGuest (GReply c l)) x => if is_ok x && (c =? conn) then Some (line_of l) else None
  | _ => None
  end.
Definition delivered (conn : Z) (t : trace) : list line := omap (arrives conn) t.

Definition linked : env link := fun c st =>
  match c return answer c * link with
  | CConnWrite conn (WRequest r) =>
      let '(_, a, o, t) := run guest (serve conn [GRequest r]) (lk_agent st) (lk_guest st) in
      (true, mkLink (lk_host st) o a (lk_lines st ++ delivered conn t) (lk_calls st ++ t))
  | CConnRead _ => (hd_error (lk_lines st), mkLink (lk_host st) (lk_guest st) (lk_agent st) (tl (lk_lines st)) (lk_calls st))
  | CConnLines _ => ((lk_lines st, EndOfFile), mkLink (lk_host st) (lk_guest st) (lk_agent st) [] (lk_calls st))
  | c => let '(x, o) := host c (lk_host st) in (x, mkLink o (lk_guest st) (lk_agent st) (lk_lines st) (lk_calls st))
  end.

Lemma delivered_app conn t1 t2 : delivered conn (t1 ++ t2) = delivered conn t1 ++ delivered conn t2.
Proof. apply omap_app. Qed.
Lemma delivered_silent conn t : Forall (fun e => not_sent (ev_call e)) t -> delivered conn t = [].
Proof.
  induction 1 as [|[c x] t Hc _ IH]; [done|]. destruct c; try exact IH. by match goal with q : gcall |- _ => destruct q end.
Qed.

(** A request that does not stream, sent on a connection with nothing on its way:
    the host gets the answer of handling it, if the agent could write it. *)
Lemma send_linked {G} conn r (g : G) st :
  takes_over (GRequest r) = false -> lk_lines st = [] ->
  let '(resp, a, o, t) := run guest (handle r) (lk_agent st) (lk_guest st) in
  let '(x, o') := guest (CGuest (GReply conn (LResponse resp))) o in
  exists t', run linked (send conn r) g st =
    (if is_ok x then (if ar_OK resp then Ok resp else Err (AgentError (ar_Error resp))) else Err ConnectionClosed, g,
     mkLink (lk_host st) o' a [] (lk_calls st ++ t ++ [Ev (CGuest (GReply conn (LResponse resp))) x]), t').
Proof.
  intros Hr Hl. pose proof (adds_run guest _ _ (lk_agent st) (lk_guest st) (adds_calls _ _ (handleRequest_silent quoted range other mktar untar r))) as Hq.
  assert (run guest (serve conn [GRequest r]) (lk_agent st) (lk_guest st) =
    run guest (resp ← handle r; _ ← writeResponse conn resp; mret tt) (lk_agent st) (lk_guest st)) as Hs by (by destruct r).
  unfold writeResponse, ask in Hs. rewrite run_bind in Hs. unfold send. rewrite run_bind. cbn [run sys linked].
  rewrite Hs. destruct (run guest (handle r) _ _) as [[[resp a] o] t] eqn:Eh. cbn [run mbind prog_mbind prog_bind sys mret prog_mret].
  destruct (guest (CGuest (GReply conn (LResponse resp))) o) as [x o'] eqn:Eg. cbn [negb run sys app]. rewrite Hl, delivered_app, (delivered_silent _ _ Hq).
  cbn [lk_host lk_guest lk_agent lk_lines lk_calls app]. destruct x as [[]|msg]; cbn; rewrite ?Z.eqb_refl; cbn; eexists; [by destruct (ar_OK resp)|done].
Qed.
End link.
End Link.

Module LinkFacts.
Import Vsock StreamFacts Agent KernelFacts ConnectionFacts Link.

(** The calls of a streamed command: whether it was started, what was read from its
    outputs, and how it ended. *)
Definition spawned (e : event) : option (res string Z) := match e with Ev (CGuest (GStart _ _ _ _)) x => Some x | _ => None end.
Definition pumped (e : event) : option (list (string * string)) := match e with Ev (CGuest (GPumps _)) x => Some x | _ => None end.
Definition waited (e : event) : option (option run_error * bool) := match e with Ev (CGuest (GWait _)) x => Some x | _ => None end.

(** The bytes of one output, in the order they were read. *)
Definition joined (stdout : bool) (cs : list (string * string)) : string :=
  foldr (fun c acc => if Bool.eqb (String.eqb c.1 "stdout") stdout then c.2 +:+ acc else acc) EmptyString cs.

Section exec.
Context {H O : Type} (host : env H) (guest : env O).
Variable quoted : string -> string.
Variable range : gmap string string -> list (string * string).
Variable other : string -> list string.
Variable mktar : list tar_member -> string.
Variable untar : string -> list tar_member * option string.
Variable payload : string -> string -> string.
Variable fuel : nat.
Hypothesis delivers : forall conn l o, is_ok (guest (CGuest (GReply conn l)) o).1 = true.
Abbreviation linked := (linked host guest quoted range other mktar untar payload fuel).

Lemma run_emit conn f (a : agent) o :
  exists o' t, run guest (emit conn f) a o = (tt, a, o', t) /\ delivered conn t = [line_of (LFrame f)] /\ omap spawned t = [] /\ omap pumped t = [] /\ omap waited t = [].
Proof using delivers.
  unfold emit, ask. rewrite run_bind. cbn [run sys]. pose proof (delivers conn (LFrame f) o) as Hd.
  destruct (guest (CGuest (GReply conn (LFrame f))) o) as [x o1]. exists o1. eexists. split; [done|]. cbn in *. by rewrite Hd, Z.eqb_refl.
Qed.
Lemma run_emit_all conn fs (a : agent) o :
  exists o' t, run guest (emit_all conn fs) a o = (tt, a, o', t) /\ delivered conn t = map (fun f => line_of (LFrame f)) fs /\ omap spawned t = [] /\ omap pumped t = [] /\ omap waited t = [].
Proof using delivers.
  revert o. induction fs as [|f fs IH]; intros o; cbn [emit_all]; [by exists o, []|]. destruct (run_emit conn f a o) as (o1 & t1 & E1 & D1 & S1 & P1 & W1).
  destruct (IH o1) as (o2 & t2 & E2 & D2 & S2 & P2 & W2). exists o2, (t1 ++ t2). rewrite run_bind, E1, E2, delivered_app, !omap_app, D1, D2, S1, S2, P1, P2, W1, W2.
  split_and!; done.
Qed.

Lemma chunks_of fs last :
  Forall (fun f => String.eqb (f_Kind f) "chunk" = true) fs -> is_chunk last = false ->
  chunks (map (fun f => line_of (LFrame f)) fs ++ [last]) = fs /\ terminal (map (fun f => line_of (LFrame f)) fs ++ [last]) = Some last.
Proof using.
  intros Hfs Hl. unfold terminal. induction Hfs as [|f fs Hf _ [IH1 IH2]].
  - cbn. rewrite Hl. unfold is_chunk in Hl. by destruct (l_frame last) as [f|]; [rewrite Hl|].
  - cbn [map app chunks List.find]. unfold is_chunk at 1. rewrite IH1, IH2. cbn. by rewrite Hf.
Qed.

Lemma output_joined b cs : output b (map (fun '(stream, data) => chunk stream data) cs) = joined b cs.
Proof using. unfold output, joined. induction cs as [|[stream data] cs IH]; [done|]. cbn [map foldr fst snd]. by rewrite IH. Qed.

(** The agent's part: what it writes, by how the command went. *)
Lemma run_execStream conn command dir env timeout (a : agent) o :
  exists ls calls o' a', run guest (handleExecStream range conn command dir env timeout) a o = (tt, a', o', calls) /\
    delivered conn calls = ls /\ match omap spawned calls with
    | [Err msg] => ls = [line_of (LFrame (exit_frame 1 msg))]
    | [Ok _] => exists cs err deadline, omap pumped calls = [cs] /\ omap waited calls = [(err, deadline)] /\
        ls = map (fun f => line_of (LFrame f)) (map (fun '(stream, data) => chunk stream data) cs) ++ [line_of (LFrame (exit_frame (stream_code err deadline) EmptyString))]
    | _ => False
    end.
Proof using delivers.
  unfold handleExecStream, session_env, ask. rewrite run_bind, run_bind. cbn [run atomic fst snd]. rewrite run_bind. cbn [run sys].
  destruct (guest (CGuest GEnviron) o) as [base o1]. cbn [run mret prog_mret]. rewrite run_bind. cbn [run sys].
  destruct (guest _ o1) as [p o2]. destruct p as [pid|msg].
  - rewrite run_bind. cbn [run sys]. destruct (guest (CGuest (GPumps pid)) o2) as [cs o3]. rewrite run_bind.
    destruct (run_emit_all conn (map (fun '(stream, data) => chunk stream data) cs) a o3) as (o4 & t4 & -> & D4 & S4 & P4 & W4).
    rewrite run_bind. cbn [run sys]. destruct (guest (CGuest (GWait pid)) o4) as [[err deadline] o5]. 
    destruct (run_emit conn (exit_frame (stream_code err deadline) EmptyString) a o5) as (o6 & t6 & -> & D6 & S6 & P6 & W6).
    do 4 eexists. split; [done|]. split; [rewrite !delivered_app, D4, D6; cbn [app]; done|]. rewrite !omap_app, S4, P4, W4, S6, P6, W6.
    by exists cs, err, deadline.
  - destruct (run_emit conn (exit_frame 1 msg) a o2) as (o4 & t4 & -> & D4 & S4 & P4 & W4).
    do 4 eexists. split; [done|]. split; [rewrite !delivered_app, D4; cbn [app]; done|]. by rewrite !omap_app, S4.
Qed.

(** C19. A streamed command from end to end.  On a connection whose lines arrive, the
    host gets exactly what the command in the guest wrote: the bytes of each output
    in the order the agent read them, and the code of its end; a command that could
    not be started gives the error of its start. *)
Theorem exec_streams_through {G} conn command dir env timeout (g : G) st :
  lk_lines st = [] ->
  let '(r, _, st', _) := run linked (StreamExec conn command dir env timeout) g st in
  exists calls, lk_calls st' = lk_calls st ++ calls /\ lk_lines st' = [] /\
  match omap spawned calls with
  | [Err msg] => r = if String.eqb msg EmptyString then Ok (1, EmptyString, EmptyString) else Err (SpawnError msg)
  | [Ok _] => exists cs err deadline, omap pumped calls = [cs] /\ omap waited calls = [(err, deadline)] /\
      r = Ok (stream_code err deadline, joined true cs, joined false cs)
  | _ => False
  end.
Proof using delivers.
  intros Hl. destruct (run_execStream conn command dir env timeout (lk_agent st) (lk_guest st)) as (ls & calls & o' & a' & Hrun & Hd & Hcase).
  unfold StreamExec, ExecStream. rewrite run_bind, run_bind. cbn [run sys Link.linked]. cbn [handleConnection]. rewrite Hrun, Hd, Hl.
  cbn [negb app]. rewrite run_bind. cbn [run sys Link.linked lk_lines lk_host lk_guest lk_agent lk_calls]. rewrite exec_frames_exact. cbn [run mret prog_mret lk_lines lk_calls].
  exists calls. split; [done|]. split; [done|]. destruct (omap spawned calls) as [|[pid|msg] [|]]; try done.
  - destruct Hcase as (cs & err & deadline & Hp & Hw & ->). exists cs, err, deadline. split; [done|]. split; [done|]. unfold verdict.
    destruct (chunks_of (map (fun '(stream, data) => chunk stream data) cs) (line_of (LFrame (exit_frame (stream_code err deadline) EmptyString)))) as [-> ->]; [|done|].
    { clear. induction cs as [|[]]; by constructor. }
    cbn. by rewrite !output_joined.
  - rewrite Hcase. by destruct msg.
Qed.
End exec.
End LinkFacts.

(** ** Examples *)

Module LinkExamples.
Import Vsock Agent Link LinkFacts.

(** A command that writes to both of its outputs and fails. *)
Definition shell : env unit := fun c o =>
  match c return answer c * unit with
  | CGuest (GPumps _) => ([("stdout", "a"); ("stderr", "e"); ("stdout", "b")], o)
  | CGuest (GWait _) => ((Some (ExitError 3), false), o)
  | c => ((obliging c 0).1, o)
  end.
Definition idle_link : @link Z unit := mkLink 0 tt (mkAgent ∅ false false) [] [].
Abbreviation ex_linked := (linked obliging shell (fun s => s) map_to_list (fun _ => []) (fun _ => EmptyString) (fun _ => ([], None)) (fun _ _ => EmptyString) 1).

Lemma exec_streams_through_witness :
  lk_lines idle_link = [] /\ (run ex_linked (StreamExec 7 "make" EmptyString ∅ 0) tt idle_link).1.1.1 = Ok (3, "ab", "e").
Proof.
  split; [reflexivity|].
  pose proof (exec_streams_through obliging shell (fun s => s) map_to_list (fun _ => []) (fun _ => EmptyString) (fun _ => ([], None)) (fun _ _ => EmptyString) 1
    ltac:(reflexivity) 7 "make" EmptyString ∅ 0 tt idle_link eq_refl) as H.
  assert (omap spawned (lk_calls (run ex_linked (StreamExec 7 "make" EmptyString ∅ 0) tt idle_link).1.2) = [Ok 77] /\
    omap pumped (lk_calls (run ex_linked (StreamExec 7 "make" EmptyString ∅ 0) tt idle_link).1.2) = [[("stdout", "a"); ("stderr", "e"); ("stdout", "b")]] /\
    omap waited (lk_calls (run ex_linked (StreamExec 7 "make" EmptyString ∅ 0) tt idle_link).1.2) = [(Some (ExitError 3), false)]) as (Hs & Hp & Hw)
    by (vm_compute; auto).
  revert Hs Hp Hw H. destruct (run ex_linked (StreamExec 7 "make" EmptyString ∅ 0) tt idle_link) as [[[r g'] st'] t]. cbn [fst snd]. intros Hs Hp Hw H.
  destruct H as (calls & Hc & _ & H). change (lk_calls st' = calls) in Hc. rewrite Hc in Hs, Hp, Hw. rewrite Hs in H.
  destruct H as (cs & err & deadline & Hp' & Hw' & ->). rewrite Hp in Hp'. rewrite Hw in Hw'. injection Hp' as <-. injection Hw' as <- <-. reflexivity.
Defined.
End LinkExamples.
