(* ===== verification/Travel.v ===== *)
(** * A workspace from one guest to another

    The agent's transfer on a file tree, and the whole way of a workspace: packed in
    one guest, captured and restored by the host, unpacked in another.

    - [Disk]: a file tree as the guest's operating system.
    - [Pack], [Unpack]: what the agent packs from a tree, and the tree after it
      unpacked.
    - [Journey]: from tree to tree. *)
From S2P Require Import Prelude GoLib GoFs Cas Host Guarded Vsock Workspace Agent AgentFacts Link.
#[local] Open Scope go_scope.

Module Disk.
Import Agent Transfer.

(** Regular files with their bytes, and directories. *)
Record tree := mkTree { t_files : fs_t; t_dirs : gset fpath }.

(** A directory and those above it. *)
Definition prefixes (p : fpath) : list fpath := map (fun n => take n p) (seq 0 (S (length p))).

(** What filepath.Walk visits: a directory before what is in it, names in order. *)
Definition walk_of (t : tree) (d : fpath) : list (fpath * walk_entry) :=
  map (fun pe => (drop (length d) pe.1, pe.2))
    (sort_by (fun a b => walk_less a.1 b.1)
       (List.filter (fun pe => is_prefix d pe.1)
          (map (fun p => (p, WalkDir)) (elements (t_dirs t)) ++
           map (fun kv => (kv.1, WalkFile (Z.of_nat (length kv.2)))) (map_to_list (t_files t))))).

Definition mkdir_all (t : tree) (p : fpath) : option tree :=
  if existsb (fun q => bool_decide (is_Some (t_files t !! q))) (prefixes p) then None
  else Some (mkTree (t_files t) (t_dirs t ∪ list_to_set (prefixes p))).

Definition open_trunc (t : tree) (p : fpath) : option tree :=
  if bool_decide (p ∈ t_dirs t) || negb (bool_decide (removelast p ∈ t_dirs t)) then None
  else Some (mkTree (<[p := []]> (t_files t)) (t_dirs t)).

Definition append (t : tree) (p : fpath) (data : bytes) : option tree :=
  match t_files t !! p with
  | None => None
  | Some b => Some (mkTree (<[p := b ++ data]> (t_files t)) (t_dirs t))
  end.

Definition or_error (t : tree) (r : option tree) (msg : string) : res string unit * tree :=
  match r with Some t' => (Ok tt, t') | None => (Err msg, t) end.

(** The calls of the transfer, on the tree; the others succeed. *)
Definition disk : env tree := fun c t =>
  match c return answer c * tree with
  | CGuest q =>
      match q return ganswer q * tree with
      | GStat p =>
          let e := clean_elems p in
          (if bool_decide (e ∈ t_dirs t) then StatInfo true
           else if bool_decide (is_Some (t_files t !! e)) then StatInfo false else StatAbsent, t)
      | GWalk d => (walk_of t (clean_elems d), t)
      | GReadAll p => (match t_files t !! clean_elems p with Some b => Ok b | None => Err "no such file or directory" end, t)
      | GMkdirAll p => or_error t (mkdir_all t (clean_elems p)) "not a directory"
      | GOpenTrunc p => or_error t (open_trunc t (clean_elems p)) "cannot open"
      | GCopy p data => or_error t (append t (clean_elems p) data) "bad file descriptor"
      | q => (willing q, t)
      end
  | c => ((obliging c 0).1, t)
  end.

(** A file tree: names are file names, everything is in a directory, and what is a
    file is no directory. *)
Record tree_ok (t : tree) : Prop := {
  ok_root : [] ∈ t_dirs t;
  ok_names : forall p, p ∈ t_dirs t \/ is_Some (t_files t !! p) -> Forall plain p;
  ok_parent : forall p x, p ++ [x] ∈ t_dirs t \/ is_Some (t_files t !! (p ++ [x])) -> p ∈ t_dirs t;
  ok_apart : forall p, p ∈ t_dirs t -> t_files t !! p = None }.

Lemma ok_above t p q : tree_ok t -> q <> [] -> p ++ q ∈ t_dirs t \/ is_Some (t_files t !! (p ++ q)) -> p ∈ t_dirs t.
Proof.
  intros Ht. induction q as [|x q IH] using rev_ind; [done|]. intros _ Hq. rewrite app_assoc in Hq.
  apply (ok_parent t Ht) in Hq. destruct (decide (q = [])) as [->|Hne]; [by rewrite app_nil_r in Hq|]. apply IH; [done|by left].
Qed.

(** No file lies below another. *)
Lemma ok_prefix_free t p x q : tree_ok t -> is_Some (t_files t !! p) -> is_Some (t_files t !! (p ++ x :: q)) -> False.
Proof.
  intros Ht Hp Hq. assert (p ∈ t_dirs t) as Hd by (apply (ok_above t p (x :: q)); [done|done|by right]).
  apply (ok_apart t Ht) in Hd. rewrite Hd in Hp. by destruct Hp.
Qed.
End Disk.

(** ** Packing *)

Module Pack.
Import Agent Outputs Transfer Members Facts Disk.

(** A path below the workspace as a member's name. *)
Definition root : fpath := ["workspace"].
Lemma root_plain : Forall plain root.
Proof. constructor; [by apply (bool_decide_unpack _)|constructor]. Qed.

Lemma good_of_plain rel : Forall plain rel -> rel <> [] -> good (join_byte slash rel) /\ clean_elems (join_byte slash rel) = rel.
Proof.
  intros Hp Hne. pose proof (join_climbs_rel 0 rel Hp) as Ha. pose proof (clean_elems_join 0 rel Hp Hne) as He.
  change (climbs 0 rel) with rel in Ha, He. split; [|done]. split; [split; [done|by rewrite He]|]. split; [by rewrite He|].
  destruct (Clean_rel _ 0 rel Ha He Hp) as (_ & _ & Hc). change (climbs 0 rel) with rel in Hc. rewrite Hc. by rewrite decide_False.
Qed.

(** The member of an entry. *)
Definition member_at (t : tree) (d : fpath) (en : fpath * walk_entry) : option tar_member :=
  let '(rel, e) := en in
  if bool_decide (rel = []) then None
  else
    match e with
    | WalkDir => Some (mkTarMember TypeDir (join_byte slash rel +:+ "/") [])
    | WalkFile _ => Some (mkTarMember TypeReg (join_byte slash rel) (default [] (t_files t !! (d ++ rel))))
    | _ => None
    end.
Definition archive (t : tree) (d : fpath) : list tar_member := omap (member_at t d) (walk_of t d).

Definition true_entry (t : tree) (d : fpath) (en : fpath * walk_entry) : Prop :=
  Forall plain en.1 /\
  match en.2 with
  | WalkDir => d ++ en.1 ∈ t_dirs t
  | WalkFile size => exists b, t_files t !! (d ++ en.1) = Some b /\ size = Z.of_nat (length b)
  | _ => False
  end.

Lemma walk_of_true t d : tree_ok t -> Forall (true_entry t d) (walk_of t d).
Proof.
  intros Ht. unfold walk_of. apply Forall_map, Forall_forall. intros [p e] Hin%list_elem_of_In. rewrite sort_by_perm in Hin.
  apply list_elem_of_In, filter_In in Hin as [Hin (rel & Hp)%is_prefix_spec]. cbn in Hp. subst p. unfold true_entry. cbn [fst snd].
  rewrite drop_app_length. assert (d ++ rel ∈ t_dirs t \/ is_Some (t_files t !! (d ++ rel)) -> Forall plain rel) as Hpl.
  { intros H%(ok_names t Ht). by apply Forall_app in H as [_ H]. }
  apply in_app_or in Hin as [(p & [= -> <-] & Hp)%in_map_iff|([p b] & [= -> <-] & Hp)%in_map_iff].
  - apply list_elem_of_In, elem_of_elements in Hp. auto.
  - apply list_elem_of_In, elem_of_map_to_list in Hp. split; [apply Hpl; right|]; by exists b.
Qed.

Lemma tar_walk_run (a : agent) t d entries ms :
  Forall plain d -> Forall (true_entry t d) entries ->
  exists tr, run disk (tar_walk (abs_of d) entries ms) a t = (Ok (ms ++ omap (member_at t d) entries), a, t, tr).
Proof.
  intros Hd Hen. revert ms. induction Hen as [|[rel e] entries [Hrel He] _ IH]; intros ms; [exists []; by rewrite app_nil_r|].
  cbn [tar_walk omap list_omap member_at]. cbn [fst snd] in *. destruct e as [msg| |size|]; [done| | |done].
  - destruct rel as [|x rel]; [apply IH|]. destruct (IH (ms ++ [mkTarMember TypeDir (join_byte slash (x :: rel) +:+ "/") []])) as [tr Hr].
    exists tr. rewrite Hr. rewrite bool_decide_eq_false_2 by done. by rewrite <-app_assoc.
  - case_bool_decide as Hr0; [apply IH|]. destruct He as (b & Hb & ->). unfold prog_try, ask. rewrite run_bind. cbn [run sys disk].
    rewrite Join_plain, clean_elems_abs_of, Hb, Z.eqb_refl by (try done; by apply Forall_app). cbn [negb default].
    destruct (IH (ms ++ [mkTarMember TypeReg (join_byte slash rel) b])) as [tr ->]. eexists. by rewrite <-app_assoc.
Qed.

Lemma walk_of_file t d rel b : t_files t !! (d ++ rel) = Some b -> (rel, WalkFile (Z.of_nat (length b))) ∈ walk_of t d.
Proof.
  intros Hb. unfold walk_of. apply list_elem_of_fmap. exists (d ++ rel, WalkFile (Z.of_nat (length b))). cbn [fst snd].
  rewrite drop_app_length. split; [done|]. rewrite sort_by_perm. apply list_elem_of_In, filter_In. split; [|apply is_prefix_spec; by exists rel].
  apply in_or_app. right. apply in_map_iff. exists (d ++ rel, b). split; [done|]. by apply list_elem_of_In, elem_of_map_to_list.
Qed.

(** *** The archive as the host reads it *)

Definition host_member (m : tar_member) : member :=
  mkMember (match tm_type m with TypeReg => true | _ => false end) (tm_name m) (tm_data m).
Definition reg_of (m : member) : option (string * bytes) := if h_reg m then Some (h_name m, h_data m) else None.

(** The regular members are the files below the workspace. *)
Lemma archive_regs t n b :
  tree_ok t -> root ∈ t_dirs t ->
  (n, b) ∈ omap reg_of (map host_member (archive t root)) <->
  exists rel, rel <> [] /\ Forall plain rel /\ n = join_byte slash rel /\ t_files t !! (root ++ rel) = Some b.
Proof.
  intros Ht Hroot. rewrite list_elem_of_omap. split.
  - intros (m & Hm & Hr). apply list_elem_of_fmap in Hm as (tm & -> & Htm). apply list_elem_of_omap in Htm as ([rel e] & Hen & Hat).
    pose proof (walk_of_true t root Ht) as Hall. rewrite Forall_forall in Hall. destruct (Hall _ ltac:(by apply list_elem_of_In)) as [Hpl He].
    cbn in Hat, Hpl, He. case_bool_decide as Hne; [done|]. destruct e as [msg| |size|]; try done; injection Hat as <-; [done|].
    destruct He as (b' & Hb & _). cbn in Hr. rewrite Hb in Hr. injection Hr as <- <-. by exists rel.
  - intros (rel & Hne & Hpl & -> & Hb). exists (mkMember true (join_byte slash rel) b). split; [|done]. apply list_elem_of_fmap.
    exists (mkTarMember TypeReg (join_byte slash rel) b). split; [done|]. apply list_elem_of_omap.
    exists (rel, WalkFile (Z.of_nat (length b))). split; [by apply walk_of_file|]. unfold member_at. rewrite bool_decide_eq_false_2 by done. by rewrite Hb.
Qed.

Lemma contents_files excl ms n b :
  (forall n b, (n, b) ∈ omap reg_of ms -> Clean n = n) ->
  (forall n b b', (n, b) ∈ omap reg_of ms -> (n, b') ∈ omap reg_of ms -> b = b') ->
  contents excl ms !! n = Some b <-> (n, b) ∈ omap reg_of ms /\ excluded n excl = false.
Proof.
  unfold contents. revert n b. induction ms as [|m ms IH] using rev_ind; intros n b Hc Hf.
  { cbn. rewrite lookup_empty. split; [done|]. by intros [?%elem_of_nil _]. }
  assert (forall n b, (n, b) ∈ omap reg_of ms -> (n, b) ∈ omap reg_of (ms ++ [m])) as Hsub.
  { intros n' b'. rewrite omap_app, elem_of_app. by left. }
  rewrite fold_left_app. cbn [fold_left]. specialize (IH n b ltac:(eauto) ltac:(eauto)). unfold keep, reg_of in *.
  rewrite omap_app, elem_of_app in *. cbn [omap list_omap] in *. destruct (h_reg m) eqn:Hr; cbn [andb].
  2: { rewrite IH. split; [by intros [? ?]; auto|]. by intros [[?|?%elem_of_nil] ?]. }
  assert ((h_name m, h_data m) ∈ omap (fun m => if h_reg m then Some (h_name m, h_data m) else None) ms ++ [(h_name m, h_data m)]) as Hm.
  { rewrite elem_of_app. right. by left. }
  rewrite (Hc _ _ Hm). destruct (excluded (h_name m) excl) eqn:Hx; cbn [negb].
  - rewrite IH. split; [by intros [? ?]; auto|]. intros [[?|E%list_elem_of_singleton] ?]; [done|]. congruence.
  - destruct (decide (h_name m = n)) as [<-|Hne].
    + rewrite lookup_insert_eq. split; [intros [= <-]; split; [right; by left|done]|]. intros [Hin _]. f_equal. eapply Hf; [exact Hm|]. by rewrite elem_of_app.
    + rewrite lookup_insert_ne, IH by done. split; [intros [? ?]; auto|]. intros [[?|[= -> ->]%list_elem_of_singleton] ?]; done.
Qed.

(** The files that are captured: not excluded, and under a captured path. *)
Definition selected (excl paths : list string) (n : string) : bool :=
  negb (excluded n excl) && ((length paths =? 0)%nat || underAnyPrefix n paths).

Lemma captured_lookup t excl paths n b :
  tree_ok t -> root ∈ t_dirs t ->
  select paths (contents excl (map host_member (archive t root))) !! n = Some b <->
  selected excl paths n = true /\ exists rel, rel <> [] /\ Forall plain rel /\ n = join_byte slash rel /\ t_files t !! (root ++ rel) = Some b.
Proof.
  intros Ht Hroot. assert (contents excl (map host_member (archive t root)) !! n = Some b <->
    (n, b) ∈ omap reg_of (map host_member (archive t root)) /\ excluded n excl = false) as Hc.
  { apply contents_files.
    - intros n' b' (rel & Hne & Hpl & -> & _)%archive_regs; [|done..]. by apply good_of_plain.
    - intros n' b1 b2 (rel & Hne & Hpl & -> & H1)%archive_regs; [|done..]. intros (rel' & Hne' & Hpl' & He & H2)%archive_regs; [|done..].
      apply (f_equal clean_elems) in He. destruct (good_of_plain rel Hpl Hne) as [_ E1], (good_of_plain rel' Hpl' Hne') as [_ E2]. assert (rel = rel') as <- by congruence. congruence. }
  rewrite archive_regs in Hc by done. unfold select, selected. destruct (length paths =? 0)%nat; cbn [orb].
  - rewrite Hc, andb_true_r, negb_true_iff. tauto.
  - rewrite map_lookup_filter_Some, Hc, andb_true_iff, negb_true_iff. cbn. tauto.
Qed.

(** *** The agent's answer *)

Definition tarred (data : string) : agent_response := mkResponse true EmptyString None None None None None (Some data).

Lemma handleTarDir_run quoted mktar (a : agent) t :
  tree_ok t -> root ∈ t_dirs t -> Z.of_nat (String.length (mktar (archive t root))) <= Vsock.MaxTarBytes ->
  exists tr, run disk (handleTarDir quoted mktar Outputs.WorkspacePath) a t = (tarred (mktar (archive t root)), a, t, tr).
Proof.
  intros Ht Hroot Hsize. unfold handleTarDir. change (pathAllowed Outputs.WorkspacePath) with true. cbn [negb]. rewrite run_bind. unfold tarDir, ask.
  rewrite run_bind. cbn [run sys disk]. change (clean_elems Outputs.WorkspacePath) with root. rewrite bool_decide_eq_true_2 by done.
  rewrite run_bind. cbn [run sys disk]. change (clean_elems Outputs.WorkspacePath) with root. unfold prog_try. rewrite run_bind.
  change Outputs.WorkspacePath with (abs_of root).
  destruct (tar_walk_run a t root (walk_of t root) [] root_plain (walk_of_true t root Ht)) as [tr ->]. cbn [run mret prog_mret app].
  destruct (Z.ltb_spec Vsock.MaxTarBytes (Z.of_nat (String.length (mktar (omap (member_at t root) (walk_of t root)))))); [unfold archive in Hsize; lia|]. by eexists.
Qed.
End Pack.

(** ** Unpacking *)

Module Unpack.
Import Agent Outputs Transfer Members Facts Disk Pack.

Section unpack.
(** A tree whose workspace is empty. *)
Variable dst : tree.
Hypothesis dst_root : t_files dst !! [] = None.
Hypothesis dst_files : forall r, t_files dst !! (root ++ r) = None.
Hypothesis dst_dirs : forall x r, root ++ x :: r ∉ t_dirs dst.

(** The tree with the files [done] unpacked. *)
Definition filled (done : list (string * bytes)) : fs_t :=
  fold_left (fun m nb => <[root ++ clean_elems nb.1 := nb.2]> m) done (t_files dst).
Record holds (done : list (string * bytes)) (t : tree) : Prop := {
  holds_files : t_files t = filled done;
  holds_dirs : forall r, root ++ r ∈ t_dirs t -> r = [] \/ exists nb x q, nb ∈ done /\ clean_elems nb.1 = r ++ x :: q }.

Lemma filled_sub done p : is_Some (filled done !! p) -> is_Some (t_files dst !! p) \/ exists nb, nb ∈ done /\ p = root ++ clean_elems nb.1.
Proof using.
  unfold filled. induction done as [|nb done IH] using rev_ind; [by left|]. rewrite fold_left_app. cbn [fold_left].
  destruct (decide (root ++ clean_elems nb.1 = p)) as [<-|Hne].
  - intros _. right. exists nb. split; [apply elem_of_app; right; by left|done].
  - rewrite lookup_insert_ne by done. intros [?|(nb' & ? & ->)]%IH; [by left|right]. exists nb'. split; [apply elem_of_app; by left|done].
Qed.

Lemma elem_of_prefixes (p q : fpath) : q ∈ prefixes p <-> exists r, p = q ++ r.
Proof using.
  unfold prefixes. rewrite list_elem_of_fmap. setoid_rewrite elem_of_seq. split.
  - intros (n & -> & _). exists (drop n p). by rewrite take_drop.
  - intros [r ->]. exists (length q). rewrite take_app_length, length_app. split; [done|lia].
Qed.

(** Two names of which none leads through the other. *)
Definition apart (n n' : string) : Prop :=
  forall x q, clean_elems n <> clean_elems n' ++ x :: q /\ clean_elems n' <> clean_elems n ++ x :: q.

(** The directory of a new file can be made. *)
Lemma mkdir_holds done t es e n :
  holds done t -> clean_elems n = es ++ [e] -> (forall nb, nb ∈ done -> apart n nb.1) ->
  exists t1, mkdir_all t (root ++ es) = Some t1 /\ t_files t1 = filled done /\ root ++ es ∈ t_dirs t1 /\ root ++ clean_elems n ∉ t_dirs t1 /\
    forall r, root ++ r ∈ t_dirs t1 -> r = [] \/ (exists nb x q, nb ∈ done /\ clean_elems nb.1 = r ++ x :: q) \/ exists x q, clean_elems n = r ++ x :: q.
Proof using dst_files dst_root.
  intros [Hf Hd] Hn Hap. unfold mkdir_all. rewrite Hf. destruct (existsb _ _) eqn:He.
  - exfalso. apply existsb_exists in He as (q & Hq%list_elem_of_In & Hsome%bool_decide_eq_true). apply elem_of_prefixes in Hq as [r Hr].
    apply filled_sub in Hsome as [Hsome|(nb & Hnb & ->)].
    + destruct q as [|y q]; [rewrite dst_root in Hsome; by destruct Hsome|]. cbn in Hr. injection Hr as <- ->.
      specialize (dst_files q). cbn in dst_files. rewrite dst_files in Hsome. by destruct Hsome.
    + rewrite <-app_assoc in Hr. apply (inj (app root)) in Hr. subst es.
      assert (clean_elems n = clean_elems nb.1 ++ (r ++ [e])) as E by (by rewrite app_assoc).
      destruct (r ++ [e]) as [|x q] eqn:Er; [by destruct r|]. by destruct (Hap nb Hnb x q) as [[] _].
  - eexists. split; [done|]. cbn [t_files t_dirs]. split; [done|]. split_and!.
    + apply elem_of_union. right. apply elem_of_list_to_set, elem_of_prefixes. exists []. by rewrite app_nil_r.
    + rewrite elem_of_union, elem_of_list_to_set, elem_of_prefixes. intros [Hin|[r Hr]].
      * apply Hd in Hin as [E|(nb & x & q & Hnb & E)]; [by rewrite E in Hn; destruct es|]. by destruct (Hap nb Hnb x q) as [_ []].
      * rewrite <-app_assoc in Hr. apply (inj (app root)) in Hr. rewrite Hn in Hr. apply (f_equal length) in Hr. rewrite !length_app in Hr. cbn in Hr. lia.
    + intros r. rewrite elem_of_union, elem_of_list_to_set, elem_of_prefixes. intros [Hin|[r' Hr]]; [apply Hd in Hin as [?|?]; auto|].
      rewrite <-app_assoc in Hr. apply (inj (app root)) in Hr. subst es. right; right. rewrite <-app_assoc in Hn. destruct (r' ++ [e]) as [|x q] eqn:Er; [by destruct r'|]. eauto.
Qed.

Lemma filled_snoc done n b : filled (done ++ [(n, b)]) = <[root ++ clean_elems n := b]> (filled done).
Proof using. unfold filled. by rewrite fold_left_app. Qed.

Lemma untar_step quoted (a : agent) done t n b ms err :
  holds done t -> good n -> Z.of_nat (length b) <= Vsock.MaxTarBytes -> (forall nb, nb ∈ done -> apart n nb.1) ->
  exists t' pre, holds (done ++ [(n, b)]) t' /\
    run disk (untar_members quoted (abs_of root) (mkTarMember TypeReg n b :: ms) err) a t =
    let '(r, a', o, tr) := run disk (untar_members quoted (abs_of root) ms err) a t' in (r, a', o, pre ++ tr).
Proof using dst_files dst_root.
  intros Ht ([Habs Hpl] & Hne & Hcl) Hb Hap. destruct (clean_elems n) as [|e es _] eqn:Hn using rev_ind; [done|].
  destruct (mkdir_holds done t es e n Ht Hn Hap) as (t1 & Hmk & Hf1 & Hdir & Hnot & Hdirs). apply Forall_app in Hpl as [Hes He]. inversion He as [|? ? He' _]; subst.
  assert (Forall plain (root ++ es)) as Hre by (apply Forall_app; split; [apply root_plain|done]).
  assert (Forall plain (root ++ clean_elems n)) as Hrn by (rewrite Hn, app_assoc; by apply Forall_app).
  exists (mkTree (<[root ++ clean_elems n := b]> (filled done)) (t_dirs t1)). eexists. split.
  { split; cbn [t_files t_dirs]; [by rewrite filled_snoc|]. intros r Hr%Hdirs. destruct Hr as [->|[(nb & x & q & Hnb & E)|(x & q & E)]]; [by left|right..].
    - exists nb, x, q. split; [apply elem_of_app; by left|done].
    - exists (n, b), x, q. split; [apply elem_of_app; right; by left|done]. }
  cbn [untar_members tm_name tm_type tm_data].
  assert (safeJoin (abs_of root) n = Ok (abs_of (root ++ clean_elems n))) as ->.
  { rewrite <-Hcl at 1. apply safeJoin_inside; [apply root_plain|done|]. split; [done|]. rewrite Hn. by apply Forall_app. }
  set (f := abs_of (root ++ clean_elems n)). assert (clean_elems f = root ++ clean_elems n) as Hf by (by apply clean_elems_abs_of).
  assert (removelast (root ++ clean_elems n) = root ++ es) as Hrl by (rewrite Hn, app_assoc; apply removelast_last).
  set (t2 := mkTree (<[root ++ clean_elems n := []]> (filled done)) (t_dirs t1)).
  set (t3 := mkTree (<[root ++ clean_elems n := b]> (filled done)) (t_dirs t1)).
  assert (disk (CGuest (GMkdirAll (Dir f))) t = (Ok tt, t1)) as E1.
  { change (or_error t (mkdir_all t (clean_elems (Dir f))) "not a directory" = (Ok tt, t1)). unfold f. rewrite Hn, app_assoc, Dir_abs_of by done. by rewrite clean_elems_abs_of, Hmk. }
  assert (disk (CGuest (GOpenTrunc f)) t1 = (Ok tt, t2)) as E2.
  { change (or_error t1 (open_trunc t1 (clean_elems f)) "cannot open" = (Ok tt, t2)). unfold open_trunc. rewrite Hf, Hrl, bool_decide_eq_false_2, bool_decide_eq_true_2 by done.
    cbn [orb negb or_error]. by rewrite Hf1. }
  assert (disk (CGuest (GCopy f (limited b))) t2 = (Ok tt, t3)) as E3.
  { change (or_error t2 (append t2 (clean_elems f) (limited b)) "bad file descriptor" = (Ok tt, t3)). unfold append, limited. rewrite Hf. destruct (Z.leb_spec (Z.of_nat (length b)) Vsock.MaxTarBytes); [|lia]. unfold t2. cbn [t_files t_dirs].
    rewrite lookup_insert_eq. cbn [or_error app]. by rewrite insert_insert_eq. }
  assert (disk (CGuest (GClose f)) t3 = (Ok tt, t3)) as E4 by done.
  unfold prog_try, writeRegular, ask. rewrite run_bind. cbn [run sys]. rewrite E1. rewrite run_bind. unfold prog_try. rewrite run_bind. cbn [run sys]. rewrite E2.
  rewrite run_bind. cbn [run sys]. rewrite E3. cbn [run sys]. rewrite E4.
  destruct (run disk (untar_members quoted (abs_of root) ms err) a t3) as [[[r a'] o] tr]. by rewrite ?app_assoc.
Qed.

Definition guest_member (m : member) : tar_member := mkTarMember (if h_reg m then TypeReg else TypeOther) (h_name m) (h_data m).
Definition fits_tar (nb : string * bytes) : Prop := good nb.1 /\ Z.of_nat (length nb.2) <= Vsock.MaxTarBytes.

Lemma untar_all quoted (a : agent) l done t :
  holds done t -> Forall fits_tar l -> (forall nb nb', nb ∈ done ++ l -> nb' ∈ done ++ l -> apart nb.1 nb'.1) ->
  exists t' tr, holds (done ++ l) t' /\
    run disk (untar_members quoted (abs_of root) (map (fun nb => guest_member (mkMember true nb.1 nb.2)) l) None) a t = (Ok tt, a, t', tr).
Proof using dst_files dst_root.
  revert done t. induction l as [|[n b] l IH]; intros done t Ht Hl Hap; [exists t, []; by rewrite app_nil_r|]. inversion Hl as [|? ? [Hg Hb] Hl']; subst.
  assert (done ++ (n, b) :: l = (done ++ [(n, b)]) ++ l) as Eq by (by rewrite <-app_assoc).
  destruct (untar_step quoted a done t n b (map (fun nb => guest_member (mkMember true nb.1 nb.2)) l) None Ht Hg Hb) as (t1 & pre & Ht1 & Hrun).
  { intros nb Hnb. apply (Hap (n, b) nb); apply elem_of_app; [right; by left|by left]. }
  rewrite Eq in Hap |- *. destruct (IH _ t1 Ht1 Hl' Hap) as (t' & tr & Ht' & Hr). exists t', (pre ++ tr). split; [done|].
  change (run disk (untar_members quoted (abs_of root) (mkTarMember TypeReg n b :: map (fun nb => guest_member (mkMember true nb.1 nb.2)) l) None) a t = (Ok tt, a, t', pre ++ tr)).
  by rewrite Hrun, Hr.
Qed.

Lemma root_made : exists t1, mkdir_all dst root = Some t1 /\ holds [] t1.
Proof using dst_dirs dst_files dst_root.
  unfold mkdir_all. destruct (existsb _ _) eqn:He.
  - exfalso. cbn in He. pose proof (dst_files []) as H. cbn in H. by rewrite dst_root, H in He.
  - eexists. split; [done|]. split; [done|]. cbn [t_dirs]. intros [|x r]; [by left|]. rewrite elem_of_union, elem_of_list_to_set, elem_of_prefixes.
    intros [H|[r' H]]; [by destruct (dst_dirs x r)|]. by apply (f_equal length) in H.
Qed.

Lemma handleUntarDir_run quoted untar (a : agent) l data :
  Forall fits_tar l -> (forall nb nb', nb ∈ l -> nb' ∈ l -> apart nb.1 nb'.1) ->
  Z.of_nat (String.length data) <= Vsock.MaxTarBytes -> untar data = (map (fun nb => guest_member (mkMember true nb.1 nb.2)) l, None) ->
  exists t' tr, holds l t' /\ run disk (handleUntarDir quoted untar WorkspacePath data) a dst = (succeeded, a, t', tr).
Proof using dst_dirs dst_files dst_root.
  intros Hl Hap Hsize Hun. unfold handleUntarDir. change (pathAllowed WorkspacePath) with true. cbn [negb].
  destruct (Z.ltb_spec Vsock.MaxTarBytes (Z.of_nat (String.length data))); [lia|]. destruct root_made as (t1 & Hmk & Ht1).
  assert (disk (CGuest (GMkdirAll WorkspacePath)) dst = (Ok tt, t1)) as E1.
  { change (or_error dst (mkdir_all dst root) "not a directory" = (Ok tt, t1)). by rewrite Hmk. }
  rewrite run_bind. unfold untarDir, prog_try, ask. rewrite run_bind. cbn [run sys]. rewrite E1, Hun.
  destruct (untar_all quoted a l [] t1 Ht1 Hl Hap) as (t' & tr & Ht' & Hr). change (abs_of root) with WorkspacePath in Hr. rewrite Hr.
  eexists t', _. by split.
Qed.

(** The files of the tree afterwards. *)
Lemma filled_lookup l n b : (forall n b b', (n, b) ∈ l -> (n, b') ∈ l -> b = b') -> Forall fits_tar l -> (n, b) ∈ l -> filled l !! (root ++ clean_elems n) = Some b.
Proof using.
  unfold filled. induction l as [|[n' b'] l IH] using rev_ind; intros Hf Hl; [by intros ?%elem_of_nil|]. rewrite fold_left_app. cbn [fold_left fst snd].
  apply Forall_app in Hl as [Hl Hx]. inversion Hx as [|? ? [Hg' _] _]; subst. cbn in Hg'. intros Hin.
  destruct (decide (clean_elems n' = clean_elems n)) as [E|Hne].
  - rewrite E, lookup_insert_eq. f_equal. assert (n = n') as ->.
    { apply elem_of_app in Hin as [Hin|[= -> ->]%list_elem_of_singleton]; [|done]. rewrite Forall_forall in Hl. apply list_elem_of_In, Hl in Hin as [Hg _]. by apply good_inj. }
    apply (Hf n'); [apply elem_of_app; right; by left|done].
  - rewrite lookup_insert_ne by (intros ?%(inj (app root)); done). apply elem_of_app in Hin as [Hin|[= -> ->]%list_elem_of_singleton]; [|done].
    apply IH; [|done|done]. intros n1 b1 b2 H1 H2. apply (Hf n1); apply elem_of_app; by left.
Qed.
Lemma filled_outside l p : (forall r, p <> root ++ r) -> filled l !! p = t_files dst !! p.
Proof using.
  intros Hp. unfold filled. induction l as [|nb l IH] using rev_ind; [done|]. rewrite fold_left_app. cbn [fold_left]. by rewrite lookup_insert_ne.
Qed.
End unpack.
End Unpack.

(** ** The journey *)

Module Journey.
Import Chunk Manifest Store StoreFacts Outputs Blobs Transfer Members Stores Facts Agent Link Disk Pack Unpack.

(** The files that arrive are those of the source that were selected. *)
Section files.
Variables (src dst : tree) (excl paths : list string).
Hypothesis src_ok : tree_ok src.
Hypothesis src_root : root ∈ t_dirs src.
Hypothesis dst_files : forall r, t_files dst !! (root ++ r) = None.
Let sel := select paths (contents excl (map host_member (archive src root))).
Variable l : list (string * bytes).
Hypothesis l_sel : l ≡ₚ map_to_list sel.

Lemma in_sel n b : (n, b) ∈ l <-> sel !! n = Some b.
Proof using l_sel. rewrite l_sel. apply elem_of_map_to_list. Qed.
Lemma sel_good n b : sel !! n = Some b -> good n /\ t_files src !! (root ++ clean_elems n) = Some b /\ selected excl paths n = true.
Proof using src_ok src_root.
  intros (Hs & rel & Hne & Hpl & -> & Hb)%captured_lookup; [|done..]. destruct (good_of_plain rel Hpl Hne) as [Hg E]. by rewrite E.
Qed.
Lemma sel_apart nb nb' : nb ∈ l -> nb' ∈ l -> apart nb.1 nb'.1.
Proof using l_sel src_ok src_root.
  destruct nb as [n b], nb' as [n' b']. intros (_ & H1 & _)%in_sel%sel_good (_ & H2 & _)%in_sel%sel_good x q. cbn [fst]. split; intros E.
  - rewrite E, app_assoc in H1. by eapply (ok_prefix_free src (root ++ clean_elems n') x q).
  - rewrite E, app_assoc in H2. by eapply (ok_prefix_free src (root ++ clean_elems n) x q).
Qed.
Lemma sel_fits : (forall rel b, t_files src !! (root ++ rel) = Some b -> Z.of_nat (length b) <= Vsock.MaxTarBytes) -> Forall fits_tar l.
Proof using l_sel src_ok src_root.
  intros Hsz. apply Forall_forall. intros [n b] Hin%list_elem_of_In. apply in_sel, sel_good in Hin as (Hg & Hb & _). split; [done|]. by eapply Hsz.
Qed.

Lemma arrived_files p :
  Forall fits_tar l ->
  filled dst l !! p =
  if is_prefix root p then (if selected excl paths (join_byte slash (drop 1 p)) then t_files src !! p else None) else t_files dst !! p.
Proof using All.
  intros Hl. assert (forall n b b', (n, b) ∈ l -> (n, b') ∈ l -> b = b') as Hf by (intros n b b' H1%in_sel H2%in_sel; congruence).
  destruct (is_prefix root p) eqn:Hp.
  - apply is_prefix_spec in Hp as [rel ->]. change (drop 1 (root ++ rel)) with rel. apply option_eq. intros b. split.
    + intros Hb. destruct (filled_sub dst l (root ++ rel)) as [H|((n & b') & Hin & E)]; [by exists b|rewrite dst_files in H; by destruct H|].
      apply (inj (app root)) in E. cbn [fst] in E. rewrite E, (filled_lookup dst l n b' Hf Hl Hin) in Hb. injection Hb as ->.
      apply in_sel, sel_good in Hin as (Hg & Hb & Hs). by rewrite E, <-(good_join n Hg), Hs.
    + destruct (selected excl paths (join_byte slash rel)) eqn:Hs; [|done]. intros Hb. assert (rel <> []) as Hne.
      { intros ->. rewrite app_nil_r in Hb. by rewrite (ok_apart src src_ok root src_root) in Hb. }
      assert (Forall plain rel) as Hpl. { assert (Forall plain (root ++ rel)) as [_ H]%Forall_app by (apply (ok_names src src_ok); right; by exists b). done. }
      destruct (good_of_plain rel Hpl Hne) as [_ E]. rewrite <-E. apply (filled_lookup dst); [done|done|]. apply in_sel, captured_lookup; [done|done|]. split; [done|]. by exists rel.
  - apply filled_outside. intros r ->. apply not_true_iff_false in Hp. apply Hp, is_prefix_spec. by exists r.
Qed.
End files.

Section journey.
Context {S : Type} {CS : ChunkStore S} {FS : FaithfulStore S} {G : Type} {HS : HasStore G S}.
Context {H : Type} (host : env H).
Variables (quoted trim : string -> string) (range : gmap string string -> list (string * string)) (other : string -> list string)
  (payload : string -> string -> string) (fuel : nat).
(** archive/tar in the guest and on the host. *)
Variables (mktar_g : list tar_member -> string) (untar_g : string -> list tar_member * option string).
Variables (mktar_h : list member -> string) (untar_h : string -> list member * bool).
Abbreviation linked := (linked host disk quoted range other mktar_g untar_g payload fuel).
(** The host can make a temporary directory. *)
Hypothesis temp : forall pattern o, exists es o', host (CMkdirTemp EmptyString pattern) o = (Some (abs_of es), o') /\ Forall plain es /\ es <> [].

Lemma TarDir_run conn (g : G) st :
  tree_ok (lk_guest st) -> root ∈ t_dirs (lk_guest st) -> lk_lines st = [] ->
  Z.of_nat (String.length (mktar_g (archive (lk_guest st) root))) <= Vsock.MaxTarBytes ->
  exists st' tr, run linked (Vsock.TarDir conn WorkspacePath) g st = (Ok (mktar_g (archive (lk_guest st) root)), g, st', tr) /\
    lk_guest st' = lk_guest st.
Proof using.
  intros Ht Hr Hl Hsz. destruct (handleTarDir_run quoted mktar_g (lk_agent st) (lk_guest st) Ht Hr Hsz) as [tr Htr].
  pose proof (send_linked host disk quoted range other mktar_g untar_g payload fuel conn (ATarDir WorkspacePath) g st eq_refl Hl) as Hs.
  cbn [handleRequest] in Hs. rewrite Htr in Hs. cbn [disk is_ok] in Hs. destruct Hs as [t' Hs].
  unfold Vsock.TarDir, prog_try. rewrite run_bind, Hs. eexists _, _. split; [reflexivity|done].
Qed.

Lemma UntarDir_run conn (g : G) st l data :
  tree_ok (lk_guest st) -> (forall r, t_files (lk_guest st) !! (root ++ r) = None) -> (forall x r, root ++ x :: r ∉ t_dirs (lk_guest st)) ->
  lk_lines st = [] -> Forall fits_tar l -> (forall nb nb', nb ∈ l -> nb' ∈ l -> apart nb.1 nb'.1) ->
  Z.of_nat (String.length data) <= Vsock.MaxTarBytes -> untar_g data = (map (fun nb => guest_member (mkMember true nb.1 nb.2)) l, None) ->
  exists st' tr, run linked (Vsock.UntarDir conn WorkspacePath data) g st = (Ok tt, g, st', tr) /\ t_files (lk_guest st') = filled (lk_guest st) l.
Proof using.
  intros Ht Hf Hd Hl Hfit Hap Hsz Hun. pose proof (ok_apart _ Ht [] (ok_root _ Ht)) as H0.
  destruct (handleUntarDir_run (lk_guest st) H0 Hf Hd quoted untar_g (lk_agent st) l data Hfit Hap Hsz Hun) as (t' & tr & Hh & Htr).
  pose proof (send_linked host disk quoted range other mktar_g untar_g payload fuel conn (AUntarDir WorkspacePath data) g st eq_refl Hl) as Hs.
  cbn [handleRequest] in Hs. rewrite Htr in Hs. cbn [disk is_ok] in Hs. destruct Hs as [tr' Hs].
  unfold Vsock.UntarDir. destruct (Z.ltb_spec Vsock.MaxTarBytes (Z.of_nat (String.length data))); [lia|]. unfold prog_try. rewrite run_bind, Hs.
  eexists _, _. split; [reflexivity|]. apply (holds_files _ _ _ Hh).
Qed.

(** The host's part, around the transfer. *)
Lemma dehydrate_run conn excl paths (g : G) st st1 tr1 data :
  run linked (Vsock.TarDir conn WorkspacePath) g st = (Ok data, g, st1, tr1) ->
  exists es, (Forall plain es /\ es <> []) /\
  forall s' r, capture trim untar_h yes (getS g) (abs_of es) data excl paths = (s', r) ->
  exists st' t, run linked (DehydrateTo (VT := vsock_transport conn) trim untar_h yes false excl paths) g st = (r, setS s' g, st', t).
Proof using temp.
  intros Etar. destruct (temp "ws-dehydrate-*" (lk_host st1)) as (es & o1 & Etmp & Hes). exists es. split; [done|]. intros s' r Hcap.
  unfold DehydrateTo. cbn [ws_TarDir vsock_transport]. rewrite run_bind, Etar. unfold prog_try, some_or. rewrite run_bind, run_bind.
  cbn [run sys Link.linked]. rewrite Etmp. cbn [run mret prog_mret]. rewrite run_bind. cbn [run atomic fst snd]. rewrite Hcap. cbn [fst snd].
  rewrite run_bind. cbn [run sys Link.linked lk_host]. destruct (host (CRemoveAll (abs_of es)) o1) as [x o2]. by eexists _, _.
Qed.

Lemma hydrate_run conn d (g : G) st :
  Validate d = true ->
  exists es o1, (Forall plain es /\ es <> []) /\
  let st0 := mkLink o1 (lk_guest st) (lk_agent st) (lk_lines st) (lk_calls st) in
  forall s' data, restore mktar_h true (getS g) (abs_of es) d = (s', Ok data) ->
  forall st1 tr1, run linked (Vsock.UntarDir conn WorkspacePath data) (setS s' g) st0 = (Ok tt, setS s' g, st1, tr1) ->
  exists st' t, run linked (HydrateFrom (VT := vsock_transport conn) mktar_h true false d) g st = (Ok tt, setS s' g, st', t) /\
    lk_guest st' = lk_guest st1.
Proof using temp.
  intros Hd. destruct (temp "ws-hydrate-*" (lk_host st)) as (es & o1 & Etmp & Hes). exists es, o1. split; [done|]. intros st0 s' data Hre st1 tr1 Eun.
  unfold HydrateFrom. rewrite Hd. cbn [negb ws_UntarDir vsock_transport]. unfold prog_try, some_or. rewrite run_bind, run_bind.
  cbn [run sys Link.linked]. rewrite Etmp. cbn [run mret prog_mret]. rewrite run_bind. cbn [run atomic fst snd]. rewrite Hre. cbn [fst snd].
  rewrite run_bind, run_bind. fold st0. rewrite Eun. cbn [run mret prog_mret]. rewrite run_bind. cbn [run sys Link.linked].
  destruct (host (CRemoveAll (abs_of es)) (lk_host st1)) as [x o2]. by eexists _, _.
Qed.

(** What the archive of a tree is to the host. *)
Lemma archive_lands t excl : tree_ok t -> root ∈ t_dirs t -> Forall (lands excl) (map host_member (archive t root)).
Proof using.
  intros Ht Hr. apply Forall_forall. intros m Hm%list_elem_of_In. intros Hreg _.
  assert ((h_name m, h_data m) ∈ omap reg_of (map host_member (archive t root))) as Hin.
  { apply list_elem_of_omap. exists m. split; [done|]. unfold reg_of. by rewrite Hreg. }
  apply archive_regs in Hin as (rel & Hne & Hpl & -> & _); [|done..]. destruct (good_of_plain rel Hpl Hne) as [(? & ? & _) _]. done.
Qed.
Lemma archive_sized t excl :
  tree_ok t -> root ∈ t_dirs t ->
  (forall rel b, t_files t !! (root ++ rel) = Some b -> is_ascii (join_byte slash rel) = true /\ Z.of_nat (length b) <= Vsock.MaxTarBytes) ->
  sized_files (contents excl (map host_member (archive t root))).
Proof using.
  intros Ht Hr Hsz n b Hb. change (select [] (contents excl (map host_member (archive t root))) !! n = Some b) in Hb.
  apply captured_lookup in Hb as (_ & rel & _ & _ & -> & Hb); [|done..]. apply Hsz in Hb as [? Hb]. split; [done|]. apply (Z.le_lt_trans _ _ _ Hb). by vm_compute.
Qed.

(** C3. A workspace goes from one guest to another as it is.  A sandbox's workspace is
    dehydrated over the connection to its agent and hydrated over the connection to
    another one, whose workspace is empty: both succeed, and afterwards the second
    guest has below its workspace exactly the first one's regular files that are not
    excluded and lie under a captured path, with the same bytes, and elsewhere the
    files it had. *)
Theorem workspace_travels conn conn' excl paths (g : G) sta stb :
  let src := lk_guest sta in let dst := lk_guest stb in
  let archived := archive src root in
  let sel := select paths (contents (normalizeExcludes trim excl) (map host_member archived)) in
  tree_ok src -> root ∈ t_dirs src -> lk_lines sta = [] ->
  (forall rel b, t_files src !! (root ++ rel) = Some b -> is_ascii (join_byte slash rel) = true /\ Z.of_nat (length b) <= Vsock.MaxTarBytes) ->
  untar_h (mktar_g archived) = (map host_member archived, true) -> Z.of_nat (String.length (mktar_g archived)) <= Vsock.MaxTarBytes ->
  (forall fs files, (forall n, file_data fs files n = sel !! n) -> storable fs files -> takes (getS g) fs files) ->
  tree_ok dst -> (forall r, t_files dst !! (root ++ r) = None) -> (forall x r, root ++ x :: r ∉ t_dirs dst) -> lk_lines stb = [] ->
  untar_g (mktar_h (members_of sel)) = (map guest_member (members_of sel), None) -> Z.of_nat (String.length (mktar_h (members_of sel))) <= Vsock.MaxTarBytes ->
  exists g1 sta' t1 g2 stb' t2,
    run linked (DehydrateTo (VT := vsock_transport conn) trim untar_h yes false excl paths) g sta = (Ok (revision sel), g1, sta', t1) /\
    run linked (HydrateFrom (VT := vsock_transport conn') mktar_h true false (revision sel)) g1 stb = (Ok tt, g2, stb', t2) /\
    forall p, t_files (lk_guest stb') !! p =
      if is_prefix root p
      then (if selected (normalizeExcludes trim excl) paths (join_byte slash (drop 1 p)) then t_files src !! p else None)
      else t_files dst !! p.
Proof using FS temp.
  intros src dst archived sel Hsrc Hroot Hla Hsz Hun Hlen Htakes Hdst Hdf Hdd Hlb Hun' Hlen'.
  destruct (TarDir_run conn g sta Hsrc Hroot Hla Hlen) as (st1 & tr1 & Etar & _).
  destruct (dehydrate_run conn excl paths g sta st1 tr1 _ Etar) as (es & [Hes Hne] & Hde).
  destruct (capture_spec trim untar_h es (getS g) (mktar_g archived) (map host_member archived) excl paths Hes Hne Hun
    (archive_lands src _ Hsrc Hroot) (archive_sized src _ Hsrc Hroot Hsz) Htakes) as (s' & fs & files & Hcap & Hfd & Hst & _ & Hk & Hgood).
  destruct (Hde _ _ Hcap) as (sta' & t1 & Hrun1). fold sel in Hrun1, Hfd, Hk.
  destruct (hydrate_run conn' (revision sel) (setS s' g) stb (Validate_digest _)) as (es' & o1 & [Hes' Hne'] & Hhy).
  assert (forall n, is_Some (sel !! n) -> good n) as Hg by (intros n [b Hb%select_sub]; apply Hgood; by exists b).
  destruct (restore_spec mktar_h es' s' sel fs files Hes' Hne' Hfd Hst Hg Hk) as [s'' Hre].
  set (l := sort_by (fun a b => walk_less (clean_elems a.1) (clean_elems b.1)) (map_to_list sel)).
  assert (l ≡ₚ map_to_list sel) as Hl by apply sort_by_perm.
  assert (Forall fits_tar l) as Hfit by (apply (sel_fits src (normalizeExcludes trim excl) paths); [done..|]; intros rel b Hb; by destruct (Hsz rel b Hb)).
  assert (map guest_member (members_of sel) = map (fun nb => guest_member (mkMember true nb.1 nb.2)) l) as El by (unfold members_of; by rewrite map_map).
  rewrite El in Hun'. cbv zeta in Hhy. rewrite getS_setS in Hhy.
  destruct (UntarDir_run conn' (setS s'' (setS s' g)) (mkLink o1 (lk_guest stb) (lk_agent stb) (lk_lines stb) (lk_calls stb)) l (mktar_h (members_of sel)))
    as (st2 & tr2 & Eun & Hfiles); [done..| |done|done|]. { by apply (sel_apart src (normalizeExcludes trim excl) paths). }
  destruct (Hhy _ _ Hre _ _ Eun) as (stb' & t2 & Hrun2 & Hst2). exists (setS s' g), sta', t1, (setS s'' (setS s' g)), stb', t2.
  split; [done|]. split; [done|]. intros p. rewrite Hst2, Hfiles. by apply (arrived_files src dst (normalizeExcludes trim excl) paths).
Qed.
End journey.
End Journey.

(** ** Examples *)

Module TravelExamples.
Import Chunk Manifest Store StoreFacts Outputs Blobs Envelope Transfer Members Stores Facts WorkspaceExamples Agent Link Disk Pack Unpack Journey.
#[local] Existing Instances ex_blobs ex_lawful ex_store ex_faithful.
#[local] Instance store_alone : HasStore EncryptedStore EncryptedStore := {| getS := id; setS := fun s _ => s; getS_setS := fun _ _ => eq_refl |}.

(** A guest with a build output, a dependency that is not kept, and a file elsewhere;
    and one whose workspace is empty. *)
Definition here : tree :=
  mkTree {[ ["workspace"; "dist"; "app"] := text "x"; ["workspace"; "node_modules"; "dep"] := text "y"; ["etc"; "hostname"] := text "a" ]}
    (list_to_set [[]; ["etc"]; ["workspace"]; ["workspace"; "dist"]; ["workspace"; "node_modules"]]).
Definition there : tree := mkTree {[ ["etc"; "hostname"] := text "b" ]} (list_to_set [[]; ["etc"]; ["workspace"]]).

Definition tree_check (t : tree) : bool :=
  bool_decide ([] ∈ t_dirs t) &&
  forallb (fun p => bool_decide (Forall plain p) && (bool_decide (p = []) || bool_decide (removelast p ∈ t_dirs t)))
    (elements (t_dirs t) ++ map fst (map_to_list (t_files t))) &&
  forallb (fun p => bool_decide (t_files t !! p = None)) (elements (t_dirs t)).

Lemma tree_check_ok t : tree_check t = true -> tree_ok t.
Proof.
  unfold tree_check. intros [[Hr%bool_decide_eq_true Hall]%andb_prop Hap]%andb_prop. rewrite forallb_forall in Hall, Hap.
  assert (forall p, p ∈ t_dirs t \/ is_Some (t_files t !! p) -> Forall plain p /\ (p = [] \/ removelast p ∈ t_dirs t)) as H.
  { intros p Hp. specialize (Hall p). assert (In p (elements (t_dirs t) ++ map fst (map_to_list (t_files t)))) as Hin.
    { apply in_or_app. destruct Hp as [Hp|[b Hb]]; [left; by apply list_elem_of_In, elem_of_elements|right].
      apply in_map_iff. exists (p, b). split; [done|]. by apply list_elem_of_In, elem_of_map_to_list. }
    apply Hall in Hin as [H1%bool_decide_eq_true [H2%bool_decide_eq_true|H2%bool_decide_eq_true]%orb_prop]%andb_prop; auto. }
  split; [done|by intros p [? _]%H| |].
  - intros p x [_ [E|Hp]]%H; [by destruct p|]. by rewrite removelast_last in Hp.
  - intros p Hp. specialize (Hap p). by apply (bool_decide_eq_true_1 _), Hap, list_elem_of_In, elem_of_elements.
Qed.

Definition ex_link (t : tree) : @link Z tree := mkLink 0 t (mkAgent ∅ false false) [] [].
Definition tmp_host : env Z := fun c now =>
  match c return answer c * Z with CMkdirTemp _ _ => (Some "/tmp/w", now) | c => obliging c now end.
Lemma tmp_host_temp pattern o :
  exists es o', tmp_host (CMkdirTemp EmptyString pattern) o = (Some (abs_of es), o') /\ Forall plain es /\ es <> [].
Proof. exists ["tmp"; "w"], o. split; [reflexivity|]. split; [apply (bool_decide_unpack _); by vm_compute|done]. Qed.
Definition tar_out (_ : list tar_member) : string := "archive".
Definition tar_read (_ : string) : list member * bool := (map host_member (archive here root), true).
Definition tar_in (_ : string) : list tar_member * option string := (map guest_member (members_of ex_kept), None).
Abbreviation ex_linked := (linked tmp_host disk same_text map_to_list (fun _ => []) tar_out tar_in (fun _ _ => EmptyString) 1).

Lemma travel_selected :
  select ["dist"] (contents (normalizeExcludes same_text ["/workspace/node_modules"]) (map host_member (archive here root))) = ex_kept.
Proof. vm_compute. reflexivity. Qed.

Lemma here_sized rel b : t_files here !! (root ++ rel) = Some b -> is_ascii (join_byte slash rel) = true /\ Z.of_nat (length b) <= Vsock.MaxTarBytes.
Proof.
  intros Hb. assert (map_Forall (fun p b => is_ascii (join_byte slash (drop 1 p)) = true /\ Z.of_nat (length b) <= Vsock.MaxTarBytes) (t_files here)) as H
    by (apply (bool_decide_unpack _); by vm_compute).
  exact (H _ _ Hb).
Qed.
Lemma there_empty : (forall r, t_files there !! (root ++ r) = None) /\ (forall x r, root ++ x :: r ∉ t_dirs there).
Proof.
  split.
  - intros r. destruct (t_files there !! (root ++ r)) as [b|] eqn:Hb; [|done]. exfalso.
    assert (map_Forall (fun p _ => is_prefix root p = false) (t_files there)) as H by (apply (bool_decide_unpack _); by vm_compute).
    apply H in Hb. apply not_true_iff_false in Hb. apply Hb, is_prefix_spec. by exists r.
  - intros x r Hin. assert (set_Forall (fun p => is_prefix root p = true -> p = root) (t_dirs there)) as H by (apply (bool_decide_unpack _); by vm_compute).
    assert (root ++ x :: r = root) as E by (apply (H _ Hin), is_prefix_spec; by exists (x :: r)). by apply (f_equal length) in E.
Qed.

Lemma workspace_travels_witness :
  exists g1 sta' t1 g2 stb' t2,
    run ex_linked (DehydrateTo (VT := vsock_transport 7) same_text tar_read yes false ["/workspace/node_modules"] ["dist"]) ex_sealed (ex_link here)
      = (Ok (revision ex_kept), g1, sta', t1) /\
    run ex_linked (HydrateFrom (VT := vsock_transport 8) ex_mktar true false (revision ex_kept)) g1 (ex_link there) = (Ok tt, g2, stb', t2) /\
    map (fun p => t_files (lk_guest stb') !! p) [["workspace"; "dist"; "app"]; ["workspace"; "node_modules"; "dep"]; ["etc"; "hostname"]]
      = [Some (text "x"); None; Some (text "b")].
Proof.
  pose proof (workspace_travels tmp_host same_text same_text map_to_list (fun _ => []) (fun _ _ => EmptyString) 1 tar_out tar_in ex_mktar tar_read
    tmp_host_temp
    7 8 ["/workspace/node_modules"] ["dist"] ex_sealed (ex_link here) (ex_link there)) as H. cbv zeta in H.
  change (lk_guest (ex_link here)) with here in H. rewrite travel_selected in H. destruct H as (g1 & sta' & t1 & g2 & stb' & t2 & H1 & H2 & H3);
    [apply tree_check_ok; vm_compute; reflexivity|apply (bool_decide_unpack _); vm_compute; exact I|reflexivity|apply here_sized|reflexivity|
     vm_compute; discriminate|apply ex_takes|apply tree_check_ok; vm_compute; reflexivity|apply there_empty|apply there_empty|reflexivity|reflexivity|
     vm_compute; discriminate|].
  exists g1, sta', t1, g2, stb', t2. split; [exact H1|]. split; [exact H2|].
  cbn [map]. rewrite !H3. vm_compute. reflexivity.
Defined.

End TravelExamples.
