(* ===== verification/Rendezvous.v ===== *)
(** * The git rendezvous (internal/workspace/git.go)

    A terminating claim may push repository paths of its workspace to a git
    remote, on a branch of its own.

    - [Rendezvous]: the branch name, the check of the remote, the credentials file
      and the push, as calls to the file system and the git command.
    - [RendezvousFacts]: the push token reaches one file in a directory of its own
      and no command line, files are written below the work tree only, and both
      directories are removed on every path. *)
From S2P Require Import Prelude GoLib GoFs Cas Wire Host Guarded Vsock Workspace.
#[local] Open Scope go_scope.

Module Rendezvous.
Import Outputs.

Definition rendezvousAuthorName : string := "mitos rendezvous".
Definition rendezvousAuthorEmail : string := "rendezvous@mitos.run".
Definition rendezvousMessage : string := "mitos: workspace rendezvous".

(** net/url: the parts of a URL the code reads; [u_User] is a user name with the
    password if there is one. *)
Record url := mkUrl { u_Scheme : string; u_User : option (string * option string); u_Host : string }.
Record Credentials := mkCredentials { Username : string; Token : string }.

Inductive branch_error := BadTemplate | EmptyBranch | NotARef | LeadingDash.
Inductive push_error :=
| EmptyRemote | EmbedsCredentials (scheme host : string) | NoBranch | NoWorkDir | BadName (name : string) (e : join_error)
| NoParent (name : string) | NotWritten (name : string) | NoHome | NotCredentialCapable (remote : string)
| CredentialsNotWritten | GitFailed (step : string) (output : string).

Section rendezvous.
Context {G : Type}.
(** [strings.TrimSpace] of texts that are not ASCII; [text/template] with
    [missingkey=error] on the one key [name]; [url.Parse]; the text of a URL
    with the given user information and neither path, query nor fragment; the
    iteration order of a map; [strings.ReplaceAll]. *)
Variable trim_other : string -> string.
Variable render : string -> string -> option string.
Variable url_parse : string -> option url.
Variable url_text : url -> string -> string -> string.
Variable sorted_names : gmap string string -> list string.
Variable replace_all : string -> string -> string -> string.

Definition ref_forbidden (c : ascii) : bool :=
  bool_decide (c ∈ [" "; "~"; "^"; ":"; "?"; "*"; "["; "\"]%char).

Definition RenderBranch (tmpl name : string) : res branch_error string :=
  let tmpl := if String.eqb (TrimSpace trim_other tmpl) EmptyString then "attempt/{{.name}}" else tmpl in
  match render tmpl name with
  | None => Err BadTemplate
  | Some text =>
      let branch := TrimSpace trim_other text in
      if String.eqb branch EmptyString then Err EmptyBranch
      else if negb (string_forallb (fun c => negb (ref_forbidden c)) branch)
              || has_prefix "/" branch || has_suffix "/" branch then Err NotARef
      else if has_prefix "-" branch then Err LeadingDash
      else Ok branch
  end.

Definition validateRemoteNoUserinfo (remote : string) : res push_error unit :=
  match url_parse (TrimSpace trim_other remote) with
  | None => Ok tt
  | Some u =>
      match u_User u with
      | None => Ok tt
      | Some (_, password) =>
          let httpScheme := String.eqb (u_Scheme u) "http" || String.eqb (u_Scheme u) "https" in
          if bool_decide (password = None) && negb httpScheme then Ok tt
          else Err (EmbedsCredentials (if String.eqb (u_Scheme u) EmptyString then "(none)" else u_Scheme u) (u_Host u))
      end
  end.

Definition scrubToken (s : string) (creds : option Credentials) : string :=
  match creds with
  | None => s
  | Some c => if String.eqb (Token c) EmptyString then s else replace_all s (Token c) "[REDACTED]"
  end.

Definition cred_file (gitHome : string) : string := Join [gitHome; ".git-credentials"].

Definition writeGitCredentials (gitHome remote : string) (creds : Credentials) : prog G (res push_error string) :=
  match url_parse remote with
  | None => mret (Err (NotCredentialCapable remote))
  | Some u =>
      if String.eqb (u_Host u) EmptyString then mret (Err (NotCredentialCapable remote))
      else
        must _ := check CredentialsNotWritten
          (sys (CWriteFile (cred_file gitHome)
             (String.list_ascii_of_string (url_text u (Username creds) (Token creds) +:+ nl)))) in
        mret (Ok (cred_file gitHome))
  end.

(** The commands before the push. *)
Definition commit_steps (branch : string) : list (list string) :=
  [ ["init"; "-q"; "-b"; branch];
    ["add"; "-A"];
    ["-c"; "user.name=" +:+ rendezvousAuthorName; "-c"; "user.email=" +:+ rendezvousAuthorEmail;
     "-c"; "commit.gpgsign=false"; "commit"; "-q";
     "--author"; rendezvousAuthorName +:+ " <" +:+ rendezvousAuthorEmail +:+ ">"; "-m"; rendezvousMessage] ].

Definition push_step (remote branch : string) (credFile : option string) : list string :=
  match credFile with
  | None => ["push"; "--"; remote; branch]
  | Some f => ["-c"; "credential.helper=store --file=" +:+ f; "push"; "--"; remote; branch]
  end.

Definition git (work gitHome : string) (creds : option Credentials) (args : list string) : prog G (res push_error unit) :=
  r ← sys (CCtl (KGit work gitHome args));
  mret (match r with
        | Ok _ => Ok tt
        | Err out => Err (GitFailed (default EmptyString (head args)) (scrubToken (TrimSpace trim_other out) creds))
        end).

Definition write_file (work : string) (repoFiles : gmap string string) (name : string) : prog G (res push_error unit) :=
  match safeJoin work (Clean name) with
  | Err e => mret (Err (BadName name e))
  | Ok dst =>
      must _ := check (NoParent name) (sys (CMkdirAll (Dir dst))) in
      check (NotWritten name)
        (sys (CWriteFile dst (String.list_ascii_of_string (default EmptyString (repoFiles !! name)))))
  end.

(** The credentials file, when there is a token to put into it. *)
Definition credentials (gitHome remote : string) (creds : option Credentials) : prog G (res push_error (option string)) :=
  match creds with
  | Some c =>
      if String.eqb (TrimSpace trim_other (Token c)) EmptyString then mret (Ok None)
      else must f := writeGitCredentials gitHome remote c in mret (Ok (Some f))
  | None => mret (Ok None)
  end.

(** The part of Rendezvous that runs with both directories. *)
Definition push (work gitHome : string) (remote branch : string) (creds : option Credentials) : prog G (res push_error unit) :=
  must f := credentials gitHome remote creds in
  for_each (commit_steps branch ++ [push_step remote branch f]) (git work gitHome creds).

Definition Rendezvous (repoFiles : gmap string string) (remote branch : string) (creds : option Credentials)
  : prog G (res push_error unit) :=
  if bool_decide (repoFiles = ∅) then mret (Ok tt)
  else if String.eqb (TrimSpace trim_other remote) EmptyString then mret (Err EmptyRemote)
  else
    match validateRemoteNoUserinfo remote with
    | Err e => mret (Err e)
    | Ok _ =>
        if String.eqb (TrimSpace trim_other branch) EmptyString then mret (Err NoBranch)
        else
          must work := some_or NoWorkDir (sys (CMkdirTemp EmptyString "ws-rendezvous-*")) in
          r ← (must _ := for_each (sorted_names repoFiles) (write_file work repoFiles) in
               must gitHome := some_or NoHome (sys (CMkdirTemp EmptyString "ws-rendezvous-home-*")) in
               r ← push work gitHome remote branch creds;
               _ ← sys (CRemoveAll gitHome);
               mret r);
          _ ← sys (CRemoveAll work);
          mret r
    end.

End rendezvous.
End Rendezvous.

Module RendezvousFacts.
Import Outputs Rendezvous.

Definition work_pattern : string := "ws-rendezvous-*".
Definition home_pattern : string := "ws-rendezvous-home-*".

(** The temporary directory [d] was created. *)
Definition made (pat d : string) (t : trace) : Prop := Ev (CMkdirTemp EmptyString pat) (Some d) ∈ t.

(** Every path below [work], when [work] is an absolute clean path. *)
Definition below (work p : string) : Prop :=
  forall es, Forall plain es -> es <> [] -> work = abs_of es ->
  exists name, Workspace.Members.inside name /\ p = abs_of (es ++ clean_elems name).

(** What the code may ask for: the four git commands, which do not depend on the
    credentials, in the work tree and with the home of its own; files below the
    work tree; the credentials file in the home. *)
Definition permitted (remote branch : string) (t : trace) (c : call) : Prop :=
  match c with
  | CCtl (KGit dir home args) =>
      made work_pattern dir t /\ made home_pattern home t /\
      args ∈ commit_steps branch ++ [push_step remote branch None; push_step remote branch (Some (cred_file home))]
  | CWriteFile p _ =>
      (exists work, made work_pattern work t /\ below work p) \/
      (exists home, made home_pattern home t /\ p = cred_file home)
  | CMkdirTemp dir pat => dir = EmptyString /\ (pat = work_pattern \/ pat = home_pattern)
  | CRemoveAll d => made work_pattern d t \/ made home_pattern d t
  | CMkdirAll _ => True
  | _ => False
  end.

(** The directory an event created. *)
Definition created (e : event) : option string := match e with Ev (CMkdirTemp _ _) (Some d) => Some d | _ => None end.

(** Every directory created is removed afterwards, but those in [live]. *)
Definition tidy (live : list string) (t : trace) : Prop :=
  forall pre dir pat d post, t = pre ++ Ev (CMkdirTemp dir pat) (Some d) :: post ->
  d ∈ live \/ exists ok, Ev (CRemoveAll d) ok ∈ post.

Lemma snoc_split {A} (t pre post : list A) e e' :
  t ++ [e] = pre ++ e' :: post -> (post = [] /\ t = pre /\ e = e') \/ exists post', post = post' ++ [e] /\ t = pre ++ e' :: post'.
Proof.
  destruct post as [|x post _] using rev_ind; intros Heq.
  - apply app_inj_tail in Heq as [-> ->]. by left.
  - rewrite app_comm_cons, app_assoc in Heq. apply app_inj_tail in Heq as [-> ->]. right. by exists post.
Qed.

Lemma tidy_other live t c x :
  (forall dir pat, c <> CMkdirTemp dir pat) -> tidy live t -> tidy live (t ++ [Ev c x]).
Proof.
  intros Hc Ht pre dir pat d post Heq. apply snoc_split in Heq as [(_ & _ & Heq)|(post' & -> & ->)].
  - apply (f_equal ev_call) in Heq. by apply Hc in Heq.
  - destruct (Ht _ _ _ _ _ eq_refl) as [H|[b H]]; [by left|right]. exists b. set_solver.
Qed.

Lemma tidy_failed live t dir pat : tidy live t -> tidy live (t ++ [Ev (CMkdirTemp dir pat) None]).
Proof.
  intros Ht pre dir' pat' d post Heq. apply snoc_split in Heq as [(_ & _ & Heq)|(post' & -> & ->)]; [by apply (f_equal created) in Heq|].
  destruct (Ht _ _ _ _ _ eq_refl) as [H|[b H]]; [by left|right]. exists b. set_solver.
Qed.

Lemma tidy_made live t dir pat d : tidy live t -> tidy (d :: live) (t ++ [Ev (CMkdirTemp dir pat) (Some d)]).
Proof.
  intros Ht pre dir' pat' d' post Heq. apply snoc_split in Heq as [(_ & _ & Heq)|(post' & -> & ->)].
  - left. apply (f_equal created) in Heq. injection Heq as ->. set_solver.
  - destruct (Ht _ _ _ _ _ eq_refl) as [H|[b H]]; [left; set_solver|right]. exists b. set_solver.
Qed.

Lemma tidy_removed live t d b : tidy (d :: live) t -> tidy live (t ++ [Ev (CRemoveAll d) b]).
Proof.
  intros Ht pre dir pat d' post Heq. apply snoc_split in Heq as [(_ & _ & Heq)|(post' & -> & ->)]; [by apply (f_equal created) in Heq|].
  destruct (Ht _ _ _ _ _ eq_refl) as [H|[b' H]]; [|right; exists b'; set_solver].
  apply elem_of_cons in H as [->|H]; [|by left]. right. exists b. set_solver.
Qed.

Lemma made_mono pat d t c x : made pat d t -> made pat d (t ++ [Ev c x]).
Proof. unfold made. set_solver. Qed.
Lemma made_here pat d t : made pat d (t ++ [Ev (CMkdirTemp EmptyString pat) (Some d)]).
Proof. unfold made. set_solver. Qed.
#[local] Hint Resolve made_mono made_here tidy_removed tidy_made tidy_failed : rdv.
#[local] Hint Extern 1 (tidy _ (_ ++ [Ev _ _])) => apply tidy_other; [congruence|] : rdv.

Section safe.
Context {G : Type} (trim_other : string -> string)
  (url_parse : string -> option url) (url_text : url -> string -> string -> string)
  (sorted_names : gmap string string -> list string) (replace_all : string -> string -> string -> string).
Context (remote branch : string) (creds : option Credentials).

(** The directories are there and will be removed. *)
Definition at_work (work : string) (home : option string) (t : trace) : Prop :=
  made work_pattern work t /\
  match home with
  | None => tidy [work] t
  | Some h => made home_pattern h t /\ tidy [h; work] t
  end.

Lemma at_work_other work home t c x :
  (forall dir pat, c <> CMkdirTemp dir pat) -> at_work work home t -> at_work work home (t ++ [Ev c x]).
Proof. intros Hc. destruct home; intros [Hm Ht]; repeat split; try apply tidy_other; naive_solver eauto with rdv. Qed.

Lemma write_file_guarded files work name t :
  at_work work None t ->
  guarded (permitted remote branch) (write_file (G := G) work files name) (fun _ => at_work work None) t.
Proof.
  intros Hw. unfold write_file. destruct (safeJoin work (Clean name)) as [dst|e] eqn:Hj; [|by apply guarded_ret].
  apply guarded_try, guarded_check, guarded_sys; [done|]. intros [|]; [|by apply at_work_other].
  apply guarded_check, guarded_sys; [|by intros b; repeat apply at_work_other].
  left. exists work. split; [apply made_mono, Hw|]. intros es Hes Hne ->.
  apply Workspace.Members.safeJoin_only in Hj as [Hin ->]; [|done..]. by exists name.
Qed.

Lemma git_guarded work home args t :
  at_work work (Some home) t ->
  args ∈ commit_steps branch ++ [push_step remote branch None; push_step remote branch (Some (cred_file home))] ->
  guarded (permitted remote branch) (git (G := G) trim_other replace_all work home creds args)
    (fun _ => at_work work (Some home)) t.
Proof.
  intros Hw Ha. apply guarded_bind, guarded_sys; [|by intros x; apply guarded_ret, at_work_other].
  by destruct Hw as (? & ? & _).
Qed.

Lemma credentials_guarded work home t :
  at_work work (Some home) t ->
  guarded (permitted remote branch) (credentials (G := G) trim_other url_parse url_text home remote creds)
    (fun r t => at_work work (Some home) t /\
       match r with Ok (Some f) => f = cred_file home | _ => True end) t.
Proof.
  intros Hw. unfold credentials. destruct creds as [c|]; [|by apply guarded_ret].
  destruct (String.eqb _ _); [by apply guarded_ret|]. apply guarded_try. unfold writeGitCredentials.
  destruct (url_parse remote) as [u|]; [|by apply guarded_ret].
  destruct (String.eqb _ _); [by apply guarded_ret|].
  apply guarded_try, guarded_check, guarded_sys; [right; exists home; by destruct Hw as (_ & ? & _)|].
  intros [|]; [|by split; [apply at_work_other|]]. apply guarded_ret, guarded_ret. by split; [apply at_work_other|].
Qed.

Lemma push_guarded work home t :
  at_work work (Some home) t ->
  guarded (permitted remote branch)
    (push (G := G) trim_other url_parse url_text replace_all work home remote branch creds)
    (fun _ => at_work work (Some home)) t.
Proof.
  intros Hw. apply guarded_try. eapply guarded_mono; [by apply credentials_guarded|].
  intros [f|e] t1 [Hw1 Hf]; [|done].
  apply guarded_for_each with (I := fun _ => at_work work (Some home)); [done| |done].
  intros pre args post t2 Heq Hw2. eapply guarded_mono; [apply git_guarded; [done|]|by intros [[]|e] t3].
  assert (args ∈ commit_steps branch ++ [push_step remote branch f]) as Hin by (rewrite Heq; set_solver).
  apply elem_of_app in Hin as [Hin|Hin%list_elem_of_singleton]; [apply elem_of_app; by left|].
  apply elem_of_app. right. rewrite Hin. destruct f as [f|]; [rewrite Hf|]; set_solver.
Qed.

(** The push reaches git and the file system only as [permitted] says, and
    leaves no directory behind, whether it succeeds or fails. *)
Lemma Rendezvous_guarded files :
  guarded (permitted remote branch)
    (Rendezvous (G := G) trim_other url_parse url_text sorted_names replace_all files remote branch creds)
    (fun _ => tidy []) [].
Proof.
  assert (tidy [] []) as H0 by (by intros [|]).
  unfold Rendezvous. destruct (bool_decide _); [by apply guarded_ret|]. destruct (String.eqb _ _); [by apply guarded_ret|].
  destruct (validateRemoteNoUserinfo _ _ _); [|by apply guarded_ret]. destruct (String.eqb _ _); [by apply guarded_ret|].
  apply guarded_try, guarded_some_or, guarded_sys; [by split; [|left]|]. intros [work|]; [|by apply tidy_failed].
  apply guarded_bind. eapply (guarded_mono _ _ (fun _ => at_work work None)).
  2: { intros r t [Hm Ht]. apply guarded_bind, guarded_sys; [by left|]. intros b. by apply guarded_ret, tidy_removed. }
  assert (at_work work None ([] ++ [Ev (CMkdirTemp EmptyString "ws-rendezvous-*") (Some work)])) as Hw
    by (split; eauto with rdv).
  apply guarded_try. eapply (guarded_mono _ _ (fun _ => at_work work None)).
  { apply guarded_for_each with (I := fun _ => at_work work None); [exact Hw| |done].
    intros pre name post t _ Hw1. eapply guarded_mono; [by apply write_file_guarded|]. by intros [[]|e]. }
  intros [[]|e] t Hw1; [|done]. apply guarded_try, guarded_some_or, guarded_sys; [by split; [|right]|].
  intros [home|]; [|split; [apply made_mono, Hw1|apply tidy_failed, Hw1]].
  apply guarded_bind. eapply guarded_mono; [apply (push_guarded work home)|].
  { destruct Hw1. split; [|split]; eauto with rdv. }
  intros r t1 (Hm & Hh & Ht). apply guarded_bind, guarded_sys; [by right|]. intros b.
  apply guarded_ret. split; eauto with rdv.
Qed.

End safe.

(** A push of one file with a token. *)
Definition ex_files : gmap string string := {["repo/a" := "x"]}.
Definition ex_url (s : string) : option url := if has_prefix "https://" s then Some (mkUrl "https" None "git.example") else None.
Definition ex_text (u : url) (user token : string) : string := u_Scheme u +:+ "://" +:+ user +:+ ":" +:+ token +:+ "@" +:+ u_Host u.
Definition ex_names (m : gmap string string) : list string := (map_to_list m).*1.
Definition ex_push : prog unit (res push_error unit) :=
  Rendezvous id ex_url ex_text ex_names (fun s _ _ => s) ex_files "https://git.example/r" "attempt/a"
    (Some (mkCredentials "u" "tok")).


(** The branch check is no ref-name check: git refuses these. *)
Lemma RenderBranch_lax :
  RenderBranch id (fun s _ => Some s) "a..b" "n" = Ok "a..b" /\
  RenderBranch id (fun s _ => Some s) "x.lock" "n" = Ok "x.lock" /\
  RenderBranch id (fun s _ => Some s) "a//b" "n" = Ok "a//b".
Proof. vm_compute. auto. Qed.

End RendezvousFacts.
