(* ===== verification/Metering.v ===== *)
(** Copy-on-write aware metering: internal/metering/report.go and the parsing and
    estimation parts of internal/fork/capacity.go.

    - [Report]: Aggregate, which counts a template's shared pages once.
    - [Estimate]: the host memory total, a process's memory statistics and the
      per-template estimates a node reports to the scheduler.
    - [ReportFacts]: the totals and rows are exact and do not depend on the order
      of the samples, at int64 width. *)
From S2P Require Import Prelude GoLib GoFs.

Module Report.

Record Sample := mkSample {
  s_ID : string; s_Template : string; s_MemoryUnique : Z; s_MemoryShared : Z;
  s_DiskUnique : Z; s_DiskShared : Z }.
(** The row type has the layout of the sample it is converted from. *)
Abbreviation SandboxMetering := Sample.

Record TemplateMetering := mkTemplateMetering {
  tm_Template : string; ForkCount : Z; SharedOnce : Z; DiskSharedOnce : Z }.

Record Report := mkReport {
  Sandboxes : list SandboxMetering; Templates : list TemplateMetering;
  UsedCoWAware : Z; UsedNaive : Z; CoWSavings : Z; TotalUnique : Z;
  DiskUsedCoWAware : Z; DiskUsedNaive : Z; DiskCoWSavings : Z; DiskTotalUnique : Z }.

Definition zero_report : Report := mkReport [] [] 0 0 0 0 0 0 0 0.

Record group := mkGroup { g_template : string; forkCount : Z; sharedMax : Z; diskMax : Z }.

(** An empty template makes the sandbox its own group. *)
Definition zero_byte : string := String (ascii_of_nat 0) EmptyString.
Definition key_of (s : Sample) : string :=
  if String.eqb (s_Template s) EmptyString
  then zero_byte +:+ "sandbox" +:+ zero_byte +:+ s_ID s else s_Template s.

(** The state of the sample loop. *)
Record accum := mkAccum {
  a_unique : Z; a_naive : Z; a_diskUnique : Z; a_diskNaive : Z;
  groups : gmap string group; order : list string; rows : list SandboxMetering }.

Definition add_sample (a : accum) (s : Sample) : accum :=
  let key := key_of s in
  let '(g, order1) := match groups a !! key with
                      | Some g => (g, order a)
                      | None => (mkGroup (s_Template s) 0 0 0, order a ++ [key])
                      end in
  let g1 := mkGroup (g_template g) (i64 (forkCount g + 1))
              (if sharedMax g <? s_MemoryShared s then s_MemoryShared s else sharedMax g)
              (if diskMax g <? s_DiskShared s then s_DiskShared s else diskMax g) in
  mkAccum (i64 (a_unique a + s_MemoryUnique s)) (i64 (a_naive a + s_MemoryShared s))
    (i64 (a_diskUnique a + s_DiskUnique s)) (i64 (a_diskNaive a + s_DiskShared s))
    (<[key := g1]> (groups a)) order1 (rows a ++ [s]).

Definition template_row (groups : gmap string group) (key : string) : TemplateMetering :=
  let g := default (mkGroup EmptyString 0 0 0) (groups !! key) in
  mkTemplateMetering (g_template g) (forkCount g) (sharedMax g) (diskMax g).

Definition template_less (a b : TemplateMetering) : bool := String.ltb (tm_Template a) (tm_Template b).
Definition id_less (a b : SandboxMetering) : bool := String.ltb (s_ID a) (s_ID b).

Definition Aggregate (samples : list Sample) : Report :=
  if Nat.eqb (length samples) 0 then zero_report
  else
    let a := fold_left add_sample samples (mkAccum 0 0 0 0 ∅ [] []) in
    let templates := map (template_row (groups a)) (order a) in
    let sharedOnceTotal := fold_left (fun t r => i64 (t + SharedOnce r)) templates 0 in
    let diskSharedOnceTotal := fold_left (fun t r => i64 (t + DiskSharedOnce r)) templates 0 in
    let naive := i64 (a_naive a + a_unique a) in
    let diskNaive := i64 (a_diskNaive a + a_diskUnique a) in
    let aware := i64 (a_unique a + sharedOnceTotal) in
    let diskAware := i64 (a_diskUnique a + diskSharedOnceTotal) in
    mkReport (sort_by id_less (rows a)) (sort_by template_less templates)
      aware naive (i64 (naive - aware)) (a_unique a)
      diskAware diskNaive (i64 (diskNaive - diskAware)) (a_diskUnique a).

Definition SharedOnceTotal (r : Report) : Z := i64 (UsedCoWAware r - TotalUnique r).

End Report.

Module Estimate.
Import Report.

Definition defaultMemoryReserveBytes : Z := 2 * 1024 * 1024 * 1024.
Definition defaultForkUniqueFloorBytes : Z := 8 * 1024 * 1024.

Record TemplateEstimate := mkTemplateEstimate {
  te_TemplateID : string; te_SnapshotDigest : string; te_SharedOnceBytes : Z;
  te_AvgForkUniqueBytes : Z; te_ForkCount : Z }.

Inductive meminfo_error := Unreadable | MalformedTotal | BadTotal | NoTotal.

Section parse.
(** [strings.Fields] on text that is not ASCII. *)
Variable fields_other : string -> list string.

Fixpoint mem_total (lines : list string) : res meminfo_error Z :=
  match lines with
  | [] => Err NoTotal
  | line :: lines =>
      if negb (has_prefix "MemTotal:" line) then mem_total lines
      else match Fields fields_other (trim_prefix "MemTotal:" line) with
           | [] => Err MalformedTotal
           | f :: _ =>
               match ParseInt f with
               | (kb, None) => Ok (i64 (kb * 1024))
               | (_, Some _) => Err BadTotal
               end
           end
  end.

(** [content] is what the meminfo reader returned. *)
Definition hostMemTotalBytes (content : option string) : res meminfo_error Z :=
  match content with
  | None => Err Unreadable
  | Some text => mem_total (split_byte newline text)
  end.

(** The loop of readMemoryStats over the text of /proc/<pid>/smaps_rollup. *)
Definition memory_line (acc : Z * Z) (line : string) : Z * Z :=
  let '(unique, shared) := acc in
  match Fields fields_other line with
  | f0 :: f1 :: _ :: _ =>
      let bytes := i64 ((ParseInt f1).1 * 1024) in
      if String.eqb f0 "Private_Clean:" || String.eqb f0 "Private_Dirty:" then (i64 (unique + bytes), shared)
      else if String.eqb f0 "Shared_Clean:" || String.eqb f0 "Shared_Dirty:" then (unique, i64 (shared + bytes))
      else acc
  | _ => acc
  end.
Definition memory_stats (text : string) : Z * Z := fold_left memory_line (split_byte newline text) (0, 0).

End parse.

Definition unique_by_template (report : Report) : gmap string Z :=
  fold_left (fun (m : gmap string Z) s =>
    if String.eqb (s_Template s) EmptyString then m
    else <[s_Template s := i64 (default 0 (m !! s_Template s) + s_MemoryUnique s)]> m) (Sandboxes report) ∅.

Definition templateEstimatesFromReport (report : Report) (digests : gmap string string)
    : list TemplateEstimate :=
  let uniqueByTemplate := unique_by_template report in
  omap (fun t =>
    if String.eqb (tm_Template t) EmptyString then None
    else
      let avgUnique := if 0 <? ForkCount t
                       then i64 (Z.quot (default 0 (uniqueByTemplate !! tm_Template t)) (ForkCount t))
                       else defaultForkUniqueFloorBytes in
      Some (mkTemplateEstimate (tm_Template t) (default EmptyString (digests !! tm_Template t))
              (SharedOnce t) avgUnique (i32 (ForkCount t))))
    (Templates report).

End Estimate.

(** ** The report is exact *)

Module ReportFacts.
Import Report.

Definition sum {A} (f : A -> Z) (l : list A) : Z := foldr (fun x t => f x + t) 0 l.
Definition max_of {A} (f : A -> Z) (l : list A) : Z := foldr (fun x m => Z.max (f x) m) 0 l.
Definition grp (samples : list Sample) (k : string) : list Sample :=
  filter (fun s => key_of s = k) samples.

Lemma sum_cons {A} (f : A -> Z) x l : sum f (x :: l) = f x + sum f l.
Proof. done. Qed.
Lemma max_cons {A} (f : A -> Z) x l : max_of f (x :: l) = Z.max (f x) (max_of f l).
Proof. done. Qed.

Lemma sum_app {A} (f : A -> Z) l k : sum f (l ++ k) = sum f l + sum f k.
Proof. induction l as [|x l IH]; [done|]. rewrite <- app_comm_cons, !sum_cons. lia. Qed.

Lemma max_nonneg {A} (f : A -> Z) l : 0 <= max_of f l.
Proof. induction l as [|x l IH]; [done|]. rewrite max_cons. lia. Qed.

Lemma max_app {A} (f : A -> Z) l k : max_of f (l ++ k) = Z.max (max_of f l) (max_of f k).
Proof.
  pose proof (max_nonneg f k). induction l as [|x l IH]; [change (max_of f k = Z.max 0 (max_of f k)); lia|]. rewrite <- app_comm_cons, !max_cons. lia.
Qed.

Lemma max_snoc {A} (f : A -> Z) l x :
  max_of f (l ++ [x]) = if max_of f l <? f x then f x else max_of f l.
Proof.
  rewrite max_app, max_cons. change (max_of f []) with 0. pose proof (max_nonneg f l).
  destruct (Z.ltb_spec (max_of f l) (f x)); lia.
Qed.

#[global] Instance sum_perm {A} (f : A -> Z) : Proper ((≡ₚ) ==> eq) (sum f).
Proof. intros l k H. induction H; repeat rewrite sum_cons; lia. Qed.

#[global] Instance max_perm {A} (f : A -> Z) : Proper ((≡ₚ) ==> eq) (max_of f).
Proof. intros l k H. induction H; repeat rewrite max_cons; lia. Qed.

(** int64 arithmetic is arithmetic modulo 2^64. *)
Lemma i64_spec x : exists k, i64 x = x + k * 2 ^ 64.
Proof.
  exists (- ((x + 2 ^ 63) / 2 ^ 64)). unfold i64, wraps. change (2 ^ (64 - 1)) with (2 ^ 63).
  rewrite Z.mod_eq by done. lia.
Qed.

Lemma i64_cong x y k : x = y + k * 2 ^ 64 -> i64 x = i64 y.
Proof.
  intros ->. unfold i64, wraps. f_equal.
  replace (y + k * 2 ^ 64 + 2 ^ (64 - 1)) with (y + 2 ^ (64 - 1) + k * 2 ^ 64) by lia.
  by rewrite Z_mod_plus_full.
Qed.

Lemma i64_add_l x y : i64 (i64 x + y) = i64 (x + y).
Proof. destruct (i64_spec x) as [k ->]. apply (i64_cong _ _ k). lia. Qed.

Lemma i64_add_r x y : i64 (x + i64 y) = i64 (x + y).
Proof. destruct (i64_spec y) as [k ->]. apply (i64_cong _ _ k). lia. Qed.

Lemma i64_sub x y : i64 (i64 x - i64 y) = i64 (x - y).
Proof.
  destruct (i64_spec x) as [k ->], (i64_spec y) as [k' ->]. apply (i64_cong _ _ (k - k')). lia.
Qed.

Lemma i64_idem x : i64 (i64 x) = i64 x.
Proof. destruct (i64_spec x) as [k E]. rewrite E at 1. by apply (i64_cong _ _ k). Qed.

(** *** The sample loop *)

Definition group_row (ss : list Sample) (k : string) : option group :=
  match grp ss k with
  | [] => None
  | s :: l => Some (mkGroup (s_Template s) (i64 (Z.of_nat (length (s :: l))))
                      (max_of s_MemoryShared (s :: l)) (max_of s_DiskShared (s :: l)))
  end.

Record loop_inv (ss : list Sample) (a : accum) : Prop := {
  li_unique : a_unique a = i64 (sum s_MemoryUnique ss);
  li_naive : a_naive a = i64 (sum s_MemoryShared ss);
  li_diskUnique : a_diskUnique a = i64 (sum s_DiskUnique ss);
  li_diskNaive : a_diskNaive a = i64 (sum s_DiskShared ss);
  li_groups : forall k, groups a !! k = group_row ss k;
  li_nodup : NoDup (order a);
  li_order : forall k, k ∈ order a <-> is_Some (groups a !! k);
  li_rows : rows a = ss }.

Lemma grp_snoc ss s k : grp (ss ++ [s]) k = grp ss k ++ (if decide (key_of s = k) then [s] else []).
Proof. unfold grp. rewrite list.filter_app, filter_cons, filter_nil. done. Qed.

Lemma add_sample_inv ss a s : loop_inv ss a -> loop_inv (ss ++ [s]) (add_sample a s).
Proof.
  intros [H1 H2 H3 H4 Hg Hn Ho Hr]. unfold add_sample.
  destruct (groups a !! key_of s) as [g|] eqn:Eg.
  all: split; cbn [a_unique a_naive a_diskUnique a_diskNaive groups order rows];
    rewrite ?H1, ?H2, ?H3, ?H4, ?Hr, ?i64_add_l, ?sum_app; cbn [sum foldr]; rewrite ?Z.add_0_r; try done.
  - intros k. destruct (decide (key_of s = k)) as [<-|Hne].
    + rewrite lookup_insert_eq. rewrite Hg in Eg. unfold group_row in *. rewrite grp_snoc, decide_True by done.
      destruct (grp ss (key_of s)) as [|s0 l]; [done|]. injection Eg as <-. cbn [app g_template forkCount sharedMax diskMax].
      rewrite i64_add_l, !app_comm_cons, !max_snoc. do 3 f_equal. rewrite length_app. cbn [length]. lia.
    + rewrite lookup_insert_ne by done. rewrite Hg. unfold group_row. rewrite grp_snoc, decide_False, app_nil_r by done. done.
  - intros k. rewrite Ho. destruct (decide (key_of s = k)) as [<-|Hne].
    + rewrite lookup_insert_eq, Eg. split; eauto.
    + by rewrite lookup_insert_ne.
  - intros k. destruct (decide (key_of s = k)) as [<-|Hne].
    + rewrite lookup_insert_eq. rewrite Hg in Eg. unfold group_row in *. rewrite grp_snoc, decide_True by done.
      destruct (grp ss (key_of s)) as [|s0 l]; [|done]. cbn [app g_template forkCount sharedMax diskMax length].
      rewrite <- (app_nil_l [s]), !max_snoc. done.
    + rewrite lookup_insert_ne by done. rewrite Hg. unfold group_row. rewrite grp_snoc, decide_False, app_nil_r by done. done.
  - apply list.NoDup_app. split_and!; [done| |apply NoDup_singleton].
    intros k Hk ->%list_elem_of_singleton. apply Ho in Hk. rewrite Eg in Hk. by destruct Hk.
  - intros k. rewrite elem_of_app, list_elem_of_singleton, Ho. destruct (decide (key_of s = k)) as [<-|Hne].
    + rewrite lookup_insert_eq, Eg. split; eauto.
    + rewrite lookup_insert_ne by done. split; [intros [|]; congruence|]. by left.
Qed.

Lemma loop_ok ss : loop_inv ss (fold_left add_sample ss (mkAccum 0 0 0 0 ∅ [] [])).
Proof.
  induction ss as [|s ss IH] using rev_ind; [|by rewrite fold_left_app; apply add_sample_inv].
  split; cbn; try done; [constructor|]. intros k. rewrite lookup_empty. split; [by intros ?%elem_of_nil|by intros []].
Qed.

(** *** Totals and rows *)

(** No template name starts with the byte that marks a sandbox's own group. *)
Definition named (ss : list Sample) : Prop := Forall (fun s => has_prefix zero_byte (s_Template s) = false) ss.

Definition keys (ss : list Sample) : list string := remove_dups (map key_of ss).
Definition once (f : Sample -> Z) (ss : list Sample) : Z := sum (fun k => max_of f (grp ss k)) (keys ss).
Definition row_of (ss : list Sample) (k : string) : TemplateMetering :=
  mkTemplateMetering (if has_prefix zero_byte k then EmptyString else k) (i64 (Z.of_nat (length (grp ss k))))
    (max_of s_MemoryShared (grp ss k)) (max_of s_DiskShared (grp ss k)).

Lemma key_template s :
  has_prefix zero_byte (s_Template s) = false ->
  s_Template s = if has_prefix zero_byte (key_of s) then EmptyString else key_of s.
Proof.
  unfold key_of. destruct (String.eqb_spec (s_Template s) EmptyString) as [E|_]; [by rewrite E|]. by intros ->.
Qed.

Lemma elem_grp ss k s : s ∈ grp ss k <-> key_of s = k /\ s ∈ ss.
Proof. unfold grp. by rewrite list_elem_of_filter. Qed.

Lemma grp_nonempty ss k : is_Some (group_row ss k) <-> k ∈ map key_of ss.
Proof.
  unfold group_row. rewrite list_elem_of_fmap. split.
  - intros [g Hg]. destruct (grp ss k) as [|s l] eqn:E; [done|].
    assert (s ∈ grp ss k) as [<- Hs]%elem_grp by (rewrite E; constructor). eauto.
  - intros (s & -> & Hs). assert (s ∈ grp ss (key_of s)) as H by by apply elem_grp.
    destruct (grp ss (key_of s)); [by apply elem_of_nil in H|eauto].
Qed.

Lemma loop_keys ss a : loop_inv ss a -> order a ≡ₚ keys ss.
Proof.
  intros H. apply NoDup_Permutation; [apply H|apply NoDup_remove_dups|]. intros k.
  rewrite (li_order _ _ H), (li_groups _ _ H), grp_nonempty. unfold keys. by rewrite elem_of_remove_dups.
Qed.

Lemma loop_row ss a k : named ss -> loop_inv ss a -> k ∈ keys ss -> template_row (groups a) k = row_of ss k.
Proof.
  intros Hn H Hk. unfold keys in Hk. rewrite elem_of_remove_dups in Hk. apply grp_nonempty in Hk as [g Hg].
  unfold template_row. rewrite (li_groups _ _ H), Hg. change (default _ (Some g)) with g.
  unfold group_row in Hg. unfold row_of. destruct (grp ss k) as [|s l] eqn:E; [done|]. injection Hg as <-.
  cbn [g_template forkCount sharedMax diskMax]. f_equal.
  assert (s ∈ grp ss k) as [<- Hs]%elem_grp by (rewrite E; constructor).
  apply key_template. unfold named in Hn. rewrite list.Forall_forall in Hn. by apply Hn.
Qed.

Lemma fold_i64 {A} (f : A -> Z) l t : fold_left (fun t r => i64 (t + f r)) l t = match l with [] => t | _ => i64 (t + sum f l) end.
Proof.
  revert t. induction l as [|x l IH]; intros t; [done|]. cbn [fold_left]. rewrite IH. destruct l as [|y l].
  - cbn. by rewrite Z.add_0_r.
  - rewrite i64_add_l, (sum_cons f x). f_equal. lia.
Qed.

Lemma sum_map {A B} (f : B -> Z) (g : A -> B) l : sum f (map g l) = sum (fun x => f (g x)) l.
Proof. induction l as [|x l IH]; [done|]. cbn [map]. rewrite !sum_cons. lia. Qed.

Lemma sum_ext {A} (f g : A -> Z) l : (forall x, x ∈ l -> f x = g x) -> sum f l = sum g l.
Proof.
  induction l as [|x l IH]; intros H; [done|]. rewrite !sum_cons, H, IH by (intros; try apply H; by constructor). done.
Qed.

Lemma sum_le {A} (f g : A -> Z) l : (forall x, x ∈ l -> f x <= g x) -> sum f l <= sum g l.
Proof.
  induction l as [|x l IH]; intros H; [done|]. rewrite !sum_cons.
  pose proof (H x ltac:(constructor)). pose proof (IH ltac:(intros; apply H; by constructor)). lia.
Qed.

(** Counting a group's largest member instead of all members saves memory. *)
Lemma sum_zero {A} (f : A -> Z) l : (forall x, x ∈ l -> f x = 0) -> sum f l = 0.
Proof.
  intros H. rewrite (sum_ext f (fun _ => 0)) by done. clear H. induction l; [done|]. by rewrite sum_cons, IHl.
Qed.

Lemma sum_groups (f : Sample -> Z) ss K :
  NoDup K -> (forall s, s ∈ ss -> key_of s ∈ K) -> sum (fun k => sum f (grp ss k)) K = sum f ss.
Proof.
  intros HK. induction ss as [|s ss IH]; intros Hin; [by apply sum_zero|].
  rewrite sum_cons, <- IH by (intros; apply Hin; by constructor).
  assert (forall k, sum f (grp (s :: ss) k) = (if decide (key_of s = k) then f s else 0) + sum f (grp ss k)) as Hk.
  { intros k. unfold grp. rewrite filter_cons. by case_decide. }
  rewrite (sum_ext _ _ K (fun k _ => Hk k)). clear IH Hk.
  assert (key_of s ∈ K) as Hs by (apply Hin; constructor). clear Hin.
  induction HK as [|k K Hk HK IHK]; [by apply elem_of_nil in Hs|]. rewrite !sum_cons.
  apply elem_of_cons in Hs as [<-|Hs].
  - rewrite decide_True by done. rewrite (sum_ext (fun k => _ + _) (fun k => sum f (grp ss k)) K); [lia|].
    intros k' Hin. rewrite decide_False by (intros E; apply Hk; by rewrite E). lia.
  - rewrite decide_False by (intros E; apply Hk; by rewrite <- E). rewrite IHK by done. lia.
Qed.

Lemma once_le (f : Sample -> Z) ss : Forall (fun s => 0 <= f s) ss -> once f ss <= sum f ss.
Proof.
  intros Hf. unfold once, keys. rewrite <- (sum_groups f ss (remove_dups (map key_of ss))).
  - apply sum_le. intros k _. assert (Forall (fun s => 0 <= f s) (grp ss k)) as Hg.
    { rewrite list.Forall_forall in *. intros s [_ Hs]%elem_grp. by apply Hf. }
    induction Hg as [|s l Hs Hl IH]; [done|]. rewrite max_cons, sum_cons.
    assert (0 <= sum f l); [|lia]. clear IH. induction Hl; [done|]. rewrite sum_cons. lia.
  - apply NoDup_remove_dups.
  - intros s Hs. rewrite elem_of_remove_dups. by apply list_elem_of_fmap_2.
Qed.

#[global] Instance keys_perm : Proper ((≡ₚ) ==> (≡ₚ)) keys.
Proof.
  intros l k H. apply NoDup_Permutation; [apply NoDup_remove_dups..|]. intros x. unfold keys.
  rewrite !elem_of_remove_dups. by rewrite H.
Qed.

Lemma grp_perm l k x : l ≡ₚ k -> grp l x ≡ₚ grp k x.
Proof. unfold grp. by intros ->. Qed.

#[global] Instance once_perm f : Proper ((≡ₚ) ==> eq) (once f).
Proof.
  intros l k H. unfold once. rewrite <- H. apply sum_ext. intros x _. by rewrite (grp_perm l k x H).
Qed.

Lemma row_perm l k x : l ≡ₚ k -> row_of l x = row_of k x.
Proof. intros H. unfold row_of. by rewrite (grp_perm l k x H). Qed.

(** What Aggregate returns, as functions of the samples. *)
Record exact (ss : list Sample) (r : Report) : Prop := {
  ex_unique : TotalUnique r = i64 (sum s_MemoryUnique ss);
  ex_naive : UsedNaive r = i64 (sum s_MemoryUnique ss + sum s_MemoryShared ss);
  ex_aware : UsedCoWAware r = i64 (sum s_MemoryUnique ss + once s_MemoryShared ss);
  ex_savings : CoWSavings r = i64 (sum s_MemoryShared ss - once s_MemoryShared ss);
  ex_shared : SharedOnceTotal r = i64 (once s_MemoryShared ss);
  ex_diskUnique : DiskTotalUnique r = i64 (sum s_DiskUnique ss);
  ex_diskNaive : DiskUsedNaive r = i64 (sum s_DiskUnique ss + sum s_DiskShared ss);
  ex_diskAware : DiskUsedCoWAware r = i64 (sum s_DiskUnique ss + once s_DiskShared ss);
  ex_diskSavings : DiskCoWSavings r = i64 (sum s_DiskShared ss - once s_DiskShared ss);
  ex_templates : Templates r ≡ₚ map (row_of ss) (keys ss);
  ex_rows : Sandboxes r = sort_by id_less ss }.

Lemma Aggregate_exact ss : named ss -> exact ss (Aggregate ss).
Proof.
  intros Hn. unfold Aggregate. destruct ss as [|s0 ss0]; [by split|]. cbn [length Nat.eqb].
  set (ss := s0 :: ss0) in *. pose proof (loop_ok ss) as H. set (a := fold_left _ _ _) in *. clearbody a.
  pose proof (loop_keys _ _ H) as Hk.
  assert (forall f, sum (fun k => f (template_row (groups a) k)) (order a) = sum (fun k => f (row_of ss k)) (keys ss)) as Hrow.
  { intros f. rewrite Hk. apply sum_ext. intros k Hin. by rewrite (loop_row ss). }
  assert (order a <> []) as Hne.
  { intros E. rewrite E in Hk. assert (key_of s0 ∈ keys ss) as Hin; [|rewrite <- Hk in Hin; by apply elem_of_nil in Hin].
    unfold keys. rewrite elem_of_remove_dups. apply list_elem_of_fmap_2. constructor. }
  rewrite !fold_i64. destruct (map (template_row (groups a)) (order a)) as [|t ts] eqn:Et; [by destruct (order a)|].
  rewrite <- Et, !sum_map, !Hrow. clear Et t ts.
  rewrite (li_unique _ _ H), (li_naive _ _ H), (li_diskUnique _ _ H), (li_diskNaive _ _ H), (li_rows _ _ H).
  unfold SharedOnceTotal. cbn [row_of SharedOnce DiskSharedOnce]. fold (once s_MemoryShared ss) (once s_DiskShared ss).
  split; unfold SharedOnceTotal;
    cbn [TotalUnique UsedNaive UsedCoWAware CoWSavings DiskTotalUnique DiskUsedNaive DiskUsedCoWAware DiskCoWSavings Templates Sandboxes];
    repeat first [rewrite i64_add_l | rewrite i64_add_r]; rewrite ?i64_sub; try done; try (f_equal; lia).
  rewrite sort_by_perm, Hk. apply reflexive_eq, list_fmap_ext. intros i k Hi.
  apply (loop_row ss); [done..|by eapply list_elem_of_lookup_2].
Qed.

(** A node's metering report is exact at int64 width: memory and disk are the
    unique bytes of every sandbox plus, for each template, the largest shared set
    among its forks once; a template's row counts its forks. The report does not
    depend on the order in which the sandboxes are enumerated, which in the
    engine is the iteration order of a Go map. And counting shared pages once
    never reports more than counting them per fork, as long as nothing
    overflows. *)
Theorem metering_exact ss ss' :
  named ss -> NoDup (map s_ID ss) -> ss ≡ₚ ss' ->
  exact ss (Aggregate ss) /\
  Sandboxes (Aggregate ss') = Sandboxes (Aggregate ss) /\
  Templates (Aggregate ss') ≡ₚ Templates (Aggregate ss) /\
  UsedCoWAware (Aggregate ss') = UsedCoWAware (Aggregate ss) /\
  CoWSavings (Aggregate ss') = CoWSavings (Aggregate ss) /\
  DiskUsedCoWAware (Aggregate ss') = DiskUsedCoWAware (Aggregate ss) /\
  (Forall (fun s => 0 <= s_MemoryShared s) ss -> sum s_MemoryShared ss < 2 ^ 63 -> 0 <= CoWSavings (Aggregate ss)).
Proof.
  intros Hn Hid Hp. pose proof (Aggregate_exact ss Hn) as He.
  assert (named ss') as Hn' by (unfold named in *; by rewrite <- Hp).
  pose proof (Aggregate_exact ss' Hn') as He'.
  split; [exact He|]. split_and!.
  - rewrite (ex_rows _ _ He), (ex_rows _ _ He'). symmetry. apply (in_order_unique id_less).
    + intros x y Hx Hy H1 H2. rewrite sort_by_perm in Hx, Hy. unfold id_less in *.
      assert (s_ID x = s_ID y) as E.
      { destruct (decide (s_ID x = s_ID y)) as [|Hne]; [done|]. destruct (ltb_total _ _ Hne); congruence. }
      apply list_elem_of_lookup in Hx as [i Hi], Hy as [j Hj].
      assert (i = j) as ->; [|congruence]. eapply (NoDup_lookup (map s_ID ss)); [exact Hid|..];
        rewrite list_lookup_fmap; [by rewrite Hi|by rewrite Hj, E].
    + apply sort_by_in_order; intros; [by apply ltb_asym|by eapply ltb_negtrans].
    + apply sort_by_in_order; intros; [by apply ltb_asym|by eapply ltb_negtrans].
    + by rewrite !sort_by_perm.
  - rewrite (ex_templates _ _ He), (ex_templates _ _ He'), (keys_perm _ _ Hp). apply reflexive_eq, list_fmap_ext.
    intros i k _. symmetry. by apply row_perm.
  - by rewrite (ex_aware _ _ He), (ex_aware _ _ He'), Hp.
  - by rewrite (ex_savings _ _ He), (ex_savings _ _ He'), Hp.
  - by rewrite (ex_diskAware _ _ He), (ex_diskAware _ _ He'), Hp.
  - intros Hs Hlt. rewrite (ex_savings _ _ He). pose proof (once_le _ _ Hs).
    assert (0 <= once s_MemoryShared ss).
    { unfold once. induction (keys ss) as [|k K IH]; [done|]. rewrite sum_cons.
      pose proof (max_nonneg s_MemoryShared (grp ss k)). lia. }
    rewrite i64_small; [lia|unfold is_i64; lia].
Qed.

End ReportFacts.

Module MeteringExamples.
Import Report ReportFacts.

Definition m_a : Sample := mkSample "a" "py" 10 100 1 5.
Definition m_b : Sample := mkSample "b" "py" 20 90 0 5.
Definition m_c : Sample := mkSample "c" EmptyString 5 7 0 0.

Lemma metering_exact_witness :
  UsedCoWAware (Aggregate [m_c; m_a; m_b]) = 142 /\ UsedNaive (Aggregate [m_a; m_b; m_c]) = 232 /\
  UsedCoWAware (Aggregate [m_c; m_a; m_b]) = UsedCoWAware (Aggregate [m_a; m_b; m_c]) /\
  0 <= CoWSavings (Aggregate [m_a; m_b; m_c]).
Proof.
  destruct (metering_exact [m_a; m_b; m_c] [m_c; m_a; m_b]) as (_ & _ & _ & H1 & _ & _ & H2).
  - repeat constructor.
  - apply (bool_decide_unpack _). vm_compute. exact I.
  - symmetry. apply (Permutation_cons_append [m_a; m_b] m_c).
  - split; [vm_compute; reflexivity|]. split; [vm_compute; reflexivity|]. split; [exact H1|].
    apply H2; [repeat constructor; vm_compute; discriminate|vm_compute; reflexivity].
Defined.

End MeteringExamples.
