(* ===== verification/Journal.v ===== *)
(** The crash-recovery journal of the fork engine: internal/fork/journal.go.

    - [Journal]: the record of one live sandbox, its JSON form, and the programs
      that write, remove and load records.
    - [JournalFacts]: a record read back is the record written, network identity
      included; writing is atomic; loading skips what it cannot read. *)
From S2P Require Import Prelude GoLib GoFs GoJson Netconf Cas Host.
Import Manifest.
#[local] Open Scope go_scope.

Module Journal.
Import Alloc.

Definition journalDirName : string := "sandboxes".

Record networkIdentity := mkNetworkIdentity {
  n_TapName : string; n_GuestMAC : string; n_HostIP : string; n_GuestIP : string }.

(** CreatedAt is held as its RFC 3339 text, the form the journal stores. *)
Record sandboxRecord := mkRecord {
  r_ID : string; r_TemplateID : string; r_SnapshotID : string; r_Endpoint : string; r_Pid : Z;
  r_CreatedAt : string; r_VsockPath : string; r_RootfsPath : string; r_ChrootDir : string;
  r_JailerVMDir : string; r_JailedUID : Z; r_Network : networkIdentity; r_HasVolumes : bool;
  r_FirecrackerBin : string }.

Section identity.
(** [net.IP.String] and [net.ParseIP] outside IPv4. *)
Variable other_string : IP -> string.
Variable parse_v6 : string -> option IP.

Definition networkIdentityFrom (id : Identity) : networkIdentity :=
  mkNetworkIdentity (TapName id) (GuestMAC id)
    (if bool_decide (HostIP id = []) then EmptyString else ip_string other_string (HostIP id))
    (if bool_decide (GuestIP id = []) then EmptyString else ip_string other_string (GuestIP id)).

Definition toIdentity (n : networkIdentity) : Identity :=
  MkIdentity (n_TapName n) (n_GuestMAC n)
    (if String.eqb (n_HostIP n) EmptyString then [] else to4 (default [] (parse_ip parse_v6 (n_HostIP n))))
    (if String.eqb (n_GuestIP n) EmptyString then [] else to4 (default [] (parse_ip parse_v6 (n_GuestIP n)))).

End identity.

(** ** json.Marshal of a record *)

Definition json_bool (b : bool) : string := if b then "true" else "false".

Definition marshal_network (n : networkIdentity) : string :=
  "{" +:+ (json_key "tapName" +:+ (json_string (n_TapName n) +:+ ("," +:+
  (json_key "guestMAC" +:+ (json_string (n_GuestMAC n) +:+ ("," +:+
  (json_key "hostIP" +:+ (json_string (n_HostIP n) +:+ ("," +:+
  (json_key "guestIP" +:+ (json_string (n_GuestIP n) +:+ "}"))))))))))).

Definition marshal_record (r : sandboxRecord) : string :=
  "{" +:+ (json_key "id" +:+ (json_string (r_ID r) +:+ ("," +:+
  (json_key "templateID" +:+ (json_string (r_TemplateID r) +:+ ("," +:+
  (json_key "snapshotID" +:+ (json_string (r_SnapshotID r) +:+ ("," +:+
  (json_key "endpoint" +:+ (json_string (r_Endpoint r) +:+ ("," +:+
  (json_key "pid" +:+ (json_int (r_Pid r) +:+ ("," +:+
  (json_key "createdAt" +:+ (json_string (r_CreatedAt r) +:+ ("," +:+
  (json_key "vsockPath" +:+ (json_string (r_VsockPath r) +:+ ("," +:+
  (json_key "rootfsPath" +:+ (json_string (r_RootfsPath r) +:+ ("," +:+
  (json_key "chrootDir" +:+ (json_string (r_ChrootDir r) +:+ ("," +:+
  (json_key "jailerVMDir" +:+ (json_string (r_JailerVMDir r) +:+ ("," +:+
  (json_key "jailedUID" +:+ (json_int (r_JailedUID r) +:+ ("," +:+
  (json_key "network" +:+ (marshal_network (r_Network r) +:+ ("," +:+
  (json_key "hasVolumes" +:+ (json_bool (r_HasVolumes r) +:+ ("," +:+
  (json_key "firecrackerBin" +:+ (json_string (r_FirecrackerBin r) +:+ "}"))))))))))))))))))))))))))))))))))))))))).

(** ** json.Unmarshal *)

Definition read_bool (s : string) : option (bool * string) :=
  match cut_prefix "true" s with
  | Some r => Some (true, r)
  | None => r ← cut_prefix "false" s; Some (false, r)
  end.

Definition read_network (s : string) : option (networkIdentity * string) :=
  s ← cut_prefix "{" s; s ← cut_prefix (json_key "tapName") s; '(tap, s) ← read_string s;
  s ← cut_prefix "," s; s ← cut_prefix (json_key "guestMAC") s; '(mac, s) ← read_string s;
  s ← cut_prefix "," s; s ← cut_prefix (json_key "hostIP") s; '(hip, s) ← read_string s;
  s ← cut_prefix "," s; s ← cut_prefix (json_key "guestIP") s; '(gip, s) ← read_string s;
  s ← cut_prefix "}" s; Some (mkNetworkIdentity tap mac hip gip, s).

Section unmarshal.
(** Which texts [time.Time.UnmarshalJSON] accepts. *)
Variable valid_time : string -> bool.

(** The layout [marshal_record] writes. *)
Definition read_record (s : string) : option sandboxRecord :=
  s ← cut_prefix "{" s; s ← cut_prefix (json_key "id") s; '(id, s) ← read_string s;
  s ← cut_prefix "," s; s ← cut_prefix (json_key "templateID") s; '(tid, s) ← read_string s;
  s ← cut_prefix "," s; s ← cut_prefix (json_key "snapshotID") s; '(sid, s) ← read_string s;
  s ← cut_prefix "," s; s ← cut_prefix (json_key "endpoint") s; '(ep, s) ← read_string s;
  s ← cut_prefix "," s; s ← cut_prefix (json_key "pid") s; '(pid, s) ← read_int s;
  s ← cut_prefix "," s; s ← cut_prefix (json_key "createdAt") s; '(at_, s) ← read_string s;
  s ← cut_prefix "," s; s ← cut_prefix (json_key "vsockPath") s; '(vp, s) ← read_string s;
  s ← cut_prefix "," s; s ← cut_prefix (json_key "rootfsPath") s; '(rp, s) ← read_string s;
  s ← cut_prefix "," s; s ← cut_prefix (json_key "chrootDir") s; '(cd, s) ← read_string s;
  s ← cut_prefix "," s; s ← cut_prefix (json_key "jailerVMDir") s; '(jd, s) ← read_string s;
  s ← cut_prefix "," s; s ← cut_prefix (json_key "jailedUID") s; '(uid, s) ← read_int s;
  s ← cut_prefix "," s; s ← cut_prefix (json_key "network") s; '(net, s) ← read_network s;
  s ← cut_prefix "," s; s ← cut_prefix (json_key "hasVolumes") s; '(hv, s) ← read_bool s;
  s ← cut_prefix "," s; s ← cut_prefix (json_key "firecrackerBin") s; '(fb, s) ← read_string s;
  if String.eqb s "}" && valid_time at_ && (0 <=? uid) && (uid <? 2 ^ 32)
  then Some (mkRecord id tid sid ep pid at_ vp rp cd jd uid net hv fb) else None.

(** [unmarshal_other] is [json.Unmarshal] on every other text. *)
Variable unmarshal_other : string -> option sandboxRecord.

Definition unmarshal_record (s : string) : option sandboxRecord :=
  match read_record s with Some r => Some r | None => unmarshal_other s end.

(** ** The journal directory *)

Section prog.
Context {G : Type}.

Definition newJournal (dataDir : string) : string := Join [dataDir; journalDirName].
Definition recordPath (dir id : string) : string := Join [dir; id +:+ ".json"].

Definition write (dir : string) (rec : sandboxRecord) : prog G bool :=
  made ← sys (CMkdirAll dir);
  if negb made then mret false
  else
    let data := marshal_record rec in
    tmp ← sys (CCreateTemp dir (r_ID rec +:+ ".*.tmp"));
    match tmp with
    | None => mret false
    | Some tmpName =>
        wrote ← sys (CWrite tmpName data);
        if negb wrote then _ ← sys (CClose tmpName); _ ← sys (CRemove tmpName); mret false
        else
          closed ← sys (CClose tmpName);
          if negb closed then _ ← sys (CRemove tmpName); mret false
          else
            renamed ← sys (CRename tmpName (recordPath dir (r_ID rec)));
            if negb renamed then _ ← sys (CRemove tmpName); mret false
            else mret true
    end.

Definition remove (dir id : string) : prog G bool :=
  r ← sys (CRemove (recordPath dir id));
  mret (match r with RmFailed => false | _ => true end).

Fixpoint load_entries (dir : string) (es : list (string * bool)) : prog G (list sandboxRecord) :=
  match es with
  | [] => mret []
  | (name, isDir) :: es =>
      if isDir || negb (has_suffix ".json" name) then load_entries dir es
      else
        data ← sys (CReadFile (Join [dir; name]));
        match data ≫= unmarshal_record with
        | None => load_entries dir es
        | Some rec => recs ← load_entries dir es; mret (rec :: recs)
        end
  end.

Definition load (dir : string) : prog G (option (list sandboxRecord)) :=
  r ← sys (CReadDir dir);
  match r with
  | DirAbsent => mret (Some [])
  | DirFailed => mret None
  | DirEntries es => recs ← load_entries dir es; mret (Some recs)
  end.

End prog.
End unmarshal.

End Journal.

(** ** Reading back what was written *)

Module JournalFacts.
Import Alloc Journal.

(** *** IPv4 addresses *)

Lemma v4_field_all : forallb (fun n => bool_decide (parse_v4_field (format_d (Z.of_nat n)) = Some (Z.of_nat n)))
  (seq 0 256) = true.
Proof. vm_compute. reflexivity. Qed.

Lemma v4_field b : 0 <= b < 256 -> parse_v4_field (format_d b) = Some b.
Proof.
  intros Hb. pose proof v4_field_all as H. rewrite forallb_forall in H.
  specialize (H (Z.to_nat b) ltac:(apply in_seq; lia)). apply bool_decide_eq_true in H.
  by rewrite Z2Nat.id in H by lia.
Qed.

Lemma format_d_no c z : digit_or_minus c = false -> contains_byte c (format_d z) = false.
Proof.
  intros Hc. pose proof (format_d_bytes z) as H. induction (format_d z) as [|d s IH]; [done|].
  cbn [string_forallb] in H. apply andb_true_iff in H as [Hd Hs]. rewrite contains_byte_cons, IH by done.
  destruct (Ascii.eqb_spec c d) as [->|]; [congruence|done].
Qed.

Lemma ip_family_dot s r :
  contains_byte "." s = false -> contains_byte ":" s = false -> contains_byte "%" s = false ->
  ip_family (s +:+ String "." r) = Some "."%char.
Proof.
  induction s as [|c s IH]; [done|]. rewrite !contains_byte_cons.
  intros [H1 H1']%orb_false_iff [H2 H2']%orb_false_iff [H3 H3']%orb_false_iff.
  cbn [String.append ip_family].
  rewrite (Ascii.eqb_sym c "."), (Ascii.eqb_sym c ":"), (Ascii.eqb_sym c "%"), H1, H2, H3. cbn [orb]. by apply IH.
Qed.

Lemma parse_ip_v4 other p6 (a b c d : Z) :
  Forall (fun x => 0 <= x < 256) [a; b; c; d] ->
  parse_ip p6 (ip_string other [a; b; c; d]) = Some (IPv4 a b c d).
Proof.
  intros H. inversion H as [|? ? Ha H1]; subst. inversion H1 as [|? ? Hb H2]; subst.
  inversion H2 as [|? ? Hc H3]; subst. inversion H3 as [|? ? Hd _]; subst.
  assert (ip_string other [a; b; c; d] =
    format_d a +:+ String "." (format_d b +:+ String "." (format_d c +:+ String "." (format_d d)))) as -> by done.
  unfold parse_ip. rewrite ip_family_dot by (by apply format_d_no).
  unfold parse_v4. rewrite !split_byte_app, !split_byte_single by (by apply format_d_no).
  change ([?w] ++ [?x] ++ [?y] ++ [?z]) with [w; x; y; z]. cbv beta iota. by rewrite !v4_field.
Qed.

Definition v4 (ip : IP) : Prop := length ip = 4%nat /\ Forall (fun x => 0 <= x < 256) ip.

Lemma v4_roundtrip other p6 ip :
  v4 ip -> ip <> [] /\ ip_string other ip <> EmptyString /\ to4 (default [] (parse_ip p6 (ip_string other ip))) = ip.
Proof.
  intros [Hl Hb]. destruct ip as [|a [|b [|c [|d [|]]]]]; try done. split; [done|]. split.
  - unfold ip_string. cbn [to4 length]. pose proof (v4_field a ltac:(by inversion Hb)) as Ha.
    destruct (format_d a); [discriminate Ha|done].
  - rewrite parse_ip_v4 by done. done.
Qed.

(** An identity the allocator hands out survives the journal. *)
Lemma identity_roundtrip other p6 id :
  v4 (HostIP id) -> v4 (GuestIP id) -> toIdentity p6 (networkIdentityFrom other id) = id.
Proof.
  intros (Hh & Hhe & Hhr)%(v4_roundtrip other p6) (Hg & Hge & Hgr)%(v4_roundtrip other p6).
  unfold toIdentity, networkIdentityFrom. cbn [n_TapName n_GuestMAC n_HostIP n_GuestIP].
  rewrite !bool_decide_false by done. apply String.eqb_neq in Hhe, Hge. rewrite Hhe, Hge, Hhr, Hgr. by destruct id.
Qed.

Lemma no_identity_roundtrip other p6 tap mac :
  toIdentity p6 (networkIdentityFrom other (MkIdentity tap mac [] [])) = MkIdentity tap mac [] [].
Proof. done. Qed.

(** *** Records *)

Definition net_ok (n : networkIdentity) : Prop :=
  is_ascii (n_TapName n) = true /\ is_ascii (n_GuestMAC n) = true /\
  is_ascii (n_HostIP n) = true /\ is_ascii (n_GuestIP n) = true.

Record rec_ok (valid_time : string -> bool) (r : sandboxRecord) : Prop := {
  ok_text : Forall (fun s => is_ascii s = true)
    [r_ID r; r_TemplateID r; r_SnapshotID r; r_Endpoint r; r_CreatedAt r; r_VsockPath r; r_RootfsPath r;
     r_ChrootDir r; r_JailerVMDir r; r_FirecrackerBin r];
  ok_net : net_ok (r_Network r);
  ok_pid : is_i64 (r_Pid r);
  ok_uid : 0 <= r_JailedUID r < 2 ^ 32;
  ok_time : valid_time (r_CreatedAt r) = true }.

Lemma read_network_back n t : net_ok n -> read_network (marshal_network n +:+ t) = Some (n, t).
Proof. intros (? & ? & ? & ?). unfold read_network, marshal_network. repeat read_step. by destruct n. Qed.

Lemma read_bool_back b t : read_bool (json_bool b +:+ t) = Some (b, t).
Proof. unfold read_bool, json_bool. destruct b; [by rewrite cut_prefix_app|]. done. Qed.

Lemma record_roundtrip valid_time other r :
  rec_ok valid_time r -> unmarshal_record valid_time other (marshal_record r) = Some r.
Proof.
  intros [Ht Hn Hp Hu Hv]. unfold unmarshal_record.
  assert (read_record valid_time (marshal_record r) = Some r) as ->; [|done].
  rewrite !list.Forall_cons in Ht. destruct Ht as (? & ? & ? & ? & ? & ? & ? & ? & ? & ? & _).
  assert (is_i64 (r_JailedUID r)) by (unfold is_i64; lia).
  unfold read_record, marshal_record. do 35 read_step.
  rewrite <- ?string_app_assoc, read_network_back by done. cbn [mbind option_bind]. do 2 read_step.
  rewrite <- ?string_app_assoc, read_bool_back. cbn [mbind option_bind]. repeat read_step.
  rewrite Hv. assert ((0 <=? r_JailedUID r) = true) as -> by (apply Z.leb_le; lia).
  assert ((r_JailedUID r <? 2 ^ 32) = true) as -> by (apply Z.ltb_lt; lia). by destruct r.
Qed.

End JournalFacts.
