(* ===== verification/Engine.v ===== *)
(** The fork engine of a node: internal/fork/engine.go, journal.go, reconcile.go,
    and the template-container code of encryption.go, with the Linux network
    manager of internal/network.

    - [Seams]: what the engine needs of the network manager, the container
      manager and the key provider, and the Linux implementation of the first.
    - [State]: the engine's configuration and its memory, shared by requests.
    - [Gates]: the checks a fork passes and the recording of a template.
    - [Fork]: admission, preparation and Fork.
    - [Recovery]: adopting and reaping after a restart, ForkRunning and Terminate.
    - [Admin]: template creation and deletion, and the reporting operations.
    - [Startup]: NewEngine. *)
From S2P Require Import Prelude GoLib GoFs GoJson Sha256 Netconf Nftables DnsProxy Cas Host Ociroot Kms Firecracker Storecrypt Volume Verify Metering Journal.
Import Chunk Manifest Store.
#[local] Open Scope go_scope.

(** ** The engine's seams *)

Module Seams.
Import Alloc Allow Apply.

(** network.Manager *)
Class NetManager (G : Type) := {
  Setup : Identity -> string -> list HostPort -> IP -> prog G bool;
  Teardown : Identity -> prog G bool }.

(** encryption.go containerManager and KeyProvider *)
Class ContainerManager (G : Type) := {
  cm_Create : string -> bytes -> Z -> string -> prog G bool;
  cm_Open : string -> bytes -> string -> prog G bool;
  cm_Close : string -> string -> prog G bool;
  cm_Shred : string -> string -> prog G bool }.
Class KeyProvider (G : Type) := {
  KeyFor : string -> prog G (option bytes);
  ForgetKey : string -> prog G unit }.

(** network_linux.go: the runner executes one command, the forward enabler
    writes one file. *)
Section linux.
Context {G : Type}.
Variable other_string : IP -> string.
Variable quote_other : string -> string.
Variable opts : applyOptions.

Definition execRunner (argv : list string) (stdin : string) : prog G bool :=
  match argv with [] => mret false | _ => sys (CRun argv stdin) end.
Definition enableIPForward : prog G bool :=
  sys (CWriteFile "/proc/sys/net/ipv4/ip_forward" (String.list_ascii_of_string ("1" +:+ nl))).

(** A Setup step: the first failure ends the setup. *)
Definition and_then (p k : prog G bool) : prog G bool := ok ← p; if ok : bool then k else mret false.

Definition linux_Setup (id : Identity) (policy : string) (allow : list HostPort) (resolverIP : IP)
  : prog G bool :=
  and_then (if enableForwarding opts then enableIPForward else mret true)
 (and_then (execRunner (TapAddArgs (TapName id)) EmptyString)
 (and_then (execRunner (AddrAddArgs other_string (HostIP id) (TapName id)) EmptyString)
 (and_then (execRunner (LinkUpArgs (TapName id)) EmptyString)
 (and_then (execRunner NftApplyArgs Nft.RenderSharedTable)
 (and_then (execRunner NftApplyArgs
     (Nft.RenderSandboxChain other_string quote_other (TapName id) (GuestIP id) policy allow resolverIP))
  (if negb (String.eqb (uplink opts) EmptyString)
   then execRunner (MasqueradeAddArgs (subnetCIDR opts) (uplink opts)) EmptyString else mret true)))))).

(** Teardown runs every command; the result is whether all succeeded. *)
Fixpoint run_all (cmds : list (list string)) : prog G bool :=
  match cmds with
  | [] => mret true
  | argv :: cmds => ok ← execRunner argv EmptyString; rest ← run_all cmds; mret (ok && rest)
  end.
Definition linux_Teardown (id : Identity) : prog G bool :=
  run_all ((if negb (String.eqb (uplink opts) EmptyString)
            then [MasqueradeDelArgs (subnetCIDR opts) (uplink opts)] else [])
    ++ [LinkDelArgs (TapName id); NftDeleteDispatchElementArgs quote_other (TapName id);
        NftDeleteSandboxChainArgs (TapName id); NftDeleteSandboxAllowSetArgs (TapName id)]).

Definition linuxManager : NetManager G := {| Setup := linux_Setup; Teardown := linux_Teardown |}.

End linux.

(** The LUKS containers and the request key provider of a node. *)
Section storage.
Context {G : Type} `{HW : Stash.HasWrapped G}.

Definition succeeded {E A} (p : prog G (res E A)) : prog G bool :=
  r ← p; mret (match r with Ok _ => true | Err _ => false end).

Definition storecryptManager (root : string) : ContainerManager G := {|
  cm_Create := fun id key size dir => succeeded (Manager.Create root id key size dir);
  cm_Open := fun id key dir => succeeded (Manager.Open root id key dir);
  cm_Close := fun id dir => succeeded (Manager.Close id dir);
  cm_Shred := fun id dir => succeeded (Manager.Shred root id dir) |}.

Definition requestKeys (kms : option (Kms.Wrapper G)) : KeyProvider G := {|
  KeyFor := fun id => r ← Stash.KeyFor kms id; mret (match r with Ok key => Some key | Err _ => None end);
  ForgetKey := fun id => Stash.ForgetKey id |}.

End storage.

End Seams.

(** ** Configuration and memory *)

Module State.
Import Alloc Client Backend Journal.

Record Sandbox := mkSandbox {
  sb_ID : string; sb_TemplateID : string; sb_SnapshotID : string; sb_Endpoint : string; sb_Pid : Z;
  sb_CreatedAt : string; sb_MemoryUnique : Z; sb_MemoryShared : Z; fcClient : option Client;
  sb_VsockPath : string; rootfsPath : string; netID : Identity; hasVolumes : bool;
  volumes : list Spec; sb_chrootDir : string; sb_jailerVMDir : string; sb_jailedUID : Z;
  adopted : bool; sb_firecrackerBin : string }.

(** netconf.Identity{} *)
Definition no_identity : Identity := MkIdentity EmptyString EmptyString [] [].

(** The fields NewEngine sets and nothing changes.  A pointer or interface field
    is represented by whether it is set, a volume backend by its root. *)
Record Engine := mkEngine {
  vcfg : Verify.config; firecrackerBin : string; jailer : JailerConfig;
  netMgr_set : bool; netAlloc_set : bool; resolverIP : IP;
  dnsRegistry_set : bool; enableDNSEgres : bool; enableVolumes : bool; volBackend : option string;
  enableEncryption : bool; crypt_set : bool; keyProvider_set : bool;
  maxSandboxes : Z; memReserveBytes : Z; journal : option string; rootfsReflink_set : bool;
  agentBinPath : string; busyboxPath : string }.

(** Template bookkeeping: the content-addressed store, the digests reported,
    the templates warned about, the open containers and the wrapped keys of the
    requests being served. *)
Record tplmem := mkTplmem {
  casStore : Store; templateDigests : gmap string string;
  unverifiedWarned : gset string; incompatibleWarned : gset string;
  encOpen : gset string; keyring : gmap string Stash.wrappedDEK }.

(** What the requests of a node share: the engine's own fields, guarded by its
    lock, and the allocators and registry, each guarded by its own. *)
Record mem := mkMem {
  sandboxes : gmap string Sandbox; reserved : Z; nextPort : Z;
  uids : Uid.UIDAllocator; nets : Allocator; dns : Reg.Registry; tpl : tplmem }.

#[global] Instance mem_has_uids : HasUids mem := {|
  getA := uids;
  setA := fun a g => mkMem (sandboxes g) (reserved g) (nextPort g) a (nets g) (dns g) (tpl g);
  getA_setA := fun _ _ => eq_refl |}.

Definition set_sandboxes (m : gmap string Sandbox) (g : mem) : mem :=
  mkMem m (reserved g) (nextPort g) (uids g) (nets g) (dns g) (tpl g).
Definition set_reserved (r : Z) (g : mem) : mem :=
  mkMem (sandboxes g) r (nextPort g) (uids g) (nets g) (dns g) (tpl g).
Definition set_nextPort (p : Z) (g : mem) : mem :=
  mkMem (sandboxes g) (reserved g) p (uids g) (nets g) (dns g) (tpl g).
Definition set_nets (a : Allocator) (g : mem) : mem :=
  mkMem (sandboxes g) (reserved g) (nextPort g) (uids g) a (dns g) (tpl g).
Definition set_dns (r : Reg.Registry) (g : mem) : mem :=
  mkMem (sandboxes g) (reserved g) (nextPort g) (uids g) (nets g) r (tpl g).
Definition set_tpl (t : tplmem) (g : mem) : mem :=
  mkMem (sandboxes g) (reserved g) (nextPort g) (uids g) (nets g) (dns g) t.

Definition set_store (s : Store) (t : tplmem) : tplmem :=
  mkTplmem s (templateDigests t) (unverifiedWarned t) (incompatibleWarned t) (encOpen t) (keyring t).
Definition set_digests (d : gmap string string) (t : tplmem) : tplmem :=
  mkTplmem (casStore t) d (unverifiedWarned t) (incompatibleWarned t) (encOpen t) (keyring t).
Definition set_encOpen (o : gset string) (t : tplmem) : tplmem :=
  mkTplmem (casStore t) (templateDigests t) (unverifiedWarned t) (incompatibleWarned t) o (keyring t).

Definition set_keyring (k : gmap string Stash.wrappedDEK) (t : tplmem) : tplmem :=
  mkTplmem (casStore t) (templateDigests t) (unverifiedWarned t) (incompatibleWarned t) (encOpen t) k.

#[global] Instance mem_has_wrapped : Stash.HasWrapped mem := {|
  Stash.getW := fun g => keyring (tpl g);
  Stash.setW := fun k g => set_tpl (set_keyring k (tpl g)) g;
  Stash.getW_setW := fun _ _ => eq_refl |}.

Definition eng_dataDir (e : Engine) : string := Verify.dataDir (vcfg e).

Definition networkEnabled (e : Engine) : bool := netMgr_set e && netAlloc_set e.
Definition dnsEgressEnabled (e : Engine) : bool :=
  enableDNSEgres e && dnsRegistry_set e && negb (bool_decide (resolverIP e = [])) && networkEnabled e.
Definition volumesEnabled (e : Engine) : bool :=
  enableVolumes e && match volBackend e with Some _ => true | None => false end.
Definition encryptionEnabled (e : Engine) : bool := enableEncryption e && crypt_set e && keyProvider_set e.

Inductive engine_error :=
| ErrAtCapacity (inFlight max : Z)
| GateFailed (e : Verify.verify_err)
| NoKey | OpenContainer | CreateContainer | WriteMarker | ShredFailed
| NoSnapshot | MkSandboxDir | NoReflink | CloneRootfs
| StartFailed (e : fc_error)
| BadAllowList (e : Allow.allow_error) | NoIdentity (e : alloc_error) | NetSetup | BadNameList (e : Allow.allow_error)
| VolumeFailed (e : vol_error)
| LoadFailed | RebindRootfs | RebindVolume (drive : string) | ResumeFailed
| NotFound | NetworkedLiveFork | PauseFailed | MkCheckpoint | CheckpointFailed (e : fc_error)
| MkLiveTemplate | LinkMem | LinkVMState
| TempRootfs | BuildImage | PlaceholderTap | SeedVolume (e : vol_error) | BuildFailed (e : fc_error)
| DigestFailed (e : Verify.verify_err) | DeleteFailed (e : fc_error).

End State.

(** ** The gates of a fork and the recording of a template *)

Module Gates.
Import Seams State.

Section gates.
Context {NM : NetManager mem} {KP : KeyProvider mem} {CM : ContainerManager mem}.

(** [json.Unmarshal] and [strings.TrimSpace] outside the modelled texts; which
    writes of the content-addressed store succeed, and its files' times. *)
Variable unmarshal_other : string -> option Manifest.
Variable trim_other : string -> string.
Variable write_ok : string -> bool.
Variable mtime : Z.
Variable e : Engine.

Definition templateDir (id : string) : string := Verify.templateDir (eng_dataDir e) id.
Definition with_tpl {X} (f : tplmem -> X * tplmem) (g : mem) : X * mem :=
  let '(x, t) := f (tpl g) in (x, set_tpl t g).

Definition verifyTemplate (id : string) (meta : Metadata) : prog mem (res Verify.verify_err string) :=
  fs ← sys (CScan (templateDir id));
  match Verify.readDigestFile trim_other (vcfg e) fs id with
  | None => mret (Err Verify.NoDigest)
  | Some want =>
      match BuildManifest fs (Verify.templateSnapshotFiles fs (eng_dataDir e) id) meta with
      | Err path => mret (Err (Verify.Unreadable path))
      | Ok m =>
          let got := manifest_digest m in
          if negb (String.eqb got want) then mret (Err (Verify.DigestMismatch want got))
          else
            ok ← sys (CWriteFile (Join [templateDir id; Verify.verifiedMarker]) []);
            mret (if ok : bool then Ok want else Err Verify.WriteMarker)
      end
  end.

Definition VerifyTemplate (id : string) : prog mem (res Verify.verify_err unit) :=
  must d := verifyTemplate id (Verify.default_meta (vcfg e)) in
  _ ← modify (fun g => set_tpl (set_digests (<[id := d]> (templateDigests (tpl g))) (tpl g)) g);
  mret (Ok tt).

Definition ensureVerified (snapshotID : string) : prog mem (res Verify.verify_err unit) :=
  marked ← sys (CStat (Join [templateDir snapshotID; Verify.verifiedMarker]));
  match marked with
  | Some _ => mret (Ok tt)
  | None =>
      r ← VerifyTemplate snapshotID;
      match r with
      | Ok _ => mret (Ok tt)
      | Err err =>
          if Verify.allowUnverified (vcfg e) then
            _ ← modify (fun g => set_tpl (mkTplmem (casStore (tpl g)) (templateDigests (tpl g))
                  ({[snapshotID]} ∪ unverifiedWarned (tpl g)) (incompatibleWarned (tpl g))
                  (encOpen (tpl g)) (keyring (tpl g))) g);
            mret (Ok tt)
          else mret (Err (Verify.Refused err))
      end
  end.

Definition ensureCompatible (snapshotID : string) : prog mem (res Verify.verify_err unit) :=
  fs ← sys (CScan (templateDir snapshotID));
  match Verify.readDigestFile trim_other (vcfg e) fs snapshotID with
  | None => mret (Ok tt)
  | Some d =>
      r ← atomic (fun g => (GetManifest unmarshal_other (casStore (tpl g)) d, g));
      match r with
      | Err _ => mret (Ok tt)
      | Ok m =>
          match Snapcompat.Check m (Verify.environment (vcfg e)) with
          | Ok _ => mret (Ok tt)
          | Err c =>
              if Verify.allowIncompatible (vcfg e) then
                _ ← modify (fun g => set_tpl (mkTplmem (casStore (tpl g)) (templateDigests (tpl g))
                      (unverifiedWarned (tpl g)) ({[snapshotID]} ∪ incompatibleWarned (tpl g))
                      (encOpen (tpl g)) (keyring (tpl g))) g);
                mret (Ok tt)
              else mret (Err (Verify.Incompatible c))
          end
      end
  end.

Definition recordTemplateDigest (id : string) (meta : Metadata) : prog mem (res Verify.verify_err string) :=
  fs ← sys (CScan (templateDir id));
  put ← atomic (with_tpl (fun t =>
          let '(s, r) := PutSnapshot write_ok mtime fs (casStore t)
                           (Verify.templateSnapshotFiles fs (eng_dataDir e) id) meta in (r, set_store s t)));
  match put with
  | Err err => mret (Err (Verify.ContentAddress err))
  | Ok m =>
      let d := manifest_digest m in
      pin ← atomic (with_tpl (fun t => let '(s, r) := Evict.Pin write_ok (casStore t) d in (r, set_store s t)));
      match pin with
      | Err err => mret (Err (Verify.PinFailed err))
      | Ok _ =>
          must _ := check Verify.WriteDigest (sys (CWriteFile (Join [templateDir id; Verify.manifestDigestFile])
                      (String.list_ascii_of_string d))) in
          must _ := check Verify.WriteMarker (sys (CWriteFile (Join [templateDir id; Verify.verifiedMarker]) [])) in
          mret (Ok d)
      end
  end.

(** *** Encrypted template containers *)

Definition encryptedMarker : string := ".encrypted".

Definition templateEncrypted (id : string) : prog mem bool :=
  if negb (encryptionEnabled e) then mret false
  else st ← sys (CStat (Join [templateDir id; encryptedMarker]));
       mret (match st with Some _ => true | None => false end).

Definition markTemplateOpen (id : string) : prog mem unit :=
  modify (fun g => set_tpl (set_encOpen ({[id]} ∪ encOpen (tpl g)) (tpl g)) g).
Definition forgetTemplateOpen (id : string) : prog mem unit :=
  modify (fun g => set_tpl (set_encOpen (encOpen (tpl g) ∖ {[id]}) (tpl g)) g).
Definition is_open (id : string) : prog mem bool :=
  atomic (fun g => (bool_decide (id ∈ encOpen (tpl g)), g)).

(** The per-template mutex of the slow path is left out: the interleavings
    without it include those with it.  Keys are values, so zeroising the copy
    after use has no counterpart. *)
Definition ensureTemplateOpen (id : string) : prog mem (res engine_error unit) :=
  enc ← templateEncrypted id;
  if negb enc then mret (Ok tt)
  else
    opened ← is_open id;
    if opened : bool then mret (Ok tt)
    else
      opened ← is_open id;
      if opened : bool then mret (Ok tt)
      else
        must key := some_or NoKey (KeyFor id) in
        must _ := check OpenContainer (cm_Open id key (templateDir id)) in
        _ ← markTemplateOpen id;
        mret (Ok tt).

Definition floor : Z := Z.shiftl 256 20.
Definition headroom : Z := Z.shiftl 128 20.
Definition templateFootprintSize (rootfsPath : string) (volumes : list Z) : prog mem Z :=
  fi ← sys (CStat rootfsPath);
  let total := match fi with Some fi => fi_size fi | None => 0 end in
  let total := fold_left (fun t v => i64 (t + v)) volumes total in
  let total := i64 (total + headroom) in
  mret (if total <? floor then floor else total).

Definition createTemplateContainer (id rootfsPath : string) (volumes : list Z) : prog mem (res engine_error unit) :=
  if negb (encryptionEnabled e) then mret (Ok tt)
  else
    must key := some_or NoKey (KeyFor id) in
    let dir := templateDir id in
    size ← templateFootprintSize rootfsPath volumes;
    must _ := check CreateContainer (cm_Create id key size dir) in
    _ ← markTemplateOpen id;
    check WriteMarker (sys (CWriteFile (Join [dir; encryptedMarker]) [])).

Definition shredTemplateContainer (id : string) : prog mem (res engine_error unit) :=
  if negb (encryptionEnabled e) then mret (Ok tt)
  else
    _ ← templateEncrypted id;
    must _ := check ShredFailed (cm_Shred id (templateDir id)) in
    _ ← ForgetKey id;
    _ ← forgetTemplateOpen id;
    mret (Ok tt).

End gates.

End Gates.

(** ** Forking and terminating *)

Module Fork.
Import Seams State Gates Alloc Client Backend ForkVolumes Journal.

Record NetworkOpts := mkNetworkOpts { EgressPolicy : string; AllowList : list string }.
(** Env and Secrets are carried past the engine untouched and left out. *)
Record ForkOpts := mkForkOpts { fo_Network : option NetworkOpts; fo_Volumes : list Spec }.
Definition no_opts : ForkOpts := mkForkOpts None [].

Record forkNetwork := mkForkNetwork {
  fn_identity : Identity; fn_overrides : list NetworkOverride; fn_guestNet : NotifyForkedNetwork }.
Record ForkResult := mkForkResult {
  fr_SandboxID : string; fr_Endpoint : string; fr_ForkTimeMs : SpecFloat.spec_float;
  fr_MemoryUnique : Z; fr_MemoryShared : Z; fr_VsockPath : string;
  fr_GuestNetwork : option NotifyForkedNetwork; fr_VolumeMounts : list VolumeMountEntry }.

Section fork.
Context {NM : NetManager mem} {KP : KeyProvider mem} {CM : ContainerManager mem}.
Variable unmarshal_other : string -> option Manifest.
Variables (trim_other : string -> string) (fields_other : string -> list string).
(** [net.IP.String], [net.ParseIP] and [strings.ToLower] outside the modelled
    texts, the iteration order of a name map, and the text of a time. *)
Variable other_string : IP -> string.
Variable parse_v6 : string -> option IP.
Variable unicode_lower : string -> string.
Variable range_names : gmap string (list Z) -> list (string * list Z).
Variable time_text : Z -> string.
Variable e : Engine.

(** *** Admission *)

Definition admitFork : prog mem (res engine_error unit) :=
  if maxSandboxes e <=? 0 then mret (Ok tt)
  else atomic (fun g =>
    let inFlight := i32 (i32 (Z.of_nat (size (sandboxes g))) + reserved g) in
    if maxSandboxes e <=? inFlight then (Err (ErrAtCapacity inFlight (maxSandboxes e)), g)
    else (Ok tt, set_reserved (i32 (reserved g + 1)) g)).

Definition commitReservation (sandboxID : string) (sandbox : Sandbox) : prog mem unit :=
  modify (fun g =>
    let g1 := set_sandboxes (<[sandboxID := sandbox]> (sandboxes g)) g in
    if (0 <? maxSandboxes e) && (0 <? reserved g) then set_reserved (i32 (reserved g - 1)) g1 else g1).

Definition releaseReservation : prog mem unit :=
  if maxSandboxes e <=? 0 then mret tt
  else modify (fun g => if 0 <? reserved g then set_reserved (i32 (reserved g - 1)) g else g).

(** *** Preparation *)

Definition prepareForkRootfs (sandboxID rootfsPath : string)
  : prog mem (res engine_error (option driveRebind * string)) :=
  if String.eqb rootfsPath EmptyString then mret (Ok (None, EmptyString))
  else if negb (rootfsReflink_set e) then mret (Err NoReflink)
  else
    let clonePath := Join [eng_dataDir e; "sandboxes"; sandboxID; "rootfs.ext4"] in
    r ← ReflinkCopy rootfsPath clonePath;
    mret (match r with
          | Ok _ => Ok (Some (mkDriveRebind "rootfs" clonePath), clonePath)
          | Err _ => Err CloneRootfs
          end).

Definition release_net (sandboxID : string) : prog mem unit :=
  modify (fun g => set_nets (Alloc.Release (nets g) sandboxID) g).

Definition register_names (entries : list string) (sandboxID : string) (id : Identity)
  : prog mem (res engine_error unit) :=
  match Allow.ParseNameAllowList parse_v6 unicode_lower entries with
  | Err err => _ ← release_net sandboxID; mret (Err (BadNameList err))
  | Ok names =>
      if bool_decide (names = ∅) then mret (Ok tt)
      else _ ← modify (fun g => set_dns (Reg.Register other_string unicode_lower (dns g) (GuestIP id) (range_names names)) g);
           mret (Ok tt)
  end.

Definition prepareForkNetwork (sandboxID : string) (opts : ForkOpts)
  : prog mem (res engine_error (option forkNetwork)) :=
  match fo_Network opts with
  | None => mret (Ok None)
  | Some net =>
      if negb (networkEnabled e) then mret (Ok None)
      else
        match Allow.SplitAllowList parse_v6 (AllowList net) with
        | Err err => mret (Err (BadAllowList err))
        | Ok (allow, skipped) =>
            let dnsOn := dnsEgressEnabled e in
            r ← atomic (fun g => let '(a, r) := Alloc.Acquire (nets g) sandboxID in (r, set_nets a g));
            match r with
            | Err err => mret (Err (NoIdentity err))
            | Ok id =>
                let guestResolver := if dnsOn then ip_string other_string (resolverIP e) else EmptyString in
                ok ← Setup id (EgressPolicy net) allow (resolverIP e);
                if negb ok then _ ← release_net sandboxID; mret (Err NetSetup)
                else
                  must _ := (if dnsOn && (0 <? length skipped)%nat
                             then register_names (AllowList net) sandboxID id else mret (Ok tt)) in
                  mret (Ok (Some (mkForkNetwork id [mkNetworkOverride Template.NetIfaceID (TapName id)]
                    (mkNotify (ip_string other_string (GuestIP id)) (ip_string other_string (HostIP id)) 30
                       guestResolver))))
            end
        end
  end.

Definition teardownForkNetwork (sandboxID : string) (id : Identity) : prog mem unit :=
  if negb (networkEnabled e) then mret tt
  else
    _ ← (if enableDNSEgres e && dnsRegistry_set e
         then modify (fun g => set_dns (Reg.Deregister other_string (dns g) (GuestIP id)) g) else mret tt);
    _ ← Teardown id;
    release_net sandboxID.

Definition teardown_if (sandboxID : string) (fnet : option forkNetwork) : prog mem unit :=
  match fnet with Some f => teardownForkNetwork sandboxID (fn_identity f) | None => mret tt end.

Definition readMemoryStats (pid : Z) : prog mem (Z * Z) :=
  if pid <=? 0 then mret (0, 0)
  else data ← sys (CReadFile ("/proc/" +:+ format_d pid +:+ "/smaps_rollup"));
       mret (match data with Some text => Estimate.memory_stats fields_other text | None => (0, 0) end).

(** *** The journal *)

Definition record_of (sb : Sandbox) : sandboxRecord :=
  mkRecord (sb_ID sb) (sb_TemplateID sb) (sb_SnapshotID sb) (sb_Endpoint sb) (sb_Pid sb) (sb_CreatedAt sb)
    (sb_VsockPath sb) (rootfsPath sb) (sb_chrootDir sb) (sb_jailerVMDir sb) (sb_jailedUID sb)
    (networkIdentityFrom other_string (netID sb)) (hasVolumes sb) (firecrackerBin e).
Definition journalSandbox (sb : Sandbox) : prog mem unit :=
  match journal e with None => mret tt | Some dir => _ ← write dir (record_of sb); mret tt end.
Definition unjournalSandbox (id : string) : prog mem unit :=
  match journal e with None => mret tt | Some dir => _ ← remove dir id; mret tt end.

(** *** fork *)

(** cleanupFork: the VM, the network, the volumes, the sandbox directory. *)
Definition cleanupFork (sandboxID sandboxDir : string) (c : Client) (fnet : option forkNetwork)
    (rebinds : list driveRebind) : prog mem unit :=
  _ ← Kill c;
  _ ← teardown_if sandboxID fnet;
  _ ← match volBackend e with
      | Some root => if (0 <? length rebinds)%nat then _ ← Cleanup root sandboxID; mret tt else mret tt
      | None => mret tt
      end;
  _ ← sys (CRemoveAll sandboxDir);
  mret tt.

(** The calls on the loaded VM: load paused, rebind the rootfs and the volumes,
    resume. *)
Definition load_and_resume (c : Client) (memFile vmStateFile : string) (overrides : list NetworkOverride)
    (rootfsRebind : option driveRebind) (rebinds : list driveRebind) : prog mem (res engine_error unit) :=
  must _ := check LoadFailed (LoadSnapshotWithOverrides c memFile vmStateFile false overrides) in
  must _ := match rootfsRebind with
            | Some rb => check RebindRootfs (PatchDrive c (rb_DriveID rb) (rb_PathOnHost rb))
            | None => mret (Ok tt)
            end in
  must _ := for_each rebinds (fun rb =>
              check (RebindVolume (rb_DriveID rb)) (PatchDrive c (rb_DriveID rb) (rb_PathOnHost rb))) in
  check ResumeFailed (Resume c).

(** From the resumed VM to the result: endpoint, record, commit, journal. *)
Definition finish_fork (snapshotID sandboxID rootfsPath : string) (opts : ForkOpts) (start : Z) (c : Client)
    (vsockPath : string) (fnet : option forkNetwork) (rebinds : list driveRebind) (prepared : list Prepared)
  : prog mem (res engine_error ForkResult) :=
  resumed ← sys CNow;
  port ← atomic (fun g => (nextPort g, set_nextPort (i32 (nextPort g + 1)) g));
  let endpoint := "127.0.0.1:" +:+ format_d port in
  now ← sys CNow;
  '(unique, shared) ← readMemoryStats (PID c);
  let js := jailerState c in
  let sandbox := mkSandbox sandboxID snapshotID snapshotID endpoint (PID c) (time_text now) unique shared
    (Some c) vsockPath rootfsPath (match fnet with Some f => fn_identity f | None => no_identity end)
    (0 <? length rebinds)%nat (fo_Volumes opts) (js_ChrootDir js) (js_JailerVMDir js) (js_JailedUID js)
    false EmptyString in
  _ ← commitReservation sandboxID sandbox;
  _ ← journalSandbox sandbox;
  let us := Z.quot (time_sub resumed start) 1000 in
  mret (Ok (mkForkResult sandboxID endpoint (f64_div (f64_of_int us) (f64_of_int 1000)) unique shared vsockPath
    (fn_guestNet <$> fnet) (volumeMountTable prepared))).

(** fork from the launched VM on: every failure undoes what was acquired. *)
Definition fork_vm (snapshotID sandboxID rootfsPath : string) (opts : ForkOpts) (start : Z)
    (rootfsRebind : option driveRebind) (c : Client) : prog mem (res engine_error ForkResult) :=
  let snapshotDir := Join [eng_dataDir e; "templates"; snapshotID; "snapshot"] in
  let sandboxDir := Join [eng_dataDir e; "sandboxes"; sandboxID] in
  let vsockPath := VsockHostPath c VsockRelPath in
  r ← prepareForkNetwork sandboxID opts;
  match r with
  | Err err => _ ← Kill c; mret (Err err)
  | Ok fnet =>
      v ← prepareForkVolumes (default EmptyString (volBackend e)) (volumesEnabled e) snapshotID sandboxID
            (fo_Volumes opts);
      match v with
      | Err err => _ ← Kill c; _ ← teardown_if sandboxID fnet; mret (Err (VolumeFailed err))
      | Ok (rebinds, prepared) =>
          l ← load_and_resume c (Join [snapshotDir; "mem"]) (Join [snapshotDir; "vmstate"])
                (match fnet with Some f => fn_overrides f | None => [] end) rootfsRebind rebinds;
          match l with
          | Err err => _ ← cleanupFork sandboxID sandboxDir c fnet rebinds; mret (Err err)
          | Ok _ => finish_fork snapshotID sandboxID rootfsPath opts start c vsockPath fnet rebinds prepared
          end
      end
  end.

(** The VM fork launches. *)
Definition fork_cfg (sandboxID sandboxDir : string) (chrootFiles : list string) : VMConfig :=
  mkVMConfig sandboxID (firecrackerBin e) sandboxDir (Join [sandboxDir; "firecracker.sock"])
    EmptyString 0 0 EmptyString (jailer e) chrootFiles [] None.

(** fork after admission, before the deferred release. *)
Definition fork_admitted (snapshotID sandboxID rootfsPath : string) (opts : ForkOpts)
  : prog mem (res engine_error ForkResult) :=
  start ← sys CNow;
  let snapshotDir := Join [eng_dataDir e; "templates"; snapshotID; "snapshot"] in
  let memFile := Join [snapshotDir; "mem"] in
  let vmStateFile := Join [snapshotDir; "vmstate"] in
  must _ := some_or NoSnapshot (sys (CStat memFile)) in
  let sandboxDir := Join [eng_dataDir e; "sandboxes"; sandboxID] in
  must _ := check MkSandboxDir (sys (CMkdirAll sandboxDir)) in
  must (rootfsRebind, rootfsClone) := prepareForkRootfs sandboxID rootfsPath in
  let chrootFiles := [memFile; vmStateFile]
                     ++ (if String.eqb rootfsClone EmptyString then [] else [rootfsClone]) in
  vm ← StartVM (fork_cfg sandboxID sandboxDir chrootFiles);
  match vm with
  | Err err => mret (Err (StartFailed err))
  | Ok c => fork_vm snapshotID sandboxID rootfsPath opts start rootfsRebind c
  end.

Definition or_release {A} (p : prog mem (res engine_error A)) : prog mem (res engine_error A) :=
  r ← p;
  match r with Ok a => mret (Ok a) | Err err => _ ← releaseReservation; mret (Err err) end.

Definition fork (snapshotID sandboxID rootfsPath : string) (opts : ForkOpts) (reserved : bool)
  : prog mem (res engine_error ForkResult) :=
  must _ := (if reserved then mret (Ok tt) else admitFork) in
  or_release (fork_admitted snapshotID sandboxID rootfsPath opts).

(** *** Fork *)

Definition lift_gate (p : prog mem (res Verify.verify_err unit)) : prog mem (res engine_error unit) :=
  r ← p; mret (match r with Ok _ => Ok tt | Err err => Err (GateFailed err) end).

Definition gates (snapshotID : string) : prog mem (res engine_error unit) :=
  must _ := lift_gate (ensureVerified trim_other e snapshotID) in
  must _ := lift_gate (ensureCompatible unmarshal_other trim_other e snapshotID) in
  ensureTemplateOpen e snapshotID.

Definition Fork (snapshotID sandboxID : string) (opts : ForkOpts) : prog mem (res engine_error ForkResult) :=
  must _ := admitFork in
  must _ := or_release (gates snapshotID) in
  let rootfsPath := Join [eng_dataDir e; "templates"; snapshotID; "rootfs.ext4"] in
  st ← sys (CStat rootfsPath);
  fork snapshotID sandboxID (match st with Some _ => rootfsPath | None => EmptyString end) opts true.

End fork.

End Fork.

(** ** After a restart, live forks and termination *)

Module Recovery.
Import Seams State Gates Fork Alloc Client Backend ForkVolumes Journal.

Section recovery.
Context {NM : NetManager mem} {KP : KeyProvider mem} {CM : ContainerManager mem}.
Variable unmarshal_other : string -> option Manifest.
Variables (trim_other : string -> string) (fields_other : string -> list string).
Variable other_string : IP -> string.
Variable parse_v6 : string -> option IP.
Variable unicode_lower : string -> string.
Variable range_names : gmap string (list Z) -> list (string * list Z).
Variable time_text : Z -> string.
(** [time.Time.UnmarshalJSON] and [json.Unmarshal] of a journal record. *)
Variable valid_time : string -> bool.
Variable record_other : string -> option sandboxRecord.
Variable e : Engine.

(** *** The pid-recycle guard *)

Definition procfsVerifier (pid : Z) (firecrackerBin : string) : prog mem bool :=
  if pid <=? 0 then mret false
  else
    let procDir := Join ["/proc"; format_d pid] in
    st ← sys (CStat procDir);
    match st with
    | None => mret false
    | Some _ =>
        exe ← sys (CReadlink (Join [procDir; "exe"]));
        let by_comm :=
          comm ← sys (CReadFile (Join [procDir; "comm"]));
          mret (match comm with
                | None => false
                | Some c => String.eqb (TrimSpace trim_other c) "firecracker"
                end) in
        match exe with
        | None => by_comm
        | Some exe =>
            if String.eqb exe EmptyString then by_comm
            else
              resolved ← sys (CEvalSymlinks firecrackerBin);
              let matches := match resolved with
                             | Some r => negb (String.eqb r EmptyString)
                                         && (String.eqb exe r || String.eqb exe firecrackerBin)
                             | None => false
                             end in
              if matches : bool then mret true
              else mret (String.eqb (Base (trim_suffix " (deleted)" exe)) "firecracker")
        end
    end.

(** *** Reaping *)

Definition return_uid (uid : Z) : prog mem unit :=
  if negb (uid =? 0) && Firecracker.Allocator (jailer e) then release_uid uid else mret tt.
Definition remove_tree (dir : string) : prog mem unit :=
  if String.eqb dir EmptyString then mret tt else _ ← sys (CRemoveAll dir); mret tt.
Definition cleanup_volumes (id : string) (has : bool) : prog mem unit :=
  match volBackend e with
  | Some root => if has then _ ← Cleanup root id; mret tt else mret tt
  | None => mret tt
  end.

(** The process is killed only when the guard still recognises it. *)
Definition reapAdopted (sb : Sandbox) : prog mem unit :=
  _ ← (if 0 <? sb_Pid sb then
         ours ← procfsVerifier (sb_Pid sb) (sb_firecrackerBin sb);
         if ours : bool then _ ← sys (CKill (sb_Pid sb)); mret tt else mret tt
       else mret tt);
  _ ← remove_tree (sb_jailerVMDir sb);
  return_uid (sb_jailedUID sb).

Definition reapArtifacts (rec : sandboxRecord) : prog mem unit :=
  _ ← remove_tree (r_JailerVMDir rec);
  _ ← sys (CRemoveAll (Join [eng_dataDir e; "sandboxes"; r_ID rec]));
  _ ← (if negb (String.eqb (n_TapName (r_Network rec)) EmptyString) && networkEnabled e
       then teardownForkNetwork other_string e (r_ID rec) (toIdentity parse_v6 (r_Network rec)) else mret tt);
  _ ← cleanup_volumes (r_ID rec) (r_HasVolumes rec);
  return_uid (r_JailedUID rec).

(** *** Adoption *)

Definition adopted_sandbox (rec : sandboxRecord) (unique shared : Z) : Sandbox :=
  mkSandbox (r_ID rec) (r_TemplateID rec) (r_SnapshotID rec) (r_Endpoint rec) (r_Pid rec) (r_CreatedAt rec)
    unique shared None (r_VsockPath rec) (r_RootfsPath rec) (toIdentity parse_v6 (r_Network rec))
    (r_HasVolumes rec) [] (r_ChrootDir rec) (r_JailerVMDir rec) (r_JailedUID rec) true (r_FirecrackerBin rec).

Definition adoptSandbox (rec : sandboxRecord) : prog mem unit :=
  '(unique, shared) ← readMemoryStats fields_other (r_Pid rec);
  let sb := adopted_sandbox rec unique shared in
  _ ← (if negb (r_JailedUID rec =? 0) && Firecracker.Allocator (jailer e)
       then modify (fun g => setA (Uid.MarkInUse (r_JailedUID rec) (getA g)) g) else mret tt);
  _ ← (if negb (String.eqb (TapName (netID sb)) EmptyString) && netAlloc_set e
       then modify (fun g => set_nets (Alloc.MarkInUse (nets g) (r_ID rec) (netID sb)).1 g) else mret tt);
  modify (fun g => set_sandboxes (<[r_ID rec := sb]> (sandboxes g)) g).

Fixpoint reconcile_all (dir : string) (recs : list sandboxRecord) : prog mem unit :=
  match recs with
  | [] => mret tt
  | rec :: recs =>
      ours ← procfsVerifier (r_Pid rec) (r_FirecrackerBin rec);
      _ ← (if ours : bool then adoptSandbox rec
           else _ ← reapArtifacts rec; _ ← remove dir (r_ID rec); mret tt);
      reconcile_all dir recs
  end.

Definition reconcile : prog mem unit :=
  match journal e with
  | None => mret tt
  | Some dir =>
      recs ← load valid_time record_other dir;
      match recs with None => mret tt | Some recs => reconcile_all dir recs end
  end.

(** *** Live forks *)

Definition lookup_sandbox (id : string) : prog mem (option Sandbox) :=
  atomic (fun g => (sandboxes g !! id, g)).

(** ForkRunning after the pause, without the deferred resume. *)
Definition fork_checkpoint (sourceSandboxID newSandboxID : string) (source : Sandbox)
  : prog mem (res engine_error ForkResult) :=
  let checkpointDir := Join [eng_dataDir e; "sandboxes"; sourceSandboxID; "checkpoint"] in
  must _ := check MkCheckpoint (sys (CMkdirAll checkpointDir)) in
  let memFile := Join [checkpointDir; "mem"] in
  let vmStateFile := Join [checkpointDir; "vmstate"] in
  must _ := match fcClient source with
            | Some c => r ← CreateSnapshot c memFile vmStateFile;
                        mret (match r with Ok _ => Ok tt | Err err => Err (CheckpointFailed err) end)
            | None => mret (Ok tt)
            end in
  let tmpTemplateDir := Join [eng_dataDir e; "templates"; sourceSandboxID +:+ "-live"] in
  must _ := check MkLiveTemplate (sys (CMkdirAll (Join [tmpTemplateDir; "snapshot"]))) in
  r ← (must _ := check LinkMem (sys (CSymlink memFile (Join [tmpTemplateDir; "snapshot"; "mem"]))) in
       must _ := check LinkVMState (sys (CSymlink vmStateFile (Join [tmpTemplateDir; "snapshot"; "vmstate"]))) in
       fork fields_other other_string parse_v6 unicode_lower range_names time_text e
         (sourceSandboxID +:+ "-live") newSandboxID (rootfsPath source) no_opts false);
  _ ← sys (CRemoveAll tmpTemplateDir);
  mret r.

Definition ForkRunning (sourceSandboxID newSandboxID : string) (pauseSource : bool)
  : prog mem (res engine_error ForkResult) :=
  must source := some_or NotFound (lookup_sandbox sourceSandboxID) in
  if networkEnabled e then mret (Err NetworkedLiveFork)
  else
    match (if pauseSource then fcClient source else None) with
    | Some c =>
        must _ := check PauseFailed (Pause c) in
        r ← fork_checkpoint sourceSandboxID newSandboxID source;
        _ ← Resume c;
        mret r
    | None => fork_checkpoint sourceSandboxID newSandboxID source
    end.

(** *** Terminate *)

Definition take_sandbox (id : string) : prog mem (option Sandbox) :=
  atomic (fun g => match sandboxes g !! id with
                   | None => (None, g)
                   | Some sb => (Some sb, set_sandboxes (delete id (sandboxes g)) g)
                   end).

Definition release_sandbox (sandboxID : string) (sandbox : Sandbox) : prog mem unit :=
  _ ← match fcClient sandbox with
      | Some c => _ ← Kill c; mret tt
      | None => if adopted sandbox then reapAdopted sandbox else mret tt
      end;
  _ ← (if String.eqb (TapName (netID sandbox)) EmptyString then mret tt
       else teardownForkNetwork other_string e sandboxID (netID sandbox));
  _ ← cleanup_volumes sandboxID (hasVolumes sandbox);
  _ ← sys (CRemoveAll (Join [eng_dataDir e; "sandboxes"; sandboxID]));
  unjournalSandbox e sandboxID.

Definition Terminate (sandboxID : string) : prog mem (res engine_error unit) :=
  must sandbox := some_or NotFound (take_sandbox sandboxID) in
  _ ← release_sandbox sandboxID sandbox;
  mret (Ok tt).

End recovery.

End Recovery.

(** ** Templates, reports and start-up *)

Module Admin.
Import Seams State Gates Fork Recovery Alloc Client Backend ForkVolumes Journal Report Estimate.

(** buildRootfsFromImage: pulling and unpacking an OCI image. *)
Class ImageBuilder (G : Type) := {
  buildRootfsFromImage : string -> string -> string -> string -> prog G bool }.

(** imagebuild.go *)
Definition ociBuilder {G} : ImageBuilder G := {|
  buildRootfsFromImage := fun ref outPath agentBin busyboxBin =>
    succeeded (Ociroot.buildRootfsFromImage ref outPath agentBin busyboxBin) |}.

(** strings.Contains *)
Fixpoint contains_sub (sub s : string) : bool :=
  has_prefix sub s || match s with EmptyString => false | String _ s' => contains_sub sub s' end.

Definition placeholderMAC : string := "02:00:00:00:00:01".
Definition placeholderID : Identity :=
  MkIdentity Template.PlaceholderTapName placeholderMAC [10; 200; 255; 253] [10; 200; 255; 254].

Record Capacity := mkCapacity {
  ActiveSandboxes : Z; MaxSandboxes : Z; MemoryTotal : Z; MemoryUsed : Z; MemoryShared : Z;
  TemplateIDs : list string; TemplateDigests : gmap string string;
  TemplateEstimates : list TemplateEstimate; KVMAvailable : bool }.

Section admin.
Context {NM : NetManager mem} {KP : KeyProvider mem} {CM : ContainerManager mem} {IB : ImageBuilder mem}.
Variables (trim_other : string -> string) (fields_other : string -> list string).
Variable write_ok : string -> bool.
Variable mtime : Z.
(** name.ParseReference of go-containerregistry: which texts are references. *)
Variable parse_reference : string -> bool.
(** The iteration order of the sandbox map. *)
Variable range_sandboxes : gmap string Sandbox -> list (string * Sandbox).
Variable e : Engine.

Definition templateMgr : Template.TemplateManager :=
  Template.NewTemplateManager (firecrackerBin e) (Verify.kernelPath (vcfg e)) (eng_dataDir e) (jailer e).

(** *** CreateTemplate *)

Definition isImageRef (image : string) : prog mem bool :=
  if String.eqb image EmptyString then mret false
  else
    st ← sys (CStat image);
    mret (match st with
          | Some _ => false
          | None =>
              if has_prefix "/" image || has_prefix "./" image || has_prefix "../" image then false
              else parse_reference image
          end).

Definition with_build (cfg : VMConfig) (rootfs bootArgs : string) (drives : list VolumeDrive)
    (net : option NetworkIdentity) : VMConfig :=
  mkVMConfig (ID cfg) (FirecrackerBin cfg) (WorkDir cfg) (SocketPath cfg) rootfs (VcpuCount cfg)
    (MemSizeMib cfg) bootArgs (Jailer cfg) (ChrootFiles cfg) drives net.

Definition template_bootArgs : string :=
  let args := BootArgs DefaultVMConfig in
  if contains_sub "init=" args then args else args +:+ " init=/init".

Fixpoint seed_volumes (root id : string) (specs : list Spec) : prog mem (res engine_error (list VolumeDrive)) :=
  match specs with
  | [] => mret (Ok [])
  | spec :: specs =>
      s ← FreshTemplate root spec id;
      match s with
      | Err err => mret (Err (SeedVolume err))
      | Ok seed =>
          must rest := seed_volumes root id specs in
          mret (Ok (mkVolumeDrive (Name spec) seed (driveReadOnly spec) :: rest))
      end
  end.

(** The build proper: seed volumes, boot, init, snapshot, digest. *)
Definition build_template (id : string) (cfg : VMConfig) (initCommands : list string) (specs : list Spec)
  : prog mem (res engine_error unit) :=
  must drives := (if volumesEnabled e && (0 <? length specs)%nat
                  then seed_volumes (default EmptyString (volBackend e)) id specs else mret (Ok [])) in
  let cfg := with_build cfg (RootfsPath cfg) (BootArgs cfg) drives (Network cfg) in
  b ← Template.CreateTemplate templateMgr id cfg initCommands;
  match b with
  | Err err => mret (Err (BuildFailed err))
  | Ok _ =>
      d ← recordTemplateDigest write_ok mtime e id
            (Verify.manifestMetadata (vcfg e) (VcpuCount cfg) (MemSizeMib cfg));
      match d with
      | Err err => mret (Err (DigestFailed err))
      | Ok d => _ ← modify (fun g => set_tpl (set_digests (<[id := d]> (templateDigests (tpl g))) (tpl g)) g);
                mret (Ok tt)
      end
  end.

(** Inside an encrypted container, which a failed build shreds. *)
Definition build_encrypted (id : string) (cfg : VMConfig) (initCommands : list string) (specs : list Spec)
  : prog mem (res engine_error unit) :=
  if encryptionEnabled e then
    must _ := createTemplateContainer e id (RootfsPath cfg) (map (fun s => i64 (Z.shiftl (SizeMB s) 20)) specs) in
    r ← build_template id cfg initCommands specs;
    match r with
    | Ok _ => mret (Ok tt)
    | Err err => _ ← shredTemplateContainer e id; mret (Err err)
    end
  else build_template id cfg initCommands specs.

(** With the placeholder tap in place while the template is built. *)
Definition build_networked (id : string) (cfg : VMConfig) (initCommands : list string) (specs : list Spec)
  : prog mem (res engine_error unit) :=
  if networkEnabled e then
    must _ := check PlaceholderTap (Setup placeholderID Nft.EgressDeny [] []) in
    r ← build_encrypted id
          (with_build cfg (RootfsPath cfg) (BootArgs cfg) (VolumeDrives cfg)
             (Some (Firecracker.mkNetworkIdentity Template.NetIfaceID placeholderMAC Template.PlaceholderTapName)))
          initCommands specs;
    _ ← Teardown placeholderID;
    mret r
  else build_encrypted id cfg initCommands specs.

Definition CreateTemplate (id image : string) (initCommands : list string) (specs : list Spec)
  : prog mem (res engine_error unit) :=
  let cfg rootfs := with_build DefaultVMConfig rootfs template_bootArgs [] None in
  isRef ← isImageRef image;
  if isRef : bool then
    must builtPath := some_or TempRootfs (sys (CCreateTemp EmptyString "tmpl-rootfs-*.ext4")) in
    _ ← sys (CClose builtPath);
    r ← (must _ := check BuildImage (buildRootfsFromImage image builtPath (agentBinPath e) (busyboxPath e)) in
         build_networked id (cfg builtPath) initCommands specs);
    _ ← sys (CRemove builtPath);
    mret r
  else build_networked id (cfg image) initCommands specs.

Definition DeleteTemplate (id : string) : prog mem (res engine_error unit) :=
  must _ := (if encryptionEnabled e then shredTemplateContainer e id else mret (Ok tt)) in
  d ← Template.DeleteTemplate templateMgr id;
  match d with
  | Err err => mret (Err (DeleteFailed err))
  | Ok _ => _ ← modify (fun g => set_tpl (set_digests (delete id (templateDigests (tpl g))) (tpl g)) g);
            mret (Ok tt)
  end.

(** *** Reporting *)

Definition SandboxPID (sandboxID : string) : prog mem (Z * bool) :=
  atomic (fun g => (match sandboxes g !! sandboxID with Some s => (sb_Pid s, true) | None => (0, false) end, g)).

Record SandboxRecord := mkSandboxRecord { lr_ID : string; lr_CreatedAt : string }.
Definition ListSandboxes : prog mem (list SandboxRecord) :=
  atomic (fun g => (map (fun p => mkSandboxRecord (sb_ID p.2) (sb_CreatedAt p.2)) (range_sandboxes (sandboxes g)), g)).

Definition memorySamplesLocked (g : mem) : list Sample :=
  map (fun p => let s := p.2 in
         mkSample (sb_ID s) (sb_TemplateID s) (sb_MemoryUnique s) (sb_MemoryShared s) 0 0)
    (range_sandboxes (sandboxes g)).

Fixpoint collect_digests (digestsByID : gmap string string) (ids : list string) (acc : gmap string string)
  : prog mem (gmap string string) :=
  match ids with
  | [] => mret acc
  | id :: ids =>
      match digestsByID !! id with
      | Some d => collect_digests digestsByID ids (<[id := d]> acc)
      | None =>
          fs ← sys (CScan (Gates.templateDir e id));
          collect_digests digestsByID ids
            (match Verify.readDigestFile trim_other (vcfg e) fs id with Some d => <[id := d]> acc | None => acc end)
      end
  end.

Definition GetCapacity : prog mem Capacity :=
  '(samples, active, digestsByID) ← atomic (fun g =>
     ((memorySamplesLocked g, i32 (Z.of_nat (size (sandboxes g))), templateDigests (tpl g)), g));
  let report := Aggregate samples in
  ids ← Template.ListTemplates templateMgr;
  let templateIDs := default [] ids in
  digests ← collect_digests digestsByID templateIDs ∅;
  meminfo ← sys (CReadFile "/proc/meminfo");
  let memoryTotal := match hostMemTotalBytes fields_other meminfo with
                     | Ok total => let avail := i64 (total - memReserveBytes e) in if 0 <? avail then avail else 0
                     | Err _ => 0
                     end in
  mret (mkCapacity active (maxSandboxes e) memoryTotal (UsedCoWAware report) (SharedOnceTotal report)
          templateIDs digests (templateEstimatesFromReport report digests) true).

(** *** Disk metering *)

Record meteringSnapshot := mkMeteringSnapshot {
  ms_id : string; ms_template : string; ms_memoryUnique : Z; ms_memoryShared : Z;
  ms_hasVolumes : bool; ms_volumes : list Spec }.

Definition apparentSize (path : string) : prog mem Z :=
  if String.eqb path EmptyString then mret 0
  else fi ← sys (CStat path); mret (match fi with Some fi => fi_size fi | None => 0 end).

Fixpoint disk_volumes (root template id : string) (specs : list Spec) (unique shared : Z) : prog mem (Z * Z) :=
  match specs with
  | [] => mret (unique, shared)
  | spec :: specs =>
      seedSize ← apparentSize (TemplateVolumePath root template (Name spec));
      let own := apparentSize (VolumePath root id (Name spec)) in
      if String.eqb (Policy spec) ForkPolicyShare then
        disk_volumes root template id specs unique (i64 (shared + seedSize))
      else if String.eqb (Policy spec) ForkPolicySnapshot then
        forkSize ← own;
        let d := i64 (forkSize - seedSize) in
        disk_volumes root template id specs (if 0 <? d then i64 (unique + d) else unique) (i64 (shared + seedSize))
      else
        size ← own;
        disk_volumes root template id specs (i64 (unique + size)) shared
  end.

Definition diskFootprint (sn : meteringSnapshot) : prog mem (Z * Z) :=
  match volBackend e with
  | Some root => if ms_hasVolumes sn then disk_volumes root (ms_template sn) (ms_id sn) (ms_volumes sn) 0 0
                 else mret (0, 0)
  | None => mret (0, 0)
  end.

Fixpoint metering_samples (snaps : list meteringSnapshot) : prog mem (list Sample) :=
  match snaps with
  | [] => mret []
  | sn :: snaps =>
      '(du, ds) ← diskFootprint sn;
      rest ← metering_samples snaps;
      mret (mkSample (ms_id sn) (ms_template sn) (ms_memoryUnique sn) (ms_memoryShared sn) du ds :: rest)
  end.

Definition Metering : prog mem Report :=
  snaps ← atomic (fun g => (map (fun p => let s := p.2 in
      mkMeteringSnapshot (sb_ID s) (sb_TemplateID s) (sb_MemoryUnique s) (sb_MemoryShared s) (hasVolumes s)
        (if hasVolumes s && (0 <? length (volumes s))%nat then volumes s else []))
      (range_sandboxes (sandboxes g)), g));
  samples ← metering_samples snaps;
  mret (Aggregate samples).

(** *** Start-up checks *)

Definition validateKVM : prog mem bool :=
  fi ← sys (CStat "/dev/kvm");
  mret (match fi with Some fi => fi_chardev fi | None => false end).

End admin.

End Admin.

Module Startup.
Import Seams State Fork Recovery Admin Alloc Client Journal.

Record EngineOpts := mkEngineOpts {
  o_CASDir : string; o_AllowUnverified : bool; o_AllowIncompatible : bool;
  o_Environment : Snapcompat.Environment; o_NetManager : bool; o_NetAllocator : option Allocator;
  o_ResolverIP : IP; o_EnableDNSEgress : bool; o_DNSRegistry : option Reg.Registry;
  o_AgentBinPath : string; o_BusyboxPath : string; o_EnableVolumes : bool; o_VolumeBackend : option string;
  o_EnableEncryption : bool; o_KeyProvider : bool; o_MaxSandboxes : Z; o_MemoryReserveBytes : Z }.

Inductive new_error :=
| NoKVM | BadUIDRange | InitCAS | DetectFailed (err : Snapcompat.detect_error) | NoKeyProvider.

(** A nil allocator, never used: the engine checks that one is set. *)
Definition nil_allocator : Allocator := MkAllocator EmptyString 0 0 EmptyString 0 ∅ ∅ ∅.

(** What is in the store's directory when the process starts. *)
Definition fresh_mem (low high : Z) (uids0 : option Uid.UIDAllocator) (store : Store)
    (keys : gmap string Stash.wrappedDEK) (opts : EngineOpts) : mem :=
  mkMem ∅ 0 10000
    (match uids0 with Some a => a | None => Uid.NewUIDAllocator low high end)
    (default nil_allocator (o_NetAllocator opts)) (default Reg.NewRegistry (o_DNSRegistry opts))
    (mkTplmem store ∅ ∅ ∅ ∅ keys).

Section new.
Context {NM : NetManager mem} {KP : KeyProvider mem} {CM : ContainerManager mem}.
Variables (trim_other : string -> string) (fields_other : string -> list string).
Variable other_string : IP -> string.
Variable parse_v6 : string -> option IP.
Variable valid_time : string -> bool.
Variable record_other : string -> option sandboxRecord.
(** The host's environment as snapcompat.DetectEnvironment finds it, the
    allocator the jailer configuration carries, and what is on disk. *)
Variable detected : res Snapcompat.detect_error Snapcompat.Environment.
Variable uids0 : option Uid.UIDAllocator.
Variable store0 : Store.
Variable keys0 : gmap string Stash.wrappedDEK.

(** NewEngine's jailer configuration: the data directory is filled in and a
    missing allocator is created. *)
Definition new_jailer (dataDir : string) (j : JailerConfig) : JailerConfig :=
  if Enabled j then mkJailerConfig (JailerBin j) (ChrootBaseDir j) (UIDRange j) (CgroupVersion j) dataDir true
  else j.

Definition cas_New (root : string) : prog mem bool :=
  r ← for_each ["chunks"; "manifests"; "pins"] (fun sub => check tt (sys (CMkdirAll (Join [root; sub]))));
  mret (is_ok r).

Definition NewEngine (dataDir firecrackerBin kernelPath : string) (j : JailerConfig) (opts : EngineOpts)
  : prog mem (res new_error Engine) :=
  must _ := check NoKVM validateKVM in
  let '(low, high) := UIDRange j in
  if Enabled j && ((low =? 0) || (high <? low)) then mret (Err BadUIDRange)
  else
    must _ := check InitCAS (cas_New (if String.eqb (o_CASDir opts) EmptyString
                                      then Join [dataDir; "cas"] else o_CASDir opts)) in
    must env := (if Nat.eqb (length (Snapcompat.FormatVersions (o_Environment opts))) 0
                 then mret (match detected with Ok env => Ok env | Err err => Err (DetectFailed err) end)
                 else mret (Ok (o_Environment opts))) in
    if o_EnableEncryption opts && negb (o_KeyProvider opts) then mret (Err NoKeyProvider)
    else
      let vol := match o_VolumeBackend opts with
                 | Some root => Some root
                 | None => if o_EnableVolumes opts then Some dataDir else None
                 end in
      let eng := mkEngine
        (Verify.mkConfig dataDir kernelPath env (o_AllowUnverified opts) (o_AllowIncompatible opts))
        firecrackerBin (new_jailer dataDir j) (o_NetManager opts)
        (match o_NetAllocator opts with Some _ => true | None => false end) (o_ResolverIP opts)
        (match o_DNSRegistry opts with Some _ => true | None => false end) (o_EnableDNSEgress opts)
        (o_EnableVolumes opts) vol
        (o_EnableEncryption opts) (o_EnableEncryption opts) (o_EnableEncryption opts)
        (o_MaxSandboxes opts)
        (if o_MemoryReserveBytes opts =? 0 then Estimate.defaultMemoryReserveBytes else o_MemoryReserveBytes opts)
        (Some (newJournal dataDir)) true (o_AgentBinPath opts) (o_BusyboxPath opts) in
      _ ← modify (fun _ => fresh_mem low high (if Firecracker.Allocator j then uids0 else None) store0 keys0 opts);
      _ ← reconcile trim_other fields_other other_string parse_v6 valid_time record_other eng;
      mret (Ok eng).

End new.

End Startup.
