(* ===== verification/EngineSafety.v ===== *)
(** The fork engine under concurrent requests.

    - [Laws]: what the engine's theorems assume of its seams, and that the Linux
      network manager satisfies it.
    - [Footprints]: which parts of the engine's memory each operation can touch
      and which host calls it can make.
    - [Requests]: the requests a node serves.
    - [Capacity]: no interleaving of requests exceeds the sandbox ceiling, and no
      slot leaks.
    - [Uids]: no two live VMs ever run under one uid. *)
From S2P Require Import Prelude GoLib GoFs GoJson Netconf Nftables DnsProxy Cas Host Ociroot Kms Firecracker Storecrypt Volume Verify Metering Journal Engine.
#[local] Open Scope go_scope.

Module Laws.
Import Seams State Admin.

(** What the seams may touch: the key provider's keys, and no VM. *)
Definition core (g : mem) := (sandboxes g, reserved g, nextPort g, uids g, nets g, dns g).
Definition quiet_call (c : call) : Prop :=
  match c with CStart _ _ _ | CWait _ | CKill _ | CApi _ _ _ _ => False | _ => True end.
Definition quiet {A} (p : prog mem A) : Prop := calls_in quiet_call p /\ keeps core p.

Class LawfulSeams {NM : NetManager mem} {KP : KeyProvider mem} {CM : ContainerManager mem}
    {IB : ImageBuilder mem} : Prop := {
  Setup_quiet : forall id policy allow resolver, quiet (Setup id policy allow resolver);
  Teardown_quiet : forall id, quiet (Teardown id);
  KeyFor_quiet : forall id, quiet (KeyFor id);
  ForgetKey_quiet : forall id, quiet (ForgetKey id);
  Create_quiet : forall id key size dir, quiet (cm_Create id key size dir);
  Open_quiet : forall id key dir, quiet (cm_Open id key dir);
  Shred_quiet : forall id dir, quiet (cm_Shred id dir);
  build_quiet : forall image out agent busybox, quiet (buildRootfsFromImage image out agent busybox) }.

(** The Linux network manager only runs commands and writes a sysctl. *)
Lemma run_all_quiet cmds : quiet (run_all cmds).
Proof. induction cmds as [|[|a argv] cmds [IH1 IH2]]; cbn [run_all execRunner]; (split; [walk|walk]). Qed.

Lemma linux_Setup_quiet other quote opts id policy allow resolver :
  quiet (linux_Setup other quote opts id policy allow resolver).
Proof.
  unfold linux_Setup, and_then, execRunner, enableIPForward, Apply.TapAddArgs, Apply.AddrAddArgs, Apply.LinkUpArgs, Apply.NftApplyArgs, Apply.MasqueradeAddArgs.
  split; walk.
Qed.

(** The LUKS manager runs commands and touches files, and the key provider
    touches its map, provided that the KMS behaves. *)
Lemma quiet_succeeded {E A} (p : prog mem (res E A)) : quiet p -> quiet (succeeded p).
Proof. intros [H1 H2]. unfold succeeded. split; walk. Qed.

Lemma storecrypt_quiet root id key size dir :
  quiet (Manager.Create root id key size dir) /\ quiet (Manager.Open root id key dir) /\
  quiet (Manager.Close id dir) /\ quiet (Manager.Shred root id dir).
Proof.
  unfold Manager.Create, Manager.Open, Manager.Close, Manager.Shred, Manager.allocateImage, Manager.or_undo,
    Manager.close_and_remove, Manager.close_mapper, Manager.remove_image, Manager.DefaultRunner,
    Manager.luksFormatArgs, Manager.luksOpenArgs, Manager.luksCloseArgs, Manager.luksEraseArgs.
  split_and!; (split; [walk|walk]).
Qed.

Lemma requestKeys_quiet (kms : option (Kms.Wrapper mem)) id :
  (forall k w, kms = Some k -> quiet (Kms.w_Unwrap k w)) ->
  quiet (Seams.KeyFor (KeyProvider := requestKeys kms) id) /\
  quiet (Seams.ForgetKey (KeyProvider := requestKeys kms) id).
Proof.
  intros Hk. assert (quiet (Stash.KeyFor kms id)) as [H1 H2].
  { unfold Stash.KeyFor. destruct kms as [k|]; split; walk; apply (Hk k _ eq_refl). }
  unfold Seams.KeyFor, Seams.ForgetKey, requestKeys, Stash.ForgetKey. by split; split; walk.
Qed.

(** The image builder touches files and runs mkfs.ext4. *)
Lemma image_build_quiet image out agent busybox : quiet (buildRootfsFromImage (ImageBuilder := ociBuilder) image out agent busybox).
Proof.
  apply quiet_succeeded. unfold Ociroot.buildRootfsFromImage, Ociroot.PullImage, Ociroot.ExtractImage, Ociroot.extractEntry,
    Ociroot.secureJoin, Ociroot.symlinkTargetStaysInside, Ociroot.writeRegular, Ociroot.applyOwnership, Ociroot.InjectAgent,
    Ociroot.ensureShell, Ociroot.copyFile, Ociroot.DirSizeMB, Ociroot.BuildExt4, Ociroot.execRunner, Ociroot.wrapped.
  split; walk.
Qed.

(** The local key-encryption key makes no calls to unwrap. *)
Lemma local_unwrap_quiet l w : quiet (Kms.w_Unwrap (Kms.local_wrapper l) w).
Proof. by split. Qed.

End Laws.

(** ** Footprints *)

Module Footprints.
Import Laws Seams State Gates Fork Recovery Admin Client Backend ForkVolumes Journal.

Section footprints.
Context `{LS : LawfulSeams}.
Variable unmarshal_other : string -> option Manifest.Manifest.
Variables (trim_other : string -> string) (fields_other : string -> list string).
Variable other_string : IP -> string.
Variable parse_v6 : string -> option IP.
Variable unicode_lower : string -> string.
Variable range_names : gmap string (list Z) -> list (string * list Z).
Variable time_text : Z -> string.
Variable e : Engine.

(** A part of the memory that the name registry, the template bookkeeping and
    the port counter do not belong to. *)
Context {V : Type} (v : mem -> V).
Context (Hv : forall g g', sandboxes g = sandboxes g' -> reserved g = reserved g' -> uids g = uids g' ->
  nets g = nets g' -> v g = v g').

Lemma quiet_keeps {A} (p : prog mem A) : quiet p -> keeps v p.
Proof using Hv.
  intros [_ Hk]. induction p as [a|X f k IH|c k IH]; cbn in *; [done| |intros x; by apply IH].
  destruct Hk as [Hf Hk]. split; [|intros x; by apply IH].
  intros g. specialize (Hf g). unfold core in Hf. by apply Hv; congruence.
Qed.

#[local] Hint Resolve quiet_keeps Setup_quiet Teardown_quiet KeyFor_quiet ForgetKey_quiet Create_quiet Open_quiet
  Shred_quiet build_quiet : prog.

Lemma with_tpl_keeps {X} (f : tplmem -> X * tplmem) g : v (with_tpl f g).2 = v g.
Proof using Hv. unfold with_tpl. destruct (f (tpl g)). by apply Hv. Qed.

Ltac view := first [by apply with_tpl_keeps | by apply Hv | by (repeat case_match; apply Hv) | walk].

Lemma write_keeps dir rec : keeps v (write dir rec).
Proof using. unfold write. walk. Qed.
Lemma remove_keeps dir id : keeps v (remove dir id).
Proof using. unfold remove. walk. Qed.
Lemma run_command_keeps argv : keeps v (runner argv).
Proof using. unfold runner. walk. Qed.
#[local] Hint Resolve write_keeps remove_keeps run_command_keeps : prog.

Lemma ReflinkCopy_keeps src dst : keeps v (ReflinkCopy src dst).
Proof using. unfold ReflinkCopy. walk. Qed.
#[local] Hint Resolve ReflinkCopy_keeps : prog.

Lemma prepareForkVolumes_keeps root en tid id specs : keeps v (prepareForkVolumes root en tid id specs).
Proof using.
  unfold prepareForkVolumes. walk. generalize (@nil driveRebind) as rb, (@nil Prepared) as pr.
  induction specs as [|s specs IH]; intros rb pr; cbn [prepare_all]; [walk|].
  unfold prepareForkVolume, Fresh, Snapshot, Share, Clone, Cleanup. walk.
Qed.

Lemma gates_keep id : keeps v (gates unmarshal_other trim_other e id).
Proof using Hv LS.
  unfold gates, lift_gate, ensureVerified, ensureCompatible, ensureTemplateOpen, Gates.VerifyTemplate,
    Gates.verifyTemplate, templateEncrypted, is_open, markTemplateOpen. walk; view.
Qed.

(** Nor do the addresses. *)
Context (Hnets : forall a g, v (set_nets a g) = v g).

Lemma release_net_keeps id : keeps v (release_net id).
Proof using Hnets. unfold release_net. walk. Qed.
#[local] Hint Resolve release_net_keeps : prog.

Lemma teardownForkNetwork_keeps id ni : keeps v (teardownForkNetwork other_string e id ni).
Proof using Hv Hnets LS. unfold teardownForkNetwork. walk; view. Qed.
#[local] Hint Resolve teardownForkNetwork_keeps : prog.

Lemma teardown_if_keeps id f : keeps v (teardown_if other_string e id f).
Proof using Hv Hnets LS. unfold teardown_if. walk. Qed.

Lemma prepareForkNetwork_keeps id opts :
  keeps v (prepareForkNetwork other_string parse_v6 unicode_lower range_names e id opts).
Proof using Hv Hnets LS.
  unfold prepareForkNetwork, register_names. walk; try view. destruct (Alloc.Acquire (nets g) id). apply Hnets.
Qed.

Lemma prepareForkRootfs_keeps id p : keeps v (prepareForkRootfs e id p).
Proof using. unfold prepareForkRootfs. walk. Qed.

Lemma readMemoryStats_keeps pid : keeps v (readMemoryStats fields_other pid).
Proof using. unfold readMemoryStats. walk. Qed.

Lemma journal_keeps sb : keeps v (journalSandbox other_string e sb).
Proof using. unfold journalSandbox. walk. Qed.
Lemma unjournal_keeps id : keeps v (unjournalSandbox e id).
Proof using. unfold unjournalSandbox. walk. Qed.

Lemma load_keeps c mf vf ov rr rbs : keeps v (load_and_resume c mf vf ov rr rbs).
Proof using. unfold load_and_resume, LoadSnapshotWithOverrides, PatchDrive, Resume, put, patch, api. walk. Qed.

(** *** The calls of those operations *)

Context (P : call -> Prop) (HP : forall c, quiet_call c -> P c).

Lemma quiet_calls {A} (p : prog mem A) : quiet p -> calls_in P p.
Proof using HP. intros [Hc _]. by eapply calls_mono. Qed.
#[local] Hint Resolve quiet_calls : prog.

Ltac calls := walk; try (by apply HP).

Lemma write_calls dir rec : calls_in P (write (G := mem) dir rec).
Proof using HP. unfold write. calls. Qed.
Lemma remove_calls dir id : calls_in P (remove (G := mem) dir id).
Proof using HP. unfold remove. calls. Qed.
Lemma run_command_calls argv : calls_in P (runner (G := mem) argv).
Proof using HP. unfold runner. calls. Qed.
#[local] Hint Resolve write_calls remove_calls run_command_calls : prog.

Lemma ReflinkCopy_calls src dst : calls_in P (ReflinkCopy (G := mem) src dst).
Proof using HP. unfold ReflinkCopy. calls. Qed.
#[local] Hint Resolve ReflinkCopy_calls : prog.

Lemma prepareForkVolumes_calls root en tid id specs :
  calls_in P (prepareForkVolumes (G := mem) root en tid id specs).
Proof using HP.
  unfold prepareForkVolumes. walk. generalize (@nil driveRebind) as rb, (@nil Prepared) as pr.
  induction specs as [|s specs IH]; intros rb pr; cbn [prepare_all]; [walk|].
  unfold prepareForkVolume, Fresh, Snapshot, Share, Clone, Cleanup. calls.
Qed.

Lemma gates_calls id : calls_in P (gates unmarshal_other trim_other e id).
Proof using HP LS.
  unfold gates, lift_gate, ensureVerified, ensureCompatible, ensureTemplateOpen, Gates.VerifyTemplate,
    Gates.verifyTemplate, templateEncrypted, is_open, markTemplateOpen. calls.
Qed.

Lemma teardownForkNetwork_calls id ni : calls_in P (teardownForkNetwork other_string e id ni).
Proof using HP LS. unfold teardownForkNetwork, release_net. calls. Qed.
#[local] Hint Resolve teardownForkNetwork_calls : prog.

Lemma teardown_if_calls id f : calls_in P (teardown_if other_string e id f).
Proof using HP LS. unfold teardown_if. calls. Qed.

Lemma prepareForkNetwork_calls id opts :
  calls_in P (prepareForkNetwork other_string parse_v6 unicode_lower range_names e id opts).
Proof using HP LS. unfold prepareForkNetwork, register_names, release_net. calls. Qed.

Lemma prepareForkRootfs_calls id p : calls_in P (prepareForkRootfs e id p).
Proof using HP. unfold prepareForkRootfs. calls. Qed.

Lemma readMemoryStats_calls pid : calls_in P (readMemoryStats fields_other pid).
Proof using HP. unfold readMemoryStats. calls. Qed.

Lemma journal_calls sb : calls_in P (journalSandbox other_string e sb).
Proof using HP. unfold journalSandbox. calls. Qed.
Lemma unjournal_calls id : calls_in P (unjournalSandbox e id).
Proof using HP. unfold unjournalSandbox. calls. Qed.

Lemma verifier_calls pid bin : calls_in P (procfsVerifier trim_other pid bin).
Proof using HP. unfold procfsVerifier. calls. Qed.

Lemma cleanup_volumes_calls id has : calls_in P (cleanup_volumes e id has).
Proof using HP. unfold cleanup_volumes, Cleanup. calls. Qed.

Lemma remove_tree_calls d : calls_in P (remove_tree d).
Proof using HP. unfold remove_tree. calls. Qed.

(** *** Around a template build, and reporting *)

Variable write_ok : string -> bool.
Variable mtime : Z.
Variable parse_reference : string -> bool.
Variable range_sandboxes : gmap string Sandbox -> list (string * Sandbox).

Lemma seed_volumes_foot root id specs :
  keeps v (seed_volumes root id specs) /\ calls_in P (seed_volumes root id specs).
Proof using HP.
  unfold seed_volumes, FreshTemplate.
  split; induction specs as [|s specs IH]; [walk|calls; by eapply calls_mono|walk|calls].
Qed.

Lemma recordTemplateDigest_foot id meta :
  keeps v (recordTemplateDigest write_ok mtime e id meta) /\ calls_in P (recordTemplateDigest write_ok mtime e id meta).
Proof using HP Hv. unfold recordTemplateDigest. split; [walk; view|calls]. Qed.

Lemma container_foot id p vols :
  keeps v (createTemplateContainer e id p vols) /\ calls_in P (createTemplateContainer e id p vols).
Proof using HP Hv LS. unfold createTemplateContainer, templateFootprintSize, markTemplateOpen. split; [walk; view|calls]. Qed.

Lemma shred_foot id : keeps v (shredTemplateContainer e id) /\ calls_in P (shredTemplateContainer e id).
Proof using HP Hv LS. unfold shredTemplateContainer, templateEncrypted, forgetTemplateOpen. split; [walk; view|calls]. Qed.

Lemma isImageRef_foot image :
  keeps v (isImageRef parse_reference image) /\ calls_in P (isImageRef parse_reference image).
Proof using HP. unfold isImageRef. split; [walk|calls]. Qed.

Lemma DeleteTemplate_foot id : keeps v (DeleteTemplate e id) /\ calls_in P (DeleteTemplate e id).
Proof using HP Hv LS.
  destruct (shred_foot id) as [H1 H2]. unfold DeleteTemplate, Template.DeleteTemplate. split; [walk; view|calls].
Qed.

Lemma GetCapacity_foot :
  keeps v (GetCapacity trim_other fields_other range_sandboxes e) /\
  calls_in P (GetCapacity trim_other fields_other range_sandboxes e).
Proof using HP.
  assert (forall dir es, keeps v (Template.with_snapshot dir es) /\ calls_in P (Template.with_snapshot (G := mem) dir es))
    as Hw by (intros dir es; induction es as [|[] ? IH]; cbn [Template.with_snapshot]; [split; walk|split; [walk|calls]]; apply IH).
  assert (forall ds ids acc, keeps v (collect_digests trim_other e ds ids acc) /\
                             calls_in P (collect_digests trim_other e ds ids acc)) as Hd
    by (intros ds ids; induction ids as [|? ? IH]; intros acc; cbn [collect_digests]; [split; walk|split; [walk|calls]; apply IH]).
  unfold GetCapacity, Template.ListTemplates. split; [walk|calls]; (apply Hw || apply Hd).
Qed.

Lemma Metering_foot : keeps v (Metering range_sandboxes e) /\ calls_in P (Metering range_sandboxes e).
Proof using HP.
  assert (forall r t i sp a b, keeps v (disk_volumes r t i sp a b) /\ calls_in P (disk_volumes r t i sp a b)) as Hd.
  { intros r t i sp. induction sp as [|s sp IH]; intros a b; cbn [disk_volumes]; unfold apparentSize.
    - split; walk.
    - split; [walk|calls]; apply IH. }
  assert (forall sn, keeps v (metering_samples e sn) /\ calls_in P (metering_samples e sn)) as Hm.
  { intros sn. induction sn as [|s sn IH]; cbn [metering_samples]; unfold diskFootprint; [split; walk|].
    split; [walk|calls]; (apply Hd || apply IH). }
  unfold Metering. split; [walk|calls]; apply Hm.
Qed.

Lemma configure_keeps tm tid cfg cmds start c :
  keeps v (Template.configure_and_snapshot (G := mem) tm tid cfg cmds start c).
Proof using.
  destruct (TemplateFacts.configure_quiet (G := mem) tm tid cfg cmds start c) as [_ Hk]. revert Hk.
  generalize (Template.configure_and_snapshot (G := mem) tm tid cfg cmds start c) as p.
  induction p as [a|X f k IH|cl k IH]; cbn; [done| |intros Hk x; by apply IH].
  intros [Hf Hk]. split; [|intros x; by apply IH]. intros g. specialize (Hf g). unfold id in Hf. by rewrite Hf.
Qed.

Lemma checkpoint_foot c mf vf :
  keeps v (CreateSnapshot c mf vf) /\ calls_in no_proc (CreateSnapshot (G := mem) c mf vf).
Proof using.
  unfold CreateSnapshot, exportFromJail, ensureJailedDir, Jail.sameInode, Jail.copyFile, put, patch, api. split; walk.
Qed.

(** *** Launch, kill and the VM's API keep everything but the uids *)

Context (Hset : forall a g, v (setA a g) = v g).

Lemma StartVM_keeps cfg : keeps v (StartVM cfg).
Proof using Hset.
  unfold StartVM, startJailedVM, startJailed, ready_or_kill, acquire_uid, release_uid.
  walk; try (first [apply ClientFacts.guardJailerLayout_keeps | apply ClientFacts.prepareChroot_keeps
    | apply ClientFacts.chown_keeps | apply ClientFacts.waitReady_keeps]).
  destruct (Uid.Acquire (getA g)). apply Hset.
Qed.

Lemma Kill_keeps c : keeps v (Kill c).
Proof using Hset. unfold Kill, release_uid. walk; apply Hset. Qed.

Lemma verifier_keeps pid bin : keeps v (procfsVerifier trim_other pid bin).
Proof using. unfold procfsVerifier. walk. Qed.

Lemma cleanup_volumes_keeps id has : keeps v (cleanup_volumes e id has).
Proof using. unfold cleanup_volumes, Cleanup. walk. Qed.

Lemma remove_tree_keeps d : keeps v (remove_tree d).
Proof using. unfold remove_tree. walk. Qed.

Lemma CreateTemplate_keeps id image init specs :
  keeps v (CreateTemplate write_ok mtime parse_reference e id image init specs).
Proof using HP Hset Hv LS.
  pose proof StartVM_keeps as H1. pose proof Kill_keeps as H2.
  unfold CreateTemplate, build_networked, build_encrypted, build_template, Template.CreateTemplate, Jail.copyFile.
  walk; first [apply seed_volumes_foot | apply recordTemplateDigest_foot | apply container_foot | apply shred_foot
    | apply isImageRef_foot | apply configure_keeps | view].
Qed.

End footprints.

#[export] Hint Resolve quiet_keeps Setup_quiet Teardown_quiet KeyFor_quiet ForgetKey_quiet Create_quiet Open_quiet
  Shred_quiet build_quiet write_keeps remove_keeps run_command_keeps ReflinkCopy_keeps prepareForkVolumes_keeps gates_keep
  release_net_keeps teardownForkNetwork_keeps teardown_if_keeps prepareForkNetwork_keeps prepareForkRootfs_keeps
  readMemoryStats_keeps journal_keeps unjournal_keeps load_keeps verifier_keeps cleanup_volumes_keeps
  remove_tree_keeps quiet_calls write_calls remove_calls run_command_calls ReflinkCopy_calls prepareForkVolumes_calls
  gates_calls teardownForkNetwork_calls teardown_if_calls prepareForkNetwork_calls prepareForkRootfs_calls
  readMemoryStats_calls journal_calls unjournal_calls verifier_calls cleanup_volumes_calls remove_tree_calls
  StartVM_keeps Kill_keeps configure_keeps CreateTemplate_keeps : prog.

End Footprints.

(** ** The requests a node serves *)

Module Requests.
Import Laws Seams State Gates Fork Recovery Admin Backend.

Section requests.
Context `{LS : LawfulSeams}.
Variable unmarshal_other : string -> option Manifest.Manifest.
Variables (trim_other : string -> string) (fields_other : string -> list string).
Variable other_string : IP -> string.
Variable parse_v6 : string -> option IP.
Variable unicode_lower : string -> string.
Variable range_names : gmap string (list Z) -> list (string * list Z).
Variable time_text : Z -> string.
Variable write_ok : string -> bool.
Variable mtime : Z.
Variable parse_reference : string -> bool.
Variable range_sandboxes : gmap string Sandbox -> list (string * Sandbox).
Variable e : Engine.

Definition discard {A} (p : prog mem A) : prog mem unit := _ ← p; mret tt.

Inductive request : prog mem unit -> Prop :=
| req_fork snapshotID sandboxID opts :
    request (discard (Fork unmarshal_other trim_other fields_other other_string parse_v6 unicode_lower range_names
                        time_text e snapshotID sandboxID opts))
| req_live source sandboxID pause :
    request (discard (ForkRunning fields_other other_string parse_v6 unicode_lower range_names time_text e
                        source sandboxID pause))
| req_terminate sandboxID : request (discard (Terminate trim_other other_string e sandboxID))
| req_create id image init specs :
    request (discard (CreateTemplate write_ok mtime parse_reference e id image init specs))
| req_delete id : request (discard (DeleteTemplate e id))
| req_capacity : request (discard (GetCapacity trim_other fields_other range_sandboxes e))
| req_metering : request (discard (Metering range_sandboxes e))
| req_list : request (discard (ListSandboxes range_sandboxes))
| req_pid sandboxID : request (discard (SandboxPID sandboxID)).

End requests.

End Requests.

(** ** The sandbox ceiling *)

Module Capacity.
Import Laws Footprints Requests Seams State Gates Fork Recovery Admin Client Backend ForkVolumes.

Section capacity.
Context `{LS : LawfulSeams}.
Variable unmarshal_other : string -> option Manifest.Manifest.
Variables (trim_other : string -> string) (fields_other : string -> list string).
Variable other_string : IP -> string.
Variable parse_v6 : string -> option IP.
Variable unicode_lower : string -> string.
Variable range_names : gmap string (list Z) -> list (string * list Z).
Variable time_text : Z -> string.
Variable write_ok : string -> bool.
Variable mtime : Z.
Variable parse_reference : string -> bool.
Variable range_sandboxes : gmap string Sandbox -> list (string * Sandbox).
Variable e : Engine.
Hypothesis Hmax : 0 < maxSandboxes e < 2 ^ 31.

Definition slots (g : mem) := (sandboxes g, reserved g).

Lemma slots_view g g' :
  sandboxes g = sandboxes g' -> reserved g = reserved g' -> uids g = uids g' -> nets g = nets g' -> slots g = slots g'.
Proof using. unfold slots. congruence. Qed.
Lemma slots_set a g : slots (setA a g) = slots g.
Proof using. done. Qed.
Lemma slots_nets a g : slots (set_nets a g) = slots g.
Proof using. done. Qed.
#[local] Hint Resolve slots_view slots_set slots_nets : prog.

(** One token per request between admission and commit. *)
Definition slots_inv (own : gmultiset unit) (g : mem) (t : trace) : Prop :=
  reserved g = Z.of_nat (size own) /\ Z.of_nat (size (sandboxes g)) + reserved g <= maxSandboxes e.

Abbreviation safe := (safe anything slots_inv).
Abbreviation one := ({[+ tt +]} : gmultiset unit).

Lemma slots_calm {A} (p : prog mem A) : keeps slots p -> calm anything slots_inv p.
Proof using.
  induction p as [a|X f k IH|c k IH]; cbn; [done| |].
  - intros [Hf Hk]. split; [|intros x; by apply IH]. intros o g t. specialize (Hf g).
    unfold slots, slots_inv in *. by injection Hf as -> ->.
  - intros Hk x. split; [|by apply IH]. done.
Qed.

Lemma safe_keeps {A : Type} (own : gmultiset unit) (p : prog mem A) : keeps slots p -> safe own p (fun _ o => o = own).
Proof using. intros. by apply calm_safe, slots_calm. Qed.

(** A step that keeps the slots. *)
Ltac calmly := first
  [ apply safe_try; eapply safe_mono; [apply safe_keeps; by walk|]; cbn beta; intros [?|?] ? ->; [|done]
  | apply safe_bind; eapply safe_mono; [apply safe_keeps; by walk|]; cbn beta; intros ? ? -> ].

Lemma safe_admitFork (own : gmultiset unit) :
  safe own (admitFork e) (fun r o => match r with Ok _ => o = one ⊎ own | Err _ => o = own end).
Proof using Hmax.
  unfold admitFork. destruct (Z.leb_spec (maxSandboxes e) 0); [lia|].
  intros fr g t [Hr Hle]. cbn. pose proof (Nat2Z.is_nonneg (size (sandboxes g))).
  rewrite (i32_small (Z.of_nat _)) by (unfold is_i32; lia). rewrite i32_small by (unfold is_i32; lia).
  destruct (Z.leb_spec (maxSandboxes e) (Z.of_nat (size (sandboxes g)) + reserved g)); cbn.
  - exists own. done.
  - exists (one ⊎ own). split; [|done].
    assert (size (one ⊎ own ⊎ fr) = S (size (own ⊎ fr))) as E.
    { by rewrite <- (assoc_L (⊎)), gmultiset_size_disj_union, gmultiset_size_singleton. }
    unfold slots_inv. rewrite E. cbn. rewrite i32_small by (unfold is_i32; lia). split; lia.
Qed.

Lemma safe_release (own : gmultiset unit) :
  safe (one ⊎ own) (releaseReservation e) (fun _ o => o = own).
Proof using Hmax.
  unfold releaseReservation. destruct (Z.leb_spec (maxSandboxes e) 0); [lia|].
  intros fr g t [Hr Hle]. exists own. split; [|done]. cbn beta iota delta [snd].
  rewrite <- (assoc_L (⊎)), gmultiset_size_disj_union, gmultiset_size_singleton in Hr.
  destruct (Z.ltb_spec 0 (reserved g)); [|lia]. unfold slots_inv. cbn.
  pose proof (Nat2Z.is_nonneg (size (sandboxes g))). rewrite i32_small by (unfold is_i32; lia). split; lia.
Qed.

Lemma size_insert_le (m : gmap string Sandbox) id sb : (size (<[id := sb]> m) <= S (size m))%nat.
Proof using. destruct (m !! id) eqn:E; [rewrite map_size_insert_Some by eauto; lia|rewrite map_size_insert_None by done; lia]. Qed.

Lemma safe_commit (own : gmultiset unit) id sb :
  safe (one ⊎ own) (commitReservation e id sb) (fun _ o => o = own).
Proof using Hmax.
  intros fr g t [Hr Hle]. exists own. split; [|done]. cbn beta iota delta [snd].
  rewrite <- (assoc_L (⊎)), gmultiset_size_disj_union, gmultiset_size_singleton in Hr.
  destruct (Z.ltb_spec 0 (maxSandboxes e)); [|lia]. destruct (Z.ltb_spec 0 (reserved g)); [|lia].
  unfold slots_inv. cbn. pose proof (size_insert_le (sandboxes g) id sb).
  pose proof (Nat2Z.is_nonneg (size (sandboxes g))). rewrite i32_small by (unfold is_i32; lia). split; lia.
Qed.

(** fork commits its slot or still owns it; the callers release it then. *)
Definition committed {A} (r : res engine_error A) (o : gmultiset unit) : Prop :=
  match r with Ok _ => o = ∅ | Err _ => o = one end.

Lemma safe_finish sid id rootfs opts start c vsock fnet rbs pr :
  safe one (finish_fork fields_other other_string time_text e sid id rootfs opts start c vsock fnet rbs pr) committed.
Proof using Hmax.
  unfold finish_fork. calmly. calmly. calmly. calmly. case_match. cbv zeta.
  apply safe_bind. rewrite <- (right_id_L ∅ (⊎) one). eapply safe_mono; [apply safe_commit|].
  cbn beta. intros _ o ->. calmly. by apply safe_ret.
Qed.

Lemma safe_fork_vm sid id rootfs opts start rr c :
  safe one (fork_vm fields_other other_string parse_v6 unicode_lower range_names time_text e
              sid id rootfs opts start rr c) committed.
Proof using Hmax LS.
  unfold fork_vm. cbv zeta. calmly. case_match; [|calmly; by apply safe_ret].
  calmly. case_match; [|do 2 calmly; by apply safe_ret]. case_match.
  calmly. case_match; [apply safe_finish|]. unfold cleanupFork, Cleanup. calmly. by apply safe_ret.
Qed.

Lemma safe_fork_admitted sid id rootfs opts :
  safe one (fork_admitted fields_other other_string parse_v6 unicode_lower range_names time_text e sid id rootfs opts)
    committed.
Proof using Hmax LS.
  unfold fork_admitted. cbv zeta. do 4 calmly. case_match. calmly. case_match; [apply safe_fork_vm|by apply safe_ret].
Qed.

Lemma safe_or_release {A : Type} (p : prog mem (res engine_error A)) (Q : res engine_error A -> gmultiset unit -> Prop) :
  safe one p (fun r o => match r with Ok a => Q (Ok a) o | Err _ => o = one end) ->
  (forall err, Q (Err err) ∅) -> safe one (or_release e p) Q.
Proof using Hmax.
  intros Hp HQ. unfold or_release. apply safe_bind. eapply safe_mono; [exact Hp|]. cbn beta.
  intros [a|err] o Ho; [by apply safe_ret|]. rewrite Ho, <- (right_id_L ∅ (⊎) one).
  apply safe_bind. eapply safe_mono; [apply safe_release|]. cbn beta. intros _ ? ->. by apply safe_ret.
Qed.

(** fork, entered with a slot or taking one: it keeps none. *)
Lemma safe_fork sid id rootfs opts (held : bool) :
  safe (if held then one else ∅)
    (fork fields_other other_string parse_v6 unicode_lower range_names time_text e sid id rootfs opts held)
    (fun _ o => o = ∅).
Proof using Hmax LS.
  unfold fork.
  assert (safe one (or_release e (fork_admitted fields_other other_string parse_v6 unicode_lower range_names time_text e
                                    sid id rootfs opts)) (fun _ o => o = ∅)) as Hadm.
  { apply safe_or_release; [|done]. eapply safe_mono; [apply safe_fork_admitted|]. by intros []. }
  destruct held; [exact Hadm|]. apply safe_try. eapply safe_mono; [apply safe_admitFork|]. cbn beta.
  intros [[]|err] o ->; [|done]. by rewrite (right_id_L ∅ (⊎)).
Qed.

Lemma safe_Fork sid id opts :
  safe ∅ (Fork unmarshal_other trim_other fields_other other_string parse_v6 unicode_lower range_names time_text e
            sid id opts) (fun _ o => o = ∅).
Proof using Hmax LS.
  unfold Fork. apply safe_try. eapply safe_mono; [apply safe_admitFork|]. cbn beta.
  intros [[]|err] o ->; [|done]. rewrite (right_id_L ∅ (⊎)).
  apply safe_try, safe_or_release; [|done]. eapply safe_mono; [apply safe_keeps; by walk|]. cbn beta.
  intros [[]|err] o ->; [|done]. cbv zeta. calmly. apply (safe_fork _ _ _ _ true).
Qed.

Lemma safe_fork_checkpoint src id source :
  safe ∅ (fork_checkpoint fields_other other_string parse_v6 unicode_lower range_names time_text e src id source)
    (fun _ o => o = ∅).
Proof using Hmax LS.
  pose proof (fun c mf vf => proj1 (checkpoint_foot slots c mf vf)) as Hck.
  unfold fork_checkpoint. cbv zeta. calmly. apply safe_try.
  eapply safe_mono; [apply safe_keeps; by walk|]. cbn beta. intros [[]|err] o ->; [|done].
  calmly. apply safe_bind, safe_try. eapply safe_mono; [apply safe_keeps; by walk|]. cbn beta.
  intros [[]|err] o ->; [|calmly; by apply safe_ret].
  apply safe_try. eapply safe_mono; [apply safe_keeps; by walk|]. cbn beta.
  intros [[]|err] o ->; [|calmly; by apply safe_ret].
  eapply safe_mono; [apply (safe_fork _ _ _ _ false)|]. cbn beta. intros r o ->. calmly. by apply safe_ret.
Qed.

Lemma safe_ForkRunning src id pause :
  safe ∅ (ForkRunning fields_other other_string parse_v6 unicode_lower range_names time_text e src id pause)
    (fun _ o => o = ∅).
Proof using Hmax LS.
  unfold ForkRunning, lookup_sandbox. calmly. destruct (networkEnabled e); [by apply safe_ret|].
  case_match; [|apply safe_fork_checkpoint]. unfold Pause, Resume, patch, api. calmly.
  apply safe_bind. eapply safe_mono; [apply safe_fork_checkpoint|]. cbn beta. intros r o ->. calmly. by apply safe_ret.
Qed.

Lemma safe_Terminate id : safe ∅ (Terminate trim_other other_string e id) (fun _ o => o = ∅).
Proof using LS.
  unfold Terminate. apply safe_try, safe_some_or. intros fr g t [Hr Hle]. exists ∅.
  destruct (sandboxes g !! id) as [sb|] eqn:E; cbn [fst snd]; [|done].
  split.
  - split; [exact Hr|]. cbn. rewrite (map_size_delete_Some (M := gmap string)) by eauto. lia.
  - change (safe ∅ (_ ← release_sandbox trim_other other_string e id sb; mret (Ok tt)) (λ (_ : res engine_error unit) o, o = ∅)).
    apply safe_bind. eapply safe_mono; [apply safe_keeps|]; [|intros _ o ->; by apply safe_ret].
    unfold release_sandbox, reapAdopted, return_uid, release_uid. walk; apply slots_set.
Qed.

Lemma request_keeps_slots p :
  request unmarshal_other trim_other fields_other other_string parse_v6 unicode_lower range_names time_text
    write_ok mtime parse_reference range_sandboxes e p -> safe ∅ p ends.
Proof using Hmax LS.
  assert (forall A (q : prog mem A), safe ∅ q (fun _ o => o = ∅) -> safe ∅ (discard q) ends) as Hd.
  { intros A q Hq. apply safe_bind. eapply safe_mono; [exact Hq|]. cbn beta. intros _ o ->. by apply safe_ret. }
  intros [?|?|?|?|?| | | |?]; apply Hd;
    first [apply safe_Fork | apply safe_ForkRunning | apply safe_Terminate | apply safe_keeps].
  - by eapply CreateTemplate_keeps with (P := fun _ => True); auto with prog.
  - by eapply (DeleteTemplate_foot e slots slots_view (fun _ => True)).
  - by eapply (GetCapacity_foot trim_other fields_other e slots (fun _ => True)).
  - by eapply (Metering_foot e slots (fun _ => True)).
  - unfold ListSandboxes. walk.
  - unfold SandboxPID. walk.
Qed.

End capacity.

(** C9. A node that starts within its ceiling and with no reservation outstanding
    serves any requests, forks, live forks, terminations and template
    operations in any interleaving of their critical sections and host calls,
    whatever the host answers.  At every moment the sandboxes together with the
    reservations are at most MaxSandboxes, and once every request has returned no
    reservation is left, however the forks failed: no slot is leaked and the
    ceiling is never exceeded. *)
Theorem capacity_ceiling `{LS : LawfulSeams} unmarshal_other trim_other fields_other other_string parse_v6
    unicode_lower range_names time_text write_ok mtime parse_reference range_sandboxes (e : Engine)
    (ps : list (prog mem unit)) (g : mem) (t : trace) (n : node mem) :
  0 < maxSandboxes e < 2 ^ 31 ->
  Forall (request unmarshal_other trim_other fields_other other_string parse_v6 unicode_lower range_names time_text
            write_ok mtime parse_reference range_sandboxes e) ps ->
  reserved g = 0 -> Z.of_nat (size (sandboxes g)) <= maxSandboxes e ->
  rtc (pool_step anything) (mkNode ps g t) n ->
  Z.of_nat (size (sandboxes (n_mem n))) + reserved (n_mem n) <= maxSandboxes e /\
  0 <= reserved (n_mem n) /\
  (Forall (fun p => p = Ret tt) (n_pool n) -> reserved (n_mem n) = 0).
Proof.
  intros Hmax Hps Hr Hs Hrtc.
  assert (Forall (fun p => Host.safe anything (slots_inv e) ∅ p ends) ps) as Hsafe
    by (eapply Forall_impl; [|exact Hps]; intros p; by apply request_keeps_slots).
  assert (slots_inv e ∅ g t) as HI by (split; [done|lia]).
  destruct (pool_invariant anything (slots_inv e) ps g t n Hsafe HI Hrtc) as (own & H1 & H2).
  split; [done|]. split; [lia|]. intros Hdone.
  by destruct (pool_done anything (slots_inv e) ps g t n Hsafe HI Hrtc Hdone) as [H3 _].
Qed.

End Capacity.

(** ** Uids *)

Module Uids.
Import Laws Footprints Requests Seams State Gates Fork Recovery Admin Client Backend ForkVolumes UidFacts.

Section tokens.
Variable e : Engine.

(** *** What the sandbox table holds *)

(** The uid an adopted sandbox keeps reserved. *)
Definition adopted_uid (sb : Sandbox) : option Z :=
  match fcClient sb with
  | Some _ => None
  | None => if adopted sb && (negb (sb_jailedUID sb =? 0) && Firecracker.Allocator (jailer e))
            then Some (sb_jailedUID sb) else None
  end.
Definition sb_tok (sb : Sandbox) : tok :=
  match fcClient sb with Some c => tok_of c | None => (adopted_uid sb, None) end.
Definition stored_in (m : gmap string Sandbox) : gmultiset tok :=
  map_fold (fun _ sb acc => {[+ sb_tok sb +]} ⊎ acc) ∅ m.
Definition stored (g : mem) : gmultiset tok := stored_in (sandboxes g).

Lemma stored_delete m id sb :
  m !! id = Some sb -> stored_in m = {[+ sb_tok sb +]} ⊎ stored_in (delete id m).
Proof using.
  intros Hm. unfold stored_in. rewrite (map_fold_delete_L (M := gmap string) _ _ id sb m) by (done || multiset_solver).
  done.
Qed.

Lemma stored_insert m id sb : m !! id = None -> stored_in (<[id := sb]> m) = {[+ sb_tok sb +]} ⊎ stored_in m.
Proof using.
  intros Hm. unfold stored_in. rewrite (map_fold_insert_L (M := gmap string) _ _ id sb m) by (done || multiset_solver).
  done.
Qed.

(** Storing a sandbox turns the entry it replaces, if any, into an orphan. *)
Lemma stored_replace m id sb :
  exists gone, stored_in (<[id := sb]> m) ⊎ gone = {[+ sb_tok sb +]} ⊎ stored_in m.
Proof using.
  destruct (m !! id) as [old|] eqn:E.
  - exists {[+ sb_tok old +]}. rewrite (stored_delete _ _ _ E), <- insert_delete_eq, stored_insert by apply lookup_delete_eq.
    multiset_solver.
  - exists ∅. rewrite stored_insert by done. multiset_solver.
Qed.

(** What a request owns while it handles the token; an empty one is nothing. *)
Definition hold (tk : tok) : gmultiset tok := match tk with (None, None) => ∅ | _ => {[+ tk +]} end.

Lemma core_hold tk T a t : inv_core (hold tk ⊎ T) a t <-> inv_core ({[+ tk +]} ⊎ T) a t.
Proof using. destruct tk as [[] []]; try done. unfold hold. by rewrite core_nothing, (left_id_L ∅ (⊎)). Qed.

End tokens.

Section uids.
Context `{LS : LawfulSeams}.
Variable unmarshal_other : string -> option Manifest.Manifest.
Variables (trim_other : string -> string) (fields_other : string -> list string).
Variable other_string : IP -> string.
Variable parse_v6 : string -> option IP.
Variable unicode_lower : string -> string.
Variable range_names : gmap string (list Z) -> list (string * list Z).
Variable time_text : Z -> string.
Variable write_ok : string -> bool.
Variable mtime : Z.
Variable parse_reference : string -> bool.
Variable range_sandboxes : gmap string Sandbox -> list (string * Sandbox).
Variable e : Engine.

Abbreviation Inv := (uid_inv (stored e)).
Abbreviation safe := (safe fresh_pids Inv).

Definition table (g : mem) := (sandboxes g, uids g).

Lemma table_view g g' :
  sandboxes g = sandboxes g' -> State.reserved g = State.reserved g' -> uids g = uids g' -> nets g = nets g' ->
  table g = table g'.
Proof using. unfold table. congruence. Qed.
Lemma quiet_no_proc c : quiet_call c -> no_proc c.
Proof using. by destruct c. Qed.
Lemma table_nets a g : table (set_nets a g) = table g.
Proof using. done. Qed.
#[local] Hint Resolve table_view table_nets quiet_no_proc : prog.

Lemma safe_still {A : Type} (own : gmultiset tok) (p : prog mem A) :
  calls_in no_proc p -> keeps table p -> safe own p (fun _ o => o = own).
Proof using.
  intros Hc Hk. apply calm_safe. revert Hc Hk. induction p as [a|X f k IH|c k IH]; cbn; [done| |].
  - intros Hc [Hf Hk]. split; [|intros x; by apply IH]. intros o g t [orph H]. exists orph.
    specialize (Hf g). unfold table in Hf. injection Hf as E1 E2.
    unfold stored. change (getA (f g).2) with (uids (f g).2). by rewrite E1, E2.
  - intros [Hc Hcs] Hk x. split; [|by apply IH]. intros o g t [orph H] _. exists orph. by apply core_no_proc.
Qed.

Lemma stored_setA a g : stored e (setA a g) = stored e g.
Proof using. done. Qed.

Lemma safe_kill (own : gmultiset tok) c : safe (hold (tok_of c) ⊎ own) (Kill c) (fun _ o => o = own).
Proof using.
  destruct (process c) as [pid|] eqn:E.
  - assert (hold (tok_of c) = {[+ tok_of c +]}) as -> by (unfold tok_of, hold; rewrite E; by destruct (allocator c)).
    by apply (safe_Kill (stored e) stored_setA own c pid).
  - assert (safe (hold (tok_of c)) (Kill c) (fun _ o => o = ∅)) as Hk.
    { unfold Kill, tok_of. rewrite E. apply safe_bind, safe_ret, safe_bind.
      eapply safe_mono with (Q := fun _ o => o = ∅).
      { destruct (allocator c); [by apply (safe_release_uid (stored e) stored_setA)|by apply safe_ret]. }
      intros _ o ->. apply safe_bind. eapply safe_mono; [apply safe_still; by walk|]. cbn beta.
      intros _ o ->. by apply safe_ret. }
    eapply safe_mono; [apply safe_frame, Hk|]. cbn beta. intros _ o (o' & -> & ->). by rewrite (left_id_L ∅ (⊎)).
Qed.

Ltac still := apply safe_still; by walk.
Ltac calmly := first
  [ apply safe_try; eapply safe_mono; [still|]; cbn beta; intros [?|?] ? ->; [|done]
  | apply safe_bind; eapply safe_mono; [still|]; cbn beta; intros ? ? -> ].
(** A kill of the client the request owns. *)
Ltac kills := apply safe_bind; eapply safe_mono; [apply safe_kill|]; cbn beta; intros ? ? ->.

Lemma safe_store (id : string) (sb : Sandbox) (c : Client) (own : gmultiset tok) :
  fcClient sb = Some c -> safe (hold (tok_of c) ⊎ own) (commitReservation e id sb) (fun _ o => o = own).
Proof using.
  intros Hc fr g t [orph HI]. exists own. split; [|done]. cbn beta iota delta [snd].
  destruct (stored_replace e (sandboxes g) id sb) as [gone Hs].
  exists (gone ⊎ orph).
  assert (forall g', sandboxes g' = <[id := sb]> (sandboxes g) -> uids g' = uids g ->
            inv_core (own ⊎ fr ⊎ (stored e g' ⊎ (gone ⊎ orph))) (getA g') t) as Hg.
  { intros g' E1 E2. unfold stored. change (getA g') with (uids g'). rewrite E1, E2.
    assert (own ⊎ fr ⊎ (stored_in e (<[id:=sb]> (sandboxes g)) ⊎ (gone ⊎ orph)) =
            {[+ tok_of c +]} ⊎ (own ⊎ fr ⊎ (stored_in e (sandboxes g) ⊎ orph))) as ->.
    { assert (sb_tok e sb = tok_of c) as Et by (unfold sb_tok; by rewrite Hc). rewrite Et in Hs. clear -Hs. multiset_solver. }
    apply core_hold. by rewrite <- !(assoc_L (⊎)) in *. }
  destruct ((0 <? maxSandboxes e) && _); by apply Hg.
Qed.

Lemma safe_launched id rootfs opts start c sid vsock fnet rbs pr :
  safe (hold (tok_of c))
    (finish_fork fields_other other_string time_text e sid id rootfs opts start c vsock fnet rbs pr) (fun _ o => o = ∅).
Proof using.
  unfold finish_fork. do 4 calmly. case_match. cbv zeta.
  apply safe_bind. rewrite <- (right_id_L ∅ (⊎) (hold _)). eapply safe_mono; [by apply safe_store|].
  cbn beta. intros _ o ->. calmly. by apply safe_ret.
Qed.

Lemma load_calls c mf vf ov rr rbs : calls_in no_proc (load_and_resume c mf vf ov rr rbs).
Proof using. unfold load_and_resume, LoadSnapshotWithOverrides, PatchDrive, Resume, put, patch, api. walk. Qed.
#[local] Hint Resolve load_calls : prog.

Lemma safe_vm sid id rootfs opts start rr c :
  safe (hold (tok_of c)) (fork_vm fields_other other_string parse_v6 unicode_lower range_names time_text e
                  sid id rootfs opts start rr c) (fun _ o => o = ∅).
Proof using LS.
  unfold fork_vm. cbv zeta. calmly.
  case_match; [|rewrite <- (right_id_L ∅ (⊎) (hold _)); kills; by apply safe_ret].
  calmly. case_match; [|rewrite <- (right_id_L ∅ (⊎) (hold _)); kills; calmly; by apply safe_ret]. case_match.
  calmly. case_match; [apply safe_launched|]. rewrite <- (right_id_L ∅ (⊎) (hold _)).
  unfold cleanupFork, Cleanup. apply safe_bind. kills. do 3 calmly. apply safe_ret. by apply safe_ret.
Qed.

(** A successful launch leaves the request with the client's token. *)
Lemma safe_start_vm cfg :
  safe ∅ (StartVM cfg) (fun r o => match r with Ok c => o = hold (tok_of c) | Err _ => o = ∅ end).
Proof using.
  eapply safe_mono; [apply (safe_StartVM_empty (stored e) stored_setA)|]. cbn beta. intros [c|err] o; [|done].
  intros [-> [pid Hp]]. unfold tok_of, hold. rewrite Hp. by destruct (allocator c).
Qed.

Lemma safe_admitted sid id rootfs opts :
  safe ∅ (fork_admitted fields_other other_string parse_v6 unicode_lower range_names time_text e sid id rootfs opts)
    (fun _ o => o = ∅).
Proof using LS.
  unfold fork_admitted. cbv zeta. do 4 calmly. case_match. apply safe_bind.
  eapply safe_mono; [apply safe_start_vm|]. cbn beta. intros [c|err] o1 ->; [apply safe_vm|by apply safe_ret].
Qed.

Definition nothing {A} (_ : A) (o : gmultiset tok) : Prop := o = ∅.

Lemma uid_or_release {A : Type} (p : prog mem (res engine_error A)) : safe ∅ p nothing -> safe ∅ (or_release e p) nothing.
Proof using.
  intros Hp. unfold or_release, releaseReservation. apply safe_bind. eapply safe_mono; [exact Hp|]. cbn beta.
  intros [a|err] o ->; [by apply safe_ret|]. apply safe_bind. eapply safe_mono; [apply safe_still; [by walk|]|].
  { destruct (maxSandboxes e <=? 0); [by walk|]. apply keeps_modify. intros g. by destruct (0 <? State.reserved g). }
  cbn beta. intros _ o ->. by apply safe_ret.
Qed.

Lemma admit_keeps : keeps table (admitFork e).
Proof using.
  unfold admitFork. destruct (maxSandboxes e <=? 0); [by walk|]. apply keeps_atomic. intros g.
  by destruct (maxSandboxes e <=? _).
Qed.
Lemma admit_calls : calls_in no_proc (admitFork e).
Proof using. unfold admitFork. by walk. Qed.
#[local] Hint Resolve admit_keeps admit_calls : prog.

Lemma safe_forked sid id rootfs opts held :
  safe ∅ (fork fields_other other_string parse_v6 unicode_lower range_names time_text e sid id rootfs opts held) nothing.
Proof using LS. unfold fork. calmly. apply uid_or_release, safe_admitted. Qed.

Lemma uid_Fork sid id opts :
  safe ∅ (Fork unmarshal_other trim_other fields_other other_string parse_v6 unicode_lower range_names time_text e
            sid id opts) nothing.
Proof using LS.
  unfold Fork. calmly. apply safe_try. eapply safe_mono; [apply uid_or_release, safe_still; by walk|].
  intros [?|?] ? ->; [|done]. cbv zeta. calmly. apply safe_forked.
Qed.

Lemma safe_checkpoint src id source :
  safe ∅ (fork_checkpoint fields_other other_string parse_v6 unicode_lower range_names time_text e src id source) nothing.
Proof using LS.
  pose proof (fun c mf vf => proj1 (checkpoint_foot table c mf vf)) as H1.
  pose proof (fun c mf vf => proj2 (checkpoint_foot table c mf vf)) as H2.
  unfold fork_checkpoint. cbv zeta. calmly. apply safe_try.
  eapply safe_mono; [still|]. cbn beta. intros [?|?] ? ->; [|done].
  calmly. apply safe_bind, safe_try. eapply safe_mono; [still|]. cbn beta.
  intros [?|?] ? ->; [|calmly; by apply safe_ret].
  apply safe_try. eapply safe_mono; [still|]. cbn beta. intros [?|?] ? ->; [|calmly; by apply safe_ret].
  eapply safe_mono; [apply (safe_forked _ _ _ _ false)|]. cbn beta. intros ? ? ->. calmly. by apply safe_ret.
Qed.

Lemma uid_ForkRunning src id pause :
  safe ∅ (ForkRunning fields_other other_string parse_v6 unicode_lower range_names time_text e src id pause) nothing.
Proof using LS.
  unfold ForkRunning, lookup_sandbox. calmly. destruct (networkEnabled e); [by apply safe_ret|].
  case_match; [|apply safe_checkpoint]. unfold Pause, Resume, patch, api. calmly.
  apply safe_bind. eapply safe_mono; [apply safe_checkpoint|]. cbn beta. intros ? ? ->. calmly. by apply safe_ret.
Qed.

(** *** Termination *)

Lemma safe_reap sb :
  fcClient sb = None -> adopted sb = true -> safe (hold (sb_tok e sb)) (reapAdopted trim_other e sb) nothing.
Proof using.
  intros Hc Ha. unfold reapAdopted, return_uid, sb_tok, adopted_uid. rewrite Hc, Ha. cbn [andb]. do 2 calmly.
  destruct (negb (sb_jailedUID sb =? 0) && _); [by apply (safe_release_uid (stored e) stored_setA)|by apply safe_ret].
Qed.

Lemma safe_release_sandbox id sb :
  safe (hold (sb_tok e sb)) (release_sandbox trim_other other_string e id sb) nothing.
Proof using LS.
  unfold release_sandbox. apply safe_bind. eapply safe_mono with (Q := nothing).
  - destruct (fcClient sb) as [c|] eqn:Hc.
    + unfold sb_tok. rewrite Hc, <- (right_id_L ∅ (⊎) (hold _)). kills. by apply safe_ret.
    + destruct (adopted sb) eqn:Ha; [by apply safe_reap|]. apply safe_ret. unfold sb_tok, adopted_uid. by rewrite Hc, Ha.
  - intros _ o ->. do 3 calmly. eapply safe_mono; [still|]. by intros ? ? ->.
Qed.

Lemma uid_Terminate id : safe ∅ (Terminate trim_other other_string e id) nothing.
Proof using LS.
  unfold Terminate. apply safe_try, safe_some_or. intros fr g t [orph HI].
  destruct (sandboxes g !! id) as [sb|] eqn:E; cbn [fst snd];
    [|exists (∅ : gmultiset tok); split; [by exists orph|done]].
  exists (hold (sb_tok e sb)). split.
  - exists orph. change (getA (set_sandboxes (delete id (sandboxes g)) g)) with (uids g).
    unfold stored in *. cbn [sandboxes set_sandboxes]. rewrite <- (assoc_L (⊎)). apply core_hold.
    rewrite (stored_delete e _ _ _ E) in HI.
    assert ({[+ sb_tok e sb +]} ⊎ (fr ⊎ (stored_in e (delete id (sandboxes g)) ⊎ orph)) =
            ∅ ⊎ fr ⊎ ({[+ sb_tok e sb +]} ⊎ stored_in e (delete id (sandboxes g)) ⊎ orph)) as ->; [clear; multiset_solver|done].
  - change (safe (hold (sb_tok e sb)) (_ ← release_sandbox trim_other other_string e id sb; mret (Ok tt : res engine_error unit)) nothing).
    apply safe_bind. eapply safe_mono; [apply safe_release_sandbox|]. intros _ o ->. by apply safe_ret.
Qed.

(** *** Template builds *)

Lemma safe_build_vm tm id cfg init :
  safe ∅ (Template.CreateTemplate tm id cfg init) nothing.
Proof using.
  unfold Template.CreateTemplate, Jail.copyFile. destruct (negb _); [by apply safe_ret|]. cbv zeta. do 2 calmly.
  apply safe_try. eapply safe_mono; [still|]. cbn beta. intros [?|?] ? ->; [|done].
  apply safe_try. eapply safe_mono; [apply safe_start_vm|]. cbn beta. intros [c|err] o1 ->; [|done].
  apply safe_bind. eapply safe_mono; [apply safe_still; [apply TemplateFacts.configure_quiet|apply configure_keeps]|].
  cbn beta. intros r o2 ->. rewrite <- (right_id_L ∅ (⊎) (hold _)). kills. by apply safe_ret.
Qed.

Lemma safe_build_template id cfg init specs :
  safe ∅ (build_template write_ok mtime e id cfg init specs) nothing.
Proof using.
  pose proof (fun r i s => proj1 (seed_volumes_foot table no_proc quiet_no_proc r i s)) as H1.
  pose proof (fun r i s => proj2 (seed_volumes_foot table no_proc quiet_no_proc r i s)) as H2.
  pose proof (fun i m => recordTemplateDigest_foot e table table_view no_proc quiet_no_proc write_ok mtime i m) as H3.
  pose proof (fun i m => proj1 (H3 i m)) as H4. pose proof (fun i m => proj2 (H3 i m)) as H5.
  unfold build_template. calmly. cbv zeta. apply safe_bind. eapply safe_mono; [apply safe_build_vm|].
  intros [b|err] o1 ->; [|by apply safe_ret]. calmly. case_match; [|by apply safe_ret]. calmly. by apply safe_ret.
Qed.

Lemma safe_CreateTemplate id image init specs :
  safe ∅ (CreateTemplate write_ok mtime parse_reference e id image init specs) nothing.
Proof using LS.
  pose proof (fun i p vs => proj1 (container_foot e table table_view no_proc quiet_no_proc i p vs)) as H1.
  pose proof (fun i p vs => proj2 (container_foot e table table_view no_proc quiet_no_proc i p vs)) as H2.
  pose proof (fun i => proj1 (shred_foot e table table_view no_proc quiet_no_proc i)) as H3.
  pose proof (fun i => proj2 (shred_foot e table table_view no_proc quiet_no_proc i)) as H4.
  pose proof (fun i => proj1 (isImageRef_foot table no_proc quiet_no_proc parse_reference i)) as H5.
  pose proof (fun i => proj2 (isImageRef_foot table no_proc quiet_no_proc parse_reference i)) as H6.
  assert (forall cfg, safe ∅ (build_encrypted write_ok mtime e id cfg init specs) nothing) as He.
  { intros cfg. unfold build_encrypted. destruct (encryptionEnabled e); [|apply safe_build_template]. calmly.
    apply safe_bind. eapply safe_mono; [apply safe_build_template|]. intros [?|?] ? ->; [by apply safe_ret|].
    calmly. by apply safe_ret. }
  assert (forall cfg, safe ∅ (build_networked write_ok mtime e id cfg init specs) nothing) as Hn.
  { intros cfg. unfold build_networked. destruct (networkEnabled e); [|apply He]. calmly.
    apply safe_bind. eapply safe_mono; [apply He|]. intros ? ? ->. calmly. by apply safe_ret. }
  unfold CreateTemplate. cbv zeta. calmly. case_match; [|apply Hn]. do 2 calmly. apply safe_bind, safe_try.
  eapply safe_mono; [still|]. cbn beta. intros [?|?] ? ->; [|calmly; by apply safe_ret].
  eapply safe_mono; [apply Hn|]. intros ? ? ->. calmly. by apply safe_ret.
Qed.

Lemma request_keeps_uids p :
  request unmarshal_other trim_other fields_other other_string parse_v6 unicode_lower range_names time_text
    write_ok mtime parse_reference range_sandboxes e p -> safe ∅ p ends.
Proof using LS.
  assert (forall A (q : prog mem A), safe ∅ q nothing -> safe ∅ (discard q) ends) as Hd.
  { intros A q Hq. apply safe_bind. eapply safe_mono; [exact Hq|]. intros _ o ->. by apply safe_ret. }
  intros [?|?|?|?|?| | | |?]; apply Hd;
    first [apply uid_Fork | apply uid_ForkRunning | apply uid_Terminate | apply safe_CreateTemplate | apply safe_still].
  - by eapply (DeleteTemplate_foot e table table_view no_proc quiet_no_proc).
  - by eapply (DeleteTemplate_foot e table table_view no_proc quiet_no_proc).
  - by eapply (GetCapacity_foot trim_other fields_other e table no_proc quiet_no_proc).
  - by eapply (GetCapacity_foot trim_other fields_other e table no_proc quiet_no_proc).
  - by eapply (Metering_foot e table no_proc quiet_no_proc).
  - by eapply (Metering_foot e table no_proc quiet_no_proc).
  - unfold ListSandboxes. by walk.
  - unfold ListSandboxes. by walk.
  - unfold SandboxPID. by walk.
  - unfold SandboxPID. by walk.
Qed.

End uids.

(** *** The theorem *)

(** The table as a restarted daemon finds it: adopted sandboxes only, their uids
    marked and distinct. *)
Definition recovered (e : Engine) (g : mem) : Prop :=
  (forall id sb, sandboxes g !! id = Some sb ->
     fcClient sb = None /\ forall u, adopted_uid e sb = Some u -> u ∈ Uid.inUse (uids g)) /\
  (forall id id' sb sb' u, sandboxes g !! id = Some sb -> sandboxes g !! id' = Some sb' ->
     adopted_uid e sb = Some u -> adopted_uid e sb' = Some u -> id = id').

Lemma in_option_list {A} (o : option A) x : x ∈ option_list o <-> o = Some x.
Proof. destruct o as [y|]; cbn; [rewrite list_elem_of_singleton|]; [naive_solver|split; [intros []%elem_of_nil|done]]. Qed.

Lemma stored_uid e m u :
  u ∈ tok_uids (stored_in e m) <-> exists id sb, m !! id = Some sb /\ (sb_tok e sb).1 = Some u.
Proof.
  induction m as [|id sb m Hid IH] using map_ind.
  - split; [|by intros (? & ? & Hm & _); rewrite lookup_empty in Hm].
    unfold stored_in. rewrite map_fold_empty. intros Hu. by apply elem_of_nil in Hu.
  - rewrite stored_insert, tok_uids_add, elem_of_app, IH by done. split.
    + intros [Hu|(i & s & Hi & Hu)].
      * exists id, sb. rewrite lookup_insert_eq. split; [done|]. by apply in_option_list.
      * exists i, s. rewrite lookup_insert_ne by congruence. done.
    + intros (i & s & Hi & Hu). destruct (decide (i = id)) as [->|Hne].
      * rewrite lookup_insert_eq in Hi. simplify_eq. left. by apply in_option_list.
      * rewrite lookup_insert_ne in Hi by congruence. right. eauto.
Qed.

Lemma recovered_core e g : recovered e g -> inv_core (stored e g) (uids g) [].
Proof.
  unfold recovered, stored. generalize (uids g) as a. induction (sandboxes g) as [|id sb m Hid IH] using map_ind;
    intros a [H1 H2].
  - unfold stored_in. rewrite map_fold_empty. split; try done; try constructor.
    intros u Hu. by apply elem_of_nil in Hu.
  - destruct (IH a) as [I1 I2 I3 I4].
    { split.
      - intros i s Hi. apply (H1 i). rewrite lookup_insert_ne by congruence. done.
      - intros i i' s s' u Hi Hi'. apply H2; rewrite lookup_insert_ne by congruence; done. }
    destruct (H1 id sb (lookup_insert_eq _ _ _)) as [Hc Hu].
    assert (sb_tok e sb = (adopted_uid e sb, None)) as Et by (unfold sb_tok; by rewrite Hc).
    rewrite stored_insert, Et by done. destruct (adopted_uid e sb) as [u|] eqn:Eu; [|by apply core_nothing].
    split; [| |done|].
    + rewrite tok_uids_add. apply list.NoDup_cons. split; [|done]. intros (i & s & Hi & Hs)%stored_uid.
      destruct (H1 i s) as [Hc' _]; [by rewrite lookup_insert_ne by congruence|].
      assert (adopted_uid e s = Some u) by (revert Hs; unfold sb_tok; by rewrite Hc').
      assert (i = id) by (eapply H2; [by rewrite lookup_insert_ne by congruence|apply lookup_insert_eq|done|done]). congruence.
    + intros w. rewrite tok_uids_add. intros [Hw|Hw]%elem_of_app; [|by apply I2].
      apply Hu. by apply list_elem_of_singleton in Hw as ->.
    + by rewrite tok_procs_add.
Qed.

(** A process of the invariant runs under a uid of the tokens. *)
Lemma proc_uid T s :
  Some s ∈ (tok_procs T).*2 -> exists u, s = format_d u /\ u ∈ tok_uids T.
Proof.
  intros ([pid o] & Ho & Hp)%list_elem_of_fmap. cbn in Ho. subst o. unfold tok_procs in Hp.
  apply list_elem_of_omap in Hp as ([ou op] & Hin & Ht). unfold tok_proc in Ht. cbn in Ht.
  destruct op as [q|]; [|done]. cbn in Ht. injection Ht as _ Hu. destruct ou as [u|]; [|done].
  injection Hu as <-. exists u. split; [done|]. unfold tok_uids. apply list_elem_of_omap. by exists (Some u, Some q).
Qed.

(** C8. A restarted node whose adopted sandboxes keep distinct uids serves any
    requests in any interleaving; process ids the host hands out are not those of
    live processes.  At every moment the jailed VMs that run have pairwise
    distinct [--uid] arguments, each of those uids is marked in use, and none of
    them is the uid of an adopted sandbox still in the table: no VM can signal,
    trace or read the files of another one by sharing its uid. *)
Theorem uids_exclusive `{LS : LawfulSeams} unmarshal_other trim_other fields_other other_string parse_v6
    unicode_lower range_names time_text write_ok mtime parse_reference range_sandboxes (e : Engine)
    (ps : list (prog mem unit)) (g : mem) (n : node mem) :
  Forall (request unmarshal_other trim_other fields_other other_string parse_v6 unicode_lower range_names time_text
            write_ok mtime parse_reference range_sandboxes e) ps ->
  recovered e g ->
  rtc (pool_step fresh_pids) (mkNode ps g []) n ->
  NoDup (omap snd (procs (n_trace n))) /\
  (forall s, Some s ∈ (procs (n_trace n)).*2 -> exists u, s = format_d u /\ u ∈ Uid.inUse (uids (n_mem n))) /\
  (forall id sb u, sandboxes (n_mem n) !! id = Some sb -> adopted_uid e sb = Some u ->
     Some (format_d u) ∉ (procs (n_trace n)).*2).
Proof.
  intros Hps Hrec Hrtc.
  assert (Forall (fun p => Host.safe fresh_pids (uid_inv (stored e)) ∅ p ends) ps) as Hsafe
    by (eapply Forall_impl; [|exact Hps]; intros p; by apply request_keeps_uids).
  assert (uid_inv (stored e) ∅ g []) as HI.
  { exists ∅. rewrite (left_id_L ∅ (⊎)), (right_id_L ∅ (⊎)). by apply recovered_core. }
  destruct (pool_invariant fresh_pids (uid_inv (stored e)) ps g [] n Hsafe HI Hrtc) as (own & orph & Hcore).
  destruct Hcore as [C1 C2 C3 C4] eqn:E. clear E. split; [by eapply core_distinct|].
  assert (forall x, x ∈ (procs (n_trace n)).*2 -> x ∈ (tok_procs (own ⊎ (stored e (n_mem n) ⊎ orph))).*2) as Hin
    by (intros x; by rewrite C4).
  split.
  - intros s (u & -> & Hu)%Hin%proc_uid. exists u. split; [done|]. by apply C2.
  - intros id sb u Hid Hu.
    assert (fcClient sb = None) as Hc by (revert Hu; unfold adopted_uid; by destruct (fcClient sb)).
    assert (sb_tok e sb = (Some u, None)) as Et by (unfold sb_tok; by rewrite Hc, Hu).
    pose proof (stored_delete e (sandboxes (n_mem n)) id sb Hid) as Hd. rewrite Et in Hd. unfold stored in *.
    set (T := own ⊎ (stored_in e (delete id (sandboxes (n_mem n))) ⊎ orph)).
    assert (own ⊎ (stored_in e (sandboxes (n_mem n)) ⊎ orph) = {[+ (Some u, None) +]} ⊎ T) as ET
      by (rewrite Hd; subst T; clear; multiset_solver).
    rewrite ET in *. rewrite tok_uids_add in C1. apply list.NoDup_cons in C1 as [Hn _].
    intros Hs%Hin. rewrite tok_procs_add in Hs. apply proc_uid in Hs as (u' & Hf & Hu'). unfold format_d in Hf. apply (inj _) in Hf. by subst.
Qed.

End Uids.

(** ** Examples *)

Module SafetyExamples.
Import UidFacts Laws Requests Capacity Uids Seams Gates Fork Recovery Admin State.

(** The Linux network manager, LUKS containers, the local key-encryption key and the
    image builder. *)
#[local] Instance ex_nm : NetManager mem :=
  linuxManager (fun _ => EmptyString) (fun s => s) (Apply.mkApplyOptions EmptyString EmptyString false).
#[local] Instance ex_kp : KeyProvider mem := requestKeys (Some (Kms.local_wrapper KmsExamples.the_kek)).
#[local] Instance ex_cm : ContainerManager mem := storecryptManager "/var/lib/mitos".
#[local] Instance ex_ib : ImageBuilder mem := ociBuilder.

#[local] Instance ex_lawful : LawfulSeams.
Proof.
  assert (forall k w, Some (Kms.local_wrapper KmsExamples.the_kek) = Some k -> quiet (Kms.w_Unwrap k w)) as Hk
    by (intros k w [= <-]; apply local_unwrap_quiet).
  split; intros;
    first [ apply linux_Setup_quiet | apply run_all_quiet | by apply (requestKeys_quiet _ _ Hk)
          | apply image_build_quiet | apply quiet_succeeded, storecrypt_quiet; exact [] || exact 0 ].
Defined.

Definition ex_env : Snapcompat.Environment := Snapcompat.mkEnvironment [1] EmptyString EmptyString EmptyString.
Definition ex_engine (max : Z) : Engine :=
  mkEngine (Verify.mkConfig "/var/lib/mitos" "/boot/vmlinux" ex_env true true) "/usr/bin/firecracker"
    FcExamples.ex_jailer false false [] false false false None false false false max 0
    (Some "/var/lib/mitos/sandboxes") true EmptyString EmptyString.

Definition ex_tpl : tplmem := mkTplmem (Store.MkStore ∅ ∅ ∅) ∅ ∅ ∅ ∅ ∅.
Definition ex_mem (sbs : gmap string Sandbox) (a : Uid.UIDAllocator) : mem :=
  mkMem sbs 0 10000 a Startup.nil_allocator Reg.NewRegistry ex_tpl.

(** A host on which every call succeeds and every process has a new pid. *)
Definition host : env Z := fun c now =>
  match c return answer c * Z with
  | CStart _ _ _ => (Some (1000 + now), now + 1)
  | c => obliging c now
  end.

Definition ex_fork (e : Engine) (id : string) : prog mem unit :=
  discard (Fork (fun _ => None) (fun s => s) (fun _ => []) (fun _ => EmptyString) (fun _ => None) (fun s => s)
             map_to_list (fun _ => EmptyString) e "py" id no_opts).
Definition ex_served (e : Engine) : prog mem unit -> Prop :=
  request (fun _ => None) (fun s => s) (fun _ => []) (fun _ => EmptyString) (fun _ => None) (fun s => s)
    map_to_list (fun _ => EmptyString) (fun _ => true) 0 (fun _ => false) map_to_list e.

(** A ceiling of one: the first fork takes the slot, the second is refused. *)
Lemma capacity_ceiling_witness :
  let e := ex_engine 1 in
  let p := ex_fork e "a" in
  let g := ex_mem ∅ FcExamples.ex_uids in
  0 < maxSandboxes e < 2 ^ 31 /\
  exists n, rtc (pool_step anything) (mkNode [p; ex_fork e "b"] g []) n /\
    Forall (fun p => p = Ret tt) (n_pool n) /\
    size (sandboxes (n_mem n)) = 1%nat /\
    Z.of_nat (size (sandboxes (n_mem n))) + reserved (n_mem n) <= maxSandboxes e /\
    0 <= reserved (n_mem n) /\
    (Forall (fun p => p = Ret tt) (n_pool n) -> reserved (n_mem n) = 0).
Proof.
  intros e p g. split; [split; reflexivity|].
  pose proof (run_pool (G := mem) anything host [p; ex_fork e "b"] 0 p g 0 [] eq_refl) as H1.
  destruct (run host p g 0) as [[[[] g1] o1] t1] eqn:E1. specialize (H1 ltac:(done)).
  pose proof (run_pool (G := mem) anything host [Ret tt; ex_fork e "b"] 1 (ex_fork e "b") g1 o1 t1 eq_refl) as H2.
  destruct (run host (ex_fork e "b") g1 o1) as [[[[] g2] o2] t2] eqn:E2. specialize (H2 ltac:(done)).
  exists (mkNode [Ret tt; Ret tt] g2 (t1 ++ t2)).
  assert (rtc (pool_step anything) (mkNode [p; ex_fork e "b"] g []) (mkNode [Ret tt; Ret tt] g2 (t1 ++ t2))) as Hr
    by (etrans; [exact H1|exact H2]).
  split; [exact Hr|]. split; [by repeat constructor|]. split.
  - assert (g2 = (run host (ex_fork e "b") (run host p g 0).1.1.2 (run host p g 0).1.2).1.1.2) as -> by (rewrite E1; cbn [fst snd]; by rewrite E2).
    vm_compute. reflexivity.
  - assert (Forall (ex_served e) [p; ex_fork e "b"]) as Hs by (repeat constructor).
    refine (capacity_ceiling _ _ _ _ _ _ _ _ _ _ _ _ e _ g [] _ _ Hs _ _ Hr); [done|done|by vm_compute].
Defined.

(** A trace whose process ids can be checked to be new. *)
Fixpoint pids_ok (l : list (Z * option string)) (t : trace) : bool :=
  match t with
  | [] => true
  | ev :: t =>
      match ev with Ev (CStart _ _ _) (Some pid) => bool_decide (pid ∉ l.*1) | _ => true end
      && pids_ok (proc_step l ev) t
  end.

Lemma pids_ok_obeys t0 t : pids_ok (procs t0) t = true -> obeys fresh_pids t0 t.
Proof.
  revert t0. induction t as [|ev t IH]; intros t0 H pre c x post Heq; [by destruct pre|].
  cbn [pids_ok] in H. apply andb_true_iff in H as [He Ht]. destruct pre as [|ev' pre].
  - injection Heq as -> _. rewrite app_nil_r. destruct c; try done.
    intros pid Hx. rewrite Hx in He. by apply bool_decide_eq_true in He.
  - injection Heq as <- ->. rewrite <- procs_snoc in Ht. specialize (IH _ Ht pre c x post eq_refl).
    by rewrite <- app_assoc in IH.
Qed.

(** An adopted sandbox under uid 10000, and its allocator. *)
Definition ex_adopted : Sandbox :=
  mkSandbox "old" "py" "py" "127.0.0.1:10000" 77 EmptyString 0 0 None EmptyString EmptyString no_identity false []
    EmptyString EmptyString 10000 true "/usr/bin/firecracker".
Definition ex_restarted : mem := ex_mem {["old" := ex_adopted]} (Uid.MarkInUse 10000 FcExamples.ex_uids).

Lemma ex_recovered : recovered (ex_engine 10) ex_restarted.
Proof.
  unfold recovered. change (sandboxes ex_restarted) with ({["old" := ex_adopted]} : gmap string Sandbox). split.
  - intros id sb [_ <-]%lookup_singleton_Some. split; [done|]. intros u [= <-].
    apply (bool_decide_unpack _). vm_compute. exact I.
  - by intros id id' sb sb' u [<- _]%lookup_singleton_Some [<- _]%lookup_singleton_Some.
Qed.

(** Two forks beside it run under uids of their own. *)
Lemma uids_exclusive_witness :
  let e := ex_engine 10 in
  exists n, rtc (pool_step fresh_pids) (mkNode [ex_fork e "a"; ex_fork e "b"] ex_restarted []) n /\
    length (procs (n_trace n)) = 2%nat /\
    NoDup (omap snd (procs (n_trace n))) /\
    (forall s, Some s ∈ (procs (n_trace n)).*2 -> exists u, s = format_d u /\ u ∈ Uid.inUse (uids (n_mem n))) /\
    (forall id sb u, sandboxes (n_mem n) !! id = Some sb -> adopted_uid e sb = Some u ->
       Some (format_d u) ∉ (procs (n_trace n)).*2).
Proof.
  intros e. set (p := ex_fork e "a"). set (q := ex_fork e "b").
  pose proof (run_pool fresh_pids host [p; q] 0 p ex_restarted 0 [] eq_refl) as H1.
  assert (pids_ok [] (run host p ex_restarted 0).2 = true) as K1 by (vm_compute; reflexivity).
  assert (let r := run host p ex_restarted 0 in pids_ok (procs r.2) (run host q r.1.1.2 r.1.2).2 = true) as K2
    by (vm_compute; reflexivity).
  assert (let r := run host p ex_restarted 0 in length (procs (r.2 ++ (run host q r.1.1.2 r.1.2).2)) = 2%nat) as K3
    by (vm_compute; reflexivity).
  destruct (run host p ex_restarted 0) as [[[[] g1] o1] t1]. specialize (H1 (pids_ok_obeys [] t1 K1)).
  pose proof (run_pool fresh_pids host [Ret tt; q] 1 q g1 o1 t1 eq_refl) as H2. cbn [fst snd] in K2, K3.
  destruct (run host q g1 o1) as [[[[] g2] o2] t2]. specialize (H2 (pids_ok_obeys t1 t2 K2)).
  exists (mkNode [Ret tt; Ret tt] g2 (t1 ++ t2)).
  assert (rtc (pool_step fresh_pids) (mkNode [p; q] ex_restarted []) (mkNode [Ret tt; Ret tt] g2 (t1 ++ t2))) as Hr
    by (etrans; [exact H1|exact H2]).
  split; [exact Hr|]. split; [exact K3|].
  assert (Forall (ex_served e) [p; q]) as Hs by (repeat constructor).
  exact (uids_exclusive _ _ _ _ _ _ _ _ _ _ _ _ e _ ex_restarted _ Hs ex_recovered Hr).
Defined.

End SafetyExamples.
