(* ===== verification/EngineFork.v ===== *)
(** What one fork and one termination do, whatever the host answers.

    - [Traffic]: the calls on a forked VM: it is loaded paused, its disks are
      rebound to its own copies, and only then it is resumed.
    - [Ledger]: what a fork and a termination leave of sandboxes, slots, uids,
      addresses and processes. *)
From S2P Require Import Prelude GoLib GoFs GoJson Netconf Nftables DnsProxy Cas Sha256 Host Firecracker Volume Verify Metering Journal Engine EngineSafety.
#[local] Open Scope go_scope.

(** ** The calls on a forked VM *)

Module Traffic.
Import Laws Footprints Seams State Gates Fork Recovery Admin Client Backend ForkVolumes VolumeFacts.

(** A request to the API of a VM, and whether it succeeded. *)
Abbreviation request_t := (string * http_method * string * body)%type.
Definition api_of (ev : event) : option (request_t * bool) :=
  match ev with
  | Ev (CApi sock m p b) x => Some ((sock, m, p, b), match x with Some st => st <? 400 | None => false end)
  | _ => None
  end.
Definition apis (t : trace) : list (request_t * bool) := omap api_of t.

(** The plan is carried out step by step up to the first failure. *)
Fixpoint follows (plan : list request_t) (xs : list (request_t * bool)) (ok : bool) : Prop :=
  match plan, xs with
  | [], [] => ok = true
  | s :: plan, (s', b) :: xs => s' = s /\ if b then follows plan xs ok else xs = [] /\ ok = false
  | _, _ => False
  end.

Definition rebind (sock : string) (rb : driveRebind) : request_t :=
  (sock, MPatch, "/drives/" +:+ rb_DriveID rb, BDrivePatch (mkDrivePatch (rb_DriveID rb) (rb_PathOnHost rb))).
Definition load_step (sock memFile vmStateFile : string) (overrides : list NetworkOverride) : request_t :=
  (sock, MPut, "/snapshot/load", BSnapshotLoad (mkSnapshotLoad vmStateFile memFile false false overrides)).
Definition resume_step (sock : string) : request_t := (sock, MPatch, "/vm", BVMState "Resumed").

(** Load paused, rebind the root disk and the volumes, resume. *)
Definition plan (sock memFile vmStateFile : string) (overrides : list NetworkOverride)
    (rootfs : option driveRebind) (volumes : list driveRebind) : list request_t :=
  load_step sock memFile vmStateFile overrides
    :: map (rebind sock) (option_list rootfs ++ volumes) ++ [resume_step sock].

Definition done_ (l : list request_t) (t : trace) : Prop := apis t = map (fun s => (s, true)) l.

Lemma follows_all l : follows l (map (fun s => (s, true)) l) true.
Proof. induction l; cbn; auto. Qed.
Lemma follows_fail l s rest : follows (l ++ s :: rest) (map (fun s => (s, true)) l ++ [(s, false)]) false.
Proof. induction l; cbn; auto. Qed.

Lemma apis_snoc t ev : apis (t ++ [ev]) = apis t ++ option_list (api_of ev).
Proof. unfold apis. rewrite omap_app. cbn. by destruct (api_of ev). Qed.

Definition no_api (c : call) : Prop := match c with CApi _ _ _ _ => False | _ => True end.
Lemma quiet_no_api c : quiet_call c -> no_api c.
Proof. by destruct c. Qed.
#[local] Hint Resolve quiet_no_api : prog.

Lemma apis_silent t ext : Forall (fun ev => no_api (ev_call ev)) ext -> apis (t ++ ext) = apis t.
Proof.
  intros Hext. unfold apis. rewrite omap_app.
  assert (omap api_of ext = []) as ->; [|by rewrite app_nil_r].
  induction Hext as [|[c x] ext Hc _ IH]; [done|]. cbn. by destruct c.
Qed.

Section traffic.
Context `{LS : LawfulSeams}.
Variable unmarshal_other : string -> option Manifest.Manifest.
Variables (trim_other : string -> string) (fields_other : string -> list string).
Variable other_string : IP -> string.
Variable parse_v6 : string -> option IP.
Variable unicode_lower : string -> string.
Variable range_names : gmap string (list Z) -> list (string * list Z).
Variable time_text : Z -> string.
Variable e : Engine.

Abbreviation wp := (wp anything).

Lemma wp_silent {A} (p : prog mem A) g t :
  calls_in no_api p -> wp p (fun _ _ t' => apis t' = apis t) g t.
Proof using.
  intros Hc. eapply wp_mono; [by apply wp_calls|]. cbn beta. intros _ _ t' (ext & -> & Hext). by apply apis_silent.
Qed.

Lemma wp_api c m path b l (g : mem) t :
  done_ l t ->
  wp (api c m path b) (fun ok _ t' => if ok : bool then done_ (l ++ [(socketPath c, m, path, b)]) t'
    else apis t' = map (fun s => (s, true)) l ++ [((socketPath c, m, path, b), false)]) g t.
Proof using.
  intros Hd. unfold api. apply wp_bind, wp_sys. intros x _. apply wp_ret. unfold done_ in *.
  rewrite apis_snoc, Hd. cbn [api_of option_list]. rewrite map_app.
  by destruct (match x with Some st => st <? 400 | None => false end).
Qed.

(** One step of the plan: on to the next one, or the end. *)
Lemma wp_step {E} (err : E) c m path b l rest (Q : res E unit -> mem -> trace -> Prop) g t :
  done_ l t ->
  (forall g' t', done_ (l ++ [(socketPath c, m, path, b)]) t' -> Q (Ok tt) g' t') ->
  (forall g' t', follows (l ++ (socketPath c, m, path, b) :: rest) (apis t') false -> Q (Err err) g' t') ->
  wp (check err (api c m path b)) Q g t.
Proof using.
  intros Hd HO HE. apply wp_check. eapply wp_mono; [by apply wp_api|].
  intros [] g' t'; cbn beta iota; [by auto|]. intros Ha. apply HE. rewrite Ha. apply follows_fail.
Qed.

Lemma wp_rebinds {E} (err : driveRebind -> E) c l rbs rest (Q : res E unit -> mem -> trace -> Prop) g t :
  done_ l t ->
  (forall g' t', done_ (l ++ map (rebind (socketPath c)) rbs) t' -> Q (Ok tt) g' t') ->
  (forall er g' t', follows (l ++ map (rebind (socketPath c)) rbs ++ rest) (apis t') false -> Q (Err er) g' t') ->
  wp (for_each rbs (fun rb => check (err rb) (PatchDrive c (rb_DriveID rb) (rb_PathOnHost rb)))) Q g t.
Proof using.
  intros Hd HO HE.
  apply (wp_for_each anything _ _ (fun pre _ t' => done_ (l ++ map (rebind (socketPath c)) pre) t')).
  - by rewrite app_nil_r.
  - intros pre rb post g1 t1 -> H1. unfold PatchDrive, patch.
    eapply wp_step; [exact H1| |].
    + intros g2 t2. by rewrite map_app, (assoc_L (++)).
    + intros g2 t2 H2. apply (HE _ g2). rewrite map_app, <- !(assoc_L (++)). cbn [map app].
      rewrite <- !(assoc_L (++)) in H2. exact H2.
  - intros g1 t1 H1. by apply (HO g1).
Qed.

Lemma wp_load c memFile vmStateFile overrides rootfs rbs g t :
  apis t = [] ->
  wp (load_and_resume c memFile vmStateFile overrides rootfs rbs)
    (fun r _ t' => follows (plan (socketPath c) memFile vmStateFile overrides rootfs rbs) (apis t') (is_ok r)) g t.
Proof using.
  intros Ht. unfold load_and_resume, plan. rewrite map_app. set (load := load_step _ _ _ _).
  apply wp_try. unfold LoadSnapshotWithOverrides, put.
  eapply (wp_step _ _ _ _ _ []); [exact Ht| |intros ? ? H; exact H]. intros g1 t1 H1. cbn [app] in H1. fold load in H1.
  apply wp_try. eapply (wp_mono anything) with (Q := fun r _ t' =>
    match r with
    | Ok _ => done_ (load :: map (rebind (socketPath c)) (option_list rootfs)) t'
    | Err _ => follows (load :: (map (rebind (socketPath c)) (option_list rootfs)
                 ++ map (rebind (socketPath c)) rbs) ++ [resume_step (socketPath c)]) (apis t') false
    end).
  { destruct rootfs as [rb|]; [|by apply wp_ret]. unfold PatchDrive, patch.
    eapply (wp_step _ _ _ _ _ [load]); [exact H1|intros ? ? H; exact H|intros ? ? H; exact H]. }
  intros [[]|err] g2 t2 H2; [|exact H2].
  apply wp_try. eapply (wp_rebinds (fun rb => RebindVolume (rb_DriveID rb)) c _ rbs [resume_step (socketPath c)]); [exact H2| |].
  - intros g3 t3 H3. unfold Resume, patch.
    eapply wp_step; [exact H3| |]; intros g4 t4 H4; cbn [is_ok]; cbn [app] in H4; rewrite <- !(assoc_L (++)) in H4 |- *.
    + rewrite H4. apply follows_all.
    + exact H4.
  - intros er g3 t3 H3. rewrite <- (assoc_L (++)). exact H3.
Qed.

Definition template_path (snapshotID file : string) : string :=
  Join [eng_dataDir e; "templates"; snapshotID; file].
Definition snapshot_file (snapshotID file : string) : string :=
  Join [Join [eng_dataDir e; "templates"; snapshotID; "snapshot"]; file].
Definition own_rootfs (sandboxID : string) : string := Join [eng_dataDir e; "sandboxes"; sandboxID; "rootfs.ext4"].
Definition used_specs (opts : ForkOpts) : list Spec := if volumesEnabled e then fo_Volumes opts else [].

(** Either nothing was asked of the VM, or the plan for its own disks was
    followed, completely when the fork succeeded. *)
Definition carried_out (snapshotID sandboxID : string) (opts : ForkOpts) (rootfs : option driveRebind)
    (ok : bool) (t : trace) : Prop :=
  apis t = [] /\ ok = false \/
  exists sock overrides prepared,
    Forall2 (isolated (default EmptyString (volBackend e)) sandboxID snapshotID) (used_specs opts) prepared /\
    follows (plan sock (snapshot_file snapshotID "mem") (snapshot_file snapshotID "vmstate") overrides rootfs
               (zip_with (fun s p => mkDriveRebind (Name s) (Backend.HostPath p)) (used_specs opts) prepared))
      (apis t) ok.

Lemma carried_silent sid id opts rr ok t t' :
  apis t' = apis t -> carried_out sid id opts rr ok t -> carried_out sid id opts rr ok t'.
Proof using. unfold carried_out. by intros ->. Qed.

Hypothesis Hroot : forall root, volBackend e = Some root -> is_abs root = true.
Variables (snapshotID sandboxID : string) (opts : ForkOpts).
Hypothesis Hid : Jail.validateVMID sandboxID = true.

Abbreviation out rr := (fun r _ t => carried_out snapshotID sandboxID opts rr (is_ok r) t).

(** A step that asks nothing of the VM. *)
Ltac silent := first
  [ apply wp_try; eapply wp_mono; [apply wp_silent; by walk|]; cbn beta; intros [?|?] ? ? ?
  | apply wp_bind; eapply wp_mono; [apply wp_silent; by walk|]; cbn beta; intros ? ? ? ? ].

Lemma Kill_silent c : calls_in no_api (Kill (G := mem) c).
Proof using. unfold Kill, release_uid. walk. Qed.
Lemma StartVM_silent cfg : calls_in no_api (StartVM (G := mem) cfg).
Proof using. eapply calls_mono; [|apply ClientFacts.StartVM_calls]. by intros c [|]; destruct c. Qed.
#[local] Hint Resolve Kill_silent StartVM_silent : prog.

Lemma wp_volumes (g : mem) t :
  wp (prepareForkVolumes (default EmptyString (volBackend e)) (volumesEnabled e) snapshotID sandboxID (fo_Volumes opts))
    (fun r _ t' => apis t' = apis t /\ match r with
       | Ok (rbs, prepared) =>
           Forall2 (isolated (default EmptyString (volBackend e)) sandboxID snapshotID) (used_specs opts) prepared /\
           rbs = zip_with (fun s p => mkDriveRebind (Name s) (Backend.HostPath p)) (used_specs opts) prepared
       | Err _ => True end) g t.
Proof using Hroot Hid.
  apply wp_and; [apply wp_silent; by walk|]. destruct (volumesEnabled e) eqn:Ev.
  - unfold volumesEnabled in Ev. destruct (volBackend e) as [root|] eqn:Eb; [|by rewrite andb_false_r in Ev].
    pose proof (wp_shift _ _ _ t _ (prepareForkVolumes_ok root snapshotID sandboxID true (fo_Volumes opts) g (Hroot _ eq_refl) Hid)) as Hw.
    rewrite app_nil_r in Hw. eapply wp_mono; [exact Hw|]. intros r g' t' (t1 & -> & _ & Hr).
    assert (volumesEnabled e = true) as Ev' by (unfold volumesEnabled; by rewrite Eb).
    unfold used_specs. rewrite Ev'. destruct r as [[]|]; [|done]. exact Hr.
  - unfold prepareForkVolumes. cbn [negb orb]. apply wp_ret. unfold used_specs. rewrite Ev. by split.
Qed.

Lemma wp_fork_vm rootfsPath start rr c g t :
  apis t = [] ->
  wp (fork_vm fields_other other_string parse_v6 unicode_lower range_names time_text e snapshotID sandboxID rootfsPath
        opts start rr c) (out rr) g t.
Proof using Hroot Hid LS.
  intros Ht. unfold fork_vm. cbv zeta. silent. case_match.
  2: { silent. apply wp_ret. left. split; [congruence|done]. }
  apply wp_bind. eapply wp_mono; [apply wp_volumes|]. cbn beta. intros [[rbs prepared]|err] g2 t2 [H2 Hv].
  2: { silent. silent. apply wp_ret. left. split; [congruence|done]. }
  destruct Hv as [Hiso ->]. apply wp_bind. eapply wp_mono; [apply wp_load; congruence|].
  cbn beta. intros [[]|err] g3 t3 H3; cbn [is_ok] in H3.
  - unfold finish_fork. do 4 silent. match goal with x : (Z * Z)%type |- _ => destruct x end. cbv zeta.
    unfold commitReservation. do 2 silent. apply wp_ret.
    right. do 3 eexists. split; [exact Hiso|]. cbn [is_ok]. by repeat match goal with H : apis _ = apis _ |- _ => rewrite H; clear H end.
  - unfold cleanupFork, Cleanup. silent. apply wp_ret. right. do 3 eexists. split; [exact Hiso|].
    cbn [is_ok]. by repeat match goal with H : apis _ = apis _ |- _ => rewrite H; clear H end.
Qed.

Definition rebind_of (rootfsPath : string) : option driveRebind :=
  if String.eqb rootfsPath EmptyString then None else Some (mkDriveRebind "rootfs" (own_rootfs sandboxID)).

Lemma wp_rootfs rootfsPath g t :
  wp (prepareForkRootfs e sandboxID rootfsPath)
    (fun r _ t' => apis t' = apis t /\ match r with Ok (rr, _) => rr = rebind_of rootfsPath | Err _ => True end) g t.
Proof using.
  apply wp_and; [apply wp_silent; by walk|]. unfold prepareForkRootfs, rebind_of.
  destruct (String.eqb _ _); [by apply wp_ret|]. destruct (negb _); [by apply wp_ret|]. cbv zeta.
  apply wp_bind. apply wp_any. intros r ? ?. apply wp_ret. by destruct r.
Qed.

Lemma wp_fork_admitted rootfsPath g t :
  apis t = [] ->
  wp (fork_admitted fields_other other_string parse_v6 unicode_lower range_names time_text e snapshotID sandboxID
        rootfsPath opts) (out (rebind_of rootfsPath)) g t.
Proof using Hroot Hid LS.
  intros Ht. unfold fork_admitted. cbv zeta. silent. silent; [|left; split; [congruence|done]].
  silent; [|left; split; [congruence|done]].
  apply wp_try. eapply wp_mono; [apply wp_rootfs|]. cbn beta. intros [[rr clone]|err] g1 t1 [Hs Hr].
  2: { left. split; [congruence|done]. }
  rewrite Hr. silent. case_match; [apply wp_fork_vm; congruence|]. apply wp_ret. left. split; [congruence|done].
Qed.

Lemma wp_or_release {A} (p : prog mem (res engine_error A)) (Q : res engine_error A -> trace -> Prop) g t :
  (forall err t1 t2, apis t2 = apis t1 -> Q (Err err) t1 -> Q (Err err) t2) ->
  wp p (fun r _ => Q r) g t -> wp (or_release e p) (fun r _ => Q r) g t.
Proof using.
  intros HQ Hp. unfold or_release. apply wp_bind. eapply wp_mono; [exact Hp|]. intros [a|err] g1 t1 H1; [by apply wp_ret|].
  unfold releaseReservation. silent. apply wp_ret. by eapply HQ.
Qed.

Lemma wp_fork rootfsPath g t :
  apis t = [] ->
  wp (fork fields_other other_string parse_v6 unicode_lower range_names time_text e snapshotID sandboxID
        rootfsPath opts true) (out (rebind_of rootfsPath)) g t.
Proof using Hroot Hid LS.
  intros Ht. unfold fork. apply wp_try, wp_ret.
  apply (wp_or_release _ (fun r t => carried_out snapshotID sandboxID opts (rebind_of rootfsPath) (is_ok r) t)).
  - intros. by eapply carried_silent.
  - by apply wp_fork_admitted.
Qed.

Lemma Join_abs a rest : is_abs a = true -> String.eqb (Join (a :: rest)) EmptyString = false.
Proof using.
  intros Ha. destruct a as [|c a]; [done|]. cbn [Join String.eqb]. unfold Clean.
  assert (is_abs (join_byte slash (String c a :: rest)) = true) as ->; [|done].
  destruct rest as [|r rest]; [exact Ha|]. destruct c as [[] [] [] [] [] [] [] []]; try discriminate Ha. done.
Qed.

Lemma wp_Fork g :
  is_abs (eng_dataDir e) = true ->
  wp (Fork unmarshal_other trim_other fields_other other_string parse_v6 unicode_lower range_names time_text e
        snapshotID sandboxID opts)
    (fun r _ t => apis t = [] /\ is_ok r = false \/ exists rr, carried_out snapshotID sandboxID opts rr (is_ok r) t /\
       (rr = Some (mkDriveRebind "rootfs" (own_rootfs sandboxID)) \/
        rr = None /\ Ev (CStat (template_path snapshotID "rootfs.ext4")) None ∈ t)) g [].
Proof using Hroot Hid LS.
  intros Habs. unfold Fork, admitFork. silent; [|by left].
  apply wp_try. eapply wp_mono; [apply (wp_or_release _ (fun _ t => apis t = []))|].
  { by intros ? ? ? ->. }
  { eapply wp_mono; [apply wp_silent; by walk|]. intros; cbn in *; congruence. }
  cbn beta. intros [[]|err] g1 t1 H1; [|by left]. cbv zeta. apply wp_bind, wp_sys. intros x _.
  eapply wp_mono; [apply wp_and; [apply wp_fork|apply (wp_calls (fun _ => True)), calls_any; done]|].
  { rewrite apis_snoc, H1. done. }
  cbn beta. intros r g2 t2 [Hc (ext & -> & _)]. right. eexists. split; [exact Hc|]. unfold rebind_of.
  destruct x as [fi|]; [left; by rewrite Join_abs|right]. split; [done|]. set_solver.
Qed.

End traffic.

(** C6. Forking a valid sandbox id, whatever the host answers: what is asked of the
    new VM is a prefix of one plan, in order, each step only after the previous
    one succeeded, and the whole plan exactly when Fork succeeds.  The plan loads
    the snapshot paused, points the root disk at the clone in the sandbox's own
    directory and every requested volume at its isolated backing, and resumes
    the VM last.  So no fork ever runs on the template's or another sandbox's
    writable disk; the root disk is left alone only where the template has none. *)
Theorem fork_disks_before_resume `{LS : LawfulSeams} {O} (h : env O) unmarshal_other trim_other fields_other
    other_string parse_v6 unicode_lower range_names time_text (e : Engine) (snapshotID sandboxID : string)
    (opts : ForkOpts) (g : mem) (o : O) :
  is_abs (eng_dataDir e) = true -> (forall root, volBackend e = Some root -> is_abs root = true) ->
  Jail.validateVMID sandboxID = true ->
  let '(r, _, _, t) := run h (Fork unmarshal_other trim_other fields_other other_string parse_v6 unicode_lower
                                range_names time_text e snapshotID sandboxID opts) g o in
  apis t = [] /\ is_ok r = false \/
  exists sock overrides rootfs prepared,
    (rootfs = Some (mkDriveRebind "rootfs" (own_rootfs e sandboxID)) \/
     rootfs = None /\ Ev (CStat (template_path e snapshotID "rootfs.ext4")) None ∈ t) /\
    Forall2 (isolated (default EmptyString (volBackend e)) sandboxID snapshotID) (used_specs e opts) prepared /\
    follows (plan sock (snapshot_file e snapshotID "mem") (snapshot_file e snapshotID "vmstate") overrides rootfs
               (zip_with (fun s p => mkDriveRebind (Name s) (Backend.HostPath p)) (used_specs e opts) prepared))
      (apis t) (is_ok r).
Proof.
  intros Habs Hroot Hid.
  pose proof (wp_run h _ _ g o [] (wp_Fork unmarshal_other trim_other fields_other other_string parse_v6 unicode_lower
    range_names time_text e Hroot snapshotID sandboxID opts Hid g Habs)) as Hr. cbn [app] in Hr.
  destruct (run h _ g o) as [[[r g'] o'] t]. destruct Hr as [?|(rr & Hc & Hrr)]; [by left|].
  destruct Hc as [?|(sock & ov & prepared & Hiso & Hf)]; [by left|]. right. by exists sock, ov, rr, prepared.
Qed.

End Traffic.

(** ** What a fork and a termination leave behind *)

Module Ledger.
Import Laws Footprints Seams State Gates Fork Recovery Admin Alloc Client Backend ForkVolumes.

(** The addresses of an allocator; the cursor may move. *)
Definition net_state (a : Allocator) := (byID a, inUse a, idIndex a).

Lemma tapName_nonempty a id : tapName a id <> EmptyString.
Proof.
  unfold tapName. destruct (prefix a); [|done]. cbn [String.append].
  pose proof (length_Sum256 (String.list_ascii_of_string id)) as Hl.
  destruct (Sum256 (String.list_ascii_of_string id)) as [|b l]; [done|]. cbn. done.
Qed.

(** An address that is acquired and released again leaves the allocator as it
    was. *)
Lemma acquire_release a id :
  wf a -> byID a !! id = None ->
  match Acquire a id with
  | (a', Ok i) => net_state (Release a' id) = net_state a /\ byID a' !! id = Some i /\ TapName i <> EmptyString
  | (a', Err _) => a' = a
  end.
Proof.
  intros Hwf Hb. pose proof (not_in_index a id Hwf Hb) as Hi. unfold Acquire. rewrite Hb. destruct (acquire_scan a _ 0) as [b|] eqn:Es; [|done].
  apply acquire_scan_sound in Es as [_ Hn]; [|done]. unfold Release. cbn [idIndex byID inUse TapName identityForBlock].
  rewrite lookup_insert_eq. split; [|split; [apply lookup_insert_eq|apply tapName_nonempty]]. unfold net_state. cbn.
  rewrite !delete_insert_id by done. by replace (({[b]} ∪ inUse a) ∖ {[b]}) with (inUse a) by set_solver.
Qed.

(** What the operations that manage neither sandboxes, slots, uids nor addresses
    keep. *)
Definition ledger (g : mem) := (sandboxes g, reserved g, uids g, nets g).

Lemma ledger_view g g' :
  sandboxes g = sandboxes g' -> reserved g = reserved g' -> uids g = uids g' -> nets g = nets g' -> ledger g = ledger g'.
Proof. unfold ledger. congruence. Qed.
Lemma quiet_no_process c : quiet_call c -> no_proc c.
Proof. by destruct c. Qed.
#[local] Hint Resolve ledger_view quiet_no_process : prog.

Abbreviation wp := (wp anything).

Lemma wp_still {A} (p : prog mem A) g t :
  calls_in no_proc p -> keeps ledger p -> wp p (fun _ g' t' => ledger g' = ledger g /\ live t' = live t) g t.
Proof.
  intros Hc Hk. eapply wp_mono; [apply wp_and; [by apply wp_calls|by apply (wp_keeps ledger)]|].
  cbn. intros _ g' t' [(ext & -> & Hext) Hg]. split; [exact Hg|by apply live_no_proc].
Qed.

Section ledger.
Context `{LS : LawfulSeams}.
Variable unmarshal_other : string -> option Manifest.Manifest.
Variables (trim_other : string -> string) (fields_other : string -> list string).
Variable other_string : IP -> string.
Variable parse_v6 : string -> option IP.
Variable unicode_lower : string -> string.
Variable range_names : gmap string (list Z) -> list (string * list Z).
Variable time_text : Z -> string.
Variable e : Engine.
Variable sandboxID : string.
(** The memory before the request. *)
Variable g0 : mem.

(** The addresses are as before, or one more belongs to the sandbox. *)
Definition net_part (i : option Identity) (g : mem) : Prop :=
  match i with
  | None => net_state (nets g) = net_state (nets g0)
  | Some i => net_state (Release (nets g) sandboxID) = net_state (nets g0) /\
              byID (nets g) !! sandboxID = Some i /\ TapName i <> EmptyString
  end.

(** No VM, or one that holds a uid of its own where it is jailed. *)
Definition vm_part (c : option Client) (g : mem) (t : trace) : Prop :=
  match c with
  | None => live t = [] /\ Uid.inUse (uids g) = Uid.inUse (uids g0)
  | Some c => (exists pid, process c = Some pid /\ live t = [pid]) /\
      if allocator c then (jailedUID c ∉ Uid.inUse (uids g0)) /\ Uid.inUse (uids g) = {[jailedUID c]} ∪ Uid.inUse (uids g0)
      else Uid.inUse (uids g) = Uid.inUse (uids g0)
  end.

Definition holds (m : gmap string Sandbox) (slots : Z) (i : option Identity) (c : option Client) (g : mem) (t : trace)
  : Prop :=
  sandboxes g = m /\ reserved g = slots /\ net_part i g /\ vm_part c g t.

Lemma holds_still m sl i c g g' t t' :
  ledger g' = ledger g -> live t' = live t -> holds m sl i c g t -> holds m sl i c g' t'.
Proof using.
  unfold ledger. intros [= E1 E2 E3 E4] El (H1 & H2 & H3 & H4). unfold holds, net_part, vm_part in *.
  by rewrite E1, E2, E3, E4, El.
Qed.

Lemma wp_holds {A} (p : prog mem A) m sl i c g t :
  holds m sl i c g t -> calls_in no_proc p -> keeps ledger p -> wp p (fun _ => holds m sl i c) g t.
Proof using. intros H Hc Hk. eapply wp_mono; [by apply wp_still|]. intros _ g' t' [Hg Hl]. by eapply holds_still. Qed.

(** A step that keeps the ledger. *)
Ltac steady := first
  [ apply wp_try; eapply wp_mono; [apply wp_holds; [eassumption|by walk|by walk]|]; cbn beta; intros [?|?] ? ? ?
  | apply wp_bind; eapply wp_mono; [apply wp_holds; [eassumption|by walk|by walk]|]; cbn beta; intros ? ? ? ? ].

(** *** Killing and releasing *)

Definition but_uids (g : mem) := (sandboxes g, reserved g, nets g).
Lemma but_uids_view g g' :
  sandboxes g = sandboxes g' -> reserved g = reserved g' -> uids g = uids g' -> nets g = nets g' -> but_uids g = but_uids g'.
Proof using. unfold but_uids. congruence. Qed.
Lemma but_uids_set a g : but_uids (setA a g) = but_uids g.
Proof using. done. Qed.
#[local] Hint Resolve but_uids_view but_uids_set : prog.

Lemma wp_kill m sl i c g t :
  holds m sl i (Some c) g t -> wp (Kill c) (fun _ => holds m sl i None) g t.
Proof using.
  intros (H1 & H2 & H3 & (pid & Hp & Hl) & Hu). eapply wp_mono.
  - apply wp_and; [by apply (ClientFacts.Kill_wp c pid)|apply (wp_keeps but_uids), Kill_keeps; auto with prog].
  - cbn beta. intros _ g' t' [[Hl' Hu'] [= E1 E2 E3]]. rewrite Hl in Hl'. unfold holds, net_part, vm_part in *. rewrite E1, E2, E3.
    split; [done|]. split; [done|]. split; [done|]. split.
    + rewrite Hl'. unfold ClientFacts.without. rewrite filter_cons_False by (intros Hx; by apply Hx). done.
    + unfold ClientFacts.uids in Hu'. change (getA g') with (uids g') in Hu'. change (getA g) with (uids g) in Hu'.
      rewrite Hu'. destruct (allocator c); [|done]. destruct Hu as [Hn ->]. clear -Hn. set_solver.
Qed.

Lemma wp_release_net m sl i c g t :
  holds m sl (Some i) c g t -> wp (release_net sandboxID) (fun _ => holds m sl None c) g t.
Proof using. intros (H1 & H2 & (H3 & _ & _) & H4). apply wp_modify. split; [done|]. by split. Qed.

Lemma wp_teardown m sl i c g t :
  networkEnabled e = true ->
  holds m sl (Some i) c g t -> wp (teardownForkNetwork other_string e sandboxID i) (fun _ => holds m sl None c) g t.
Proof using LS.
  intros Hen H. unfold teardownForkNetwork. rewrite Hen. cbn [negb]. apply wp_bind.
  eapply wp_mono with (Q := fun _ => holds m sl (Some i) c).
  { destruct (_ && _); [|by apply wp_ret]. by apply wp_modify. }
  intros _ g1 t1 H1'. steady. by eapply wp_release_net.
Qed.

Lemma wp_teardown_if m sl (f : option forkNetwork) c g t :
  (is_Some f -> networkEnabled e = true) ->
  holds m sl (fn_identity <$> f) c g t -> wp (teardown_if other_string e sandboxID f) (fun _ => holds m sl None c) g t.
Proof using LS.
  intros Hen H. destruct f as [f|]; [|by apply wp_ret]. unfold teardown_if. cbn in H. apply wp_teardown; eauto.
Qed.

(** *** Acquiring *)

Hypothesis Hnet : networkEnabled e = true -> wf (nets g0) /\ byID (nets g0) !! sandboxID = None.

Lemma wp_network opts m sl c g t :
  holds m sl None c g t -> nets g = nets g0 ->
  wp (prepareForkNetwork other_string parse_v6 unicode_lower range_names e sandboxID opts)
    (fun r g' t' => match r with
       | Ok f => holds m sl (fn_identity <$> f) c g' t' /\ (is_Some f -> networkEnabled e = true)
       | Err _ => holds m sl None c g' t' end) g t.
Proof using LS Hnet.
  intros H Hn. unfold prepareForkNetwork. destruct (fo_Network opts) as [net|]; [|apply wp_ret; split; [done|by intros []]].
  destruct (networkEnabled e) eqn:Een; cbn [negb]; [|apply wp_ret; split; [done|by intros []]].
  destruct (Hnet eq_refl) as [Hwf Hb].
  destruct (Allow.SplitAllowList _ _) as [[allow skipped]|]; [|by apply wp_ret]. cbv zeta.
  apply wp_bind, wp_atomic. rewrite Hn. pose proof (acquire_release (nets g0) sandboxID Hwf Hb) as Har.
  destruct (Alloc.Acquire (nets g0) sandboxID) as [a [i|err]]; cbn [fst snd].
  2: { apply wp_ret. subst a. destruct H as (H1 & H2 & H3 & H4). split; [done|]. split; [done|]. split; [|done]. done. }
  assert (holds m sl (Some i) c (set_nets a g) t) as Hi.
  { destruct H as (H1 & H2 & H3 & H4). split; [done|]. split; [done|]. split; [exact Har|exact H4]. }
  steady. destruct (negb _).
  { apply wp_bind. eapply wp_mono; [by eapply wp_release_net|]. intros ? ? ? ?. by apply wp_ret. }
  apply wp_try. eapply wp_mono with (Q := fun r g' t' => match r with
    | Ok _ => holds m sl (Some i) c g' t' | Err _ => holds m sl None c g' t' end).
  - destruct (_ && _); [|by apply wp_ret]. unfold register_names. destruct (Allow.ParseNameAllowList _ _ _).
    + destruct (bool_decide _); [by apply wp_ret|]. apply wp_bind, wp_modify. by apply wp_ret.
    + apply wp_bind. eapply wp_mono; [by eapply wp_release_net|]. intros ? ? ? ?. by apply wp_ret.
  - intros [[]|err] g2 t2 H2; [|exact H2]. apply wp_ret. split; [exact H2|done].
Qed.

Lemma wp_start cfg m sl g t :
  holds m sl None None g t -> nets g = nets g0 ->
  wp (StartVM cfg) (fun r g' t' => nets g' = nets g0 /\
    match r with Ok c => holds m sl None (Some c) g' t' | Err _ => holds m sl None None g' t' end) g t.
Proof using.
  intros (H1 & H2 & H3 & Hl & Hu) Hn. eapply wp_mono.
  - apply wp_and; [apply ClientFacts.StartVM_wp|apply (wp_keeps but_uids), StartVM_keeps; auto with prog].
  - cbn beta. intros r g' t' [[Hla Hst] [= E1 E2 E3]]. split; [congruence|].
    unfold ClientFacts.started, ClientFacts.launched, ClientFacts.uids in *.
    change (getA g') with (uids g') in Hst. change (getA g) with (uids g) in Hst. rewrite Hl in Hla. rewrite Hu in Hst.
    unfold holds, net_part, vm_part in *. rewrite E1, E2, E3. destruct r as [c|err].
    + split; [done|]. split; [done|]. split; [done|]. split; [done|]. exact Hst.
    + split; [done|]. split; [done|]. split; [done|]. split; [|done]. by apply list_nil_subseteq.
Qed.

(** *** Slots *)

Hypothesis Hres : 0 <= reserved g0 < 2 ^ 31 - 1.

Definition taken : Z := if 0 <? maxSandboxes e then reserved g0 + 1 else reserved g0.

Lemma wp_commit sb i c g t :
  holds (sandboxes g0) taken i c g t ->
  wp (commitReservation e sandboxID sb) (fun _ => holds (<[sandboxID := sb]> (sandboxes g0)) (reserved g0) i c) g t.
Proof using Hres.
  intros (H1 & H2 & H3 & H4). apply wp_modify. unfold taken in H2. rewrite H1.
  destruct (Z.ltb_spec 0 (maxSandboxes e)); cbn [andb]; [|by split].
  destruct (Z.ltb_spec 0 (reserved g)); [|lia]. split; [done|]. split; [|done].
  cbn. rewrite i32_small by (unfold is_i32; lia). lia.
Qed.

Lemma wp_release m i c g t :
  holds m taken i c g t -> wp (releaseReservation e) (fun _ => holds m (reserved g0) i c) g t.
Proof using Hres.
  intros (H1 & H2 & H3 & H4). unfold releaseReservation, taken in *.
  destruct (Z.leb_spec (maxSandboxes e) 0), (Z.ltb_spec 0 (maxSandboxes e)); try lia; [by apply wp_ret|].
  apply wp_modify. destruct (Z.ltb_spec 0 (reserved g)); [|lia]. split; [done|]. split; [|done].
  cbn. rewrite i32_small by (unfold is_i32; lia). lia.
Qed.

Lemma wp_admit m i c g t :
  holds m (reserved g0) i c g t -> nets g = nets g0 ->
  wp (admitFork e) (fun r g' t' => nets g' = nets g0 /\ match r with
    | Ok _ => holds m taken i c g' t' | Err _ => holds m (reserved g0) i c g' t' end) g t.
Proof using Hres.
  intros (H1 & H2 & H3 & H4) Hn. unfold admitFork, taken.
  destruct (Z.leb_spec (maxSandboxes e) 0), (Z.ltb_spec 0 (maxSandboxes e)); try lia; [by apply wp_ret|].
  apply wp_atomic. cbv zeta. destruct (_ <=? _); [done|]. split; [done|]. split; [done|]. split; [|done].
  cbn. rewrite i32_small by (unfold is_i32; lia). lia.
Qed.

(** *** Forking *)

(** Nothing but the slot is left of a failed fork; a successful one is in the
    table and owns its VM, uid and address. *)
Definition forked (slots : Z) (r : res engine_error ForkResult) (g : mem) (t : trace) : Prop :=
  match r with
  | Err _ => holds (sandboxes g0) slots None None g t
  | Ok fr => exists sb c i,
      (fr_SandboxID fr = sandboxID /\ sb_ID sb = sandboxID /\ fr_Endpoint fr = sb_Endpoint sb /\ sb_Pid sb = PID c) /\
      fcClient sb = Some c /\ netID sb = default no_identity i /\ (is_Some i -> networkEnabled e = true) /\
      holds (<[sandboxID := sb]> (sandboxes g0)) (reserved g0) i (Some c) g t
  end.

Lemma wp_finish snapshotID rootfsPath opts start c vsock (f : option forkNetwork) rbs pr g t :
  (is_Some f -> networkEnabled e = true) -> holds (sandboxes g0) taken (fn_identity <$> f) (Some c) g t ->
  wp (finish_fork fields_other other_string time_text e snapshotID sandboxID rootfsPath opts start c vsock f rbs pr)
    (forked taken) g t.
Proof using Hres.
  intros Hf H. unfold finish_fork. do 4 steady. match goal with x : (Z * Z)%type |- _ => destruct x end. cbv zeta.
  apply wp_bind. eapply wp_mono; [by eapply wp_commit|]. cbn beta. intros _ g5 t5 H5.
  steady. apply wp_ret.
  match goal with H : holds (<[_ := ?sb]> _) _ ?i (Some ?c) ?g' ?t' |- forked _ _ ?g' ?t' => exists sb, c, i end.
  split; [done|]. split; [done|]. split; [by destruct f|]. split; [by rewrite fmap_is_Some|done].
Qed.

Lemma load_still c mf vf ov rr rbs : calls_in no_proc (load_and_resume c mf vf ov rr rbs).
Proof using. unfold load_and_resume, LoadSnapshotWithOverrides, PatchDrive, Resume, put, patch, api. walk. Qed.
#[local] Hint Resolve load_still : prog.

Lemma wp_vm snapshotID rootfsPath opts start rr c g t :
  holds (sandboxes g0) taken None (Some c) g t -> nets g = nets g0 ->
  wp (fork_vm fields_other other_string parse_v6 unicode_lower range_names time_text e snapshotID sandboxID rootfsPath
        opts start rr c) (forked taken) g t.
Proof using LS Hnet Hres.
  intros H Hn. unfold fork_vm. cbv zeta. apply wp_bind. eapply wp_mono; [by apply wp_network|]. cbn beta.
  intros [f|err] g1 t1 H1.
  2: { apply wp_bind. eapply wp_mono; [by apply wp_kill|]. cbn beta. intros ? ? ? ?. by apply wp_ret. }
  destruct H1 as [H1 Hf]. apply wp_bind. eapply wp_mono; [apply wp_holds; [eassumption|by walk|by walk]|]. cbn beta.
  intros [[rbs prepared]|err] g2 t2 H2.
  2: { apply wp_bind. eapply wp_mono; [by apply wp_kill|]. cbn beta. intros ? ? ? ?.
       apply wp_bind. eapply wp_mono; [eapply wp_teardown_if; [exact Hf|eassumption]|]. cbn beta. intros ? ? ? ?. by apply wp_ret. }
  apply wp_bind. eapply wp_mono; [apply wp_holds; [eassumption|by walk|by walk]|]. cbn beta.
  intros [[]|err] g3 t3 H3; [by apply wp_finish|].
  unfold cleanupFork, Cleanup. apply wp_bind, wp_bind. eapply wp_mono; [by apply wp_kill|]. cbn beta. intros ? ? ? ?.
  apply wp_bind. eapply wp_mono; [eapply wp_teardown_if; [exact Hf|eassumption]|]. cbn beta. intros ? ? ? ?. do 2 steady. apply wp_ret. by apply wp_ret.
Qed.

Lemma wp_admitted snapshotID rootfsPath opts g t :
  holds (sandboxes g0) taken None None g t -> nets g = nets g0 ->
  wp (fork_admitted fields_other other_string parse_v6 unicode_lower range_names time_text e snapshotID sandboxID
        rootfsPath opts) (forked taken) g t.
Proof using LS Hnet Hres.
  intros H Hn. unfold fork_admitted. cbv zeta.
  assert (forall A (p : prog mem A) g1 t1 (Q : A -> mem -> trace -> Prop), calls_in no_proc p -> keeps ledger p ->
    holds (sandboxes g0) taken None None g1 t1 -> nets g1 = nets g0 ->
    (forall a g2 t2, holds (sandboxes g0) taken None None g2 t2 -> nets g2 = nets g0 -> Q a g2 t2) ->
    wp p Q g1 t1) as Hstep.
  { intros A p g1 t1 Q Hc Hk Hh Hn1 HQ. eapply wp_mono; [by apply wp_still|]. cbn beta. intros a g2 t2 [Hl2 Hv].
    apply HQ; [by eapply holds_still|]. by injection Hl2 as _ _ _ ->. }
  apply wp_bind, Hstep; [by walk|by walk|done|done|]. intros start g1 t1 H1 Hn1.
  apply wp_try, Hstep; [by walk|by walk|done|done|]. intros [?|?] g2 t2 H2 Hn2; [|done].
  apply wp_try, Hstep; [by walk|by walk|done|done|]. intros [?|?] g3 t3 H3 Hn3; [|done].
  apply wp_try, Hstep; [by walk|by walk|done|done|]. intros [[rr clone]|?] g4 t4 H4 Hn4; [|done].
  apply wp_bind. eapply wp_mono; [by apply wp_start|]. cbn beta. intros [c|err] g5 t5 [Hn5 H5]; [by apply wp_vm|by apply wp_ret].
Qed.

Lemma wp_rollback {A} (p : prog mem (res engine_error A)) (Q : res engine_error A -> mem -> trace -> Prop) g t :
  wp p (fun r g' t' => match r with Ok _ => Q r g' t' | Err _ => holds (sandboxes g0) taken None None g' t' end) g t ->
  (forall err g' t', holds (sandboxes g0) (reserved g0) None None g' t' -> Q (Err err) g' t') ->
  wp (or_release e p) Q g t.
Proof using Hres.
  intros Hp HQ. unfold or_release. apply wp_bind. eapply wp_mono; [exact Hp|]. cbn beta.
  intros [a|err] g1 t1 H1; [by apply wp_ret|].
  apply wp_bind. eapply wp_mono; [by apply wp_release|]. cbn beta. intros _ g2 t2 H2. by apply wp_ret, HQ.
Qed.

Lemma wp_whole_fork snapshotID opts :
  wp (Fork unmarshal_other trim_other fields_other other_string parse_v6 unicode_lower range_names time_text e
        snapshotID sandboxID opts) (forked (reserved g0)) g0 [].
Proof using LS Hnet Hres.
  unfold Fork. apply wp_try. eapply wp_mono; [by apply (wp_admit (sandboxes g0) None None)|]. cbn beta.
  intros [[]|err] g1 t1 [Hn1 H1]; [|exact H1].
  apply wp_try, wp_rollback; [|intros err g' t' H; exact H].
  eapply wp_mono; [apply wp_still; by walk|]. cbn beta. intros r g2 t2 [Hl2 Hv2].
  assert (holds (sandboxes g0) taken None None g2 t2) as H2 by (by eapply holds_still).
  assert (nets g2 = nets g0) as Hn2 by (by injection Hl2 as _ _ _ ->).
  destruct r as [[]|err]; [|exact H2]. cbv zeta. apply wp_bind.
  eapply wp_mono; [apply wp_still; by walk|]. cbn beta. intros x g3 t3 [Hl3 Hv3].
  unfold fork. apply wp_try, wp_ret, wp_rollback; [|intros err g' t' H; exact H].
  eapply wp_mono; [apply wp_admitted|].
  - by eapply holds_still.
  - by injection Hl3 as _ _ _ ->.
  - by intros [].
Qed.

(** *** Terminating *)

Lemma wp_terminate m sb c i g t :
  fcClient sb = Some c -> netID sb = default no_identity i -> (is_Some i -> networkEnabled e = true) ->
  holds (<[sandboxID := sb]> m) (reserved g0) i (Some c) g t ->
  wp (Terminate trim_other other_string e sandboxID)
    (fun r g' t' => r = Ok tt /\ holds (delete sandboxID m) (reserved g0) None None g' t') g t.
Proof using LS.
  intros Hc Hi Hen H. unfold Terminate, take_sandbox. apply wp_try, wp_some_or, wp_atomic.
  assert (sandboxes g !! sandboxID = Some sb) as -> by (destruct H as [-> _]; apply lookup_insert_eq). cbn [fst snd].
  assert (holds (delete sandboxID m) (reserved g0) i (Some c) (set_sandboxes (delete sandboxID (sandboxes g)) g) t) as H1.
  { destruct H as (H1 & H2 & H3 & H4). split; [|by split]. cbn. by rewrite H1, delete_insert_eq. }
  unfold release_sandbox. rewrite Hc, Hi. apply wp_bind, wp_bind, wp_bind. eapply wp_mono; [by apply wp_kill|].
  cbn beta. intros _ g2 t2 H2. apply wp_ret, wp_bind.
  eapply wp_mono with (Q := fun _ => holds (delete sandboxID m) (reserved g0) None None).
  { destruct i as [i|]; [|by apply wp_ret]. change (default no_identity (Some i)) with i.
    destruct H2 as (E1 & E2 & (N1 & N2 & N3) & E4) eqn:E. clear E.
    destruct (String.eqb_spec (TapName i) EmptyString); [done|]. apply wp_teardown; [by apply Hen|]. by split. }
  cbn beta. intros _ g3 t3 H3. steady. steady.
  eapply wp_mono; [apply wp_holds; [eassumption|by walk|by walk]|]. cbn beta. intros ? g6 t6 H6. by apply wp_ret.
Qed.

End ledger.


(** A fork, terminated when it succeeded. *)
Definition fork_and_terminate `{LS : LawfulSeams} unmarshal_other trim_other fields_other other_string parse_v6
    unicode_lower range_names time_text (e : Engine) (snapshotID sandboxID : string) (opts : ForkOpts)
  : prog mem (res engine_error unit) :=
  must _ := Fork unmarshal_other trim_other fields_other other_string parse_v6 unicode_lower range_names time_text e
              snapshotID sandboxID opts in
  Terminate trim_other other_string e sandboxID.

(** C23. Forking a new sandbox id and terminating it again, whatever the host answers:
    if the fork succeeds then so does the termination, and in every case the
    table, the slots, the uids in use and the allocated addresses are as before
    and no process is left running. *)
Theorem fork_terminate_roundtrip `{LS : LawfulSeams} {O} (h : env O) unmarshal_other trim_other fields_other
    other_string parse_v6 unicode_lower range_names time_text (e : Engine) (snapshotID sandboxID : string)
    (opts : ForkOpts) (g : mem) (o : O) :
  (networkEnabled e = true -> wf (nets g) /\ byID (nets g) !! sandboxID = None) ->
  0 <= reserved g < 2 ^ 31 - 1 -> sandboxes g !! sandboxID = None ->
  let fork := Fork unmarshal_other trim_other fields_other other_string parse_v6 unicode_lower range_names time_text e
                snapshotID sandboxID opts in
  let '(r, g', _, t) := run h (fork_and_terminate unmarshal_other trim_other fields_other other_string parse_v6
                                 unicode_lower range_names time_text e snapshotID sandboxID opts) g o in
  is_ok r = is_ok (run h fork g o).1.1.1 /\
  sandboxes g' = sandboxes g /\ reserved g' = reserved g /\ Uid.inUse (uids g') = Uid.inUse (uids g) /\
  net_state (nets g') = net_state (nets g) /\ live t = [].
Proof.
  intros Hnet Hres Hnew fork.
  pose proof (wp_run h _ _ g o [] (wp_whole_fork unmarshal_other trim_other fields_other other_string parse_v6
    unicode_lower range_names time_text e sandboxID g Hnet Hres snapshotID opts)) as Hf.
  unfold fork_and_terminate. fold fork in Hf |- *. unfold prog_try. rewrite run_bind.
  destruct (run h fork g o) as [[[r1 g1] o1] t1]. cbn [app fst] in *. destruct r1 as [fr|err].
  - destruct Hf as (sb & c & i & _ & Hc & Hi & Hen & H1).
    pose proof (wp_run h _ _ g1 o1 t1 (wp_terminate trim_other other_string e sandboxID g (sandboxes g) sb c i g1 t1 Hc Hi Hen H1)) as Ht.
    destruct (run h (Terminate _ _ _ _) g1 o1) as [[[r2 g2] o2] t2]. destruct Ht as (-> & E1 & E2 & E3 & E4 & E5).
    rewrite delete_id in E1 by done. done.
  - destruct Hf as (E1 & E2 & E3 & E4 & E5). cbn. by rewrite app_nil_r.
Qed.

End Ledger.

(** ** Examples *)

Module ForkExamples.
Import Seams State Gates Fork Recovery Admin Traffic Ledger SafetyExamples ForkVolumes Client.
#[local] Existing Instances ex_nm ex_kp ex_cm ex_ib ex_lawful.

(** A node with jails, networking and volumes. *)
Definition full_engine : Engine :=
  mkEngine (Verify.mkConfig "/var/lib/mitos" "/boot/vmlinux" ex_env true true) "/usr/bin/firecracker"
    FcExamples.ex_jailer true true [] false false true (Some VolumeExamples.ex_root) false false false 10 0
    (Some "/var/lib/mitos/sandboxes") true EmptyString EmptyString.
Definition full_mem : mem :=
  mkMem ∅ 0 10000 FcExamples.ex_uids Alloc.ex0 Reg.NewRegistry ex_tpl.
Definition full_opts : ForkOpts := mkForkOpts (Some (mkNetworkOpts "deny" [])) VolumeExamples.ex_specs.

Definition the_fork : prog mem (res engine_error ForkResult) :=
  Fork (fun _ => None) (fun s => s) (fun _ => []) (fun _ => EmptyString) (fun _ => None) (fun s => s)
    map_to_list (fun _ => EmptyString) full_engine "py" "sb-1" full_opts.

Lemma full_net : networkEnabled full_engine = true ->
  Alloc.wf (nets full_mem) /\ Alloc.byID (nets full_mem) !! "sb-1" = None.
Proof. intros _. split; [apply (Alloc.NewAllocator_wf _ _ _ Alloc.ex0_new)|vm_compute; reflexivity]. Qed.

(** All four steps of the plan: load, root disk, the two volumes, resume. *)
Lemma fork_disks_before_resume_witness :
  is_ok (run host the_fork full_mem 0).1.1.1 = true /\ length (apis (run host the_fork full_mem 0).2) = 5%nat /\
  let '(r, _, _, t) := run host the_fork full_mem 0 in
  apis t = [] /\ is_ok r = false \/
  exists sock overrides rootfs prepared,
    (rootfs = Some (mkDriveRebind "rootfs" (own_rootfs full_engine "sb-1")) \/
     rootfs = None /\ Ev (CStat (template_path full_engine "py" "rootfs.ext4")) None ∈ t) /\
    Forall2 (VolumeFacts.isolated VolumeExamples.ex_root "sb-1" "py") (used_specs full_engine full_opts) prepared /\
    follows (plan sock (snapshot_file full_engine "py" "mem") (snapshot_file full_engine "py" "vmstate") overrides rootfs
               (zip_with (fun s p => mkDriveRebind (Backend.Name s) (Backend.HostPath p)) (used_specs full_engine full_opts) prepared))
      (apis t) (is_ok r).
Proof.
  split; [vm_compute; reflexivity|]. split; [vm_compute; reflexivity|].
  refine (fork_disks_before_resume host (fun _ => None) (fun s => s) (fun _ => []) (fun _ => EmptyString) (fun _ => None)
    (fun s => s) map_to_list (fun _ => EmptyString) full_engine "py" "sb-1" full_opts full_mem 0 eq_refl _ eq_refl).
  intros root [= <-]. reflexivity.
Defined.


Lemma fork_terminate_roundtrip_witness :
  is_ok (run host the_fork full_mem 0).1.1.1 = true /\
  let '(r, g', _, t) := run host (fork_and_terminate (fun _ => None) (fun s => s) (fun _ => []) (fun _ => EmptyString)
      (fun _ => None) (fun s => s) map_to_list (fun _ => EmptyString) full_engine "py" "sb-1" full_opts) full_mem 0 in
  is_ok r = is_ok (run host the_fork full_mem 0).1.1.1 /\
  sandboxes g' = sandboxes full_mem /\ reserved g' = reserved full_mem /\
  Uid.inUse (uids g') = Uid.inUse (uids full_mem) /\ net_state (nets g') = net_state (nets full_mem) /\ live t = [].
Proof.
  split; [vm_compute; reflexivity|].
  refine (fork_terminate_roundtrip host (fun _ => None) (fun s => s) (fun _ => []) (fun _ => EmptyString) (fun _ => None)
    (fun s => s) map_to_list (fun _ => EmptyString) full_engine "py" "sb-1" full_opts full_mem 0 full_net _ eq_refl).
  split; [discriminate|reflexivity].
Defined.

End ForkExamples.
