(* ===== verification/Daemon.v ===== *)
(** * The fork daemon (internal/daemon/server.go, grpc_service.go, authz.go, validate.go)

    The controller's RPCs over the engine and the sandbox API.

    - [Zoom]: a program on a part of the memory, as a program on the whole.
    - [Server]: the daemon over any engine behind the interface [ForkEngine],
      with the guest handshake after a restore and the gRPC service.
    - [Contract]: what the daemon relies on of the engine, and what it then
      promises of a fork.
    - [Node]: the engine of Engine.v behind the interface, and the promises for
      the two together.
    - [DaemonExamples]: witnesses, and two interleavings of RPCs. *)
From S2P Require Import Prelude GoLib GoFs Netconf Cas Wire Host Vsock SandboxApi Kms Firecracker Storecrypt Volume Verify Metering.
From S2P Require Import Engine EngineSafety EngineFork.
#[local] Open Scope go_scope.

(** ** A program on a part of the memory *)

Module Zoom.

Class Lens (G S : Type) := {
  view : G -> S;
  put : S -> G -> G;
  view_put : forall s g, view (put s g) = s;
  put_view : forall g, put (view g) g = g;
  put_put : forall s s' g, put s (put s' g) = put s g }.

Fixpoint zoom {G S A} `{Lens G S} (p : prog S A) : prog G A :=
  match p with
  | Ret a => Ret a
  | Atomic f k => Atomic (fun g => ((f (view g)).1, put (f (view g)).2 g)) (fun x => zoom (k x))
  | Sys c k => Sys c (fun x => zoom (k x))
  end.

Section zoom.
Context {G S : Type} `{L : Lens G S}.

Lemma wp_zoom allowed {A} (p : prog S A) Q g t :
  wp allowed p (fun a s t' => Q a (put s g) t') (view g) t -> wp allowed (zoom p) Q g t.
Proof.
  revert g t. induction p as [a|X f k IH|c k IH]; cbn; intros g t H.
  - by rewrite put_view in H.
  - apply IH. rewrite view_put. eapply wp_mono; [exact H|]. intros a s t'. by rewrite put_put.
  - intros x Hx. by apply IH, H.
Qed.

(** It changes that part alone. *)
Lemma keeps_zoom {V A} (v : G -> V) (p : prog S A) : (forall s g, v (put s g) = v g) -> keeps v (zoom p).
Proof. intros Hv. induction p as [a|X f k IH|c k IH]; cbn; [done|by split|done]. Qed.

Lemma calls_zoom {A} (P : call -> Prop) (p : prog S A) : calls_in P p -> calls_in P (zoom p).
Proof. induction p as [a|X f k IH|c k IH]; cbn; [done|by auto|]. intros [H1 H2]. by split; auto. Qed.

End zoom.
End Zoom.

(** ** The daemon *)

Module Server.
Import Vsock Api Backend ForkVolumes State Fork Admin.
Export Forkd.

(** The interface of the engine (interface.go), without the metering report.
    PullTemplate's error is whether it failed. *)
Class ForkEngine (G : Type) := {
  fe_Fork : string -> string -> ForkOpts -> prog G (res engine_error ForkResult);
  fe_ForkRunning : string -> string -> bool -> prog G (res engine_error ForkResult);
  fe_Terminate : string -> prog G (res engine_error unit);
  fe_GetCapacity : prog G Capacity;
  fe_ListSandboxes : prog G (list SandboxRecord);
  fe_CreateTemplate : string -> string -> list string -> list Spec -> prog G (res engine_error unit);
  fe_PullTemplate : string -> string -> string -> string -> prog G bool }.

(** Go memory that holds the daemon's fork counter. *)
Class HasGen (G : Type) := {
  getGen : G -> Z;
  setGen : Z -> G -> G;
  getGen_setGen : forall n g, getGen (setGen n g) = n }.

(** *** Ids *)

(** sandboxIDPattern is vmIDPattern of the firecracker package. *)
Definition validateSandboxID (s : string) : bool := Jail.validateVMID s.
Definition validateVolumeName (name : string) : bool := Jail.validateVMID name.

Inductive delivery_error :=
| AgentNotConnected (e : vsock_error) | NoEntropy | NotifyFailed (e : option vsock_error) | NotReseeded
| ConfigureFailed (e : option vsock_error).
Inductive daemon_error :=
| InvalidId | InvalidVolumeName (name : string) | InvalidSize (name : string) (e : vol_error)
| EngineFailed (e : engine_error) | DeliveryFailed (id : string) (e : delivery_error) | PullFailed.

Definition networkOpts (c : option NetworkConfig) : option NetworkOpts :=
  match c with
  | None => None
  | Some c =>
      if String.eqb (nc_EgressPolicy c) EmptyString && (length (nc_AllowList c) =? 0)%nat then None
      else Some (mkNetworkOpts (nc_EgressPolicy c) (nc_AllowList c))
  end.

(** A repeated key keeps its last value; envMap and secretMap. *)
Definition envMap (vars : list (string * string)) : gmap string string :=
  fold_left (fun m '(k, v) => <[k := v]> m) vars ∅.

Section server.
Context {G : Type} `{HA : HasApi G} `{HG : HasGen G} `{HW : Stash.HasWrapped G} {FE : ForkEngine G}.
(** resource.ParseQuantity; the text of an error; the conversion of floats
    outside int64; the time a record's text stands for, none for the zero time. *)
Variable parse_quantity : string -> option Z.
Variable error_text : daemon_error -> string.
Variable conv : SpecFloat.spec_float -> Z.
Variable created : string -> option Z.
Variable api : SandboxAPI.
(** Whether SetKeyProvider was called. *)
Variable keyProvider : bool.

Fixpoint volumeSpecs (mounts : list VolumeMount) : res daemon_error (list Spec) :=
  match mounts with
  | [] => Ok []
  | m :: mounts =>
      if negb (validateVolumeName (m_Name m)) then Err (InvalidVolumeName (m_Name m))
      else match ParseSizeMB parse_quantity (m_Size m) with
           | Err e => Err (InvalidSize (m_Name m) e)
           | Ok sizeMB =>
               match volumeSpecs mounts with
               | Err e => Err e
               | Ok specs => Ok (mkSpec (m_Name m) sizeMB (m_MountPath m) (m_ReadOnly m) (m_ForkPolicy m) :: specs)
               end
           end
  end.

(** *** The guest handshake *)

Definition wire_network (n : NotifyForkedNetwork) : string * string * Z * string :=
  (nf_GuestIP n, nf_GatewayIP n, nf_PrefixLen n, nf_ResolverIP n).
Definition wire_volume (v : VolumeMountEntry) : string * string * bool := (Device v, vm_MountPath v, vm_ReadOnly v).

Definition notifyForked (sandboxID : string) (guestNet : option NotifyForkedNetwork) (volumes : list VolumeMountEntry)
  : prog G (res delivery_error unit) :=
  must entropy := some_or NoEntropy (sys (CRandom 32)) in
  gen ← atomic (fun g => let n := (getGen g + 1) mod 2 ^ 64 in (n, setGen n g));
  resp ← api_NotifyForked sandboxID gen entropy (wire_network <$> guestNet) (wire_volume <$> volumes);
  mret (match resp with
        | None => Err (NotifyFailed None)
        | Some (Err e) => Err (NotifyFailed (Some e))
        | Some (Ok (Some true)) => Ok tt
        | Some (Ok _) => Err NotReseeded
        end).

Definition register (sandboxID vsockPath : string) : prog G (res delivery_error unit) :=
  r ← RegisterSandbox api sandboxID vsockPath;
  match r with
  | Err e => mret (Err (AgentNotConnected e))
  | Ok _ => _ ← RegisterStreamPath sandboxID vsockPath; mret (Ok tt)
  end.

(** deliverConfig once there is a guest; only lost secrets are an error. *)
Definition handshake (sandboxID vsockPath : string) (env secrets : gmap string string)
    (guestNet : option NotifyForkedNetwork) (volumes : list VolumeMountEntry) : prog G (res delivery_error unit) :=
  must _ := register sandboxID vsockPath in
  must _ := notifyForked sandboxID guestNet volumes in
  if bool_decide (env = ∅) && bool_decide (secrets = ∅) then mret (Ok tt)
  else
    r ← api_Configure sandboxID env secrets;
    mret (match r with
          | Some (Ok _) => Ok tt
          | Some (Err e) => if bool_decide (secrets = ∅) then Ok tt else Err (ConfigureFailed (Some e))
          | None => if bool_decide (secrets = ∅) then Ok tt else Err (ConfigureFailed None)
          end).

Definition deliverConfig (sandboxID vsockPath : string) (env secrets : gmap string string)
    (guestNet : option NotifyForkedNetwork) (volumes : list VolumeMountEntry) : prog G (res delivery_error unit) :=
  c ← fe_GetCapacity;
  if negb (KVMAvailable c) then mret (Ok tt)
  else handshake sandboxID vsockPath env secrets guestNet volumes.

Definition notifyForkedRunning (sandboxID vsockPath : string) : prog G (res delivery_error unit) :=
  c ← fe_GetCapacity;
  if negb (KVMAvailable c) then mret (Ok tt)
  else must _ := register sandboxID vsockPath in notifyForked sandboxID None [].

(** *** Forking and terminating *)

(** The end of Fork and ForkRunning: a sandbox whose handshake failed is reaped,
    one whose handshake succeeded gets its token. *)
Definition serve_or_reap (result : ForkResult) (apiToken : string) (handshake : prog G (res delivery_error unit))
  : prog G (res daemon_error ForkResult) :=
  d ← handshake;
  match d with
  | Err e =>
      _ ← fe_Terminate (fr_SandboxID result);
      _ ← UnregisterSandbox (fr_SandboxID result);
      mret (Err (DeliveryFailed (fr_SandboxID result) e))
  | Ok _ => _ ← RegisterToken (fr_SandboxID result) apiToken; mret (Ok result)
  end.

Definition lift_engine {A} (p : prog G (res engine_error A)) : prog G (res daemon_error A) :=
  r ← p; mret (match r with Ok a => Ok a | Err e => Err (EngineFailed e) end).

Definition srv_Fork (snapshotID sandboxID : string) (env secrets : gmap string string)
    (netConf : option NetworkConfig) (volumes : list VolumeMount) (apiToken : string)
  : prog G (res daemon_error ForkResult) :=
  match volumeSpecs volumes with
  | Err e => mret (Err e)
  | Ok vols =>
      must result := lift_engine (fe_Fork snapshotID sandboxID (mkForkOpts (networkOpts netConf) vols)) in
      serve_or_reap result apiToken
        (deliverConfig (fr_SandboxID result) (fr_VsockPath result) env secrets (fr_GuestNetwork result)
           (fr_VolumeMounts result))
  end.

Definition srv_ForkRunning (sourceSandboxID newSandboxID : string) (pauseSource : bool) (apiToken : string)
  : prog G (res daemon_error ForkResult) :=
  must result := lift_engine (fe_ForkRunning sourceSandboxID newSandboxID pauseSource) in
  serve_or_reap result apiToken (notifyForkedRunning (fr_SandboxID result) (fr_VsockPath result)).

Definition srv_Terminate (sandboxID : string) : prog G (res daemon_error unit) :=
  _ ← UnregisterSandbox sandboxID;
  lift_engine (fe_Terminate sandboxID).

(** *** Listing *)

Definition unix (t : Z) : Z := t / second.

Fixpoint sandbox_infos (now : Z) (records : list SandboxRecord) : prog G (list SandboxInfo) :=
  match records with
  | [] => mret []
  | rec :: records =>
      last ← LastActivity (lr_ID rec);
      rest ← sandbox_infos now records;
      let at_ := created (lr_CreatedAt rec) in
      mret (mkSandboxInfo (lr_ID rec)
              (match at_ with Some t => unix t | None => -62135596800 end)
              (match last with Some t => unix t | None => 0 end)
              (match at_ with Some t => f64_to_int64 conv (duration_seconds (time_sub now t)) | None => 0 end) :: rest)
  end.

Definition srv_ListSandboxes : prog G (list SandboxInfo) :=
  records ← fe_ListSandboxes;
  now ← sys CNow;
  sandbox_infos now records.

(** *** The gRPC service *)

Inductive code :=
| InvalidArgument | ResourceExhausted | CodeNotFound | Internal | Unauthenticated | PermissionDenied | Unimplemented.

(** What carries a status of its own, wrapped or not. *)
Definition has_status (e : daemon_error) : bool :=
  match e with InvalidId | InvalidVolumeName _ => true | _ => false end.
Definition at_capacity (e : daemon_error) : bool :=
  match e with EngineFailed (ErrAtCapacity _ _) => true | _ => false end.

Definition grpcError (e : daemon_error) : code :=
  if has_status e then InvalidArgument
  else if at_capacity e then ResourceExhausted
  else if contains_sub "not found" (error_text e) then CodeNotFound
  else Internal.

Definition validateIDs (ids : list string) : res code unit :=
  if forallb validateSandboxID ids then Ok tt else Err InvalidArgument.

Definition rpc {A B} (p : prog G (res daemon_error A)) (answer : A -> B) : prog G (res code B) :=
  r ← p; mret (match r with Ok a => Ok (answer a) | Err e => Err (grpcError e) end).

(** The wrapped key of the request is stashed while [p] runs. *)
Definition with_key {A} (scopeID : string) (key : bytes) (kekID : string) (p : prog G A) : prog G A :=
  if (0 <? length key)%nat && keyProvider then
    _ ← Stash.SetWrappedKey scopeID key kekID;
    r ← p;
    _ ← Stash.ForgetKey scopeID;
    mret r
  else p.

Definition response (r : ForkResult) : ForkResponse :=
  mkForkResponse (fr_SandboxID r) (fr_Endpoint r) (fr_ForkTimeMs r) (fr_MemoryUnique r) (fr_MemoryShared r).

Definition grpc_Fork (req : ForkRequest) : prog G (res code ForkResponse) :=
  match validateIDs [q_SnapshotId req; q_SandboxId req] with
  | Err c => mret (Err c)
  | Ok _ =>
      with_key (q_SnapshotId req) (q_EncryptionKey req) (q_KekId req)
        (rpc (srv_Fork (q_SnapshotId req) (q_SandboxId req) (envMap (q_Env req)) (envMap (q_Secrets req))
                (q_Network req) (q_Volumes req) (q_ApiToken req)) response)
  end.

Definition grpc_ForkRunning (source new : string) (pauseSource : bool) (apiToken : string)
  : prog G (res code (string * string * SpecFloat.spec_float)) :=
  match validateIDs [source; new] with
  | Err c => mret (Err c)
  | Ok _ => rpc (srv_ForkRunning source new pauseSource apiToken)
              (fun r => (fr_SandboxID r, fr_Endpoint r, fr_ForkTimeMs r))
  end.

Definition grpc_Terminate (sandboxID : string) : prog G (res code unit) :=
  match validateIDs [sandboxID] with
  | Err c => mret (Err c)
  | Ok _ => rpc (srv_Terminate sandboxID) id
  end.

Definition digest_of (templateID : string) : prog G string :=
  c ← fe_GetCapacity; mret (default EmptyString (TemplateDigests c !! templateID)).

Definition grpc_CreateTemplate (req : CreateTemplateRequest) : prog G (res code (string * string)) :=
  match validateIDs [c_TemplateId req] with
  | Err c => mret (Err c)
  | Ok _ =>
      match volumeSpecs (c_Volumes req) with
      | Err e => mret (Err (grpcError e))
      | Ok vols =>
          with_key (c_TemplateId req) (c_EncryptionKey req) (c_KekId req)
            (must _ := rpc (lift_engine (fe_CreateTemplate (c_TemplateId req) (c_Image req) (c_InitCommands req) vols)) id in
             digest ← digest_of (c_TemplateId req);
             mret (Ok (c_TemplateId req, digest)))
      end
  end.

Definition grpc_PullTemplate (templateID manifestDigest sourceURL pullToken : string) : prog G (res code (string * string)) :=
  match validateIDs [templateID] with
  | Err c => mret (Err c)
  | Ok _ =>
      must _ := rpc (check PullFailed (fe_PullTemplate templateID manifestDigest sourceURL pullToken)) id in
      digest ← digest_of templateID;
      mret (Ok (templateID, digest))
  end.

Definition grpc_Exec : res code unit := Err Unimplemented.

(** *** Who may call *)

Definition ControllerName : string := "controller.mitos".

(** pki.PeerDNSName: the DNS names of the leaves of the peer's verified chains. *)
Definition PeerDNSName (tls : option (list (list (list string)))) : option string :=
  match tls with
  | Some ((leaf :: _) :: _) => head leaf
  | _ => None
  end.

Definition RequireControllerIdentity {A} (tls : option (list (list (list string)))) (handler : prog G (res code A))
  : prog G (res code A) :=
  match PeerDNSName tls with
  | None => mret (Err Unauthenticated)
  | Some name => if negb (String.eqb name ControllerName) then mret (Err PermissionDenied) else handler
  end.

End server.
End Server.

(** ** What the daemon relies on and promises *)

Module Contract.
Import Vsock Api Fork Admin State Server.

Abbreviation wp := (wp anything).

(** A request that was answered with success on a connection. *)
Definition acked (conn : Z) (req : agent_request) (resp : agent_response) (t : trace) : Prop :=
  exists t1 t2 l, t = t1 ++ Ev (CConnWrite conn (WRequest req)) true :: Ev (CConnRead conn) (Some l) :: t2 /\
    l_response l = Some resp /\ ar_OK resp = true.

Lemma acked_app conn req resp t ext : acked conn req resp t -> acked conn req resp (t ++ ext).
Proof. intros (t1 & t2 & l & -> & H). exists t1, (t2 ++ ext), l. split; [by rewrite <- app_assoc|done]. Qed.

Section contract.
Context {G : Type} `{HA : HasApi G} `{HG : HasGen G}.

(** The engine's side of one fork of [sandboxID] from the memory [g0]: the
    sandbox is running, or there is nothing of it, and either is a matter of the
    engine's part of the memory and of the processes alone. *)
Class ForkContract (FE : ForkEngine G) (sandboxID : string) (g0 : G) := {
  fk_part : Type;
  fk_view : G -> fk_part;
  fk_view_api : forall r g, fk_view (setApi r g) = fk_view g;
  fk_view_gen : forall n g, fk_view (setGen n g) = fk_view g;
  running : G -> trace -> Prop;
  gone : G -> trace -> Prop;
  running_still : forall g g' t ext,
    running g t -> fk_view g' = fk_view g -> Forall (fun e => no_proc (ev_call e)) ext -> running g' (t ++ ext);
  gone_still : forall g g' t ext,
    gone g t -> fk_view g' = fk_view g -> Forall (fun e => no_proc (ev_call e)) ext -> gone g' (t ++ ext);
  gone_before : gone g0 [];
  fk_Fork : forall snapshotID opts, wp (fe_Fork snapshotID sandboxID opts)
    (fun r g t => match r with Ok res => fr_SandboxID res = sandboxID /\ running g t | Err _ => gone g t end) g0 [];
  fk_Terminate : forall g t, running g t -> wp (fe_Terminate sandboxID) (fun _ => gone) g t;
  fk_Capacity : forall g t, wp fe_GetCapacity (fun c _ _ => KVMAvailable c = true) g t;
  fk_Capacity_view : keeps fk_view fe_GetCapacity;
  fk_Capacity_calls : calls_in no_proc fe_GetCapacity;
  (** The engine and the counter do not touch the sandbox API's registry. *)
  fk_gen_api : forall n g, getApi (setGen n g) = getApi g;
  fk_Fork_api : forall snapshotID opts, keeps getApi (fe_Fork snapshotID sandboxID opts);
  fk_Terminate_api : keeps getApi (fe_Terminate sandboxID);
  fk_Capacity_api : keeps getApi fe_GetCapacity }.


(** *** The registry *)

Definition unregister (id : string) (r : registry) : registry :=
  mkRegistry (delete id (agents r)) (delete id (tokens r)) (delete id (streamPaths r)) (delete id (lastActivity r))
    (openStreams r).
Definition registered (id path : string) (conn : Z) (r : registry) : registry :=
  mkRegistry (<[id := conn]> (agents r)) (tokens r) (<[id := path]> (streamPaths r)) (lastActivity r) (openStreams r).
Definition unknown (id : string) (r : registry) : Prop :=
  agents r !! id = None /\ tokens r !! id = None /\ streamPaths r !! id = None /\ lastActivity r !! id = None.

Lemma unregister_unknown id r : unknown id r -> unregister id r = r.
Proof. destruct r. intros (H1 & H2 & H3 & H4). unfold unregister. cbn in *. by rewrite !delete_id. Qed.
Lemma unregister_registered id path conn r : unregister id (registered id path conn r) = unregister id r.
Proof. unfold unregister, registered. cbn. by rewrite !delete_insert_eq. Qed.

(** *** The handshake, step by step *)

Lemma wp_send conn req (g : G) t :
  wp (send conn req)
    (fun r g' t' => g' = g /\ (exists ext, t' = t ++ ext) /\ forall resp, r = Ok resp -> acked conn req resp t') g t.
Proof.
  unfold send. apply wp_bind, wp_sys. intros [] _; cbn [negb]; [|apply wp_ret; split_and!; eauto; done].
  apply wp_bind, wp_sys. intros l _. apply wp_ret. split; [done|]. split; [rewrite <- app_assoc; eauto|]. intros resp H.
  destruct l as [l|]; [|done]. destruct (l_response l) as [r|] eqn:El; [|done].
  destruct (ar_OK r) eqn:Eo; cbn in H; [|done]. injection H as <-. exists t, [], l. by rewrite <- app_assoc.
Qed.

Lemma wp_same {A} (p : prog G A) g t : keeps id p -> wp p (fun _ g' _ => g' = g) g t.
Proof. intros Hp. apply (wp_keeps id anything p g t Hp). Qed.

Lemma keeps_connect (path : string) (port : Z) : keeps (id : G -> G) (Connect path port).
Proof. unfold Connect, dial, preamble, hang_up. walk. Qed.
Lemma keeps_connect_unix (path : string) : keeps (id : G -> G) (ConnectUnix path).
Proof. unfold ConnectUnix, dial. walk. Qed.

Lemma wp_register api id path (g : G) t :
  wp (register api id path)
    (fun r g' _ => match r with Ok _ => exists conn, getApi g' = registered id path conn (getApi g) | Err _ => g' = g end) g t.
Proof.
  unfold register, RegisterSandbox. apply wp_bind, wp_bind. eapply wp_mono; [by apply wp_same, keeps_connect|].
  cbv beta. intros c g1 t1 ->. apply wp_try.
  eapply wp_mono with (Q := fun _ g' _ => g' = g).
  { apply wp_same. pose proof keeps_connect_unix. walk. }
  intros [conn|e] g2 t2 ->; [|by apply wp_ret].
  apply wp_bind, wp_modify, wp_ret, wp_bind, wp_modify, wp_ret. exists conn. by rewrite !getApi_setApi.
Qed.

(** What the guest confirmed. *)
Definition reseeded (conn : Z) (net : option NotifyForkedNetwork) (vols : list VolumeMountEntry) (t : trace) : Prop :=
  exists gen now entropy resp, Ev (CRandom 32) (Some entropy) ∈ t /\
    acked conn (ANotifyForked gen now entropy (wire_network <$> net) (wire_volume <$> vols)) resp t /\
    ar_NotifyForked resp = Some true.

Lemma reseeded_app conn net vols t ext : reseeded conn net vols t -> reseeded conn net vols (t ++ ext).
Proof.
  intros (gen & now & entropy & resp & H1 & H2 & H3). exists gen, now, entropy, resp.
  split; [apply elem_of_app; by left|]. split; [by apply acked_app|done].
Qed.

Section steps.
Hypothesis gen_api : forall n g, getApi (setGen n g) = getApi g.

Lemma wp_notifyForked id net vols conn (g : G) t :
  agents (getApi g) !! id = Some conn ->
  wp (notifyForked id net vols)
    (fun r g' t' => getApi g' = getApi g /\ (r = Ok tt -> reseeded conn net vols t')) g t.
Proof using gen_api.
  intros Hconn. unfold notifyForked. apply wp_try, wp_some_or, wp_sys. intros [entropy|] _; [|done].
  apply wp_bind, wp_atomic. cbn [fst snd]. unfold api_NotifyForked, getAgent, rlocked. apply wp_bind, wp_bind, wp_atomic.
  cbn [fst snd]. rewrite gen_api, Hconn. apply wp_bind. unfold NotifyForkedWithConfig.
  apply wp_bind, wp_sys. intros now _. apply wp_try. eapply wp_mono; [apply wp_send|]. cbv beta.
  intros [resp|e] g1 t1 (-> & [ext ->] & Hack); [|apply wp_ret, wp_ret; split; [apply gen_api|done]].
  apply wp_ret, wp_ret, wp_ret. split; [apply gen_api|]. intros Hr.
  destruct (ar_NotifyForked resp) as [[]|] eqn:E; try done.
  exists ((getGen g + 1) mod 2 ^ 64), now, entropy, resp. split; [|split; [by apply Hack|done]].
  rewrite <- !app_assoc. apply elem_of_app. right. by left.
Qed.

(** A sandbox whose guest confirmed everything it was sent. *)
Definition handshaken (id path : string) (env secrets : gmap string string) (net : option NotifyForkedNetwork)
    (vols : list VolumeMountEntry) (r r' : registry) (t : trace) : Prop :=
  exists conn, r' = registered id path conn r /\ reseeded conn net vols t /\
    (secrets <> ∅ -> exists resp, acked conn (AConfigure env secrets) resp t).

Lemma wp_handshake api id path net vols env secrets (g : G) t :
  wp (handshake api id path env secrets net vols)
    (fun r g' t' => match r with
                    | Ok _ => handshaken id path env secrets net vols (getApi g) (getApi g') t'
                    | Err _ => unregister id (getApi g') = unregister id (getApi g)
                    end) g t.
Proof using gen_api.
  unfold handshake. apply wp_try. eapply wp_mono; [apply wp_register|]. cbv beta. intros [[]|e] g1 t1; [intros [conn Hreg]|by intros ->].
  assert (agents (getApi g1) !! id = Some conn) as Hconn by (rewrite Hreg; apply lookup_insert_eq).
  apply wp_try. eapply wp_mono; [by apply wp_notifyForked|]. cbv beta.
  intros [[]|e] g2 t2 [Hg2 Hseed]; [|by rewrite Hg2, Hreg, unregister_registered].
  specialize (Hseed eq_refl). rewrite Hreg in Hg2.
  destruct (_ && _) eqn:Eb.
  { apply wp_ret. exists conn. split; [done|]. split; [done|]. apply andb_true_iff in Eb as [_ Eb].
    apply bool_decide_eq_true in Eb. done. }
  unfold api_Configure, getAgent, rlocked. apply wp_bind, wp_bind, wp_atomic. cbn [fst snd].
  rewrite Hg2. cbn [agents registered]. rewrite lookup_insert_eq. unfold Configure.
  apply wp_bind, wp_try. eapply wp_mono; [apply wp_send|]. cbv beta.
  intros [resp|e] g3 t3 (-> & [ext ->] & Hack).
  - do 3 apply wp_ret. exists conn. split; [done|]. split; [by apply reseeded_app|eauto].
  - do 2 apply wp_ret. clear Eb. case_bool_decide; [|by rewrite Hg2, unregister_registered].
    exists conn. split; [done|]. split; [by apply reseeded_app|done].
Qed.
End steps.

(** *** What the daemon's own steps leave alone *)

Section view.
Context {V : Type} (v : G -> V).
Hypothesis v_api : forall r g, v (setApi r g) = v g.
Hypothesis v_gen : forall n g, v (setGen n g) = v g.

Lemma keeps_locked_view f : keeps v (locked f).
Proof using v_api. apply keeps_modify. intros g. apply v_api. Qed.
#[local] Hint Resolve keeps_locked_view : prog.

Lemma keeps_register api id path : keeps v (register api id path).
Proof using v_api.
  unfold register, RegisterSandbox, Connect, ConnectUnix, dial, preamble, hang_up, RegisterStreamPath. walk.
Qed.
Lemma keeps_notifyForked id net vols : keeps v (notifyForked id net vols).
Proof using v_gen.
  unfold notifyForked, api_NotifyForked, getAgent, rlocked, NotifyForkedWithConfig, send. walk; done.
Qed.
Lemma keeps_handshake api id path env secrets net vols : keeps v (handshake api id path env secrets net vols).
Proof using v_api v_gen.
  pose proof keeps_register. pose proof keeps_notifyForked.
  unfold handshake, api_Configure, getAgent, rlocked, Configure, send. walk; done.
Qed.
Lemma keeps_token id token : keeps v (RegisterToken id token).
Proof using v_api. unfold RegisterToken. walk. Qed.
Lemma keeps_unregister id : keeps v (UnregisterSandbox id).
Proof using v_api. unfold UnregisterSandbox, Close. walk. Qed.

End view.

Lemma calls_handshake api id path env secrets net vols :
  calls_in no_proc (handshake (G := G) api id path env secrets net vols).
Proof.
  unfold handshake, register, notifyForked, api_Configure, api_NotifyForked, getAgent, rlocked, Configure,
    NotifyForkedWithConfig, send, RegisterSandbox, Connect, ConnectUnix, dial, preamble, hang_up, RegisterStreamPath.
  walk; done.
Qed.
Lemma calls_unregister id : calls_in no_proc (UnregisterSandbox (G := G) id).
Proof. unfold UnregisterSandbox, Close. walk; done. Qed.
Lemma calls_token id token : calls_in no_proc (RegisterToken (G := G) id token).
Proof. unfold RegisterToken, locked. walk. Qed.

Lemma wp_UnregisterSandbox id (g : G) t :
  wp (UnregisterSandbox id) (fun _ g' _ => getApi g' = unregister id (getApi g)) g t.
Proof.
  unfold UnregisterSandbox, Close. apply wp_bind, wp_atomic. cbn [fst snd].
  destruct (agents _ !! id); [apply wp_sys; intros ? _|apply wp_ret]; apply getApi_setApi.
Qed.

Definition with_token (id token : string) (r : registry) : registry :=
  if String.eqb token EmptyString then r else with_tokens (<[id := token]> (tokens r)) r.
Lemma wp_RegisterToken id token (g : G) t :
  wp (RegisterToken id token) (fun _ g' t' => getApi g' = with_token id token (getApi g) /\ t' = t) g t.
Proof.
  unfold RegisterToken, with_token. destruct (String.eqb token EmptyString); [by apply wp_ret|].
  apply wp_modify. split; [apply getApi_setApi|done].
Qed.

(** *** The promise *)

Section promise.
Context {FE : ForkEngine G} (id : string) (g0 : G) {FC : ForkContract FE id g0}.
Variable parse_quantity : string -> option Z.
Variable api : SandboxAPI.

(** A step of the daemon's own keeps what the engine promised. *)
Lemma wp_hushed {A} (p : prog G A) (I : G -> trace -> Prop) g t :
  (forall g g' t ext, I g t -> fk_view g' = fk_view g -> Forall (fun e => no_proc (ev_call e)) ext -> I g' (t ++ ext)) ->
  keeps fk_view p -> calls_in no_proc p -> I g t -> wp p (fun _ => I) g t.
Proof.
  intros HI Hk Hc H. eapply wp_mono; [apply wp_and; [by apply (wp_keeps fk_view)|by apply (wp_calls no_proc)]|].
  cbv beta. intros _ g' t' [Hv (ext & -> & Hext)]. by eapply HI.
Qed.

Definition fork_promise (token : string) (env secrets : gmap string string) (r : res daemon_error ForkResult)
    (g : G) (t : trace) : Prop :=
  match r with
  | Ok res => fr_SandboxID res = id /\ running g t /\
      exists r1, handshaken id (fr_VsockPath res) env secrets (fr_GuestNetwork res) (fr_VolumeMounts res) (getApi g0) r1 t /\
                 getApi g = with_token id token r1
  | Err _ => gone g t /\ (unknown id (getApi g0) -> getApi g = getApi g0)
  end.

Lemma wp_reap {A} sb (r : A) g t :
  sb = id -> running g t -> unregister id (getApi g) = unregister id (getApi g0) ->
  wp (_ ← fe_Terminate sb; _ ← UnregisterSandbox sb; mret r)
    (fun r' g' t' => r' = r /\ gone g' t' /\ (unknown id (getApi g0) -> getApi g' = getApi g0)) g t.
Proof using FC.
  intros -> Hrun Hreg. apply wp_bind.
  eapply wp_mono; [apply wp_and; [by apply fk_Terminate|apply (wp_keeps getApi), fk_Terminate_api]|]. cbv beta.
  intros _ g1 t1 [Hg Hapi]. apply wp_bind.
  eapply wp_mono; [apply wp_and; [apply wp_UnregisterSandbox|
    apply (wp_hushed _ gone); [apply gone_still|apply keeps_unregister, fk_view_api|apply calls_unregister|exact Hg]]|].
  cbv beta. intros _ g2 t2 [Hapi2 Hg2]. apply wp_ret. split; [done|]. split; [done|]. intros Hun.
  by rewrite Hapi2, Hapi, Hreg, unregister_unknown.
Qed.

Lemma wp_deliverConfig path env secrets net vols g t :
  running g t -> getApi g = getApi g0 ->
  wp (deliverConfig api id path env secrets net vols)
    (fun r g' t' => running g' t' /\
       match r with
       | Ok _ => handshaken id path env secrets net vols (getApi g0) (getApi g') t'
       | Err _ => unregister id (getApi g') = unregister id (getApi g0)
       end) g t.
Proof using FC.
  intros Hrun Hapi. unfold deliverConfig. apply wp_bind.
  eapply wp_mono; [apply wp_and; [apply wp_and; [apply fk_Capacity|apply (wp_keeps getApi), fk_Capacity_api]|
    apply (wp_hushed _ running); [apply running_still|apply fk_Capacity_view|apply fk_Capacity_calls|exact Hrun]]|].
  cbv beta. intros c g1 t1 [[-> Hapi1] Hrun1]. cbn [negb]. rewrite <- Hapi, <- Hapi1.
  eapply wp_mono; [apply wp_and; [apply (wp_handshake fk_gen_api)|
    apply (wp_hushed _ running); [apply running_still|apply keeps_handshake; [apply fk_view_api|apply fk_view_gen]|
      apply calls_handshake|exact Hrun1]]|].
  by intros r g2 t2 [H1 H2].
Qed.

Lemma wp_srv_Fork snapshotID env secrets netConf volumes token :
  wp (srv_Fork parse_quantity api snapshotID id env secrets netConf volumes token) (fork_promise token env secrets) g0 [].
Proof using FC.
  unfold srv_Fork. destruct (volumeSpecs _ _) as [vols|e]; [|apply wp_ret; by split; [apply gone_before|]].
  apply wp_try, wp_bind.
  eapply wp_mono; [apply wp_and; [apply fk_Fork|apply (wp_keeps getApi), fk_Fork_api]|]. cbv beta.
  intros [res|e] g1 t1 [H1 Hapi]; apply wp_ret; [|by split; [|intros _]].
  destruct H1 as [Hid Hrun]. unfold serve_or_reap. apply wp_bind. rewrite Hid.
  eapply wp_mono; [by apply wp_deliverConfig|]. cbv beta. intros [[]|e] g2 t2 [Hrun2 H2].
  - apply wp_bind. eapply wp_mono; [apply wp_and; [apply wp_RegisterToken|
      apply (wp_hushed _ running); [apply running_still|apply keeps_token, fk_view_api|apply calls_token|exact Hrun2]]|].
    cbv beta. intros _ g3 t3 [[Hapi3 ->] Hrun3]. apply wp_ret. split; [done|]. split; [done|]. by exists (getApi g2).
  - eapply wp_mono; [by apply wp_reap|]. cbv beta. intros r g3 t3 (-> & Hg & Hr). by split.
Qed.

End promise.

End contract.
End Contract.

(** ** The daemon on its engine *)

Module Node.
Import Zoom Laws Footprints Ledger Vsock Api Seams State Fork Recovery Admin Server Contract.

(** The memory of the daemon's process: the engine's, the sandbox API's registry
    and the fork counter. *)
Record node_mem := mkNodeMem { nm_engine : mem; nm_api : registry; nm_gen : Z }.

#[global] Instance node_engine : Lens node_mem mem := {|
  view := nm_engine;
  put := fun m g => mkNodeMem m (nm_api g) (nm_gen g);
  view_put := fun _ _ => eq_refl;
  put_view := fun g => match g with mkNodeMem _ _ _ => eq_refl end;
  put_put := fun _ _ _ => eq_refl |}.
#[global] Instance node_api : HasApi node_mem := {|
  getApi := nm_api;
  setApi := fun r g => mkNodeMem (nm_engine g) r (nm_gen g);
  getApi_setApi := fun _ _ => eq_refl |}.
#[global] Instance node_gen : HasGen node_mem := {|
  getGen := nm_gen;
  setGen := fun n g => mkNodeMem (nm_engine g) (nm_api g) n;
  getGen_setGen := fun _ _ => eq_refl |}.
#[global] Instance node_wrapped : Stash.HasWrapped node_mem := {|
  Stash.getW := fun g => Stash.getW (nm_engine g);
  Stash.setW := fun w g => put (Stash.setW w (nm_engine g)) g;
  Stash.getW_setW := fun _ _ => eq_refl |}.

Section node.
Context `{LS : LawfulSeams}.
Variable unmarshal_other : string -> option Manifest.Manifest.
Variables (trim_other : string -> string) (fields_other : string -> list string).
Variable other_string : IP -> string.
Variable parse_v6 : string -> option IP.
Variable unicode_lower : string -> string.
Variable range_names : gmap string (list Z) -> list (string * list Z).
Variable time_text : Z -> string.
Variable write_ok : string -> bool.
Variable mtime : Z.
Variable parse_reference : string -> bool.
Variable range_sandboxes : gmap string Sandbox -> list (string * Sandbox).
Variable pull : string -> string -> string -> string -> prog mem bool.
Variable e : Engine.

(** The engine as the daemon sees it. *)
Definition engine_node : ForkEngine node_mem := {|
  fe_Fork := fun snapshotID sandboxID opts =>
    zoom (Fork unmarshal_other trim_other fields_other other_string parse_v6 unicode_lower range_names time_text e
            snapshotID sandboxID opts);
  fe_ForkRunning := fun source new pause =>
    zoom (ForkRunning fields_other other_string parse_v6 unicode_lower range_names time_text e source new pause);
  fe_Terminate := fun id => zoom (Terminate trim_other other_string e id);
  fe_GetCapacity := zoom (GetCapacity trim_other fields_other range_sandboxes e);
  fe_ListSandboxes := zoom (ListSandboxes range_sandboxes);
  fe_CreateTemplate := fun id image init specs =>
    zoom (CreateTemplate write_ok mtime parse_reference e id image init specs);
  fe_PullTemplate := fun id digest url token => zoom (pull id digest url token) |}.

(** A node on which [id] is free. *)
Record free (id : string) (g : mem) : Prop := {
  free_table : sandboxes g !! id = None;
  free_slots : 0 <= reserved g < 2 ^ 31 - 1;
  free_nets : networkEnabled e = true -> Alloc.wf (nets g) /\ Alloc.byID (nets g) !! id = None }.

Definition node_view (g : node_mem) := ledger (nm_engine g).

Lemma keeps_node_view {A} (p : prog mem A) : keeps ledger p -> keeps node_view (zoom p).
Proof using. unfold node_view. induction p as [a|X f k IH|c k IH]; cbn; [done| |auto]. intros [H1 H2]. by split; auto. Qed.

Lemma capacity_kvm g t :
  wp (GetCapacity trim_other fields_other range_sandboxes e) (fun c _ _ => KVMAvailable c = true) g t.
Proof using.
  unfold GetCapacity. apply wp_bind, wp_atomic. cbn [fst snd].
  assert (forall A (p : prog mem A) Q g t, (forall a g' t', Q a g' t') -> wp p Q g t) as Hany.
  { intros A p Q g1 t1 H. eapply wp_mono; [apply (wp_keeps (fun _ => tt)); clear; induction p; cbn; auto|auto]. }
  apply wp_bind, Hany. intros ids g1 t1. apply wp_bind, Hany. intros digests g2 t2. apply wp_bind, wp_sys. intros mi _.
  by apply wp_ret.
Qed.

Section contract.
Variables (id : string) (g0 : node_mem).
Hypothesis Hfree : free id (nm_engine g0).

Definition node_running (g : node_mem) (t : trace) : Prop :=
  exists sb c i, fcClient sb = Some c /\ netID sb = default no_identity i /\ (is_Some i -> networkEnabled e = true) /\
    holds id (nm_engine g0) (<[id := sb]> (sandboxes (nm_engine g0))) (reserved (nm_engine g0)) i (Some c) (nm_engine g) t.
Definition node_gone (g : node_mem) (t : trace) : Prop :=
  holds id (nm_engine g0) (sandboxes (nm_engine g0)) (reserved (nm_engine g0)) None None (nm_engine g) t.

#[local] Instance engine_contract : ForkContract engine_node id g0.
Proof using LS Hfree.
  refine {| fk_view := node_view; running := node_running; gone := node_gone |}; try done.
  - intros g g' t ext (sb & c & i & H1 & H2 & H3 & H4) Hv Hext. exists sb, c, i. split_and!; [done..|].
    eapply holds_still; [exact Hv|by apply live_no_proc|done].
  - intros g g' t ext H Hv Hext. eapply holds_still; [exact Hv|by apply live_no_proc|done].
  - intros snap opts. apply wp_zoom. destruct Hfree as [Htab Hslots Hnets].
    eapply wp_mono; [by apply wp_whole_fork|]. intros [res|err] g t; cbn [forked]; [|done].
    intros (sb & c & i & (Hid & _) & H). by split; [|exists sb, c, i].
  - intros g t (sb & c & i & H1 & H2 & H3 & H4). apply wp_zoom. eapply wp_mono; [by eapply wp_terminate|].
    cbv beta. intros r m t' [_ H]. unfold node_gone. by rewrite delete_id in H by apply Hfree.
  - intros g t. apply wp_zoom, capacity_kvm.
  - apply keeps_node_view. by eapply (GetCapacity_foot trim_other fields_other e ledger (fun _ => True)).
  - apply calls_zoom. eapply calls_mono; [apply quiet_no_process|].
    by eapply (GetCapacity_foot trim_other fields_other e ledger quiet_call).
  - intros snap opts. by apply keeps_zoom.
  - by apply keeps_zoom.
  - by apply keeps_zoom.
Defined.

End contract.

(** Everything of the node but the stashed keys and the fork counter. *)
Definition node_state (g : node_mem) :=
  (nm_api g, sandboxes (nm_engine g), reserved (nm_engine g), Uid.inUse (uids (nm_engine g)),
   net_state (nets (nm_engine g))).

(** What the controller can rely on when a Fork RPC on [g] returned. *)
Definition fork_outcome (req : ForkRequest) (g : node_mem) (r : res code ForkResponse) (g' : node_mem) (t : trace) : Prop :=
  let id := q_SandboxId req in
  match r with
  | Err _ => node_state g' = node_state g /\ live t = []
  | Ok resp => p_SandboxId resp = id /\
      (exists sb, sandboxes (nm_engine g') = <[id := sb]> (sandboxes (nm_engine g))) /\
      exists conn net vols, agents (nm_api g') !! id = Some conn /\ reseeded conn net vols t /\
        (envMap (q_Secrets req) <> ∅ ->
         exists resp, acked conn (AConfigure (envMap (q_Env req)) (envMap (q_Secrets req))) resp t) /\
        tokens (nm_api g') = (if String.eqb (q_ApiToken req) EmptyString then tokens (nm_api g)
                              else <[id := q_ApiToken req]> (tokens (nm_api g)))
  end.

Lemma wp_rpc_Fork parse_quantity error_text api req (g : node_mem) :
  free (q_SandboxId req) (nm_engine g) -> unknown (q_SandboxId req) (nm_api g) ->
  wp (rpc error_text (srv_Fork (FE := engine_node) parse_quantity api (q_SnapshotId req) (q_SandboxId req)
        (envMap (q_Env req)) (envMap (q_Secrets req)) (q_Network req) (q_Volumes req) (q_ApiToken req)) response)
    (fork_outcome req g) g [].
Proof using LS.
  intros Hfree Hun. pose (FC := engine_contract (q_SandboxId req) g Hfree). apply wp_bind.
  eapply wp_mono; [apply (wp_srv_Fork _ g (FC := FC))|]. cbv beta. intros [res|err] g1 t1; cbn [fork_promise].
  - intros (Hid & (sb & c & i & _ & _ & _ & Hsb & _) & r1 & (conn & -> & Hseed & Hconf) & Hapi). apply wp_ret.
    split; [done|]. split; [by exists sb|]. exists conn, (fr_GuestNetwork res), (fr_VolumeMounts res).
    change (nm_api g1 = with_token (q_SandboxId req) (q_ApiToken req)
              (registered (q_SandboxId req) (fr_VsockPath res) conn (nm_api g))) in Hapi.
    rewrite Hapi. unfold with_token. destruct (String.eqb _ _); cbn; (split; [apply lookup_insert_eq|done]).
  - intros ((H1 & H2 & H3 & H4 & H5) & Hapi). apply wp_ret. specialize (Hapi Hun). split; [|done].
    unfold node_state. change (nm_api g1 = nm_api g) in Hapi. cbn in H3. by rewrite Hapi, H1, H2, H3, H5.
Qed.

End node.

(** What the RPC guarantees in every environment. *)
Lemma wp_grpc_Fork `{LS : LawfulSeams} unmarshal_other trim_other fields_other other_string parse_v6 unicode_lower range_names time_text
    write_ok mtime parse_reference range_sandboxes pull (e : Engine) parse_quantity error_text api keyProvider req (g : node_mem) :
  free e (q_SandboxId req) (nm_engine g) -> unknown (q_SandboxId req) (nm_api g) ->
  let FE := engine_node unmarshal_other trim_other fields_other other_string parse_v6 unicode_lower range_names time_text
              write_ok mtime parse_reference range_sandboxes pull e in
  wp (grpc_Fork (FE := FE) parse_quantity error_text api keyProvider req) (fun r g' t => fork_outcome req g r g' t /\
    (validateIDs [q_SnapshotId req; q_SandboxId req] = Ok tt -> q_EncryptionKey req <> [] -> keyProvider = true ->
     keyring (tpl (nm_engine g')) !! q_SnapshotId req = None)) g [].
Proof.
  intros Hfree Hun FE.
  unfold grpc_Fork. destruct (validateIDs _) as [[]|c] eqn:Ev; [|by apply wp_ret].
  unfold with_key. destruct (q_EncryptionKey req) as [|k ks] eqn:Ek.
  { cbn. eapply wp_mono; [by apply wp_rpc_Fork|]. intros r g' t H. by split. }
  destruct keyProvider; cbn [length Nat.ltb andb].
  2: { eapply wp_mono; [by apply wp_rpc_Fork|]. intros r g' t H. by split. }
  apply wp_bind, wp_modify, wp_bind. eapply wp_mono; [apply wp_rpc_Fork; [|done]; by destruct Hfree|]. cbv beta.
  intros r g' t Hout. apply wp_bind, wp_modify, wp_ret. split; [exact Hout|]. intros _ _ _. apply lookup_delete_eq.
Qed.

(** C1. The Fork RPC on an id the node does not know, over the whole stack of gRPC
    service, engine and sandbox API, and whatever the host and the guest answer.
    When it succeeds, the guest has confirmed on its connection that it reseeded
    its random generator with 32 fresh bytes, it has confirmed its secrets if
    there are any, and the sandbox's token is the request's.  When it fails, at
    any point, the sandbox table, the slots, the uids, the addresses and the
    sandbox API's registry are as before and no process is left.  Either way the
    template's wrapped key is not kept. *)
Theorem rpc_fork_fail_closed `{LS : LawfulSeams} {O} (h : env O) unmarshal_other trim_other fields_other other_string
    parse_v6 unicode_lower range_names time_text write_ok mtime parse_reference range_sandboxes pull (e : Engine)
    parse_quantity error_text api keyProvider req (g : node_mem) (o : O) :
  free e (q_SandboxId req) (nm_engine g) -> unknown (q_SandboxId req) (nm_api g) ->
  let FE := engine_node unmarshal_other trim_other fields_other other_string parse_v6 unicode_lower range_names time_text
              write_ok mtime parse_reference range_sandboxes pull e in
  let '(r, g', _, t) := run h (grpc_Fork (FE := FE) parse_quantity error_text api keyProvider req) g o in
  fork_outcome req g r g' t /\
  (validateIDs [q_SnapshotId req; q_SandboxId req] = Ok tt -> q_EncryptionKey req <> [] -> keyProvider = true ->
   keyring (tpl (nm_engine g')) !! q_SnapshotId req = None).
Proof. intros Hfree Hun FE. exact (wp_run h _ _ g o [] (wp_grpc_Fork _ _ _ _ _ _ _ _ _ _ _ _ _ e _ _ _ _ req g Hfree Hun)). Qed.

End Node.

(** ** Examples *)

Module DaemonExamples.
Import Zoom Laws Ledger Vsock Api Seams State Fork Recovery Admin Server Contract Node SafetyExamples ForkExamples.
#[local] Existing Instances ex_nm ex_kp ex_cm ex_ib ex_lawful.

Definition ex_node (e : Engine) : ForkEngine node_mem :=
  engine_node (fun _ => None) (fun s => s) (fun _ => []) (fun _ => EmptyString) (fun _ => None) (fun s => s)
    map_to_list (fun _ => EmptyString) (fun _ => true) 0 (fun _ => false) map_to_list (fun _ _ _ _ => mret true) e.
Definition ex_grpc_Fork (e : Engine) (req : ForkRequest) : prog node_mem (res code ForkResponse) :=
  grpc_Fork (FE := ex_node e) (fun _ => None) (fun _ => EmptyString) NewSandboxAPI true req.
Definition fork_request (id : string) (key : bytes) : ForkRequest :=
  mkForkRequest "py" id [("LANG", "C")] [("API_KEY", "s3cret")] (Some (mkNetworkConfig "deny" [])) "tok" [] key "kek-1".
Definition full_node : node_mem := mkNodeMem full_mem no_sandboxes 0.

(** A guest that forgets to reseed: its NotifyForked says so. *)
Definition unseeded : env Z := fun c now =>
  match c return answer c * Z with
  | CConnRead _ => (Some (mkLine "OK 52" (Some (mkResponse true EmptyString None None None None (Some false) None)) None None), now)
  | c => host c now
  end.

Lemma rpc_fork_fail_closed_witness :
  let req := fork_request "sb-1" ["k"%char] in
  (let '(r, g', _, t) := run host (ex_grpc_Fork full_engine req) full_node 0 in
   is_ok r = true /\ fork_outcome req full_node r g' t) /\
  (let '(r, g', _, t) := run unseeded (ex_grpc_Fork full_engine req) full_node 0 in
   is_ok r = false /\ fork_outcome req full_node r g' t).
Proof.
  intros req.
  assert (free full_engine "sb-1" (nm_engine full_node)) as Hfree.
  { split; [vm_compute; reflexivity|split; [discriminate|reflexivity]|exact full_net]. }
  assert (unknown "sb-1" (nm_api full_node)) as Hun by (split_and!; reflexivity).
  split.
  - pose proof (rpc_fork_fail_closed host (fun _ => None) (fun s => s) (fun _ => []) (fun _ => EmptyString) (fun _ => None)
      (fun s => s) map_to_list (fun _ => EmptyString) (fun _ => true) 0 (fun _ => false) map_to_list (fun _ _ _ _ => mret true)
      full_engine (fun _ => None) (fun _ => EmptyString) NewSandboxAPI true req full_node 0 Hfree Hun) as H.
    assert (is_ok (run host (ex_grpc_Fork full_engine req) full_node 0).1.1.1 = true) as Hok by (vm_compute; reflexivity).
    cbv zeta in H. fold (ex_node full_engine) in H. fold (ex_grpc_Fork full_engine req) in H.
    destruct (run host (ex_grpc_Fork full_engine req) full_node 0) as [[[r g'] o'] t]. exact (conj Hok (proj1 H)).
  - pose proof (rpc_fork_fail_closed unseeded (fun _ => None) (fun s => s) (fun _ => []) (fun _ => EmptyString) (fun _ => None)
      (fun s => s) map_to_list (fun _ => EmptyString) (fun _ => true) 0 (fun _ => false) map_to_list (fun _ _ _ _ => mret true)
      full_engine (fun _ => None) (fun _ => EmptyString) NewSandboxAPI true req full_node 0 Hfree Hun) as H.
    assert (is_ok (run unseeded (ex_grpc_Fork full_engine req) full_node 0).1.1.1 = false) as Hok by (vm_compute; reflexivity).
    cbv zeta in H. fold (ex_node full_engine) in H. fold (ex_grpc_Fork full_engine req) in H.
    destruct (run unseeded (ex_grpc_Fork full_engine req) full_node 0) as [[[r g'] o'] t]. exact (conj Hok (proj1 H)).
Defined.

(** *** Interleavings of RPCs *)

Definition task {A} (p : prog node_mem A) : prog node_mem unit := _ ← p; mret tt.
Definition ex_Terminate (e : Engine) (id : string) : prog node_mem (res code unit) :=
  grpc_Terminate (FE := ex_node e) (fun _ => EmptyString) id.

Definition is_done {G} (n : node G) : bool := forallb (fun p => match p with Ret _ => true | _ => false end) (n_pool n).

(** A Terminate that comes between the handshake of a Fork and the registration
    of its token, the last of its 88 steps: the sandbox is gone, its token stays. *)
Definition terminated_early : node node_mem :=
  (schedule host (replicate 87 0%nat ++ replicate 60 1%nat ++ [0%nat])
     (mkNode [task (ex_grpc_Fork full_engine (fork_request "sb-1" [])); task (ex_Terminate full_engine "sb-1")] full_node []) 0).1.

Example token_outlives_sandbox :
  let g := n_mem terminated_early in
  (is_done terminated_early, map_to_list (sandboxes (nm_engine g)), map_to_list (agents (nm_api g)),
   map_to_list (tokens (nm_api g))) = (true, [], [], [("sb-1", "tok")]).
Proof. vm_compute. reflexivity. Qed.

(** Two Fork RPCs for one encrypted template on a node with room for one.  The
    one that is refused forgets the template's key, and the one that was admitted
    then finds none; alone it succeeds. *)
Definition sealed_engine : Engine :=
  mkEngine (Verify.mkConfig "/var/lib/mitos" "/boot/vmlinux" ex_env true true) "/usr/bin/firecracker"
    FcExamples.ex_jailer false false [] false false false None true true true 1 0 None true EmptyString EmptyString.
Definition sealed_fork (id : string) : prog node_mem unit :=
  task (ex_grpc_Fork sealed_engine
    (mkForkRequest "py" id [] [] None "tok" [] KmsExamples.ex_wrapped (Kms.kekID KmsExamples.the_kek))).
Definition forgotten (who : list nat) : node node_mem :=
  (schedule host who (mkNode [sealed_fork "sb-1"; sealed_fork "sb-2"] full_node []) 0).1.

Example refused_fork_forgets_key :
  let alone := forgotten (replicate 120 1%nat) in
  let both := forgotten ([0; 1; 1]%nat ++ replicate 5 0%nat ++ replicate 120 1%nat) in
  ((map_to_list (sandboxes (nm_engine (n_mem alone)))).*1, is_done both, (map_to_list (sandboxes (nm_engine (n_mem both)))).*1)
  = (["sb-2"], true, []).
Proof. vm_compute. reflexivity. Qed.

End DaemonExamples.
