(* ===== verification/EngineRecovery.v ===== *)
(** The engine after a crash of the daemon.

    - [Steady]: runs on a host whose answers do not change meanwhile.
    - [Restart]: reconcile rebuilds the sandbox table from the journal: exactly
      the sandboxes whose VM is still running, none of which it disturbs. *)
From S2P Require Import Prelude GoLib GoFs GoJson Netconf Nftables DnsProxy Cas Host Firecracker Volume Verify Metering Journal Engine EngineSafety.
#[local] Open Scope go_scope.

Module Steady.

Section steady.
Context {G : Type} (ans : forall c, answer c).

Definition steady : env unit := fun c o => (ans c, o).
Definition exec {A} (p : prog G A) (g : G) : A * G := let '(a, g', _, _) := run steady p g tt in (a, g').

Lemma exec_ret {A} (a : A) g : exec (mret a) g = (a, g).
Proof. done. Qed.
Lemma exec_sys c g : exec (sys c) g = (ans c, g).
Proof. done. Qed.
Lemma exec_atomic {X} (f : G -> X * G) g : exec (atomic f) g = f g.
Proof. unfold exec. cbn. by destruct (f g). Qed.
Lemma exec_modify f g : exec (modify f) g = (tt, f g).
Proof. done. Qed.
Lemma exec_bind {A B} (p : prog G A) (f : A -> prog G B) g :
  exec (p ≫= f) g = let '(a, g1) := exec p g in exec (f a) g1.
Proof.
  unfold exec. rewrite run_bind. destruct (run steady p g tt) as [[[a g1] []] t1].
  by destruct (run steady (f a) g1 tt) as [[[]]].
Qed.
Lemma exec_keeps {V A} (v : G -> V) (p : prog G A) g : keeps v p -> v (exec p g).2 = v g.
Proof.
  intros Hk. pose proof (wp_run steady p _ g tt [] (wp_keeps v anything p g [] Hk)) as H. unfold exec.
  by destruct (run steady p g tt) as [[[a g1] o1] t1].
Qed.

End steady.

(** Runs one host call. *)
Ltac ask :=
  rewrite exec_bind;
  lazymatch goal with |- context [exec ?ans (sys ?c) ?g] => change (exec ans (sys c) g) with (ans c, g) end;
  cbv beta iota.

End Steady.

Module Restart.
Import Steady Laws Footprints Seams State Gates Fork Recovery Admin Alloc Client Journal JournalFacts Uids.

(** *** The pid guard *)

(** Whether the process directory shows our VM: by the executable it runs, which
    may have been replaced on disk, or by its name where that is unreadable. *)
Definition verdict (ans : forall c, answer c) (trim_other : string -> string) (pid : Z) (bin : string) : bool :=
  let procDir := Join ["/proc"; format_d pid] in
  let by_comm := match ans (CReadFile (Join [procDir; "comm"])) with
                 | Some c => String.eqb (TrimSpace trim_other c) "firecracker" | None => false end in
  if pid <=? 0 then false
  else match ans (CStat procDir) with
       | None => false
       | Some _ =>
           match ans (CReadlink (Join [procDir; "exe"])) with
           | None => by_comm
           | Some exe =>
               if String.eqb exe EmptyString then by_comm
               else match ans (CEvalSymlinks bin) with
                    | Some r => negb (String.eqb r EmptyString) && (String.eqb exe r || String.eqb exe bin)
                    | None => false
                    end || String.eqb (Base (trim_suffix " (deleted)" exe)) "firecracker"
           end
       end.

Lemma exec_verifier ans trim_other pid bin g :
  exec ans (procfsVerifier trim_other pid bin) g = (verdict ans trim_other pid bin, g).
Proof.
  unfold procfsVerifier, verdict. destruct (pid <=? 0); [done|]. cbv zeta.
  ask. destruct (ans (CStat _)); [|done]. ask. destruct (ans (CReadlink _)) as [exe|]; [|by ask].
  destruct (String.eqb exe EmptyString); [by ask|]. ask.
  by destruct (match ans (CEvalSymlinks bin) with Some _ => _ | None => _ end).
Qed.

(** *** The journal *)

Definition journal_name (en : string * bool) : option string :=
  let '(name, isDir) := en in if isDir || negb (has_suffix ".json" name) then None else Some name.

Lemma exec_load_entries (ans : forall c, answer c) valid_time record_other dir (es : list (string * bool)) recs g :
  Forall2 (fun n rec => exists data, ans (CReadFile (Join [dir; n])) = Some data /\
                         unmarshal_record valid_time record_other data = Some rec) (omap journal_name es) recs ->
  exec (G := mem) ans (load_entries valid_time record_other dir es) g = (recs, g).
Proof.
  revert recs. induction es as [|[name isDir] es IH]; intros recs Hf; cbn [load_entries].
  - by inversion Hf.
  - cbn [omap list_omap journal_name] in Hf. destruct (isDir || negb (has_suffix ".json" name)); [by apply IH|].
    inversion Hf as [|? rec ? recs' (data & Hd & Hrec) Hf']; subst. ask. rewrite Hd. cbn [mbind option_bind].
    rewrite Hrec, exec_bind, (IH recs') by done. done.
Qed.

(** *** One record *)

(** Everything that identifies a VM and what it owns. *)
Record same_vm (sb sb' : Sandbox) : Prop := {
  same_ID : sb_ID sb' = sb_ID sb; same_template : sb_TemplateID sb' = sb_TemplateID sb;
  same_snapshot : sb_SnapshotID sb' = sb_SnapshotID sb; same_endpoint : sb_Endpoint sb' = sb_Endpoint sb;
  same_pid : sb_Pid sb' = sb_Pid sb; same_created : sb_CreatedAt sb' = sb_CreatedAt sb;
  same_vsock : sb_VsockPath sb' = sb_VsockPath sb; same_rootfs : rootfsPath sb' = rootfsPath sb;
  same_net : netID sb' = netID sb; same_volumes : hasVolumes sb' = hasVolumes sb;
  same_chroot : sb_chrootDir sb' = sb_chrootDir sb; same_jail : sb_jailerVMDir sb' = sb_jailerVMDir sb;
  same_uid : sb_jailedUID sb' = sb_jailedUID sb }.

Definition identity_ok (id : Identity) : Prop :=
  v4 (HostIP id) /\ v4 (GuestIP id) \/ HostIP id = [] /\ GuestIP id = [].

Lemma adopted_same other_string parse_v6 e sb u s :
  identity_ok (netID sb) -> same_vm sb (adopted_sandbox parse_v6 (record_of other_string e sb) u s).
Proof.
  intros Hid. assert (toIdentity parse_v6 (networkIdentityFrom other_string (netID sb)) = netID sb) as Hn; [|by split].
  destruct Hid as [[Hh Hg]|[Hh Hg]]; [by apply identity_roundtrip|].
  destruct (netID sb); cbn in *; subst. apply no_identity_roundtrip.
Qed.

Section restart.
Context `{LS : LawfulSeams}.
Context (ans : forall c, answer c).
Variables (trim_other : string -> string) (fields_other : string -> list string).
Variable other_string : IP -> string.
Variable parse_v6 : string -> option IP.
Variable e : Engine.

Definition alive (sb : Sandbox) : bool := verdict ans trim_other (sb_Pid sb) (firecrackerBin e).
Definition jailed (sb : Sandbox) : bool := negb (sb_jailedUID sb =? 0) && Firecracker.Allocator (jailer e).
Abbreviation rec_of := (record_of other_string e).

Lemma exec_adopt sb g :
  exists u s, let g' := (exec ans (adoptSandbox fields_other parse_v6 e (rec_of sb)) g).2 in
  sandboxes g' = <[sb_ID sb := adopted_sandbox parse_v6 (rec_of sb) u s]> (sandboxes g) /\
  uids g' = if jailed sb then Uid.MarkInUse (sb_jailedUID sb) (uids g) else uids g.
Proof using.
  unfold adoptSandbox. rewrite exec_bind.
  pose proof (exec_keeps ans (fun g => (sandboxes g, uids g)) (readMemoryStats fields_other (r_Pid (rec_of sb))) g
    ltac:(unfold readMemoryStats; walk)) as Hk.
  destruct (exec ans (readMemoryStats _ _) g) as [[u s] g1]. cbn [snd] in Hk. injection Hk as E1 E2. exists u, s. cbv zeta.
  unfold jailed. change (r_JailedUID (rec_of sb)) with (sb_jailedUID sb).
  destruct (negb (sb_jailedUID sb =? 0) && _); (destruct (negb (String.eqb _ _) && _); cbn; by rewrite ?E1, ?E2).
Qed.

Definition discard_record (dir : string) (rec : sandboxRecord) : prog mem unit :=
  _ ← reapArtifacts other_string parse_v6 e rec; _ ← remove dir (r_ID rec); mret tt.

(** What neither the table nor the uids notice. *)
Definition vm_table (g : mem) := (sandboxes g, uids g).
Lemma vm_table_view g g' :
  sandboxes g = sandboxes g' -> reserved g = reserved g' -> uids g = uids g' -> nets g = nets g' -> vm_table g = vm_table g'.
Proof using. unfold vm_table. congruence. Qed.
Lemma vm_table_nets a g : vm_table (set_nets a g) = vm_table g.
Proof using. done. Qed.
#[local] Hint Resolve vm_table_view vm_table_nets : prog.

Lemma exec_reap sb g :
  vm_table (exec ans (reapArtifacts other_string parse_v6 e (rec_of sb)) g).2 =
  (sandboxes g, if jailed sb then Uid.Release (sb_jailedUID sb) (uids g) else uids g).
Proof using LS.
  unfold reapArtifacts.
  do 4 (rewrite exec_bind;
        match goal with |- context [let '(_, _) := exec ans ?p ?g1 in _] =>
          let H := fresh in pose proof (exec_keeps ans vm_table p g1 ltac:(walk)) as H; destruct (exec ans p g1); cbn [snd] in H end).
  unfold return_uid, jailed. change (r_JailedUID (rec_of sb)) with (sb_jailedUID sb).
  unfold vm_table in *. destruct (negb (sb_jailedUID sb =? 0) && _); cbn; congruence.
Qed.

Lemma exec_discard dir sb g :
  vm_table (exec ans (discard_record dir (rec_of sb)) g).2 =
  (sandboxes g, if jailed sb then Uid.Release (sb_jailedUID sb) (uids g) else uids g).
Proof using LS.
  unfold discard_record. rewrite exec_bind. pose proof (exec_reap sb g) as H1.
  destruct (exec ans (reapArtifacts _ _ _ _) g) as [[] g1]. cbn [snd] in H1.
  rewrite <- H1. apply exec_keeps. walk.
Qed.

(** *** All records *)

Definition entry_ok (pre : list Sandbox) (g : mem) (id : string) : Prop :=
  (exists sb u s, sb ∈ pre /\ sb_ID sb = id /\ alive sb = true /\
     sandboxes g !! id = Some (adopted_sandbox parse_v6 (rec_of sb) u s)) \/
  (forall sb, sb ∈ pre -> sb_ID sb = id -> alive sb = false) /\ sandboxes g !! id = None.
Definition marked (a : Uid.UIDAllocator) (pre : list Sandbox) (g : mem) : Prop :=
  Uid.low (uids g) = Uid.low a /\ Uid.high (uids g) = Uid.high a /\
  forall sb, sb ∈ pre -> alive sb = true -> jailed sb = true -> sb_jailedUID sb ∈ Uid.inUse (uids g).

Definition reconcile_one (dir : string) (sb : Sandbox) (g : mem) : mem :=
  (exec ans (if alive sb then adoptSandbox fields_other parse_v6 e (rec_of sb)
             else discard_record dir (rec_of sb)) g).2.

Lemma exec_reconcile_all dir sbs g :
  exec ans (reconcile_all trim_other fields_other other_string parse_v6 e dir (map rec_of sbs)) g =
  (tt, fold_left (fun g sb => reconcile_one dir sb g) sbs g).
Proof using.
  revert g. induction sbs as [|sb sbs IH]; intros g; [done|]. cbn [map reconcile_all fold_left].
  rewrite exec_bind, exec_verifier. cbv beta iota. rewrite exec_bind. unfold reconcile_one at 2.
  change (r_Pid (rec_of sb)) with (sb_Pid sb). change (r_FirecrackerBin (rec_of sb)) with (firecrackerBin e).
  unfold alive, discard_record.
  destruct (verdict ans trim_other (sb_Pid sb) (firecrackerBin e));
    match goal with |- context [let '(_, _) := exec ans ?p g in _] => destruct (exec ans p g) as [[] g1] end; apply IH.
Qed.

Lemma reconcile_step a dir pre sb g :
  sb_ID sb ∉ (sb_ID <$> pre) ->
  (jailed sb = true -> Uid.low a <= sb_jailedUID sb <= Uid.high a) ->
  (forall sb', sb' ∈ pre -> jailed sb = true -> sb_jailedUID sb' <> sb_jailedUID sb) ->
  (forall id, entry_ok pre g id) -> marked a pre g ->
  (forall id, entry_ok (pre ++ [sb]) (reconcile_one dir sb g) id) /\ marked a (pre ++ [sb]) (reconcile_one dir sb g).
Proof using LS.
  intros Hid Hr Huid Ht (Hlo & Hhi & Hm). unfold reconcile_one. destruct (alive sb) eqn:Ea.
  - destruct (exec_adopt sb g) as (u & s & E1 & E2). revert E1 E2.
    generalize (exec ans (adoptSandbox fields_other parse_v6 e (rec_of sb)) g).2. intros g' E1 E2. split.
    + intros id. unfold entry_ok. rewrite E1. destruct (decide (id = sb_ID sb)) as [->|Hne].
      * left. exists sb, u, s. rewrite lookup_insert_eq. set_solver.
      * rewrite lookup_insert_ne by done. destruct (Ht id) as [(sb' & u' & s' & H1 & H2)|[H1 H2]].
        -- left. exists sb', u', s'. split; [set_solver|done].
        -- right. split; [|done]. intros sb' [Hin| ->%list_elem_of_singleton]%elem_of_app Hsb; [by apply H1|congruence].
    + assert (jailed sb = true -> uids g' = Uid.mkUIDAllocator (Uid.low (uids g)) (Uid.high (uids g)) (Uid.next (uids g))
                                  ({[sb_jailedUID sb]} ∪ Uid.inUse (uids g))) as Emark.
      { intros Hj. rewrite E2, Hj. unfold Uid.MarkInUse. specialize (Hr Hj).
        destruct (Z.ltb_spec (sb_jailedUID sb) (Uid.low (uids g))), (Z.ltb_spec (Uid.high (uids g)) (sb_jailedUID sb));
          [lia..|done]. }
      unfold marked. destruct (jailed sb) eqn:Ej; [rewrite Emark by done; cbn|rewrite E2]; (split; [done|]; split; [done|]);
        intros sb' [Hin| ->%list_elem_of_singleton]%elem_of_app Ha Hj.
      * specialize (Hm sb' Hin Ha Hj). clear -Hm. set_solver.
      * clear. set_solver.
      * by apply Hm.
      * congruence.
  - pose proof (exec_discard dir sb g) as E. revert E.
    generalize (exec ans (discard_record dir (rec_of sb)) g).2. intros g' [= E1 E2]. split.
    + intros id. unfold entry_ok. rewrite E1. destruct (Ht id) as [(sb' & u' & s' & H1 & H2)|[H1 H2]].
      * left. exists sb', u', s'. split; [set_solver|done].
      * right. split; [|done]. intros sb' [Hin| ->%list_elem_of_singleton]%elem_of_app Hsb; [by apply H1|done].
    + split; [by rewrite E2; destruct (jailed sb)|]. split; [by rewrite E2; destruct (jailed sb)|].
      intros sb' Hin Ha Hj. rewrite E2. apply elem_of_app in Hin as [Hin| ->%list_elem_of_singleton]; [|congruence].
      specialize (Hm sb' Hin Ha Hj). destruct (jailed sb) eqn:Ej; [|done]. specialize (Huid sb' Hin eq_refl).
      cbn. set_solver.
Qed.

Lemma reconcile_loop a dir sbs : forall pre g,
  NoDup (sb_ID <$> (pre ++ sbs)) ->
  (forall sb, sb ∈ sbs -> jailed sb = true -> Uid.low a <= sb_jailedUID sb <= Uid.high a) ->
  (forall i j sb sb', (pre ++ sbs) !! i = Some sb -> (pre ++ sbs) !! j = Some sb' ->
     jailed sb = true -> sb_jailedUID sb = sb_jailedUID sb' -> i = j) ->
  (forall id, entry_ok pre g id) -> marked a pre g ->
  let g' := fold_left (fun g sb => reconcile_one dir sb g) sbs g in
  (forall id, entry_ok (pre ++ sbs) g' id) /\ marked a (pre ++ sbs) g'.
Proof using LS.
  induction sbs as [|sb sbs IH]; intros pre g Hids Hr Hu Ht Hm; cbn [fold_left].
  - by rewrite app_nil_r.
  - destruct (reconcile_step a dir pre sb g) as [Ht' Hm']; try done.
    + rewrite fmap_app, fmap_cons in Hids. apply list.NoDup_app in Hids as (_ & Hd & _). intros Hin.
      by apply (Hd _ Hin), list_elem_of_here.
    + apply Hr, list_elem_of_here.
    + intros sb' Hin Hj Heq. apply list_elem_of_lookup in Hin as [i Hi].
      pose proof (lookup_lt_Some _ _ _ Hi).
      assert (length pre = i); [|lia]. eapply (Hu _ _ sb sb'); [by rewrite list_lookup_middle|by rewrite lookup_app_l|done|done].
    + change (sb :: sbs) with ([sb] ++ sbs) in *. rewrite (assoc_L (++)) in *. apply IH; try done.
      intros sb' Hin. apply Hr. by apply elem_of_app; right.
Qed.

Variable valid_time : string -> bool.
Variable record_other : string -> option sandboxRecord.

(** The journal of a daemon whose sandboxes were [sbs]; the directory may hold
    other entries. *)
Record journaled (dir : string) (sbs : list Sandbox) : Prop := {
  jn_entries : exists es, ans (CReadDir dir) = DirEntries es /\
    omap journal_name es = map (fun sb => sb_ID sb +:+ ".json") sbs;
  jn_files : forall sb, sb ∈ sbs -> ans (CReadFile (recordPath dir (sb_ID sb))) = Some (marshal_record (rec_of sb));
  jn_ok : forall sb, sb ∈ sbs -> rec_ok valid_time (rec_of sb) /\ identity_ok (netID sb);
  jn_ids : NoDup (sb_ID <$> sbs);
  jn_uids : forall i j sb sb', sbs !! i = Some sb -> sbs !! j = Some sb' ->
    jailed sb = true -> sb_jailedUID sb = sb_jailedUID sb' -> i = j }.

Lemma exec_load dir sbs g :
  journaled dir sbs -> exec (G := mem) ans (load valid_time record_other dir) g = (Some (map rec_of sbs), g).
Proof using.
  intros [(es & Hd & Hn) Hf Hok _ _]. unfold load. ask. rewrite Hd, exec_bind.
  rewrite (exec_load_entries ans valid_time record_other dir es (map rec_of sbs)); [done|]. rewrite Hn.
  clear Hn Hd. induction sbs as [|sb sbs IH]; cbn [map]; constructor.
  - eexists. split; [apply Hf, list_elem_of_here|]. apply record_roundtrip, Hok, list_elem_of_here.
  - apply IH; intros sb' Hin; [apply Hf|apply Hok]; by apply list_elem_of_further.
Qed.

Lemma reconcile_quiet :
  calls_in quiet_call (reconcile trim_other fields_other other_string parse_v6 valid_time record_other e).
Proof using LS.
  assert (forall c, quiet_call c -> quiet_call c) as HP by done.
  assert (forall dir es, calls_in quiet_call (load_entries (G := mem) valid_time record_other dir es)) as Hl.
  { intros dir es. induction es as [|[n d] es IH]; cbn [load_entries]; walk. }
  assert (forall dir recs, calls_in quiet_call
    (reconcile_all trim_other fields_other other_string parse_v6 e dir recs)) as Hr.
  { intros dir recs. induction recs as [|rec recs IH]; cbn [reconcile_all]; [walk|].
    unfold adoptSandbox, reapArtifacts, return_uid, release_uid. walk. }
  unfold reconcile, load. walk.
Qed.

(** The table and the uids of the restarted daemon. *)
Lemma reconcile_tables dir sbs g :
  journal e = Some dir -> sandboxes g = ∅ -> journaled dir sbs ->
  (forall sb, sb ∈ sbs -> jailed sb = true -> Uid.low (uids g) <= sb_jailedUID sb <= Uid.high (uids g)) ->
  let g' := (exec ans (reconcile trim_other fields_other other_string parse_v6 valid_time record_other e) g).2 in
  (forall id, entry_ok sbs g' id) /\ marked (uids g) sbs g'.
Proof using LS.
  intros Hj Hg Hjn Hr. unfold reconcile. rewrite Hj, exec_bind, (exec_load dir sbs) by done. cbv beta iota.
  rewrite exec_reconcile_all. apply (reconcile_loop (uids g) dir sbs []); try done.
  - apply Hjn.
  - apply Hjn.
  - intros id. right. rewrite Hg. split; [|done]. by intros sb Hin%elem_of_nil.
  - split; [done|]. split; [done|]. by intros sb Hin%elem_of_nil.
Qed.

Lemma tables_recovered dir sbs g a :
  journaled dir sbs -> (forall id, entry_ok sbs g id) -> marked a sbs g -> recovered e g.
Proof using.
  intros Hjn Ht (_ & _ & Hm).
  assert (forall id sb', sandboxes g !! id = Some sb' -> exists sb u s, sb ∈ sbs /\ sb_ID sb = id /\ alive sb = true /\
            sb' = adopted_sandbox parse_v6 (rec_of sb) u s) as Hin.
  { intros id sb' Hl. destruct (Ht id) as [(sb & u & s & H1 & H2 & H3 & H4)|[_ H]]; [|congruence].
    exists sb, u, s. rewrite Hl in H4. by injection H4. }
  assert (forall sb u s w, adopted_uid e (adopted_sandbox parse_v6 (rec_of sb) u s) = Some w ->
            jailed sb = true /\ w = sb_jailedUID sb) as Hau.
  { intros sb u s w. unfold adopted_uid, jailed. cbn. destruct (negb (sb_jailedUID sb =? 0) && _); [|done]. by intros [= <-]. }
  split.
  - intros id sb' (sb & u & s & H1 & H2 & H3 & ->)%Hin. split; [done|].
    intros w [Hjl ->]%Hau. by apply Hm.
  - intros id id' s1 s2 w (sb & u & s & H1 & <- & H3 & ->)%Hin (sb2 & u2 & s2' & K1 & <- & K3 & ->)%Hin [J1 ->]%Hau [J2 E]%Hau.
    apply list_elem_of_lookup in H1 as [i Hi], K1 as [j Hjx].
    pose proof (jn_uids _ _ Hjn i j sb sb2 Hi Hjx J1 E) as ->. congruence.
Qed.

End restart.

(** C11. A daemon restarts on a host where the records of its sandboxes [sbs] are in
    the journal and nothing changes meanwhile.  Its new table holds exactly the
    sandboxes whose process the pid guard recognises, each with the identity,
    process, paths, uid and network address it had, whatever else is in the
    directory.  Every adopted uid is marked and they are distinct, so the
    allocator cannot hand one out again.  And no process is started, killed or
    sent an API request: the running VMs are left alone. *)
Theorem restart_recovers `{LS : LawfulSeams} (ans : forall c, answer c) trim_other fields_other other_string parse_v6
    valid_time record_other (e : Engine) (dir : string) (sbs : list Sandbox) (g : mem) :
  journal e = Some dir -> sandboxes g = ∅ -> journaled ans other_string e valid_time dir sbs ->
  (forall sb, sb ∈ sbs -> jailed e sb = true -> Uid.low (uids g) <= sb_jailedUID sb <= Uid.high (uids g)) ->
  let '(_, g', _, t) := run (steady ans) (reconcile trim_other fields_other other_string parse_v6 valid_time
                                            record_other e) g tt in
  (forall sb, sb ∈ sbs -> alive ans trim_other e sb = true ->
     exists sb', sandboxes g' !! sb_ID sb = Some sb' /\ same_vm sb sb' /\ adopted sb' = true) /\
  (forall id sb', sandboxes g' !! id = Some sb' ->
     exists sb, sb ∈ sbs /\ alive ans trim_other e sb = true /\ sb_ID sb = id) /\
  recovered e g' /\
  (forall ev, ev ∈ t -> quiet_call (ev_call ev)).
Proof.
  intros Hj Hg Hjn Hrange.
  pose proof (reconcile_tables ans trim_other fields_other other_string parse_v6 e valid_time record_other dir sbs g
    Hj Hg Hjn Hrange) as Htab.
  pose proof (wp_run (steady ans) _ _ g tt [] (wp_calls quiet_call anything _ g []
    (reconcile_quiet trim_other fields_other other_string parse_v6 e valid_time record_other))) as Hq.
  unfold exec in Htab. destruct (run (steady ans) _ g tt) as [[[[] g'] o'] t]. cbn [snd] in Htab. destruct Htab as [Ht Hm].
  destruct Hq as (ext & Hext & Hq). cbn [app] in Hext. subst ext. split; [|split; [|split]].
  - intros sb Hin Ha. destruct (Ht (sb_ID sb)) as [(sb2 & u & s & H1 & H2 & H3 & H4)|[H _]].
    2: { by rewrite (H sb Hin eq_refl) in Ha. }
    assert (sb2 = sb) as ->.
    { apply list_elem_of_lookup in H1 as [i Hi], Hin as [j Hjx].
      assert (i = j) as ->; [|congruence]. eapply (NoDup_lookup _ i j (sb_ID sb) (jn_ids _ _ _ _ _ _ Hjn)).
      - by rewrite list_lookup_fmap, Hi, <- H2.
      - by rewrite list_lookup_fmap, Hjx. }
    eexists. split; [exact H4|]. split; [|done]. apply adopted_same. by apply (jn_ok _ _ _ _ _ _ Hjn).
  - intros id sb' Hl. destruct (Ht id) as [(sb & u & s & H1 & H2 & H3 & H4)|[_ H]]; [|congruence]. eauto.
  - by eapply tables_recovered.
  - intros ev Hin. by apply (proj1 (list.Forall_forall _ _) Hq).
Qed.

End Restart.

Module RestartExamples.
Import Steady Restart Laws Seams State Fork Recovery Alloc Journal JournalFacts SafetyExamples Uids.
#[local] Existing Instances ex_nm ex_kp ex_cm ex_ib ex_lawful.

Definition ex_dir : string := "/var/lib/mitos/sandboxes".
Definition ex_sandbox (id : string) (pid uid : Z) (net : Identity) : Sandbox :=
  mkSandbox id "py" "py" "127.0.0.1:10000" pid "2026-06-01T12:00:00Z" 0 0 None
    ("/srv/jailer/firecracker/" +:+ id +:+ "/root/vsock.sock") "/var/lib/mitos/templates/py/rootfs.ext4" net false []
    EmptyString EmptyString uid false EmptyString.

(** One sandbox survives the crash, the VM of the other has exited. *)
Definition survivor : Sandbox :=
  ex_sandbox "a" 101 10000 (MkIdentity "mt01" "02:00:00:00:00:07" [10; 200; 0; 1] [10; 200; 0; 2]).
Definition casualty : Sandbox := ex_sandbox "b" 102 10001 no_identity.

Definition ex_record (sb : Sandbox) : string := marshal_record (record_of (fun _ => EmptyString) (ex_engine 10) sb).
Definition ex_ans (c : call) : answer c :=
  match c return answer c with
  | CReadDir _ => DirEntries [("a", true); ("a.json", false); ("a.77.tmp", false); ("b.json", false)]
  | CReadFile p =>
      if String.eqb p (recordPath ex_dir "a") then Some (ex_record survivor)
      else if String.eqb p (recordPath ex_dir "b") then Some (ex_record casualty) else None
  | CStat p => if String.eqb p "/proc/101" then Some (mkFileInfo 0 0 true false) else None
  | CReadlink _ => Some "/usr/bin/firecracker"
  | c => (obliging c 0).1
  end.

Lemma ex_journaled :
  journaled ex_ans (fun _ => EmptyString) (ex_engine 10) (fun _ => true) ex_dir [survivor; casualty].
Proof.
  split.
  - eexists. split; reflexivity.
  - intros sb [->|[->|[]%elem_of_nil]%elem_of_cons]%elem_of_cons; vm_compute; reflexivity.
  - intros sb [->|[->|[]%elem_of_nil]%elem_of_cons]%elem_of_cons; (split; [split|]).
    all: try (repeat split; vm_compute; done).
    + repeat constructor.
    + left. repeat split; repeat constructor; lia.
    + repeat constructor.
    + by right.
  - apply (bool_decide_unpack _). vm_compute. exact I.
  - intros [|[|[|]]] [|[|[|]]] sb sb' [= <-] [= <-]; done.
Qed.

Lemma restart_recovers_witness :
  alive ex_ans (fun s => s) (ex_engine 10) survivor = true /\
  alive ex_ans (fun s => s) (ex_engine 10) casualty = false /\
  let '(_, g', _, t) := run (steady ex_ans) (reconcile (fun s => s) (fun _ => []) (fun _ => EmptyString) (fun _ => None)
      (fun _ => true) (fun _ => None) (ex_engine 10)) (ex_mem ∅ FcExamples.ex_uids) tt in
  (forall sb, sb ∈ [survivor; casualty] -> alive ex_ans (fun s => s) (ex_engine 10) sb = true ->
     exists sb', sandboxes g' !! sb_ID sb = Some sb' /\ same_vm sb sb' /\ adopted sb' = true) /\
  (forall id sb', sandboxes g' !! id = Some sb' ->
     exists sb, sb ∈ [survivor; casualty] /\ alive ex_ans (fun s => s) (ex_engine 10) sb = true /\ sb_ID sb = id) /\
  recovered (ex_engine 10) g' /\
  (forall ev, ev ∈ t -> quiet_call (ev_call ev)).
Proof.
  split; [vm_compute; reflexivity|]. split; [vm_compute; reflexivity|].
  refine (restart_recovers ex_ans (fun s => s) (fun _ => []) (fun _ => EmptyString) (fun _ => None)
    (fun _ => true) (fun _ => None) (ex_engine 10) ex_dir [survivor; casualty] (ex_mem ∅ FcExamples.ex_uids)
    eq_refl eq_refl ex_journaled _).
  intros sb [->|[->|[]%elem_of_nil]%elem_of_cons]%elem_of_cons _; vm_compute; split; discriminate.
Defined.

End RestartExamples.
