(* ===== verification/Husk.v ===== *)
(** * The husk pod (internal/husk; cmd/husk-stub: makeSandboxServer)

    A process that owns one VM: dormant at first, activated in place from a
    snapshot, then held until the pod ends.

    - [Stub]: the state machine and its operations, over the Firecracker client,
      the guest agent, the sandbox API and the node's store; the control channel.
    - [StubFacts]: what a successful activation has done and a failed one has
      not, and that the process never owns a second VM.
    - [HuskExamples]: a pod on a concrete host, and requests that surprise. *)
From S2P Require Import Prelude GoLib GoFs Cas Wire Host Vsock SandboxApi Firecracker Volume Verify Workspace Engine Daemon.
#[local] Open Scope go_scope.

Module Stub.
Import Chunk Manifest Store Uid Client Vsock Api ForkVolumes Snapcompat Server.

(** ** State *)

Inductive State := StateNew | StateDormant | StateActive.

#[global] Instance State_eq_dec : EqDecision State.
Proof. solve_decision. Defined.

(** Options with the production seams, and the VM's configuration.  [CASOpen] is
    whether New could open the node's store; [SandboxAddr] is the address the
    sandbox API is served on, when it is. *)
Record Options := mkOptions {
  cfg : VMConfig; ManifestPath : string; Env : Environment; AllowUnverified : bool; ReadyTimeout : Z;
  PrepareSnapshotDir : string; PrepareExpectedDigest : string; RootfsTemplatePath : string; RootfsCoWDir : string;
  ForksDir : string; CASOpen : bool; SandboxAddr : option string }.

(** The fields of the stub that change. *)
Record stub := mkStub {
  st_state : State; st_vm : option Client; st_generation : Z; st_prepareVerified : bool; st_rootfsClonePath : string }.
Definition new_stub : stub := mkStub StateNew None 0 false EmptyString.

(** The memory of the process: the stub, the uid allocator, the registry of the
    sandbox API, what binding its address gave once it was tried, and the
    node's store. *)
Record pod := mkPod {
  pd_stub : stub; pd_uids : UIDAllocator; pd_api : registry; pd_served : option bool; pd_store : Store }.

Definition with_stub (s : stub) (g : pod) : pod := mkPod s (pd_uids g) (pd_api g) (pd_served g) (pd_store g).
Definition with_served (ok : bool) (g : pod) : pod := mkPod (pd_stub g) (pd_uids g) (pd_api g) (Some ok) (pd_store g).

#[global] Instance pod_uids : HasUids pod := {|
  getA := pd_uids; setA := fun a g => mkPod (pd_stub g) a (pd_api g) (pd_served g) (pd_store g);
  getA_setA := fun _ _ => eq_refl |}.
#[global] Instance pod_api : HasApi pod := {|
  getApi := pd_api; setApi := fun r g => mkPod (pd_stub g) (pd_uids g) r (pd_served g) (pd_store g);
  getApi_setApi := fun _ _ => eq_refl |}.
#[global] Instance pod_store : Workspace.Transfer.HasStore pod Store := {|
  Workspace.Transfer.getS := pd_store;
  Workspace.Transfer.setS := fun s g => mkPod (pd_stub g) (pd_uids g) (pd_api g) (pd_served g) s;
  Workspace.Transfer.getS_setS := fun _ _ => eq_refl |}.

(** The updates of single fields. *)
Definition with_state (x : State) (s : stub) : stub :=
  mkStub x (st_vm s) (st_generation s) (st_prepareVerified s) (st_rootfsClonePath s).
Definition with_vm (x : option Client) (s : stub) : stub :=
  mkStub (st_state s) x (st_generation s) (st_prepareVerified s) (st_rootfsClonePath s).
Definition with_generation (x : Z) (s : stub) : stub :=
  mkStub (st_state s) (st_vm s) x (st_prepareVerified s) (st_rootfsClonePath s).
Definition with_verified (s : stub) : stub :=
  mkStub (st_state s) (st_vm s) (st_generation s) true (st_rootfsClonePath s).
Definition with_clone (x : string) (s : stub) : stub :=
  mkStub (st_state s) (st_vm s) (st_generation s) (st_prepareVerified s) x.

Definition get_stub : prog pod stub := atomic (fun g => (pd_stub g, g)).
Definition update (f : stub -> stub) : prog pod unit := modify (fun g => with_stub (f (pd_stub g)) g).

(** ** Messages and errors *)

Export Control.

Inductive verify_refusal :=
| NoDigest | BadDigest | NoManifest | BadManifest | OtherManifest (got : string) | Altered (e : Store.verify_error)
| Incompatible (e : incompatible).
Inductive ready_error := GuestSilent | GuestClock | GuestPanic.
Inductive notify_error := NoAgent (e : vsock_error) | NotNotified (e : vsock_error) | NotReseeded | NotConfigured (e : vsock_error).
Inductive husk_error :=
| WrongState (s : State) | Cancelled | StartFailed (e : fc_error) | Refused (e : verify_refusal) | CloneDir | CloneFailed (e : vol_error)
| EmptyDir | NotLoaded | NotRebound | NotResumed | NotReady (e : ready_error) | NoEntropy | NotHandshaken (e : notify_error)
| NotServed (e : option vsock_error) | OutsideForksDir | ForkDir | NotPaused | NotSnapshotted (e : fc_error) | RemoveFailed
| NoCAS | NoTransport (e : vsock_error) | WorkspaceFailed (e : Workspace.Blobs.ws_error) | BadContentDigest | BadParentDigest
| DiffFailed (e : cas_error) | VMGone.

Definition entropySize : Z := 32.
Definition huskSandboxID : string := "husk".
Definition latency_ms (start finish : Z) : SpecFloat.spec_float :=
  f64_div (f64_of_int (Z.quot (time_sub finish start) 1000)) (f64_of_int 1000).

Section stub.
Variable unmarshal_other : string -> option Manifest.
Variable api : SandboxAPI.
Variable opts : Options.
(** Whether the request's context has ended. *)
Variable cancelled : bool.

(** ** Verification (verify.go) *)

Definition mem_file (dir : string) : string := Join [dir; "mem"].
Definition vmstate_file (dir : string) : string := Join [dir; "vmstate"].
Definition loaded_files (dir : string) : list (string * string) := [("mem", mem_file dir); ("vmstate", vmstate_file dir)].

(** [range_files]: the order in which the range statement visits the two files. *)
Variable range_files : list (string * string) -> list (string * string).

Definition verifySnapshot (dir digest : string) : prog pod (res verify_refusal unit) :=
  if String.eqb digest EmptyString then mret (Err NoDigest)
  else if negb (Validate digest) then mret (Err BadDigest)
  else
    must data := some_or NoManifest (sys (CReadFile (ManifestPath opts))) in
    match decodeManifest unmarshal_other (String.list_ascii_of_string data) with
    | None => mret (Err BadManifest)
    | Some m =>
        if negb (String.eqb (manifest_digest m) digest) then mret (Err (OtherManifest (manifest_digest m)))
        else
          fs ← sys (CScan dir);
          mret (match VerifyFilesAgainstManifest fs m (range_files (loaded_files dir)) with
                | Err e => Err (Altered e)
                | Ok _ => match Check m (Env opts) with Err e => Err (Incompatible e) | Ok _ => Ok tt end
                end)
    end.

Definition verify (dir digest : string) : prog pod (res husk_error unit) :=
  r ← verifySnapshot dir digest;
  mret (match r with Ok _ => Ok tt | Err e => if AllowUnverified opts then Ok tt else Err (Refused e) end).

(** ** The guest *)

Definition ready_interval : Z := 20000000.

(** One attempt every 20ms until the deadline; [GuestClock] is the fuel running
    out.  A ping that is answered without its part panics. *)
Fixpoint guest_ready (vsockPath : string) (deadline : Z) (fuel : nat) : prog pod (res ready_error unit) :=
  match fuel with
  | O => mret (Err GuestClock)
  | S fuel =>
      now ← sys CNow;
      if now <? deadline then
        c ← Connect vsockPath AgentPort;
        let again := _ ← sys (CSleep ready_interval); guest_ready vsockPath deadline fuel in
        match c with
        | Err _ => again
        | Ok client =>
            p ← Ping client;
            match p with
            | Err NilDeref => mret (Err GuestPanic)
            | Ok _ => _ ← Close client; mret (Ok tt)
            | Err _ => _ ← Close client; again
            end
        end
      else mret (Err GuestSilent)
  end.
Definition ready_fuel (timeout : Z) : nat := S (S (Z.to_nat (timeout / ready_interval))).
Definition productionGuestReady (vsockPath : string) (timeout : Z) : prog pod (res ready_error unit) :=
  start ← sys CNow; guest_ready vsockPath (start + timeout) (ready_fuel timeout).

Definition notify_client (client generation : Z) (entropy : bytes) (req : ActivateRequest) : prog pod (res notify_error unit) :=
  resp ← NotifyForkedWithConfig client generation entropy (wire_network <$> a_Network req) (wire_volume <$> a_Volumes req);
  match resp with
  | Err e => mret (Err (NotNotified e))
  | Ok (Some true) =>
      if bool_decide (a_Env req = ∅) && bool_decide (a_Secrets req = ∅) then mret (Ok tt)
      else
        r ← Configure client (a_Env req) (a_Secrets req);
        mret (match r with Ok _ => Ok tt | Err e => Err (NotConfigured e) end)
  | Ok _ => mret (Err NotReseeded)
  end.
Definition productionNotifier (vsockPath : string) (generation : Z) (entropy : bytes) (req : ActivateRequest)
  : prog pod (res notify_error unit) :=
  c ← Connect vsockPath AgentPort;
  match c with
  | Err e => mret (Err (NoAgent e))
  | Ok client => r ← notify_client client generation entropy req; _ ← Close client; mret r
  end.

Definition DefaultReadyTimeout : Z := 10 * second.
Definition readyTimeout : Z := if ReadyTimeout opts =? 0 then DefaultReadyTimeout else ReadyTimeout opts.

(** The hook of cmd/husk-stub: the address is bound once, and what that gave is
    what every later activation gets. *)
Definition bind_once (addr : string) : prog pod bool :=
  served ← atomic (fun g => (pd_served g, g));
  match served with
  | Some ok => mret ok
  | None => ok ← sys (CListen addr); _ ← modify (with_served ok); mret ok
  end.
Definition onActivated (addr vsockPath token : string) : prog pod (res husk_error unit) :=
  r ← RegisterSandbox api huskSandboxID vsockPath;
  match r with
  | Err e => mret (Err (NotServed (Some e)))
  | Ok _ =>
      _ ← RegisterStreamPath huskSandboxID vsockPath;
      _ ← RegisterToken huskSandboxID token;
      check (NotServed None) (bind_once addr)
  end.

(** ** The life of the VM *)

(** A failed step of Prepare tears the VMM down. *)
Definition or_close (vm : Client) (p : prog pod (res husk_error unit)) : prog pod (res husk_error unit) :=
  r ← p;
  match r with
  | Ok _ => mret (Ok tt)
  | Err e => _ ← Kill vm; _ ← update (with_vm None); mret (Err e)
  end.

Definition clonePath : string := Join [RootfsCoWDir opts; ID (cfg opts); "rootfs.ext4"].
Definition clone_rootfs : prog pod (res husk_error unit) :=
  must _ := check CloneDir (sys (CMkdirAll (Dir clonePath))) in
  r ← Backend.ReflinkCopy (RootfsTemplatePath opts) clonePath;
  mret (match r with Ok _ => Ok tt | Err e => Err (CloneFailed e) end).

Definition both_set (a b : string) : bool := negb (String.eqb a EmptyString) && negb (String.eqb b EmptyString).

Definition Prepare : prog pod (res husk_error unit) :=
  s ← get_stub;
  if negb (bool_decide (st_state s = StateNew)) then mret (Err (WrongState (st_state s)))
  else if cancelled then mret (Err Cancelled)
  else
    started ← StartVM (cfg opts);
    match started with
    | Err e => mret (Err (StartFailed e))
    | Ok vm =>
        _ ← update (with_vm (Some vm));
        must _ := (if both_set (PrepareSnapshotDir opts) (PrepareExpectedDigest opts) then
                     must _ := or_close vm (verify (PrepareSnapshotDir opts) (PrepareExpectedDigest opts)) in
                     _ ← update with_verified; mret (Ok tt)
                   else mret (Ok tt)) in
        must _ := (if both_set (RootfsTemplatePath opts) (RootfsCoWDir opts) then
                     must _ := or_close vm clone_rootfs in
                     _ ← update (with_clone clonePath); mret (Ok tt)
                   else mret (Ok tt)) in
        _ ← update (with_state StateDormant);
        mret (Ok tt)
    end.

(** Whether Prepare has verified the snapshot a request names. *)
Definition prepared (s : stub) (req : ActivateRequest) : bool :=
  st_prepareVerified s && String.eqb (a_SnapshotDir req) (PrepareSnapshotDir opts)
  && String.eqb (a_ExpectedDigest req) (PrepareExpectedDigest opts).

(** Activate from the running guest on. *)
Definition serve_guest (vm : Client) (req : ActivateRequest) (start : Z) : prog pod (res husk_error ActivateResult) :=
  let vsockPath := VsockHostPath vm VsockRelPath in
  ready ← productionGuestReady vsockPath readyTimeout;
  match ready with
  | Err e => mret (Err (NotReady e))
  | Ok _ =>
      must entropy := some_or NoEntropy (sys (CRandom entropySize)) in
      gen ← atomic (fun g => let n := (st_generation (pd_stub g) + 1) mod 2 ^ 64 in
                             (n, with_stub (with_generation n (pd_stub g)) g));
      notified ← productionNotifier vsockPath gen entropy req;
      match notified with
      | Err e => mret (Err (NotHandshaken e))
      | Ok _ =>
          must _ := match SandboxAddr opts with
                    | None => mret (Ok tt)
                    | Some addr => onActivated addr vsockPath (a_Token req)
                    end in
          finish ← sys CNow;
          _ ← update (with_state StateActive);
          mret (Ok (mkActivated vsockPath (latency_ms start finish)))
      end
  end.

(** The snapshot is loaded paused, the drive rebound, and only then is the guest
    resumed. *)
Definition activate_vm (s : stub) (vm : Client) (req : ActivateRequest) : prog pod (res husk_error ActivateResult) :=
  start ← sys CNow;
  must _ := (if prepared s req then mret (Ok tt) else verify (a_SnapshotDir req) (a_ExpectedDigest req)) in
  must _ := check NotLoaded (LoadSnapshotWithOverrides vm (mem_file (a_SnapshotDir req)) (vmstate_file (a_SnapshotDir req))
              false (a_NetworkOverrides req)) in
  must _ := (if String.eqb (st_rootfsClonePath s) EmptyString then mret (Ok tt)
             else check NotRebound (PatchDrive vm "rootfs" (st_rootfsClonePath s))) in
  must _ := check NotResumed (Resume vm) in
  serve_guest vm req start.

Definition Activate (req : ActivateRequest) : prog pod (res husk_error ActivateResult) :=
  s ← get_stub;
  if negb (bool_decide (st_state s = StateDormant)) then mret (Err (WrongState (st_state s)))
  else if cancelled then mret (Err Cancelled)
  else if String.eqb (a_SnapshotDir req) EmptyString then mret (Err EmptyDir)
  else match st_vm s with None => mret (Err VMGone) | Some vm => activate_vm s vm req end.

Definition stub_Close : prog pod bool :=
  s ← get_stub;
  _ ← (if String.eqb (st_rootfsClonePath s) EmptyString then mret tt
       else _ ← sys (CRemove (st_rootfsClonePath s)); update (with_clone EmptyString));
  match st_vm s with
  | None => mret true
  | Some vm =>
      k ← Kill vm;
      _ ← update (fun s => with_state StateNew (with_vm None s));
      mret k.2
  end.

(** ** Fork snapshots *)

Definition confineToForksDir (dir : string) : bool :=
  if String.eqb (ForksDir opts) EmptyString then true
  else
    let base := Clean (ForksDir opts) in
    let target := Clean dir in
    String.eqb target base || has_prefix (base +:+ "/") target.

Definition fork_vm (vm : Client) (req : ForkSnapshotRequest) : prog pod (res husk_error ForkSnapshotResult) :=
  let dir := fs_SnapshotDir req in
  must _ := check ForkDir (sys (CMkdirAll dir)) in
  start ← sys CNow;
  must _ := check NotPaused (Pause vm) in
  snap ← CreateSnapshot vm (mem_file dir) (vmstate_file dir);
  match snap with
  | Err e => _ ← Resume vm; mret (Err (NotSnapshotted e))
  | Ok _ =>
      must _ := (if fs_PauseSource req then mret (Ok tt) else check NotResumed (Resume vm)) in
      finish ← sys CNow;
      mret (Ok (mkForked dir (latency_ms start finish)))
  end.

Definition ForkSnapshot (req : ForkSnapshotRequest) : prog pod (res husk_error ForkSnapshotResult) :=
  s ← get_stub;
  if negb (bool_decide (st_state s = StateActive)) then mret (Err (WrongState (st_state s)))
  else if cancelled then mret (Err Cancelled)
  else if String.eqb (fs_SnapshotDir req) EmptyString then mret (Err EmptyDir)
  else if negb (confineToForksDir (fs_SnapshotDir req)) then mret (Err OutsideForksDir)
  else match st_vm s with None => mret (Err VMGone) | Some vm => fork_vm vm req end.

Definition RemoveForkSnapshot (dir : string) : prog pod (res husk_error unit) :=
  if String.eqb dir EmptyString then mret (Err EmptyDir)
  else if negb (confineToForksDir dir) then mret (Err OutsideForksDir)
  else check RemoveFailed (sys (CRemoveAll dir)).

(** ** Workspaces *)

Section workspace.
Variable trim_other : string -> string.
Variable untar : string -> list Workspace.Transfer.member * bool.
Variable mktar : list Workspace.Transfer.member -> string.
(** Which files of a temporary directory can be written and whether walking it
    succeeds; which of the store's writes, creations and syncs succeed; its clock. *)
Variables (file_ok : string -> bool) (walk_ok : bool) (write_ok create_ok sync_ok : string -> bool) (mtime : Z).

#[local] Instance node_cas : Workspace.Blobs.ChunkStore Store :=
  Workspace.Blobs.plain_store unmarshal_other write_ok create_ok sync_ok mtime.

(** dialWorkspaceAgent around the transfer; the client is closed in the end. *)
Definition with_agent {A} (vm : Client) (p : Z -> prog pod (res husk_error A)) : prog pod (res husk_error A) :=
  c ← Connect (VsockHostPath vm VsockRelPath) AgentPort;
  match c with
  | Err e => mret (Err (NoTransport e))
  | Ok client => r ← p client; _ ← Close client; mret r
  end.

Definition lift_ws {A} (p : prog pod (res Workspace.Blobs.ws_error A)) : prog pod (res husk_error A) :=
  r ← p; mret (match r with Ok a => Ok a | Err e => Err (WorkspaceFailed e) end).

Definition diffManifests (parent child : string) : prog pod (res husk_error Diff) :=
  s ← atomic (fun g => (pd_store g, g));
  mret (match GetManifest unmarshal_other s parent with
        | Err e => Err (DiffFailed e)
        | Ok pm =>
            match GetManifest unmarshal_other s child with
            | Err e => Err (DiffFailed e)
            | Ok cm => Ok (Workspace.Outputs.DiffManifests pm cm)
            end
        end).

(** What both workspace operations check first. *)
Definition active_with_store : prog pod (res husk_error Client) :=
  s ← get_stub;
  mret (if negb (bool_decide (st_state s = StateActive)) then Err (WrongState (st_state s))
        else if cancelled then Err Cancelled
        else if negb (CASOpen opts) then Err NoCAS
        else match st_vm s with None => Err VMGone | Some vm => Ok vm end).

Definition DehydrateWorkspace (req : DehydrateWorkspaceRequest) : prog pod (res husk_error DehydrateWorkspaceResult) :=
  must vm := active_with_store in
  with_agent vm (fun client =>
    start ← sys CNow;
    must digest := lift_ws (Workspace.Transfer.DehydrateTo (VT := Workspace.Transfer.vsock_transport client)
                              trim_other untar file_ok cancelled (dw_ExcludePaths req) (dw_CapturePaths req)) in
    if negb (Validate digest) then mret (Err BadContentDigest)
    else
      must diff := (if String.eqb (dw_ParentManifestDigest req) EmptyString then mret (Ok None)
                    else if negb (Validate (dw_ParentManifestDigest req)) then mret (Err BadParentDigest)
                    else must d := diffManifests (dw_ParentManifestDigest req) digest in mret (Ok (Some d))) in
      finish ← sys CNow;
      mret (Ok (mkDehydrated digest diff (latency_ms start finish)))).

Definition HydrateWorkspace (req : HydrateWorkspaceRequest) : prog pod (res husk_error SpecFloat.spec_float) :=
  must vm := active_with_store in
  if negb (Validate (hw_ManifestDigest req)) then mret (Err BadContentDigest)
  else
    with_agent vm (fun client =>
      start ← sys CNow;
      must _ := lift_ws (Workspace.Transfer.HydrateFrom (VT := Workspace.Transfer.vsock_transport client)
                           mktar walk_ok cancelled (hw_ManifestDigest req)) in
      finish ← sys CNow;
      mret (Ok (latency_ms start finish))).

(** ** The control channel (control.go, netcontrol.go) *)

Inductive auth_error := NoTLS | NoCertificate | NotController (name : option string).
(** [state]: the DNS names of the certificates of the peer's verified chains. *)
Definition AuthorizeControllerIdentity (state : option (list (list (list string)))) : res auth_error unit :=
  match state with
  | None => Err NoTLS
  | Some ((leaf :: _) :: _) =>
      match leaf with
      | [] => Err (NotController None)
      | name :: _ => if String.eqb name ControllerName then Ok tt else Err (NotController (Some name))
      end
  | Some _ => Err NoCertificate
  end.

(** A line of the control channel: its value as the op envelope and as each of
    the requests. *)
Record ctl_line := mkCtl {
  cl_op : option string; cl_activate : option ActivateRequest; cl_fork : option ForkSnapshotRequest;
  cl_remove : option RemoveForkSnapshotRequest; cl_dehydrate : option DehydrateWorkspaceRequest;
  cl_hydrate : option HydrateWorkspaceRequest }.

Inductive reply :=
| ReActivate (r : res husk_error ActivateResult) | ReFork (r : res husk_error ForkSnapshotResult)
| ReRemove (dir : string) (r : res husk_error unit) | ReDehydrate (r : res husk_error DehydrateWorkspaceResult)
| ReHydrate (r : res husk_error SpecFloat.spec_float).

Definition OpActivate : string := "activate".
Definition ReadControlOp (ls : list ctl_line) : option (string * list ctl_line) :=
  match ls with
  | [] => None
  | l :: ls => op ← cl_op l; Some (if String.eqb op EmptyString then OpActivate else op, ls)
  end.

(** No reply is a connection closed without one. *)
Definition dispatch (op : string) (l : ctl_line) : prog pod (option reply) :=
  let serve {A B} (o : option A) (p : A -> prog pod B) (re : B -> reply) : prog pod (option reply) :=
    match o with None => mret None | Some q => r ← p q; mret (Some (re r)) end in
  if String.eqb op OpActivate then serve (cl_activate l) Activate ReActivate
  else if String.eqb op "fork-snapshot" then serve (cl_fork l) ForkSnapshot ReFork
  else if String.eqb op "remove-fork-snapshot" then
    match cl_remove l with
    | None => mret None
    | Some q => r ← RemoveForkSnapshot (rf_SnapshotDir q); mret (Some (ReRemove (rf_SnapshotDir q) r))
    end
  else if String.eqb op "dehydrate-workspace" then serve (cl_dehydrate l) DehydrateWorkspace ReDehydrate
  else if String.eqb op "hydrate-workspace" then serve (cl_hydrate l) HydrateWorkspace ReHydrate
  else mret None.

(** [peer] is [None] when the handshake fails. *)
Definition serveControlConn (peer : option (option (list (list (list string))))) (ls : list ctl_line)
  : prog pod (option reply) :=
  match peer with
  | None => mret None
  | Some state =>
      match AuthorizeControllerIdentity state with
      | Err _ => mret None
      | Ok _ =>
          match ReadControlOp ls with
          | Some (op, l :: _) => dispatch op l
          | _ => mret None
          end
      end
  end.

(** The local socket carries activate requests alone. *)
Definition handleConn (l : option ctl_line) : prog pod (option reply) :=
  match l with
  | Some l => match cl_activate l with None => mret None | Some q => r ← Activate q; mret (Some (ReActivate r)) end
  | None => mret None
  end.

End workspace.
End stub.
End Stub.

(** ** Activation fails closed *)

Module StubFacts.
Import Chunk Manifest Store Uid Client ClientFacts Vsock Api ForkVolumes Snapcompat Server Contract Stub.

(** The requests made to the VMM, and how they were answered. *)
Definition api_request (e : event) : option (http_method * string * body * bool) :=
  match e with
  | Ev (CApi _ m path b) st => Some (m, path, b, match st with Some n => n <? 400 | None => false end)
  | _ => None
  end.
Definition api_requests (t : trace) : list (http_method * string * body * bool) := omap api_request t.

Lemma api_requests_app t1 t2 : api_requests (t1 ++ t2) = api_requests t1 ++ api_requests t2.
Proof. apply omap_app. Qed.

Definition no_api (c : call) : Prop := match c with CApi _ _ _ _ => False | _ => True end.

Lemma no_api_requests ext : Forall (fun e => no_api (ev_call e)) ext -> api_requests ext = [].
Proof. induction 1 as [|[c x] ext Hc _ IH]; [done|]. unfold api_requests in *. cbn [omap list_omap]. rewrite IH. by destruct c. Qed.

(** A program that changes no memory and asks the VMM nothing. *)
Lemma wp_aside {A} (p : prog pod A) g t :
  keeps id p -> calls_in no_api p ->
  wp p (fun _ g' t' => g' = g /\ exists ext, t' = t ++ ext /\ api_requests ext = []) g t.
Proof.
  intros Hk Hc. eapply wp_mono; [apply wp_and; [by apply (wp_keeps id)|by apply (wp_calls no_api)]|].
  cbv beta. intros _ g' t' [Hg (ext & -> & Hext)]. split; [exact Hg|]. exists ext. split; [done|]. by apply no_api_requests.
Qed.

Lemma wp_husk_api vm m path b (g : pod) t :
  wp (api vm m path b) (fun ok g' t' => g' = g /\ exists e, t' = t ++ [e] /\ api_requests [e] = [(m, path, b, ok)]) g t.
Proof. unfold api. apply wp_bind, wp_sys. intros st _. apply wp_ret. split; [done|]. eexists. split; [done|]. done. Qed.

Section activation.
Variable um : string -> option Manifest.
Variable sapi : SandboxAPI.
Variable opts : Options.
Variable range_files : list (string * string) -> list (string * string).

(** The files of the snapshot were read and found to be those of the manifest
    the digest names, which this node can restore. *)
Definition verified (dir digest : string) (t : trace) : Prop :=
  exists data fs m, Ev (CReadFile (ManifestPath opts)) (Some data) ∈ t /\ Ev (CScan dir) fs ∈ t /\
    decodeManifest um (String.list_ascii_of_string data) = Some m /\ manifest_digest m = digest /\
    VerifyFilesAgainstManifest fs m (range_files (loaded_files dir)) = Ok () /\ Check m (Env opts) = Ok tt.

Lemma verified_app dir digest t ext : verified dir digest t -> verified dir digest (t ++ ext).
Proof using.
  intros (data & fs & m & H1 & H2 & H). exists data, fs, m. split; [apply elem_of_app; by left|]. split; [apply elem_of_app; by left|done].
Qed.

Lemma wp_verify dir digest g t :
  wp (verify um opts range_files dir digest)
    (fun r g' t' => g' = g /\ (exists ext, t' = t ++ ext /\ api_requests ext = []) /\
       (r = Ok tt -> AllowUnverified opts = true \/ verified dir digest t')) g t.
Proof using.
  assert (keeps id (verify um opts range_files dir digest)) as Hk by (unfold verify, verifySnapshot; walk).
  assert (calls_in no_api (verify um opts range_files dir digest)) as Hc by (unfold verify, verifySnapshot; walk).
  eapply wp_mono; [apply wp_and; [by apply wp_aside|]|cbv beta; intros r g' t' [[H1 H2] H3]; split; [exact H1|]; split; [exact H2|exact H3]].
  clear Hk Hc. unfold verify. apply wp_bind.
  eapply wp_mono with (Q := fun r _ t' => r = Ok tt -> verified dir digest t').
  - unfold verifySnapshot. destruct (String.eqb digest EmptyString); [done|]. destruct (negb (Validate digest)); [done|].
    apply wp_try, wp_some_or, wp_sys. intros [data|] _; [|done]. destruct (decodeManifest _ _) as [m|] eqn:Ed; [|done].
    destruct (String.eqb_spec (manifest_digest m) digest) as [Em|]; cbn [negb]; [|done].
    apply wp_bind, wp_sys. intros fs _. apply wp_ret. intros Hr.
    destruct (VerifyFilesAgainstManifest _ _ _) as [[]|] eqn:Ev; [|done]. destruct (Check m (Env opts)) as [[]|] eqn:Ek; [|done].
    exists data, fs, m. split_and!; try done; [apply elem_of_app; left; apply elem_of_app; right; by left|apply elem_of_app; right; by left].
  - intros r g1 t1 Hr. apply wp_ret. intros E. destruct r as [[]|e]; [right; by apply Hr|]. destruct (AllowUnverified opts); [by left|done].
Qed.

Lemma keeps_send_pod {V} (v : pod -> V) conn req : keeps v (send conn req).
Proof using. unfold send. walk. Qed.
Lemma calls_send_pod conn req : calls_in no_api (send (G := pod) conn req).
Proof using. unfold send. walk. Qed.
Lemma keeps_connect_pod {V} (v : pod -> V) path port : keeps v (Connect path port).
Proof using. unfold Connect, dial, preamble, hang_up. walk. Qed.
Lemma calls_connect_pod path port : calls_in no_api (Connect (G := pod) path port).
Proof using. unfold Connect, dial, preamble, hang_up. walk. Qed.
#[local] Hint Resolve keeps_send_pod calls_send_pod keeps_connect_pod calls_connect_pod : prog.

Lemma keeps_guest_ready {V} (v : pod -> V) path deadline fuel : keeps v (guest_ready path deadline fuel).
Proof using. induction fuel as [|fuel IH]; cbn [guest_ready]; unfold Ping, Close; walk. Qed.
Lemma calls_guest_ready path deadline fuel : calls_in no_api (guest_ready path deadline fuel).
Proof using. induction fuel as [|fuel IH]; cbn [guest_ready]; unfold Ping, Close; walk. Qed.

(** The guest answered. *)
Definition answered (t : trace) : Prop := exists conn resp, acked conn APing resp t.

Lemma wp_guest_ready path deadline fuel g t :
  wp (guest_ready path deadline fuel) (fun r _ t' => r = Ok tt -> answered t') g t.
Proof using.
  revert g t. induction fuel as [|fuel IH]; intros g t; cbn [guest_ready]; [done|]. apply wp_bind, wp_sys. intros now _.
  destruct (now <? deadline); [|done]. apply wp_bind. eapply wp_mono; [by apply wp_same, keeps_connect_pod|].
  assert (forall g t, wp (_ ← sys (CSleep ready_interval); guest_ready path deadline fuel) (fun r _ t' => r = Ok tt -> answered t') g t)
    as Hagain by (intros g1 t1; apply wp_bind, wp_sys; intros x _; apply IH).
  assert (forall conn g t, wp (_ ← sys (CAgentClose conn); _ ← sys (CSleep ready_interval); guest_ready path deadline fuel)
    (fun r _ t' => r = Ok tt -> answered t') g t) as Hclose by (intros conn g1 t1; apply wp_bind, wp_sys; intros x _; apply Hagain).
  cbv beta. intros [client|e] g1 t1 _; [|apply Hagain].
  unfold Ping. apply wp_bind, wp_try. eapply wp_mono; [apply wp_send|]. cbv beta. unfold Close.
  intros [resp|e] g2 t2 (-> & _ & Hack); [|destruct e; first [apply Hclose|done]].
  apply wp_ret. destruct (part (ar_Ping resp)) as [z|[]]; first [apply Hclose|done|idtac].
  apply wp_bind, wp_sys. intros x _. apply wp_ret. intros _. exists client, resp. by apply acked_app, Hack.
Qed.

(** The guest confirmed fresh entropy, and the configuration if there was one. *)
Definition confirmed (gen : Z) (entropy : bytes) (req : ActivateRequest) (t : trace) : Prop :=
  exists conn now resp, acked conn (ANotifyForked gen now entropy (wire_network <$> a_Network req) (wire_volume <$> a_Volumes req)) resp t /\
    ar_NotifyForked resp = Some true /\
    (a_Env req <> ∅ \/ a_Secrets req <> ∅ -> exists resp', acked conn (AConfigure (a_Env req) (a_Secrets req)) resp' t).

Lemma confirmed_app gen entropy req t ext : confirmed gen entropy req t -> confirmed gen entropy req (t ++ ext).
Proof using.
  intros (conn & now & resp & H1 & H2 & H3). exists conn, now, resp. split; [by apply acked_app|]. split; [done|].
  intros H. destruct (H3 H) as [resp' H4]. exists resp'. by apply acked_app.
Qed.

Lemma keeps_notifier {V} (v : pod -> V) path gen entropy req : keeps v (productionNotifier path gen entropy req).
Proof using. unfold productionNotifier, notify_client, NotifyForkedWithConfig, Configure, Close. walk. Qed.
Lemma calls_notifier path gen entropy req : calls_in no_api (productionNotifier path gen entropy req).
Proof using. unfold productionNotifier, notify_client, NotifyForkedWithConfig, Configure, Close. walk. Qed.

Lemma wp_notify_client client gen entropy req g t :
  wp (notify_client client gen entropy req) (fun r _ t' => r = Ok tt -> confirmed gen entropy req t') g t.
Proof using.
  unfold notify_client, NotifyForkedWithConfig. apply wp_bind, wp_bind, wp_sys. intros now _.
  apply wp_try. eapply wp_mono; [apply wp_send|]. cbv beta. intros [resp|e] g1 t1 (-> & _ & Hack); [|done].
  apply wp_ret. destruct (ar_NotifyForked resp) as [[]|] eqn:En; [|done..]. specialize (Hack resp eq_refl).
  destruct (_ && _) eqn:Eb.
  - apply wp_ret. intros _. exists client, now, resp. split; [done|]. split; [done|].
    apply andb_true_iff in Eb as [E1%bool_decide_eq_true E2%bool_decide_eq_true]. by intros [?|?].
  - unfold Configure. apply wp_bind, wp_try. eapply wp_mono; [apply wp_send|]. cbv beta.
    intros [resp'|e] g2 t2 (-> & [ext ->] & Hack'); [|done]. apply wp_ret, wp_ret. intros _.
    exists client, now, resp. split; [by apply acked_app|]. split; [done|]. intros _. exists resp'. by apply Hack'.
Qed.

Lemma wp_notifier path gen entropy req g t :
  wp (productionNotifier path gen entropy req) (fun r _ t' => r = Ok tt -> confirmed gen entropy req t') g t.
Proof using.
  unfold productionNotifier. apply wp_bind. eapply wp_mono; [by apply wp_same, keeps_connect_pod|]. cbv beta.
  intros [client|e] g1 t1 _; [|done]. apply wp_bind. eapply wp_mono; [apply wp_notify_client|]. cbv beta.
  intros r g2 t2 Hr. unfold Close. apply wp_bind, wp_sys. intros x _. apply wp_ret. intros ->. by apply confirmed_app, Hr.
Qed.

(** *** Serving the activated VM *)

Lemma keeps_RegisterSandbox_id path g t :
  wp (RegisterSandbox sapi huskSandboxID path)
    (fun r g' t' => match r with
       | Ok _ => exists conn, g' = setApi (with_agents (<[huskSandboxID := conn]> (agents (pd_api g))) (pd_api g)) g
       | Err _ => g' = g end) g t.
Proof using.
  unfold RegisterSandbox. apply wp_bind. eapply wp_mono; [by apply wp_same, keeps_connect_pod|]. cbv beta. intros c g1 t1 ->.
  apply wp_try. eapply wp_mono with (Q := fun _ g' _ => g' = g).
  { apply wp_same. unfold ConnectUnix, dial. walk. }
  intros [conn|e] g2 t2 ->; [|done]. apply wp_bind, wp_modify, wp_ret. by exists conn.
Qed.

Lemma calls_onActivated addr path token : calls_in no_api (onActivated sapi addr path token).
Proof using.
  unfold onActivated, RegisterSandbox, RegisterStreamPath, RegisterToken, bind_once, locked, ConnectUnix, dial. walk.
Qed.
Lemma keeps_onActivated addr path token : keeps pd_stub (onActivated sapi addr path token).
Proof using.
  unfold onActivated, RegisterSandbox, RegisterStreamPath, RegisterToken, bind_once, locked, ConnectUnix, dial. walk; done.
Qed.

(** The address is bound and the token is the gate. *)
Definition serving (path token : string) (g g' : pod) : Prop :=
  pd_served g' = Some true /\
  exists conn, pd_api g' = with_token huskSandboxID token (registered huskSandboxID path conn (pd_api g)).

Lemma wp_bind_once addr g t :
  wp (bind_once addr)
    (fun ok g' t' => pd_api g' = pd_api g /\ (if ok then pd_served g' = Some true else pd_served g' = Some true -> pd_served g = Some true)) g t.
Proof using.
  unfold bind_once. apply wp_bind, wp_atomic. cbn [fst snd]. destruct (pd_served g) as [ok|] eqn:E.
  { apply wp_ret. split; [done|]. destruct ok; congruence. }
  apply wp_bind, wp_sys. intros ok _. apply wp_bind, wp_modify, wp_ret. split; [done|]. by destruct ok.
Qed.

Lemma wp_onActivated addr path token g t :
  wp (onActivated sapi addr path token)
    (fun r g' _ => match r with
       | Ok _ => serving path token g g'
       | Err _ => pd_served g' = Some true -> pd_served g = Some true end) g t.
Proof using.
  unfold onActivated. apply wp_bind. eapply wp_mono; [apply keeps_RegisterSandbox_id|]. cbv beta. intros [[]|e] g1 t1; [|intros ->; by apply wp_ret].
  intros [conn ->]. apply wp_bind, wp_modify, wp_bind.
  eapply wp_mono; [apply wp_and; [apply wp_RegisterToken|apply (wp_keeps pd_served); unfold RegisterToken, locked; walk; done]|].
  cbv beta. intros _ g2 t2 [[Hg2 ->] Hs2]. apply wp_check. eapply wp_mono; [apply wp_bind_once|]. cbv beta.
  intros ok g3 t3 [Ha Hs3]. rewrite Hs2 in Hs3. destruct ok; [|exact Hs3]. split; [exact Hs3|]. exists conn. rewrite Ha. exact Hg2.
Qed.

(** What a step that does not end in a served VM leaves: the state machine where
    it was, and no address newly bound. *)
Definition unmoved (g g' : pod) : Prop :=
  st_state (pd_stub g') = st_state (pd_stub g) /\ st_vm (pd_stub g') = st_vm (pd_stub g) /\
  (pd_served g' = Some true -> pd_served g = Some true).

(** The guest answered, was reseeded with entropy drawn for it, has its
    configuration, and is served. *)
Definition served_guest (vm : Client) (req : ActivateRequest) (g g' : pod) (t : trace) : Prop :=
  st_state (pd_stub g') = StateActive /\ st_vm (pd_stub g') = st_vm (pd_stub g) /\ answered t /\
  (exists gen entropy, Ev (CRandom entropySize) (Some entropy) ∈ t /\ confirmed gen entropy req t) /\
  (forall addr, SandboxAddr opts = Some addr -> serving (VsockHostPath vm VsockRelPath) (a_Token req) g g').

Lemma wp_hook addr_opt path token g t :
  wp (match addr_opt with None => mret (Ok tt) | Some addr => onActivated sapi addr path token end)
    (fun r g' t' => pd_stub g' = pd_stub g /\ (exists ext, t' = t ++ ext /\ api_requests ext = []) /\
       match r with
       | Ok _ => forall addr, addr_opt = Some addr -> serving path token g g'
       | Err _ => pd_served g' = Some true -> pd_served g = Some true end) g t.
Proof using.
  destruct addr_opt as [addr|]; [|by apply wp_ret; split; [|split; [exists []; by rewrite app_nil_r|]]].
  eapply wp_mono; [apply wp_and; [apply (wp_keeps pd_stub), keeps_onActivated|apply wp_and;
    [apply (wp_calls no_api), calls_onActivated|apply wp_onActivated]]|].
  cbv beta. intros r g' t' (H1 & (ext & -> & Hext) & H3). split; [done|]. split; [eauto using no_api_requests|].
  destruct r; [by intros ? _|done].
Qed.

Lemma wp_serve_guest vm req start g :
  wp (serve_guest sapi opts vm req start)
    (fun r g' t => api_requests t = [] /\
       match r with
       | Ok res => ar_VsockPath res = VsockHostPath vm VsockRelPath /\ served_guest vm req g g' t
       | Err _ => unmoved g g' end) g [].
Proof using.
  unfold serve_guest. cbv zeta. unfold productionGuestReady. apply wp_bind, wp_bind, wp_sys. intros now _.
  eapply wp_mono; [apply wp_and; [apply wp_aside; [apply keeps_guest_ready|apply calls_guest_ready]|apply wp_guest_ready]|].
  cbv beta. intros r g1 t1 [(-> & ext & -> & Hext) Hready].
  assert (api_requests (([] ++ [Ev CNow now]) ++ ext) = []) as Ha1 by (by rewrite api_requests_app, Hext).
  revert Ha1 Hready. generalize (([] ++ [Ev CNow now]) ++ ext). intros t1 Ha1 Hready.
  destruct r as [[]|e]; [|by apply wp_ret]. specialize (Hready eq_refl). destruct Hready as (pc & pr & Hping).
  apply wp_try, wp_some_or, wp_sys. intros [entropy|] _; [|by split; [rewrite api_requests_app, Ha1|]].
  apply wp_bind, wp_atomic. cbn [fst snd]. set (gen := (st_generation (pd_stub g) + 1) mod 2 ^ 64).
  set (g2 := with_stub (with_generation gen (pd_stub g)) g). apply wp_bind.
  eapply wp_mono; [apply wp_and; [apply wp_aside; [apply keeps_notifier|apply calls_notifier]|apply wp_notifier]|].
  cbv beta. intros r g3 t3 [(-> & ext3 & -> & Hext3) Hconf].
  assert (api_requests ((t1 ++ [Ev (CRandom entropySize) (Some entropy)]) ++ ext3) = []) as Ha3
    by (by rewrite !api_requests_app, Ha1, Hext3).
  destruct r as [[]|e]; [|by apply wp_ret]. specialize (Hconf eq_refl). apply wp_try.
  eapply wp_mono; [apply wp_hook|]. cbv beta. intros r g4 t4 (Hs4 & (ext4 & -> & Hext4) & Hserve).
  destruct r as [[]|e].
  - apply wp_bind, wp_sys. intros finish _. apply wp_bind, wp_modify, wp_ret.
    split; [by rewrite (api_requests_app _ [_]), (api_requests_app _ ext4), Ha3, Hext4|]. split; [done|]. split; [done|]. cbn [pd_stub with_stub with_state st_vm]. rewrite Hs4.
    split; [done|]. split; [exists pc, pr; by do 4 apply acked_app|].
    split; [|intros addr Haddr; by apply (Hserve addr)]. exists gen, entropy. split.
    + do 3 (apply elem_of_app; left). apply elem_of_app. right. by left.
    + by do 2 apply confirmed_app.
  - split; [by rewrite api_requests_app, Ha3, Hext4|]. split; [by rewrite Hs4|]. split; [by rewrite Hs4|]. exact Hserve.
Qed.

(** *** The order of an activation *)

(** What an activation asks of the VMM, in order. *)
Definition script (s : stub) (req : ActivateRequest) : list (http_method * string * body) :=
  [(MPut, "/snapshot/load", BSnapshotLoad (mkSnapshotLoad (vmstate_file (a_SnapshotDir req)) (mem_file (a_SnapshotDir req))
                                             false false (a_NetworkOverrides req)))] ++
  (if String.eqb (st_rootfsClonePath s) EmptyString then []
   else [(MPatch, "/drives/rootfs", BDrivePatch (mkDrivePatch "rootfs" (st_rootfsClonePath s)))]) ++
  [(MPatch, "/vm", BVMState "Resumed")].
Definition accepted (l : list (http_method * string * body)) : list (http_method * string * body * bool) := map (fun x => (x, true)) l.

(** The snapshot was verified, by Prepare or now, unless that is switched off. *)
Definition gate (s : stub) (req : ActivateRequest) (t : trace) : Prop :=
  prepared opts s req = true \/ AllowUnverified opts = true \/ verified (a_SnapshotDir req) (a_ExpectedDigest req) t.

(** The requests made are the first of the script, each made once the ones
    before it were accepted, and the first once the snapshot was verified. *)
Definition in_step (s : stub) (req : ActivateRequest) (t : trace) : Prop :=
  (exists done rest, script s req = done ++ rest /\
     (api_requests t = accepted done \/ exists x rest', rest = x :: rest' /\ api_requests t = accepted done ++ [(x, false)])) /\
  (api_requests t <> [] -> gate s req t).

Definition activation (s : stub) (req : ActivateRequest) (g : pod) (r : res husk_error ActivateResult) (g' : pod) (t : trace) : Prop :=
  match r with
  | Ok res => st_state s = StateDormant /\ exists vm t1 t2, st_vm s = Some vm /\ ar_VsockPath res = VsockHostPath vm VsockRelPath /\
      t = t1 ++ t2 /\ gate s req t1 /\ api_requests t1 = accepted (script s req) /\ api_requests t2 = [] /\ served_guest vm req g g' t2
  | Err _ => unmoved g g' /\ in_step s req t
  end.

Lemma gate_app s req t ext : gate s req t -> gate s req (t ++ ext).
Proof using. intros [H|[H|H]]; [by left|by right; left|right; right; by apply verified_app]. Qed.

Lemma in_step_nil s req t : api_requests t = [] -> in_step s req t.
Proof using. intros H. split; [|by rewrite H]. exists [], (script s req). split; [done|]. by left. Qed.

(** One request of the script: accepted, it is one more; refused, it is the last. *)
Lemma wp_scripted s req vm m path b rest done e g t (Q : res husk_error unit -> pod -> trace -> Prop) :
  script s req = done ++ (m, path, b) :: rest -> gate s req t -> api_requests t = accepted done ->
  (forall ext, in_step s req (t ++ ext) -> Q (Err e) g (t ++ ext)) ->
  (forall ext, api_requests (t ++ ext) = accepted (done ++ [(m, path, b)]) -> Q (Ok tt) g (t ++ ext)) ->
  wp (check e (api vm m path b)) Q g t.
Proof using.
  intros Hsc Hgate Hreq Herr Hok. apply wp_check. eapply wp_mono; [apply wp_husk_api|]. cbv beta.
  intros ok g' t' (-> & ev & -> & Hev). destruct ok.
  - apply Hok. rewrite api_requests_app, Hreq, Hev. unfold accepted. by rewrite map_app.
  - apply Herr. split; [|intros _; by apply gate_app]. exists done, ((m, path, b) :: rest). split; [done|]. right.
    eexists _, rest. split; [done|]. by rewrite api_requests_app, Hreq, Hev.
Qed.

Lemma unmoved_refl g : unmoved g g.
Proof using. done. Qed.

Lemma wp_activate_vm s vm req g :
  st_state s = StateDormant -> st_vm s = Some vm ->
  wp (activate_vm um sapi opts range_files s vm req) (activation s req g) g [].
Proof using.
  intros Hst Hvm. unfold activate_vm. apply wp_bind, wp_sys. intros start _. apply wp_try.
  eapply wp_mono with (Q := fun r g' t => g' = g /\ api_requests t = [] /\ (r = Ok tt -> gate s req t)).
  { destruct (prepared opts s req) eqn:Ep; [apply wp_ret; split_and!; try done; intros _; by left|].
    eapply wp_mono; [apply wp_verify|]. cbv beta. intros r g' t' (-> & (ext & -> & Hext) & Hr). split_and!; [done| |].
    - by rewrite api_requests_app, Hext.
    - intros Hok. right. by apply Hr. }
  intros r g1 t1 (-> & Ha1 & Hg1). destruct r as [[]|e]; [|split; [done|by apply in_step_nil]]. specialize (Hg1 eq_refl).
  apply wp_try. unfold LoadSnapshotWithOverrides, put.
  eapply (wp_scripted s req vm _ _ _ _ []); [reflexivity|done|done|intros ext Hs; by split|]. cbn [app]. intros ext2 Ha2.
  assert (exists done, script s req = done ++ [(MPatch, "/vm", BVMState "Resumed")] /\
    done = (MPut, "/snapshot/load", BSnapshotLoad (mkSnapshotLoad (vmstate_file (a_SnapshotDir req)) (mem_file (a_SnapshotDir req))
              false false (a_NetworkOverrides req))) ::
      (if String.eqb (st_rootfsClonePath s) EmptyString then [] else [(MPatch, "/drives/rootfs", BDrivePatch (mkDrivePatch "rootfs" (st_rootfsClonePath s)))]))
    as (done & Hsc & Hdone) by (eexists; split; [|reflexivity]; unfold script; by destruct (String.eqb _ _)).
  apply wp_try. eapply wp_mono with (Q := fun r g' t => g' = g /\ gate s req t /\
    match r with Ok _ => api_requests t = accepted done | Err _ => in_step s req t end).
  { destruct (String.eqb (st_rootfsClonePath s) EmptyString) eqn:Ec.
    - apply wp_ret. split; [done|]. split; [by apply gate_app|]. by rewrite Ha2, Hdone.
    - unfold PatchDrive, patch. eapply (wp_scripted s req vm _ _ _ _ [_]); [unfold script; rewrite Ec; reflexivity|by apply gate_app|exact Ha2| |].
      + intros ext Hs. split; [done|]. split; [by do 2 apply gate_app|done].
      + intros ext Hs. split; [done|]. split; [by do 2 apply gate_app|]. by rewrite Hs, Hdone. }
  intros r g3 t3 (-> & Hg3 & Ha3). destruct r as [[]|e]; [|by split].
  apply wp_try. unfold Resume, patch. eapply (wp_scripted s req vm _ _ _ [] done); [exact Hsc|done|done|intros ext Hs; by split|].
  intros ext4 Ha4. pose proof (wp_shift _ _ g (t3 ++ ext4) [] (wp_serve_guest vm req start g)) as Hrest. rewrite app_nil_r in Hrest.
  eapply wp_mono; [exact Hrest|]. cbv beta. intros r g' t' (t2 & -> & Ha5 & Hr). rewrite <- Hsc in Ha4.
  destruct r as [res|e]; cbn [activation].
  - destruct Hr as [Hpath Hr]. split; [done|]. exists vm, (t3 ++ ext4), t2. split_and!; try done. by apply gate_app.
  - split; [done|]. split; [|intros _; by do 2 apply gate_app]. exists (script s req), []. split; [by rewrite app_nil_r|].
    left. by rewrite api_requests_app, Ha4, Ha5, app_nil_r.
Qed.

Lemma wp_Activate cancelled req g :
  wp (Activate um sapi opts cancelled range_files req) (activation (pd_stub g) req g) g [].
Proof using.
  unfold Activate, get_stub. apply wp_bind, wp_atomic. cbn [fst snd].
  assert (forall e, activation (pd_stub g) req g (Err e) g []) as Hno by (intros e; split; [done|by apply in_step_nil]).
  destruct (negb _) eqn:Est; [apply wp_ret, Hno|]. apply negb_false_iff, bool_decide_eq_true in Est.
  destruct cancelled; [apply wp_ret, Hno|]. destruct (String.eqb _ _); [apply wp_ret, Hno|].
  destruct (st_vm (pd_stub g)) as [vm|] eqn:Evm; [|apply wp_ret, Hno]. by apply wp_activate_vm.
Qed.

(** C7. Activating fails closed.  When it reports success the stub was dormant, the
    snapshot had been verified (by Prepare or in this call, unless verification
    is switched off), the VMM was asked to load it paused, to rebind the root
    drive to this activation's clone and then to resume, in that order and
    nothing else, and accepted all three; after that the guest answered a ping,
    confirmed a reseed with entropy drawn in this call, took its configuration,
    and the API is bound with the request's token as its gate.  When it reports
    failure the stub is in the state it was in, no address is newly bound, and
    the VMM was asked only for a first part of the same sequence, each request
    after the ones before it were accepted, and for none of it before the
    snapshot was verified: the guest never runs on the shared root drive. *)
Theorem activate_fail_closed {O} (h : env O) cancelled req g o :
  let '(r, g', _, t) := run h (Activate um sapi opts cancelled range_files req) g o in activation (pd_stub g) req g r g' t.
Proof using.
  pose proof (wp_run h _ _ g o [] (wp_Activate cancelled req g)) as Hr. destruct (run h _ g o) as [[[r g'] o'] t]. exact Hr.
Qed.

(** *** One process *)

(** The stub holds the only live process there is, or none before Prepare and
    after Close. *)
Definition one_vm (g : pod) (t : trace) : Prop :=
  match st_vm (pd_stub g) with
  | None => st_state (pd_stub g) = StateNew /\ live t = []
  | Some vm => st_state (pd_stub g) <> StateNew /\ exists pid, process vm = Some pid /\ live t = [pid]
  end.

Lemma one_vm_still (g g' : pod) t ext :
  one_vm g t -> pd_stub g' = pd_stub g -> Forall (fun e => no_proc (ev_call e)) ext -> one_vm g' (t ++ ext).
Proof using. intros H Hg Hext. unfold one_vm in *. rewrite Hg. by rewrite live_no_proc. Qed.

Lemma wp_husk_still {A} (p : prog pod A) g t :
  keeps pd_stub p -> calls_in no_proc p -> one_vm g t -> wp p (fun _ => one_vm) g t.
Proof using.
  intros Hk Hc H. eapply wp_mono; [apply wp_and; [by apply (wp_keeps pd_stub)|by apply (wp_calls no_proc)]|].
  cbv beta. intros _ g' t' [Hg (ext & -> & Hext)]. by eapply one_vm_still.
Qed.

Lemma proc_send conn req : calls_in no_proc (send (G := pod) conn req).
Proof using. unfold send. walk; done. Qed.
Lemma proc_connect path port : calls_in no_proc (Connect (G := pod) path port).
Proof using. unfold Connect, dial, preamble, hang_up. walk; done. Qed.
#[local] Hint Resolve proc_send proc_connect : prog.
Lemma proc_guest_ready path deadline fuel : calls_in no_proc (guest_ready path deadline fuel).
Proof using. induction fuel as [|fuel IH]; cbn [guest_ready]; unfold Ping, Close; walk; done. Qed.
Lemma proc_verify dir digest : calls_in no_proc (verify um opts range_files dir digest).
Proof using. unfold verify, verifySnapshot. walk; done. Qed.
Lemma proc_onActivated addr path token : calls_in no_proc (onActivated sapi addr path token).
Proof using.
  unfold onActivated, RegisterSandbox, RegisterStreamPath, RegisterToken, bind_once, locked, ConnectUnix, dial. walk; done.
Qed.
Lemma proc_notifier path gen entropy req : calls_in no_proc (productionNotifier path gen entropy req).
Proof using. unfold productionNotifier, notify_client, NotifyForkedWithConfig, Configure, Close. walk; done. Qed.
Lemma proc_api vm m path b : calls_in no_proc (api (G := pod) vm m path b).
Proof using. unfold api. walk; done. Qed.
#[local] Hint Resolve proc_guest_ready proc_verify proc_onActivated proc_notifier proc_api : prog.

Lemma proc_Activate cancelled req : calls_in no_proc (Activate um sapi opts cancelled range_files req).
Proof using.
  unfold Activate, activate_vm, serve_guest, productionGuestReady, get_stub, update, LoadSnapshotWithOverrides, PatchDrive, Resume, put, patch.
  walk; done.
Qed.

Lemma wp_Activate_one cancelled req g t :
  one_vm g t -> wp (Activate um sapi opts cancelled range_files req) (fun _ => one_vm) g t.
Proof using.
  intros H. pose proof (wp_shift _ _ g t [] (wp_Activate cancelled req g)) as Hs. rewrite app_nil_r in Hs.
  eapply wp_mono; [apply wp_and; [exact Hs|apply (wp_calls no_proc), proc_Activate]|].
  cbv beta. intros r g' t' [(t1 & -> & Hr) (ext & E & Hext)]. apply (inj (app t)) in E as ->. unfold one_vm in *.
  rewrite live_no_proc by done. destruct r as [res|e].
  - destruct Hr as (_ & vm & t1 & t2 & Hvm & _ & _ & _ & _ & _ & Hst & Hvm' & _). rewrite Hvm', Hvm, Hst. rewrite Hvm in H.
    by destruct H as [_ H].
  - destruct Hr as [(Hst & Hvm & _) _]. by rewrite Hst, Hvm.
Qed.

Lemma stub_StartVM c : keeps pd_stub (StartVM (G := pod) c).
Proof using.
  pose proof (waitReady_keeps (G := pod) pd_stub). pose proof (prepareChroot_keeps (G := pod) pd_stub).
  pose proof (guardJailerLayout_keeps (G := pod) pd_stub). pose proof (chown_keeps (G := pod) pd_stub).
  unfold StartVM, startJailedVM, startJailed, ready_or_kill, acquire_uid, release_uid. walk; eauto with prog.
  by destruct (Acquire _).
Qed.
Lemma stub_Kill c : keeps pd_stub (Kill (G := pod) c).
Proof using. unfold Kill, release_uid. walk; done. Qed.

(** A VM just started, before the stub is dormant. *)
Definition holding (vm : Client) (g : pod) (t : trace) : Prop :=
  st_state (pd_stub g) = StateNew /\ st_vm (pd_stub g) = Some vm /\ exists pid, process vm = Some pid /\ live t = [pid].

Lemma wp_holding {A} (p : prog pod A) vm g t :
  keeps pd_stub p -> calls_in no_proc p -> holding vm g t -> wp p (fun _ => holding vm) g t.
Proof using.
  intros Hk Hc H. eapply wp_mono; [apply wp_and; [by apply (wp_keeps pd_stub)|by apply (wp_calls no_proc)]|].
  cbv beta. intros _ g' t' [Hg (ext & -> & Hext)]. unfold holding in *. by rewrite Hg, live_no_proc.
Qed.

Lemma wp_or_close vm p g t :
  keeps pd_stub p -> calls_in no_proc p -> holding vm g t ->
  wp (or_close vm p) (fun r => match r with Ok _ => holding vm | Err _ => one_vm end) g t.
Proof using.
  intros Hk Hc H. unfold or_close. apply wp_bind. eapply wp_mono; [by apply wp_holding|]. cbv beta. intros [[]|e] g1 t1 H1; [by apply wp_ret|].
  destruct H1 as (Hst & Hvm & pid & Hp & Hl). apply wp_bind.
  eapply wp_mono; [apply wp_and; [by apply Kill_wp|apply (wp_keeps pd_stub), stub_Kill]|]. cbv beta. intros _ g2 t2 [[Hl2 _] Hg2].
  apply wp_bind, wp_modify, wp_ret. unfold one_vm. cbn [pd_stub with_stub with_vm st_vm st_state]. rewrite Hg2, Hst. split; [done|].
  rewrite Hl2, Hl. unfold without. rewrite filter_cons, decide_False by tauto. done.
Qed.

Lemma wp_husk_step vm (b : bool) p f g t :
  keeps pd_stub p -> calls_in no_proc p -> (forall s, st_state (f s) = st_state s /\ st_vm (f s) = st_vm s) -> holding vm g t ->
  wp (if b then must _ := or_close vm p in _ ← update f; mret (Ok tt) else mret (Ok tt))
    (fun r => match r with Ok _ => holding vm | Err _ => one_vm end) g t.
Proof using.
  intros Hk Hc Hf H. destruct b; [|by apply wp_ret]. apply wp_try. eapply wp_mono; [by apply wp_or_close|].
  cbv beta. intros [[]|e] g1 t1 H1; [|exact H1]. apply wp_bind, wp_modify, wp_ret. unfold holding in *. cbn [pd_stub with_stub].
  by rewrite (proj1 (Hf _)), (proj2 (Hf _)).
Qed.

Lemma wp_Prepare cancelled g t :
  one_vm g t -> wp (Prepare um opts cancelled range_files) (fun _ => one_vm) g t.
Proof using.
  intros H. unfold Prepare, get_stub. apply wp_bind, wp_atomic. cbn [fst snd].
  destruct (negb _) eqn:Est; [by apply wp_ret|]. apply negb_false_iff, bool_decide_eq_true in Est.
  destruct cancelled; [by apply wp_ret|]. unfold one_vm in H. destruct (st_vm (pd_stub g)) eqn:Evm; [by destruct H|]. destruct H as [_ Hl].
  apply wp_bind. eapply wp_mono; [apply wp_and; [apply StartVM_wp|apply (wp_keeps pd_stub), stub_StartVM]|].
  cbv beta. intros [vm|e] g1 t1 [[Hlaunch _] Hg1].
  2:{ apply wp_ret. unfold one_vm. rewrite Hg1, Evm. split; [done|]. cbn in Hlaunch. rewrite Hl in Hlaunch. by apply list_nil_subseteq in Hlaunch. }
  destruct Hlaunch as (pid & Hp & Hl1). rewrite Hl in Hl1. apply wp_bind, wp_modify.
  assert (holding vm (with_stub (with_vm (Some vm) (pd_stub g1)) g1) t1) as Hh.
  { split; [by cbn; rewrite Hg1|]. split; [done|]. eauto. }
  revert Hh. generalize (with_stub (with_vm (Some vm) (pd_stub g1)) g1). intros g2 Hh. apply wp_try.
  eapply wp_mono; [apply wp_husk_step; [unfold verify, verifySnapshot; walk|apply proc_verify|done|exact Hh]|].
  cbv beta. intros [[]|e] g3 t3 H3; [|exact H3]. apply wp_try.
  eapply wp_mono; [apply wp_husk_step; [unfold clone_rootfs, Backend.ReflinkCopy, Backend.runner; walk|
    unfold clone_rootfs, Backend.ReflinkCopy, Backend.runner; walk; done|done|exact H3]|].
  cbv beta. intros [[]|e] g4 t4 H4; [|exact H4]. destruct H4 as (_ & Hvm & Hpid).
  apply wp_bind, wp_modify, wp_ret. unfold one_vm. cbn [pd_stub with_stub with_state st_vm st_state]. by rewrite Hvm.
Qed.

Lemma wp_Close g t : one_vm g t -> wp stub_Close (fun _ g' t' => one_vm g' t' /\ st_vm (pd_stub g') = None) g t.
Proof using.
  intros H. unfold stub_Close, get_stub. apply wp_bind, wp_atomic. cbn [fst snd]. apply wp_bind.
  eapply wp_mono with (Q := fun _ g' t' => st_state (pd_stub g') = st_state (pd_stub g) /\ st_vm (pd_stub g') = st_vm (pd_stub g) /\ live t' = live t).
  { destruct (String.eqb _ _); [by apply wp_ret|]. apply wp_bind, wp_sys. intros x _. apply wp_modify. split; [done|]. split; [done|].
    apply live_no_proc. by repeat constructor. }
  intros _ g1 t1 (Hst & Hvm & Hl). unfold one_vm in *. destruct (st_vm (pd_stub g)) as [vm|] eqn:Evm.
  - destruct H as (_ & pid & Hp & Hlive). apply wp_bind. eapply wp_mono; [apply wp_and; [by apply Kill_wp|apply (wp_keeps pd_stub), stub_Kill]|].
    cbv beta. intros k g2 t2 [[Hl2 _] Hg2]. apply wp_bind, wp_modify, wp_ret. cbn. split; [|done]. split; [done|].
    rewrite Hl2, Hl, Hlive. unfold without. rewrite filter_cons, decide_False by tauto. done.
  - apply wp_ret. rewrite Hvm. split; [|done]. rewrite Hst, Hl. done.
Qed.

(** *** Sessions *)

Section session.
Variable trim_other : string -> string.
Variable untar : string -> list Workspace.Transfer.member * bool.
Variable mktar : list Workspace.Transfer.member -> string.
Variables (file_ok : string -> bool) (walk_ok : bool) (write_ok create_ok sync_ok : string -> bool) (mtime : Z).

(** What happens to the process: it is prepared, serves connections one after
    the other, each under a context that may have ended, and is closed. *)
Inductive husk_op :=
| HPrepare (cancelled : bool) | HClose
| HConn (cancelled : bool) (peer : option (option (list (list (list string))))) (ls : list ctl_line)
| HLocal (cancelled : bool) (l : option ctl_line).

Definition exec_op (op : husk_op) : prog pod unit :=
  match op with
  | HPrepare c => _ ← Prepare um opts c range_files; mret tt
  | HClose => _ ← stub_Close; mret tt
  | HConn c peer ls => _ ← serveControlConn um sapi opts c range_files trim_other untar mktar file_ok walk_ok write_ok create_ok sync_ok mtime peer ls; mret tt
  | HLocal c l => _ ← handleConn um sapi opts c range_files l; mret tt
  end.
Definition session (ops : list husk_op) : prog pod unit := fold_right (fun op p => _ ← exec_op op; p) (mret tt) ops.

Lemma stub_api vm m path b : keeps pd_stub (api (G := pod) vm m path b).
Proof using. unfold api. walk. Qed.
Lemma stub_CreateSnapshot vm a b : keeps pd_stub (CreateSnapshot (G := pod) vm a b).
Proof using.
  unfold CreateSnapshot, ensureJailedDir, exportFromJail, Jail.sameInode, Jail.copyFile, put, api. walk.
Qed.
Lemma proc_CreateSnapshot vm a b : calls_in no_proc (CreateSnapshot (G := pod) vm a b).
Proof using.
  unfold CreateSnapshot, ensureJailedDir, exportFromJail, Jail.sameInode, Jail.copyFile, put, api. walk; done.
Qed.
#[local] Hint Resolve stub_api stub_CreateSnapshot proc_CreateSnapshot : prog.

Lemma stub_Fork c req : keeps pd_stub (ForkSnapshot opts c req).
Proof using. unfold ForkSnapshot, fork_vm, get_stub, Pause, Resume, patch. walk; done. Qed.
Lemma proc_Fork c req : calls_in no_proc (ForkSnapshot opts c req).
Proof using. unfold ForkSnapshot, fork_vm, get_stub, Pause, Resume, patch. walk; done. Qed.
Lemma stub_Remove dir : keeps pd_stub (RemoveForkSnapshot opts dir).
Proof using. unfold RemoveForkSnapshot. walk. Qed.
Lemma proc_Remove dir : calls_in no_proc (RemoveForkSnapshot opts dir).
Proof using. unfold RemoveForkSnapshot. walk; done. Qed.

Lemma stub_Dehydrate c req :
  keeps pd_stub (DehydrateWorkspace um opts c trim_other untar file_ok write_ok create_ok sync_ok mtime req).
Proof using.
  unfold DehydrateWorkspace, active_with_store, with_agent, lift_ws, diffManifests, get_stub, Close, Workspace.Transfer.DehydrateTo,
    Workspace.Transfer.ws_TarDir, Workspace.Transfer.vsock_transport, TarDir. walk; try done.
  by destruct (Workspace.Transfer.capture _ _ _ _ _ _ _ _).
Qed.
Lemma proc_Dehydrate c req :
  calls_in no_proc (DehydrateWorkspace um opts c trim_other untar file_ok write_ok create_ok sync_ok mtime req).
Proof using.
  unfold DehydrateWorkspace, active_with_store, with_agent, lift_ws, diffManifests, get_stub, Close, Workspace.Transfer.DehydrateTo,
    Workspace.Transfer.ws_TarDir, Workspace.Transfer.vsock_transport, TarDir. walk; done.
Qed.
Lemma stub_Hydrate c req :
  keeps pd_stub (HydrateWorkspace um opts c mktar walk_ok write_ok create_ok sync_ok mtime req).
Proof using.
  unfold HydrateWorkspace, active_with_store, with_agent, lift_ws, get_stub, Close, Workspace.Transfer.HydrateFrom,
    Workspace.Transfer.ws_UntarDir, Workspace.Transfer.vsock_transport, UntarDir. walk; try done.
  by destruct (Workspace.Transfer.restore _ _ _ _ _).
Qed.
Lemma proc_Hydrate c req :
  calls_in no_proc (HydrateWorkspace um opts c mktar walk_ok write_ok create_ok sync_ok mtime req).
Proof using.
  unfold HydrateWorkspace, active_with_store, with_agent, lift_ws, get_stub, Close, Workspace.Transfer.HydrateFrom,
    Workspace.Transfer.ws_UntarDir, Workspace.Transfer.vsock_transport, UntarDir. walk; done.
Qed.

Lemma wp_then {A B} (p : prog pod A) (f : A -> B) g t :
  wp p (fun _ => one_vm) g t -> wp (r ← p; mret (f r)) (fun _ => one_vm) g t.
Proof using. intros H. apply wp_bind. eapply wp_mono; [exact H|]. by intros. Qed.

Lemma wp_exec_op op g t : one_vm g t -> wp (exec_op op) (fun _ => one_vm) g t.
Proof using.
  intros H. destruct op as [c| |c peer ls|c l]; cbn [exec_op]; apply wp_then.
  - by apply wp_Prepare.
  - eapply wp_mono; [by apply wp_Close|]. by intros _ ? ? [? _].
  - unfold serveControlConn. destruct peer as [state|]; [|by apply wp_ret]. destruct (AuthorizeControllerIdentity state); [|by apply wp_ret].
    destruct (ReadControlOp ls) as [[op [|l ls']]|]; [by apply wp_ret| |by apply wp_ret]. unfold dispatch. cbv zeta.
    destruct (String.eqb op OpActivate); [destruct (cl_activate l); [apply wp_then; by apply wp_Activate_one|by apply wp_ret]|].
    destruct (String.eqb op _); [destruct (cl_fork l); [apply wp_then; by apply wp_husk_still; [apply stub_Fork|apply proc_Fork|]|by apply wp_ret]|].
    destruct (String.eqb op _); [destruct (cl_remove l); [apply wp_then; by apply wp_husk_still; [apply stub_Remove|apply proc_Remove|]|by apply wp_ret]|].
    destruct (String.eqb op _); [destruct (cl_dehydrate l); [apply wp_then; by apply wp_husk_still; [apply stub_Dehydrate|apply proc_Dehydrate|]|by apply wp_ret]|].
    destruct (String.eqb op _); [destruct (cl_hydrate l); [apply wp_then; by apply wp_husk_still; [apply stub_Hydrate|apply proc_Hydrate|]|by apply wp_ret]|].
    by apply wp_ret.
  - unfold handleConn. destruct l as [l|]; [|by apply wp_ret]. destruct (cl_activate l); [|by apply wp_ret]. apply wp_then. by apply wp_Activate_one.
Qed.

(** C20. A husk process never owns two VMs.  Through any sequence of preparations,
    control connections and closings, whatever they ask for and however the host
    answers, exactly the VM the stub holds is running: none before Prepare, none
    after a failed Prepare or a Close, and one in between, so that no operation
    that needs the VM finds it missing. *)
Theorem husk_one_vm {O} (h : env O) ops uids reg served store o :
  let '(_, g, _, t) := run h (session ops) (mkPod new_stub uids reg served store) o in one_vm g t.
Proof using.
  assert (forall ops g t, one_vm g t -> wp (session ops) (fun _ => one_vm) g t) as H.
  { clear. induction ops as [|op ops IH]; intros g t H; [done|]. cbn [session fold_right]. apply wp_bind.
    eapply wp_mono; [by apply wp_exec_op|]. intros u g' t' H'. by apply IH. }
  assert (one_vm (mkPod new_stub uids reg served store) []) as H0 by done.
  pose proof (wp_run h _ _ (mkPod new_stub uids reg served store) o [] (H ops _ [] H0)) as Hr.
  destruct (run h _ _ o) as [[[u g] o'] t]. exact Hr.
Qed.
End session.

End activation.
(** *** The wait for the guest ends *)

Import JailFacts.

Definition no_clock (c : call) : Prop := match c with CNow | CSleep _ => False | _ => True end.

Lemma clock_quiet t ext : Forall (fun e => no_clock (ev_call e)) ext -> clock (t ++ ext) = clock t.
Proof.
  unfold clock. rewrite fold_left_app. generalize (fold_left clock_step t None). intros b H.
  induction H as [|[c x] ext Hc _ IH]; [done|]. cbn [fold_left].
  assert (clock_step b (Ev c x) = b) as -> by (by destruct c). exact IH.
Qed.

Lemma guest_ready_ends path deadline fuel b (g : pod) t :
  clock t = Some b -> deadline - b <= Z.of_nat fuel * ready_interval ->
  Host.wp monotonic (guest_ready path deadline (S fuel)) (fun r _ _ => r <> Err GuestClock) g t.
Proof.
  revert b g t. induction fuel as [|fuel IH]; intros b g t Hb Hd.
  - cbn [guest_ready]. apply wp_bind, wp_sys. intros now Hnow. specialize (Hnow b Hb).
    destruct (Z.ltb_spec now deadline); [lia|by apply wp_ret].
  - remember (S fuel) as n eqn:En. cbn [guest_ready]. apply wp_bind, wp_sys. intros now Hnow. specialize (Hnow b Hb).
    destruct (Z.ltb_spec now deadline); [|by apply wp_ret].
    assert (forall g t, clock t = Some now ->
      Host.wp monotonic (_ ← sys (CSleep ready_interval); guest_ready path deadline n) (fun r _ _ => r <> Err GuestClock) g t) as Hagain.
    { intros g1 t1 Hc1. apply wp_bind, wp_sys. intros x _. subst n. apply (IH (now + ready_interval)); [by rewrite clock_snoc; cbn; rewrite Hc1|].
      unfold ready_interval in *. lia. }
    apply wp_bind. eapply wp_mono; [apply (wp_calls no_clock); unfold Connect, dial, preamble, hang_up; walk; done|].
    cbv beta. intros c g1 t1 (ext & -> & Hext). assert (clock ((t ++ [Ev CNow now]) ++ ext) = Some now) as Hc1
      by (rewrite clock_quiet by done; by rewrite clock_snoc).
    destruct c as [client|e]; [|by apply Hagain]. apply wp_bind.
    eapply wp_mono; [apply (wp_calls no_clock); unfold Ping, send; walk; done|]. cbv beta. intros p g2 t2 (ext2 & -> & Hext2).
    assert (forall g, Host.wp monotonic (_ ← Close client; _ ← sys (CSleep ready_interval); guest_ready path deadline n)
      (fun r _ _ => r <> Err GuestClock) g (((t ++ [Ev CNow now]) ++ ext) ++ ext2)) as Hclose.
    { intros g3. unfold Close. apply wp_bind, wp_sys. intros x _. apply Hagain. rewrite clock_snoc, clock_quiet by done. by rewrite Hc1. }
    destruct p as [z|[]]; first [apply Hclose | by apply wp_ret | unfold Close; apply wp_bind, wp_sys; intros x _; by apply wp_ret].
Qed.

(** The wait for the guest never runs out of the attempts its timeout allows. *)
Lemma guest_wait_ends {O} (h : env O) path timeout (g : pod) (o : O) :
  0 <= timeout ->
  let '(r, _, _, t) := run h (productionGuestReady path timeout) g o in obeys monotonic [] t -> r <> Err GuestClock.
Proof.
  intros Ht. assert (Host.wp monotonic (productionGuestReady path timeout) (fun r _ _ => r <> Err GuestClock) g []) as H.
  { unfold productionGuestReady. apply wp_bind, wp_sys. intros start _. unfold ready_fuel. eapply guest_ready_ends; [done|].
    unfold ready_interval. pose proof (Z.mul_succ_div_gt timeout 20000000 ltac:(lia)).
    assert (0 <= timeout / 20000000) by (apply Z.div_pos; lia). lia. }
  pose proof (wp_run_obeys monotonic h _ _ g o [] H) as Hr. destruct (run h _ g o) as [[[r g'] o'] t]. exact Hr.
Qed.

(** *** Confinement *)

(** The control channel names a directory to write or to delete: it is let
    through exactly when it is the forks directory or lies below it, however it
    is spelled, for a forks directory other than the root. *)
Theorem confine_exact opts dir :
  is_abs (ForksDir opts) = true -> clean_elems (ForksDir opts) <> [] ->
  confineToForksDir opts dir = true <-> is_abs dir = true /\ is_prefix (clean_elems (ForksDir opts)) (clean_elems dir) = true.
Proof.
  intros Ha Hne. unfold confineToForksDir. destruct (String.eqb_spec (ForksDir opts) EmptyString) as [E|_]; [by rewrite E in Ha|].
  pose proof (clean_elems_rooted _ Ha) as Hp. rewrite (Clean_abs _ Ha). destruct (is_abs dir) eqn:Hd.
  - pose proof (clean_elems_rooted _ Hd) as Hpd. rewrite (Clean_abs _ Hd), orb_true_iff, String.eqb_eq, is_prefix_spec. split.
    + intros [E|Hpre].
      * split; [done|]. exists []. rewrite app_nil_r. apply (f_equal clean_elems) in E. by rewrite !clean_elems_abs_of in E.
      * split; [done|]. apply abs_of_prefix in Hpre as (r & Hr & _); [|done..]. eauto.
    + intros [_ [r Hr]]. destruct r as [|x r]; [left; by rewrite Hr, app_nil_r|]. right. rewrite Hr. by apply prefix_abs_of.
  - split; [|by intros [? _]]. rewrite orb_true_iff, String.eqb_eq. intros [E|Hpre]; exfalso.
    + destruct (Members.clean_elems_rel dir Hd) as (k & ps & He & Hps). destruct (Members.Clean_rel dir k ps Hd He Hps) as (H & _ & _).
      by rewrite E in H.
    + destruct (Members.clean_elems_rel dir Hd) as (k & ps & He & Hps). destruct (Members.Clean_rel dir k ps Hd He Hps) as (H & _ & _).
      apply has_prefix_spec in Hpre as [r Hr]. by rewrite Hr in H.
Qed.

(** *** Fork snapshots *)

Definition pause_vm : http_method * string * body := (MPatch, "/vm", BVMState "Paused").
Definition resume_vm : http_method * string * body := (MPatch, "/vm", BVMState "Resumed").
Definition snapshot_vm (dir : string) : http_method * string * body :=
  (MPut, "/snapshot/create", BSnapshotCreate (mkSnapshotCreate "Full" (vmstate_file dir) (mem_file dir))).

Lemma wp_CreateSnapshot vm dir (g : pod) t :
  wp (CreateSnapshot vm (mem_file dir) (vmstate_file dir))
    (fun r g' t' => g' = g /\ exists ext, t' = t ++ ext /\
       match r with Ok _ => api_requests ext = [(snapshot_vm dir, true)] | Err _ => True end) g t.
Proof.
  unfold CreateSnapshot. apply wp_try. eapply wp_mono; [apply wp_aside; unfold ensureJailedDir; walk|]. cbv beta.
  intros [[]|e] g1 t1 (-> & ext1 & -> & H1); [|split; [done|]; by exists ext1].
  apply wp_try, wp_check. unfold put. eapply wp_mono; [apply wp_husk_api|]. cbv beta. intros ok g2 t2 (-> & e & -> & He).
  destruct ok; [|split; [done|]; exists (ext1 ++ [e]); by rewrite app_assoc].
  eapply wp_mono; [apply wp_aside; unfold exportFromJail, Jail.sameInode, Jail.copyFile; walk|]. cbv beta.
  intros r g3 t3 (-> & ext3 & -> & H3). split; [done|]. exists (ext1 ++ [e] ++ ext3). split; [by rewrite !app_assoc|].
  destruct r; [|done]. by rewrite !api_requests_app, H1, H3, He.
Qed.

(** The outcome of a fork snapshot: the VMM was asked to pause, to write the
    snapshot and, unless the source is to stay paused, to resume; and a snapshot
    that fails after the pause ends with a request to resume. *)
Definition forked (req : ForkSnapshotRequest) (g : pod) (r : res husk_error ForkSnapshotResult) (g' : pod) (t : trace) : Prop :=
  g' = g /\
  match r with
  | Ok res => fr_SnapshotDir res = fs_SnapshotDir req /\ st_state (pd_stub g) = StateActive /\
      api_requests t = accepted ([pause_vm; snapshot_vm (fs_SnapshotDir req)] ++ (if fs_PauseSource req then [] else [resume_vm]))
  | Err _ => api_requests t = [] \/ api_requests t = [(pause_vm, false)] \/ exists l ok, api_requests t = (pause_vm, true) :: l ++ [(resume_vm, ok)]
  end.

Lemma wp_husk_fork_vm vm req g : st_state (pd_stub g) = StateActive -> wp (fork_vm vm req) (forked req g) g [].
Proof.
  intros Hst. unfold fork_vm. cbv zeta. apply wp_try, wp_check, wp_sys. intros [] _; [|split; [done|]; by left].
  apply wp_bind, wp_sys. intros start _. apply wp_try, wp_check. unfold Pause, patch. eapply wp_mono; [apply wp_husk_api|]. cbv beta.
  intros ok g1 t1 (-> & e & -> & He).
  assert (api_requests (([] ++ [Ev (CMkdirAll (fs_SnapshotDir req)) true]) ++ [Ev CNow start]) = []) as H0 by done.
  revert H0. generalize (([] ++ [Ev (CMkdirAll (fs_SnapshotDir req)) true]) ++ [Ev CNow start]). intros t0 H0.
  destruct ok; [|split; [done|]; right; left; by rewrite api_requests_app, H0, He].
  apply wp_bind. eapply wp_mono; [apply wp_CreateSnapshot|]. cbv beta. intros r g2 t2 (-> & ext & -> & Hr).
  assert (api_requests ((t0 ++ [e]) ++ ext) = (pause_vm, true) :: api_requests ext) as H1 by (by rewrite !api_requests_app, H0, He).
  revert H1. generalize ((t0 ++ [e]) ++ ext). intros t2 H1. destruct r as [[]|err].
  - rewrite Hr in H1. apply wp_try. destruct (fs_PauseSource req) eqn:Ep.
    + apply wp_ret, wp_bind, wp_sys. intros finish _. apply wp_ret. split; [done|]. split; [done|]. split; [done|].
      by rewrite api_requests_app, H1, Ep.
    + apply wp_check. unfold Resume, patch. eapply wp_mono; [apply wp_husk_api|]. cbv beta. intros ok g3 t3 (-> & e' & -> & He'). destruct ok.
      * apply wp_bind, wp_sys. intros finish _. apply wp_ret. split; [done|]. split; [done|]. split; [done|].
        by rewrite !api_requests_app, H1, He', Ep.
      * split; [done|]. right. right. eexists _, false. rewrite api_requests_app, H1, He'. by rewrite <- app_comm_cons.
  - unfold Resume, patch. apply wp_bind. eapply wp_mono; [apply wp_husk_api|]. cbv beta. intros ok g3 t3 (-> & e' & -> & He'). apply wp_ret.
    split; [done|]. right. right. exists (api_requests ext), ok. rewrite api_requests_app, H1, He'. done.
Qed.

(** A fork snapshot never leaves the source frozen by accident.  It changes
    nothing of the stub; when it succeeds the VMM was asked to pause, snapshot
    into the requested directory and resume, the last unless the source is to
    stay paused, and accepted each; when it fails after the VM was paused, the
    last thing asked of the VMM is to resume. *)
Theorem fork_snapshot_resumes {O} (h : env O) opts cancelled req g o :
  let '(r, g', _, t) := run h (ForkSnapshot opts cancelled req) g o in forked req g r g' t.
Proof.
  assert (wp (ForkSnapshot opts cancelled req) (forked req g) g []) as H.
  { unfold ForkSnapshot, get_stub. apply wp_bind, wp_atomic. cbn [fst snd].
    assert (forall e, forked req g (Err e) g []) as Hno by (intros e; split; [done|by left]).
    destruct (negb _) eqn:Est; [apply wp_ret, Hno|]. apply negb_false_iff, bool_decide_eq_true in Est.
    destruct cancelled; [apply wp_ret, Hno|]. destruct (String.eqb _ _); [apply wp_ret, Hno|].
    destruct (negb _); [apply wp_ret, Hno|]. destruct (st_vm (pd_stub g)) as [vm|]; [|apply wp_ret, Hno]. by apply wp_husk_fork_vm. }
  pose proof (wp_run h _ _ g o [] H) as Hr. destruct (run h _ g o) as [[[r g'] o'] t]. exact Hr.
Qed.

End StubFacts.

(** ** Examples *)

Module HuskExamples.
Import Chunk Manifest Store Uid Client Vsock Api Snapcompat Server Stub StubFacts CasExamples.

Definition none_other (_ : string) : option Manifest := None.
Definition in_given_order (l : list (string * string)) : list (string * string) := l.
Definition pod_env : Environment := mkEnvironment [1] "v1.15.0" "cpu" "6.1".
Definition pod_opts (forks : string) : Options :=
  mkOptions DefaultVMConfig "/m/manifest.json" pod_env false 0 EmptyString EmptyString "/t/rootfs.ext4" "/cow" forks false (Some ":9091").

(** A node with the snapshot of [ex_files] on its disk; [mem] is the memory file. *)
Definition pod_manifest : Manifest :=
  match BuildManifest ex_fs ex_files ex_meta with Ok m => m | Err _ => manifestFrom [] ex_meta end.
Definition pod_host (mem : bytes) : env Z := fun c now =>
  match c return answer c * Z with
  | CReadFile _ => (Some (String.string_of_list_ascii (Canonical pod_manifest)), now)
  | CScan _ => ({[ ["d"; "mem"] := mem; ["d"; "vmstate"] := byteB ]}, now)
  | c => obliging c now
  end.

Definition fresh_pod : pod := mkPod new_stub (NewUIDAllocator 1 9) no_sandboxes None ex_empty.
Definition activate_d : ActivateRequest := mkActivate "/d" (manifest_digest pod_manifest) [] ∅ ∅ None [] "tok".
Definition a_line (op : string) (req : ActivateRequest) : ctl_line := mkCtl (Some op) (Some req) None None None None.
Definition controller : option (option (list (list (list string)))) := Some (Some [[[ControllerName]]]).

Definition ex_session (ops : list husk_op) : prog pod unit :=
  session none_other NewSandboxAPI (pod_opts "/forks") in_given_order (fun s => s) (fun _ => ([], true)) (fun _ => EmptyString) yes true
    yes yes yes 0 ops.
Definition ex_outcome (mem : bytes) (ops : list husk_op) : State * option string * list Z :=
  let '(_, g, _, t) := run (pod_host mem) (ex_session ops) fresh_pod 0 in
  (st_state (pd_stub g), tokens (pd_api g) !! huskSandboxID, live t).

(** A pod is prepared and activated by the controller: active, gated by the
    token, with one process.  With another memory file it stays dormant, and so
    it does for a peer that is not the controller. *)
Example activated_only_when_verified :
  ex_outcome byteA [HPrepare false; HConn false controller [a_line EmptyString activate_d; a_line EmptyString activate_d]]
    = (StateActive, Some "tok", [4242]) /\
  ex_outcome byteB [HPrepare false; HConn false controller [a_line EmptyString activate_d; a_line EmptyString activate_d]]
    = (StateDormant, None, [4242]) /\
  ex_outcome byteA [HPrepare false; HConn false (Some (Some [[["peer.mitos"]]])) [a_line EmptyString activate_d; a_line EmptyString activate_d]]
    = (StateDormant, None, [4242]).
Proof. vm_compute. auto. Qed.

(** A client that sends its request without an op line is not served: the
    request is taken for the op line, and no request follows. *)
Example bare_request_not_served :
  ex_outcome byteA [HPrepare false; HConn false controller [a_line EmptyString activate_d]] = (StateDormant, None, [4242]).
Proof. vm_compute. reflexivity. Qed.

Lemma confine_exact_witness : confineToForksDir (pod_opts "/forks") "/forks/a/../../etc" = false.
Proof.
  apply not_true_iff_false. intros H. apply confine_exact in H as [_ H]; [by vm_compute in H|done|done].
Defined.

(** The forks directory itself may be removed, with the snapshots of all forks;
    and a forks directory that is the root refuses every directory. *)
Example whole_forks_dir_removed :
  (let '(r, _, _, t) := run (pod_host byteA) (RemoveForkSnapshot (pod_opts "/forks") "/forks/x/..") fresh_pod 0 in (r, t))
    = (Ok tt, [Ev (CRemoveAll "/forks/x/..") true]) /\
  confineToForksDir (pod_opts "/") "/forks/x" = false.
Proof. vm_compute. auto. Qed.

End HuskExamples.
