(* ===== verification/System.v ===== *)
(** * The host and the guest together

    The host's programs composed with the agent that answers them.

    - [Peer], [PeerFacts]: what is known of a guest when the host's requests succeed
      and the connections are answered by agents. *)
From S2P Require Import Prelude GoLib GoFs Cas Host Guarded Vsock SandboxApi Workspace Agent AgentFacts Engine EngineSafety EngineFork Daemon Husk.
#[local] Open Scope go_scope.

(** ** Connections that are answered by agents *)

Module Peer.
Import Vsock Agent NotifyFacts.

Section peer.
Variable quoted : string -> string.
Variable range : gmap string string -> list (string * string).
Variable other : string -> list string.
Variable mktar : list tar_member -> string.
Variable untar : string -> list tar_member * option string.
Abbreviation handle := (handleRequest quoted range other mktar untar).

(** The request whose answer is read next. *)
Definition pending (t : trace) : option (Z * agent_request) :=
  match list.last t with Some (Ev (CConnWrite conn (WRequest r)) true) => Some (conn, r) | _ => None end.

(** An answer that an agent, on some guest and with some memory, gives. *)
Definition agent_run (r : agent_request) (a : agent) (resp : agent_response) (a' : agent) (calls : trace) : Prop :=
  exists (O : Type) (guest : env O) o o', run guest (handle r) a o = (resp, a', o', calls).

(** What is read in answer to a request is the answer of an agent. *)
Definition by_agent (t : trace) (c : call) : answer c -> Prop :=
  match c return answer c -> Prop with
  | CConnRead conn => fun x => forall r l resp, pending t = Some (conn, r) -> x = Some l -> l_response l = Some resp ->
      exists a a' calls, agent_run r a resp a' calls
  | _ => fun _ => True
  end.

Lemma acked_run conn r resp t : Contract.acked conn r resp t -> obeys by_agent [] t -> exists a a' calls, agent_run r a resp a' calls.
Proof.
  intros (t1 & t2 & l & -> & Hl & _) Ho.
  specialize (Ho (t1 ++ [Ev (CConnWrite conn (WRequest r)) true]) (CConnRead conn) (Some l) t2). rewrite app_nil_l in Ho.
  apply (Ho ltac:(by rewrite <-app_assoc) r l resp); [|done|done]. unfold pending. by rewrite last_snoc.
Qed.

Lemma acked_later conn r resp t1 t2 : Contract.acked conn r resp t2 -> Contract.acked conn r resp (t1 ++ t2).
Proof. intros (s1 & s2 & l & -> & H). exists (t1 ++ s1), s2, l. by rewrite <-app_assoc. Qed.

(** The kernel of the guest took the entropy. *)
Definition guest_took (entropy : bytes) : Prop :=
  exists gen now net vols a resp a' calls,
    agent_run (ANotifyForked gen now entropy net vols) a resp a' calls /\ entropy_taken entropy calls = true.

Lemma confirmed_took conn gen now entropy net vols resp t :
  Contract.acked conn (ANotifyForked gen now entropy net vols) resp t -> ar_NotifyForked resp = Some true -> obeys by_agent [] t ->
  guest_took entropy.
Proof.
  intros Ha Hr Ho. destruct (acked_run _ _ _ _ Ha Ho) as (a & a' & calls & O & guest & o & o' & Hrun).
  exists gen, now, net, vols, a, resp, a', calls. split; [by exists O, guest, o, o'|]. cbn [handleRequest] in Hrun. rewrite run_bind in Hrun.
  pose proof (adds_run guest _ _ a o (notify_adds other gen now entropy net vols)) as Hn.
  destruct (run guest (handleNotifyForked _ _ _ _ _ _) a o) as [[[x a1] o1] t1]. injection Hrun as <- _ _ <-. rewrite app_nil_r.
  destruct Hn as (s1 & s2 & s3 & s4 & -> & [_ Hre] & _). cbn in Hr. injection Hr as Hr. rewrite Hr in Hre.
  unfold entropy_taken in *. symmetry in Hre. apply andb_prop in Hre as [-> He]. by rewrite existsb_app, He.
Qed.

(** The secrets are in the environment of the guest's sessions. *)
Definition guest_has (env secrets : gmap string string) : Prop :=
  exists a resp a' calls, agent_run (AConfigure env secrets) a resp a' calls /\ ag_configured a' = secrets ∪ (env ∪ ag_configured a).

Lemma configured_has conn env secrets resp t :
  Contract.acked conn (AConfigure env secrets) resp t -> obeys by_agent [] t -> guest_has env secrets.
Proof.
  intros Ha Ho. destruct (acked_run _ _ _ _ Ha Ho) as (a & a' & calls & Hrun). exists a, resp, a', calls. split; [done|].
  destruct Hrun as (O & guest & o & o' & Hrun). cbn in Hrun. by injection Hrun as <- <- <- <-.
Qed.

End peer.
End Peer.

Module PeerFacts.
Import Zoom Laws Ledger Vsock Api Seams State Fork Recovery Admin Server Contract Node Agent Peer.


Import Stub StubFacts.

(** From the activation of a husk pod to the guest's kernel: as for a fork, with the
    entropy and the configuration of the activation. *)
Theorem activation_reaches_the_guest {O} (h : env O) quoted range other mktar untar um sapi opts range_files cancelled req g o :
  let '(r, g', _, t) := run h (Activate um sapi opts cancelled range_files req) g o in
  is_ok r = true -> obeys (by_agent quoted range other mktar untar) [] t ->
  (exists entropy, Ev (CRandom entropySize) (Some entropy) ∈ t /\ guest_took quoted range other mktar untar entropy) /\
  (a_Env req <> ∅ \/ a_Secrets req <> ∅ -> guest_has quoted range other mktar untar (a_Env req) (a_Secrets req)).
Proof.
  pose proof (wp_run h _ _ g o [] (wp_Activate um sapi opts range_files cancelled req g)) as H.
  destruct (run h _ g o) as [[[r g'] o'] t]. intros Hr Ho. destruct r as [res|c]; [|done].
  destruct H as (_ & vm & t1 & t2 & _ & _ & Ht & _ & _ & _ & _ & _ & _ & (gen & entropy & Hdraw & Hc) & _).
  change ([] ++ t) with t in Ht. subst t. destruct Hc as (conn & now & resp & Hack & Hyes & Hconf).
  split; [exists entropy; split; [apply elem_of_app; by right|eapply confirmed_took; [by apply acked_later|done..]]|].
  intros Hne. destruct (Hconf Hne) as [resp' Hack']. eapply configured_has; [by apply acked_later|done].
Qed.
End PeerFacts.

(** ** A host whose connections are answered by an agent *)

Module PeerExamples.
Import Vsock Agent NotifyFacts Peer.

Definition plain_text (s : string) : string := s.
Definition no_fields (_ : string) : list string := [].
Definition no_tar (_ : list tar_member) : string := EmptyString.
Definition no_members (_ : string) : list tar_member * option string := ([], None).
Definition new_agent : agent := mkAgent ∅ false false.
Abbreviation ex_handle := (handleRequest plain_text map_to_list no_fields no_tar no_members).
Abbreviation ex_by_agent := (by_agent plain_text map_to_list no_fields no_tar no_members).

(** An agent, on a guest on which every call succeeds, answers what is read next
    after a request. *)
Definition handled (r : agent_request) : agent_response := (run obliging (ex_handle r) new_agent 0).1.1.1.
Definition attended (base : env Z) : env (Z * option (Z * agent_request)) := fun c st =>
  match c return answer c * (Z * option (Z * agent_request)) with
  | CConnWrite conn (WRequest r) => (true, (st.1, Some (conn, r)))
  | CConnRead conn =>
      match st.2 with
      | Some (_, r) => (Some (mkLine "OK 52" (Some (handled r)) None None), (st.1, None))
      | None => let '(x, now) := base (CConnRead conn) st.1 in (x, (now, None))
      end
  | c => let '(x, now) := base c st.1 in (x, (now, None))
  end.

Lemma attended_step base c st x st' t :
  st.2 = pending t -> attended base c st = (x, st') -> ex_by_agent t c x /\ st'.2 = pending (t ++ [Ev c x]).
Proof.
  intros Hp. unfold pending. rewrite last_snoc. destruct st as [now p]. cbn in Hp. subst p.
  destruct c; cbn; try (by destruct (base _ now); intros [= <- <-]).
  - destruct w; try (by destruct (base _ now) as [[] ?]; intros [= <- <-]). by intros [= <- <-].
  - destruct (pending t) as [[conn' r']|] eqn:Ep.
    + intros [= <- <-]. split; [|done]. intros r l resp Hr [= <-] [= <-]. injection Hr as -> ->.
      destruct (run obliging (ex_handle r) new_agent 0) as [[[resp a'] o'] calls] eqn:E. exists new_agent, a', calls.
      exists Z, obliging, 0, o'. unfold handled. by rewrite E.
    + destruct (base _ now). by intros [= <- <-].
Qed.

Lemma obeys_cons (allowed : trace -> forall c, answer c -> Prop) t e t' :
  match e with Ev c x => allowed t c x end -> obeys allowed (t ++ [e]) t' -> obeys allowed t (e :: t').
Proof.
  intros He Ho [|e' pre] c x post Heq.
  - injection Heq as -> _. by rewrite app_nil_r.
  - injection Heq as <- ->. specialize (Ho pre c x post eq_refl). by rewrite <-app_assoc in Ho.
Qed.

Lemma attended_obeys {G A} base (p : prog G A) g st t :
  st.2 = pending t -> obeys ex_by_agent t (run (attended base) p g st).2.
Proof.
  revert g st t. induction p as [a|X f k IH|c k IH]; cbn [run]; intros g st t Hst; [intros [|] ? ? ? [=]|by apply IH|].
  destruct (attended base c st) as [x st1] eqn:Ea. destruct (attended_step base c st x st1 t Hst Ea) as [Hx Hst1].
  specialize (IH x g st1 _ Hst1). destruct (run (attended base) (k x) g st1) as [[[a g2] o2] t2]. cbn in IH |- *.
  by apply obeys_cons.
Qed.

Import Zoom Laws Ledger Api Seams State Fork Recovery Admin Server Contract Node SafetyExamples EngineFork.ForkExamples DaemonExamples PeerFacts.
#[local] Existing Instances ex_nm ex_kp ex_cm ex_ib ex_lawful.


(** A pod that was prepared, and its activation. *)
Import Stub StubFacts CasExamples HuskExamples.
Definition prepared_pod : pod := (run (pod_host byteA) (ex_session [HPrepare false]) fresh_pod 0).1.1.2.
Definition ex_activate : prog pod (res husk_error ActivateResult) := Activate none_other NewSandboxAPI (pod_opts "/forks") false in_given_order activate_d.

Lemma activation_reaches_the_guest_witness :
  guest_took plain_text map_to_list no_fields no_tar no_members (replicate 32 "r"%char).
Proof.
  pose proof (activation_reaches_the_guest (attended (pod_host byteA)) plain_text map_to_list no_fields no_tar no_members none_other NewSandboxAPI
    (pod_opts "/forks") in_given_order false activate_d prepared_pod (0, None)) as H. fold ex_activate in H.
  assert (is_ok (run (attended (pod_host byteA)) ex_activate prepared_pod (0, None)).1.1.1 = true) as Hok by (vm_compute; reflexivity).
  assert (omap (fun e => match e with Ev (CRandom _) x => x | _ => None end) (run (attended (pod_host byteA)) ex_activate prepared_pod (0, None)).2
    = [replicate 32 "r"%char]) as Hr by (vm_compute; reflexivity).
  pose proof (attended_obeys (pod_host byteA) ex_activate prepared_pod (0, None) [] eq_refl) as Ho.
  destruct (run (attended (pod_host byteA)) ex_activate prepared_pod (0, None)) as [[[r g'] o'] t]. cbn [fst snd] in Hok, Hr, Ho.
  destruct (H Hok Ho) as [(entropy & Hin & Ht) _].
  assert (entropy ∈ [replicate 32 "r"%char]) as He; [|apply list_elem_of_singleton in He; by subst].
  rewrite <-Hr. apply list_elem_of_omap. by exists (Ev (CRandom entropySize) (Some entropy)).
Defined.
End PeerExamples.
