(* ===== verification/Controller.v ===== *)
(** What the controllers share (internal/controller: forkd_client.go,
    finalizer.go, token_secret.go, huskclient.go, workspace_memory_snapshot.go,
    eventfeed.go; controllerutil).

    - [Ctl]: the memory of the controller process, the verbs of the API client,
      the calls to forkd over the registry's connections, the calls to a husk
      stub, the token Secret, the memory-snapshot adapter and the change feed. *)
From S2P Require Import Prelude GoLib GoFs Scheduler Autoscale Gc Wire Host Guarded Kms.
#[local] Open Scope go_scope.

Module Ctl.
Import Registry Warm Kube.

(** ** State *)

(** The memory of the process: the node registry, the demand tracker, the
    principals the memory-snapshot adapter has bound, and the series of the
    per-pool metrics, by metric and label. *)
Record controller := mkController {
  ct_registry : NodeRegistry; ct_demand : PoolDemand; ct_binding : gmap string string;
  ct_metrics : gmap (string * string) Z }.

Definition with_registry (r : NodeRegistry) (g : controller) : controller :=
  mkController r (ct_demand g) (ct_binding g) (ct_metrics g).
Definition with_demand (d : PoolDemand) (g : controller) : controller :=
  mkController (ct_registry g) d (ct_binding g) (ct_metrics g).
Definition with_binding (b : gmap string string) (g : controller) : controller :=
  mkController (ct_registry g) (ct_demand g) b (ct_metrics g).
Definition with_metrics (m : gmap (string * string) Z) (g : controller) : controller :=
  mkController (ct_registry g) (ct_demand g) (ct_binding g) m.

(** ** Errors *)

Inductive api_error := ANotFound | AExists | AConflict | AFailed.
Inductive ctl_error :=
| EApi (e : api_error)
| EConn (node : string)
| EInsecure (node : string)
| ERpc (node : string) (code : Z)
| ESelect (e : select_error)
| ESecretKey (secret key : string)
| ERandom
| EEncKey (e : EncSecret.enc_error)
| EOwned (name : string)
| ETransport (msg : string)
| EHusk (msg : string)
| ENoPod
| EInvalidDigest
| ENotWired
| EPrincipal
| ECheckpoint
| EResume
| EBranch
| EPush
| EJoined (errs : list ctl_error)
| EPanic
| EOther.

(** ** The API client *)

Definition fetched {A} (r : get_result A) : res ctl_error A :=
  match r with Found a => Ok a | NotFound => Err (EApi ANotFound) | GetFailed => Err (EApi AFailed) end.
Definition written {A} (r : write_result A) : res ctl_error A :=
  match r with
  | Written a => Ok a
  | Exists => Err (EApi AExists)
  | Conflict => Err (EApi AConflict)
  | Missing => Err (EApi ANotFound)
  | WriteFailed _ => Err (EApi AFailed)
  end.
(** client.IgnoreNotFound *)
Definition ignore_not_found (e : ctl_error) : option ctl_error :=
  match e with EApi ANotFound => None | e => Some e end.

Section client.
Context {G : Type}.
Definition ask (q : kcall) : prog G (kanswer q) := sys (CCtl q).
Definition Get (k : kind) (ns name : string) : prog G (res ctl_error (object k)) :=
  r ← ask (KGet k ns name); mret (fetched r).
Definition List_ (k : kind) (ns : string) (labels : list (string * string)) : prog G (res ctl_error (list (object k))) :=
  r ← ask (KList k ns labels); mret (match r with Some l => Ok l | None => Err (EApi AFailed) end).
Definition Create (k : kind) (o : object k) : prog G (res ctl_error (object k)) :=
  r ← ask (KCreate k o); mret (written r).
Definition Update (k : kind) (o : object k) : prog G (res ctl_error (object k)) :=
  r ← ask (KUpdate k o); mret (written r).
Definition StatusUpdate (k : kind) (o : object k) : prog G (res ctl_error (object k)) :=
  r ← ask (KUpdateStatus k o); mret (written r).
Definition Patch (k : kind) (base new : object k) (lock : bool) : prog G (res ctl_error (object k)) :=
  r ← ask (KPatch k base new lock); mret (written r).
Definition StatusPatch (k : kind) (base new : object k) : prog G (res ctl_error (object k)) :=
  r ← ask (KPatchStatus k base new); mret (written r).
Definition Delete (k : kind) (o : object k) (grace : option Z) : prog G (res ctl_error unit) :=
  r ← ask (KDelete k o grace); mret (written r).
End client.

Lemma adds_ask {G A} (q : kcall) (f : kanswer q -> A) (Q : A -> trace -> Prop) :
  (forall x, Q (f x) [Ev (CCtl q) x]) -> adds (G := G) (r ← ask q; mret (f r)) Q.
Proof.
  intros H. eapply adds_bind; [apply (adds_sys (CCtl q))|]. intros x e ->. apply adds_ret. apply H.
Qed.

(** Calls to neither the API server nor a node. *)
Definition apart (c : call) : Prop := match c with CCtl _ => False | _ => True end.

(** ctrl.Result and the reconciler's error. *)
Definition Result : Type := Z.
Definition requeue (d : Z) : res ctl_error Result := Ok d.
Definition done : res ctl_error Result := Ok 0.

(** ** Metadata *)

Definition with_labels (l : gmap string string) (m : ObjectMeta) : ObjectMeta :=
  mkMeta (Namespace m) (Name m) (GenerateName m) (UID m) (ResourceVersion m) (Generation m) l (Annotations m)
    (Finalizers m) (OwnerReferences m) (CreationTimestamp m) (DeletionTimestamp m).
Definition with_annotations (a : gmap string string) (m : ObjectMeta) : ObjectMeta :=
  mkMeta (Namespace m) (Name m) (GenerateName m) (UID m) (ResourceVersion m) (Generation m) (Labels m) a
    (Finalizers m) (OwnerReferences m) (CreationTimestamp m) (DeletionTimestamp m).
Definition with_finalizers (f : list string) (m : ObjectMeta) : ObjectMeta :=
  mkMeta (Namespace m) (Name m) (GenerateName m) (UID m) (ResourceVersion m) (Generation m) (Labels m) (Annotations m)
    f (OwnerReferences m) (CreationTimestamp m) (DeletionTimestamp m).
Definition with_owners (o : list OwnerReference) (m : ObjectMeta) : ObjectMeta :=
  mkMeta (Namespace m) (Name m) (GenerateName m) (UID m) (ResourceVersion m) (Generation m) (Labels m) (Annotations m)
    (Finalizers m) o (CreationTimestamp m) (DeletionTimestamp m).
(** The metadata of an object about to be created. *)
Definition new_meta (ns name generate : string) (labels annotations : gmap string string) : ObjectMeta :=
  mkMeta ns name generate EmptyString 0 0 labels annotations [] [] None None.

Definition label (k : string) (m : ObjectMeta) : string := default EmptyString (Labels m !! k).

(** controllerutil *)
Definition ContainsFinalizer (f : string) (m : ObjectMeta) : bool := bool_decide (f ∈ Finalizers m).
Definition AddFinalizer (f : string) (m : ObjectMeta) : ObjectMeta :=
  if ContainsFinalizer f m then m else with_finalizers (Finalizers m ++ [f]) m.
Definition RemoveFinalizer (f : string) (m : ObjectMeta) : ObjectMeta :=
  with_finalizers (List.filter (fun x => negb (String.eqb x f)) (Finalizers m)) m.

(** controllerutil.SetControllerReference: refused when another controller owns
    the object; the owner's own reference is replaced, otherwise added. *)
Definition refers (o : OwnerReference) (x : OwnerReference) : bool :=
  String.eqb (or_Kind x) (or_Kind o) && String.eqb (or_Name x) (or_Name o).
Fixpoint upsert_owner (o : OwnerReference) (l : list OwnerReference) : list OwnerReference :=
  match l with
  | [] => [o]
  | x :: l => if refers o x then o :: l else x :: upsert_owner o l
  end.
Definition SetControllerReference (o : OwnerReference) (m : ObjectMeta) : option ObjectMeta :=
  match GetControllerOf m with
  | Some x => if refers o x then Some (with_owners (upsert_owner o (OwnerReferences m)) m) else None
  | None => Some (with_owners (upsert_owner o (OwnerReferences m)) m)
  end.
Definition controller_ref (kind_ : string) (m : ObjectMeta) : OwnerReference :=
  mkOwner kind_ (Name m) (UID m) true.

Definition conditionStatus (ok : bool) : string := if ok then "True" else "False".

(** controllerutil.CreateOrUpdate: [fresh] is the object as the caller names it,
    [mutate] what the callback does to it. *)
Definition CreateOrUpdate {G} (k : kind) `{EqDecision (object k)} (ns name : string) (fresh : object k)
    (mutate : object k -> option (object k)) : prog G (res ctl_error unit) :=
  r ← ask (KGet k ns name);
  match r with
  | GetFailed => mret (Err (EApi AFailed))
  | NotFound =>
      match mutate fresh with
      | None => mret (Err (EOwned name))
      | Some o => must _ := Create k o in mret (Ok tt)
      end
  | Found existing =>
      match mutate existing with
      | None => mret (Err (EOwned name))
      | Some o => if bool_decide (existing = o) then mret (Ok tt) else must _ := Update k o in mret (Ok tt)
      end
  end.

#[global] Instance OwnerReference_eq : EqDecision OwnerReference.
Proof. solve_decision. Defined.
#[global] Instance ObjectMeta_eq : EqDecision ObjectMeta.
Proof. solve_decision. Defined.
#[global] Instance Secret_eq : EqDecision (object KSecret).
Proof. cbn. solve_decision. Defined.
#[global] Instance PDB_eq : EqDecision (object KPDB).
Proof. cbn. solve_decision. Defined.

(** ** Addresses and tokens *)

(** net.JoinHostPort with a decimal port *)
Definition JoinHostPort (host : string) (port : Z) : string :=
  if contains_byte ":" host || contains_byte "%" host then "[" +:+ host +:+ "]:" +:+ format_d port
  else host +:+ ":" +:+ format_d port.

Definition HuskControlPort : Z := 9443.
Definition huskSandboxPort : Z := 9091.
Definition port_or (fallback port : Z) : Z := if port =? 0 then fallback else port.

Definition tokenSecretSuffix : string := "-sandbox-token".

Definition mintAPIToken {G} : prog G (res ctl_error string) :=
  b ← random 32;
  mret (match b with Some b => Ok (hex_encode (byte_z <$> b)) | None => Err ERandom end).

Definition token_data (token endpoint : string) : gmap string bytes :=
  {[ "token" := String.list_ascii_of_string token; "endpoint" := String.list_ascii_of_string endpoint ]}.

Definition ensureSandboxTokenSecret {G} (owner : OwnerReference) (ns name token endpoint : string)
  : prog G (res ctl_error unit) :=
  CreateOrUpdate KSecret ns name (mkSecret (new_meta ns name EmptyString ∅ ∅) EmptyString ∅)
    (fun s => match SetControllerReference owner (se_meta s) with
              | None => None
              | Some m => Some (mkSecret m (se_Type s) (token_data token endpoint))
              end).

(** ** forkd *)

Definition code_ResourceExhausted : Z := 8.

(** Only an RPC's error carries a gRPC code. *)
Definition hasGRPCCode (e : ctl_error) (code : Z) : bool :=
  match e with ERpc _ c => c =? code | _ => false end.
Definition isNotFound (e : ctl_error) : bool := hasGRPCCode e Gc.code_NotFound.
Definition isRetryableCapacity (e : ctl_error) : bool :=
  hasGRPCCode e code_ResourceExhausted || hasGRPCCode e Gc.code_Unavailable.

Definition toNetworkConfig (n : option NetworkPolicy) : option Forkd.NetworkConfig :=
  match n with None => None | Some n => Some (Forkd.mkNetworkConfig (Egress n) (Allow n)) end.

(** The last override of a name wins. *)
Definition volumeMounts (templateVols : list SandboxVolume) (overrides : list (string * string))
  : list Forkd.VolumeMount :=
  let overrideMap : gmap string string := fold_left (fun m '(k, v) => <[k := v]> m) overrides ∅ in
  map (fun vol => Forkd.mkVolumeMount (sv_Name vol) (sv_MountPath vol) (sv_ReadOnly vol) (sv_Size vol)
                    (default (sv_ForkPolicy vol) (overrideMap !! sv_Name vol))) templateVols.

Definition clientEndpoint (node : NodeInfo) (engineEndpoint : string) : string :=
  if negb (String.eqb (HTTPEndpoint node) EmptyString) then HTTPEndpoint node else engineEndpoint.

Record forkResult := mkForkResult { fk_SandboxID : string; fk_Endpoint : string; fk_ForkTimeMs : SpecFloat.spec_float }.

Section forkd.
(** [grpc.NewClient]; the order a map is ranged over. *)
Variable dial : string -> option tls_config -> res unit conn.
Variable map_order : gmap string string -> list (string * string).

Definition connect (nodeName : string) : prog controller (res ctl_error conn) :=
  r ← atomic (fun g => let '(r, c) := GetConnection dial (ct_registry g) nodeName in (c, with_registry r g));
  mret (match r with Ok c => Ok c | Err _ => Err (EConn nodeName) end).

Definition call_forkd (node : string) (c : conn) (q : Forkd.forkd_request) : prog controller (res ctl_error (Forkd.forkd_reply q)) :=
  r ← ask (KForkd c q);
  mret (match r with Ok x => Ok x | Err code => Err (ERpc node code) end).

Definition forkOnNode (node : NodeInfo) (snapshotID sandboxID : string) (env secrets : gmap string string)
    (network : option NetworkPolicy) (volumes : list Forkd.VolumeMount) (apiToken : string)
    (wrappedDEK : bytes) (kekID : string) : prog controller (res ctl_error forkResult) :=
  mtls ← atomic (fun g => (NodeMTLS (ct_registry g) (Registry.Name node), g));
  if (0 <? length wrappedDEK)%nat && negb mtls then mret (Err (EInsecure (Registry.Name node)))
  else
    must c := connect (Registry.Name node) in
    must resp := call_forkd (Registry.Name node) c
      (Forkd.QFork (Forkd.mkForkRequest snapshotID sandboxID (map_order env) (map_order secrets)
         (toNetworkConfig network) apiToken volumes wrappedDEK kekID)) in
    mret (Ok (mkForkResult (Forkd.p_SandboxId resp) (clientEndpoint node (Forkd.p_Endpoint resp)) (Forkd.p_ForkTimeMs resp))).

Definition forkRunningOnNode (node : NodeInfo) (sourceSandboxID newSandboxID : string) (pauseSource : bool)
    (apiToken : string) : prog controller (res ctl_error forkResult) :=
  must c := connect (Registry.Name node) in
  must resp := call_forkd (Registry.Name node) c (Forkd.QForkRunning sourceSandboxID newSandboxID pauseSource apiToken) in
  let '(id, endpoint, ms, _) := resp in mret (Ok (mkForkResult id (clientEndpoint node endpoint) ms)).

Definition pullTemplateOnNode (node : NodeInfo) (templateID digest sourceURL token : string)
  : prog controller (res ctl_error unit) :=
  must c := connect (Registry.Name node) in
  call_forkd (Registry.Name node) c (Forkd.QPullTemplate templateID digest sourceURL token).

Definition isAlreadyTerminated (e : ctl_error) : bool :=
  match e with ERpc _ code => Gc.isAlreadyTerminated [Some code] | _ => false end.

Definition terminateOnNode (nodeName sandboxID : string) : prog controller (res ctl_error unit) :=
  present ← atomic (fun g => (bool_decide (GetNode (ct_registry g) nodeName <> None), g));
  if negb present then mret (Ok tt)
  else
    now ← sys CNow;
    healthy ← atomic (fun g => (NodeHealthy (ct_registry g) now nodeName, g));
    if negb healthy then mret (Ok tt)
    else
      c ← connect nodeName;
      match c with
      | Err _ => mret (Ok tt)
      | Ok c =>
          r ← call_forkd nodeName c (Forkd.QTerminate sandboxID);
          mret (match r with
                | Ok _ => Ok tt
                | Err e => if isAlreadyTerminated e then Ok tt else Err e
                end)
      end.

(** The last activity of a sandbox its forkd knows; the zero time when it was
    never accessed. *)
Definition sandboxActivity (nodeName sandboxID : string) : prog controller (option (Z * time)) :=
  c ← connect nodeName;
  match c with
  | Err _ => mret None
  | Ok c =>
      r ← call_forkd nodeName c Forkd.QListSandboxes;
      mret (match r with
            | Err _ => None
            | Ok sbs =>
                match List.find (fun s => String.eqb (Forkd.i_SandboxId s) sandboxID) sbs with
                | None => None
                | Some s => Some (Forkd.i_CreatedAtUnix s * second,
                                  if Forkd.i_LastActivityUnix s =? 0 then None
                                  else Some (Forkd.i_LastActivityUnix s * second))
                end
            end)
  end.
End forkd.

(** ** The husk stub *)

(** ActivateHuskPod, ForkSnapshotOnHusk, DehydrateWorkspaceOnHusk,
    HydrateWorkspaceOnHusk and RemoveForkSnapshotOnHusk: nothing is sent without
    the controller's TLS configuration. *)
Definition on_husk {G} (huskTLS : bool) (addr : string) (q : Control.husk_request)
  : prog G (res ctl_error (res string (Control.husk_reply q))) :=
  if negb huskTLS then mret (Err (ETransport "refusing to drive the control channel unauthenticated"))
  else r ← ask (KHusk addr q); mret (match r with Ok x => Ok x | Err msg => Err (ETransport msg) end).

(** ** Memory snapshots *)

(** WorkspaceMemorySnapshotAdapter: which of its hooks are set. *)
Record Hooks := mkHooks { CheckpointLiveVM : bool; RestoreLiveVM : bool; SnapshotPresent : bool }.
Record memSnapshotResult := mkMemSnapshot { Ref : string; Principal : string }.

Section memory.
Variable h : Hooks.

Definition Checkpoint (claim : SandboxClaim) : prog controller (res ctl_error memSnapshotResult) :=
  if negb (CheckpointLiveVM h) then mret (Err ENotWired)
  else
    must ref := some_or ECheckpoint (ask (KCheckpointVM (Namespace (cl_meta claim)) (Name (cl_meta claim)))) in
    if String.eqb ref EmptyString then mret (Err ECheckpoint)
    else
      let principal := ServiceAccount (cl_spec claim) in
      _ ← modify (fun g => with_binding (<[ref := principal]> (ct_binding g)) g);
      mret (Ok (mkMemSnapshot ref principal)).

Definition Resume (claim : SandboxClaim) (ref : string) : prog controller (res ctl_error unit) :=
  if negb (RestoreLiveVM h) then mret (Err ENotWired)
  else
    bound ← atomic (fun g => (ct_binding g !! ref, g));
    if match bound with Some p => negb (String.eqb p (ServiceAccount (cl_spec claim))) | None => false end
    then mret (Err EPrincipal)
    else check EResume (ask (KRestoreVM (Namespace (cl_meta claim)) (Name (cl_meta claim)) ref)).

Definition Exists_ (ref principal : string) : prog controller (res ctl_error bool) :=
  bound ← atomic (fun g => (ct_binding g !! ref, g));
  if match bound with Some p => negb (String.eqb p principal) | None => false end then mret (Ok false)
  else if negb (SnapshotPresent h) then mret (Ok false)
  else some_or EOther (ask (KSnapshotPresent ref)).
End memory.

(** The reconcilers' seams: the adapter when the flag binds it, otherwise what
    refuses. *)
Definition checkpointMemory (m : option Hooks) (claim : SandboxClaim) : prog controller (res ctl_error memSnapshotResult) :=
  match m with Some h => Checkpoint h claim | None => mret (Err ENotWired) end.
Definition resumeMemory (m : option Hooks) (claim : SandboxClaim) (ref : string) : prog controller (res ctl_error unit) :=
  match m with Some h => Resume h claim ref | None => mret (Err ENotWired) end.
Definition memorySnapshotExists (m : option Hooks) (ref principal : string) : prog controller (res ctl_error bool) :=
  match m with Some h => Exists_ h ref principal | None => mret (Ok false) end.

(** ** The change feed *)

(** A webhook sink; without one the event is only recorded. *)
Record WebhookSink := mkSink { MaxAttempts : Z; Backoff : Z }.
Definition DefaultMaxAttempts : Z := 3.
Definition DefaultBackoff : Z := 200000000.

(** A failed connection and a server error are tried again, any other refusal
    is final. *)
Definition post {G} (e : feed_event) : prog G (res bool unit) :=
  r ← ask (KPost e);
  mret (match r with
        | None => Err true
        | Some code => if (200 <=? code) && (code <? 300) then Ok tt else Err (500 <=? code)
        end).
Fixpoint attempts_left {G} (n : nat) (backoff : Z) (e : feed_event) : prog G bool :=
  match n with
  | O => mret false
  | S n =>
      r ← post e;
      match r with
      | Ok _ => mret true
      | Err false => mret false
      | Err true =>
          match n with
          | O => mret false
          | S _ => _ ← sys (CSleep backoff); attempts_left n backoff e
          end
      end
  end.
Definition Emit {G} (sink : option WebhookSink) (e : feed_event) : prog G bool :=
  match sink with
  | None => mret true
  | Some s =>
      attempts_left (Z.to_nat (if MaxAttempts s <=? 0 then DefaultMaxAttempts else MaxAttempts s))
        (if Backoff s <=? 0 then DefaultBackoff else Backoff s) e
  end.

Definition EventID (uid seq : string) : string := uid +:+ "/" +:+ seq.
Definition objectRef (m : ObjectMeta) : string :=
  if String.eqb (Namespace m) EmptyString then Name m else Namespace m +:+ "/" +:+ Name m.
Definition traceIDAnnotation : string := "mitos.run/trace-id".

Definition revisionLineage (rev : WorkspaceRevision) : string :=
  if negb (String.eqb (FromClaim (rv_spec rev)) EmptyString) then "fromClaim:" +:+ FromClaim (rv_spec rev)
  else match FromWorkspaceRevision (rv_spec rev) with
       | Some src => "fromWorkspaceRevision:" +:+ rr_Revision src
       | None => "root"
       end.

(** A failure to emit is swallowed. *)
Definition emitRevisionCreated {G} (sink : option WebhookSink) (rev : WorkspaceRevision) : prog G unit :=
  let m := rv_meta rev in
  let ws := rv_WorkspaceRef (rv_spec rev) in
  _ ← ask (KRecord (objectRef m) "RevisionCreated" [ws; Name m; revisionLineage rev]);
  now ← sys CNow;
  _ ← Emit sink (RevisionCreated (objectRef m) (EventID (UID m) "created") (default now (CreationTimestamp m))
        ws (Name m) (ContentManifest (rv_spec rev)) (revisionLineage rev)
        (default EmptyString (MemorySnapshotRef (rv_spec rev))) (default EmptyString (Annotations m !! traceIDAnnotation)));
  mret tt.

Definition emitPhaseChanged {G} (sink : option WebhookSink) (claim : SandboxClaim) (oldPhase newPhase : string) : prog G unit :=
  let m := cl_meta claim in
  _ ← ask (KRecord (objectRef m) "PhaseChanged" [Name m; oldPhase; newPhase]);
  now ← sys CNow;
  _ ← Emit sink (PhaseChanged (objectRef m) (EventID (UID m) newPhase) now (Name m) oldPhase newPhase
        (default EmptyString (WorkspaceRef (cl_spec claim))));
  mret tt.

End Ctl.
