(* ===== verification/ClaimController.v ===== *)
(** * The claim controller (internal/controller: sandboxclaim_controller.go,
    huskdrain.go, workspace_binding.go, and the claim side of huskpod.go)

    One reconcile of a SandboxClaim, as a program over the API server, forkd, the
    husk stubs and the memory of the controller process.

    - [Binding]: a claim's workspace: resolving the head, the single-writer check,
      hydrating on activation, dehydrating into a new revision on termination.
    - [Claims]: placement on a node or in a husk pod, the bounded wait for
      capacity, lifetime, loss of the pod, deletion. *)
From S2P Require Import Prelude GoLib GoFs Scheduler Autoscale Gc Cas Wire Host Guarded Kms Workspace Rendezvous Controller.
#[local] Open Scope go_scope.

Module Binding.
Import Chunk Kube Ctl.

(** The reconciler's flags and what it was started with.  The transfer, diff and
    git seams of the struct are nil outside its tests, so they are their
    defaults here. *)
Record Config := mkConfig {
  EnableHuskPods : bool; HuskTLS : bool; ControlPort : Z; SandboxPort : Z; MaxPendingDuration : Z;
  Memory_ : option Hooks; Sink : option WebhookSink; KMS : option (Kms.Wrapper controller) }.

Definition workspaceHydratedAnnotation : string := "mitos.run/workspace-hydrated-head".
Definition workspaceDehydratedAnnotation : string := "mitos.run/workspace-dehydrated".
Definition WorkspaceLabel : string := "mitos.run/workspace".
Definition WorkspaceSecretExcludePaths : list string :=
  ["/workspace/.netrc"; "/workspace/.git-credentials"; "/workspace/.ssh"; "/workspace/.aws"; "/workspace/.config/gh";
   "/workspace/.npmrc"].

(** ** Claims *)

Definition with_meta (f : ObjectMeta -> ObjectMeta) (c : SandboxClaim) : SandboxClaim :=
  mkClaim (f (cl_meta c)) (cl_spec c) (cl_status c).
Definition annotate (k v : string) (c : SandboxClaim) : SandboxClaim :=
  with_meta (fun m => with_annotations (<[k := v]> (Annotations m)) m) c.
Definition ns (c : SandboxClaim) : string := Namespace (cl_meta c).
Definition name (c : SandboxClaim) : string := Name (cl_meta c).
(** Only read where the claim has a workspace. *)
Definition workspace_of (c : SandboxClaim) : string := default EmptyString (WorkspaceRef (cl_spec c)).

Section binding.
(** [strings.TrimSpace] of texts that are not ASCII; the git rendezvous'
    parameters; the id of the active trace when tracing is on. *)
Variable trim_other : string -> string.
Variable render : string -> string -> option string.
Variable url_parse : string -> option Rendezvous.url.
Variable url_text : Rendezvous.url -> string -> string -> string.
Variable sorted_names : gmap string string -> list string.
Variable replace_all : string -> string -> string -> string.
Variable trace_id : option string.
Variable r : Config.

(** ** Transfer *)

Definition huskPodControlAddr (claim : SandboxClaim) : prog controller (res ctl_error string) :=
  if String.eqb (SandboxID (cl_status claim)) EmptyString then mret (Err ENoPod)
  else
    must pod := Get KPod (ns claim) (SandboxID (cl_status claim)) in
    if String.eqb (PodIP (pd_status pod)) EmptyString then mret (Err ENoPod)
    else mret (Ok (JoinHostPort (PodIP (pd_status pod)) (port_or HuskControlPort (ControlPort r)))).

(** The stub's own failure is an error too. *)
Definition husk_result {q} (p : prog controller (res ctl_error (res string (Control.husk_reply q))))
  : prog controller (res ctl_error (Control.husk_reply q)) :=
  must x := p in mret (match x with Ok a => Ok a | Err msg => Err (EHusk msg) end).

Definition defaultHuskHydrate (claim : SandboxClaim) (manifest : string) : prog controller (res ctl_error unit) :=
  if negb (Validate manifest) then mret (Err EInvalidDigest)
  else
    must addr := huskPodControlAddr claim in
    must _ := husk_result (on_husk (HuskTLS r) addr (Control.HHydrate (Control.mkHydrate manifest))) in
    mret (Ok tt).

Definition defaultHuskDehydrateWithDiff (claim : SandboxClaim) (excludePaths capturePaths : list string)
    (parentManifest : string) (wantDiff : bool) : prog controller (res ctl_error (string * option Control.Diff)) :=
  must addr := huskPodControlAddr claim in
  must x := husk_result (on_husk (HuskTLS r) addr
    (Control.HDehydrate (Control.mkDehydrate excludePaths capturePaths (if wantDiff then parentManifest else EmptyString)))) in
  let d := Control.dr_ManifestDigest x in
  if negb (Validate d) then mret (Err EInvalidDigest) else mret (Ok (d, Control.dr_Diff x)).

(** Without husk pods there is no transport: workspaceTransport refuses. *)
Definition defaultHydrate (claim : SandboxClaim) (manifest : string) : prog controller (res ctl_error unit) :=
  if EnableHuskPods r then defaultHuskHydrate claim manifest else mret (Err ENotWired).

(** The capture, and the diff against the parent when an output wants one. *)
Definition capture (claim : SandboxClaim) (capturePaths : list string) (parentManifest : string) (wantDiff : bool)
  : prog controller (res ctl_error (string * option Control.Diff)) :=
  if EnableHuskPods r then
    defaultHuskDehydrateWithDiff claim WorkspaceSecretExcludePaths capturePaths parentManifest wantDiff
  else mret (Err ENotWired).

(** Under husk pods no file is resolved, so that nothing is pushed; without them
    the transport refuses. *)
Definition defaultRepoFiles : res ctl_error (gmap string string) :=
  if EnableHuskPods r then Ok ∅ else Err ENotWired.

(** ** The workspace of a claim *)

(** The head's manifest when it is a digest, and the head. *)
Definition resolveWorkspaceHead (claim : SandboxClaim)
  : prog controller (res ctl_error (option string * option WorkspaceRevision)) :=
  must ws := Get KWorkspace (ns claim) (workspace_of claim) in
  if String.eqb (Head (ws_status ws)) EmptyString then mret (Ok (None, None))
  else
    must headRev := Get KRevision (ns claim) (Head (ws_status ws)) in
    let d := ContentManifest (rv_spec headRev) in
    mret (Ok (if Validate d then Some d else None, Some headRev)).

(** Another claim of the workspace that is neither finished nor being deleted. *)
Definition holds_workspace (claim other : SandboxClaim) : bool :=
  negb (String.eqb (name other) (name claim))
  && match WorkspaceRef (cl_spec other) with
     | None => false
     | Some w => String.eqb w (workspace_of claim)
     end
  && negb (String.eqb (Phase (cl_status other)) Gc.SandboxTerminated
           || String.eqb (Phase (cl_status other)) Gc.SandboxFailed)
  && bool_decide (DeletionTimestamp (cl_meta other) = None).
Definition workspaceBusyClaim (claim : SandboxClaim) : prog controller (res ctl_error string) :=
  must claims := List_ KClaim (ns claim) [] in
  mret (Ok (match List.find (holds_workspace claim) claims with Some o => name o | None => EmptyString end)).

(** ** Hydrating *)

Definition maybeResumeMemory (claim : SandboxClaim) (head : WorkspaceRevision) : prog controller (res ctl_error unit) :=
  match MemorySnapshotRef (rv_spec head) with
  | None => mret (Ok tt)
  | Some ref =>
      let boundPrincipal := default EmptyString (MemorySnapshotPrincipal (rv_spec head)) in
      if negb (String.eqb boundPrincipal (ServiceAccount (cl_spec claim))) then mret (Err EPrincipal)
      else
        must exists_ := memorySnapshotExists (Memory_ r) ref boundPrincipal in
        if negb exists_ then mret (Ok tt) else resumeMemory (Memory_ r) claim ref
  end.

(** Also the claim as the server returned it. *)
Definition hydrateOnActivate (claim : SandboxClaim) : prog controller (res ctl_error SandboxClaim) :=
  match WorkspaceRef (cl_spec claim) with
  | None => mret (Ok claim)
  | Some _ =>
      if bool_decide (is_Some (Annotations (cl_meta claim) !! workspaceHydratedAnnotation)) then mret (Ok claim)
      else
        must (manifest, head) := resolveWorkspaceHead claim in
        must _ := match manifest, head with
                  | Some d, Some head =>
                      must _ := maybeResumeMemory claim head in defaultHydrate claim d
                  | _, _ => mret (Ok tt)
                  end in
        let headName := match head with Some h => Name (rv_meta h) | None => EmptyString end in
        Update KClaim (annotate workspaceHydratedAnnotation headName claim)
  end.

(** ** Dehydrating *)

Definition gitOutputsOf (outputs : list OutputSpec) : list GitOutput := omap out_Git outputs.
Definition outputsWantDiff (outputs : list OutputSpec) : bool := existsb out_Diff outputs.

Definition resolveGitCredentials (namespace : string) (git : WorkspaceGit)
  : prog controller (res ctl_error (option Rendezvous.Credentials)) :=
  match CredentialsSecretRef git with
  | None => mret (Ok None)
  | Some ref =>
      must secret := Get KSecret namespace (sel_Name ref) in
      match Data secret !! sel_Key ref with
      | None | Some [] => mret (Err (ESecretKey (sel_Name ref) (sel_Key ref)))
      | Some value =>
          let username := if String.eqb (TrimSpace trim_other (CredentialsUsername git)) EmptyString
                          then "x-access-token" else CredentialsUsername git in
          mret (Ok (Some (Rendezvous.mkCredentials username (String.string_of_list_ascii value))))
      end
  end.

(** The pushes made, and the error that stopped them. *)
Fixpoint push_all (claim : SandboxClaim) (files : gmap string string) (creds : option Rendezvous.Credentials)
    (outputs : list GitOutput) : prog controller (list GitPushRecord * option ctl_error) :=
  match outputs with
  | [] => mret ([], None)
  | g :: outputs =>
      match Rendezvous.RenderBranch trim_other render (go_Branch g) (name claim) with
      | Err _ => mret ([], Some EBranch)
      | Ok branch =>
          p ← Rendezvous.Rendezvous trim_other url_parse url_text sorted_names replace_all files (go_Remote g) branch creds;
          match p with
          | Err _ => mret ([], Some EPush)
          | Ok _ =>
              '(pushes, e) ← push_all claim files creds outputs;
              mret (mkGitPush (go_Remote g) branch :: pushes, e)
          end
      end
  end.

Definition rendezvousOnTerminate (claim : SandboxClaim) : prog controller (list GitPushRecord * option ctl_error) :=
  let gitOutputs := gitOutputsOf (Outputs (cl_spec claim)) in
  match gitOutputs with
  | [] => mret ([], None)
  | _ =>
      w ← Get KWorkspace (ns claim) (workspace_of claim);
      match w with
      | Err e => mret ([], Some e)
      | Ok ws =>
          match Paths (Git ws) with
          | [] => mret ([], None)
          | _ =>
              match defaultRepoFiles with
              | Err e => mret ([], Some e)
              | Ok files =>
                  if bool_decide (files = ∅) then mret ([], None)
                  else
                    c ← resolveGitCredentials (ns claim) (Git ws);
                    match c with
                    | Err e => mret ([], Some e)
                    | Ok creds => push_all claim files creds gitOutputs
                    end
              end
          end
      end
  end.

Definition diff_summary (parentRev : string) (d : Control.Diff) : RevisionDiffSummary :=
  mkDiffSummary parentRev (Control.Added d) (Control.Removed d) (Control.Modified d)
    (i32 (Z.of_nat (length (Control.Added d)))) (i32 (Z.of_nat (length (Control.Removed d))))
    (i32 (Z.of_nat (length (Control.Modified d)))).

(** The revision of a claim's capture. *)
Definition new_revision (claim : SandboxClaim) (digest : string) (snap : option memSnapshotResult) : WorkspaceRevision :=
  mkRevision
    (new_meta (ns claim) EmptyString (workspace_of claim +:+ "-") {[WorkspaceLabel := workspace_of claim]}
       (match trace_id with Some id => {[traceIDAnnotation := id]} | None => ∅ end))
    (mkRevisionSpec (workspace_of claim) (name claim) None digest (Ref <$> snap) (Principal <$> snap))
    (mkRevisionStatus WorkspaceRevisionPending None [] [] 0).

Definition with_outcome (d : option RevisionDiffSummary) (p : list GitPushRecord) (rev : WorkspaceRevision) : WorkspaceRevision :=
  mkRevision (rv_meta rev) (rv_spec rev)
    (mkRevisionStatus (rv_Phase (rv_status rev)) d p (rv_Conditions (rv_status rev)) (rv_ObservedGeneration (rv_status rev))).

(** The memory snapshot to pair with the revision; one without a ref is none. *)
Definition paired_snapshot (claim : SandboxClaim) : prog controller (res ctl_error (option memSnapshotResult)) :=
  if CheckpointOnTerminate (cl_spec claim) then
    must snap := checkpointMemory (Memory_ r) claim in
    mret (Ok (if String.eqb (Ref snap) EmptyString then None else Some snap))
  else mret (Ok None).

(** What follows the creation of the revision. *)
Definition record_revision (claim : SandboxClaim) (rev : WorkspaceRevision) (diffSummary : option RevisionDiffSummary)
  : prog controller (res ctl_error SandboxClaim) :=
  _ ← emitRevisionCreated (Sink r) rev;
  '(gitPushes, gitErr) ← rendezvousOnTerminate claim;
  must _ := if bool_decide (diffSummary <> None) || (0 <? length gitPushes)%nat then
              StatusUpdate KRevision (with_outcome diffSummary gitPushes rev)
            else mret (Ok rev) in
  must claim := Update KClaim (annotate workspaceDehydratedAnnotation (Name (rv_meta rev)) claim) in
  mret (match gitErr with Some e => Err e | None => Ok claim end).

(** Also the claim as the server returned it. *)
Definition dehydrateOnTerminate (claim : SandboxClaim) : prog controller (res ctl_error SandboxClaim) :=
  match WorkspaceRef (cl_spec claim) with
  | None => mret (Ok claim)
  | Some _ =>
      if bool_decide (is_Some (Annotations (cl_meta claim) !! workspaceDehydratedAnnotation)) then mret (Ok claim)
      else
        must (parentManifest, parentHead) := resolveWorkspaceHead claim in
        let parentRev := match parentHead with Some h => Name (rv_meta h) | None => EmptyString end in
        let capturePaths := Outputs.CapturePaths trim_other (map out_Path (Outputs (cl_spec claim))) in
        let wantDiff := outputsWantDiff (Outputs (cl_spec claim)) in
        must (digest, diff) := capture claim capturePaths (default EmptyString parentManifest) wantDiff in
        if negb (Validate digest) then mret (Err EInvalidDigest)
        else
          let diffSummary := if wantDiff then diff_summary parentRev <$> diff else None in
          must snap := paired_snapshot claim in
          must rev := Create KRevision (new_revision claim digest snap) in
          record_revision claim rev diffSummary
  end.

End binding.
End Binding.

Module Claims.
Import Registry Warm Kube Ctl Binding.

Definition FinalizerTerminate : string := "mitos.run/forkd-terminate".
Definition pendingSinceAnnotation : string := "mitos.run/capacity-pending-since".
Definition DefaultMaxPendingDuration : Z := 5 * minute.
Definition capacityPendingRequeue : Z := 5 * second.

Definition huskPoolLabel : string := "mitos.run/pool".
Definition huskLabel : string := "mitos.run/husk".
Definition huskClaimLabel : string := "mitos.run/claim".
Definition HuskSnapshotDir : string := "/var/lib/mitos/snapshot".

(** ** Status *)

Definition with_status (f : SandboxClaimStatus -> SandboxClaimStatus) (c : SandboxClaim) : SandboxClaim :=
  mkClaim (cl_meta c) (cl_spec c) (f (cl_status c)).
Definition set_phase (p : string) (s : SandboxClaimStatus) : SandboxClaimStatus :=
  mkClaimStatus p (Endpoint s) (Node s) (SandboxID s) (ForkTimeMicros s) (StartedAt s) (FinishedAt s) (Conditions s).
Definition set_place (endpoint node id : string) (s : SandboxClaimStatus) : SandboxClaimStatus :=
  mkClaimStatus (Phase s) endpoint node id (ForkTimeMicros s) (StartedAt s) (FinishedAt s) (Conditions s).
Definition set_started (t : Z) (s : SandboxClaimStatus) : SandboxClaimStatus :=
  mkClaimStatus (Phase s) (Endpoint s) (Node s) (SandboxID s) (ForkTimeMicros s) (Some t) (FinishedAt s) (Conditions s).
Definition set_fork_time (us : Z) (s : SandboxClaimStatus) : SandboxClaimStatus :=
  mkClaimStatus (Phase s) (Endpoint s) (Node s) (SandboxID s) us (StartedAt s) (FinishedAt s) (Conditions s).
Definition set_finished (t : Z) (s : SandboxClaimStatus) : SandboxClaimStatus :=
  mkClaimStatus (Phase s) (Endpoint s) (Node s) (SandboxID s) (ForkTimeMicros s) (StartedAt s) (Some t) (Conditions s).
Definition set_conditions (cs : list Condition) (s : SandboxClaimStatus) : SandboxClaimStatus :=
  mkClaimStatus (Phase s) (Endpoint s) (Node s) (SandboxID s) (ForkTimeMicros s) (StartedAt s) (FinishedAt s) cs.
Definition condition (type status : string) (t : Z) (reason message : string) : Condition :=
  Gc.mkCondition type status 0 (Some t) reason message.
Definition set_condition (c : Condition) (s : SandboxClaimStatus) : SandboxClaimStatus :=
  set_conditions (Gc.setCondition (Conditions s) c).1 s.

(** [Duration.Round(time.Second)] *)
Definition round_second (d : Z) : Z :=
  let rem_ := Z.rem (Z.abs d) second in
  Z.sgn d * (if rem_ + rem_ <? second then Z.abs d - rem_ else Z.abs d + second - rem_).

Definition noCapacityCauseText (cause : ctl_error) : string * string :=
  if hasGRPCCode cause code_ResourceExhausted then
    ("the selected node reached its per-node sandbox-count limit (--max-sandbox)",
     "add forkd nodes or raise the per-node --max-sandbox limit")
  else if hasGRPCCode cause Gc.code_Unavailable then
    ("the selected node is unreachable (it left or died mid-fork)",
     "the claim retries on a healthy node; add forkd nodes if the cluster is down")
  else
    ("no node has memory capacity under the overcommit policy",
     "scale out forkd nodes or raise the overcommit factor").

(** ** Husk pods *)

Definition huskPodReady (p : Pod) : bool :=
  String.eqb (pd_Phase (pd_status p)) "Running" && negb (String.eqb (PodIP (pd_status p)) EmptyString)
  && match List.find (fun c => String.eqb c.1 "Ready") (pd_Conditions (pd_status p)) with
     | Some c => String.eqb c.2 "True"
     | None => false
     end.

Definition dormant (p : Pod) : bool :=
  bool_decide (DeletionTimestamp (pd_meta p) = None) && String.eqb (label huskClaimLabel (pd_meta p)) EmptyString
  && huskPodReady p.

(** The first by name. *)
Definition lowest (l : list Pod) : option Pod :=
  match l with
  | [] => None
  | p :: l => Some (fold_left (fun best q => if String.ltb (Name (pd_meta q)) (Name (pd_meta best)) then q else best) l p)
  end.

Definition selectDormantHuskPod (pool : SandboxPool) : prog controller (res ctl_error (option Pod)) :=
  must pods := List_ KPod (Namespace (po_meta pool)) [(huskPoolLabel, Name (po_meta pool)); (huskLabel, "true")] in
  mret (Ok (lowest (List.filter dormant pods))).

Definition claim_pod (claimName : string) (pod : Pod) : Pod :=
  mkPod (with_labels (<[huskClaimLabel := claimName]> (Labels (pd_meta pod))) (pd_meta pod)) (pd_spec pod) (pd_status pod).

(** Under the optimistic lock. *)
Definition markHuskPodClaimed (pod : Pod) (claimName : string) : prog controller (res ctl_error Pod) :=
  Patch KPod pod (claim_pod claimName pod) true.

(** Whether the pod is lost, and the pod when it is still there. *)
Definition checkHuskPodLost (claim : SandboxClaim) : prog controller (res ctl_error (bool * option Pod)) :=
  let st := cl_status claim in
  if String.eqb (Node st) EmptyString || String.eqb (Endpoint st) EmptyString then mret (Ok (false, None))
  else if negb (String.eqb (SandboxID st) EmptyString) then
    x ← ask (KGet KPod (ns claim) (SandboxID st));
    mret (match x with
          | NotFound => Ok (true, None)
          | GetFailed => Err (EApi AFailed)
          | Found p =>
              if String.eqb (label huskClaimLabel (pd_meta p)) (name claim) && String.eqb (label huskLabel (pd_meta p)) "true"
              then Ok (bool_decide (DeletionTimestamp (pd_meta p) <> None), Some p)
              else Ok (true, None)
          end)
  else
    must pods := List_ KPod (ns claim) [(huskClaimLabel, name claim); (huskLabel, "true")] in
    mret (Ok (match List.find (fun p => bool_decide (DeletionTimestamp (pd_meta p) = None)) pods with
              | Some p => (false, Some p)
              | None => (true, None)
              end)).

(** The production checkpointer captures nothing. *)
Definition defaultHuskCheckpointer (pod : option Pod) : bool := false.

Definition drain_message (policy : string) (checkpointed : bool) : string :=
  if String.eqb policy DrainCheckpoint then
    if checkpointed
    then "the backing husk pod was lost; a live-VM checkpoint was captured and the claim is re-pending to re-activate on a replacement slot"
    else "the backing husk pod was lost with no live VMM to checkpoint; the claim is re-pending (Kill semantics) and will re-activate on a replacement dormant slot"
  else "the backing husk pod was lost (drain, eviction, or deletion); the claim is re-pending and will re-activate on a replacement dormant slot".

(** Activation delivers no network. *)
Definition huskNotifyNetwork (template : SandboxTemplate) : option Guest.NotifyForkedNetwork := None.

Section claims.
(** [grpc.NewClient]; the order a map of strings and, for a range named by its
    place, the registry is ranged over; float conversion and formatting; the
    text of a duration, of a time and the time a text stands for; whether a
    template may own its key Secret; the parameters of [Binding]. *)
Variable dial : string -> option tls_config -> res unit conn.
Variable map_order : gmap string string -> list (string * string).
Variable node_order : string -> NodeRegistry -> list NodeInfo.
Variable conv : SpecFloat.spec_float -> Z.
Variable fmt_ms : SpecFloat.spec_float -> string.
Variable fmt_duration : Z -> string.
Variable format_time : Z -> string.
Variable parse_time : string -> option Z.
Variable may_own : string -> string -> bool.
Variable trim_other : string -> string.
Variable render : string -> string -> option string.
Variable url_parse : string -> option Rendezvous.url.
Variable url_text : Rendezvous.url -> string -> string -> string.
Variable sorted_names : gmap string string -> list string.
Variable replace_all : string -> string -> string -> string.
Variable trace_id : option string.
Variable r : Config.

Definition dehydrate : SandboxClaim -> prog controller (res ctl_error SandboxClaim) :=
  dehydrateOnTerminate trim_other render url_parse url_text sorted_names replace_all trace_id r.

(** A status write whose outcome is not looked at. *)
Definition try_status (c : SandboxClaim) : prog controller unit :=
  _ ← ask (KUpdateStatus KClaim c); mret tt.

Definition maxPendingDuration : Z :=
  if 0 <? MaxPendingDuration r then MaxPendingDuration r else DefaultMaxPendingDuration.

(** The terminal failure of a claim, stamped for the garbage collector. *)
Definition fail_claim (claim : SandboxClaim) (e : ctl_error) : prog controller (res ctl_error Result) :=
  now ← sys CNow;
  _ ← try_status (with_status (fun s => set_finished now (set_phase Gc.SandboxFailed s)) claim);
  mret (Err e).

(** Pending with a condition. *)
Definition pend (claim : SandboxClaim) (reason message : string) (after : Z) : prog controller (res ctl_error Result) :=
  now ← sys CNow;
  _ ← try_status (with_status (fun s => set_condition (condition "Ready" "False" now reason message) (set_phase Gc.SandboxPending s)) claim);
  mret (requeue after).

(** ** Secrets *)

Fixpoint resolve_mounts (namespace : string) (secrets : list SecretMount) (out : gmap string string)
  : prog controller (res ctl_error (gmap string string)) :=
  match secrets with
  | [] => mret (Ok out)
  | s :: secrets =>
      must secret := Get KSecret namespace (sel_Name (sm_SecretRef s)) in
      match Data secret !! sel_Key (sm_SecretRef s) with
      | None => mret (Err (ESecretKey (sel_Name (sm_SecretRef s)) (sel_Key (sm_SecretRef s))))
      | Some value =>
          let envVar := if String.eqb (sm_EnvVar s) EmptyString then sm_Name s else sm_EnvVar s in
          resolve_mounts namespace secrets (<[envVar := String.string_of_list_ascii value]> out)
      end
  end.
Definition resolveSecrets (namespace : string) (env : list (string * string)) (secrets : list SecretMount)
  : prog controller (res ctl_error (gmap string string * gmap string string)) :=
  let envOut : gmap string string := fold_left (fun m '(k, v) => <[k := v]> m) env ∅ in
  must secretsOut := resolve_mounts namespace secrets ∅ in
  mret (Ok (envOut, secretsOut)).

(** ** Waiting for capacity *)

Definition wait_message (clause remediation : string) (waited maxWait : Z) (exhausted : bool) : string :=
  if exhausted then
    clause +:+ " for " +:+ fmt_duration (round_second waited) +:+ " (waited past the " +:+ fmt_duration maxWait +:+ " bound); "
      +:+ remediation +:+ ", then recreate the claim"
  else
    clause +:+ "; the claim will retry (waited " +:+ fmt_duration (round_second waited) +:+ " of " +:+ fmt_duration maxWait +:+ "), "
      +:+ remediation.

(** The claim with its stamp, and since when it has been waiting. *)
Definition pending_since (claim : SandboxClaim) (now : Z) : prog controller (res ctl_error (SandboxClaim * Z)) :=
  let stamp := default EmptyString (Annotations (cl_meta claim) !! pendingSinceAnnotation) in
  if negb (String.eqb stamp EmptyString) then mret (Ok (claim, default now (parse_time stamp)))
  else
    must claim := Update KClaim (annotate pendingSinceAnnotation (format_time now) claim) in
    mret (Ok (claim, now)).

Definition reconcileNoCapacity (claim : SandboxClaim) (cause : ctl_error) : prog controller (res ctl_error Result) :=
  now ← sys CNow;
  must (claim, pendingSince) := pending_since claim now in
  let waited := time_sub now pendingSince in
  let maxWait := maxPendingDuration in
  let '(clause, remediation) := noCapacityCauseText cause in
  if maxWait <=? waited then
    _ ← try_status (with_status (fun s =>
          set_condition (condition "Ready" "False" now "CapacityExhausted" (wait_message clause remediation waited maxWait true))
            (set_finished now (set_phase Gc.SandboxFailed s))) claim);
    mret done
  else
    _ ← try_status (with_status (fun s =>
          set_condition (condition "Ready" "False" now "NoCapacity" (wait_message clause remediation waited maxWait false))
            (set_phase Gc.SandboxPending s)) claim);
    mret (requeue capacityPendingRequeue).

Definition clearPendingSince (claim : SandboxClaim) : SandboxClaim :=
  with_meta (fun m => with_annotations (delete pendingSinceAnnotation (Annotations m)) m) claim.

(** ** Placement on a node *)

Definition selectNode (pool : SandboxPool) (preferredNode : string) : prog controller (res ctl_error (NodeInfo * string)) :=
  now ← sys CNow;
  x ← atomic (fun g =>
        let reg := ct_registry g in
        (SelectNode conv reg now (node_order "scan" reg) (node_order "preferred" reg) (fun n => node_order n reg)
           (TemplateRef pool) preferredNode, g));
  mret (match x with Ok n => Ok (n, TemplateRef pool) | Err e => Err (ESelect e) end).

(** The wrapped key of an encrypted template. *)
Definition template_key (namespace snapshotID : string) (template : SandboxTemplate)
  : prog controller (res ctl_error (bytes * string)) :=
  if Encrypted template then
    x ← EncSecret.EnsureEncKey may_own (KMS r) namespace snapshotID (Some (UID (t_meta template)));
    mret (match x with Ok k => Ok k | Err e => Err (EEncKey e) end)
  else mret (Ok ([], EmptyString)).

(** A step whose failure fails the claim. *)
Definition or_fail {A} (claim : SandboxClaim) (p : prog controller (res ctl_error A))
    (k : A -> prog controller (res ctl_error Result)) : prog controller (res ctl_error Result) :=
  x ← p;
  match x with Err e => fail_claim claim e | Ok a => k a end.

Definition ready_raw (claim : SandboxClaim) (node : NodeInfo) (result : forkResult) (now : Z) : SandboxClaim :=
  with_status (fun s =>
    set_condition (condition "Ready" "True" now "Forked"
                     ("forked in " +:+ fmt_ms (fk_ForkTimeMs result) +:+ "ms on node " +:+ Registry.Name node))
      (set_started now (set_fork_time (f64_to_int64 conv (f64_mul (fk_ForkTimeMs result) (f64_of_int 1000)))
         (set_place (fk_Endpoint result) (Registry.Name node) (fk_SandboxID result) (set_phase Gc.SandboxReady s))))) claim.

(** A fork that failed. *)
Definition fork_failed (claim : SandboxClaim) (e : ctl_error) : prog controller (res ctl_error Result) :=
  if isNotFound e then
    _ ← try_status (with_status (set_phase Gc.SandboxPending) claim); mret (requeue (1 * second))
  else if isRetryableCapacity e then reconcileNoCapacity claim e
  else fail_claim claim e.

Definition claim_ref (claim : SandboxClaim) : OwnerReference := controller_ref "SandboxClaim" (cl_meta claim).

(** Once a node was selected. *)
Definition fork_on (claim : SandboxClaim) (template : SandboxTemplate) (node : NodeInfo) (snapshotID : string)
  : prog controller (res ctl_error Result) :=
  let volumes := volumeMounts (Volumes template) (VolumeOverrides (cl_spec claim)) in
  or_fail claim (resolveSecrets (ns claim) (Env (cl_spec claim)) (Secrets (cl_spec claim))) (fun '(env, secretVals) =>
  or_fail claim mintAPIToken (fun apiToken =>
  or_fail claim (template_key (ns claim) snapshotID template) (fun '(wrappedDEK, kekID) =>
    f ← forkOnNode dial map_order node snapshotID (name claim) env secretVals (Network template) volumes apiToken wrappedDEK kekID;
    match f with
    | Err e => fork_failed claim e
    | Ok result =>
        or_fail claim (ensureSandboxTokenSecret (claim_ref claim) (ns claim) (name claim +:+ tokenSecretSuffix) apiToken
                         (fk_Endpoint result)) (fun _ =>
          now ← sys CNow;
          must _ := StatusUpdate KClaim (ready_raw claim node result now) in
          mret done)
    end))).

Definition reconcileRawClaim (claim : SandboxClaim) (pool : SandboxPool) (template : SandboxTemplate)
  : prog controller (res ctl_error Result) :=
  must claim := StatusUpdate KClaim (with_status (set_phase Gc.SandboxRestoring) claim) in
  n ← selectNode pool (cs_NodeName (cl_spec claim));
  match n with
  | Err (ESelect ErrNoCapacity) => reconcileNoCapacity claim (ESelect ErrNoCapacity)
  | Err _ =>
      _ ← try_status (with_status (set_phase Gc.SandboxPending) (clearPendingSince claim));
      mret (requeue (1 * second))
  | Ok (node, snapshotID) =>
      must claim :=
        if negb (String.eqb (default EmptyString (Annotations (cl_meta claim) !! pendingSinceAnnotation)) EmptyString)
        then Update KClaim (clearPendingSince claim) else mret (Ok claim) in
      fork_on claim template node snapshotID
  end.

(** ** Placement in a husk pod *)

Definition recordHuskDemand (claim : SandboxClaim) : prog controller unit :=
  now ← sys CNow;
  modify (fun g => with_demand (RecordArrival (ct_demand g) (ns claim +:+ "/" +:+ PoolRef (cl_spec claim)) now) g).

(** The status is written only when it changed. *)
Definition no_husk_pod (claim : SandboxClaim) : prog controller (res ctl_error Result) :=
  let st := cl_status claim in
  now ← sys CNow;
  let cond := condition "Ready" "False" now "NoHuskPod"
    "no warm husk pod is ready in the pool; the claim will retry once the pool scales a dormant slot up" in
  let changed := negb (String.eqb (Phase st) Gc.SandboxPending) || negb (String.eqb (Endpoint st) EmptyString)
    || negb (String.eqb (Node st) EmptyString) || negb (String.eqb (SandboxID st) EmptyString)
    || (Gc.setCondition (Conditions st) cond).2 in
  _ ← (if changed then
         try_status (with_status (fun s =>
           set_condition cond (set_place EmptyString EmptyString EmptyString (set_phase Gc.SandboxPending s))) claim)
       else mret tt);
  mret (requeue capacityPendingRequeue).

Definition template_digest (templateID : string) : prog controller string :=
  now ← sys CNow;
  atomic (fun g => (default EmptyString (TemplateDigest now (node_order "digest" (ct_registry g)) templateID), g)).

Definition activate_request (template : SandboxTemplate) (digest : string) (env secretVals : gmap string string) (apiToken : string)
  : Control.ActivateRequest :=
  Control.mkActivate HuskSnapshotDir digest [] env secretVals (huskNotifyNetwork template) [] apiToken.

Definition activate_message (e : res string string) : string :=
  match e with
  | Err msg => "husk activation transport error: " +:+ msg +:+ "; the claim will retry"
  | Ok msg => (if String.eqb msg EmptyString then "husk activation did not complete" else "husk activation failed: " +:+ msg)
                +:+ "; the claim will retry"
  end.

(** The text of an error returned by the activation client. *)
Definition transport_text (e : ctl_error) : string := match e with ETransport msg => msg | _ => EmptyString end.

Definition ready_husk (claim : SandboxClaim) (pod : Pod) (endpoint : string) (result : Control.ActivateResult) (now : Z)
  : SandboxClaim :=
  with_status (fun s =>
    set_condition (condition "Ready" "True" now "HuskActivated"
                     ("activated husk pod " +:+ Name (pd_meta pod) +:+ " on node " +:+ NodeName (pd_spec pod) +:+ " in "
                        +:+ fmt_ms (Control.ar_LatencyMs result) +:+ "ms"))
      (set_started now (set_place endpoint (NodeName (pd_spec pod)) (Name (pd_meta pod)) (set_phase Gc.SandboxReady s)))) claim.

(** Once the pod carries the claim's label. *)
Definition activate_pod (claim : SandboxClaim) (pool : SandboxPool) (template : SandboxTemplate) (pod : Pod)
    (env secretVals : gmap string string) (apiToken : string) : prog controller (res ctl_error Result) :=
  expectedDigest ← template_digest (TemplateRef pool);
  let addr := JoinHostPort (PodIP (pd_status pod)) (port_or HuskControlPort (ControlPort r)) in
  x ← on_husk (HuskTLS r) addr (Control.HActivate (activate_request template expectedDigest env secretVals apiToken));
  match x with
  | Err e => pend claim "ActivateFailed" (activate_message (Err (transport_text e))) capacityPendingRequeue
  | Ok (Err msg) => pend claim "ActivateFailed" (activate_message (Ok msg)) capacityPendingRequeue
  | Ok (Ok result) =>
      let endpoint := JoinHostPort (PodIP (pd_status pod)) (port_or huskSandboxPort (SandboxPort r)) in
      or_fail claim (ensureSandboxTokenSecret (claim_ref claim) (ns claim) (name claim +:+ tokenSecretSuffix) apiToken endpoint) (fun _ =>
        now ← sys CNow;
        must _ := StatusUpdate KClaim (ready_husk claim pod endpoint result now) in
        mret done)
  end.

Definition raced_message : string :=
  "the selected dormant husk pod was claimed by another claim concurrently; the claim will retry and pick a different dormant pod".

Definition reconcileHuskClaim (claim : SandboxClaim) (pool : SandboxPool) (template : SandboxTemplate)
  : prog controller (res ctl_error Result) :=
  _ ← recordHuskDemand claim;
  must pod := selectDormantHuskPod pool in
  match pod with
  | None => no_husk_pod claim
  | Some pod =>
      must claim := if negb (String.eqb (Phase (cl_status claim)) Gc.SandboxRestoring)
                    then StatusUpdate KClaim (with_status (set_phase Gc.SandboxRestoring) claim)
                    else mret (Ok claim) in
      or_fail claim (resolveSecrets (ns claim) (Env (cl_spec claim)) (Secrets (cl_spec claim))) (fun '(env, secretVals) =>
      or_fail claim mintAPIToken (fun apiToken =>
        m ← markHuskPodClaimed pod (name claim);
        match m with
        | Err (EApi AConflict) => pend claim "HuskPodRaced" raced_message capacityPendingRequeue
        | Err e => mret (Err e)
        | Ok pod => activate_pod claim pool template pod env secretVals apiToken
        end))
  end.

(** ** Loss of the pod *)

Definition rependOnHuskPodLost (claim : SandboxClaim) (drainPolicy : string) (pod : option Pod)
  : prog controller (res ctl_error Result) :=
  let policy := if String.eqb drainPolicy EmptyString then DrainKill else drainPolicy in
  let checkpointed := String.eqb policy DrainCheckpoint && defaultHuskCheckpointer pod in
  now ← sys CNow;
  must _ := StatusUpdate KClaim (with_status (fun s =>
    set_condition (condition "Ready" "False" now "HuskPodLost" (drain_message policy checkpointed))
      (set_place EmptyString EmptyString EmptyString (set_phase Gc.SandboxPending s))) claim) in
  mret (requeue capacityPendingRequeue).

(** ** Lifetime *)

Definition terminate_backing (claim : SandboxClaim) : prog controller (res ctl_error unit) :=
  let st := cl_status claim in
  if negb (String.eqb (Node st) EmptyString) && negb (String.eqb (SandboxID st) EmptyString)
  then terminateOnNode dial (Node st) (SandboxID st) else mret (Ok tt).

Definition terminateLifetime (claim : SandboxClaim) (reason message : string) : prog controller (res ctl_error Result) :=
  d ← dehydrate claim;
  match d with
  | Err _ => mret (requeue capacityPendingRequeue)
  | Ok claim =>
      must _ := terminate_backing claim in
      now ← sys CNow;
      must _ := StatusUpdate KClaim (with_status (fun s =>
        set_condition (condition "Terminated" "True" now reason message)
          (set_finished now (set_phase Gc.SandboxTerminated s))) claim) in
      mret done
  end.

(** The idle deadline, unless the forkd cannot say. *)
Definition idle_deadline (claim : SandboxClaim) (startedAt idle : Z) : prog controller (option Z) :=
  a ← sandboxActivity dial (Node (cl_status claim)) (SandboxID (cl_status claim));
  mret (match a with
        | None => None
        | Some (_, lastActivity) =>
            Some (match lastActivity with Some t => Z.max startedAt t | None => startedAt end + idle)
        end).

(** The remaining time to the nearer deadline. *)
Definition next_check (requeue_ : Z) (maxDeadline : option Z) : prog controller (res ctl_error Result) :=
  q ← match maxDeadline with
      | Some d =>
          now ← sys CNow;
          let untilMax := time_sub d now in
          mret (if (requeue_ =? 0) || (untilMax <? requeue_) then untilMax else requeue_)
      | None => mret requeue_
      end;
  mret (requeue (if q <=? 0 then 1 * second else q)).

Definition reconcileLifetime (claim : SandboxClaim) : prog controller (res ctl_error Result) :=
  if String.eqb (Phase (cl_status claim)) Gc.SandboxTerminated then mret done
  else
    match StartedAt (cl_status claim) with
    | None => mret done
    | Some startedAt =>
        let spec := cl_spec claim in
        if bool_decide (Timeout spec = None) && bool_decide (IdleTimeout spec = None) then mret done
        else
          now ← sys CNow;
          let maxDeadline := (fun d => startedAt + d) <$> Timeout spec in
          if match maxDeadline with Some d => d <=? now | None => false end then
            terminateLifetime claim "MaxLifetimeExceeded"
              ("max lifetime " +:+ fmt_duration (default 0 (Timeout spec)) +:+ " exceeded")
          else
            match IdleTimeout spec with
            | None => next_check 0 maxDeadline
            | Some idle =>
                i ← idle_deadline claim startedAt idle;
                match i with
                | None => mret (requeue (1 * second))
                | Some idleDeadline =>
                    if idleDeadline <? now then
                      terminateLifetime claim "IdleTimeout" ("idle for more than " +:+ fmt_duration idle)
                    else
                      now' ← sys CNow;
                      next_check (time_sub idleDeadline now') maxDeadline
                end
            end
    end.

(** ** Deletion *)

Definition delete_pod (p : Pod) : prog controller (res ctl_error unit) :=
  x ← Delete KPod p (Some 0);
  mret (match x with Err (EApi ANotFound) => Ok tt | x => x end).

Definition reconcileDelete (claim : SandboxClaim) : prog controller (res ctl_error Result) :=
  if negb (ContainsFinalizer FinalizerTerminate (cl_meta claim)) then mret done
  else
    d ← dehydrate claim;
    match d with
    | Err _ => mret (requeue capacityPendingRequeue)
    | Ok claim =>
        pods ← List_ KPod (ns claim) [(huskClaimLabel, name claim)];
        match pods with
        | Err _ => mret (requeue capacityPendingRequeue)
        | Ok pods =>
            must _ := for_each pods delete_pod in
            must _ := terminate_backing claim in
            must _ := Update KClaim (with_meta (RemoveFinalizer FinalizerTerminate) claim) in
            mret done
        end
    end.

(** ** Reconcile *)

Definition busy_message (claim : SandboxClaim) (busy : string) (q : string -> string) : string :=
  "workspace " +:+ q (workspace_of claim) +:+ " is already bound to active claim " +:+ q busy
    +:+ "; this claim will bind once that claim releases the workspace (single-writer-per-workspace)".
(** The %q of a name. *)
Variable quoted : string -> string.

Definition reconcileReady (claim : SandboxClaim) : prog controller (res ctl_error Result) :=
  must (lost, lostPod) := if EnableHuskPods r then checkHuskPodLost claim else mret (Ok (false, None)) in
  if lost then
    p ← ask (KGet KPool (ns claim) (PoolRef (cl_spec claim)));
    match p with
    | GetFailed => mret (Err (EApi AFailed))
    | NotFound => rependOnHuskPodLost claim EmptyString lostPod
    | Found pool => rependOnHuskPodLost claim (DrainPolicy pool) lostPod
    end
  else
    h ← hydrateOnActivate r claim;
    match h with
    | Err _ => mret (requeue capacityPendingRequeue)
    | Ok claim => reconcileLifetime claim
    end.

(** A claim that has no sandbox yet. *)
Definition place (claim : SandboxClaim) : prog controller (res ctl_error Result) :=
  must pool := Get KPool (ns claim) (PoolRef (cl_spec claim)) in
  must template := Get KTemplate (Namespace (po_meta pool)) (TemplateRef pool) in
  must busy := if bool_decide (WorkspaceRef (cl_spec claim) <> None) then workspaceBusyClaim claim else mret (Ok EmptyString) in
  if negb (String.eqb busy EmptyString) then
    pend claim "WorkspaceBusy" (busy_message claim busy quoted) capacityPendingRequeue
  else
    must claim := if ContainsFinalizer FinalizerTerminate (cl_meta claim) then mret (Ok claim)
                  else Update KClaim (with_meta (AddFinalizer FinalizerTerminate) claim) in
    if EnableHuskPods r then reconcileHuskClaim claim pool template else reconcileRawClaim claim pool template.

Definition reconcile_claim (claim : SandboxClaim) : prog controller (res ctl_error Result) :=
  if bool_decide (DeletionTimestamp (cl_meta claim) <> None) then reconcileDelete claim
  else if String.eqb (Phase (cl_status claim)) Gc.SandboxReady then reconcileReady claim
  else if String.eqb (Phase (cl_status claim)) Gc.SandboxFailed || String.eqb (Phase (cl_status claim)) Gc.SandboxTerminated
  then mret done
  else place claim.

(** The phase a reconcile persisted is announced when it differs from the one it
    found. *)
Definition announce_phase (namespace name_ entryPhase : string) : prog controller unit :=
  f ← ask (KGetLive KClaim namespace name_);
  match f with
  | Found fresh =>
      let p := Phase (cl_status fresh) in
      if negb (String.eqb p EmptyString) && negb (String.eqb p entryPhase)
      then emitPhaseChanged (Sink r) fresh entryPhase p else mret tt
  | _ => mret tt
  end.

Definition Reconcile (namespace name_ : string) : prog controller (res ctl_error Result) :=
  c ← ask (KGet KClaim namespace name_);
  match c with
  | NotFound => mret done
  | GetFailed => mret (Err (EApi AFailed))
  | Found claim =>
      x ← reconcile_claim claim;
      _ ← announce_phase namespace name_ (Phase (cl_status claim));
      mret x
  end.

End claims.

(** huskPodToClaim: the claim to reconcile when a pod changed. *)
Definition huskPodToClaim (p : Pod) : list (string * string) :=
  if negb (String.eqb (label huskLabel (pd_meta p)) "true") then []
  else if String.eqb (label huskClaimLabel (pd_meta p)) EmptyString then []
  else [(Namespace (pd_meta p), label huskClaimLabel (pd_meta p))].

End Claims.
