(* ===== verification/ClaimSafety.v ===== *)
(** * What the claim controller guarantees

    - [Guard]: when a reconcile may write which status, activate a pod, fork a
      sandbox, capture a workspace, restore a memory image or drop a finalizer,
      in terms of the calls it made before; every reconcile keeps to it.
    - [ClaimFacts]: the theorems: a Ready claim is backed by a sandbox of its own,
      a claim is released only after its sandbox was reaped, a husk pod serves one
      claim however reconciles interleave. *)
From S2P Require Import Prelude GoLib GoFs Scheduler Autoscale Gc Cas Wire Host Guarded Kms Workspace Rendezvous Controller ClaimController.
#[local] Open Scope go_scope.

Module Guard.
Import Registry Warm Chunk Kube Ctl Binding Claims.

Abbreviation ev q x := (Ev (CCtl q) x).

(** ** What a trace shows *)

(** The API server has returned the claim. *)
Definition known (c : SandboxClaim) (t : trace) : Prop :=
  (exists ns nm, ev (KGet KClaim ns nm) (Found c) ∈ t) \/
  (exists o, ev (KUpdate KClaim o) (Written c) ∈ t) \/
  (exists o, ev (KUpdateStatus KClaim o) (Written c) ∈ t).

Definition listed (p : Pod) (t : trace) : Prop :=
  exists ns ls l, ev (KList KPod ns ls) (Some l) ∈ t /\ p ∈ l.

(** The pod [base], as it was listed, now carries the label of the claim. *)
Definition marked (claim : string) (base pod : Pod) (t : trace) : Prop :=
  ev (KPatch KPod base (claim_pod claim base) true) (Written pod) ∈ t.

Definition minted (token : string) (t : trace) : Prop :=
  exists b, Ev (CRandom 32) (Some b) ∈ t /\ token = hex_encode (byte_z <$> resize 32 "000"%char b).

(** The Secret of that name holds the token and the endpoint and is the owner's. *)
Definition token_stored (owner : OwnerReference) (namespace nm token endpoint : string) (t : trace) : Prop :=
  exists base m,
    SetControllerReference owner (se_meta base) = Some m /\
    let s := mkSecret m (se_Type base) (token_data token endpoint) in
    (base = mkSecret (new_meta namespace nm EmptyString ∅ ∅) EmptyString ∅ /\
     exists s', ev (KCreate KSecret s) (Written s') ∈ t) \/
    (ev (KGet KSecret namespace nm) (Found base) ∈ t /\
     (base = s \/ exists s', ev (KUpdate KSecret s) (Written s') ∈ t)).

(** Minting and storing a token, under any guard that lets them. *)
Section tokens.
Context (ok : trace -> call -> Prop).

Lemma mint_guarded t :
  (forall t n, ok t (CRandom n)) ->
  guarded (G := controller) ok mintAPIToken (fun x t' => t `prefix_of` t' /\ forall k, x = Ok k -> minted k t') t.
Proof.
  intros Hok. apply guarded_bind. unfold random. apply guarded_bind, guarded_sys; [apply Hok|]. intros [b|]; do 2 apply guarded_ret.
  - split; [by apply prefix_snoc|]. intros k [= <-]. exists b. split; [apply last_in|done].
  - split; [by apply prefix_snoc|done].
Qed.

Lemma store_token_guarded owner namespace nm token endpoint t :
  (forall t ns nm, ok t (CCtl (KGet KSecret ns nm))) -> (forall t s, ok t (CCtl (KCreate KSecret s))) ->
  (forall t s, ok t (CCtl (KUpdate KSecret s))) ->
  guarded (G := controller) ok (ensureSandboxTokenSecret owner namespace nm token endpoint)
    (fun x t' => t `prefix_of` t' /\ (is_ok x = true -> token_stored owner namespace nm token endpoint t')) t.
Proof.
  intros Hget Hcreate Hupdate. unfold ensureSandboxTokenSecret, CreateOrUpdate. apply guarded_bind, guarded_sys; [apply Hget|].
  intros [s| |]; [| |apply guarded_ret; split; [by apply prefix_snoc|done]].
  - destruct (SetControllerReference owner (se_meta s)) as [m|] eqn:Ho; [|apply guarded_ret; split; [by apply prefix_snoc|done]].
    destruct (bool_decide_reflect (s = mkSecret m (se_Type s) (token_data token endpoint))) as [Heq|_].
    + apply guarded_ret. split; [by apply prefix_snoc|]. intros _. exists s, m. split; [exact Ho|]. right. split; [apply last_in|by left].
    + unfold Update. apply guarded_try, guarded_bind, guarded_sys; [apply Hupdate|]. intros x. apply guarded_ret.
      destruct x; cbn [written]; try apply guarded_ret; (split; [by do 2 apply prefix_snoc|]); [|done..].
      intros _. exists s, m. split; [exact Ho|]. right. split; [|right; eexists; apply last_in].
      apply elem_of_app. left. apply last_in.
  - cbn [se_meta]. destruct (SetControllerReference _ _) as [m|] eqn:Ho; [|apply guarded_ret; split; [by apply prefix_snoc|done]].
    unfold Create. apply guarded_try, guarded_bind, guarded_sys; [apply Hcreate|]. intros x. apply guarded_ret.
    destruct x; cbn [written]; try apply guarded_ret; (split; [by do 2 apply prefix_snoc|]); [|done..].
    intros _. exists (mkSecret (new_meta namespace nm EmptyString ∅ ∅) EmptyString ∅), m. split; [exact Ho|].
    left. split; [done|]. eexists. apply last_in.
Qed.

Lemma token_stored_prefix owner namespace nm token endpoint t t' :
  t `prefix_of` t' -> token_stored owner namespace nm token endpoint t -> token_stored owner namespace nm token endpoint t'.
Proof.
  intros Hp (b & m & Ho & Hst). exists b, m. split; [exact Ho|].
  destruct Hst as [(? & s' & Hs)|(Hg & [Hs|(s' & Hs)])]; [left|right..]; eauto 8 using in_prefix.
Qed.
End tokens.

(** The answers to a Terminate after which the sandbox counts as gone. *)
Definition gone (x : res Z unit) : Prop :=
  match x with Ok _ => True | Err code => Gc.isAlreadyTerminated [Some code] = true end.

(** The claim's husk pods were deleted, and no forkd that was asked to terminate
    a sandbox refused. *)
Definition reaped (c : SandboxClaim) (t : trace) : Prop :=
  (exists l, ev (KList KPod (ns c) [(huskClaimLabel, name c)]) (Some l) ∈ t /\
     forall p, p ∈ l -> exists w, ev (KDelete KPod p (Some 0)) w ∈ t /\ (w = Written tt \/ w = Missing)) /\
  (forall conn id x, ev (KForkd conn (Forkd.QTerminate id)) x ∈ t -> gone x).

(** A revision holds what the husk pod captured. *)
Definition captured (manifest : string) (t : trace) : Prop :=
  Validate manifest = true /\
  exists addr q x, ev (KHusk addr (Control.HDehydrate q)) (Ok (Ok x)) ∈ t /\ Control.dr_ManifestDigest x = manifest.

(** The claim had no workspace, or it was captured into a revision already or now. *)
Definition workspace_kept (t : trace) : Prop :=
  (exists c, known c t /\ (WorkspaceRef (cl_spec c) = None \/ is_Some (Annotations (cl_meta c) !! workspaceDehydratedAnnotation))) \/
  (exists rev rev', ev (KCreate KRevision rev) (Written rev') ∈ t /\ captured (ContentManifest (rv_spec rev)) t).

Section guard.
Variable r : Config.

Definition control_addr (p : Pod) : string := JoinHostPort (PodIP (pd_status p)) (port_or HuskControlPort (ControlPort r)).
Definition sandbox_addr (p : Pod) : string := JoinHostPort (PodIP (pd_status p)) (port_or huskSandboxPort (SandboxPort r)).

(** A husk pod was won under the lock, activated with the token just minted, and
    the token handed over. *)
Definition backed_husk (c : SandboxClaim) (t : trace) : Prop :=
  exists base pod q result,
    dormant base = true /\ listed base t /\ marked (name c) base pod t /\
    ev (KHusk (control_addr pod) (Control.HActivate q)) (Ok (Ok result)) ∈ t /\ minted (Control.a_Token q) t /\
    token_stored (claim_ref c) (ns c) (name c +:+ tokenSecretSuffix) (Control.a_Token q) (Endpoint (cl_status c)) t /\
    Endpoint (cl_status c) = sandbox_addr pod /\ Node (cl_status c) = NodeName (pd_spec pod) /\
    SandboxID (cl_status c) = Name (pd_meta pod).

(** A forkd forked the sandbox of the claim's name with the token just minted. *)
Definition backed_raw (c : SandboxClaim) (t : trace) : Prop :=
  exists conn q resp,
    ev (KForkd conn (Forkd.QFork q)) (Ok resp) ∈ t /\ Forkd.q_SandboxId q = name c /\ minted (Forkd.q_ApiToken q) t /\
    token_stored (claim_ref c) (ns c) (name c +:+ tokenSecretSuffix) (Forkd.q_ApiToken q) (Endpoint (cl_status c)) t /\
    SandboxID (cl_status c) = Forkd.p_SandboxId resp.

Definition status_ok (c : SandboxClaim) (t : trace) : Prop :=
  Phase (cl_status c) = Gc.SandboxReady -> if EnableHuskPods r then backed_husk c t else backed_raw c t.

(** A write keeps the finalizers the server has, adds the controller's, or drops
    it from a claim whose sandbox and workspace are taken care of. *)
Definition update_ok (o : SandboxClaim) (t : trace) : Prop :=
  exists c, known c t /\ cl_spec o = cl_spec c /\
    (Finalizers (cl_meta o) = Finalizers (cl_meta c) \/
     Finalizers (cl_meta o) = Finalizers (cl_meta c) ++ [FinalizerTerminate] \/
     (o = with_meta (RemoveFinalizer FinalizerTerminate) c /\ reaped c t /\ workspace_kept t)).

Definition activation_ok (addr : string) (q : Control.ActivateRequest) (t : trace) : Prop :=
  HuskTLS r = true /\ minted (Control.a_Token q) t /\
  exists claim base pod, marked claim base pod t /\ addr = control_addr pod.

(** A memory image is restored for the service account it was taken from. *)
Definition restore_ok (namespace claim ref : string) (t : trace) : Prop :=
  exists c ns' nm head,
    known c t /\ ns c = namespace /\ name c = claim /\ ev (KGet KRevision ns' nm) (Found head) ∈ t /\
    MemorySnapshotRef (rv_spec head) = Some ref /\
    default EmptyString (MemorySnapshotPrincipal (rv_spec head)) = ServiceAccount (cl_spec c).

Definition claim_ok (t : trace) (c : call) : Prop :=
  match c with
  | CCtl (KUpdateStatus k o) => match k return object k -> Prop with KClaim => fun c => status_ok c t | _ => fun _ => True end o
  | CCtl (KUpdate k o) => match k return object k -> Prop with KClaim => fun c => update_ok c t | _ => fun _ => True end o
  | CCtl (KPatch k base new lock) =>
      match k return object k -> object k -> Prop with
      | KPod => fun base new => lock = true /\ dormant base = true /\ listed base t /\ exists c, known c t /\ new = claim_pod (name c) base
      | _ => fun _ _ => False
      end base new
  | CCtl (KCreate k o) =>
      match k return object k -> Prop with
      | KRevision => fun rev => captured (ContentManifest (rv_spec rev)) t
      | _ => fun _ => True
      end o
  | CCtl (KHusk addr (Control.HActivate q)) => activation_ok addr q t
  | CCtl (KHusk addr (Control.HDehydrate q)) => HuskTLS r = true /\ Control.dw_ExcludePaths q = WorkspaceSecretExcludePaths
  | CCtl (KHusk addr (Control.HForkSnapshot _ | Control.HRemoveForkSnapshot _)) => False
  | CCtl (KRestoreVM namespace claim ref) => restore_ok namespace claim ref t
  | _ => True
  end.

Abbreviation keeps_guard := (guarded (G := controller) claim_ok).

(** ** Facts stay *)


Lemma known_prefix c t t' : t `prefix_of` t' -> known c t -> known c t'.
Proof. intros Hp [(a & b & H)|[(a & H)|(a & H)]]; [left|right; left|right; right]; eauto using in_prefix. Qed.
Lemma listed_prefix p t t' : t `prefix_of` t' -> listed p t -> listed p t'.
Proof. intros Hp (a & b & l & H & Hin). exists a, b, l. eauto using in_prefix. Qed.
Lemma marked_prefix c b p t t' : t `prefix_of` t' -> marked c b p t -> marked c b p t'.
Proof. apply in_prefix. Qed.
Lemma minted_prefix k t t' : t `prefix_of` t' -> minted k t -> minted k t'.
Proof. intros Hp (b & H & ->). exists b. eauto using in_prefix. Qed.
Lemma captured_prefix m t t' : t `prefix_of` t' -> captured m t -> captured m t'.
Proof. intros Hp (Hv & a & q & x & H & Hx). split; [done|]. exists a, q, x. eauto using in_prefix. Qed.
Lemma workspace_kept_prefix t t' : t `prefix_of` t' -> workspace_kept t -> workspace_kept t'.
Proof.
  intros Hp [(c & Hc & H)|(rev & rev' & H & Hcap)]; [left; exists c|right; exists rev, rev'];
    eauto using known_prefix, in_prefix, captured_prefix.
Qed.


(** ** Calls that are always allowed *)

Definition quiet (c : call) : Prop := forall t, claim_ok t c.

Lemma quiet_guarded {A} (p : prog controller A) t :
  calls_in quiet p -> keeps_guard p (fun _ t' => t `prefix_of` t') t.
Proof.
  intros Hp. eapply guarded_mono; [by apply guarded_calls|]. intros a t' (ext & -> & _). by apply prefix_app_r.
Qed.

Lemma quiet_anyway {A} (p : prog controller A) t : calls_in quiet p -> keeps_guard p (fun _ _ => True) t.
Proof. intros Hp. eapply guarded_mono; [by apply quiet_guarded|done]. Qed.

(** A status that is not Ready. *)
Lemma quiet_status c : Phase (cl_status c) <> Gc.SandboxReady -> quiet (CCtl (KUpdateStatus KClaim c)).
Proof. by intros Hc t H. Qed.

End guard.

Create HintDb ctl.
#[export] Hint Resolve known_prefix listed_prefix marked_prefix minted_prefix captured_prefix workspace_kept_prefix prefix_snoc last_in in_prefix : ctl.
#[export] Hint Extern 0 (_ `prefix_of` _) => reflexivity : ctl.

(** Calls whose guard is [True], and status writes of another phase. *)
#[export] Hint Extern 1 (quiet _ _) => first [by intros ?|by apply quiet_status] : prog.

(** Everything known before the events of [Hp] is known after them. *)
Ltac carry Hp :=
  cbv beta in Hp;
  repeat match type of Hp with
  | ?t `prefix_of` _ =>
      match goal with
      | H : known _ t |- _ => apply (known_prefix _ _ _ Hp) in H
      | H : listed _ t |- _ => apply (listed_prefix _ _ _ Hp) in H
      | H : marked _ _ _ t |- _ => apply (marked_prefix _ _ _ _ _ Hp) in H
      | H : minted _ t |- _ => apply (minted_prefix _ _ _ Hp) in H
      | H : captured _ t |- _ => apply (captured_prefix _ _ _ Hp) in H
      | H : workspace_kept t |- _ => apply (workspace_kept_prefix _ _ Hp) in H
      end
  end; try clear Hp.

End Guard.

(** ** Every step keeps to the guard *)

Module Steps.
Import Registry Warm Chunk Kube Ctl Binding Claims Guard.

Section steps.
Context (r : Config).
Abbreviation keeps_guard := (guarded (G := controller) (claim_ok r)).

(** *** The API client *)

Lemma Get_guarded k namespace nm (Q : _ -> trace -> Prop) t :
  (forall o, Q (Ok o) (t ++ [ev (KGet k namespace nm) (Found o)])) ->
  (forall e x, Q (Err e) (t ++ [ev (KGet k namespace nm) x])) ->
  keeps_guard (Get k namespace nm) Q t.
Proof. intros Hok Herr. apply guarded_bind, guarded_sys; [exact I|]. intros [o| |]; [apply Hok|apply Herr..]. Qed.

Lemma List_guarded k namespace ls (Q : _ -> trace -> Prop) t :
  (forall l, Q (Ok l) (t ++ [ev (KList k namespace ls) (Some l)])) ->
  (forall e x, Q (Err e) (t ++ [ev (KList k namespace ls) x])) ->
  keeps_guard (List_ k namespace ls) Q t.
Proof. intros Hok Herr. apply guarded_bind, guarded_sys; [exact I|]. intros [l|]; [apply Hok|apply Herr]. Qed.

(** A write of any verb: what the server wrote, or an error. *)
Lemma write_guarded q A (f : kanswer q -> res ctl_error A) (Q : _ -> trace -> Prop) t :
  claim_ok r t (CCtl q) -> (forall x, Q (f x) (t ++ [ev q x])) ->
  keeps_guard (x ← ask q; mret (f x)) Q t.
Proof. intros Hok HQ. apply guarded_bind, guarded_sys; [exact Hok|]. intros x. by apply guarded_ret. Qed.

(** The claim a write returned is the server's. *)
Definition returns_claim (t : trace) (x : res ctl_error SandboxClaim) (t' : trace) : Prop :=
  t `prefix_of` t' /\ forall c, x = Ok c -> known c t'.

Lemma Update_claim c o t :
  known c t -> cl_spec o = cl_spec c ->
  Finalizers (cl_meta o) = Finalizers (cl_meta c) \/
  Finalizers (cl_meta o) = Finalizers (cl_meta c) ++ [FinalizerTerminate] ->
  keeps_guard (Update KClaim o) (returns_claim t) t.
Proof.
  intros Hc Hs Hf. apply write_guarded; [exists c; naive_solver|]. intros x. split; [eauto with ctl|].
  intros c' Hx. right. left. exists o. destruct x; try discriminate. injection Hx as ->. eauto with ctl.
Qed.

Lemma StatusUpdate_claim o t :
  status_ok r o t -> keeps_guard (StatusUpdate KClaim o) (returns_claim t) t.
Proof.
  intros Ho. apply write_guarded; [exact Ho|]. intros x. split; [eauto with ctl|].
  intros c' Hx. right. right. exists o. destruct x; try discriminate. injection Hx as ->. eauto with ctl.
Qed.

Lemma not_ready o t : Phase (cl_status o) <> Gc.SandboxReady -> status_ok r o t.
Proof. by intros H1 H2. Qed.

(** *** The token Secret *)

Lemma mintAPIToken_guarded t :
  keeps_guard mintAPIToken (fun x t' => t `prefix_of` t' /\ forall k, x = Ok k -> minted k t') t.
Proof. by apply mint_guarded. Qed.

Lemma ensure_token_guarded owner namespace nm token endpoint t :
  keeps_guard (ensureSandboxTokenSecret owner namespace nm token endpoint)
    (fun x t' => t `prefix_of` t' /\ (is_ok x = true -> token_stored owner namespace nm token endpoint t')) t.
Proof. by apply store_token_guarded. Qed.

(** *** Quiet parts *)

Lemma Get_quiet k namespace nm : calls_in (quiet r) (Get (G := controller) k namespace nm).
Proof. unfold Get, ask. walk. Qed.
Lemma List_quiet k namespace ls : calls_in (quiet r) (List_ (G := controller) k namespace ls).
Proof. unfold List_, ask. walk. Qed.
#[local] Hint Resolve Get_quiet List_quiet : prog.
Lemma resolve_mounts_quiet namespace l out : calls_in (quiet r) (resolve_mounts namespace l out).
Proof. revert out. induction l as [|s l IH]; intros out; cbn [resolve_mounts]; walk; auto. Qed.
Lemma resolveSecrets_quiet namespace env l : calls_in (quiet r) (resolveSecrets namespace env l).
Proof. unfold resolveSecrets. apply calls_try; [apply resolve_mounts_quiet|]. walk. Qed.
Lemma attempts_quiet n b e : calls_in (quiet r) (attempts_left (G := controller) n b e).
Proof. induction n as [|n IH]; cbn [attempts_left]; [exact I|]. unfold post, ask. walk. Qed.
Lemma Emit_quiet s e : calls_in (quiet r) (Emit (G := controller) s e).
Proof. destruct s; [apply attempts_quiet|exact I]. Qed.
Lemma emitPhaseChanged_quiet s c o n : calls_in (quiet r) (emitPhaseChanged (G := controller) s c o n).
Proof. unfold emitPhaseChanged, ask. walk. apply Emit_quiet. Qed.
Lemma emitRevisionCreated_quiet s v : calls_in (quiet r) (emitRevisionCreated (G := controller) s v).
Proof. unfold emitRevisionCreated, ask. walk. apply Emit_quiet. Qed.
Lemma connect_quiet dial n : calls_in (quiet r) (connect dial n).
Proof. unfold connect. walk. Qed.

Lemma try_status_quiet c : Phase (cl_status c) <> Gc.SandboxReady -> calls_in (quiet r) (try_status c).
Proof. intros Hc. unfold try_status, ask. walk. Qed.
Lemma pend_quiet c reason msg d : calls_in (quiet r) (pend c reason msg d).
Proof. unfold pend. apply calls_bind; [walk|]. intros now. apply calls_bind; [by apply try_status_quiet|]. walk. Qed.
Lemma fail_claim_quiet c e : calls_in (quiet r) (fail_claim c e).
Proof. unfold fail_claim. apply calls_bind; [walk|]. intros now. apply calls_bind; [by apply try_status_quiet|]. walk. Qed.
Lemma no_husk_pod_quiet c : calls_in (quiet r) (no_husk_pod c).
Proof.
  unfold no_husk_pod. apply calls_bind; [walk|]. intros now. apply calls_bind; [|walk].
  case_match; [by apply try_status_quiet|exact I].
Qed.
Lemma announce_phase_quiet namespace nm p : calls_in (quiet r) (announce_phase r namespace nm p).
Proof. unfold announce_phase, ask. walk. apply emitPhaseChanged_quiet. Qed.

Lemma or_fail_guarded {A} c (p : prog controller (res ctl_error A)) k t :
  keeps_guard p (fun x t' => match x with Ok a => keeps_guard (k a) (fun _ _ => True) t' | Err _ => True end) t ->
  keeps_guard (or_fail c p k) (fun _ _ => True) t.
Proof.
  intros Hp. apply guarded_bind. eapply guarded_mono; [exact Hp|]. intros [a|e] t' H; [exact H|].
  apply quiet_anyway, fail_claim_quiet.
Qed.

(** *** Waiting for capacity *)

Section capacity.
Context (fmt_duration : Z -> string) (format_time : Z -> string) (parse_time : string -> option Z).

Lemma pending_since_guarded c now t :
  known c t ->
  keeps_guard (pending_since format_time parse_time c now)
    (fun x t' => t `prefix_of` t' /\ forall c' s, x = Ok (c', s) -> known c' t') t.
Proof.
  intros Hc. unfold pending_since. destruct (negb _).
  - apply guarded_ret. split; [eauto with ctl|]. by intros c' s [= <- <-].
  - apply guarded_try. eapply guarded_mono; [by apply (Update_claim c); [exact Hc|done|left]|].
    intros [c'|e] t' [Hp Hk]; [apply guarded_ret|]; (split; [exact Hp|]); [|done].
    intros c'' s [= <- <-]. by apply Hk.
Qed.

Lemma reconcileNoCapacity_guarded c cause t :
  known c t -> keeps_guard (reconcileNoCapacity fmt_duration format_time parse_time r c cause) (fun _ _ => True) t.
Proof.
  intros Hc. apply guarded_bind, guarded_sys; [exact I|]. intros now. apply guarded_try.
  eapply guarded_mono; [apply pending_since_guarded; eauto with ctl|]. intros [[c' since]|e] t' [Hp Hk]; [|done].
  cbv beta iota zeta. destruct (noCapacityCauseText cause) as [clause fix_].
  case_match; apply quiet_anyway, calls_bind; [by apply try_status_quiet|walk|by apply try_status_quiet|walk].
Qed.
End capacity.

(** *** Placement in a husk pod *)

Lemma lowest_in l p : lowest l = Some p -> p ∈ l.
Proof.
  destruct l as [|a l]; [done|]. intros [= <-]. revert a. induction l as [|b l IH]; intros a; cbn [fold_left].
  - by apply list_elem_of_singleton.
  - destruct (String.ltb _ _); [specialize (IH b)|specialize (IH a)]; rewrite elem_of_cons in IH; rewrite !elem_of_cons; tauto.
Qed.

Lemma selectDormantHuskPod_guarded pool t :
  keeps_guard (selectDormantHuskPod pool)
    (fun x t' => t `prefix_of` t' /\ forall p, x = Ok (Some p) -> dormant p = true /\ listed p t') t.
Proof.
  apply guarded_try, List_guarded; [|by intros e x; split; [eauto with ctl|]]. intros l. apply guarded_ret.
  split; [eauto with ctl|]. intros p [= Hp]. apply lowest_in, list_elem_of_In, List.filter_In in Hp as [Hin Hd].
  split; [exact Hd|]. eexists _, _, l. split; [apply last_in|]. by apply list_elem_of_In.
Qed.

Lemma markHuskPodClaimed_guarded p c t :
  dormant p = true -> listed p t -> known c t ->
  keeps_guard (markHuskPodClaimed p (name c))
    (fun x t' => t `prefix_of` t' /\ forall p', x = Ok p' -> marked (name c) p p' t') t.
Proof.
  intros Hd Hl Hc. apply write_guarded; [split; [done|]; split; [done|]; split; [done|]; by exists c|].
  intros x. split; [eauto with ctl|]. intros p' Hx. destruct x; try discriminate. injection Hx as ->. apply last_in.
Qed.

Section husk.
Context (node_order : string -> NodeRegistry -> list NodeInfo) (fmt_ms : SpecFloat.spec_float -> string).

Lemma activate_pod_guarded c pool template base pod env secrets token t :
  EnableHuskPods r = true -> dormant base = true -> listed base t -> marked (name c) base pod t -> minted token t ->
  keeps_guard (activate_pod node_order fmt_ms r c pool template pod env secrets token) (fun _ _ => True) t.
Proof.
  intros Hr Hd Hl Hm Hk. apply guarded_bind. eapply guarded_mono; [apply quiet_guarded; unfold template_digest; walk|].
  intros digest t1 Hp. carry Hp. apply guarded_bind. unfold on_husk.
  destruct (HuskTLS r) eqn:Htls; cbn [negb]; [|apply guarded_ret; apply quiet_anyway, pend_quiet].
  apply guarded_bind, guarded_sys.
  { split; [done|]. split; [exact Hk|]. by exists (name c), base, pod. }
  intros [[result|msg]|msg]; apply guarded_ret; [|apply quiet_anyway, pend_quiet..].
  set (q := Control.HActivate _). set (t2 := t1 ++ _).
  assert (t1 `prefix_of` t2) as Hp by (apply prefix_snoc; done).
  assert (ev (KHusk (control_addr r pod) q) (Ok (Ok result)) ∈ t2) as Hact by apply last_in.
  clearbody t2. carry Hp. apply or_fail_guarded.
  eapply guarded_mono; [apply ensure_token_guarded|]. intros [[]|e] t3 [Hp Hst]; [|done].
  apply (in_prefix _ _ _ Hp) in Hact. carry Hp. apply guarded_bind, guarded_sys; [exact I|]. intros now.
  apply guarded_try. eapply guarded_mono; [apply StatusUpdate_claim|by intros [?|?] t4 _].
  intros _. rewrite Hr. specialize (Hst eq_refl). exists base, pod. eexists _, result.
  assert (t3 `prefix_of` (t3 ++ [Ev CNow now])) as Hp by (apply prefix_snoc; done).
  repeat split; eauto using token_stored_prefix with ctl.
Qed.

Lemma reconcileHuskClaim_guarded c pool template t :
  EnableHuskPods r = true -> known c t ->
  keeps_guard (reconcileHuskClaim node_order fmt_ms r c pool template) (fun _ _ => True) t.
Proof.
  intros Hr Hc. apply guarded_bind. eapply guarded_mono; [apply quiet_guarded; unfold recordHuskDemand; walk|].
  intros u t1 Hp. carry Hp. apply guarded_try. eapply guarded_mono; [apply selectDormantHuskPod_guarded|].
  intros [[pod|]|e] t2 [Hp Hpod]; [|apply quiet_anyway, no_husk_pod_quiet|done].
  destruct (Hpod _ eq_refl) as [Hd Hl]. carry Hp. clear Hpod. apply guarded_try.
  eapply (guarded_mono _ _ (returns_claim t2)).
  { destruct (negb _); [by apply StatusUpdate_claim, not_ready|]. apply guarded_ret. split; [eauto with ctl|]. by intros ? [= <-]. }
  intros [c'|e] t3 [Hp Hc']; [|done]. specialize (Hc' _ eq_refl). carry Hp. apply or_fail_guarded.
  eapply guarded_mono; [apply quiet_guarded, resolveSecrets_quiet|]. intros [[env secrets]|e] t4 Hp; [|done]. carry Hp.
  apply or_fail_guarded. eapply guarded_mono; [apply mintAPIToken_guarded|]. intros [token|e] t5 [Hp Hk]; [|done].
  specialize (Hk _ eq_refl). carry Hp. apply guarded_bind.
  eapply guarded_mono; [by apply markHuskPodClaimed_guarded|]. intros [pod'|e] t6 [Hp Hm].
  - specialize (Hm _ eq_refl). carry Hp. by eapply activate_pod_guarded.
  - repeat case_match; first [exact I|apply quiet_anyway, pend_quiet].
Qed.
End husk.

(** *** Placement on a node *)

(** Wrapping a key calls neither the API server nor a node. *)
Definition kms_apart : Prop := forall w, KMS r = Some w -> forall dek, calls_in apart (Kms.w_Wrap w dek).

Lemma apart_quiet {A} (p : prog controller A) : calls_in apart p -> calls_in (quiet r) p.
Proof.
  induction p as [a|X f k IH|c k IH]; cbn; intros Hp; [done|intros x; apply IH, Hp|].
  split; [|intros x; apply IH, Hp]. intros t. by destruct c; destruct Hp as [[] _].
Qed.

Section raw.
Context (dial : string -> option tls_config -> res unit conn) (map_order : gmap string string -> list (string * string))
  (node_order : string -> NodeRegistry -> list NodeInfo) (conv : SpecFloat.spec_float -> Z)
  (fmt_ms : SpecFloat.spec_float -> string) (fmt_duration : Z -> string) (format_time : Z -> string)
  (parse_time : string -> option Z) (may_own : string -> string -> bool).
Context (Hkms : kms_apart).

Lemma template_key_quiet namespace id template : calls_in (quiet r) (template_key may_own r namespace id template).
Proof.
  unfold template_key. case_match; [|exact I]. apply calls_bind; [|walk].
  unfold EncSecret.EnsureEncKey. apply calls_bind; [walk|]. intros [d| |]; [exact I| |exact I].
  destruct (KMS r) as [w|] eqn:Hw; [|exact I]. apply calls_try; [unfold random; walk|]. intros dek.
  apply calls_bind; [by apply apart_quiet, Hkms|]. intros x. walk.
Qed.

Lemma forkOnNode_guarded node id sandbox env secrets network volumes token dek kek t :
  keeps_guard (forkOnNode dial map_order node id sandbox env secrets network volumes token dek kek)
    (fun x t' => t `prefix_of` t' /\ forall res, x = Ok res -> exists conn q resp,
       ev (KForkd conn (Forkd.QFork q)) (Ok resp) ∈ t' /\ Forkd.q_SandboxId q = sandbox /\
       Forkd.q_ApiToken q = token /\ fk_SandboxID res = Forkd.p_SandboxId resp) t.
Proof.
  apply guarded_bind, guarded_atomic. intros mtls. destruct (_ && _); [by apply guarded_ret; split; [eauto with ctl|]|].
  apply guarded_try. eapply guarded_mono; [apply quiet_guarded, connect_quiet|]. intros [c|e] t1 Hp; [|by split].
  apply guarded_try, guarded_bind, guarded_sys; [exact I|]. intros [resp|code]; apply guarded_ret; [|by split; [eauto with ctl|]].
  apply guarded_ret. split; [eauto with ctl|]. intros res [= <-]. eexists c, _, resp. split; [apply last_in|]. done.
Qed.

Lemma fork_failed_guarded c e t :
  known c t -> keeps_guard (fork_failed fmt_duration format_time parse_time r c e) (fun _ _ => True) t.
Proof.
  intros Hc. unfold fork_failed. destruct (isNotFound e); [|destruct (isRetryableCapacity e)].
  - apply quiet_anyway, calls_bind; [by apply try_status_quiet|walk].
  - by apply reconcileNoCapacity_guarded.
  - apply quiet_anyway, fail_claim_quiet.
Qed.

Lemma fork_on_guarded c template node id t :
  EnableHuskPods r = false -> known c t ->
  keeps_guard (fork_on dial map_order conv fmt_ms fmt_duration format_time parse_time may_own r c template node id)
    (fun _ _ => True) t.
Proof.
  intros Hr Hc. apply or_fail_guarded.
  eapply guarded_mono; [apply quiet_guarded, resolveSecrets_quiet|]. intros [[env secrets]|e] t1 Hp; [|done]. carry Hp.
  apply or_fail_guarded. eapply guarded_mono; [apply mintAPIToken_guarded|]. intros [token|e] t2 [Hp Hk]; [|done].
  specialize (Hk _ eq_refl). carry Hp. apply or_fail_guarded.
  eapply guarded_mono; [apply quiet_guarded, template_key_quiet|]. intros [[dek kek]|e] t3 Hp; [|done]. carry Hp.
  apply guarded_bind. eapply guarded_mono; [apply forkOnNode_guarded|]. intros [res|e] t4 [Hp Hf].
  2: { carry Hp. by apply fork_failed_guarded. }
  destruct (Hf _ eq_refl) as (conn & q & resp & Hev & Hid & Htok & Hsid). carry Hp. clear Hf.
  apply or_fail_guarded. eapply guarded_mono; [apply ensure_token_guarded|]. intros [[]|e] t5 [Hp Hst]; [|done].
  apply (in_prefix _ _ _ Hp) in Hev. carry Hp. apply guarded_bind, guarded_sys; [exact I|]. intros now.
  apply guarded_try. eapply guarded_mono; [apply StatusUpdate_claim|by intros [?|?] t6 _].
  intros _. rewrite Hr. exists conn, q, resp. specialize (Hst eq_refl). subst.
  assert (t5 `prefix_of` (t5 ++ [Ev CNow now])) as Hp by (apply prefix_snoc; done).
  repeat split; eauto using token_stored_prefix with ctl.
Qed.

Lemma reconcileRawClaim_guarded c pool template t :
  EnableHuskPods r = false -> known c t ->
  keeps_guard (reconcileRawClaim dial map_order node_order conv fmt_ms fmt_duration format_time parse_time may_own r c pool template)
    (fun _ _ => True) t.
Proof.
  intros Hr Hc. apply guarded_try. eapply guarded_mono; [by apply StatusUpdate_claim, not_ready|].
  intros [c'|e] t1 [Hp Hk]; [|done]. specialize (Hk _ eq_refl). clear Hc Hp. apply guarded_bind.
  eapply guarded_mono; [apply quiet_guarded; unfold selectNode; walk|]. intros [[node id]|e] t2 Hp; carry Hp.
  - apply guarded_try. eapply (guarded_mono _ _ (returns_claim t2)).
    { destruct (negb _); [by apply (Update_claim c'); [exact Hk|done|left]|]. apply guarded_ret. split; [eauto with ctl|].
      by intros c'' [= <-]. }
    intros [c''|e] t3 [Hp Hk']; [|done]. by apply fork_on_guarded; [|apply Hk'].
  - assert (keeps_guard (_ ← try_status (with_status (set_phase Gc.SandboxPending) (clearPendingSince c')); mret (requeue (1 * second)))
              (fun _ _ => True) t2) as Hpend by (apply quiet_anyway, calls_bind; [by apply try_status_quiet|walk]).
    repeat case_match; first [exact Hpend|by apply reconcileNoCapacity_guarded].
Qed.
End raw.

(** *** The workspace *)

Definition got_revision (v : WorkspaceRevision) (t : trace) : Prop := exists namespace nm, ev (KGet KRevision namespace nm) (Found v) ∈ t.
Lemma got_revision_prefix v t t' : t `prefix_of` t' -> got_revision v t -> got_revision v t'.
Proof. intros Hp (a & b & H). exists a, b. eauto with ctl. Qed.

Lemma resolveWorkspaceHead_guarded c t :
  keeps_guard (resolveWorkspaceHead c)
    (fun x t' => t `prefix_of` t' /\ forall m h, x = Ok (m, Some h) -> got_revision h t') t.
Proof.
  apply guarded_try, Get_guarded; [|by intros e x; split; [eauto with ctl|]]. intros ws.
  destruct (String.eqb _ _); [by apply guarded_ret; split; [eauto with ctl|]|].
  apply guarded_try, Get_guarded; [|by intros e x; split; [eauto with ctl|]]. intros rev. apply guarded_ret.
  split; [eauto with ctl|]. intros m h [= _ <-]. eexists _, _. apply last_in.
Qed.

Lemma huskPodControlAddr_quiet c : calls_in (quiet r) (huskPodControlAddr r c).
Proof. unfold huskPodControlAddr. case_match; [exact I|]. apply calls_try; [apply Get_quiet|]. walk. Qed.

Lemma defaultHydrate_quiet c m : calls_in (quiet r) (defaultHydrate r c m).
Proof.
  unfold defaultHydrate, defaultHuskHydrate. case_match; [|exact I]. case_match; [exact I|].
  apply calls_try; [apply huskPodControlAddr_quiet|]. intros addr. unfold husk_result, on_husk, ask. walk.
Qed.

Lemma maybeResumeMemory_guarded c head t :
  known c t -> got_revision head t ->
  keeps_guard (maybeResumeMemory r c head) (fun _ t' => t `prefix_of` t') t.
Proof.
  intros Hc Hh. unfold maybeResumeMemory. destruct (MemorySnapshotRef _) as [ref|] eqn:Href; [|apply guarded_ret; eauto with ctl].
  destruct (String.eqb_spec (default EmptyString (MemorySnapshotPrincipal (rv_spec head))) (ServiceAccount (cl_spec c))) as [Hpr|];
    cbn [negb]; [|apply guarded_ret; eauto with ctl].
  apply guarded_try. eapply guarded_mono.
  { apply quiet_guarded. unfold memorySnapshotExists, Exists_, ask. walk. }
  intros [[]|e] t1 Hp; cbn [negb]; [|apply guarded_ret; eauto with ctl|eauto with ctl].
  unfold resumeMemory, Resume. destruct (Memory_ r) as [h|]; [|apply guarded_ret; eauto with ctl].
  case_match; [apply guarded_ret; eauto with ctl|]. apply guarded_bind, guarded_atomic. intros bound.
  case_match; [apply guarded_ret; eauto with ctl|]. apply guarded_check, guarded_sys.
  - cbv beta in Hp. apply (got_revision_prefix _ _ _ Hp) in Hh as (a & b & Hh). carry Hp. exists c, a, b, head. done.
  - intros x. cbv beta in Hp. eauto with ctl.
Qed.

Lemma hydrateOnActivate_guarded c t : known c t -> keeps_guard (hydrateOnActivate r c) (returns_claim t) t.
Proof.
  intros Hc. assert (returns_claim t (Ok c) t) as Hsame by (split; [eauto with ctl|by intros ? [= <-]]).
  unfold hydrateOnActivate. destruct (WorkspaceRef _); [|by apply guarded_ret].
  case_bool_decide; [by apply guarded_ret|]. apply guarded_try.
  eapply guarded_mono; [apply resolveWorkspaceHead_guarded|]. intros [[m head]|e] t1 [Hp Hh]; [|by split].
  apply guarded_try. eapply (guarded_mono _ _ (fun _ t' => t1 `prefix_of` t')).
  - destruct m as [d|], head as [h|]; try (apply guarded_ret; eauto with ctl).
    specialize (Hh _ _ eq_refl). apply guarded_try. eapply guarded_mono; [apply maybeResumeMemory_guarded; eauto with ctl|].
    intros [[]|e] t2 Hp2; [|done]. eapply guarded_mono; [apply quiet_guarded, defaultHydrate_quiet|].
    intros x t3 Hp3. cbv beta in *. by etrans.
  - intros [[]|e] t2 Hp2; [|split; [by etrans|done]]. eapply guarded_mono.
    + apply (Update_claim c); [|done|by left]. apply (known_prefix c t); [by etrans|exact Hc].
    + intros x t3 [Hp3 Hk]. split; [|exact Hk]. etrans; [exact Hp|]. by etrans.
Qed.

Section dehydrate.
Context (trim_other : string -> string) (render : string -> string -> option string)
  (url_parse : string -> option Rendezvous.url) (url_text : Rendezvous.url -> string -> string -> string)
  (sorted_names : gmap string string -> list string) (replace_all : string -> string -> string -> string)
  (trace_id : option string).

Abbreviation push := (Rendezvous.Rendezvous (G := controller) trim_other url_parse url_text sorted_names replace_all).

Lemma Rendezvous_quiet files remote branch creds : calls_in (quiet r) (push files remote branch creds).
Proof.
  unfold Rendezvous.Rendezvous, Rendezvous.push, Rendezvous.credentials, Rendezvous.writeGitCredentials,
    Rendezvous.write_file, Rendezvous.git. walk.
Qed.
Lemma push_all_quiet c files creds l :
  calls_in (quiet r) (push_all trim_other render url_parse url_text sorted_names replace_all c files creds l).
Proof.
  induction l as [|g l IH]; cbn [push_all]; [exact I|]. case_match; [|exact I].
  apply calls_bind; [apply Rendezvous_quiet|]. walk.
Qed.
Lemma rendezvousOnTerminate_quiet c :
  calls_in (quiet r) (rendezvousOnTerminate trim_other render url_parse url_text sorted_names replace_all r c).
Proof.
  unfold rendezvousOnTerminate, resolveGitCredentials. case_match; [exact I|].
  apply calls_bind; [apply Get_quiet|]. intros [w|e]; [|exact I]. case_match; [exact I|]. case_match; [|exact I].
  case_bool_decide; [exact I|]. apply calls_bind; [walk|]. intros [cr|e]; [apply push_all_quiet|exact I].
Qed.

Lemma record_revision_guarded c rev d t :
  known c t ->
  keeps_guard (record_revision trim_other render url_parse url_text sorted_names replace_all r c rev d) (returns_claim t) t.
Proof.
  intros Hc. apply guarded_bind. eapply guarded_mono; [apply quiet_guarded, emitRevisionCreated_quiet|].
  intros u t1 Hp1. apply guarded_bind. eapply guarded_mono; [apply quiet_guarded, rendezvousOnTerminate_quiet|].
  intros [pushes err] t2 Hp2. cbv beta in *. assert (t `prefix_of` t2) as Hp by (by etrans). clear Hp1 Hp2 t1.
  apply guarded_try. eapply (guarded_mono _ _ (fun _ t' => t2 `prefix_of` t')).
  { destruct (_ || _); [|apply guarded_ret; eauto with ctl]. apply write_guarded; [exact I|]. eauto with ctl. }
  intros [x|e] t3 Hp3; [|split; [by etrans|done]]. apply guarded_try. eapply guarded_mono.
  { apply (Update_claim c); [|done|by left]. apply (known_prefix c t); [by etrans|exact Hc]. }
  assert (t `prefix_of` t3) as Hp4 by (by etrans).
  intros [c'|e] t4 [Hp5 Hk]; [apply guarded_ret|]; (split; [by etrans|]); [|done]. intros c''. destruct err; [done|]. apply Hk.
Qed.

Lemma capture_guarded c paths parent want t :
  keeps_guard (capture r c paths parent want)
    (fun x t' => t `prefix_of` t' /\ forall m d, x = Ok (m, d) -> captured m t') t.
Proof.
  unfold capture, defaultHuskDehydrateWithDiff. case_match; [|by apply guarded_ret; split; [eauto with ctl|]].
  apply guarded_try. eapply guarded_mono; [apply quiet_guarded, huskPodControlAddr_quiet|]. intros [addr|e] t1 Hp; [|by split].
  apply guarded_try, guarded_try. unfold on_husk. destruct (HuskTLS r) eqn:Htls; cbn [negb]; [|by apply guarded_ret].
  apply guarded_bind, guarded_sys; [done|]. intros [[x|msg]|msg]; apply guarded_ret; [apply guarded_ret|apply guarded_ret|]; [|by split; [eauto with ctl|]..].
  destruct (Validate _) eqn:Hv; cbn [negb]; apply guarded_ret; (split; [eauto with ctl|]); [|done].
  intros m d [= <- <-]. split; [exact Hv|]. eexists addr, _, x. split; [apply last_in|done].
Qed.

Lemma paired_snapshot_quiet c : calls_in (quiet r) (paired_snapshot r c).
Proof. unfold paired_snapshot, checkpointMemory, Checkpoint, ask. walk. Qed.

Lemma dehydrate_guarded c t :
  known c t ->
  keeps_guard (dehydrate trim_other render url_parse url_text sorted_names replace_all trace_id r c)
    (fun x t' => returns_claim t x t' /\ (is_ok x = true -> workspace_kept t')) t.
Proof.
  intros Hc. assert (returns_claim t (Ok c) t) as Hsame by (split; [eauto with ctl|by intros ? [= <-]]).
  unfold dehydrate, dehydrateOnTerminate. destruct (WorkspaceRef _) eqn:Hw; [|apply guarded_ret; split; [done|]; left; eauto].
  case_bool_decide; [apply guarded_ret; split; [done|]; left; eauto|]. apply guarded_try.
  eapply guarded_mono; [apply resolveWorkspaceHead_guarded|]. intros [[m head]|e] t1 [Hp1 _]; [|by repeat split].
  apply guarded_try. eapply guarded_mono; [apply capture_guarded|]. intros [[d df]|e] t2 [Hp2 Hcap]; [|repeat split; [by etrans|done..]].
  specialize (Hcap _ _ eq_refl). assert (t `prefix_of` t2) as Hp by (by etrans). clear Hp1 Hp2 t1.
  case_match; [apply guarded_ret; by repeat split|]. cbv zeta. apply guarded_try.
  eapply guarded_mono; [apply quiet_guarded, paired_snapshot_quiet|]. intros [snap|e] t3 Hp3; [|repeat split; [by etrans|done..]].
  cbv beta in Hp3. apply guarded_try, write_guarded; [by apply (captured_prefix _ t2)|]. intros x.
  set (t4 := t3 ++ _). assert (t `prefix_of` t4) as Hp4 by (apply prefix_snoc; by etrans).
  assert (captured d t4) as Hcap' by (apply (captured_prefix _ t2); [by apply prefix_snoc|done]).
  destruct x as [rev| | | |c0]; cbn [written]; [|by repeat split..].
  assert (workspace_kept t4) as Hkept by (right; eexists _, rev; split; [apply last_in|done]). clearbody t4.
  eapply guarded_mono; [apply record_revision_guarded; by apply (known_prefix c t)|]. intros y t5 [Hp5 Hk].
  split; [split; [by etrans|exact Hk]|]. intros _. by apply (workspace_kept_prefix t4).
Qed.
(** Capturing terminates nothing. *)
Definition spares (c : call) : Prop :=
  match c with CCtl (KForkd _ (Forkd.QTerminate _)) => False | _ => True end.
#[local] Hint Extern 1 (spares _) => exact I : prog.

Lemma push_all_spares c files creds l :
  calls_in spares (push_all trim_other render url_parse url_text sorted_names replace_all c files creds l).
Proof.
  induction l as [|g l IH]; cbn [push_all]; [exact I|]. case_match; [|exact I].
  apply calls_bind; [|walk]. unfold Rendezvous.Rendezvous, Rendezvous.push, Rendezvous.credentials,
    Rendezvous.writeGitCredentials, Rendezvous.write_file, Rendezvous.git. walk.
Qed.
Lemma Emit_spares s e : calls_in spares (Emit (G := controller) s e).
Proof.
  destruct s as [s|]; [|exact I]. unfold Emit. induction (Z.to_nat _) as [|n IH]; cbn [attempts_left]; [exact I|].
  unfold post, ask. walk.
Qed.
#[local] Hint Resolve Emit_spares push_all_spares : prog.
Lemma dehydrate_spares c :
  calls_in spares (dehydrate trim_other render url_parse url_text sorted_names replace_all trace_id r c).
Proof.
  unfold dehydrate, dehydrateOnTerminate, resolveWorkspaceHead, capture, defaultHuskDehydrateWithDiff, husk_result,
    on_husk, huskPodControlAddr, paired_snapshot, checkpointMemory, Checkpoint, record_revision, emitRevisionCreated,
    rendezvousOnTerminate, resolveGitCredentials, Create, Get, Update, StatusUpdate, ask. walk.
Qed.
End dehydrate.

(** *** The end of a sandbox *)

Definition all_gone (t : trace) : Prop := forall conn id x, ev (KForkd conn (Forkd.QTerminate id)) x ∈ t -> gone x.

Lemma all_gone_app t ext : all_gone t -> Forall (fun e => spares (ev_call e)) ext -> all_gone (t ++ ext).
Proof.
  intros Ht Hext conn id x [H|H]%elem_of_app; [by eapply Ht|]. rewrite Forall_forall in Hext. apply list_elem_of_In in H. by destruct (Hext _ H).
Qed.

Lemma connect_spares dial n : calls_in spares (connect dial n).
Proof. unfold connect. walk; exact I. Qed.

Lemma terminateOnNode_guarded dial node id t :
  all_gone t -> keeps_guard (terminateOnNode dial node id) (fun x t' => t `prefix_of` t' /\ (is_ok x = true -> all_gone t')) t.
Proof.
  intros Hg. apply guarded_bind, guarded_atomic. intros present. destruct present; cbn [negb]; [|by apply guarded_ret; split; [eauto with ctl|]].
  apply guarded_bind, guarded_sys; [exact I|]. intros now. set (t1 := t ++ _).
  assert (t `prefix_of` t1 /\ all_gone t1) as [Hp Hg1] by (split; [by apply prefix_snoc|apply all_gone_app; [done|by repeat constructor]]).
  clearbody t1. apply guarded_bind, guarded_atomic. intros healthy. destruct healthy; cbn [negb]; [|by apply guarded_ret].
  apply guarded_bind. eapply guarded_mono.
  { apply (guarded_also _ spares); [apply quiet_guarded, connect_quiet|apply connect_spares]. }
  intros [c|e] t2 (_ & ext & -> & Hext); [|apply guarded_ret; split; [by apply prefix_app_r|intros _; by apply all_gone_app]].
  apply guarded_bind. unfold call_forkd, ask. apply guarded_bind, guarded_sys; [done|]. intros x. apply guarded_ret, guarded_ret.
  split; [by apply prefix_snoc, prefix_app_r|]. intros Hok conn id' y [H|H%list_elem_of_singleton]%elem_of_app.
  { by eapply (all_gone_app t1 ext). }
  apply (f_equal (fun e => match e with Ev (CCtl (KForkd _ (Forkd.QTerminate _))) z => gone z | _ => True end)) in H.
  cbn in H. rewrite H. destruct x as [[]|code]; [exact I|]. cbn in *. by destruct (_ || false).
Qed.

Lemma terminate_backing_guarded dial c t :
  all_gone t -> keeps_guard (terminate_backing dial c) (fun x t' => t `prefix_of` t' /\ (is_ok x = true -> all_gone t')) t.
Proof.
  intros Hg. unfold terminate_backing. destruct (_ && _); [by apply terminateOnNode_guarded|by apply guarded_ret; split; [eauto with ctl|]].
Qed.

Section reconcile.
Context (dial : string -> option tls_config -> res unit conn) (map_order : gmap string string -> list (string * string))
  (node_order : string -> NodeRegistry -> list NodeInfo) (conv : SpecFloat.spec_float -> Z)
  (fmt_ms : SpecFloat.spec_float -> string) (fmt_duration : Z -> string) (format_time : Z -> string)
  (parse_time : string -> option Z) (may_own : string -> string -> bool)
  (trim_other : string -> string) (render : string -> string -> option string)
  (url_parse : string -> option Rendezvous.url) (url_text : Rendezvous.url -> string -> string -> string)
  (sorted_names : gmap string string -> list string) (replace_all : string -> string -> string -> string)
  (trace_id : option string) (quoted : string -> string).
Abbreviation keeps_to p := (keeps_guard p (fun _ _ => True)).

Lemma terminateLifetime_guarded c reason message t :
  known c t ->
  keeps_to (terminateLifetime dial trim_other render url_parse url_text sorted_names replace_all trace_id r c reason message) t.
Proof.
  intros Hc. apply guarded_bind. eapply guarded_mono; [by apply dehydrate_guarded|].
  intros [c'|e] t1 _; [|exact I]. apply guarded_try. unfold terminate_backing.
  assert (forall node id, calls_in (quiet r) (terminateOnNode dial node id)) as Hq.
  { intros. unfold terminateOnNode, call_forkd, ask. walk; apply connect_quiet. }
  eapply guarded_mono; [apply quiet_guarded; walk; apply Hq|]. intros [u|e] t2 Hp; [|exact I].
  apply guarded_bind, guarded_sys; [exact I|]. intros now. apply guarded_try.
  eapply guarded_mono; [by apply StatusUpdate_claim, not_ready|by intros [?|?]].
Qed.

Lemma reconcileLifetime_guarded c t :
  known c t ->
  keeps_to (reconcileLifetime dial fmt_duration trim_other render url_parse url_text sorted_names replace_all trace_id r c) t.
Proof.
  intros Hc. unfold reconcileLifetime. case_match; [exact I|]. case_match; [|exact I]. case_match; [exact I|].
  apply guarded_bind, guarded_sys; [exact I|]. intros now. cbv zeta.
  destruct (match _ with Some _ => _ | None => _ end); [apply terminateLifetime_guarded; eauto with ctl|].
  assert (forall q d t, keeps_to (next_check q d) t) as Hnext.
  { intros q d t'. apply quiet_anyway. unfold next_check. walk. }
  case_match; [|apply Hnext]. apply guarded_bind. eapply guarded_mono; [apply quiet_guarded|].
  { unfold idle_deadline, sandboxActivity, call_forkd, ask. walk. apply connect_quiet. }
  intros [d|] t1 Hp; [|exact I]. cbv beta in Hp. case_match.
  - apply terminateLifetime_guarded. eapply known_prefix; [exact Hp|]. eauto with ctl.
  - apply guarded_bind, guarded_sys; [exact I|]. intros now'. apply Hnext.
Qed.

Lemma delete_pods_guarded l t :
  keeps_guard (for_each l delete_pod)
    (fun x t' => t `prefix_of` t' /\ (all_gone t -> all_gone t') /\
       (is_ok x = true -> forall p, p ∈ l -> exists w, ev (KDelete KPod p (Some 0)) w ∈ t' /\ (w = Written tt \/ w = Missing))) t.
Proof.
  apply (guarded_for_each _ _ _ (fun done t' => t `prefix_of` t' /\ (all_gone t -> all_gone t') /\
    forall p, p ∈ done -> exists w, ev (KDelete KPod p (Some 0)) w ∈ t' /\ (w = Written tt \/ w = Missing))).
  - split; [done|]. split; [done|]. by intros p ?%elem_of_nil.
  - intros pre a post t1 _ (Hp & Hg & Hd). unfold delete_pod, Delete. apply guarded_bind, write_guarded; [exact I|]. intros w.
    apply guarded_ret. assert (all_gone t -> all_gone (t1 ++ [ev (KDelete KPod a (Some 0)) w])) as Hg'.
    { intros H. apply all_gone_app; [by apply Hg|by repeat constructor]. }
    assert (w = Written tt \/ w = Missing -> forall p, p ∈ pre ++ [a] ->
      exists w', ev (KDelete KPod p (Some 0)) w' ∈ t1 ++ [ev (KDelete KPod a (Some 0)) w] /\ (w' = Written tt \/ w' = Missing)) as Hd'.
    { intros Hw p [H|H%list_elem_of_singleton]%elem_of_app; [|subst p; eauto with ctl].
      destruct (Hd p H) as (w' & Hin & Hw'). exists w'. split; [apply elem_of_app; by left|done]. }
    destruct w as [[]| | | |]; cbn [written]; (split; [by apply prefix_snoc|]); (split; [exact Hg'|]); try done; apply Hd'; auto.
  - intros t1 (Hp & Hg & Hd). done.
Qed.

Lemma reconcileDelete_guarded c t :
  all_gone t -> known c t ->
  keeps_to (reconcileDelete dial trim_other render url_parse url_text sorted_names replace_all trace_id r c) t.
Proof.
  intros Hg Hc. unfold reconcileDelete. destruct (negb _); [exact I|]. apply guarded_bind. eapply guarded_mono.
  { apply (guarded_also _ spares); [by apply dehydrate_guarded|apply dehydrate_spares]. }
  intros [c'|e] t1 ([[Hp Hk] Hkept] & ext & -> & Hext); [|exact I]. specialize (Hk _ eq_refl). specialize (Hkept eq_refl).
  apply (all_gone_app t ext) in Hext; [|exact Hg]. set (t1 := t ++ ext) in *. clearbody t1. apply guarded_bind, List_guarded; [|done]. intros l.
  set (t2 := t1 ++ _). assert (t1 `prefix_of` t2) as Hp2 by (by apply prefix_snoc).
  assert (all_gone t2) as Hg2 by (apply all_gone_app; [done|by repeat constructor]).
  assert (ev (KList KPod (ns c') [(huskClaimLabel, name c')]) (Some l) ∈ t2) as Hl by apply last_in.
  clearbody t2. carry Hp2. apply guarded_try. eapply guarded_mono; [apply delete_pods_guarded|].
  intros [[]|e] t3 (Hp3 & Hg3 & Hd); [|exact I]. specialize (Hg3 Hg2). specialize (Hd eq_refl). apply (in_prefix _ _ _ Hp3) in Hl.
  carry Hp3. apply guarded_try. eapply guarded_mono; [by apply terminate_backing_guarded|].
  intros [[]|e] t4 [Hp4 Hg4]; [|exact I]. specialize (Hg4 eq_refl). pose proof (in_prefix _ _ _ Hp4 Hl) as Hl4.
  assert (reaped c' t4) as Hr.
  { split; [|exact Hg4]. exists l. split; [done|]. intros p Hin. destruct (Hd p Hin) as (w & Hw & ?). exists w. eauto with ctl. }
  carry Hp4. apply guarded_try, write_guarded; [|by intros []]. exists c'. split; [done|]. split; [done|]. right. right. done.
Qed.

Lemma rependOnHuskPodLost_quiet c policy pod : calls_in (quiet r) (rependOnHuskPodLost c policy pod).
Proof.
  unfold rependOnHuskPodLost, StatusUpdate, ask. apply calls_bind; [walk|]. intros now. apply calls_try; [|walk].
  apply calls_bind; [|walk]. apply calls_sys. by apply quiet_status.
Qed.

Lemma reconcileReady_guarded c t :
  known c t ->
  keeps_to (reconcileReady dial fmt_duration trim_other render url_parse url_text sorted_names replace_all trace_id r c) t.
Proof.
  intros Hc. apply guarded_try. eapply guarded_mono; [apply quiet_guarded; unfold checkHuskPodLost, ask; walk|].
  intros [[lost lostPod]|e] t1 Hp; [|exact I]. carry Hp. destruct lost.
  - apply quiet_anyway, calls_bind; [unfold ask; walk|]. intros [pool| |]; [apply rependOnHuskPodLost_quiet..|exact I].
  - apply guarded_bind. eapply guarded_mono; [by apply hydrateOnActivate_guarded|]. intros [c'|e] t2 [_ Hk]; [|exact I].
    by apply reconcileLifetime_guarded, Hk.
Qed.

Lemma place_guarded c t :
  kms_apart -> known c t ->
  keeps_to (place dial map_order node_order conv fmt_ms fmt_duration format_time parse_time may_own r quoted c) t.
Proof.
  intros Hkms Hc. apply guarded_try. eapply guarded_mono; [apply quiet_guarded, Get_quiet|]. intros [pool|e] t1 Hp; [|exact I].
  carry Hp. apply guarded_try. eapply guarded_mono; [apply quiet_guarded, Get_quiet|]. intros [template|e] t2 Hp; [|exact I].
  carry Hp. apply guarded_try. eapply guarded_mono; [apply quiet_guarded; unfold workspaceBusyClaim; walk|].
  intros [busy|e] t3 Hp; [|exact I]. carry Hp. destruct (negb _); [apply quiet_anyway, pend_quiet|]. apply guarded_try.
  eapply (guarded_mono _ _ (returns_claim t3)).
  { destruct (ContainsFinalizer _ _) eqn:Hf; [apply guarded_ret; split; [eauto with ctl|]; by intros ? [= <-]|].
    apply (Update_claim c); [done..|]. right. unfold AddFinalizer. cbn. by rewrite Hf. }
  intros [c'|e] t4 [_ Hk]; [|exact I]. specialize (Hk _ eq_refl). destruct (EnableHuskPods r) eqn:Hr.
  - by apply reconcileHuskClaim_guarded.
  - by apply reconcileRawClaim_guarded.
Qed.

Lemma reconcile_claim_guarded c t :
  kms_apart -> all_gone t -> known c t ->
  keeps_to (reconcile_claim dial map_order node_order conv fmt_ms fmt_duration format_time parse_time may_own trim_other render
              url_parse url_text sorted_names replace_all trace_id r quoted c) t.
Proof.
  intros Hkms Hg Hc. unfold reconcile_claim. case_bool_decide; [by apply reconcileDelete_guarded|].
  case_match; [by apply reconcileReady_guarded|]. destruct (_ || _); [exact I|by apply place_guarded].
Qed.

(** Every reconcile keeps to the guard. *)
Lemma Reconcile_guarded namespace nm :
  kms_apart ->
  keeps_to (Reconcile dial map_order node_order conv fmt_ms fmt_duration format_time parse_time may_own trim_other render
              url_parse url_text sorted_names replace_all trace_id r quoted namespace nm) [].
Proof.
  intros Hkms. apply guarded_bind, guarded_sys; [exact I|]. intros [c| |]; [|exact I..]. apply guarded_bind.
  eapply guarded_mono; [apply reconcile_claim_guarded; [done| |]|].
  - intros conn id x H%list_elem_of_singleton. by apply (f_equal ev_call) in H.
  - left. exists namespace, nm. by apply list_elem_of_singleton.
  - intros x t _. apply guarded_bind, quiet_anyway, announce_phase_quiet.
Qed.
End reconcile.

End steps.
End Steps.

(** ** The theorems *)

Module ClaimFacts.
Import Registry Warm Chunk Kube Ctl Binding Claims Guard Steps.

(** *** What the API server is relied on for *)

(** A patch of a pod: what it was based on, what was asked for, whether under the
    lock, and what was written. *)
Definition pod_patch (e : event) : option (Pod * Pod * bool * Pod) :=
  match e with
  | Ev c x =>
      match c return answer c -> option (Pod * Pod * bool * Pod) with
      | CCtl (KPatch k base new lock) =>
          match k return object k -> object k -> write_result (object k) -> option (Pod * Pod * bool * Pod) with
          | KPod => fun base new x => match x with Written p => Some (base, new, lock, p) | _ => None end
          | _ => fun _ _ _ => None
          end base new
      | _ => fun _ => None
      end x
  end.
Definition pod_list (e : event) : list Pod :=
  match e with
  | Ev c x =>
      match c return answer c -> list Pod with
      | CCtl (KList k _ _) => match k return option (list (object k)) -> list Pod with KPod => default [] | _ => fun _ => [] end
      | _ => fun _ => []
      end x
  end.
Definition claim_seen (e : event) : option SandboxClaim :=
  match e with
  | Ev c x =>
      match c return answer c -> option SandboxClaim with
      | CCtl (KGet k _ _) =>
          match k return get_result (object k) -> option SandboxClaim with
          | KClaim => fun x => match x with Found c => Some c | _ => None end | _ => fun _ => None end
      | CCtl (KUpdate k _ | KUpdateStatus k _) =>
          match k return write_result (object k) -> option SandboxClaim with
          | KClaim => fun x => match x with Written c => Some c | _ => None end | _ => fun _ => None end
      | _ => fun _ => None
      end x
  end.

Definition uid (p : Pod) : string := UID (pd_meta p).
Definition version (p : Pod) : Z := ResourceVersion (pd_meta p).
Definition tenant (p : Pod) : string := label huskClaimLabel (pd_meta p).
Definition patched (t : trace) : list Pod := omap (fun e => (fun x => x.2) <$> pod_patch e) t.
Definition seen_pods (t : trace) : list Pod := patched t ++ (t ≫= pod_list).

(** A patch gives the object a version above all that were returned; under the lock
    it is refused unless it is based on the last one written.  A list, of a cache
    that may lag, shows a version of the object, and the label that the last patch
    up to that version set: nothing else sets it.  Objects have names. *)
Definition api_server (t : trace) (c : call) (x : answer c) : bool :=
  match pod_patch (Ev c x) with
  | Some (base, new, lock, p) =>
      String.eqb (uid p) (uid base) && String.eqb (tenant p) (tenant new)
      && forallb (fun q => negb (String.eqb (uid q) (uid p)) || (version q <? version p)) (seen_pods t)
      && (negb lock || forallb (fun q => negb (String.eqb (uid q) (uid base)) || (version q <=? version base)) (patched t))
  | None => true
  end
  && forallb (fun p =>
       let past := List.filter (fun q => String.eqb (uid q) (uid p) && (version q <=? version p)) (patched t) in
       forallb (fun q => negb (forallb (fun q' => version q' <=? version q) past) || String.eqb (tenant p) (tenant q)) past)
       (pod_list (Ev c x))
  && match claim_seen (Ev c x) with Some c => negb (String.eqb (name c) EmptyString) | None => true end.

Section tenants.
Context (r : Config).

(** A pool's events: each call under the guard, each answer the server's. *)
Definition proper (tt : tagged) : Prop :=
  forall pre i c x post, tt = pre ++ (i, Ev c x) :: post -> claim_ok r (own i pre) c /\ api_server (pre.*2) c x = true.

Lemma patch_guard t c x base new lock p :
  pod_patch (Ev c x) = Some (base, new, lock, p) -> claim_ok r t c ->
  lock = true /\ dormant base = true /\ listed base t /\ exists cl, known cl t /\ new = claim_pod (name cl) base.
Proof.
  intros Hp Hok. destruct c; try discriminate Hp. destruct q; try discriminate Hp. destruct k; try discriminate Hp.
  cbn in Hp, x. destruct x; try discriminate Hp. injection Hp as <- <- <- <-. exact Hok.
Qed.

Lemma in_trace_split (tt : tagged) e : e ∈ tt.*2 -> exists pre i post, tt = pre ++ (i, e) :: post.
Proof. intros ([i e'] & -> & H)%list_elem_of_fmap. apply list_elem_of_split in H as (pre & post & ->). by exists pre, i, post. Qed.

Lemma known_named tt pre i post c : proper tt -> tt = pre ++ i :: post -> known c (pre.*2) -> name c <> EmptyString.
Proof.
  intros Htt -> Hc. assert (exists e, e ∈ pre.*2 /\ claim_seen e = Some c) as (e & He & Hs).
  { destruct Hc as [(a & b & H)|[(a & H)|(a & H)]]; by eexists. }
  apply in_trace_split in He as (pre' & j & post' & ->). rewrite <-app_assoc in Htt. cbn in Htt. destruct e as [c' x].
  destruct (Htt _ _ _ _ _ eq_refl) as [_ Hx]. unfold api_server in Hx. rewrite Hs in Hx. apply andb_prop in Hx as [_ Hx].
  by apply negb_true_iff, String.eqb_neq in Hx.
Qed.

Lemma known_own c i tt : known c (own i tt) -> known c (tt.*2).
Proof. intros [(a & b & H)|[(a & H)|(a & H)]]; [left|right; left|right; right]; eauto using own_sub. Qed.

(** A pod that was patched has a tenant. *)
Lemma patched_tenant tt p : proper tt -> p ∈ patched (tt.*2) -> tenant p <> EmptyString.
Proof.
  intros Htt (e & He & Hp)%list_elem_of_omap. destruct (pod_patch e) as [[[[base new] lock] p']|] eqn:Hq; [|done].
  injection Hp as ->. apply in_trace_split in He as (pre & i & post & ->). destruct e as [c x].
  destruct (Htt _ _ _ _ _ eq_refl) as [Hok Hx]. destruct (patch_guard _ _ _ _ _ _ _ Hq Hok) as (_ & _ & _ & cl & Hcl & ->).
  apply known_own in Hcl. pose proof (known_named _ _ _ _ _ Htt eq_refl Hcl) as Hn.
  unfold api_server in Hx. rewrite Hq in Hx. apply andb_prop in Hx as [Hx _]. apply andb_prop in Hx as [Hx _].
  apply andb_prop in Hx as [Hx _]. apply andb_prop in Hx as [Hx _]. apply andb_prop in Hx as [_ Hx].
  apply String.eqb_eq in Hx. rewrite Hx. unfold tenant, label, claim_pod. cbn. by rewrite lookup_insert_eq.
Qed.

Lemma last_version (l : list Pod) : l <> [] -> exists p, p ∈ l /\ forallb (fun q => version q <=? version p) l = true.
Proof.
  induction l as [|a [|b l] IH]; [done| |]; intros _.
  - exists a. split; [by apply list_elem_of_singleton|]. cbn. rewrite andb_true_r. by apply Z.leb_refl.
  - destruct IH as (p & Hp & Hmax); [done|]. destruct (Z.le_ge_cases (version a) (version p)) as [Hle|Hge].
    + exists p. split; [by right|]. cbn [forallb] in *. apply andb_true_intro. split; [by apply Z.leb_le|done].
    + exists a. split; [by left|]. apply forallb_forall. intros q [<-|Hq]; [by apply Z.leb_refl|].
      rewrite forallb_forall in Hmax. specialize (Hmax q Hq). apply Z.leb_le in Hmax. apply Z.leb_le. lia.
Qed.

(** A pod that is listed at or above a version it was patched at has a tenant. *)
Lemma listed_tenant tt pre j c x post p q :
  proper tt -> tt = pre ++ (j, Ev c x) :: post -> q ∈ pod_list (Ev c x) ->
  p ∈ patched (pre.*2) -> uid p = uid q -> version p <= version q -> tenant q <> EmptyString.
Proof.
  intros Htt -> Hq Hp Hu Hv. destruct (Htt _ _ _ _ _ eq_refl) as [_ Hx]. unfold api_server in Hx.
  apply andb_prop in Hx as [Hx _]. apply andb_prop in Hx as [_ Hx]. rewrite forallb_forall in Hx.
  specialize (Hx q). rewrite <-list_elem_of_In in Hx. specialize (Hx Hq). cbv zeta in Hx. rewrite forallb_forall in Hx.
  edestruct (last_version (List.filter (fun q' => String.eqb (uid q') (uid q) && (version q' <=? version q)) (patched (pre.*2))))
    as (m & Hm & Hmax).
  { intros Hnil. assert (In p []) as []. rewrite <-Hnil. apply List.filter_In. split; [by apply list_elem_of_In|].
    rewrite Hu, String.eqb_refl. by apply Z.leb_le. }
  apply list_elem_of_In in Hm. specialize (Hx m Hm). rewrite Hmax in Hx. cbn in Hx. apply String.eqb_eq in Hx. rewrite Hx.
  apply List.filter_In in Hm as [Hm _]. apply (patched_tenant (pre ++ (j, Ev c x) :: post)); [done|].
  rewrite fmap_app. unfold patched. rewrite omap_app. apply elem_of_app. left. by apply list_elem_of_In.
Qed.

(** What the server promises of a patch it wrote. *)
Lemma patch_server t c x base new p :
  pod_patch (Ev c x) = Some (base, new, true, p) -> api_server t c x = true ->
  uid p = uid base /\ (forall q, q ∈ seen_pods t -> uid q = uid p -> version q < version p) /\
  (forall q, q ∈ patched t -> uid q = uid base -> version q <= version base).
Proof.
  intros Hq Hx. unfold api_server in Hx. rewrite Hq in Hx. rewrite !andb_true_iff, !forallb_forall in Hx.
  destruct Hx as [[[[[Hu _] Hnew] Hlock] _] _]. apply String.eqb_eq in Hu. split; [done|]. split.
  - intros q Hin Heq. apply list_elem_of_In in Hin. specialize (Hnew q Hin). rewrite Heq, String.eqb_refl in Hnew. cbn in Hnew. lia.
  - cbn in Hlock. rewrite forallb_forall in Hlock. intros q Hin Heq. apply list_elem_of_In in Hin. specialize (Hlock q Hin).
    rewrite Heq, String.eqb_refl in Hlock. cbn in Hlock. lia.
Qed.

Lemma patched_in t c x base new lock p :
  Ev c x ∈ t -> pod_patch (Ev c x) = Some (base, new, lock, p) -> p ∈ patched t.
Proof. intros Hin Hq. apply list_elem_of_omap. exists (Ev c x). by rewrite Hq. Qed.

(** Two places in a list. *)
Lemma two_places {X} (l1 l2 r1 r2 : list X) a b :
  l1 ++ a :: r1 = l2 ++ b :: r2 ->
  l1 = l2 \/ (exists m, l1 ++ a :: r1 = l1 ++ a :: m ++ b :: r2) \/ (exists m, l1 ++ a :: r1 = l2 ++ b :: m ++ a :: r1).
Proof.
  intros H. destruct (app_eq_inv _ _ _ _ H) as [([|y m] & -> & Hm)|([|y m] & -> & Hm)]; [left|right; right|left|right; left].
  - by rewrite app_nil_r.
  - injection Hm as -> ->. exists m. by rewrite <-app_assoc.
  - by rewrite app_nil_r.
  - injection Hm as -> ->. by exists m.
Qed.

(** A pod is not patched again. *)
Lemma patched_once tt pre i e mid j e' post base new lock p base' new' lock' p' :
  proper tt -> tt = pre ++ (i, e) :: mid ++ (j, e') :: post ->
  pod_patch e = Some (base, new, lock, p) -> pod_patch e' = Some (base', new', lock', p') -> uid p = uid p' -> False.
Proof.
  intros Htt Heq He He' Hu. destruct e as [c x], e' as [c' x']. pose proof (Htt _ _ _ _ _ Heq) as [Hok Hx].
  destruct (patch_guard _ _ _ _ _ _ _ He Hok) as (-> & _ & _ & _). destruct (patch_server _ _ _ _ _ _ He Hx) as (Hub & Hnew & _).
  rewrite app_comm_cons, app_assoc in Heq. pose proof (Htt _ _ _ _ _ Heq) as [Hok' Hx'].
  destruct (patch_guard _ _ _ _ _ _ _ He' Hok') as (-> & Hd & (a & b & l & Hl & Hin) & _).
  destruct (patch_server _ _ _ _ _ _ He' Hx') as (Hub' & _ & Hlock).
  assert (version p <= version base') as Hv.
  { apply Hlock; [|congruence]. eapply patched_in; [|exact He]. rewrite fmap_app. apply elem_of_app. right. left. }
  apply own_sub in Hl. rewrite fmap_app in Hl. apply elem_of_app in Hl as [Hl|Hl].
  - assert (version base' < version p); [|lia]. apply Hnew; [|congruence]. apply elem_of_app. right.
    apply list_elem_of_bind. exists (ev (KList KPod a b) (Some l)). split; [exact Hin|exact Hl].
  - apply (in_trace_split ((i, Ev c x) :: mid)) in Hl as (pre1 & k & post1 & Hsp). destruct pre1 as [|h1 pre1].
    { apply (f_equal (fun l => match l with y :: _ => pod_patch y.2 | [] => None end)) in Hsp. cbn [snd] in Hsp.
      rewrite He in Hsp. discriminate Hsp. }
    injection Hsp as <- ->. revert Hd. unfold dormant. fold (tenant base').
    enough (tenant base' <> EmptyString) as Hne%String.eqb_neq by (by rewrite Hne, andb_false_r).
    eapply (listed_tenant tt (pre ++ (i, Ev c x) :: pre1) k (CCtl (KList KPod a b)) (Some l)); [done| | | |exact (eq_trans Hu Hub')|done].
    + rewrite Heq, <-!app_assoc. cbn. rewrite <-!app_assoc. reflexivity.
    + exact Hin.
    + eapply patched_in; [|exact He]. rewrite fmap_app. apply elem_of_app. right. left.
Qed.
End tenants.

Section facts.
Context (dial : string -> option tls_config -> res unit conn) (map_order : gmap string string -> list (string * string))
  (node_order : string -> NodeRegistry -> list NodeInfo) (conv : SpecFloat.spec_float -> Z)
  (fmt_ms : SpecFloat.spec_float -> string) (fmt_duration : Z -> string) (format_time : Z -> string)
  (parse_time : string -> option Z) (may_own : string -> string -> bool)
  (trim_other : string -> string) (render : string -> string -> option string)
  (url_parse : string -> option Rendezvous.url) (url_text : Rendezvous.url -> string -> string -> string)
  (sorted_names : gmap string string -> list string) (replace_all : string -> string -> string -> string)
  (trace_id : option string) (quoted : string -> string) (r : Config).

(** Reconciles of the claims of these names, served concurrently. *)
Definition reconciles (requests : list (string * string)) : list (prog controller unit) :=
  (fun '(namespace, nm) =>
     _ ← Reconcile dial map_order node_order conv fmt_ms fmt_duration format_time parse_time may_own trim_other render
           url_parse url_text sorted_names replace_all trace_id r quoted namespace nm; mret tt) <$> requests.

Lemma reconciles_guarded allowed requests g n :
  kms_apart r -> rtc (pool_step allowed) (mkNode (reconciles requests) g []) n ->
  exists tt : tagged, n_trace n = tt.*2 /\
  forall pre i c x post, tt = pre ++ (i, Ev c x) :: post -> claim_ok r (own i pre) c /\ allowed (pre.*2) c x.
Proof.
  intros Hkms. apply pool_guarded. apply Forall_forall. intros p ([namespace nm] & <- & _)%in_map_iff.
  apply guarded_bind. by apply Reconcile_guarded.
Qed.

(** C4. However reconciles interleave, and whatever nodes, pods and the API server
    answer, a claim is written Ready only after the same reconcile: under husk
    pods, selected a pod that was dormant, claimed it under the optimistic lock,
    minted a fresh token, activated the pod with it and stored it, with the
    endpoint of that pod, in the claim's own Secret; without them, had a forkd
    fork the sandbox of the claim's name with a freshly minted token and stored
    that.  The status names that pod, its node and its endpoint. *)
Theorem claim_ready_backed requests g n :
  kms_apart r -> rtc (pool_step anything) (mkNode (reconciles requests) g []) n ->
  exists tt : tagged, n_trace n = tt.*2 /\
  forall pre i c x post, tt = pre ++ (i, ev (KUpdateStatus KClaim c) x) :: post -> Phase (cl_status c) = Gc.SandboxReady ->
  if EnableHuskPods r then backed_husk r c (own i pre) else backed_raw c (own i pre).
Proof.
  intros Hkms Hrtc. destruct (reconciles_guarded _ _ _ _ Hkms Hrtc) as (tt & Ht & Hok). exists tt. split; [exact Ht|].
  intros pre i c x post Heq. apply (Hok _ _ _ _ _ Heq).
Qed.


(** A workspace's memory image is restored into a claim's VM only when the
    claim runs as the service account the image's revision was taken from. *)
Theorem memory_restored_to_its_principal requests g n :
  kms_apart r -> rtc (pool_step anything) (mkNode (reconciles requests) g []) n ->
  exists tt : tagged, n_trace n = tt.*2 /\
  forall pre i namespace claim ref x post, tt = pre ++ (i, ev (KRestoreVM namespace claim ref) x) :: post ->
  restore_ok namespace claim ref (own i pre).
Proof.
  intros Hkms Hrtc. destruct (reconciles_guarded _ _ _ _ Hkms Hrtc) as (tt & Ht & Hok). exists tt. split; [exact Ht|].
  intros pre i namespace claim ref x post Heq. apply (Hok _ _ _ _ _ Heq).
Qed.

(** C5. A husk pod serves one claim.  However reconciles interleave, on an API server
    with optimistic locks: a reconcile activates a pod only after it put a claim's
    label on it, and no reconcile, of this or another claim, ever puts a label on
    that pod again. *)
Theorem husk_pod_one_tenant requests g n :
  kms_apart r -> rtc (pool_step (fun t c x => api_server t c x = true)) (mkNode (reconciles requests) g []) n ->
  exists tt : tagged, n_trace n = tt.*2 /\
  forall pre i addr q x post, tt = pre ++ (i, ev (KHusk addr (Control.HActivate q)) x) :: post ->
  exists claim base pod pre1 post1,
    pre = pre1 ++ (i, ev (KPatch KPod base (claim_pod claim base) true) (Written pod)) :: post1 /\
    addr = control_addr r pod /\
    forall pre2 j c y post2 base' new' lock' pod',
      tt = pre2 ++ (j, Ev c y) :: post2 -> pod_patch (Ev c y) = Some (base', new', lock', pod') -> uid pod' = uid pod ->
      pre2 = pre1.
Proof.
  intros Hkms Hrtc. destruct (reconciles_guarded _ _ _ _ Hkms Hrtc) as (tt & Ht & Hok). exists tt. split; [exact Ht|].
  intros pre i addr q x post Heq. destruct (Hok _ _ _ _ _ Heq) as [(_ & _ & claim & base & pod & Hm & ->) _].
  apply own_tagged, list_elem_of_split in Hm as (pre1 & post1 & ->). exists claim, base, pod, pre1, post1.
  split; [done|]. split; [done|]. intros pre2 j c y post2 base' new' lock' pod' Heq2 Hp Hu. rewrite <-app_assoc in Heq. cbn in Heq.
  rewrite Heq in Heq2. destruct (two_places _ _ _ _ _ _ Heq2) as [H|[(m & H)|(m & H)]]; [done|exfalso..]; rewrite H in Heq.
  - eapply (patched_once r tt); [exact Hok|exact Heq|done|exact Hp|done].
  - eapply (patched_once r tt); [exact Hok|exact Heq|exact Hp|done|done].
Qed.
End facts.
End ClaimFacts.
