(* ===== verification/ClaimExamples.v ===== *)
(** Examples of the claim controller: a small cluster whose API server keeps one
    husk pod and serves pod lists from a cache that never catches up, with the
    theorems applied to reconciles that race on it. *)
From S2P Require Import Prelude GoLib GoFs Scheduler Autoscale Gc Cas Wire Host Guarded Kms Workspace Rendezvous Controller ClaimController ClaimSafety.
#[local] Open Scope go_scope.

Module ClaimExamples.
Import Registry Warm Chunk Kube Ctl Binding Claims Guard Steps ClaimFacts.

Definition meta (nm : string) (uid : string) (version : Z) (labels : gmap string string) (finalizers : list string)
    (deleted : time) : ObjectMeta :=
  mkMeta "default" nm EmptyString uid version 1 labels ∅ finalizers [] None deleted.
Definition no_pool_status : SandboxPoolStatus := mkPoolStatus 0 0 None [] ∅ EmptyString 0 None.
Definition no_status : SandboxClaimStatus := mkClaimStatus EmptyString EmptyString EmptyString EmptyString 0 None None [].

Definition warm_pod : Pod :=
  mkPod (meta "python-husk-1" "uid-1" 7 {["mitos.run/pool" := "python"; "mitos.run/husk" := "true"]} [] None)
    (mkPodSpec EmptyString true EmptyString ∅ None [] [] "node-1")
    (mkPodStatus "Running" "10.0.0.9" [("Ready", "True")]).
Definition python_pool : SandboxPool := mkPool (meta "python" "uid-p" 1 ∅ [] None) "python" 1 EmptyString None no_pool_status.
Definition python_template : SandboxTemplate := mkTemplate (meta "python" "uid-t" 1 ∅ [] None) EmptyString [] 0 0 [] None false.

Definition fresh_claim (nm : string) : SandboxClaim :=
  mkClaim (meta nm ("uid-" +:+ nm) 1 ∅ [] None)
    (mkClaimSpec "python" [] [] [] None None EmptyString None EmptyString false []) no_status.

Definition digest_a : string := String.concat EmptyString (replicate 64 "a").
Definition notes : Workspace :=
  mkWorkspace (meta "notes" "uid-w" 1 ∅ [] None) (mkWorkspaceGit [] None EmptyString) 0 None
    (mkWorkspaceStatus "notes-1" 1 true [] 0).
Definition notes_head : WorkspaceRevision :=
  mkRevision (meta "notes-1" "uid-r" 1 ∅ [] None) (mkRevisionSpec "notes" "old" None digest_a (Some "mem-1") (Some "alice"))
    (mkRevisionStatus WorkspaceRevisionCommitted None [] [] 0).

(** The claim of a name, the pods the cache shows, and the pod as it is. *)
Definition cluster (claim : string -> SandboxClaim) (cached : list Pod) : env (Z * Pod) := fun c st =>
  match c return answer c * (Z * Pod) with
  | CCtl (KGet k ns nm) =>
      (match k return get_result (object k) with
       | KClaim => Found (claim nm) | KPool => Found python_pool | KTemplate => Found python_template
       | KPod => Found st.2 | KWorkspace => Found notes | KRevision => Found notes_head | _ => NotFound end, st)
  | CCtl (KList k ns ls) => (match k return option (list (object k)) with KPod => Some cached | _ => Some [] end, st)
  | CCtl (KPatch k base new lock) =>
      match k return object k -> object k -> write_result (object k) * (Z * Pod) with
      | KPod => fun base new =>
          if negb lock || (ResourceVersion (pd_meta base) =? ResourceVersion (pd_meta st.2)) then
            let m := pd_meta new in
            let p := mkPod (mkMeta (Namespace m) (Name m) (GenerateName m) (UID m) (ResourceVersion (pd_meta st.2) + 1)
                              (Generation m) (Labels m) (Annotations m) (Finalizers m) (OwnerReferences m)
                              (CreationTimestamp m) (DeletionTimestamp m)) (pd_spec new) (pd_status new) in
            (Written p, (st.1, p))
          else (Conflict, st)
      | _ => fun _ new => (Written new, st)
      end base new
  | CCtl (KHusk addr q) =>
      (match q return res string (res string (Control.husk_reply q)) with
       | Control.HDehydrate _ => Ok (Ok (Control.mkDehydrated digest_a None f64_one))
       | q => Ok (Ok (husk_ok q)) end, st)
  | c => let '(x, now) := obliging c st.1 in (x, (now, st.2))
  end.

Definition husk_config : Config := mkConfig true true 0 0 0 None None None.
Definition idle : controller := mkController (mkRegistry ∅ None (f64_of_int 1)) (mkDemand ∅) ∅ ∅.

Lemma no_kms c : KMS c = None -> kms_apart c.
Proof. intros H w Hw. congruence. Qed.

Section parameters.
Abbreviation requests_of c l :=
  (reconciles (fun _ _ => Err tt) map_to_list (fun _ _ => []) (fun _ => 0) (fun _ => EmptyString) (fun _ => EmptyString)
     (fun _ => EmptyString) (fun _ => None) (fun _ _ => true) id (fun _ s => Some s) (fun _ => None) (fun _ _ _ => EmptyString)
     (fun _ => []) (fun s _ _ => s) None id c l).

Definition racing : list (prog controller unit) := requests_of husk_config [("default", "a"); ("default", "b")].
(** Both list the pod before either claims it. *)
Definition both_list : list nat := replicate 6 0%nat ++ replicate 6 1%nat ++ replicate 30 0%nat ++ replicate 30 1%nat.
Definition raced : node controller * (Z * Pod) := schedule (cluster fresh_claim [warm_pod]) both_list (mkNode racing idle []) (0, warm_pod).

Definition ready_claims (t : trace) : list string :=
  omap (fun e => match e with
                 | Ev (CCtl (KUpdateStatus k o)) _ =>
                     match k return object k -> option string with
                     | KClaim => fun c => if String.eqb (Phase (cl_status c)) Gc.SandboxReady then Some (name c) else None
                     | _ => fun _ => None
                     end o
                 | _ => None
                 end) t.

(** Both claims list the one pod; the first to patch it gets it, the other is told
    that it was raced. *)
Lemma claim_ready_backed_witness :
  ready_claims (n_trace raced.1) = ["a"] /\
  exists tt : tagged, n_trace raced.1 = tt.*2 /\
  forall pre i c x post, tt = pre ++ (i, ev (KUpdateStatus KClaim c) x) :: post -> Phase (cl_status c) = Gc.SandboxReady ->
  backed_husk husk_config c (own i pre).
Proof.
  split; [vm_compute; reflexivity|].
  assert (rtc (pool_step anything) (mkNode racing idle []) raced.1) as Hrtc by apply schedule_rtc.
  generalize dependent raced. intros n Hrtc. eapply claim_ready_backed with (r := husk_config); [by apply no_kms|exact Hrtc].
Defined.

Lemma husk_pod_one_tenant_witness :
  length (patched (n_trace raced.1)) = 1%nat /\
  exists tt : tagged, n_trace raced.1 = tt.*2 /\
  forall pre i addr q x post, tt = pre ++ (i, ev (KHusk addr (Control.HActivate q)) x) :: post ->
  exists claim base pod pre1 post1,
    pre = pre1 ++ (i, ev (KPatch KPod base (claim_pod claim base) true) (Written pod)) :: post1 /\
    addr = control_addr husk_config pod /\
    forall pre2 j c y post2 base' new' lock' pod',
      tt = pre2 ++ (j, Ev c y) :: post2 -> pod_patch (Ev c y) = Some (base', new', lock', pod') -> uid pod' = uid pod ->
      pre2 = pre1.
Proof.
  split; [vm_compute; reflexivity|].
  assert (rtc (pool_step (fun t c x => api_server t c x = true)) (mkNode racing idle []) raced.1) as Hrtc
    by (apply passes_rtc; vm_compute; reflexivity).
  generalize dependent raced. intros n Hrtc. eapply husk_pod_one_tenant with (r := husk_config); [by apply no_kms|exact Hrtc].
Defined.

(** *** Deletion *)

Definition placed : SandboxClaimStatus :=
  mkClaimStatus Gc.SandboxReady "10.0.0.9:9091" "node-1" "python-husk-1" 0 (Some 0) None [].
Definition deleted_claim (nm : string) : SandboxClaim :=
  mkClaim (meta nm ("uid-" +:+ nm) 1 ∅ [FinalizerTerminate] (Some 5))
    (mkClaimSpec "python" [] [] [] None None EmptyString (Some "notes") "alice" false []) placed.
Definition claimed_pod : Pod := claim_pod "a" warm_pod.

Definition one_reconcile (c : Config) (claim : string -> SandboxClaim) (pods : list Pod) : node controller :=
  (schedule (cluster claim pods) (replicate 60 0%nat) (mkNode (requests_of c [("default", "a")]) idle []) (0, claimed_pod)).1.
Definition deletion : node controller := one_reconcile husk_config deleted_claim [claimed_pod].

Definition finalizers_written (t : trace) : list (list string) :=
  omap (fun e => match e with
                 | Ev (CCtl (KUpdate k o)) _ =>
                     match k return object k -> option (list string) with
                     | KClaim => fun c => Some (Finalizers (cl_meta c)) | _ => fun _ => None end o
                 | _ => None
                 end) t.
Definition pods_deleted (t : trace) : list string :=
  omap (fun e => match e with
                 | Ev (CCtl (KDelete k o _)) _ =>
                     match k return object k -> option string with KPod => fun p => Some (Name (pd_meta p)) | _ => fun _ => None end o
                 | _ => None
                 end) t.


(** *** Resuming *)

Definition with_memory : Config := mkConfig true true 0 0 0 (Some (mkHooks true true true)) None None.
Definition bound_claim (account : string) (nm : string) : SandboxClaim :=
  mkClaim (meta nm ("uid-" +:+ nm) 1 {[huskClaimLabel := nm]} [FinalizerTerminate] None)
    (mkClaimSpec "python" [] [] [] None None EmptyString (Some "notes") account false []) placed.
Definition restores (t : trace) : list string :=
  omap (fun e => match e with Ev (CCtl (KRestoreVM _ _ ref)) _ => Some ref | _ => None end) t.
Definition resumed : node controller := one_reconcile with_memory (bound_claim "alice") [claimed_pod].

Lemma memory_restored_to_its_principal_witness :
  (restores (n_trace resumed), restores (n_trace (one_reconcile with_memory (bound_claim "mallory") [claimed_pod]))) = (["mem-1"], []) /\
  exists tt : tagged, n_trace resumed = tt.*2 /\
  forall pre i namespace claim ref x post, tt = pre ++ (i, ev (KRestoreVM namespace claim ref) x) :: post ->
  restore_ok namespace claim ref (own i pre).
Proof.
  split; [vm_compute; reflexivity|].
  assert (rtc (pool_step anything) (mkNode (requests_of with_memory [("default", "a")]) idle []) resumed) as Hrtc by apply schedule_rtc.
  generalize dependent resumed. intros n Hrtc. eapply memory_restored_to_its_principal with (r := with_memory); [by apply no_kms|exact Hrtc].
Defined.

(** *** What reconciles do not achieve *)

Definition phases (t : trace) : list (string * list string) :=
  omap (fun e => match e with
                 | Ev (CCtl (KUpdateStatus k o)) _ =>
                     match k return object k -> option (string * list string) with
                     | KClaim => fun c => Some (Phase (cl_status c), map Gc.cond_Reason (Conditions (cl_status c)))
                     | _ => fun _ => None
                     end o
                 | _ => None
                 end) t.

(** Claims are listed too. *)
Definition listing {O} (claims : list SandboxClaim) (h : env O) : env O := fun c o =>
  match c return answer c -> O -> answer c * O with
  | CCtl (KList KClaim _ _) => fun _ o => (Some claims, o)
  | _ => fun x o => (x, o)
  end (h c o).1 (h c o).2.
Definition waiting_claim (nm : string) : SandboxClaim :=
  mkClaim (meta nm ("uid-" +:+ nm) 1 ∅ [] None)
    (mkClaimSpec "python" [] [] [] None None EmptyString (Some "notes") "alice" false []) no_status.

(** Two claims of one workspace that are created together each wait for the
    other, although neither has a sandbox. *)
Example workspace_standoff :
  let h := listing [waiting_claim "a"; waiting_claim "b"] (cluster waiting_claim [warm_pod]) in
  let n := (schedule h (replicate 60 0%nat ++ replicate 60 1%nat) (mkNode racing idle []) (0, warm_pod)).1 in
  n_pool n = [Ret tt; Ret tt] /\
  phases (n_trace n) = [(Gc.SandboxPending, ["WorkspaceBusy"]); (Gc.SandboxPending, ["WorkspaceBusy"])].
Proof. vm_compute. split; reflexivity. Qed.

Definition timed_claim (timeout idle_ : option Z) (nm : string) : SandboxClaim :=
  mkClaim (meta nm ("uid-" +:+ nm) 1 ∅ [FinalizerTerminate] None)
    (mkClaimSpec "python" [] [] [] timeout idle_ EmptyString None "alice" false []) placed.

(** A husk claim past its lifetime is written Terminated; its pod, and the VM in
    it, are left running. *)
Example lifetime_leaves_the_pod :
  let n := (schedule (cluster (timed_claim (Some (1 * second)) None) [claimed_pod]) (replicate 60 0%nat)
              (mkNode (requests_of husk_config [("default", "a")]) idle []) (5 * second, claimed_pod)).1 in
  (n_pool n, phases (n_trace n), pods_deleted (n_trace n)) = ([Ret tt], [(Gc.SandboxTerminated, ["MaxLifetimeExceeded"])], []).
Proof. vm_compute. reflexivity. Qed.
End parameters.

(** Without a sandbox there is nothing to capture, and a claim that has a workspace
    is never released: whatever the answers, dehydrating it fails. *)
Lemma unplaced_never_captured trim_other render url_parse url_text sorted_names replace_all trace_id c claim t :
  WorkspaceRef (cl_spec claim) <> None -> Annotations (cl_meta claim) !! workspaceDehydratedAnnotation = None ->
  SandboxID (cl_status claim) = EmptyString ->
  guarded (fun _ _ => True) (dehydrate trim_other render url_parse url_text sorted_names replace_all trace_id c claim)
    (fun x _ => is_ok x = false) t.
Proof.
  intros Hw Ha Hs. unfold dehydrate, dehydrateOnTerminate. destruct (WorkspaceRef _); [|done]. clear Hw.
  rewrite Ha, bool_decide_eq_false_2 by (by intros []). apply guarded_try.
  eapply (guarded_mono _ _ (fun _ _ => True)).
  { unfold resolveWorkspaceHead. eapply guarded_mono; [apply guarded_calls|done]. unfold Get, ask. walk. }
  intros [[m head]|e] t1 _; [|done]. apply guarded_try. unfold capture, defaultHuskDehydrateWithDiff, huskPodControlAddr.
  rewrite Hs. cbn. by case_match.
Qed.
End ClaimExamples.
