(* ===== verification/HuskPod.v ===== *)
(** The pods the controllers build (internal/controller/huskpod.go).

    - [HuskPods]: the spec of a warm pod and of a fork child, from the options the
      reconcilers fill in.
    - [HuskPodFacts]: what every such spec guarantees: no privilege, no key of the
      CA, one device slot, a memory limit above the request, verification of the
      snapshot unless there is no digest, and labels and affinity that keep a
      fork child out of the warm pool and on the node of its snapshot. *)
From S2P Require Import Prelude GoLib GoFs Wire Host Controller ClaimController.
#[local] Open Scope go_scope.

Module HuskPods.
Import Kube Ctl Claims.

Definition huskContainerName : string := "husk-stub".
Definition defaultKVMResourceName : string := "mitos.run/kvm".
Definition huskWorkdir : string := "/run/husk/vm".
Definition huskForkLabel : string := "mitos.run/fork".
Definition huskKVMNodeLabel : string := "mitos.run/kvm".
Definition huskTLSMountPath : string := "/etc/husk/tls".
Definition huskCAMountPath : string := "/etc/husk/ca".
Definition huskSnapshotMountPath : string := "/var/lib/mitos/snapshot".
Definition huskKernelMountPath : string := "/var/lib/mitos/kernel/vmlinux".
Definition huskManifestDirMountPath : string := "/var/lib/mitos/manifests".
Definition huskRootfsCoWMountPath : string := "/var/lib/mitos/husk-rootfs".
Definition huskForksMountPath : string := "/var/lib/mitos/forks".
Definition huskCASMountPath : string := "/var/lib/mitos/cas".
Definition hostnameNodeLabel : string := "kubernetes.io/hostname".
Definition defaultDataDir : string := "/var/lib/mitos".

Definition huskSourceRootfsInPodPath (sourcePodName : string) : string :=
  Join [huskRootfsCoWMountPath; sourcePodName; "rootfs.ext4"].

Record HuskPodOptions := mkOptions {
  StubImage : string; o_KVMResourceName : string; SnapshotID : string; o_DataDir : string; ExpectedDigest : string;
  TLSSecretName : string; CASecretName : string; ForkSnapshotID : string; ForkSourceNode : string;
  ForkSourceRootfsPath : string; SnapshotNodes : list string }.

(** The fields of the pool reconciler that size a pod; a reconciler without a
    client sets no owner. *)
Record Sizing := mkSizing { HuskMemoryHeadroom : Quantity; HuskMemoryHeadroomPercent : Z; has_client : bool }.

(** ** Memory *)

Definition Mi : Z := 1024 * 1024.
Definition defaultHuskCPU : Quantity := quantity 1.
Definition defaultHuskMemory : Quantity := quantity (512 * Mi).
Definition defaultHuskMemoryHeadroom : Quantity := quantity (256 * Mi).
Definition defaultHuskMemoryHeadroomPercent : Z := 25.

Definition huskMemoryLimit (memReq floor : Quantity) (percent : Z) : Quantity :=
  let floor := if floor =? 0 then defaultHuskMemoryHeadroom else floor in
  let percent := if percent <=? 0 then defaultHuskMemoryHeadroomPercent else percent in
  let proportional := quantity (Z.quot (i64 (Value memReq * percent)) 100) in
  let headroom := if floor <? proportional then proportional else floor in
  memReq + headroom.

(** ** The stub's arguments *)

Definition base_args : list string :=
  ["--firecracker"; "/usr/local/bin/firecracker"; "--kernel"; huskKernelMountPath; "--workdir"; huskWorkdir;
   "--control-listen"; ":" +:+ format_d HuskControlPort; "--sandbox-listen"; ":" +:+ format_d huskSandboxPort;
   "--tls-cert"; Join [huskTLSMountPath; "tls.crt"]; "--tls-key"; Join [huskTLSMountPath; "tls.key"];
   "--tls-ca"; Join [huskCAMountPath; "ca.crt"]; "--vm-id"; "$(POD_NAME)"].

Definition verify_args (opts : HuskPodOptions) : list string :=
  if negb (String.eqb (ForkSnapshotID opts) EmptyString) then ["--allow-unverified-snapshots"]
  else if negb (String.eqb (ExpectedDigest opts) EmptyString) then
    ["--manifest"; Join [huskManifestDirMountPath; ExpectedDigest opts]; "--snapshot-dir"; huskSnapshotMountPath;
     "--expected-digest"; ExpectedDigest opts]
  else ["--allow-unverified-snapshots"].

Definition data_dir (opts : HuskPodOptions) : string :=
  if String.eqb (o_DataDir opts) EmptyString then defaultDataDir else o_DataDir opts.
Definition template_dir (opts : HuskPodOptions) : string := Join [data_dir opts; "templates"; SnapshotID opts].

Definition snapshot_args (opts : HuskPodOptions) : list string :=
  if String.eqb (SnapshotID opts) EmptyString then []
  else
    ["--forks-dir"; huskForksMountPath; "--cas-dir"; huskCASMountPath; "--rootfs-cow-dir"; huskRootfsCoWMountPath;
     "--template-rootfs";
     if negb (String.eqb (ForkSourceRootfsPath opts) EmptyString) then ForkSourceRootfsPath opts
     else Join [template_dir opts; "rootfs.ext4"]].

(** ** Volumes, each with its mount *)

Definition DirectoryOrCreate : string := "DirectoryOrCreate".
Definition FileOrCreate : string := "FileOrCreate".
Definition dir (path : string) : volume_source := HostPath path DirectoryOrCreate.

Definition secret_volumes (opts : HuskPodOptions) : list (string * volume_source * string * bool) :=
  (if String.eqb (TLSSecretName opts) EmptyString then []
   else [("husk-tls", SecretVolume (TLSSecretName opts) [], huskTLSMountPath, true)])
  ++ (if String.eqb (CASecretName opts) EmptyString then []
      else [("husk-ca", SecretVolume (CASecretName opts) [("ca.crt", "ca.crt")], huskCAMountPath, true)]).

Definition snapshot_volumes (opts : HuskPodOptions) : list (string * volume_source * string * bool) :=
  if String.eqb (SnapshotID opts) EmptyString then []
  else
    let dataDir := data_dir opts in
    let snapshotHostPath := if negb (String.eqb (ForkSnapshotID opts) EmptyString)
                            then Join [dataDir; "forks"; ForkSnapshotID opts]
                            else Join [dataDir; "templates"; SnapshotID opts; "snapshot"] in
    [("husk-forks", dir (Join [dataDir; "forks"]), huskForksMountPath, false);
     ("husk-cas", dir (Join [dataDir; "cas"]), huskCASMountPath, false);
     ("snapshot", dir snapshotHostPath, huskSnapshotMountPath, true)]
    ++ (if String.eqb (ExpectedDigest opts) EmptyString then []
        else [("snapshot-manifest", dir (Join [dataDir; "cas"; "manifests"]), huskManifestDirMountPath, true)])
    ++ [("kernel", HostPath (Join [dataDir; "vmlinux"]) FileOrCreate, huskKernelMountPath, true);
        ("template", dir (template_dir opts), template_dir opts, false);
        ("husk-rootfs-cow", dir (Join [dataDir; "husk-rootfs"]), huskRootfsCoWMountPath, false)].

Definition pod_volumes (opts : HuskPodOptions) : list (string * volume_source * string * bool) :=
  secret_volumes opts ++ snapshot_volumes opts.

(** ** Placement *)

Definition affinity (opts : HuskPodOptions) : option (string * list string) :=
  if negb (String.eqb (ForkSourceNode opts) EmptyString) then Some (hostnameNodeLabel, [ForkSourceNode opts])
  else match SnapshotNodes opts with
       | [] => None
       | nodes => Some (hostnameNodeLabel, sort_strings nodes)
       end.

(** ** The pod *)

Definition RuntimeDefault : string := "RuntimeDefault".

Definition husk_container (r : Sizing) (template : SandboxTemplate) (opts : HuskPodOptions) : Container :=
  let kvmResource := if String.eqb (o_KVMResourceName opts) EmptyString then defaultKVMResourceName
                     else o_KVMResourceName opts in
  let cpuReq := if CPU template =? 0 then defaultHuskCPU else CPU template in
  let memReq := if Memory template =? 0 then defaultHuskMemory else Memory template in
  let memLimit := huskMemoryLimit memReq (HuskMemoryHeadroom r) (HuskMemoryHeadroomPercent r) in
  mkContainer huskContainerName (StubImage opts) (base_args ++ verify_args opts ++ snapshot_args opts)
    [("POD_NAME", "metadata.name")] [("sandbox", huskSandboxPort)]
    (map (fun '(nm, _, path, ro) => mkVolumeMount nm path ro) (pod_volumes opts))
    (<["memory" := memReq]> (<["cpu" := cpuReq]> {[kvmResource := quantity 1]}))
    (<["memory" := memLimit]> {[kvmResource := quantity 1]})
    (mkSecurityContext false false false ["ALL"] [] RuntimeDefault).

Definition buildHuskPod (r : Sizing) (pool : SandboxPool) (template : SandboxTemplate) (opts : HuskPodOptions) : Pod :=
  let m := new_meta (Namespace (po_meta pool)) EmptyString (Name (po_meta pool) +:+ "-husk-")
             (<[huskPoolLabel := Name (po_meta pool)]> {[huskLabel := "true"]}) ∅ in
  let m := if has_client r then default m (SetControllerReference (controller_ref "SandboxPool" (po_meta pool)) m) else m in
  mkPod m
    (mkPodSpec "Always" false RuntimeDefault {[huskKVMNodeLabel := "true"]} (affinity opts)
       (map (fun '(nm, source, _, _) => (nm, source)) (pod_volumes opts)) [husk_container r template opts] EmptyString)
    (mkPodStatus EmptyString EmptyString []).

(** The zero values [buildForkChildPod] builds its pod from. *)
Definition no_template : SandboxTemplate :=
  mkTemplate (new_meta EmptyString EmptyString EmptyString ∅ ∅) EmptyString [] 0 0 [] None false.
Definition carrier (fork : SandboxFork) : SandboxPool :=
  mkPool (new_meta (Namespace (fk_meta fork)) (Name (fk_meta fork)) EmptyString ∅ ∅) EmptyString 0 EmptyString None
    (mkPoolStatus 0 0 None [] ∅ EmptyString 0 None).

Definition with_name (nm : string) (m : ObjectMeta) : ObjectMeta :=
  mkMeta (Namespace m) nm EmptyString (UID m) (ResourceVersion m) (Generation m) (Labels m) (Annotations m)
    (Finalizers m) (OwnerReferences m) (CreationTimestamp m) (DeletionTimestamp m).

Definition buildForkChildPod (fork : SandboxFork) (childName : string) (opts : HuskPodOptions) : Pod :=
  let pod := buildHuskPod (mkSizing 0 0 false) (carrier fork) no_template opts in
  let m := with_name childName (with_owners [] (pd_meta pod)) in
  let labels := <[huskForkLabel := Name (fk_meta fork)]> (<[huskLabel := "true"]> (delete huskPoolLabel (Labels m))) in
  let m := with_labels labels m in
  mkPod (default m (SetControllerReference (controller_ref "SandboxFork" (fk_meta fork)) m)) (pd_spec pod) (pd_status pod).

End HuskPods.

Module HuskPodFacts.
Import Kube Ctl Claims HuskPods.

(** ** Memory *)

Lemma Value_quantity n : Value (quantity n) = n.
Proof. unfold Value, quantity. rewrite <-Z.mul_opp_l, Z.div_mul by lia. lia. Qed.

Lemma Value_le q : q <= quantity (Value q) < q + 1000000000.
Proof. unfold Value, quantity. pose proof (Z.div_mod (- q) 1000000000). pose proof (Z.mod_pos_bound (- q) 1000000000). lia. Qed.

(** The limit is the request and the larger of the floor and the percentage, as
    long as the product of the bytes and the percentage fits an int64. *)
Lemma huskMemoryLimit_exact memReq floor percent :
  0 <= memReq -> 0 < percent -> Value memReq * percent < 2 ^ 63 -> floor <> 0 ->
  huskMemoryLimit memReq floor percent = memReq + Z.max floor (quantity (Value memReq * percent / 100)).
Proof.
  intros Hm Hp Hfit Hf. unfold huskMemoryLimit. rewrite (proj2 (Z.eqb_neq floor 0) Hf), (proj2 (Z.leb_gt percent 0) Hp).
  assert (0 <= Value memReq) as Hv by (pose proof (Value_le memReq); unfold quantity in *; lia).
  rewrite i64_small by (unfold is_i64; nia). rewrite Z.quot_div_nonneg by nia. cbv zeta.
  destruct (Z.ltb_spec floor (quantity (Value memReq * percent / 100))); lia.
Qed.

(** Above the request, whatever the percentage, unless the floor is negative. *)
Lemma huskMemoryLimit_above memReq floor percent : 0 <= floor -> memReq < huskMemoryLimit memReq floor percent.
Proof.
  intros Hf. unfold huskMemoryLimit in *. destruct (Z.leb_spec percent 0) as [Hp|Hp].
  all: destruct (Z.eqb_spec floor 0) as [->|Hne].
  all: unfold defaultHuskMemoryHeadroom, defaultHuskMemoryHeadroomPercent, Mi, quantity in *.
  all: match goal with |- context [?a <? ?b] => destruct (Z.ltb_spec a b) end; lia.
Qed.

(** ** Every pod *)

(** The pods the controllers create. *)
Inductive built : Sizing -> HuskPodOptions -> Pod -> Prop :=
| built_warm r pool template opts : built r opts (buildHuskPod r pool template opts)
| built_child fork child opts : built (mkSizing 0 0 false) opts (buildForkChildPod fork child opts).

Lemma built_spec r opts p :
  built r opts p -> exists template,
    pd_spec p = mkPodSpec "Always" false RuntimeDefault {[huskKVMNodeLabel := "true"]} (affinity opts)
       (map (fun '(nm, source, _, _) => (nm, source)) (pod_volumes opts)) [husk_container r template opts] EmptyString.
Proof. intros [r' pool template opts'|fork child opts']; eauto. Qed.

(** What holds of the volumes of every options record. *)
Lemma pod_volumes_ok opts :
  CASecretName opts <> TLSSecretName opts ->
  Forall (fun '(v, source, _, ro) =>
    match source with SecretVolume s items => s = CASecretName opts -> items = [("ca.crt", "ca.crt")] | _ => True end /\
    (ro = false -> v ∈ ["husk-forks"; "husk-cas"; "template"; "husk-rootfs-cow"])) (pod_volumes opts).
Proof.
  intros Hne. unfold pod_volumes, secret_volumes, snapshot_volumes. rewrite !Forall_app. split; [split|].
  - case_match; repeat constructor; cbn; [congruence|done].
  - case_match; repeat constructor; done.
  - case_match; [constructor|]. cbv zeta. rewrite !Forall_app.
    split; [|split]; [|case_match|]; repeat constructor; try done; intros _; apply (bool_decide_unpack _); vm_compute; exact I.
Qed.

(** A pod the controllers build runs one container without privilege: no
    privileged mode, no escalation, every capability dropped, the runtime's seccomp
    profile, one slot of the KVM device, and a memory limit above its request.  The
    CA's Secret is projected to its certificate alone.  Only the forks directory,
    the store, the template directory and the clones are mounted writable.  The
    snapshot is verified against the digest whenever the pod is not a fork child
    and a digest is known. *)
Theorem husk_pod_confined r opts p c :
  built r opts p -> 0 <= HuskMemoryHeadroom r -> c ∈ Containers (pd_spec p) -> CASecretName opts <> TLSSecretName opts ->
  let kvm := if String.eqb (o_KVMResourceName opts) EmptyString then defaultKVMResourceName else o_KVMResourceName opts in
  ct_Security c = mkSecurityContext false false false ["ALL"] [] RuntimeDefault /\
  (kvm <> "memory" -> ct_Limits c !! kvm = Some (quantity 1)) /\
  (exists req lim, ct_Requests c !! "memory" = Some req /\ ct_Limits c !! "memory" = Some lim /\ req < lim) /\
  (forall v s items, (v, SecretVolume s items) ∈ ps_Volumes (pd_spec p) -> s = CASecretName opts -> items = [("ca.crt", "ca.crt")]) /\
  (forall m, m ∈ ct_Mounts c -> vmt_ReadOnly m = false ->
     vmt_Name m ∈ ["husk-forks"; "husk-cas"; "template"; "husk-rootfs-cow"]) /\
  (ForkSnapshotID opts = EmptyString -> ExpectedDigest opts <> EmptyString ->
   exists pre post, ct_Args c = pre ++ ["--manifest"; Join [huskManifestDirMountPath; ExpectedDigest opts];
     "--snapshot-dir"; huskSnapshotMountPath; "--expected-digest"; ExpectedDigest opts] ++ post).
Proof.
  intros Hb Hroom Hc Hne kvm. destruct (built_spec r opts p Hb) as (template & Hs). rewrite Hs in *. cbn [Containers ps_Volumes] in *.
  apply list_elem_of_singleton in Hc as ->. split; [done|]. split; [|split; [|split; [|split]]].
  - intros Hk. cbn [ct_Limits husk_container]. rewrite lookup_insert_ne by done. apply lookup_singleton_eq.
  - eexists _, _. cbn [ct_Requests ct_Limits husk_container]. rewrite !lookup_insert_eq. split; [done|]. split; [done|]. by apply huskMemoryLimit_above.
  - intros v s items Hin ->. apply list_elem_of_In, in_map_iff in Hin as ([[[v' source] path] ro] & [= -> ->] & Hin).
    pose proof (pod_volumes_ok opts Hne) as Hv. rewrite Forall_forall in Hv. by apply (Hv _ Hin).
  - intros m Hm Hro. cbn [ct_Mounts husk_container] in Hm. apply list_elem_of_In, in_map_iff in Hm as ([[[v source] path] ro] & <- & Hin).
    cbn in Hro. pose proof (pod_volumes_ok opts Hne) as Hv. rewrite Forall_forall in Hv. by apply (Hv _ Hin).
  - intros Hf Hd. unfold husk_container. cbn [ct_Args]. unfold verify_args. rewrite Hf. cbn [String.eqb negb].
    apply String.eqb_neq in Hd. rewrite Hd. cbn [negb]. by exists base_args, (snapshot_args opts).
Qed.

(** A fork child is sized for a template of no declared memory, whatever the memory
    of the sandbox it is restored from. *)
Theorem fork_child_limit_fixed fork child opts c :
  c ∈ Containers (pd_spec (buildForkChildPod fork child opts)) ->
  ct_Requests c !! "memory" = Some (quantity (512 * Mi)) /\ ct_Limits c !! "memory" = Some (quantity (768 * Mi)).
Proof.
  intros Hc. apply list_elem_of_singleton in Hc as ->. cbn [ct_Requests ct_Limits husk_container]. by rewrite !lookup_insert_eq.
Qed.

(** A warm pod of a pool, with its snapshot verified. *)
Definition ex_options : HuskPodOptions :=
  mkOptions "mitos/husk:v1" EmptyString "py" EmptyString "sha256:ab" "husk-tls" "husk-ca" EmptyString EmptyString EmptyString [].
Definition ex_warm_pool : SandboxPool :=
  mkPool (new_meta "ns" "py" EmptyString ∅ ∅) "py" 1 EmptyString None (mkPoolStatus 0 0 None [] ∅ EmptyString 0 None).
Definition ex_pod : Pod := buildHuskPod (mkSizing 0 0 false) ex_warm_pool no_template ex_options.

Lemma husk_pod_confined_witness :
  exists c, Containers (pd_spec ex_pod) = [c] /\ CapDrop (ct_Security c) = ["ALL"] /\ Privileged (ct_Security c) = false /\
    ct_Limits c !! "mitos.run/kvm" = Some (quantity 1).
Proof.
  exists (husk_container (mkSizing 0 0 false) no_template ex_options). split; [reflexivity|].
  destruct (husk_pod_confined (mkSizing 0 0 false) ex_options ex_pod (husk_container (mkSizing 0 0 false) no_template ex_options)
    (built_warm _ ex_warm_pool no_template _) ltac:(done) ltac:(by left) ltac:(done)) as (Hs & Hk & _).
  rewrite Hs. split; [reflexivity|]. split; [reflexivity|]. apply Hk. done.
Defined.

End HuskPodFacts.
