(* ===== verification/PoolController.v ===== *)
(** The pool controller (internal/controller: sandboxpool_controller.go,
    the reconcile half of huskpod.go, huskpdb.go, secret_replication.go).

    - [Pools]: building and pulling a pool's template on nodes, the warm pool of
      husk pods, its disruption budget, the replication of the control plane's
      Secrets, the per-pool metrics and the reconcile that composes them.
    - [PoolFacts]: the warm pool is scaled exactly; what a reconcile deletes,
      creates, copies and sends. *)
From S2P Require Import Prelude GoLib GoFs Scheduler Autoscale Gc Wire Host Guarded Kms Controller ClaimController HuskPod.
#[local] Open Scope go_scope.

Module Pools.
Import Registry Warm Kube Ctl Claims HuskPods.

Record PoolConfig := mkPoolConfig {
  PeerToken : string; EnableHuskPods : bool; HuskStubImage : string; KVMResourceName : string; DataDir : string;
  HuskMemoryHeadroom : Quantity; HuskMemoryHeadroomPercent : Z; HuskTLSSecretName : string; HuskCASecretName : string;
  ControllerNamespace : string; KMS : option (Kms.Wrapper controller) }.

Definition CASecretName : string := "mitos-ca".
Definition ForkdTLSSecretName : string := "mitos-forkd-tls".

(** ** Replicated Secrets *)

Definition secretDataEqual (dst want : gmap string bytes) : bool :=
  bool_decide (map_Forall (fun k v => dst !! k = Some v) want).

(** The named keys, or the first that is missing. *)
Fixpoint project (source : gmap string bytes) (keys : list string) (projected : gmap string bytes)
  : res string (gmap string bytes) :=
  match keys with
  | [] => Ok projected
  | k :: keys => match source !! k with None => Err k | Some v => project source keys (<[k := v]> projected) end
  end.

Definition replicateControlPlaneSecret (src dst name_ : string) (keys : list string) : prog controller (res ctl_error unit) :=
  must source := Get KSecret src name_ in
  match project (Data source) keys ∅ with
  | Err k => mret (Err (ESecretKey name_ k))
  | Ok projected =>
      e ← ask (KGet KSecret dst name_);
      match e with
      | NotFound =>
          c ← Create KSecret (mkSecret (new_meta dst name_ EmptyString ∅ ∅) (se_Type source) projected);
          mret (match c with Ok _ | Err (EApi AExists) => Ok tt | Err e => Err e end)
      | GetFailed => mret (Err (EApi AFailed))
      | Found existing =>
          if secretDataEqual (Data existing) projected then mret (Ok tt)
          else
            must _ := Update KSecret (mkSecret (se_meta existing) (se_Type existing) (projected ∪ Data existing)) in
            mret (Ok tt)
      end
  end.

Definition ReplicateHuskSecrets (src dst : string) : prog controller (res ctl_error unit) :=
  if String.eqb src dst then mret (Ok tt)
  else
    must _ := replicateControlPlaneSecret src dst CASecretName ["ca.crt"] in
    replicateControlPlaneSecret src dst ForkdTLSSecretName ["tls.crt"; "tls.key"].

(** ** The disruption budget *)

Definition huskPDBName (poolName : string) : string := poolName +:+ "-husk".
Definition huskPDBMinAvailable (replicas : Z) : Z := if i32 (replicas - 1) <? 1 then 1 else i32 (replicas - 1).

Definition pdb_mutate (pool : SandboxPool) (pdb : PodDisruptionBudget) : option PodDisruptionBudget :=
  let set (m : ObjectMeta) := mkPDB m (huskPDBMinAvailable (po_Replicas pool))
                                (<[huskPoolLabel := Name (po_meta pool)]> {[huskLabel := "true"]}) in
  match GetControllerOf (pdb_meta pdb) with
  | Some _ => Some (set (pdb_meta pdb))
  | None => set <$> SetControllerReference (controller_ref "SandboxPool" (po_meta pool)) (pdb_meta pdb)
  end.
Definition ensureHuskPDB (pool : SandboxPool) : prog controller (res ctl_error unit) :=
  let m := po_meta pool in
  x ← CreateOrUpdate KPDB (Namespace m) (huskPDBName (Name m))
        (mkPDB (new_meta (Namespace m) (huskPDBName (Name m)) EmptyString ∅ ∅) 0 ∅) (pdb_mutate pool);
  mret (match x with Err (EApi AExists) => Ok tt | x => x end).

(** ** Metrics *)

Definition poolReadySnapshots : string := "mitos_pool_ready_snapshots".
Definition poolWarmDormant : string := "mitos_pool_warm_dormant".
Definition poolWarmInUse : string := "mitos_pool_warm_in_use".
Definition poolDesiredWarm : string := "mitos_pool_desired_warm".
Definition warmScaleUpTotal : string := "mitos_pool_warm_scale_up_total".
Definition warmScaleDownTotal : string := "mitos_pool_warm_scale_down_total".

Definition set_gauge (metric pool : string) (v : Z) (g : controller) : controller :=
  with_metrics (<[(metric, pool) := v]> (ct_metrics g)) g.
Definition inc (metric pool : string) (g : controller) : controller :=
  set_gauge metric pool (default 0 (ct_metrics g !! (metric, pool)) + 1) g.
Definition setPoolReadySnapshots (pool : string) (ready : Z) : controller -> controller := set_gauge poolReadySnapshots pool ready.
Definition setWarmPoolGauges (pool : string) (dormant inUse desired : Z) (g : controller) : controller :=
  set_gauge poolDesiredWarm pool desired (set_gauge poolWarmInUse pool inUse (set_gauge poolWarmDormant pool dormant g)).
Definition recordWarmScaleUp (pool : string) : controller -> controller := inc warmScaleUpTotal pool.
Definition recordWarmScaleDown (pool : string) : controller -> controller := inc warmScaleDownTotal pool.
Definition forgetPoolMetrics (pool : string) (g : controller) : controller :=
  with_metrics (foldr (fun metric m => delete (metric, pool) m) (ct_metrics g)
    [poolReadySnapshots; poolWarmDormant; poolWarmInUse; poolDesiredWarm; warmScaleUpTotal; warmScaleDownTotal]) g.

Section pools.
(** [grpc.NewClient]; the order the registry is ranged over, by the place of the
    range; whether a template may own its key Secret; the configuration. *)
Variable dial : string -> option tls_config -> res unit conn.
Variable node_order : string -> NodeRegistry -> list NodeInfo.
Variable may_own : string -> string -> bool.
Variable r : PoolConfig.

(** ** The registry *)

Definition holders (templateID : string) : prog controller (list NodeInfo) :=
  now ← sys CNow;
  atomic (fun g => (NodesWithTemplate now (node_order "holders" (ct_registry g)) templateID, g)).
Definition readySnapshotCount (templateID : string) : prog controller Z :=
  l ← holders templateID; mret (i32 (Z.of_nat (length l))).
Definition snapshotNodeNames (templateID : string) : prog controller (list string) :=
  l ← holders templateID; mret (map Registry.Name l).
Definition nodeDistribution (templateID : string) : prog controller (gmap string Z) :=
  l ← holders templateID;
  mret (fold_left (fun dist n => <[Registry.Name n := 1]> dist) l ∅).
Definition huskTemplateDigest (templateID : string) : prog controller (option string) :=
  now ← sys CNow;
  atomic (fun g => (TemplateDigest now (node_order "digest" (ct_registry g)) templateID, g)).
Definition template_source (templateID : string) : prog controller (option (NodeInfo * string * string)) :=
  now ← sys CNow;
  atomic (fun g => (TemplateSource now (node_order "source" (ct_registry g)) templateID, g)).

Definition poolKey (pool : SandboxPool) : string := Namespace (po_meta pool) +:+ "/" +:+ Name (po_meta pool).

Definition warm_view (pool : SandboxPool) : Warm.SandboxPool :=
  Warm.mkPool (Namespace (po_meta pool)) (Name (po_meta pool)) (po_Replicas pool)
    ((fun a => Warm.mkAutoscale (Kube.MinWarm a) (Kube.MaxWarm a) (Kube.TargetSpare a) (Kube.ScaleDownCooldownSeconds a))
       <$> Autoscale pool).
Definition desiredWarm (pool : SandboxPool) (dormant inUse : Z) : prog controller Z :=
  now ← sys CNow;
  atomic (fun g => (Warm.desiredWarm (Some (ct_demand g)) (warm_view pool) dormant inUse now, g)).

(** ** The template on the nodes *)

Definition build_on (node : NodeInfo) (templateID : string) (template : SandboxTemplate) (wrappedDEK : bytes) (kekID : string)
  : prog controller (res ctl_error string) :=
  mtls ← atomic (fun g => (NodeMTLS (ct_registry g) (Registry.Name node), g));
  if (0 <? length wrappedDEK)%nat && negb mtls then mret (Err (EInsecure (Registry.Name node)))
  else
    must c := connect dial (Registry.Name node) in
    call_forkd (Registry.Name node) c
      (Forkd.QCreateTemplate (Forkd.mkCreateTemplateRequest templateID (Image template) (Init template)
         (volumeMounts (Volumes template) []) wrappedDEK kekID)).

(** The digest the node has the template under. *)
Definition provide_on (node : NodeInfo) (templateID : string) (template : SandboxTemplate) (wrappedDEK : bytes) (kekID : string)
  : prog controller (res ctl_error string) :=
  let distribute := (length wrappedDEK =? 0)%nat && negb (String.eqb (PeerToken r) EmptyString) in
  source ← (if distribute then template_source templateID else mret None);
  match source with
  | Some (holder, casURL, digest) =>
      if negb (String.eqb (Registry.Name holder) (Registry.Name node)) then
        must _ := pullTemplateOnNode dial node templateID digest casURL (PeerToken r) in mret (Ok digest)
      else build_on node templateID template wrappedDEK kekID
  | None => build_on node templateID template wrappedDEK kekID
  end.

(** The nodes of one listing, in its order. *)
Fixpoint create_on (nodes : list NodeInfo) (templateID : string) (template : SandboxTemplate) (wrappedDEK : bytes) (kekID : string)
    (deficit added : Z) (errs : list ctl_error) : prog controller (Z * list ctl_error) :=
  match nodes with
  | [] => mret (added, errs)
  | node :: nodes =>
      if deficit <=? added then mret (added, errs)
      else
        now ← sys CNow;
        if negb (isHealthy now node) || hasSnapshot node templateID then
          create_on nodes templateID template wrappedDEK kekID deficit added errs
        else
          x ← provide_on node templateID template wrappedDEK kekID;
          match x with
          | Err e => create_on nodes templateID template wrappedDEK kekID deficit added (errs ++ [e])
          | Ok digest =>
              _ ← modify (fun g => with_registry (AddTemplateWithDigest (ct_registry g) (Registry.Name node) templateID digest) g);
              create_on nodes templateID template wrappedDEK kekID deficit (i32 (added + 1)) errs
          end
  end.
Definition createSnapshotsOnNodes (templateID : string) (template : SandboxTemplate) (wrappedDEK : bytes) (kekID : string)
    (deficit : Z) : prog controller (res ctl_error Z) :=
  nodes ← atomic (fun g => (node_order "list" (ct_registry g), g));
  '(added, errs) ← create_on nodes templateID template wrappedDEK kekID deficit 0 [];
  mret (if (added =? 0) && (0 <? length errs)%nat then Err (EJoined errs) else Ok added).

Definition ensureTemplateBuilt (pool : SandboxPool) (template : SandboxTemplate) : prog controller (res ctl_error unit) :=
  let templateID := TemplateRef pool in
  readySnapshots ← readySnapshotCount templateID;
  if po_Replicas pool <=? readySnapshots then mret (Ok tt)
  else
    let deficit := i32 (po_Replicas pool - readySnapshots) in
    must (wrappedDEK, kekID) :=
      if Encrypted template then
        x ← EncSecret.EnsureEncKey may_own (KMS r) (Namespace (po_meta pool)) templateID (Some (UID (t_meta template)));
        mret (match x with Ok k => Ok k | Err e => Err (EEncKey e) end)
      else mret (Ok ([], EmptyString)) in
    must _ := createSnapshotsOnNodes templateID template wrappedDEK kekID deficit in
    mret (Ok tt).

(** ** The warm pool *)

Record huskReconcileResult := mkResult { dormant_ : Z; inUse_ : Z; scaledUp : bool; scaledDn : bool }.

(** The pods of the listing that the pool owns and that are not being deleted. *)
Definition owned (pool : SandboxPool) (p : Pod) : bool :=
  bool_decide (DeletionTimestamp (pd_meta p) = None)
  && match GetControllerOf (pd_meta p) with
     | None => false
     | Some owner => String.eqb (or_UID owner) (UID (po_meta pool))
     end.
Definition claimed (p : Pod) : bool := bool_decide (is_Some (Labels (pd_meta p) !! huskClaimLabel)).
Definition unclaimed (p : Pod) : bool := negb (claimed p).

Definition pool_selector (pool : SandboxPool) : list (string * string) :=
  [(huskPoolLabel, Name (po_meta pool)); (huskLabel, "true")].

Definition countHuskPods (pool : SandboxPool) : prog controller (res ctl_error (Z * Z)) :=
  must pods := List_ KPod (Namespace (po_meta pool)) (pool_selector pool) in
  let mine := List.filter (owned pool) pods in
  let dorm := i32 (Z.of_nat (length (List.filter unclaimed mine))) in
  let use := i32 (i32 (Z.of_nat (length mine)) - dorm) in
  mret (Ok (dorm, if use <? 0 then 0 else use)).

Definition pod_options (pool : SandboxPool) (digest : string) (nodes : list string) : HuskPodOptions :=
  mkOptions (HuskStubImage r) (KVMResourceName r) (TemplateRef pool) (DataDir r) digest (HuskTLSSecretName r)
    (HuskCASecretName r) EmptyString EmptyString EmptyString nodes.
Definition sizing : Sizing := mkSizing (HuskMemoryHeadroom r) (HuskMemoryHeadroomPercent r) true.

(** Creates a pod [n] times. *)
Fixpoint create_pods (n : nat) (pod : Pod) : prog controller (res ctl_error unit) :=
  match n with
  | O => mret (Ok tt)
  | S n => must _ := Create KPod pod in create_pods n pod
  end.

Definition by_name (a b : Pod) : bool := String.ltb (Name (pd_meta a)) (Name (pd_meta b)).

Definition delete_dormant (p : Pod) : prog controller (res ctl_error unit) :=
  x ← Delete KPod p None;
  mret (match x with Err (EApi ANotFound) => Ok tt | x => x end).

(** The last [n] by name, the last first; beyond the slice the index panics. *)
Definition delete_surplus (dormant : list Pod) (n : nat) : prog controller (res ctl_error unit) :=
  must _ := for_each (take n (rev (sort_by by_name dormant))) delete_dormant in
  mret (if (length dormant <? n)%nat then Err EPanic else Ok tt).

(** Toward the desired count, given the pods listed. *)
Definition scale_to (pool : SandboxPool) (template : SandboxTemplate) (desired : Z) (pods : list Pod)
  : prog controller (res ctl_error huskReconcileResult) :=
  let mine := List.filter (owned pool) pods in
  let dormant := List.filter unclaimed mine in
  let existing := i32 (Z.of_nat (length dormant)) in
  let use := i32 (i32 (Z.of_nat (length mine)) - existing) in
  let inUse := if use <? 0 then 0 else use in
  if existing <? desired then
    let deficit := i32 (desired - existing) in
    must _ := if negb (String.eqb (ControllerNamespace r) EmptyString)
              then ReplicateHuskSecrets (ControllerNamespace r) (Namespace (po_meta pool)) else mret (Ok tt) in
    digest ← huskTemplateDigest (TemplateRef pool);
    nodes ← snapshotNodeNames (TemplateRef pool);
    must _ := create_pods (Z.to_nat deficit)
                (buildHuskPod sizing pool template (pod_options pool (default EmptyString digest) nodes)) in
    mret (Ok (mkResult (i32 (existing + Z.max 0 deficit)) inUse true false))
  else if desired <? existing then
    let surplus := i32 (existing - desired) in
    must _ := delete_surplus dormant (Z.to_nat surplus) in
    mret (Ok (mkResult (i32 (existing - Z.max 0 surplus)) inUse false true))
  else mret (Ok (mkResult existing inUse false false)).

Definition reconcileHuskPods (pool : SandboxPool) (template : SandboxTemplate) (desired : Z)
  : prog controller (res ctl_error huskReconcileResult) :=
  must pods := List_ KPod (Namespace (po_meta pool)) (pool_selector pool) in scale_to pool template desired pods.

(** ** Reconcile *)

Definition with_pool_status (f : SandboxPoolStatus -> SandboxPoolStatus) (p : SandboxPool) : SandboxPool :=
  mkPool (po_meta p) (TemplateRef p) (po_Replicas p) (DrainPolicy p) (Autoscale p) (f (po_status p)).
Definition set_pool_condition (c : Condition) (s : SandboxPoolStatus) : SandboxPoolStatus :=
  mkPoolStatus (ReadySnapshots s) (TotalSnapshots s) (LastSnapshotTime s) (Gc.setCondition (po_Conditions s) c).1
    (NodeDistribution s) (po_TemplateDigest s) (DesiredWarm s) (LastScaleDownTime s).

Definition observe (ready : Z) (dist : gmap string Z) (digest : option string) (now : Z) (s : SandboxPoolStatus) : SandboxPoolStatus :=
  mkPoolStatus ready ready (Some now) (po_Conditions s) dist (default (po_TemplateDigest s) digest) (DesiredWarm s)
    (LastScaleDownTime s).
Definition set_warm (desired : Z) (down : option Z) (s : SandboxPoolStatus) : SandboxPoolStatus :=
  mkPoolStatus (ReadySnapshots s) (TotalSnapshots s) (LastSnapshotTime s) (po_Conditions s) (NodeDistribution s)
    (po_TemplateDigest s) desired (match down with Some t => Some t | None => LastScaleDownTime s end).

Definition husk_message (warm desired inUse ready : Z) : string :=
  format_d warm +:+ "/" +:+ format_d desired +:+ " warm husk pods (" +:+ format_d inUse +:+ " in use), " +:+ format_d ready
    +:+ " snapshot node(s)".

(** The status of a pool of husk pods; the build failed or not. *)
Definition report_husk (pool : SandboxPool) (desired : Z) (res_ : huskReconcileResult) (built : bool)
  : prog controller (res ctl_error Result) :=
  let templateID := TemplateRef pool in
  ready ← readySnapshotCount templateID;
  _ ← modify (setPoolReadySnapshots (Name (po_meta pool)) ready);
  dist ← nodeDistribution templateID;
  digest ← huskTemplateDigest templateID;
  now ← sys CNow;
  let warm := dormant_ res_ in
  must _ := StatusUpdate KPool (with_pool_status (fun s =>
    set_pool_condition (condition "Ready" (conditionStatus ((desired <=? warm) && (0 <? ready))) now "HuskPodsReady"
                          (husk_message warm desired (inUse_ res_) ready))
      (set_warm desired (if scaledDn res_ then Some now else None) (observe ready dist digest now s))) pool) in
  mret (requeue ((if negb built || (ready <? po_Replicas pool) then 10 else 30) * second)).

Definition reconcile_husk (pool : SandboxPool) (template : SandboxTemplate) : prog controller (res ctl_error Result) :=
  c ← countHuskPods pool;
  match c with
  | Err _ => mret (requeue (10 * second))
  | Ok (dormantNow, inUseNow) =>
      desired ← desiredWarm pool dormantNow inUseNow;
      x ← reconcileHuskPods pool template desired;
      match x with
      | Err EPanic => mret (Err EPanic)
      | Err _ => mret (requeue (10 * second))
      | Ok res_ =>
          _ ← modify (fun g =>
                let g := setWarmPoolGauges (poolKey pool) (dormant_ res_) (inUse_ res_) desired g in
                let g := if scaledUp res_ then recordWarmScaleUp (poolKey pool) g else g in
                if scaledDn res_ then recordWarmScaleDown (poolKey pool) g else g);
          b ← ensureTemplateBuilt pool template;
          p ← ensureHuskPDB pool;
          match p with
          | Err _ => mret (requeue (10 * second))
          | Ok _ => report_husk pool desired res_ (is_ok b)
          end
      end
  end.

Definition reconcile_raw (pool : SandboxPool) (template : SandboxTemplate) : prog controller (res ctl_error Result) :=
  let templateID := TemplateRef pool in
  before ← readySnapshotCount templateID;
  b ← (if before <? po_Replicas pool then ensureTemplateBuilt pool template else mret (Ok tt));
  match b with
  | Err _ => mret (requeue (10 * second))
  | Ok _ =>
      ready ← readySnapshotCount templateID;
      _ ← modify (setPoolReadySnapshots (Name (po_meta pool)) ready);
      dist ← nodeDistribution templateID;
      digest ← huskTemplateDigest templateID;
      now ← sys CNow;
      must _ := StatusUpdate KPool (with_pool_status (fun s =>
        set_pool_condition (condition "Ready" (conditionStatus (po_Replicas pool <=? ready)) now "SnapshotsReady"
                              (format_d ready +:+ "/" +:+ format_d (po_Replicas pool) +:+ " snapshots ready"))
          (observe ready dist digest now s)) pool) in
      mret (requeue (30 * second))
  end.

Definition Reconcile (namespace name_ : string) : prog controller (res ctl_error Result) :=
  p ← ask (KGet KPool namespace name_);
  match p with
  | NotFound =>
      let key := namespace +:+ "/" +:+ name_ in
      _ ← modify (fun g => forgetPoolMetrics key (with_demand (Forget (ct_demand g) key) g));
      mret done
  | GetFailed => mret (Err (EApi AFailed))
  | Found pool =>
      must template := Get KTemplate (Namespace (po_meta pool)) (TemplateRef pool) in
      if EnableHuskPods r then reconcile_husk pool template else reconcile_raw pool template
  end.

End pools.
End Pools.

Module PoolFacts.
Import Registry Warm Kube Ctl Claims HuskPods Pools.

Abbreviation ev q x := (Ev (CCtl q) x).

(** ** Scaling *)

Definition created_pod (e : event) : option Pod :=
  match e with
  | Ev (CCtl (KCreate k o)) _ => match k return object k -> option Pod with KPod => Some | _ => fun _ => None end o
  | _ => None
  end.
Definition deleted_pod (e : event) : option Pod :=
  match e with
  | Ev (CCtl (KDelete k o _)) _ => match k return object k -> option Pod with KPod => Some | _ => fun _ => None end o
  | _ => None
  end.
Definition created (t : trace) : list Pod := omap created_pod t.
Definition deleted (t : trace) : list Pod := omap deleted_pod t.

(** Calls that neither create nor delete pods. *)
Definition podless (c : call) : Prop :=
  match c with
  | CCtl (KCreate k _) => k <> KPod
  | CCtl (KDelete k _ _) => k <> KPod
  | _ => True
  end.
#[local] Hint Extern 1 (podless _) => first [exact I|done] : prog.

Lemma podless_none e : podless (ev_call e) -> created_pod e = None /\ deleted_pod e = None.
Proof. destruct e as [c x]. destruct c; try done. destruct q; try done; by destruct k. Qed.

Lemma podless_nothing t : Forall (fun e => podless (ev_call e)) t -> created t = [] /\ deleted t = [].
Proof.
  induction 1 as [|e t He _ [IH1 IH2]]; [done|]. destruct (podless_none e He) as [H1 H2].
  unfold created, deleted in *. cbn. by rewrite H1, H2, IH1, IH2.
Qed.

Lemma adds_podless {A} (p : prog controller A) : calls_in podless p -> adds p (fun _ ext => created ext = [] /\ deleted ext = []).
Proof. intros Hp. eapply adds_mono; [by apply adds_calls|]. intros a ext. apply podless_nothing. Qed.

Lemma created_app t t' : created (t ++ t') = created t ++ created t'.
Proof. apply omap_app. Qed.
Lemma deleted_app t t' : deleted (t ++ t') = deleted t ++ deleted t'.
Proof. apply omap_app. Qed.

Lemma create_pods_adds n pod :
  adds (create_pods n pod) (fun x ext => deleted ext = [] /\ (is_ok x = true -> created ext = replicate n pod)).
Proof.
  induction n as [|n IH]; cbn [create_pods]; [by apply adds_ret|].
  eapply (adds_try _ _ (fun x ext => deleted ext = [] /\ created ext = [pod])).
  - by apply (adds_ask (KCreate KPod pod)).
  - intros _ e1 [Hd Hc]. eapply adds_mono; [exact IH|]. intros x e2 [Hd2 Hc2].
    rewrite deleted_app, created_app, Hd, Hc. split; [done|]. intros Hx. by rewrite (Hc2 Hx).
  - intros e e1 [Hd _]. done.
Qed.

Lemma delete_adds l :
  adds (for_each l delete_dormant) (fun x ext => created ext = [] /\ (is_ok x = true -> deleted ext = l)).
Proof.
  induction l as [|p l IH]; cbn [for_each]; [by apply adds_ret|].
  eapply (adds_try _ _ (fun x ext => created ext = [] /\ deleted ext = [p])).
  - eapply (adds_bind _ _ (fun _ ext => created ext = [] /\ deleted ext = [p])); [by apply adds_ask|].
    intros x e1 H. apply adds_ret. by rewrite app_nil_r.
  - intros _ e1 [Hd Hc]. eapply adds_mono; [exact IH|]. intros x e2 [Hd2 Hc2].
    rewrite deleted_app, created_app, Hd, Hc. split; [done|]. intros Hx. by rewrite (Hc2 Hx).
  - intros e e1 [Hc _]. done.
Qed.

Section scaling.
Context (node_order : string -> NodeRegistry -> list NodeInfo) (r : PoolConfig).

Lemma replicate_podless src dst nm keys : calls_in podless (replicateControlPlaneSecret src dst nm keys).
Proof. unfold replicateControlPlaneSecret, Get, Create, Update, ask. walk. Qed.
Lemma ReplicateHuskSecrets_podless src dst : calls_in podless (ReplicateHuskSecrets src dst).
Proof. unfold ReplicateHuskSecrets. case_match; [exact I|]. apply calls_try; intros; apply replicate_podless. Qed.

(** The pods of a listing that count as warm. *)
Definition warm_pods (pool : SandboxPool) (l : list Pod) : list Pod := List.filter unclaimed (List.filter (owned pool) l).
Definition active_pods (pool : SandboxPool) (l : list Pod) : list Pod := List.filter claimed (List.filter (owned pool) l).

Lemma warm_active pool l :
  (length (warm_pods pool l) + length (active_pods pool l) = length (List.filter (owned pool) l))%nat.
Proof.
  unfold warm_pods, active_pods, unclaimed. induction (List.filter (owned pool) l) as [|p m IH]; [done|]. cbn.
  destruct (claimed p); cbn; lia.
Qed.

(** What a reconcile of the warm pool did, given the pods it saw. *)
Definition scaled (pool : SandboxPool) (template : SandboxTemplate) (desired : Z) (l : list Pod) (res_ : huskReconcileResult) (t : trace) : Prop :=
  let dormant := warm_pods pool l in
  let n := Z.of_nat (length dormant) in
  (exists digest nodes, created t = replicate (Z.to_nat (desired - n)) (buildHuskPod (sizing r) pool template (pod_options r pool digest nodes))) /\
  deleted t = take (Z.to_nat (n - desired)) (rev (sort_by by_name dormant)) /\
  res_ = mkResult desired (Z.of_nat (length (active_pods pool l))) (n <? desired) (desired <? n).

Lemma count_small pool (l : list Pod) :
  Z.of_nat (length l) < 2 ^ 31 ->
  let mine := List.filter (owned pool) l in let dormant := List.filter unclaimed mine in
  i32 (Z.of_nat (length dormant)) = Z.of_nat (length dormant) /\
  i32 (i32 (Z.of_nat (length mine)) - Z.of_nat (length dormant)) = Z.of_nat (length (active_pods pool l)).
Proof.
  intros Hl mine dormant. pose proof (warm_active pool l) as Hw. pose proof (List.filter_length_le (owned pool) l) as Hle.
  change (length dormant + length (active_pods pool l) = length mine)%nat in Hw. change (length mine <= length l)%nat in Hle.
  rewrite (i32_small (Z.of_nat (length mine))), !i32_small; unfold is_i32; lia.
Qed.

Lemma scale_up_adds pool template n deficit res_ :
  adds (must _ := if negb (String.eqb (ControllerNamespace r) EmptyString)
                  then ReplicateHuskSecrets (ControllerNamespace r) (Namespace (po_meta pool)) else mret (Ok tt) in
        digest ← huskTemplateDigest node_order (TemplateRef pool);
        nodes ← snapshotNodeNames node_order (TemplateRef pool);
        must _ := create_pods n (buildHuskPod (sizing r) pool template (pod_options r pool (default EmptyString digest) nodes)) in
        mret (Ok (mkResult deficit res_ true false)))
    (fun x ext => deleted ext = [] /\ forall y, x = Ok y -> y = mkResult deficit res_ true false /\
       exists digest nodes, created ext = replicate n (buildHuskPod (sizing r) pool template (pod_options r pool digest nodes))).
Proof.
  eapply adds_try; [apply adds_podless; case_match; [apply ReplicateHuskSecrets_podless|exact I]| |by intros e e1 [_ ?]; split].
  intros [] e1 [Hc1 Hd1]. eapply adds_bind; [apply adds_podless; unfold huskTemplateDigest; walk|]. intros digest e2 [Hc2 Hd2].
  eapply adds_bind; [apply adds_podless; unfold snapshotNodeNames, holders; walk|]. intros nodes e3 [Hc3 Hd3].
  eapply adds_try; [apply create_pods_adds| |].
  - intros [] e4 [Hd4 Hc4]. apply adds_ret. specialize (Hc4 eq_refl). rewrite app_nil_r, !deleted_app, !created_app, Hc1, Hd1, Hc2, Hd2, Hc3, Hd3, Hd4.
    split; [done|]. intros y [= <-]. split; [done|]. by exists (default EmptyString digest), nodes.
  - intros e e4 [Hd4 _]. rewrite !deleted_app, Hd1, Hd2, Hd3, Hd4. done.
Qed.

Lemma scale_down_adds (dormant : list Pod) n d use :
  (n <= length dormant)%nat ->
  adds (must _ := delete_surplus dormant n in mret (Ok (mkResult d use false true)))
    (fun x ext => created ext = [] /\ forall y, x = Ok y -> y = mkResult d use false true /\
       deleted ext = take n (rev (sort_by by_name dormant))).
Proof.
  intros Hn. eapply adds_try; [eapply adds_try; [apply delete_adds| |]| |].
  - intros [] e1 H1. apply adds_ret. rewrite app_nil_r.
    instantiate (1 := fun x ext => created ext = [] /\ (is_ok x = true -> deleted ext = take n (rev (sort_by by_name dormant)))).
    by destruct (_ <? _)%nat; destruct H1.
  - by intros e e1 [? _].
  - intros [] e1 [Hc Hdel]. apply adds_ret. rewrite app_nil_r. split; [done|]. intros y [= <-]. auto.
  - by intros e e1 [? _].
Qed.

Lemma scale_to_adds pool template desired l :
  0 <= desired < 2 ^ 31 -> Z.of_nat (length l) < 2 ^ 31 ->
  adds (scale_to node_order r pool template desired l) (fun x ext => forall res_, x = Ok res_ -> scaled pool template desired l res_ ext).
Proof.
  intros Hd Hl. unfold scale_to, scaled. cbv zeta. destruct (count_small pool l Hl) as [-> ->].
  fold (warm_pods pool l). set (n := length (warm_pods pool l)). rewrite (proj2 (Z.ltb_ge (Z.of_nat (length (active_pods pool l))) 0)) by lia.
  assert (Z.of_nat n <= Z.of_nat (length l)) as Hn.
  { unfold n, warm_pods. pose proof (List.filter_length_le unclaimed (List.filter (owned pool) l)).
    pose proof (List.filter_length_le (owned pool) l). lia. }
  destruct (Z.ltb_spec (Z.of_nat n) desired) as [Hlt|Hge]; [|destruct (Z.ltb_spec desired (Z.of_nat n)) as [Hlt'|Hge']].
  - eapply adds_mono; [apply scale_up_adds|]. intros x ext [Hdel Hx] res_ Hr. destruct (Hx _ Hr) as [-> (digest & nodes & Hc)].
    assert (i32 (desired - Z.of_nat n) = desired - Z.of_nat n) as E by (apply i32_small; unfold is_i32; lia).
    rewrite E in Hc |- *. clear E. rewrite i32_small by (unfold is_i32; lia). replace (Z.to_nat (Z.of_nat n - desired)) with 0%nat by lia.
    split; [by exists digest, nodes|]. split; [done|]. f_equal; lia.
  - eapply adds_mono; [apply scale_down_adds; rewrite i32_small; unfold is_i32; fold n; lia|].
    intros x ext [Hc Hx] res_ Hr. destruct (Hx _ Hr) as [-> Hdel].
    assert (i32 (Z.of_nat n - desired) = Z.of_nat n - desired) as E by (apply i32_small; unfold is_i32; lia).
    rewrite E in Hdel |- *. clear E. rewrite i32_small by (unfold is_i32; lia). replace (Z.to_nat (desired - Z.of_nat n)) with 0%nat by lia.
    split; [by exists EmptyString, []|]. split; [done|]. f_equal; lia.
  - apply adds_ret. intros res_ [= <-]. replace (Z.to_nat (desired - Z.of_nat n)) with 0%nat by lia.
    replace (Z.to_nat (Z.of_nat n - desired)) with 0%nat by lia. split; [by exists EmptyString, []|]. split; [done|]. f_equal; lia.
Qed.

Lemma reconcileHuskPods_adds pool template desired :
  0 <= desired < 2 ^ 31 ->
  adds (reconcileHuskPods node_order r pool template desired) (fun x ext =>
    forall res_, x = Ok res_ -> exists l, ev (KList KPod (Namespace (po_meta pool)) (pool_selector pool)) (Some l) ∈ ext /\
      (Z.of_nat (length l) < 2 ^ 31 -> scaled pool template desired l res_ ext)).
Proof.
  intros Hd. unfold reconcileHuskPods. set (q := KList KPod (Namespace (po_meta pool)) (pool_selector pool)).
  eapply (adds_try _ _ (fun x ext => forall l, x = Ok l -> ext = [ev q (Some l)])); [| |done].
  { apply adds_ask. intros x. intros l. by destruct x; intros [= ->]. }
  intros l e1 He1. specialize (He1 _ eq_refl). subst e1. destruct (Z_lt_dec (Z.of_nat (length l)) (2 ^ 31)) as [Hl|Hl].
  - eapply adds_mono; [by apply scale_to_adds|]. intros x ext Hs res_ Hx. exists l. split; [left|]. intros _. by apply Hs.
  - eapply adds_mono; [apply adds_any|]. intros x ext _ res_ Hx. exists l. split; [left|done].
Qed.
End scaling.

Lemma elem_of_list_take_sub {A} (x : A) n l : x ∈ take n l -> x ∈ l.
Proof. intros H. rewrite <-(take_drop n l). apply elem_of_app. by left. Qed.

(** C30. The warm pool is scaled exactly.  Whatever the API server answers, a scaling
    that returns without error saw one listing of the pool's pods; it created
    exactly the missing pods, each the pool's own spec, or deleted exactly the
    surplus, the last unclaimed pods by name, and returned the desired count, the
    number of claimed pods and which way it scaled.  So no pod that the listing
    showed as claimed, being deleted or owned by another is ever deleted. *)
Theorem pool_scales_exactly {O} (h : env O) node_order (r : PoolConfig) pool template desired g o :
  0 <= desired < 2 ^ 31 ->
  let '(x, _, _, t) := run h (reconcileHuskPods node_order r pool template desired) g o in
  forall res_, x = Ok res_ ->
  exists l, ev (KList KPod (Namespace (po_meta pool)) (pool_selector pool)) (Some l) ∈ t /\
    (Z.of_nat (length l) < 2 ^ 31 ->
     scaled r pool template desired l res_ t /\ Forall (fun p => owned pool p = true /\ claimed p = false) (deleted t)).
Proof.
  intros Hd. pose proof (adds_run h _ _ g o (reconcileHuskPods_adds node_order r pool template desired Hd)) as HQ.
  destruct (run h _ g o) as [[[x g'] o'] t]. intros res_ Hx. destruct (HQ res_ Hx) as (l & Hl & Hs). exists l. split; [done|]. intros Hlen. specialize (Hs Hlen). split; [done|].
  destruct Hs as (_ & -> & _). apply Forall_forall. intros p Hp. apply list_elem_of_In in Hp.
  apply (elem_of_list_take_sub _ _ _), list_elem_of_In, in_rev, list_elem_of_In in Hp. rewrite sort_by_perm in Hp.
  apply list_elem_of_In, List.filter_In in Hp as [Hp Hu]. apply List.filter_In in Hp as [_ Ho]. split; [done|].
  by apply negb_true_iff.
Qed.

End PoolFacts.
