(* ===== verification/PoolSafety.v ===== *)
(** What a reconcile of a pool may do.

    - [PoolGuard]: when a pod may be created or deleted, what may be written into a
      replicated Secret and when a template may be pulled from another node, in
      terms of the calls made before; every reconcile of a pool keeps to it.
    - [PoolExamples]: a small cluster, the theorems applied to it, and what the
      controller does not achieve. *)
From S2P Require Import Prelude GoLib GoFs Scheduler Autoscale Gc Wire Host Guarded Kms Controller ClaimController HuskPod PoolController.
#[local] Open Scope go_scope.

Module PoolGuard.
Import Registry Warm Kube Ctl Claims HuskPods Pools PoolFacts.

Section guard.
Context (r : PoolConfig).

(** The pool and the template the reconcile is about. *)
Definition about (pool : SandboxPool) (template : SandboxTemplate) (t : trace) : Prop :=
  (exists ns nm, ev (KGet KPool ns nm) (Found pool) ∈ t) /\
  ev (KGet KTemplate (Namespace (po_meta pool)) (TemplateRef pool)) (Found template) ∈ t.

(** The keys a Secret is replicated with. *)
Definition copied (secret : string) : list string :=
  if String.eqb secret CASecretName then ["ca.crt"] else ["tls.crt"; "tls.key"].

(** A Secret is created with those keys alone; an existing one is written with
    those keys, and the keys it had. *)
Definition created_ok (s : Secret) : Prop :=
  Name (se_meta s) ∈ [CASecretName; ForkdTLSSecretName] /\
  forall k, is_Some (Data s !! k) -> k ∈ copied (Name (se_meta s)).
Definition healed_ok (s : Secret) (t : trace) : Prop :=
  exists ns nm existing, nm ∈ [CASecretName; ForkdTLSSecretName] /\
    ev (KGet KSecret ns nm) (Found existing) ∈ t /\ se_meta s = se_meta existing /\
    forall k v, Data s !! k = Some v -> k ∈ copied nm \/ Data existing !! k = Some v.

Definition pool_ok (t : trace) (c : call) : Prop :=
  match c with
  | CCtl (KDelete k o grace) =>
      match k return object k -> Prop with
      | KPod => fun p => grace = None /\ exists pool template l, about pool template t /\
          ev (KList KPod (Namespace (po_meta pool)) (pool_selector pool)) (Some l) ∈ t /\ p ∈ l /\
          owned pool p = true /\ claimed p = false
      | _ => fun _ => False
      end o
  | CCtl (KCreate k o) =>
      match k return object k -> Prop with
      | KPod => fun p => exists pool template digest nodes, about pool template t /\
          p = buildHuskPod (sizing r) pool template (pod_options r pool digest nodes)
      | KSecret => created_ok
      | KPDB => fun _ => True
      | _ => fun _ => False
      end o
  | CCtl (KUpdate k o) =>
      match k return object k -> Prop with KSecret => fun s => healed_ok s t | KPDB => fun _ => True | _ => fun _ => False end o
  | CCtl (KForkd _ (Forkd.QPullTemplate id _ _ token)) =>
      exists pool template, about pool template t /\ id = TemplateRef pool /\ Encrypted template = false /\ token = PeerToken r
  | CCtl (KForkd _ (Forkd.QCreateTemplate q)) =>
      exists pool template, about pool template t /\ Forkd.c_TemplateId q = TemplateRef pool /\ Forkd.c_Image q = Image template
  | CCtl (KForkd _ _ | KHusk _ _ | KPatch _ _ _ _ | KPatchStatus _ _ _) => False
  | _ => True
  end.
Abbreviation keeps_guard := (guarded (G := controller) pool_ok).
Abbreviation keeps_to p := (keeps_guard p (fun _ _ => True)).

Definition silent (c : call) : Prop := forall t, pool_ok t c.
#[local] Hint Extern 1 (silent _) => by intros ? : prog.

Lemma silent_guarded {A} (p : prog controller A) t : calls_in silent p -> keeps_guard p (fun _ t' => t `prefix_of` t') t.
Proof. intros Hp. eapply guarded_mono; [by apply guarded_calls|]. intros a t' (ext & -> & _). by apply prefix_app_r. Qed.

Lemma about_prefix pool template t t' : t `prefix_of` t' -> about pool template t -> about pool template t'.
Proof. intros Hp [(ns & nm & H1) H2]. split; [exists ns, nm|]; by eapply in_prefix. Qed.

(** *** Replication *)

Lemma project_keys source keys acc m :
  project source keys acc = Ok m -> forall k v, m !! k = Some v -> k ∈ keys \/ acc !! k = Some v.
Proof.
  revert acc. induction keys as [|k keys IH]; intros acc; cbn.
  - intros [= ->]. auto.
  - destruct (source !! k); [|done]. intros H k' v Hv. destruct (IH _ H k' v Hv) as [Hin|Hacc]; [left; by right|].
    destruct (decide (k' = k)) as [->|Hne]; [left; left|]. rewrite lookup_insert_ne in Hacc by done. by right.
Qed.

Lemma replicate_guarded src dst nm t :
  nm ∈ [CASecretName; ForkdTLSSecretName] ->
  keeps_guard (replicateControlPlaneSecret src dst nm (copied nm)) (fun _ t' => t `prefix_of` t') t.
Proof.
  intros Hnm. apply guarded_try. eapply guarded_mono; [apply silent_guarded; unfold Get, ask; walk|].
  intros [source|e] t1 Hp; [|done]. destruct (project _ _ _) as [m|k] eqn:Hm; [|by apply guarded_ret].
  pose proof (project_keys _ _ _ _ Hm) as Hk. apply guarded_bind, guarded_sys; [done|]. intros [existing| |]; [| |by apply guarded_ret, prefix_snoc].
  - case_match; [by apply guarded_ret, prefix_snoc|]. apply guarded_try. unfold Update. apply guarded_bind, guarded_sys.
    2: { intros x. apply guarded_ret. destruct x; cbn [written]; try apply guarded_ret; by do 2 apply prefix_snoc. }
    exists dst, nm, existing. split; [done|]. split; [apply last_in|]. split; [done|]. cbn [Data]. intros k v Hv.
    apply lookup_union_Some_raw in Hv as [Hv|[_ Hv]]; [|by right]. destruct (Hk k v Hv) as [H'|H']; [by left|]. by rewrite lookup_empty in H'.
  - apply guarded_bind, guarded_bind, guarded_sys.
    + split; [done|]. intros k [v Hv]. destruct (Hk k v Hv) as [H|H]; [done|]. by rewrite lookup_empty in H.
    + intros x. apply guarded_ret, guarded_ret. by do 2 apply prefix_snoc.
Qed.

Lemma ReplicateHuskSecrets_guarded src dst t : keeps_guard (ReplicateHuskSecrets src dst) (fun _ t' => t `prefix_of` t') t.
Proof.
  unfold ReplicateHuskSecrets. case_match; [by apply guarded_ret|]. apply guarded_try.
  eapply guarded_mono; [apply (replicate_guarded src dst CASecretName); by left|]. intros [u|e] t1 Hp; [|done].
  eapply guarded_mono; [apply (replicate_guarded src dst ForkdTLSSecretName); right; by left|]. intros x t2 Hp2. cbv beta in *. by etrans.
Qed.

(** *** The warm pool *)

Lemma create_pods_guarded n pod pool template digest nodes t :
  about pool template t -> pod = buildHuskPod (sizing r) pool template (pod_options r pool digest nodes) ->
  keeps_guard (create_pods n pod) (fun _ t' => t `prefix_of` t') t.
Proof.
  intros Ha Hpod. revert t Ha. induction n as [|n IH]; intros t Ha; cbn [create_pods]; [by apply guarded_ret|].
  apply guarded_try, guarded_bind, guarded_sys; [by exists pool, template, digest, nodes|]. intros x. apply guarded_ret.
  assert (t `prefix_of` (t ++ [ev (KCreate KPod pod) x])) as Hp by (by apply prefix_snoc).
  destruct x; cbn [written]; try exact Hp. eapply guarded_mono; [apply IH; by apply (about_prefix _ _ t)|].
  intros y t2 Hp2. cbv beta in *. by etrans.
Qed.

Lemma delete_guarded pool template all l t :
  about pool template t -> ev (KList KPod (Namespace (po_meta pool)) (pool_selector pool)) (Some all) ∈ t ->
  (forall p, p ∈ l -> p ∈ all /\ owned pool p = true /\ claimed p = false) ->
  keeps_guard (for_each l delete_dormant) (fun _ t' => t `prefix_of` t') t.
Proof.
  intros Ha Hall Hl. apply (guarded_for_each _ _ _ (fun _ t' => t `prefix_of` t')); [done| |done].
  intros pre p post t1 -> Hp. unfold delete_dormant, Delete. apply guarded_bind, guarded_bind, guarded_sys.
  - split; [done|]. exists pool, template, all. split; [by apply (about_prefix _ _ t)|]. split; [by apply (in_prefix t)|].
    apply Hl, elem_of_app. right. left.
  - intros x. do 2 apply guarded_ret. destruct x; by apply prefix_snoc.
Qed.

Lemma reconcileHuskPods_guarded node_order pool template desired t :
  about pool template t ->
  keeps_guard (reconcileHuskPods node_order r pool template desired) (fun _ t' => t `prefix_of` t') t.
Proof.
  intros Ha. unfold reconcileHuskPods, List_. apply guarded_try, guarded_bind, guarded_sys; [done|]. intros [l|]; [|by apply guarded_ret, prefix_snoc].
  apply guarded_ret. set (t1 := t ++ _). assert (t `prefix_of` t1) as Hp by (by apply prefix_snoc).
  assert (ev (KList KPod (Namespace (po_meta pool)) (pool_selector pool)) (Some l) ∈ t1) as Hl by apply last_in.
  apply (about_prefix _ _ _ _ Hp) in Ha. clearbody t1. unfold scale_to. cbv zeta. case_match; [|case_match; [|by apply guarded_ret]].
  - apply guarded_try. eapply (guarded_mono _ _ (fun _ t' => t1 `prefix_of` t')).
    { case_match; [apply ReplicateHuskSecrets_guarded|by apply guarded_ret]. }
    intros [u|e] t2 Hp2; [|by etrans]. apply guarded_bind.
    eapply guarded_mono; [apply silent_guarded; unfold huskTemplateDigest; walk|]. intros digest t3 Hp3.
    apply guarded_bind. eapply guarded_mono; [apply silent_guarded; unfold snapshotNodeNames, holders; walk|]. intros nodes t4 Hp4.
    cbv beta in *. assert (t1 `prefix_of` t4) as H14 by (etrans; [exact Hp2|]; by etrans). apply guarded_try.
    eapply guarded_mono; [eapply (create_pods_guarded _ _ pool template); [by apply (about_prefix _ _ t1)|done]|].
    intros [u'|e] t5 Hp5; [apply guarded_ret|]; (etrans; [exact Hp|]; by etrans).
  - apply guarded_try. unfold delete_surplus. apply guarded_try. eapply guarded_mono.
    { eapply (delete_guarded pool template l); [done..|]. intros p Hin. apply elem_of_list_take_sub, list_elem_of_In, in_rev, list_elem_of_In in Hin.
      rewrite sort_by_perm in Hin. apply list_elem_of_In, List.filter_In in Hin as [Hin Hu]. apply List.filter_In in Hin as [Hin Ho].
      split; [by apply list_elem_of_In|]. split; [done|]. by apply negb_true_iff. }
    intros [u|e] t2 Hp2; [apply guarded_ret|by etrans].
    destruct (_ <? Z.to_nat _)%nat; [|apply guarded_ret]; by etrans.
Qed.

(** *** The template *)

Section built.
Context (dial : string -> option tls_config -> res unit conn) (node_order : string -> NodeRegistry -> list NodeInfo)
  (may_own : string -> string -> bool).

(** Wrapping a key calls neither the API server nor a node, and does not yield an
    empty ciphertext. *)
Definition kms_seals : Prop := forall w, KMS r = Some w -> forall dek,
  calls_in apart (Kms.w_Wrap w dek) /\
  forall t, guarded (fun _ _ => True) (Kms.w_Wrap w dek) (fun x _ => forall c, x = Ok c -> Kms.Ciphertext c <> []) t.

Lemma apart_silent {A} (p : prog controller A) : calls_in apart p -> calls_in silent p.
Proof. apply calls_mono. intros c Hc t. by destruct c. Qed.

Lemma provide_on_guarded node pool template dek kek t :
  about pool template t -> (dek = [] -> Encrypted template = false) ->
  keeps_guard (provide_on dial node_order r node (TemplateRef pool) template dek kek) (fun _ t' => t `prefix_of` t') t.
Proof.
  intros Ha Hdek. assert (forall t', t `prefix_of` t' ->
    keeps_guard (build_on dial node (TemplateRef pool) template dek kek) (fun _ t' => t `prefix_of` t') t') as Hbuild.
  { intros t' Hp. unfold build_on. apply guarded_bind, guarded_atomic. intros mtls. case_match; [by apply guarded_ret|].
    apply guarded_try. eapply guarded_mono; [apply silent_guarded; unfold connect; walk|]. intros [c|e] t1 Hp1; cbv beta in Hp1; [|by etrans].
    unfold call_forkd, ask. apply guarded_bind, guarded_sys.
    - exists pool, template. split; [|done]. apply (about_prefix _ _ t); [by etrans|done].
    - intros x. apply guarded_ret. apply prefix_snoc. by etrans. }
  unfold provide_on. apply guarded_bind. destruct (_ && _) eqn:Hd; [|by apply guarded_ret, Hbuild].
  apply andb_prop in Hd as [Hlen _]. apply Nat.eqb_eq, length_zero_iff_nil in Hlen.
  eapply guarded_mono; [apply silent_guarded; unfold template_source; walk|]. intros [[[holder url] digest]|] t1 Hp1; cbv beta in Hp1; [|by apply Hbuild].
  case_match; [|by apply Hbuild]. apply guarded_try. unfold pullTemplateOnNode. apply guarded_try.
  eapply guarded_mono; [apply silent_guarded; unfold connect; walk|]. intros [c|e] t2 Hp2; cbv beta in Hp2; [|by etrans].
  unfold call_forkd, ask. apply guarded_bind, guarded_sys.
  - exists pool, template. split; [apply (about_prefix _ _ t); [by etrans|done]|]. auto.
  - intros x. apply guarded_ret. destruct x; [apply guarded_ret|]; apply prefix_snoc; by etrans.
Qed.

Lemma create_on_guarded nodes pool template dek kek deficit added errs t :
  about pool template t -> (dek = [] -> Encrypted template = false) ->
  keeps_guard (create_on dial node_order r nodes (TemplateRef pool) template dek kek deficit added errs) (fun _ t' => t `prefix_of` t') t.
Proof.
  intros Ha Hdek. revert added errs t Ha. induction nodes as [|node nodes IH]; intros added errs t Ha; cbn [create_on]; [by apply guarded_ret|].
  case_match; [by apply guarded_ret|]. apply guarded_bind, guarded_sys; [done|]. intros now. set (t1 := t ++ _).
  assert (t `prefix_of` t1) as Hp by (by apply prefix_snoc). clearbody t1. apply (about_prefix _ _ _ _ Hp) in Ha.
  assert (forall added errs t2, t1 `prefix_of` t2 ->
    keeps_guard (create_on dial node_order r nodes (TemplateRef pool) template dek kek deficit added errs) (fun _ t' => t `prefix_of` t') t2) as Hrec.
  { intros added' errs' t2 Hp2. eapply guarded_mono; [apply IH; by apply (about_prefix _ _ t1)|]. intros x t3 Hp3. cbv beta in *.
    etrans; [exact Hp|]. by etrans. }
  case_match; [by apply Hrec|]. apply guarded_bind. eapply guarded_mono; [by apply provide_on_guarded|]. intros [digest|e] t2 Hp2; [|by apply Hrec].
  apply guarded_bind, guarded_atomic. intros []. by apply Hrec.
Qed.

Lemma EnsureEncKey_guarded namespace id owner t :
  kms_seals ->
  keeps_guard (EncSecret.EnsureEncKey may_own (KMS r) namespace id owner)
    (fun x t' => t `prefix_of` t' /\ forall dek kek, x = Ok (dek, kek) -> dek <> []) t.
Proof.
  intros Hkms. assert (forall e d dek kek, EncSecret.read_key e d = Ok (dek, kek) -> dek <> []) as Hread.
  { intros e d dek kek. unfold EncSecret.read_key. by case_match; intros [= <- <-]. }
  apply guarded_bind, guarded_sys; [done|]. intros [d| |]; [apply guarded_ret; split; [by apply prefix_snoc|apply Hread]| |by apply guarded_ret; split; [apply prefix_snoc|]].
  set (t1 := t ++ _). assert (t `prefix_of` t1) as Hp by (by apply prefix_snoc). clearbody t1.
  destruct (KMS r) as [w|] eqn:Hw; [|by apply guarded_ret]. apply guarded_try.
  eapply guarded_mono; [apply silent_guarded; unfold random; walk|]. intros [dek|e] t2 Hp2; cbv beta in Hp2; [|by split; [etrans|]].
  apply guarded_bind. destruct (Hkms w Hw dek) as [Hap Hseal].
  eapply guarded_mono; [apply (guarded_other _ _ _ _ _ (Hseal t2)), apart_silent, Hap|]. intros [c|e] t3 [Hc Hp3].
  2: { apply guarded_ret. split; [|done]. etrans; [exact Hp|]. by etrans. }
  specialize (Hc _ eq_refl). assert (t `prefix_of` t3) as Hp' by (etrans; [exact Hp|]; by etrans). clear Hp Hp2 Hp3.
  destruct (match owner with Some _ => _ | None => _ end); [by apply guarded_ret|].
  apply guarded_bind, guarded_sys; [done|]. intros [| |b].
  - apply guarded_ret. split; [by apply prefix_snoc|]. by intros ?? [= <- <-].
  - apply guarded_bind, guarded_sys; [done|]. intros x. apply guarded_ret. split; [by do 2 apply prefix_snoc|].
    destruct x; [apply Hread|done..].
  - apply guarded_ret. split; [by apply prefix_snoc|done].
Qed.

Lemma ensureTemplateBuilt_guarded pool template t :
  kms_seals -> about pool template t ->
  keeps_guard (ensureTemplateBuilt dial node_order may_own r pool template) (fun _ t' => t `prefix_of` t') t.
Proof.
  intros Hkms Ha. apply guarded_bind. eapply guarded_mono; [apply silent_guarded; unfold readySnapshotCount, holders; walk|].
  intros ready t1 Hp1. cbv beta in Hp1. case_match; [by apply guarded_ret|]. apply guarded_try.
  eapply (guarded_mono _ _ (fun x t' => t1 `prefix_of` t' /\ forall dek kek, x = Ok (dek, kek) -> dek = [] -> Encrypted template = false)).
  { destruct (Encrypted template) eqn:He; [|by apply guarded_ret]. apply guarded_bind.
    eapply guarded_mono; [by apply EnsureEncKey_guarded|]. intros [[dek kek]|e] t2 [Hp2 Hne]; apply guarded_ret; (split; [done|]); [|done].
    intros dek' kek' [= <- <-] Hnil. by destruct (Hne _ _ eq_refl). }
  intros [[dek kek]|e] t2 [Hp2 Hdek]; [|by etrans]. specialize (Hdek _ _ eq_refl). apply guarded_try. unfold createSnapshotsOnNodes.
  apply guarded_bind, guarded_atomic. intros nodes. apply guarded_bind. eapply guarded_mono.
  { apply create_on_guarded; [|exact Hdek]. apply (about_prefix _ _ t); [by etrans|done]. }
  intros [added errs] t3 Hp3. cbv beta in Hp3. apply guarded_ret.
  destruct (_ && _); [|apply guarded_ret]; (etrans; [exact Hp1|]; by etrans).
Qed.

(** *** Reconcile *)

Lemma report_husk_silent pool desired res_ built : calls_in silent (report_husk node_order pool desired res_ built).
Proof. unfold report_husk, readySnapshotCount, nodeDistribution, huskTemplateDigest, holders, StatusUpdate, ask. walk. Qed.
Lemma ensureHuskPDB_silent pool : calls_in silent (ensureHuskPDB pool).
Proof. unfold ensureHuskPDB, CreateOrUpdate, Create, Update, ask. walk. Qed.

Lemma reconcile_husk_guarded pool template t :
  kms_seals -> about pool template t -> keeps_to (reconcile_husk dial node_order may_own r pool template) t.
Proof.
  intros Hkms Ha. apply guarded_bind. eapply guarded_mono; [apply silent_guarded; unfold countHuskPods, List_, ask; walk|].
  intros [[dormantNow inUseNow]|e] t1 Hp1; cbv beta in Hp1; [|exact I]. apply (about_prefix _ _ _ _ Hp1) in Ha. clear Hp1.
  apply guarded_bind. eapply guarded_mono; [apply silent_guarded; unfold desiredWarm; walk|]. intros desired t2 Hp2. cbv beta in Hp2.
  apply (about_prefix _ _ _ _ Hp2) in Ha. clear Hp2. apply guarded_bind. eapply guarded_mono; [by apply reconcileHuskPods_guarded|].
  intros [res_|e] t3 Hp3; [|by repeat case_match]. apply (about_prefix _ _ _ _ Hp3) in Ha. clear Hp3.
  apply guarded_bind, guarded_atomic. intros []. apply guarded_bind. eapply guarded_mono; [by apply ensureTemplateBuilt_guarded|].
  intros b t4 _. apply guarded_bind. eapply guarded_mono; [apply silent_guarded, ensureHuskPDB_silent|]. intros [u|e] t5 _; [|exact I].
  eapply guarded_mono; [apply silent_guarded, report_husk_silent|done].
Qed.

Lemma reconcile_raw_guarded pool template t :
  kms_seals -> about pool template t -> keeps_to (reconcile_raw dial node_order may_own r pool template) t.
Proof.
  intros Hkms Ha. apply guarded_bind. eapply guarded_mono; [apply silent_guarded; unfold readySnapshotCount, holders; walk|].
  intros before t1 Hp1. cbv beta in Hp1. apply (about_prefix _ _ _ _ Hp1) in Ha. clear Hp1. apply guarded_bind.
  eapply (guarded_mono _ _ (fun _ _ => True)).
  { case_match; [|exact I]. eapply guarded_mono; [by apply ensureTemplateBuilt_guarded|done]. }
  intros [u|e] t2 _; [|exact I]. eapply guarded_mono; [apply silent_guarded|done].
  unfold readySnapshotCount, nodeDistribution, huskTemplateDigest, holders, StatusUpdate, ask. walk.
Qed.

Lemma pool_Reconcile_guarded namespace nm : kms_seals -> keeps_to (Reconcile dial node_order may_own r namespace nm) [].
Proof.
  intros Hkms. apply guarded_bind, guarded_sys; [done|]. intros [pool| |]; [| |exact I].
  2: { apply guarded_bind, guarded_atomic. by intros []. }
  apply guarded_try. unfold Get. apply guarded_bind, guarded_sys; [done|]. intros [template| |]; apply guarded_ret; [|exact I..].
  assert (about pool template ([ev (KGet KPool namespace nm) (Found pool)] ++
    [ev (KGet KTemplate (Namespace (po_meta pool)) (TemplateRef pool)) (Found template)])) as Ha.
  { split; [exists namespace, nm; left|right; left]. }
  cbn [fetched]. destruct (EnableHuskPods r); [by apply reconcile_husk_guarded|by apply reconcile_raw_guarded].
Qed.

(** Reconciles of the pools of these names, served concurrently. *)
Definition pool_reconciles (requests : list (string * string)) : list (prog controller unit) :=
  (fun '(namespace, nm) => _ ← Reconcile dial node_order may_own r namespace nm; mret tt) <$> requests.
End built.
End guard.

(** However pool reconciles interleave and whatever is answered, a reconcile
    - deletes only pods that it listed as its pool's own, not terminating and not
      claimed;
    - creates only pods of its pool's spec;
    - puts into a Secret of another namespace only the CA certificate and the
      forkd leaf, next to what that Secret held, so never the CA's key;
    - lets nodes pull a template from each other only when the template is not
      encrypted. *)
Theorem pool_reconcile_contained dial node_order may_own (r : PoolConfig) requests g n :
  kms_seals r -> rtc (pool_step anything) (mkNode (pool_reconciles r dial node_order may_own requests) g []) n ->
  exists tt : tagged, n_trace n = tt.*2 /\
  forall pre i c x post, tt = pre ++ (i, Ev c x) :: post -> pool_ok r (own i pre) c.
Proof.
  intros Hkms Hrtc. destruct (pool_guarded anything (pool_ok r) (pool_reconciles r dial node_order may_own requests) g n)
    as (tt & Ht & Hok); [|exact Hrtc|].
  - apply Forall_forall. intros p ([namespace nm] & <- & _)%in_map_iff. apply guarded_bind. by apply pool_Reconcile_guarded.
  - exists tt. split; [done|]. intros pre i c x post Heq. apply (Hok _ _ _ _ _ Heq).
Qed.

End PoolGuard.

Module PoolExamples.
Import Registry Warm Kube Ctl Claims HuskPods HuskPodFacts Pools PoolFacts PoolGuard.

Definition meta (nm uid : string) (labels : gmap string string) (owners : list OwnerReference) : ObjectMeta :=
  mkMeta "team" nm EmptyString uid 1 1 labels ∅ [] owners None None.
Definition python : SandboxPool :=
  mkPool (meta "python" "uid-p" ∅ []) "python" 3 EmptyString None (mkPoolStatus 0 0 None [] ∅ EmptyString 0 None).
Definition python_template : SandboxTemplate :=
  mkTemplate (meta "python" "uid-t" ∅ []) "python:3.12" [] 0 (quantity (2048 * Mi)) [] None false.
Definition pool_pod (nm : string) (claim : option string) : Pod :=
  mkPod (meta nm ("uid-" +:+ nm)
           (match claim with Some c => <[huskClaimLabel := c]> | None => id end {[huskPoolLabel := "python"; huskLabel := "true"]})
           [mkOwner "SandboxPool" "python" "uid-p" true])
    (mkPodSpec EmptyString false EmptyString ∅ None [] [] "node-1") (mkPodStatus "Running" "10.0.0.1" [("Ready", "True")]).

Definition config : PoolConfig :=
  mkPoolConfig "peer" true "husk:1" EmptyString EmptyString 0 0 "husk-tls" "mitos-ca" "mitos" None.
Definition idle : controller := mkController (mkRegistry ∅ None (f64_of_int 1)) (mkDemand ∅) ∅ ∅.

Definition ca_secret : Secret :=
  mkSecret (meta CASecretName "uid-ca" ∅ []) "Opaque" {["ca.crt" := ["c"%char]; "ca.key" := ["k"%char]]}.
Definition leaf_secret : Secret :=
  mkSecret (meta ForkdTLSSecretName "uid-tls" ∅ []) "Opaque" {["tls.crt" := ["t"%char]; "tls.key" := ["l"%char]]}.

(** A cluster that lists these pods and has the Secrets in the controller's namespace. *)
Definition cluster (pods : list Pod) : env Z := fun c now =>
  match c return answer c * Z with
  | CCtl (KGet k ns nm) =>
      (match k return get_result (object k) with
       | KPool => Found python | KTemplate => Found python_template
       | KSecret => if String.eqb ns "mitos" then Found (if String.eqb nm CASecretName then ca_secret else leaf_secret) else NotFound
       | _ => NotFound end, now)
  | CCtl (KList k ns ls) => (match k return option (list (object k)) with KPod => Some pods | _ => Some [] end, now)
  | c => obliging c now
  end.

Definition names (l : list Pod) : list string := map (fun p => Name (pd_meta p)) l.
Definition busy : list Pod := [pool_pod "p-b" None; pool_pod "p-a" (Some "c1"); pool_pod "p-d" None; pool_pod "p-c" None].

(** One pod is wanted and three are warm: the last two by name go, the claimed one
    stays. *)
Lemma pool_scales_exactly_witness :
  let '(x, _, _, t) := run (cluster busy) (reconcileHuskPods (fun _ _ => []) config python python_template 1) idle 0 in
  x = Ok (mkResult 1 1 false true) /\ names (deleted t) = ["p-d"; "p-c"] /\
  exists l, ev (KList KPod (Namespace (po_meta python)) (pool_selector python)) (Some l) ∈ t /\
    (Z.of_nat (length l) < 2 ^ 31 ->
     scaled config python python_template 1 l (mkResult 1 1 false true) t /\
     Forall (fun p => owned python p = true /\ claimed p = false) (deleted t)).
Proof.
  pose proof (pool_scales_exactly (cluster busy) (fun _ _ => []) config python python_template 1 idle 0) as H.
  destruct (run _ _ _ _) as [[[x g] o] t] eqn:Hr in H |- *.
  assert (x = Ok (mkResult 1 1 false true)) as Hx by (apply (f_equal (fun y => y.1.1.1)) in Hr; vm_compute in Hr; by subst x).
  assert (names (deleted t) = ["p-d"; "p-c"]) as Hn by (apply (f_equal (fun y => names (deleted y.2))) in Hr; vm_compute in Hr; done).
  split; [done|]. split; [done|]. exact (H ltac:(lia) _ Hx).
Defined.

Definition growing : node controller :=
  (schedule (cluster [pool_pod "p-a" (Some "c1")]) (replicate 60 0%nat)
     (mkNode (pool_reconciles config (fun _ _ => Err tt) (fun _ _ => []) (fun _ _ => true) [("team", "python")]) idle []) 0).1.
Definition secret_keys (t : trace) : list (string * list string) :=
  omap (fun e => match e with
                 | Ev (CCtl (KCreate k o)) _ =>
                     match k return object k -> option (string * list string) with
                     | KSecret => fun s => Some (Name (se_meta s), (map_to_list (Data s)).*1) | _ => fun _ => None end o
                 | _ => None
                 end) t.

(** A pool that grows by three pods in a namespace that has no Secrets yet. *)
Lemma pool_reconcile_contained_witness :
  (length (created (n_trace growing)), secret_keys (n_trace growing))
    = (3%nat, [(CASecretName, ["ca.crt"]); (ForkdTLSSecretName, ["tls.key"; "tls.crt"])]) /\
  exists tt : tagged, n_trace growing = tt.*2 /\
  forall pre i c x post, tt = pre ++ (i, Ev c x) :: post -> pool_ok config (own i pre) c.
Proof.
  split; [vm_compute; reflexivity|].
  assert (rtc (pool_step anything)
    (mkNode (pool_reconciles config (fun _ _ => Err tt) (fun _ _ => []) (fun _ _ => true) [("team", "python")]) idle []) growing) as Hrtc
    by apply schedule_rtc.
  generalize dependent growing. intros n Hrtc. by apply pool_reconcile_contained in Hrtc.
Defined.

(** *** What the controller does not achieve *)

(** The gauge of ready snapshots is set under the pool's name and deleted under
    its namespace and name: it outlives the pool. *)
Example forgotten_pool_keeps_its_gauge :
  let g := setPoolReadySnapshots (Name (po_meta python)) 2 idle in
  ct_metrics (forgetPoolMetrics (poolKey python) g) !! (poolReadySnapshots, "python") = Some 2.
Proof. vm_compute. reflexivity. Qed.

(** The budget follows the replicas and not the warm target: a pool of one replica
    that autoscaled to ten pods lets nine be evicted at once. *)
Example budget_ignores_the_target :
  let a := Warm.mkAutoscale 10 20 2 0 in
  let pool := Warm.mkPool "team" "python" 1 (Some a) in
  let desired := (computeDesiredWarm pool 0 0 None 0).1 in
  (desired, desired - huskPDBMinAvailable 1) = (10, 9).
Proof. vm_compute. reflexivity. Qed.

End PoolExamples.
