(* ===== verification/ForkController.v ===== *)
(** The fork controller (internal/controller/sandboxfork_controller.go).

    - [Forks]: the secret gate, the fork of a running sandbox by its forkd, the
      fork of a husk sandbox by its stub (one snapshot, a fixed set of child pods,
      their activation), and the removal of the snapshot. *)
From S2P Require Import Prelude GoLib GoFs Scheduler Autoscale Gc Wire Host Guarded Controller ClaimController HuskPod.
#[local] Open Scope go_scope.

Module Forks.
Import Registry Kube Ctl Claims HuskPods.

Definition huskForkFinalizer : string := "mitos.run/husk-fork-snapshot".

Record ForkConfig := mkForkConfig {
  EnableHuskPods : bool; HuskTLS : bool; ControlPort : Z; SandboxPort : Z; HuskStubImage : string; DataDir : string;
  KVMResourceName : string; HuskTLSSecretName : string; HuskCASecretName : string }.

Definition huskForksInPodDir (forkID : string) : string := Join [huskForksMountPath; forkID].

(** ** Status *)

Definition with_fork_status (f : SandboxForkStatus -> SandboxForkStatus) (k : SandboxFork) : SandboxFork :=
  mkFork (fk_meta k) (fk_spec k) (f (fk_status k)).
Definition set_fork_condition (c : Condition) (s : SandboxForkStatus) : SandboxForkStatus :=
  mkForkStatus (ReadyForks s) (TotalForks s) (Forks s) (ForkSnapshotTaken s) (CheckpointTime s)
    (Gc.setCondition (fk_Conditions s) c).1.
Definition set_taken (s : SandboxForkStatus) : SandboxForkStatus :=
  mkForkStatus (ReadyForks s) (TotalForks s) (Forks s) true (CheckpointTime s) (fk_Conditions s).
Definition set_checkpoint (now : Z) (s : SandboxForkStatus) : SandboxForkStatus :=
  mkForkStatus (ReadyForks s) (TotalForks s) (Forks s) (ForkSnapshotTaken s) (Some now) (fk_Conditions s).
Definition set_forks (forks : list ForkInfo) (ready total : Z) (s : SandboxForkStatus) : SandboxForkStatus :=
  mkForkStatus ready total forks (ForkSnapshotTaken s) (CheckpointTime s) (fk_Conditions s).
Definition add_fork (f : ForkInfo) (s : SandboxForkStatus) : SandboxForkStatus :=
  set_forks (Forks s ++ [f]) (i32 (ReadyForks s + 1)) (i32 (TotalForks s + 1)) s.

Definition FindStatusCondition (cs : list Condition) (type : string) : option Condition :=
  List.find (fun c => String.eqb (Gc.cond_Type c) type) cs.
Definition IsStatusConditionTrue (cs : list Condition) (type : string) : bool :=
  match FindStatusCondition cs type with Some c => String.eqb (Gc.cond_Status c) "True" | None => false end.

Definition fork_with_meta (f : ObjectMeta -> ObjectMeta) (k : SandboxFork) : SandboxFork :=
  mkFork (f (fk_meta k)) (fk_spec k) (fk_status k).
Definition fork_ref (k : SandboxFork) : OwnerReference := controller_ref "SandboxFork" (fk_meta k).

Definition child_name (fork : string) (i : Z) : string := fork +:+ "-fork-" +:+ format_d i.

Definition forks_ready (kind : string) (k : SandboxFork) (now : Z) : SandboxFork :=
  let ready := ReadyForks (fk_status k) in
  with_fork_status (fun s =>
    set_fork_condition (condition "Ready" (conditionStatus (fk_Replicas (fk_spec k) <=? ready)) now "ForksCreated"
                          (format_d ready +:+ "/" +:+ format_d (fk_Replicas (fk_spec k)) +:+ kind +:+ " ready"))
      (set_checkpoint now s)) k.

Section forks.
(** [grpc.NewClient]; float conversion; the configuration. *)
Variable dial : string -> option tls_config -> res unit conn.
Variable conv : SpecFloat.spec_float -> Z.
Variable r : ForkConfig.

(** ** The secret gate *)

Definition denied (now : Z) : Condition :=
  condition "Rejected" "True" now "SecretInheritanceDenied"
    "source claim holds secrets; recreate the fork with spec.allowSecretInheritance=true to permit it (forks duplicate guest memory, including secret values)".
Definition opted_in (now : Z) : Condition :=
  condition "SecretInheritance" "True" now "ExplicitOptIn" "fork inherits the source's in-memory secrets by explicit opt-in".
Definition opt_in_recorded (k : SandboxFork) : bool :=
  match FindStatusCondition (fk_Conditions (fk_status k)) "SecretInheritance" with
  | None => false
  | Some c => String.eqb (Gc.cond_Status c) "True" && String.eqb (Gc.cond_Reason c) "ExplicitOptIn"
  end.

(** The fork when it may go on; nothing when it was rejected. *)
Definition secret_gate (fork : SandboxFork) (source : SandboxClaim) : prog controller (res ctl_error (option SandboxFork)) :=
  match Secrets (cl_spec source) with
  | [] => mret (Ok (Some fork))
  | _ =>
      now ← sys CNow;
      if negb (AllowSecretInheritance (fk_spec fork)) then
        must _ := StatusUpdate KFork (with_fork_status (set_fork_condition (denied now)) fork) in
        mret (Ok None)
      else if opt_in_recorded fork then mret (Ok (Some fork))
      else
        must fork := StatusUpdate KFork (with_fork_status (set_fork_condition (opted_in now)) fork) in
        mret (Ok (Some fork))
  end.

(** ** Forks of a forkd *)

Definition fork_info (nm : string) (node : NodeInfo) (x : forkResult) : ForkInfo :=
  mkForkInfo nm (fk_SandboxID x) (fk_Endpoint x) (Registry.Name node) Gc.SandboxReady
    (f64_to_int64 conv (f64_mul (fk_ForkTimeMs x) (f64_of_int 1000))).

(** One fork: what it is recorded as, unless a step failed. *)
Definition fork_once (fork : SandboxFork) (source : SandboxClaim) (node : NodeInfo) (forkID : string)
  : prog controller (res ctl_error ForkInfo) :=
  must apiToken := mintAPIToken in
  must x := forkRunningOnNode dial node (SandboxID (cl_status source)) forkID (PauseSource (fk_spec fork)) apiToken in
  must _ := ensureSandboxTokenSecret (fork_ref fork) (Namespace (fk_meta fork)) (forkID +:+ tokenSecretSuffix) apiToken (fk_Endpoint x) in
  mret (Ok (fork_info forkID node x)).

(** The name takes the total as it is counted up. *)
Fixpoint fork_loop (n : nat) (i : Z) (fork : SandboxFork) (source : SandboxClaim) (node : NodeInfo) : prog controller SandboxFork :=
  match n with
  | O => mret fork
  | S n =>
      let forkID := child_name (Name (fk_meta fork)) (i32 (TotalForks (fk_status fork) + i)) in
      x ← fork_once fork source node forkID;
      fork_loop n (i + 1) (match x with Ok f => with_fork_status (add_fork f) fork | Err _ => fork end) source node
  end.

Definition reconcile_raw_fork (fork : SandboxFork) (source : SandboxClaim) : prog controller (res ctl_error Result) :=
  n ← atomic (fun g => (GetNode (ct_registry g) (Node (cl_status source)), g));
  match n with
  | None => mret (Err (EConn (Node (cl_status source))))
  | Some node =>
      must pool := Get KPool (Namespace (fk_meta fork)) (PoolRef (cl_spec source)) in
      must _ := Get KTemplate (Namespace (po_meta pool)) (TemplateRef pool) in
      let needed := i32 (fk_Replicas (fk_spec fork) - ReadyForks (fk_status fork)) in
      fork ← fork_loop (Z.to_nat needed) 0 fork source node;
      now ← sys CNow;
      must _ := StatusUpdate KFork (forks_ready " forks" fork now) in
      mret done
  end.

(** ** Forks of a husk pod *)

Definition ensureForkChildPod (fork : SandboxFork) (nm : string) (opts : HuskPodOptions) : prog controller (res ctl_error Pod) :=
  e ← ask (KGet KPod (Namespace (fk_meta fork)) nm);
  match e with
  | Found p => mret (Ok p)
  | GetFailed => mret (Err (EApi AFailed))
  | NotFound =>
      c ← Create KPod (buildForkChildPod fork nm opts);
      match c with
      | Ok _ | Err (EApi AExists) => Get KPod (Namespace (fk_meta fork)) nm
      | Err e => mret (Err e)
      end
  end.

Definition child_options (fork : SandboxFork) (source : SandboxClaim) : HuskPodOptions :=
  mkOptions (HuskStubImage r) (KVMResourceName r) (PoolRef (cl_spec source)) (DataDir r) EmptyString (HuskTLSSecretName r)
    (HuskCASecretName r) (Name (fk_meta fork)) (Node (cl_status source)) (huskSourceRootfsInPodPath (SandboxID (cl_status source))) [].

(** Activating a child that is ready: what it is recorded as. *)
Definition activate_child (fork : SandboxFork) (nm : string) (child : Pod) : prog controller (option ForkInfo) :=
  k ← mintAPIToken;
  match k with
  | Err _ => mret None
  | Ok apiToken =>
      let addr := JoinHostPort (PodIP (pd_status child)) (port_or HuskControlPort (ControlPort r)) in
      x ← on_husk (HuskTLS r) addr (Control.HActivate (Control.mkActivate HuskSnapshotDir EmptyString [] ∅ ∅ None [] apiToken));
      match x with
      | Ok (Ok _) =>
          let endpoint := JoinHostPort (PodIP (pd_status child)) (port_or huskSandboxPort (SandboxPort r)) in
          s ← ensureSandboxTokenSecret (fork_ref fork) (Namespace (fk_meta fork)) (nm +:+ tokenSecretSuffix) apiToken endpoint;
          mret (match s with
                | Ok _ => Some (mkForkInfo nm (Name (pd_meta child)) endpoint (NodeName (pd_spec child)) Gc.SandboxReady 0)
                | Err _ => None
                end)
      | _ => mret None
      end
  end.

(** One slot: what it is recorded as when it is ready. *)
Definition slot (fork : SandboxFork) (opts : HuskPodOptions) (recorded : gmap string ForkInfo) (nm : string)
  : prog controller (option ForkInfo) :=
  c ← ensureForkChildPod fork nm opts;
  match c with
  | Err _ => mret None
  | Ok child =>
      match recorded !! nm with
      | Some info => mret (Some info)
      | None =>
          if String.eqb (PodIP (pd_status child)) EmptyString || negb (huskPodReady child) then mret None
          else activate_child fork nm child
      end
  end.

Fixpoint slots (n : nat) (i : Z) (fork : SandboxFork) (opts : HuskPodOptions) (recorded : gmap string ForkInfo)
    (forks : list ForkInfo) : prog controller (list ForkInfo) :=
  match n with
  | O => mret forks
  | S n =>
      x ← slot fork opts recorded (child_name (Name (fk_meta fork)) i);
      slots n (i + 1) fork opts recorded (forks ++ option_list x)
  end.

(** The snapshot of the source, taken unless the status says it was. *)
Definition take_snapshot (fork : SandboxFork) (srcPod : Pod) : prog controller (res (res ctl_error Result) SandboxFork) :=
  if ForkSnapshotTaken (fk_status fork) then mret (Ok fork)
  else
    let forkID := Name (fk_meta fork) in
    let srcAddr := JoinHostPort (PodIP (pd_status srcPod)) (port_or HuskControlPort (ControlPort r)) in
    s ← on_husk (HuskTLS r) srcAddr
          (Control.HForkSnapshot (Control.mkForkSnapshot forkID (huskForksInPodDir forkID) (PauseSource (fk_spec fork))));
    match s with
    | Ok (Ok _) =>
        u ← StatusUpdate KFork (with_fork_status set_taken fork);
        mret (match u with Ok fork => Ok fork | Err e => Err (Err e) end)
    | _ => mret (Err (requeue (2 * second)))
    end.

Definition reconcileHuskFork (fork : SandboxFork) (source : SandboxClaim) : prog controller (res ctl_error Result) :=
  p ← Get KPod (Namespace (fk_meta fork)) (SandboxID (cl_status source));
  match p with
  | Err _ => mret (requeue (1 * second))
  | Ok srcPod =>
      if String.eqb (PodIP (pd_status srcPod)) EmptyString then mret (requeue (1 * second))
      else
        t ← take_snapshot fork srcPod;
        match t with
        | Err x => mret x
        | Ok fork =>
            let recorded := fold_left (fun m f => <[fi_Name f := f]> m) (Forks (fk_status fork)) ∅ in
            forks ← slots (Z.to_nat (fk_Replicas (fk_spec fork))) 0 fork (child_options fork source) recorded [];
            let ready := i32 (Z.of_nat (length forks)) in
            now ← sys CNow;
            must fork := StatusUpdate KFork (forks_ready " husk forks" (with_fork_status (set_forks forks ready ready) fork) now) in
            mret (if ReadyForks (fk_status fork) <? fk_Replicas (fk_spec fork) then requeue (1 * second) else done)
        end
  end.

Definition remove_snapshot (fork : SandboxFork) : prog controller unit :=
  s ← Get KClaim (Namespace (fk_meta fork)) (SourceRef (fk_spec fork));
  match s with
  | Err _ => mret tt
  | Ok source =>
      if String.eqb (SandboxID (cl_status source)) EmptyString then mret tt
      else
        p ← Get KPod (Namespace (fk_meta fork)) (SandboxID (cl_status source));
        match p with
        | Err _ => mret tt
        | Ok srcPod =>
            if String.eqb (PodIP (pd_status srcPod)) EmptyString then mret tt
            else
              let addr := JoinHostPort (PodIP (pd_status srcPod)) (port_or HuskControlPort (ControlPort r)) in
              let forkID := Name (fk_meta fork) in
              _ ← on_husk (HuskTLS r) addr (Control.HRemoveForkSnapshot (Control.mkRemove forkID (huskForksInPodDir forkID)));
              mret tt
        end
  end.

Definition finalizeHuskFork (fork : SandboxFork) : prog controller (res ctl_error Result) :=
  if negb (ContainsFinalizer huskForkFinalizer (fk_meta fork)) then mret done
  else
    _ ← remove_snapshot fork;
    must _ := Update KFork (fork_with_meta (RemoveFinalizer huskForkFinalizer) fork) in
    mret done.

(** ** Reconcile *)

Definition reconcile_fork (fork : SandboxFork) : prog controller (res ctl_error Result) :=
  if IsStatusConditionTrue (fk_Conditions (fk_status fork)) "Rejected" then mret done
  else if fk_Replicas (fk_spec fork) <=? ReadyForks (fk_status fork) then mret done
  else
    must source := Get KClaim (Namespace (fk_meta fork)) (SourceRef (fk_spec fork)) in
    must gate := secret_gate fork source in
    match gate with
    | None => mret done
    | Some fork =>
        if negb (String.eqb (Phase (cl_status source)) Gc.SandboxReady) then mret (requeue (1 * second))
        else if EnableHuskPods r then reconcileHuskFork fork source
        else reconcile_raw_fork fork source
    end.

Definition Reconcile (namespace name_ : string) : prog controller (res ctl_error Result) :=
  f ← ask (KGet KFork namespace name_);
  match f with
  | NotFound => mret done
  | GetFailed => mret (Err (EApi AFailed))
  | Found fork =>
      if EnableHuskPods r && bool_decide (DeletionTimestamp (fk_meta fork) <> None) then finalizeHuskFork fork
      else if EnableHuskPods r && negb (ContainsFinalizer huskForkFinalizer (fk_meta fork)) then
        must _ := Update KFork (fork_with_meta (AddFinalizer huskForkFinalizer) fork) in mret done
      else reconcile_fork fork
  end.

End forks.
End Forks.
