(* ===== verification/ForkSafety.v ===== *)
(** What a reconcile of a fork may do.

    - [ForkGuard]: when a running sandbox may be duplicated, a child pod created or
      activated, and what the status may record, in terms of the calls made
      before; every reconcile keeps to it.
    - [ForkExamples]: the theorems applied to a small cluster, and what the
      controller does not achieve. *)
From S2P Require Import Prelude GoLib GoFs Scheduler Autoscale Gc Wire Host Guarded Controller ClaimController ClaimSafety HuskPod ForkController.
#[local] Open Scope go_scope.

Module ForkGuard.
Import Registry Kube Ctl Claims HuskPods Forks Guard.

Section guard.
Context (r : ForkConfig).

Definition seen_fork (k : SandboxFork) (t : trace) : Prop :=
  (exists ns nm, ev (KGet KFork ns nm) (Found k) ∈ t) \/ (exists o, ev (KUpdateStatus KFork o) (Written k) ∈ t).

(** The fork has passed the secret gate and its source runs: the source delivers
    no secrets, or the fork opts in to inherit them. *)
Definition permitted (k : SandboxFork) (source : SandboxClaim) (t : trace) : Prop :=
  seen_fork k t /\ Phase (cl_status source) = Gc.SandboxReady /\
  exists k0, seen_fork k0 t /\ ev (KGet KClaim (Namespace (fk_meta k0)) (SourceRef (fk_spec k0))) (Found source) ∈ t /\
    (Secrets (cl_spec source) = [] \/ AllowSecretInheritance (fk_spec k0) = true).

(** The source was snapshotted, now or before. *)
Definition snapshotted (k : SandboxFork) (t : trace) : Prop :=
  (seen_fork k t /\ ForkSnapshotTaken (fk_status k) = true) \/
  exists addr q x, ev (KHusk addr (Control.HForkSnapshot q)) (Ok (Ok x)) ∈ t.

Definition slot_of (k : SandboxFork) (nm : string) : Prop :=
  exists i, 0 <= i < fk_Replicas (fk_spec k) /\ nm = child_name (Name (fk_meta k)) i.

Definition child_addr (p : Pod) : string := JoinHostPort (PodIP (pd_status p)) (port_or HuskControlPort (ControlPort r)).
Definition child_endpoint (p : Pod) : string := JoinHostPort (PodIP (pd_status p)) (port_or huskSandboxPort (SandboxPort r)).

(** A fork that is recorded now: its child, found under its name, was activated, or
    its forkd forked it, with a token just minted and handed over in its own
    Secret. *)
Definition backed_fork (f : ForkInfo) (t : trace) : Prop :=
  exists k token, seen_fork k t /\ minted token t /\
    token_stored (fork_ref k) (Namespace (fk_meta k)) (fi_Name f +:+ tokenSecretSuffix) token (fi_Endpoint f) t /\
    ((exists child q x, ev (KGet KPod (Namespace (fk_meta k)) (fi_Name f)) (Found child) ∈ t /\
        ev (KHusk (child_addr child) (Control.HActivate q)) (Ok (Ok x)) ∈ t /\ Control.a_Token q = token /\
        fi_Endpoint f = child_endpoint child /\ fi_SandboxID f = Name (pd_meta child)) \/
     (exists conn source pause id ep ms ck, ev (KForkd conn (Forkd.QForkRunning source (fi_Name f) pause token)) (Ok (id, ep, ms, ck)) ∈ t /\
        fi_SandboxID f = id)).

(** Each fork of the status was recorded before or is backed. *)
Definition recorded_ok (k : SandboxFork) (t : trace) : Prop :=
  forall f, f ∈ Forks (fk_status k) -> (exists k0, seen_fork k0 t /\ f ∈ Forks (fk_status k0)) \/ backed_fork f t.

Definition fork_ok (t : trace) (c : call) : Prop :=
  match c with
  | CCtl (KHusk addr (Control.HForkSnapshot q)) =>
      HuskTLS r = true /\ exists k source, permitted k source t /\ ForkSnapshotTaken (fk_status k) = false /\
        Control.fs_ForkID q = Name (fk_meta k)
  | CCtl (KHusk addr (Control.HActivate q)) =>
      HuskTLS r = true /\ minted (Control.a_Token q) t /\ exists k source nm child,
        permitted k source t /\ snapshotted k t /\ slot_of k nm /\
        ev (KGet KPod (Namespace (fk_meta k)) nm) (Found child) ∈ t /\ addr = child_addr child
  | CCtl (KHusk _ (Control.HDehydrate _ | Control.HHydrate _)) => False
  | CCtl (KForkd _ (Forkd.QForkRunning _ _ _ token)) => minted token t /\ exists k source, permitted k source t
  | CCtl (KForkd _ _) => False
  | CCtl (KCreate k o) =>
      match k return object k -> Prop with
      | KPod => fun p => exists k source nm, permitted k source t /\ snapshotted k t /\ slot_of k nm /\
          p = buildForkChildPod k nm (child_options r k source)
      | KSecret => fun _ => True
      | _ => fun _ => False
      end o
  | CCtl (KUpdateStatus k o) => match k return object k -> Prop with KFork => fun k => recorded_ok k t | _ => fun _ => False end o
  | CCtl (KDelete _ _ _ | KPatch _ _ _ _ | KPatchStatus _ _ _) => False
  | _ => True
  end.
Abbreviation keeps_guard := (guarded (G := controller) fork_ok).
Abbreviation keeps_to p := (keeps_guard p (fun _ _ => True)).

(** ** Facts stay *)

Lemma seen_fork_prefix k t t' : t `prefix_of` t' -> seen_fork k t -> seen_fork k t'.
Proof. intros Hp [(a & b & H)|(a & H)]; [left|right]; eauto using in_prefix. Qed.
Lemma permitted_prefix k source t t' : t `prefix_of` t' -> permitted k source t -> permitted k source t'.
Proof.
  intros Hp (Hk & Hs & k0 & Hk0 & Hsrc & Hgate). split; [by eapply seen_fork_prefix|]. split; [done|].
  exists k0. eauto using seen_fork_prefix, in_prefix.
Qed.
Lemma snapshotted_prefix k t t' : t `prefix_of` t' -> snapshotted k t -> snapshotted k t'.
Proof. intros Hp [[H1 H2]|(a & q & x & H)]; [left|right]; eauto 6 using seen_fork_prefix, in_prefix. Qed.
Lemma backed_fork_prefix f t t' : t `prefix_of` t' -> backed_fork f t -> backed_fork f t'.
Proof.
  intros Hp (k & token & Hk & Hm & Hst & Hb). exists k, token. split; [by eapply seen_fork_prefix|]. split; [by eapply minted_prefix|].
  split; [by eapply token_stored_prefix|]. destruct Hb as [(child & q & x & H1 & H2 & H3)|(conn & source & pause & id & ep & ms & ck & H1 & H2)].
  - left. exists child, q, x. eauto using in_prefix.
  - right. exists conn, source, pause, id, ep, ms, ck. eauto using in_prefix.
Qed.

(** Calls that are always allowed. *)
Definition calm (c : call) : Prop := forall t, fork_ok t c.
#[local] Hint Extern 1 (calm _) => by intros ? : prog.
Lemma calm_guarded {A} (p : prog controller A) t : calls_in calm p -> keeps_guard p (fun _ t' => t `prefix_of` t') t.
Proof. intros Hp. eapply guarded_mono; [by apply guarded_calls|]. intros a t' (ext & -> & _). by apply prefix_app_r. Qed.

(** A status write of a fork, and what it returns. *)
Lemma StatusUpdate_fork k t :
  recorded_ok k t ->
  keeps_guard (StatusUpdate KFork k) (fun x t' => t `prefix_of` t' /\ forall k', x = Ok k' -> seen_fork k' t') t.
Proof.
  intros Hk. apply guarded_bind, guarded_sys; [exact Hk|]. intros x. apply guarded_ret. split; [by apply prefix_snoc|].
  intros k' Hx. right. exists k. destruct x; try discriminate. injection Hx as ->. apply last_in.
Qed.

(** A status that keeps the recorded forks. *)
Lemma same_forks k0 k t : seen_fork k0 t -> Forks (fk_status k) = Forks (fk_status k0) -> recorded_ok k t.
Proof. intros Hk Hf f Hin. left. exists k0. by rewrite <-Hf. Qed.

(** ** The gate *)

Definition gate_passed (k0 : SandboxFork) (source : SandboxClaim) (t : trace) : Prop :=
  seen_fork k0 t /\ ev (KGet KClaim (Namespace (fk_meta k0)) (SourceRef (fk_spec k0))) (Found source) ∈ t /\
  (Secrets (cl_spec source) = [] \/ AllowSecretInheritance (fk_spec k0) = true).

Lemma secret_gate_guarded k source t :
  seen_fork k t -> ev (KGet KClaim (Namespace (fk_meta k)) (SourceRef (fk_spec k))) (Found source) ∈ t ->
  keeps_guard (secret_gate k source)
    (fun x t' => forall k', x = Ok (Some k') -> seen_fork k' t' /\ gate_passed k source t') t.
Proof.
  intros Hk Hs. unfold secret_gate. destruct (Secrets (cl_spec source)) as [|s l] eqn:Hsec.
  { apply guarded_ret. intros k' [= <-]. split; [done|]. split; [done|]. split; [done|]. by left. }
  apply guarded_bind, guarded_sys; [done|]. intros now. set (t1 := t ++ _).
  assert (t `prefix_of` t1) as Hp by (by apply prefix_snoc). clearbody t1.
  apply (seen_fork_prefix _ _ _ Hp) in Hk. apply (in_prefix _ _ _ Hp) in Hs. clear Hp t.
  destruct (AllowSecretInheritance (fk_spec k)) eqn:Ha; cbn [negb].
  2: { apply guarded_try. eapply guarded_mono; [apply StatusUpdate_fork; by apply (same_forks k)|].
    intros [k'|e] t2 _; [by apply guarded_ret|done]. }
  destruct (opt_in_recorded k).
  { apply guarded_ret. intros k' [= <-]. split; [done|]. split; [done|]. split; [done|]. by right. }
  apply guarded_try. eapply guarded_mono; [apply StatusUpdate_fork; by apply (same_forks k)|]. intros [k'|e] t2 [Hp Hk']; [|done].
  apply guarded_ret. intros k'' [= <-]. split; [by apply Hk'|]. split; [by eapply seen_fork_prefix|]. split; [by eapply in_prefix|]. by right.
Qed.

(** ** Children *)

Lemma ensureForkChildPod_guarded k source nm t :
  permitted k source t -> snapshotted k t -> slot_of k nm ->
  keeps_guard (ensureForkChildPod k nm (child_options r k source))
    (fun x t' => t `prefix_of` t' /\ forall p, x = Ok p -> ev (KGet KPod (Namespace (fk_meta k)) nm) (Found p) ∈ t') t.
Proof.
  intros Hp Hs Hn. apply guarded_bind, guarded_sys; [done|]. intros [p| |].
  - apply guarded_ret. split; [by apply prefix_snoc|]. intros p' [= <-]. apply last_in.
  - set (t1 := t ++ _). assert (t `prefix_of` t1) as Hpre by (by apply prefix_snoc). clearbody t1.
    apply guarded_bind. unfold Create. apply guarded_bind, guarded_sys.
    { exists k, source, nm. split; [by eapply permitted_prefix|]. split; [by eapply snapshotted_prefix|done]. }
    intros x. apply guarded_ret. set (t2 := t1 ++ _). assert (t `prefix_of` t2) as Hpre2 by (by apply prefix_snoc). clearbody t2.
    assert (keeps_guard (Get KPod (Namespace (fk_meta k)) nm)
      (fun x t' => t `prefix_of` t' /\ forall p, x = Ok p -> ev (KGet KPod (Namespace (fk_meta k)) nm) (Found p) ∈ t') t2) as Hget.
    { unfold Get. apply guarded_bind, guarded_sys; [done|]. intros y. apply guarded_ret. split; [by apply prefix_snoc|].
      intros p. destruct y; intros [= <-]. apply last_in. }
    destruct x; cbn [written]; first [exact Hget|by apply guarded_ret].
  - apply guarded_ret. split; [by apply prefix_snoc|done].
Qed.

Lemma activate_child_guarded k source nm child t :
  permitted k source t -> snapshotted k t -> slot_of k nm -> ev (KGet KPod (Namespace (fk_meta k)) nm) (Found child) ∈ t ->
  keeps_guard (activate_child r k nm child) (fun x t' => t `prefix_of` t' /\ forall f, x = Some f -> backed_fork f t') t.
Proof.
  intros Hp Hs Hn Hc. apply guarded_bind. eapply guarded_mono; [by apply mint_guarded|]. intros [token|e] t1 [Hp1 Hm]; [|by apply guarded_ret].
  specialize (Hm _ eq_refl). apply (permitted_prefix _ _ _ _ Hp1) in Hp. apply (snapshotted_prefix _ _ _ Hp1) in Hs.
  apply (in_prefix _ _ _ Hp1) in Hc. apply guarded_bind. unfold on_husk. destruct (HuskTLS r) eqn:Htls; cbn [negb]; [|by do 2 apply guarded_ret].
  apply guarded_bind, guarded_sys.
  { split; [done|]. split; [done|]. exists k, source, nm, child. done. }
  intros x. apply guarded_ret. set (q := Control.HActivate _). set (t2 := t1 ++ _).
  assert (t1 `prefix_of` t2) as Hp2 by (by apply prefix_snoc).
  assert (t `prefix_of` t2) as Hp02 by (by etrans). destruct x as [[result|msg]|msg]; [|by apply guarded_ret; split..].
  assert (ev (KHusk (child_addr child) q) (Ok (Ok result)) ∈ t2) as Hact by apply last_in. clearbody t2.
  apply guarded_bind. eapply guarded_mono; [by apply store_token_guarded|]. intros [u|e] t3 [Hp3 Hst]; apply guarded_ret; (split; [by etrans|]); [|done].
  intros f [= <-]. specialize (Hst eq_refl). assert (t1 `prefix_of` t3) as H13 by (by etrans). exists k, token.
  split; [eapply seen_fork_prefix; [exact H13|apply Hp]|]. split; [by eapply minted_prefix|]. split; [exact Hst|]. left.
  eexists child, _, result. split; [exact (in_prefix _ _ _ H13 Hc)|]. split; [exact (in_prefix _ _ _ Hp3 Hact)|]. done.
Qed.

Lemma slot_guarded k source recorded nm t :
  permitted k source t -> snapshotted k t -> slot_of k nm ->
  keeps_guard (slot r k (child_options r k source) recorded nm)
    (fun x t' => t `prefix_of` t' /\ forall f, x = Some f -> recorded !! nm = Some f \/ backed_fork f t') t.
Proof.
  intros Hp Hs Hn. apply guarded_bind. eapply guarded_mono; [by apply ensureForkChildPod_guarded|].
  intros [child|e] t1 [Hp1 Hc]; [|by apply guarded_ret]. specialize (Hc _ eq_refl).
  destruct (recorded !! nm) as [f|] eqn:Hr; [apply guarded_ret; split; [done|]; intros f' [= <-]; by left|].
  case_match; [by apply guarded_ret|]. eapply guarded_mono.
  { eapply activate_child_guarded; [by eapply permitted_prefix|by eapply snapshotted_prefix|done|done]. }
  intros x t2 [Hp2 Hb]. split; [by etrans|]. intros f Hx. right. by apply Hb.
Qed.

Lemma slots_guarded n i k source recorded forks t :
  permitted k source t -> snapshotted k t -> 0 <= i -> Z.of_nat n <= Z.max 0 (fk_Replicas (fk_spec k) - i) ->
  (forall f, f ∈ forks -> (exists nm, recorded !! nm = Some f) \/ backed_fork f t) ->
  keeps_guard (slots r n i k (child_options r k source) recorded forks)
    (fun fs t' => t `prefix_of` t' /\ forall f, f ∈ fs -> (exists nm, recorded !! nm = Some f) \/ backed_fork f t') t.
Proof.
  revert i forks t. induction n as [|n IH]; intros i forks t Hp Hs Hi Hn Hf; cbn [slots]; [by apply guarded_ret|].
  apply guarded_bind. eapply guarded_mono; [apply slot_guarded; [done..|]; exists i; split; [lia|done]|]. intros x t1 [Hp1 Hx].
  eapply guarded_mono; [apply IH; [by eapply permitted_prefix|by eapply snapshotted_prefix|lia|lia|]|].
  - intros f [Hin|Hin]%elem_of_app.
    + destruct (Hf f Hin) as [?|Hb]; [by left|right; by eapply backed_fork_prefix].
    + destruct x as [f'|]; [|by apply elem_of_nil in Hin]. apply list_elem_of_singleton in Hin as ->.
      destruct (Hx _ eq_refl) as [?|?]; [left; eauto|by right].
  - intros fs t2 [Hp2 Hfs]. split; [by etrans|exact Hfs].
Qed.

(** ** A husk fork *)

Lemma take_snapshot_guarded k source srcPod t :
  permitted k source t ->
  keeps_guard (take_snapshot r k srcPod)
    (fun x t' => forall k', x = Ok k' -> permitted k' source t' /\ snapshotted k' t') t.
Proof.
  intros Hp. unfold take_snapshot. destruct (ForkSnapshotTaken (fk_status k)) eqn:Htaken.
  { apply guarded_ret. intros k' [= <-]. split; [done|]. left. split; [apply Hp|done]. }
  unfold on_husk. apply guarded_bind. destruct (HuskTLS r) eqn:Htls; cbn [negb]; [|by do 2 apply guarded_ret].
  apply guarded_bind, guarded_sys; [split; [done|]; by exists k, source|]. intros x. apply guarded_ret.
  set (t1 := t ++ _). assert (t `prefix_of` t1) as Hp1 by (by apply prefix_snoc). destruct x as [[y|msg]|msg]; [|by apply guarded_ret..].
  assert (forall k', snapshotted k' t1) as Hsnap by (intros k'; right; do 3 eexists; apply last_in). clearbody t1.
  apply (permitted_prefix _ _ _ _ Hp1) in Hp. clear Hp1. apply guarded_bind.
  eapply guarded_mono; [apply StatusUpdate_fork; by apply (same_forks k); [apply Hp|]|]. intros [k'|e] t2 [Hp2 Hk]; apply guarded_ret; [|done].
  intros k'' [= <-]. split; [|by eapply snapshotted_prefix]. destruct (permitted_prefix _ _ _ _ Hp2 Hp) as (_ & Hph & Hg).
  split; [by apply Hk|done].
Qed.

Lemma recorded_lookup (l : list ForkInfo) (m : gmap string ForkInfo) nm f :
  fold_left (fun m f => <[fi_Name f := f]> m) l m !! nm = Some f -> f ∈ l \/ m !! nm = Some f.
Proof.
  revert m. induction l as [|a l IH]; intros m; cbn; [by right|]. intros H. destruct (IH _ H) as [Hin|Hm]; [left; by right|].
  destruct (decide (fi_Name a = nm)) as [<-|Hne]; [rewrite lookup_insert_eq in Hm; injection Hm as ->; left; left|].
  rewrite lookup_insert_ne in Hm by done. by right.
Qed.

Lemma reconcileHuskFork_guarded k source t : permitted k source t -> keeps_to (reconcileHuskFork r k source) t.
Proof.
  intros Hp. apply guarded_bind. eapply guarded_mono; [apply calm_guarded; unfold Get, ask; walk|].
  intros [srcPod|e] t1 Hp1; [|exact I]. cbv beta in Hp1. apply (permitted_prefix _ _ _ _ Hp1) in Hp. clear Hp1.
  case_match; [exact I|]. apply guarded_bind. eapply guarded_mono; [by apply take_snapshot_guarded|]. intros [k'|e] t2 Hk; [|exact I].
  destruct (Hk _ eq_refl) as [Hp2 Hs2]. clear Hk Hp. cbv zeta. apply guarded_bind.
  eapply guarded_mono; [apply (slots_guarded _ 0); [done|done|lia| |]|].
  - lia.
  - by intros f Hin%elem_of_nil.
  - intros forks t3 [Hp3 Hf]. apply guarded_bind, guarded_sys; [done|]. intros now. apply guarded_try.
    eapply guarded_mono; [apply StatusUpdate_fork|by intros [x|x] t4 _].
    intros f Hin. destruct (Hf f Hin) as [(nm & Hnm)|Hb].
    + apply recorded_lookup in Hnm as [Hnm|Hnm]; [|by rewrite lookup_empty in Hnm]. left. exists k'. split; [|done].
      eapply seen_fork_prefix; [|apply Hp2]. by apply prefix_snoc.
    + right. eapply backed_fork_prefix; [|exact Hb]. by apply prefix_snoc.
Qed.

(** ** A fork of a forkd *)

Section raw.
Context (dial : string -> option tls_config -> res unit conn) (conv : SpecFloat.spec_float -> Z).

Lemma fork_once_guarded k0 k source node id t :
  permitted k0 source t -> fk_meta k = fk_meta k0 ->
  keeps_guard (fork_once dial conv k source node id)
    (fun x t' => t `prefix_of` t' /\ forall f, x = Ok f -> backed_fork f t') t.
Proof.
  intros Hp Hm. apply guarded_try. eapply guarded_mono; [by apply mint_guarded|]. intros [token|e] t1 [Hp1 Hk]; [|done].
  specialize (Hk _ eq_refl). apply (permitted_prefix _ _ _ _ Hp1) in Hp. apply guarded_try. unfold forkRunningOnNode. apply guarded_try.
  eapply guarded_mono; [apply calm_guarded; unfold connect; walk|]. intros [c|e] t2 Hp2; cbv beta in Hp2; [|by split; [etrans|]].
  apply (permitted_prefix _ _ _ _ Hp2) in Hp. apply (minted_prefix _ _ _ Hp2) in Hk.
  apply guarded_try. unfold call_forkd, ask. apply guarded_bind, guarded_sys; [split; [done|]; by exists k0, source|]. intros x. apply guarded_ret.
  set (t3 := t2 ++ _). assert (t2 `prefix_of` t3) as Hp3 by (by apply prefix_snoc).
  assert (t `prefix_of` t3) as H03 by (etrans; [exact Hp1|]; by etrans).
  destruct x as [[[[sid ep] ms] ck]|code]; [|by split]. apply guarded_ret.
  set (q := Forkd.QForkRunning _ _ _ _) in t3.
  assert (ev (KForkd c q) (Ok (sid, ep, ms, ck)) ∈ t3) as Hf by apply last_in. clearbody t3. apply guarded_try.
  eapply guarded_mono; [by apply store_token_guarded|]. intros [u|e] t4 [Hp4 Hst]; [apply guarded_ret|]; (split; [by etrans|]); [|done].
  intros f [= <-]. specialize (Hst eq_refl). assert (t2 `prefix_of` t4) as H24 by (by etrans). exists k0, token.
  split; [eapply seen_fork_prefix; [exact H24|apply Hp]|]. split; [by eapply minted_prefix|].
  split; [unfold fork_ref in *; rewrite Hm in Hst; exact Hst|]. right. do 7 eexists. split; [exact (in_prefix _ _ _ Hp4 Hf)|done].
Qed.

Lemma fork_loop_guarded n i k0 k source node t :
  permitted k0 source t -> fk_meta k = fk_meta k0 -> recorded_ok k t ->
  keeps_guard (fork_loop dial conv n i k source node) (fun k' t' => recorded_ok k' t') t.
Proof.
  revert i k t. induction n as [|n IH]; intros i k t Hp Hm Hr; cbn [fork_loop]; [by apply guarded_ret|].
  apply guarded_bind. eapply guarded_mono; [by apply (fork_once_guarded k0)|]. intros x t1 [Hp1 Hx].
  assert (forall f, f ∈ Forks (fk_status k) -> (exists k0, seen_fork k0 t1 /\ f ∈ Forks (fk_status k0)) \/ backed_fork f t1) as Hold.
  { intros f Hin. destruct (Hr f Hin) as [(k1 & Hk1 & H)|Hb]; [left; exists k1|right]; eauto using seen_fork_prefix, backed_fork_prefix. }
  apply IH; [by eapply permitted_prefix|by destruct x|]. destruct x as [f|e]; [|exact Hold].
  intros f' [Hin|Hin%list_elem_of_singleton]%elem_of_app; [by apply Hold|]. subst f'. right. by apply Hx.
Qed.

Lemma reconcile_raw_fork_guarded k source t : permitted k source t -> keeps_to (reconcile_raw_fork dial conv k source) t.
Proof.
  intros Hp. apply guarded_bind, guarded_atomic. intros [node|]; [|exact I]. apply guarded_try.
  eapply guarded_mono; [apply calm_guarded; unfold Get, ask; walk|]. intros [pool|e] t1 Hp1; cbv beta in Hp1; [|exact I].
  apply guarded_try. eapply guarded_mono; [apply calm_guarded; unfold Get, ask; walk|]. intros [tm|e] t2 Hp2; cbv beta in Hp2; [|exact I].
  assert (permitted k source t2) as Hp' by (eapply permitted_prefix; [|exact Hp]; by etrans). apply guarded_bind.
  eapply guarded_mono; [apply (fork_loop_guarded _ _ k); [done|done|by apply (same_forks k); [apply Hp'|]]|]. intros k' t3 Hr.
  apply guarded_bind, guarded_sys; [done|]. intros now. apply guarded_try. eapply guarded_mono; [apply StatusUpdate_fork|by intros [x|x] t4 _].
  intros f Hin. destruct (Hr f Hin) as [(k1 & Hk1 & H)|Hb]; [left; exists k1|right].
  - split; [|done]. eapply seen_fork_prefix; [|exact Hk1]. by apply prefix_snoc.
  - eapply backed_fork_prefix; [|exact Hb]. by apply prefix_snoc.
Qed.

(** ** Reconcile *)

Lemma reconcile_fork_guarded k t : seen_fork k t -> keeps_to (reconcile_fork dial conv r k) t.
Proof.
  intros Hk. unfold reconcile_fork. case_match; [exact I|]. case_match; [exact I|]. apply guarded_try.
  unfold Get. apply guarded_bind, guarded_sys; [done|]. intros [source| |]; apply guarded_ret; [|exact I..]. set (t1 := t ++ _).
  assert (ev (KGet KClaim (Namespace (fk_meta k)) (SourceRef (fk_spec k))) (Found source) ∈ t1) as Hs by apply last_in.
  apply (seen_fork_prefix _ _ t1) in Hk; [|by apply prefix_snoc]. clearbody t1. cbn [fetched]. apply guarded_try.
  eapply guarded_mono; [by apply secret_gate_guarded|]. intros [[k'|]|e] t2 Hgate; [|exact I..]. destruct (Hgate _ eq_refl) as [Hk' Hg].
  destruct (String.eqb (Phase (cl_status source)) Gc.SandboxReady) eqn:Hph; cbn [negb]; [|exact I]. apply String.eqb_eq in Hph.
  assert (permitted k' source t2) as Hp by (split; [done|]; split; [done|]; by exists k).
  destruct (EnableHuskPods r); [by apply reconcileHuskFork_guarded|by apply reconcile_raw_fork_guarded].
Qed.

Lemma fork_Reconcile_guarded namespace nm : keeps_to (Reconcile dial conv r namespace nm) [].
Proof.
  apply guarded_bind, guarded_sys; [done|]. intros [k| |]; [|exact I..]. case_match; [|case_match].
  - eapply guarded_mono; [apply calm_guarded|done]. unfold finalizeHuskFork, remove_snapshot, on_husk, Update, Get, ask. walk.
  - eapply guarded_mono; [apply calm_guarded|done]. unfold Update, ask. walk.
  - apply reconcile_fork_guarded. left. exists namespace, nm. left.
Qed.
End raw.
End guard.

(** Reconciles of the forks of these names, served concurrently. *)
Definition fork_reconciles dial conv (r : ForkConfig) (requests : list (string * string)) : list (prog controller unit) :=
  (fun '(namespace, nm) => _ ← Reconcile dial conv r namespace nm; mret tt) <$> requests.

Lemma fork_reconciles_guarded dial conv (r : ForkConfig) requests g n :
  rtc (pool_step anything) (mkNode (fork_reconciles dial conv r requests) g []) n ->
  exists tt : tagged, n_trace n = tt.*2 /\
  forall pre i c x post, tt = pre ++ (i, Ev c x) :: post -> fork_ok r (own i pre) c.
Proof.
  intros Hrtc. destruct (pool_guarded anything (fork_ok r) (fork_reconciles dial conv r requests) g n) as (tt & Ht & Hok); [|exact Hrtc|].
  - apply Forall_forall. intros p ([namespace nm] & <- & _)%in_map_iff. apply guarded_bind. apply fork_Reconcile_guarded.
  - exists tt. split; [done|]. intros pre i c x post Heq. apply (Hok _ _ _ _ _ Heq).
Qed.


(** C15. A fork has a fixed set of children, and what its status records is there.  A
    reconcile creates only pods of the fork's own slots, numbered below its
    replicas, after the snapshot was taken; it activates only a pod it found under
    such a name, with a token just minted; and every fork a status records was
    recorded before, or was activated (or forked by its forkd) and had its token
    handed over in its own Secret by this reconcile. *)
Theorem fork_children_backed dial conv (r : ForkConfig) requests g n :
  rtc (pool_step anything) (mkNode (fork_reconciles dial conv r requests) g []) n ->
  exists tt : tagged, n_trace n = tt.*2 /\
  (forall pre i p x post, tt = pre ++ (i, ev (KCreate KPod p) x) :: post ->
     exists k source nm, permitted k source (own i pre) /\ snapshotted k (own i pre) /\ slot_of k nm /\
       p = buildForkChildPod k nm (child_options r k source)) /\
  (forall pre i addr q x post, tt = pre ++ (i, ev (KHusk addr (Control.HActivate q)) x) :: post ->
     minted (Control.a_Token q) (own i pre) /\ exists k nm child, snapshotted k (own i pre) /\ slot_of k nm /\
       ev (KGet KPod (Namespace (fk_meta k)) nm) (Found child) ∈ own i pre /\ addr = child_addr r child) /\
  (forall pre i k x post, tt = pre ++ (i, ev (KUpdateStatus KFork k) x) :: post -> recorded_ok r k (own i pre)).
Proof.
  intros Hrtc. destruct (fork_reconciles_guarded _ _ _ _ _ _ Hrtc) as (tt & Ht & Hok). exists tt. split; [exact Ht|]. split; [|split].
  - intros pre i p x post Heq. apply (Hok _ _ _ _ _ Heq).
  - intros pre i addr q x post Heq. destruct (Hok _ _ _ _ _ Heq) as (_ & Hm & k & source & nm & child & _ & Hs & Hn & Hg & Ha).
    split; [done|]. by exists k, nm, child.
  - intros pre i k x post Heq. apply (Hok _ _ _ _ _ Heq).
Qed.

End ForkGuard.

Module ForkExamples.
Import Registry Warm Kube Ctl Claims HuskPods Forks Guard ForkGuard.

Definition meta (ns nm : string) (finalizers : list string) : ObjectMeta :=
  mkMeta ns nm EmptyString ("uid-" +:+ nm) 1 1 ∅ ∅ finalizers [] None None.
Definition source (secrets : list SecretMount) : SandboxClaim :=
  mkClaim (meta "team" "dev" []) (mkClaimSpec "python" [] secrets [] None None EmptyString None "alice" false [])
    (mkClaimStatus Gc.SandboxReady "10.0.0.9:9091" "node-1" "python-husk-1" 0 (Some 0) None []).
Definition fork_of (ns : string) (replicas : Z) (allow : bool) (status : SandboxForkStatus) : SandboxFork :=
  mkFork (meta ns "x" [huskForkFinalizer]) (mkForkSpec "dev" replicas [] true allow) status.
Definition new_status : SandboxForkStatus := mkForkStatus 0 0 [] false None [].
Definition ready_pod (nm : string) : Pod :=
  mkPod (meta "team" nm []) (mkPodSpec EmptyString false EmptyString ∅ None [] [] "node-1")
    (mkPodStatus "Running" "10.0.0.7" [("Ready", "True")]).

Definition husk_forks : ForkConfig := mkForkConfig true true 0 0 "husk:1" EmptyString EmptyString "husk-tls" "mitos-ca".
Definition raw_forks : ForkConfig := mkForkConfig false true 0 0 EmptyString EmptyString EmptyString EmptyString EmptyString.

(** The fork, the source and every pod are there; the state counts the forks that
    are still going to fail. *)
Definition cluster (k : SandboxFork) (c : SandboxClaim) : env Z := fun q n =>
  match q return answer q * Z with
  | CCtl (KGet kd ns nm) =>
      (match kd return get_result (object kd) with
       | KFork => Found k | KClaim => Found c | KPod => Found (ready_pod nm) | _ => NotFound end, n)
  | CCtl (KForkd conn q) =>
      match q return res Z (Forkd.forkd_reply q) * Z with
      | Forkd.QForkRunning _ id _ _ => if 0 <? n then (Err 13, n - 1) else (Ok (id, EmptyString, f64_one, f64_one), n)
      | q => (Ok (forkd_ok q), n)
      end
  | q => let '(x, _) := obliging q 0 in (x, n)
  end.
Definition node_1 : NodeInfo :=
  mkNodeInfo "node-1" "10.1.0.1:9090" "10.1.0.1:9091" EmptyString 0 10 0 0 [] [] ∅ ∅ (Some 0) 0 None None.
Definition idle : controller :=
  mkController (mkRegistry {["node-1" := node_1]} None (f64_of_int 1)) (mkDemand ∅) ∅ ∅.
Definition ex_dial (endpoint : string) (creds : option tls_config) : res unit conn := Ok (mkConn endpoint creds 1).

Abbreviation requests c := (fork_reconciles ex_dial (fun _ => 0) c [("team", "x")]).
Definition reconciled (c : ForkConfig) (k : SandboxFork) (s : SandboxClaim) : node controller :=
  (schedule (cluster k s) (replicate 80 0%nat) (mkNode (requests c) idle []) 0).1.

Definition snapshots (t : trace) : list string :=
  omap (fun e => match e with Ev (CCtl (KHusk _ (Control.HForkSnapshot q))) _ => Some (Control.fs_SnapshotDir q) | _ => None end) t.
Definition forked (t : trace) : list (list string) :=
  omap (fun e => match e with
                 | Ev (CCtl (KUpdateStatus k o)) _ =>
                     match k return object k -> option (list string) with
                     | KFork => fun k => Some (map fi_Name (Forks (fk_status k))) | _ => fun _ => None end o
                 | _ => None
                 end) t.

Definition one_secret : list SecretMount := [mkSecretMount "key" (mkSelector "s" "k") EmptyString].


(** Both children of a fork are found ready and activated. *)
Lemma fork_children_backed_witness :
  let n := reconciled husk_forks (fork_of "team" 2 false new_status) (source []) in
  forked (n_trace n) = [[]; ["x-fork-0"; "x-fork-1"]] /\
  exists tt : tagged, n_trace n = tt.*2 /\
  (forall pre i p x post, tt = pre ++ (i, ev (KCreate KPod p) x) :: post ->
     exists k source nm, permitted k source (own i pre) /\ snapshotted k (own i pre) /\ slot_of k nm /\
       p = buildForkChildPod k nm (child_options husk_forks k source)) /\
  (forall pre i addr q x post, tt = pre ++ (i, ev (KHusk addr (Control.HActivate q)) x) :: post ->
     minted (Control.a_Token q) (own i pre) /\ exists k nm child, snapshotted k (own i pre) /\ slot_of k nm /\
       ev (KGet KPod (Namespace (fk_meta k)) nm) (Found child) ∈ own i pre /\ addr = child_addr husk_forks child) /\
  (forall pre i k x post, tt = pre ++ (i, ev (KUpdateStatus KFork k) x) :: post -> recorded_ok husk_forks k (own i pre)).
Proof.
  intros n. split; [vm_compute; reflexivity|].
  assert (rtc (pool_step anything) (mkNode (requests husk_forks) idle []) n) as Hrtc by apply schedule_rtc.
  clearbody n. by apply fork_children_backed in Hrtc.
Defined.

(** *** What the controller does not achieve *)

(** The host directory of a fork's snapshot is named by the fork alone: forks of one
    name in two namespaces share it, on a node that holds both sources. *)
Example snapshot_shared_across_namespaces :
  let volume ns := List.find (fun v => String.eqb v.1 "snapshot")
    (ps_Volumes (pd_spec (buildForkChildPod (fork_of ns 1 false new_status) "x-fork-0"
       (child_options husk_forks (fork_of ns 1 false new_status) (source []))))) in
  volume "team-a" = volume "team-b" /\ volume "team-a" = Some ("snapshot", HostPath "/var/lib/mitos/forks/x" DirectoryOrCreate).
Proof. vm_compute. done. Qed.

(** The raw loop counts the total up while it names forks by it: after three
    failures the next pass asks for a fork of a name it has already recorded. *)
Example raw_names_repeat :
  let k0 := fork_of "team" 4 false new_status in
  let '(k1, g, _, _) := run (cluster k0 (source [])) (fork_loop ex_dial (fun _ => 0) 4 0 k0 (source []) node_1) idle 3 in
  let '(k2, _, _, _) := run (cluster k0 (source [])) (fork_loop ex_dial (fun _ => 0) 3 0 k1 (source []) node_1) g 0 in
  (map fi_Name (Forks (fk_status k1)), map fi_Name (Forks (fk_status k2)))
    = (["x-fork-3"], ["x-fork-3"; "x-fork-1"; "x-fork-3"; "x-fork-5"]).
Proof. vm_compute. reflexivity. Qed.

(** A child that was lost is created again and carried forward as Ready without
    being activated. *)
Example lost_child_stays_ready :
  let info := mkForkInfo "x-fork-0" "x-fork-0" "10.0.0.7:9091" "node-1" Gc.SandboxReady 0 in
  let k := fork_of "team" 2 false (mkForkStatus 1 1 [info] true None []) in
  let absent : env Z := fun q n =>
    match q return answer q * Z with
    | CCtl (KGet kd _ _) =>
        (match kd return get_result (object kd) with
         | KPod => if 0 <? n then Found (ready_pod "x-fork-0") else NotFound | _ => NotFound end, 1)
    | q => obliging q n
    end in
  let '(x, _, _, t) := run absent (slot husk_forks k (child_options husk_forks k (source [])) {["x-fork-0" := info]} "x-fork-0") idle 0 in
  (x, length t) = (Some info, 3%nat).
Proof. vm_compute. reflexivity. Qed.
End ForkExamples.
