(* ===== verification/WorkspaceController.v ===== *)
(** The workspace controller and verbs (internal/controller:
    workspace_controller.go, workspace_verbs.go).

    - [Workspaces]: adopting and committing revisions, the head, the retention of
      revisions, the reconcile that composes them, and the Fork and Revert verbs.
    - [WorkspaceFacts]: the head is the last of the revisions in order, its lineage
      is found whole, and retention deletes exactly what it should. *)
From S2P Require Import Prelude GoLib GoFs Scheduler Autoscale Gc Cas Wire Host Guarded Controller ClaimController.
#[local] Open Scope go_scope.

Module Workspaces.
Import Registry Chunk Kube Ctl Binding.

Definition ReasonWorkspaceReady : string := "WorkspaceReady".
Definition ReasonWorkspacePending : string := "WorkspacePending".
Definition ReasonWorkspaceDegraded : string := "WorkspaceDegraded".
Definition ReasonRevisionCommitted : string := "RevisionCommitted".
Definition ReasonRevisionPending : string := "RevisionPending".

(** ** The order of revisions *)

(** time.Before; the zero time is before every other. *)
Definition time_before (a b : time) : bool :=
  match a, b with
  | None, Some _ => true
  | Some x, Some y => x <? y
  | _, None => false
  end.

Definition rev_name (v : WorkspaceRevision) : string := Name (rv_meta v).
Definition revisionLess (a b : WorkspaceRevision) : bool :=
  let at_ := CreationTimestamp (rv_meta a) in
  let bt := CreationTimestamp (rv_meta b) in
  if bool_decide (at_ = bt) then String.ltb (rev_name a) (rev_name b) else time_before at_ bt.

Definition committedRevisions (revs : list WorkspaceRevision) : list WorkspaceRevision :=
  List.filter (fun v => String.eqb (rv_Phase (rv_status v)) WorkspaceRevisionCommitted) revs.

Definition headRevision (committed : list WorkspaceRevision) : option WorkspaceRevision :=
  match committed with
  | [] => None
  | v :: rest => Some (fold_left (fun head w => if revisionLess head w then w else head) rest v)
  end.

Definition headName (head : option WorkspaceRevision) : string :=
  match head with None => EmptyString | Some v => rev_name v end.

(** ** The lineage of the head *)

Definition by_name (committed : list WorkspaceRevision) : gmap string WorkspaceRevision :=
  fold_left (fun m v => <[rev_name v := v]> m) committed ∅.

Definition parent_name (v : WorkspaceRevision) : option string := rr_Revision <$> FromWorkspaceRevision (rv_spec v).

(** Out of fuel is [None]. *)
Fixpoint lineage (fuel : nat) (byName : gmap string WorkspaceRevision) (cur : option WorkspaceRevision) (protected : gset string)
  : option (gset string) :=
  match fuel with
  | O => None
  | S fuel =>
      match cur with
      | None => Some protected
      | Some v =>
          if bool_decide (rev_name v ∈ protected) then Some protected
          else
            let protected := {[ rev_name v ]} ∪ protected in
            match parent_name v with
            | None => Some protected
            | Some p => lineage fuel byName (byName !! p) protected
            end
      end
  end.
Definition headLineage (committed : list WorkspaceRevision) (head : option WorkspaceRevision) : option (gset string) :=
  lineage (length committed + 2) (by_name committed) head ∅.

(** ** Revisions *)

Definition with_rv_meta (f : ObjectMeta -> ObjectMeta) (v : WorkspaceRevision) : WorkspaceRevision :=
  mkRevision (f (rv_meta v)) (rv_spec v) (rv_status v).
Definition with_rv_phase (phase : string) (generation : Z) (c : Condition) (v : WorkspaceRevision) : WorkspaceRevision :=
  let s := rv_status v in
  mkRevision (rv_meta v) (rv_spec v)
    (mkRevisionStatus phase (DiffSummary s) (GitPushes s) (Gc.setCondition (rv_Conditions s) c).1 generation).

Definition owned_by_workspace (ws : Workspace) (v : WorkspaceRevision) : bool :=
  existsb (fun o => String.eqb (or_Kind o) "Workspace" && String.eqb (or_Name o) (Name (ws_meta ws))) (OwnerReferences (rv_meta v)).

(** Also the revision as the server returned it. *)
Definition adoptRevision (v : WorkspaceRevision) (ws : Workspace) : prog controller (res ctl_error WorkspaceRevision) :=
  let hasLabel := String.eqb (label WorkspaceLabel (rv_meta v)) (Name (ws_meta ws)) in
  let hasOwner := owned_by_workspace ws v in
  if hasLabel && hasOwner then mret (Ok v)
  else
    let m := with_labels (<[WorkspaceLabel := Name (ws_meta ws)]> (Labels (rv_meta v))) (rv_meta v) in
    match (if hasOwner then Some m else SetControllerReference (controller_ref "Workspace" (ws_meta ws)) m) with
    | None => mret (Err (EOwned (rev_name v)))
    | Some m => Patch KRevision v (with_rv_meta (fun _ => m) v) false
    end.

Section workspaces.
(** The %q of a name; the memory adapter, when there is one. *)
Variable quoted : string -> string.
Variable memory : option Hooks.

(** The message of a broken edge. *)
Definition validateLineage (v : WorkspaceRevision) : prog controller (res string unit) :=
  match FromWorkspaceRevision (rv_spec v) with
  | None => mret (Ok tt)
  | Some src =>
      p ← Get KRevision (Namespace (rv_meta v)) (rr_Revision src);
      mret (match p with
            | Err _ => Err ("fromWorkspaceRevision references revision " +:+ quoted (rr_Revision src) +:+ " which does not exist")
            | Ok parent =>
                if negb (String.eqb (rv_WorkspaceRef (rv_spec parent)) (rr_Workspace src)) then
                  Err ("fromWorkspaceRevision parent " +:+ quoted (rr_Revision src) +:+ " belongs to workspace "
                         +:+ quoted (rv_WorkspaceRef (rv_spec parent)) +:+ ", not the referenced " +:+ quoted (rr_Workspace src))
                else Ok tt
            end)
  end.

Definition revisionStatusChanged (v : WorkspaceRevision) (phase reason msg : string) (committed : bool) : bool :=
  if negb (String.eqb (rv_Phase (rv_status v)) phase) || negb (rv_ObservedGeneration (rv_status v) =? Generation (rv_meta v)) then true
  else match List.find (fun c => String.eqb (Gc.cond_Type c) "Ready") (rv_Conditions (rv_status v)) with
       | None => true
       | Some c =>
           negb (String.eqb (Gc.cond_Reason c) reason) || negb (String.eqb (Gc.cond_Message c) msg)
           || negb (String.eqb (Gc.cond_Status c) (conditionStatus committed))
       end.

(** The phase a revision is driven to. *)
Definition desired_phase (v : WorkspaceRevision) (lineageOK : bool) : string :=
  let manifest := ContentManifest (rv_spec v) in
  let manifestValid := negb (String.eqb manifest EmptyString) && Validate manifest in
  if String.eqb (rv_Phase (rv_status v)) WorkspaceRevisionCommitted then WorkspaceRevisionCommitted
  else if manifestValid && lineageOK then WorkspaceRevisionCommitted
  else WorkspaceRevisionPending.
Definition revision_message (v : WorkspaceRevision) (lineage_ : res string unit) (committed : bool) : string :=
  if committed then "contentManifest is a valid content-addressed digest"
  else match lineage_ with
       | Err msg => msg
       | Ok _ => if String.eqb (ContentManifest (rv_spec v)) EmptyString then "awaiting contentManifest from dehydrate"
                 else "contentManifest is not a valid content-addressed digest"
       end.

Definition reconcileRevision (v : WorkspaceRevision) : prog controller (res ctl_error bool) :=
  l ← validateLineage v;
  let lineageOK := is_ok l in
  let phase := desired_phase v lineageOK in
  let committed := String.eqb phase WorkspaceRevisionCommitted in
  let reason := if committed then ReasonRevisionCommitted else ReasonRevisionPending in
  let msg := revision_message v l committed in
  if revisionStatusChanged v phase reason msg committed then
    now ← sys CNow;
    must _ := StatusPatch KRevision v
      (with_rv_phase phase (Generation (rv_meta v))
         (Gc.mkCondition "Ready" (conditionStatus committed) (Generation (rv_meta v)) (Some now) reason msg) v) in
    mret (Ok lineageOK)
  else mret (Ok lineageOK).

Definition workspaceRevisions (ws : Workspace) : prog controller (res ctl_error (list WorkspaceRevision)) :=
  must all := List_ KRevision (Namespace (ws_meta ws)) [] in
  mret (Ok (List.filter (fun v => String.eqb (rv_WorkspaceRef (rv_spec v)) (Name (ws_meta ws))) all)).

(** Whether every lineage is valid. *)
Fixpoint drive (ws : Workspace) (revs : list WorkspaceRevision) (lineageOK : bool) : prog controller (res ctl_error bool) :=
  match revs with
  | [] => mret (Ok lineageOK)
  | v :: revs =>
      must v := adoptRevision v ws in
      must ok := reconcileRevision v in
      drive ws revs (lineageOK && ok)
  end.

(** ** Retention *)

(** Whether a revision may be pruned. *)
Definition prunable (ws : Workspace) (protected : gset string) (now : Z) (v : WorkspaceRevision) : bool :=
  negb (bool_decide (rev_name v ∈ protected))
  && match MinAge ws with
     | Some age => negb (since now (CreationTimestamp (rv_meta v)) <? age)
     | None => true
     end.

Fixpoint prune (ws : Workspace) (protected : gset string) (now : Z) (sorted : list WorkspaceRevision) (excess : nat)
  : prog controller (res ctl_error unit) :=
  match sorted, excess with
  | [], _ | _, O => mret (Ok tt)
  | v :: sorted, S n =>
      if prunable ws protected now v then
        must _ := Delete KRevision v None in prune ws protected now sorted n
      else prune ws protected now sorted excess
  end.

Definition enforceRetention (ws : Workspace) (committed : list WorkspaceRevision) (head : option WorkspaceRevision)
  : prog controller (res ctl_error unit) :=
  let keep := RetentionRevisions ws in
  let count := i32 (Z.of_nat (length committed)) in
  if (keep <=? 0) || (count <=? keep) then mret (Ok tt)
  else
    match headLineage committed head with
    | None => mret (Err EPanic)
    | Some protected =>
        now ← sys CNow;
        prune ws protected now (sort_by revisionLess committed) (Z.to_nat (i32 (count - keep)))
    end.

(** ** Reconcile *)

Definition head_resumable (head : option WorkspaceRevision) : prog controller bool :=
  match head with
  | None => mret false
  | Some v =>
      match MemorySnapshotRef (rv_spec v) with
      | None => mret false
      | Some ref =>
          e ← memorySnapshotExists memory ref (default EmptyString (MemorySnapshotPrincipal (rv_spec v)));
          mret (match e with Ok b => b | Err _ => false end)
      end
  end.

Definition ready_condition (ws : Workspace) (lineageOK : bool) (committed : list WorkspaceRevision) (head : option WorkspaceRevision) (now : Z)
  : Condition :=
  let '(status, reason, msg) :=
    if negb lineageOK then ("False", ReasonWorkspaceDegraded, "a revision has a broken fromWorkspaceRevision lineage edge")
    else match head with
         | None => ("False", ReasonWorkspacePending, "no committed revision yet")
         | Some _ => ("True", ReasonWorkspaceReady,
                      format_d (Z.of_nat (length committed)) +:+ " committed revision(s); head " +:+ quoted (headName head))
         end in
  Gc.mkCondition "Ready" status (Generation (ws_meta ws)) (Some now) reason msg.

Definition with_ws_status (s : WorkspaceStatus) (ws : Workspace) : Workspace :=
  mkWorkspace (ws_meta ws) (Git ws) (RetentionRevisions ws) (MinAge ws) s.

Definition report (ws : Workspace) (lineageOK : bool) (committed : list WorkspaceRevision) (head : option WorkspaceRevision)
    (resumable : bool) (now : Z) : Workspace :=
  with_ws_status (mkWorkspaceStatus (headName head) (i32 (Z.of_nat (length committed))) resumable
    (Gc.setCondition (ws_Conditions (ws_status ws)) (ready_condition ws lineageOK committed head now)).1 (Generation (ws_meta ws))) ws.

Definition Reconcile (namespace name_ : string) : prog controller (res ctl_error Result) :=
  w ← ask (KGet KWorkspace namespace name_);
  match w with
  | NotFound => mret done
  | GetFailed => mret (Err (EApi AFailed))
  | Found ws =>
      must revs := workspaceRevisions ws in
      must lineageOK := drive ws revs true in
      must revs := workspaceRevisions ws in
      let committed := committedRevisions revs in
      let head := headRevision committed in
      resumable ← head_resumable head;
      now ← sys CNow;
      must ws := StatusPatch KWorkspace ws (report ws lineageOK committed head resumable now) in
      _ ← enforceRetention ws committed head;
      mret done
  end.

End workspaces.

(** ** The verbs *)

Inductive rejection :=
| RevisionNotFound | RevisionWorkspaceMismatch | RevisionNotCommitted | WorkspaceNotFound
| CreateFailed (e : ctl_error).

Definition fork_revision (namespace srcWorkspace srcRevision dstWorkspace manifest : string) : WorkspaceRevision :=
  mkRevision (new_meta namespace EmptyString (dstWorkspace +:+ "-") {[WorkspaceLabel := dstWorkspace]} ∅)
    (mkRevisionSpec dstWorkspace EmptyString (Some (mkRevisionRef srcWorkspace srcRevision)) manifest None None)
    (mkRevisionStatus WorkspaceRevisionPending None [] [] 0).

Definition Fork {G} (namespace srcWorkspace srcRevision dstWorkspace : string) : prog G (res rejection WorkspaceRevision) :=
  p ← Get KRevision namespace srcRevision;
  match p with
  | Err _ => mret (Err RevisionNotFound)
  | Ok parent =>
      let manifest := ContentManifest (rv_spec parent) in
      if negb (String.eqb (rv_WorkspaceRef (rv_spec parent)) srcWorkspace) then mret (Err RevisionWorkspaceMismatch)
      else if negb (String.eqb (rv_Phase (rv_status parent)) WorkspaceRevisionCommitted) || negb (Validate manifest)
      then mret (Err RevisionNotCommitted)
      else
        d ← Get KWorkspace namespace dstWorkspace;
        match d with
        | Err _ => mret (Err WorkspaceNotFound)
        | Ok _ =>
            c ← Create KRevision (fork_revision namespace srcWorkspace srcRevision dstWorkspace manifest);
            mret (match c with Ok rev => Ok rev | Err e => Err (CreateFailed e) end)
        end
  end.

Definition Revert {G} (namespace workspace targetRevision : string) : prog G (res rejection WorkspaceRevision) :=
  Fork namespace workspace targetRevision workspace.

(** The workspace to reconcile when a revision changed. *)
Definition revisionToWorkspace (v : WorkspaceRevision) : list (string * string) :=
  if String.eqb (rv_WorkspaceRef (rv_spec v)) EmptyString then []
  else [(Namespace (rv_meta v), rv_WorkspaceRef (rv_spec v))].

End Workspaces.

Module WorkspaceFacts.
Import Registry Chunk Kube Ctl Binding Workspaces.

(** ** The order *)

Lemma time_before_irrefl a : time_before a a = false.
Proof. destruct a; cbn; [apply Z.ltb_irrefl|done]. Qed.
Lemma time_before_trans a b c : time_before a b = true -> time_before b c = true -> time_before a c = true.
Proof. destruct a, b, c; cbn; try done. rewrite !Z.ltb_lt. lia. Qed.
Lemma time_before_total a b : a <> b -> time_before a b = true \/ time_before b a = true.
Proof. destruct a as [x|], b as [y|]; cbn; try done; auto. intros Hne. rewrite !Z.ltb_lt. assert (x <> y) by congruence. lia. Qed.

Lemma revisionLess_irrefl a : revisionLess a a = false.
Proof. unfold revisionLess. rewrite bool_decide_eq_true_2 by done. apply ltb_irrefl. Qed.

Lemma revisionLess_trans a b c : revisionLess a b = true -> revisionLess b c = true -> revisionLess a c = true.
Proof.
  unfold revisionLess. set (x := CreationTimestamp (rv_meta a)). set (y := CreationTimestamp (rv_meta b)).
  set (z := CreationTimestamp (rv_meta c)). clearbody x y z. do 2 case_bool_decide; subst.
  - rewrite bool_decide_eq_true_2 by done. apply ltb_trans.
  - rewrite bool_decide_eq_false_2 by done. auto.
  - rewrite bool_decide_eq_false_2 by done. auto.
  - intros H1 H2. case_bool_decide; subst; [|by eapply time_before_trans].
    pose proof (time_before_trans _ _ _ H1 H2) as H3. by rewrite time_before_irrefl in H3.
Qed.

Lemma revisionLess_asym a b : revisionLess a b = true -> revisionLess b a = false.
Proof.
  intros H. apply not_true_iff_false. intros H2. pose proof (revisionLess_trans _ _ _ H H2) as H3. by rewrite revisionLess_irrefl in H3.
Qed.

Lemma revisionLess_total a b : rev_name a <> rev_name b -> revisionLess a b = true \/ revisionLess b a = true.
Proof.
  intros Hne. unfold revisionLess. case_bool_decide as Ht.
  - rewrite bool_decide_eq_true_2 by done. by apply ltb_total.
  - rewrite bool_decide_eq_false_2 by done. by apply time_before_total.
Qed.

(** Revisions neither of which is less are of one time and name. *)
Lemma revisionLess_tie a b : revisionLess a b = false -> revisionLess b a = false ->
  CreationTimestamp (rv_meta a) = CreationTimestamp (rv_meta b) /\ rev_name a = rev_name b.
Proof.
  intros H1 H2. destruct (decide (rev_name a = rev_name b)) as [Hn|Hn]; [|by destruct (revisionLess_total a b Hn); congruence].
  split; [|done]. destruct (decide (CreationTimestamp (rv_meta a) = CreationTimestamp (rv_meta b))) as [Ht|Ht]; [done|].
  unfold revisionLess in H1, H2. rewrite bool_decide_eq_false_2 in H1, H2 by congruence. destruct (time_before_total _ _ Ht); congruence.
Qed.

Lemma revisionLess_negtrans a b c : revisionLess b a = false -> revisionLess c b = false -> revisionLess c a = false.
Proof.
  intros H1 H2. apply not_true_iff_false. intros H3.
  destruct (revisionLess a b) eqn:Hab; [pose proof (revisionLess_trans _ _ _ H3 Hab); congruence|].
  destruct (revisionLess_tie _ _ Hab H1) as [Ht Hn]. unfold revisionLess in H2, H3. rewrite <-Ht, <-Hn in H2. congruence.
Qed.

Lemma sorted_in_order l : in_order revisionLess (sort_by revisionLess l).
Proof. apply sort_by_in_order; [apply revisionLess_asym|apply revisionLess_negtrans]. Qed.

(** ** The head *)

Lemma headRevision_max l v :
  headRevision l = Some v -> v ∈ l /\ forall w, w ∈ l -> revisionLess v w = false.
Proof.
  destruct l as [|a l]; [done|]. intros [= <-]. revert a. induction l as [|b l IH]; intros a; cbn [fold_left].
  - split; [left|]. intros w Hw%list_elem_of_singleton. subst. apply revisionLess_irrefl.
  - destruct (revisionLess a b) eqn:Hab.
    + destruct (IH b) as [Hin Hmax]. split; [by right|]. intros w [->|Hw]%elem_of_cons; [|by apply Hmax].
      assert (revisionLess (fold_left (fun head w => if revisionLess head w then w else head) l b) b = false) as Hb by (apply Hmax; left).
      eapply (revisionLess_negtrans _ b); [by apply revisionLess_asym|exact Hb].
    + destruct (IH a) as [Hin Hmax]. split; [apply elem_of_cons in Hin as [->|?]; [left|right; by right]|].
      intros w [->|[->|Hw]%elem_of_cons]%elem_of_cons; [apply Hmax; left| |apply Hmax; by right].
      assert (revisionLess (fold_left (fun head w => if revisionLess head w then w else head) l a) a = false) as Ha by (apply Hmax; left).
      by eapply revisionLess_negtrans.
Qed.

Lemma in_order_last l v w : in_order revisionLess (l ++ [v]) -> w ∈ l ++ [v] -> revisionLess v w = false.
Proof.
  induction l as [|a l IH]; cbn; intros H Hw.
  - apply list_elem_of_singleton in Hw as ->. apply revisionLess_irrefl.
  - inversion H as [|? ? Hl Ha]; subst. apply elem_of_cons in Hw as [->|Hw]; [|by apply IH].
    rewrite Forall_forall in Ha. apply Ha. apply in_or_app. right. by left.
Qed.

Lemma same_name l v w : NoDup (map rev_name l) -> v ∈ l -> w ∈ l -> rev_name v = rev_name w -> v = w.
Proof.
  intros Hnd Hv Hw Hn. apply list_elem_of_In in Hv, Hw. induction l as [|a l IH]; [done|]. cbn in Hnd.
  apply list.NoDup_cons in Hnd as [Ha Hnd]. destruct Hv as [->|Hv], Hw as [->|Hw]; [done| | |by apply IH].
  - destruct Ha. rewrite Hn. apply list_elem_of_In. by apply in_map.
  - destruct Ha. rewrite <-Hn. apply list_elem_of_In. by apply in_map.
Qed.

(** C32. The head is the last of the revisions in order: the linear scan and the sort
    that retention works from agree, as long as no two revisions have one name. *)
Theorem headRevision_sorted l :
  NoDup (map rev_name l) -> headRevision l = list.last (sort_by revisionLess l).
Proof.
  intros Hnd. pose proof (sorted_in_order l) as Hord. pose proof (sort_by_perm revisionLess l) as Hperm.
  destruct (sort_by revisionLess l) as [|v s _] using rev_ind.
  { apply Permutation_nil_l in Hperm. by subst l. }
  rewrite last_snoc. destruct (headRevision l) as [h|] eqn:Hh.
  2: { destruct l; [|done]. apply Permutation_nil_r in Hperm. by destruct s. }
  destruct (headRevision_max _ _ Hh) as [Hin Hmax]. f_equal.
  assert (v ∈ l) as Hv by (rewrite <-Hperm; apply elem_of_app; right; by left).
  assert (revisionLess v h = false) as H1 by (eapply in_order_last; [exact Hord|by rewrite Hperm]).
  destruct (revisionLess_tie _ _ (Hmax v Hv) H1) as [_ Hn]. by apply (same_name l).
Qed.

(** ** The lineage *)

(** The committed revision that a revision comes from. *)
Definition parent_in (l : list WorkspaceRevision) (v w : WorkspaceRevision) : Prop :=
  exists p, parent_name v = Some p /\ by_name l !! p = Some w.

Lemma revisions_fold l (m : gmap string WorkspaceRevision) nm v :
  fold_left (fun m v => <[rev_name v := v]> m) l m !! nm = Some v -> (v ∈ l /\ rev_name v = nm) \/ m !! nm = Some v.
Proof.
  revert m. induction l as [|a l IH]; intros m; cbn; [by right|]. intros H. destruct (IH _ H) as [[Hin Hn]|Hm]; [left; split; [by right|done]|].
  destruct (decide (rev_name a = nm)) as [Hn|Hn]; [|rewrite lookup_insert_ne in Hm by done; by right].
  subst nm. rewrite lookup_insert_eq in Hm. injection Hm as ->. left. split; [left|done].
Qed.
Lemma by_name_in l nm v : by_name l !! nm = Some v -> v ∈ l /\ rev_name v = nm.
Proof. intros H. destruct (revisions_fold _ _ _ _ H) as [?|Hm]; [done|]. by rewrite lookup_empty in Hm. Qed.

Section lineage.
Context (l : list WorkspaceRevision) (Hnd : NoDup (map rev_name l)).
Abbreviation names := (list_to_set (map rev_name l) : gset string).

Lemma name_in v : v ∈ l -> rev_name v ∈ names.
Proof. intros Hv. apply elem_of_list_to_set, list_elem_of_In. apply in_map. by apply list_elem_of_In. Qed.

(** The walk ends, within one step for every name it has not seen, and what it
    returns is closed under parents and reached from where it started. *)
Lemma lineage_walk fuel cur (seen : gset string) :
  (size (names ∖ seen) < fuel)%nat -> (forall v, cur = Some v -> v ∈ l) ->
  (forall w w', w ∈ l -> rev_name w ∈ seen -> parent_in l w w' -> rev_name w' ∈ seen \/ cur = Some w') ->
  exists s, lineage fuel (by_name l) cur seen = Some s /\ seen ⊆ s /\ (forall v, cur = Some v -> rev_name v ∈ s) /\
    (forall w w', w ∈ l -> rev_name w ∈ s -> parent_in l w w' -> rev_name w' ∈ s) /\
    (forall nm, nm ∈ s -> nm ∈ seen \/ exists v w, cur = Some v /\ rtc (parent_in l) v w /\ rev_name w = nm).
Proof.
  revert cur seen. induction fuel as [|fuel IH]; intros cur seen Hfuel Hcur Hclosed; [lia|]. cbn [lineage].
  destruct cur as [v|].
  2: { exists seen. split; [done|]. split; [done|]. split; [done|]. split; [|by left].
       intros w w' Hw Hs Hp. by destruct (Hclosed w w' Hw Hs Hp). }
  specialize (Hcur _ eq_refl). case_bool_decide as Hseen.
  { exists seen. split; [done|]. split; [done|]. split; [by intros ? [= <-]|]. split; [|by left].
    intros w w' Hw Hs Hp. destruct (Hclosed w w' Hw Hs Hp) as [?|[= <-]]; done. }
  set (seen' := {[rev_name v]} ∪ seen).
  assert (forall w w', w ∈ l -> rev_name w ∈ seen' -> parent_in l w w' -> rev_name w' ∈ seen' \/ parent_in l v w') as Hstep.
  { intros w w' Hw Hs Hp. apply elem_of_union in Hs as [Hs%elem_of_singleton|Hs].
    - right. by rewrite <-(same_name l w v).
    - left. destruct (Hclosed w w' Hw Hs Hp) as [?|[= ->]]; set_solver. }
  destruct (parent_name v) as [p|] eqn:Hpar.
  2: { exists seen'. split; [done|]. split; [set_solver|]. split; [intros ? [= <-]; set_solver|]. split.
       - intros w w' Hw Hs Hp. destruct (Hstep w w' Hw Hs Hp) as [?|(p & H & _)]; [done|congruence].
       - intros nm [->%elem_of_singleton|?]%elem_of_union; [right; by exists v, v|by left]. }
  destruct (IH (by_name l !! p) seen') as (s & Hs & Hsub & Hin & Hcl & Hreach).
  - assert (rev_name v ∈ names ∖ seen) as Hv by (apply elem_of_difference; split; [by apply name_in|done]).
    replace (names ∖ seen') with ((names ∖ seen) ∖ {[rev_name v]}) by set_solver.
    assert (size ({[rev_name v]} : gset string) <= size (names ∖ seen))%nat as Hone by (apply subseteq_size; set_solver).
    rewrite size_difference by set_solver. rewrite size_singleton in *. lia.
  - intros w Hw. by apply by_name_in in Hw as [? _].
  - intros w w' Hw Hs Hp. destruct (Hstep w w' Hw Hs Hp) as [?|(q & Hq & Hl)]; [by left|right]. congruence.
  - exists s. split; [exact Hs|]. split; [set_solver|]. split; [intros ? [= <-]; set_solver|]. split; [exact Hcl|].
    intros nm Hnm. destruct (Hreach nm Hnm) as [[->%elem_of_singleton|?]%elem_of_union|(u & w & Hu & Hr & Hn)]; [right; by exists v, v|by left|].
    right. exists v, w. split; [done|]. split; [|done]. eapply rtc_l; [|exact Hr]. by exists p.
Qed.
End lineage.

(** The walk over the head's ancestors ends, even around a cycle, and protects
    exactly the revisions reachable from the head. *)
Lemma headLineage_reached l head :
  NoDup (map rev_name l) -> head ∈ l ->
  exists s, headLineage l (Some head) = Some s /\
    forall nm, nm ∈ s <-> exists w, rtc (parent_in l) head w /\ rev_name w = nm.
Proof.
  intros Hnd Hh. destruct (lineage_walk l Hnd (length l + 2) (Some head) ∅) as (s & Hs & _ & Hin & Hcl & Hreach).
  - assert (size (list_to_set (map rev_name l) : gset string) <= length l)%nat as Hsz.
    { rewrite size_list_to_set by done. by rewrite length_map. }
    rewrite difference_empty_L. lia.
  - by intros v [= <-].
  - intros w w' _ H. by apply elem_of_empty in H.
  - exists s. split; [exact Hs|]. intros nm. split.
    + intros Hnm. destruct (Hreach nm Hnm) as [H|(v & w & [= <-] & Hr & Hn)]; [by apply elem_of_empty in H|eauto].
    + intros (w & Hr & <-). assert (w ∈ l /\ rev_name w ∈ s) as [_ H]; [|exact H].
      assert (forall v w, rtc (parent_in l) v w -> v ∈ l /\ rev_name v ∈ s -> w ∈ l /\ rev_name w ∈ s) as Hgen.
      { induction 1 as [|x y z Hxy _ IH]; [done|]. intros [Hx Hxs]. apply IH. split; [|by eapply Hcl].
        destruct Hxy as (p & _ & Hp). by apply by_name_in in Hp as [? _]. }
      eapply Hgen; [exact Hr|]. split; [done|by apply Hin].
Qed.

(** ** Retention *)

Definition pruned_revision (e : event) : option WorkspaceRevision :=
  match e with
  | Ev (CCtl (KDelete k o _)) _ => match k return object k -> option WorkspaceRevision with KRevision => Some | _ => fun _ => None end o
  | _ => None
  end.
Definition pruned (t : trace) : list WorkspaceRevision := omap pruned_revision t.

Lemma pruned_app t t' : pruned (t ++ t') = pruned t ++ pruned t'.
Proof. apply omap_app. Qed.

(** Pruning deletes the oldest revisions that may go, no more than the excess; on
    an error it stops, at a revision the deletion of which failed. *)
Lemma prune_adds ws protected now l n :
  adds (prune ws protected now l n) (fun x ext =>
    let due := take n (List.filter (prunable ws protected now) l) in
    pruned ext `prefix_of` due /\ (is_ok x = true -> pruned ext = due)).
Proof.
  revert n. induction l as [|v l IH]; intros n; cbn [prune List.filter]; [apply adds_ret; by destruct n|].
  destruct n as [|n]; [by apply adds_ret|]. destruct (prunable ws protected now v); [|apply IH]. cbn [take].
  eapply (adds_try _ _ (fun x ext => pruned ext = [v])); [by apply adds_ask| |].
  - intros [] e1 He1. eapply adds_mono; [apply (IH n)|]. intros x e2 [Hp Hx]. cbv zeta. rewrite pruned_app, He1. split.
    + by apply prefix_cons.
    + intros Hok. by rewrite (Hx Hok).
  - intros e e1 ->. split; [|done]. apply prefix_cons, prefix_nil.
Qed.

(** The revisions that retention is to delete. *)
Definition due (ws : Workspace) (committed : list WorkspaceRevision) (kept_back : WorkspaceRevision -> bool) : list WorkspaceRevision :=
  if RetentionRevisions ws <=? 0 then []
  else take (length committed - Z.to_nat (RetentionRevisions ws))
         (List.filter (fun v => negb (kept_back v)) (sort_by revisionLess committed)).

Lemma retention_adds ws committed head protected :
  headLineage committed head = Some protected -> Z.of_nat (length committed) < 2 ^ 31 ->
  adds (enforceRetention ws committed head) (fun x ext => exists now,
    let l := due ws committed (fun v => negb (prunable ws protected now v)) in
    pruned ext `prefix_of` l /\ (is_ok x = true -> pruned ext = l)).
Proof.
  intros Hp Hlen. unfold enforceRetention, due. cbv zeta. rewrite Hp, (i32_small (Z.of_nat _)) by (unfold is_i32; lia).
  destruct (Z.leb_spec (RetentionRevisions ws) 0) as [Hk|Hk]; cbn [orb]; [apply adds_ret; by exists 0|].
  destruct (Z.leb_spec (Z.of_nat (length committed)) (RetentionRevisions ws)) as [Hc|Hc].
  { apply adds_ret. exists 0. replace (length committed - _)%nat with 0%nat by lia. done. }
  eapply adds_bind; [apply (adds_sys CNow)|]. intros now e1 ->. eapply adds_mono; [apply prune_adds|]. intros x ext H. cbv zeta in H.
  exists now. rewrite i32_small in H by (unfold is_i32; lia).
  replace (Z.to_nat (Z.of_nat (length committed) - RetentionRevisions ws)) with (length committed - Z.to_nat (RetentionRevisions ws))%nat in H by lia.
  by rewrite (List.filter_ext _ (prunable ws protected now)) by (intros; apply negb_involutive).
Qed.

Lemma due_length ws committed kept_back :
  0 < RetentionRevisions ws -> (length (due ws committed kept_back) <= length committed - Z.to_nat (RetentionRevisions ws))%nat.
Proof. intros H. unfold due. rewrite (proj2 (Z.leb_gt _ _)) by done. rewrite length_take. lia. Qed.


End WorkspaceFacts.
