(* ===== verification/WorkspaceSafety.v ===== *)
(** What the workspace controller may do to revisions.

    - [WorkspaceGuard]: when a revision may be committed, created or deleted, and
      what the status may say, in terms of the calls made before; every reconcile
      and every verb keeps to it.
    - [WorkspaceExamples]: the theorems applied to small workspaces, and what the
      controller does not achieve. *)
From S2P Require Import Prelude GoLib GoFs Scheduler Autoscale Gc Cas Wire Host Guarded Controller ClaimController WorkspaceController.
#[local] Open Scope go_scope.

Module WorkspaceGuard.
Import Registry Chunk Kube Ctl Binding Workspaces WorkspaceFacts.

Abbreviation ev q x := (Ev (CCtl q) x).

(** The committed revisions of a workspace in a listing of its namespace. *)
Definition committed_of (ws : Workspace) (l : list WorkspaceRevision) : list WorkspaceRevision :=
  committedRevisions (List.filter (fun v => String.eqb (rv_WorkspaceRef (rv_spec v)) (Name (ws_meta ws))) l).

Definition listed (ws : Workspace) (l : list WorkspaceRevision) (t : trace) : Prop :=
  ev (KList KRevision (Namespace (ws_meta ws)) []) (Some l) ∈ t.

(** The revision comes from no other, or from one that was found in the workspace
    that it names. *)
Definition resolved (v : WorkspaceRevision) (t : trace) : Prop :=
  match FromWorkspaceRevision (rv_spec v) with
  | None => True
  | Some src => exists parent, ev (KGet KRevision (Namespace (rv_meta v)) (rr_Revision src)) (Found parent) ∈ t /\
                  rv_WorkspaceRef (rv_spec parent) = rr_Workspace src
  end.

Section guard.
Context (memory : option Hooks).

(** Only the status of a revision changes, from committed to nothing else, and to
    committed only with the digest of a manifest and a lineage that resolves. *)
Definition driven (v v' : WorkspaceRevision) (t : trace) : Prop :=
  rv_meta v' = rv_meta v /\ rv_spec v' = rv_spec v /\
  (rv_Phase (rv_status v) = WorkspaceRevisionCommitted -> rv_Phase (rv_status v') = WorkspaceRevisionCommitted) /\
  (rv_Phase (rv_status v') = WorkspaceRevisionCommitted ->
   rv_Phase (rv_status v) = WorkspaceRevisionCommitted \/ Validate (ContentManifest (rv_spec v)) = true /\ resolved v t).

(** The status names the head of a listing; it calls it resumable only if its
    memory snapshot was found. *)
Definition reported (ws ws' : Workspace) (t : trace) : Prop :=
  exists l, listed ws l t /\ Head (ws_status ws') = headName (headRevision (committed_of ws l)) /\
    Revisions (ws_status ws') = i32 (Z.of_nat (length (committed_of ws l))) /\
    (Resumable (ws_status ws') = true -> exists v ref, headRevision (committed_of ws l) = Some v /\
       MemorySnapshotRef (rv_spec v) = Some ref /\ ev (KSnapshotPresent ref) (Some true) ∈ t).

(** The revision deleted is a committed one of a listing, neither its head nor on
    the head's lineage. *)
Definition deletable (v : WorkspaceRevision) (t : trace) : Prop :=
  exists ws l head protected, listed ws l t /\ v ∈ committed_of ws l /\
    head = headRevision (committed_of ws l) /\ headLineage (committed_of ws l) head = Some protected /\ rev_name v ∉ protected.

(** The revision created has the content of a committed one. *)
Definition branched (v : WorkspaceRevision) (t : trace) : Prop :=
  exists ns src nm dst parent ws, v = fork_revision ns src nm dst (ContentManifest (rv_spec parent)) /\
    ev (KGet KRevision ns nm) (Found parent) ∈ t /\ ev (KGet KWorkspace ns dst) (Found ws) ∈ t /\
    rv_WorkspaceRef (rv_spec parent) = src /\ rv_Phase (rv_status parent) = WorkspaceRevisionCommitted /\
    Validate (ContentManifest (rv_spec parent)) = true.

Definition workspace_ok (t : trace) (c : call) : Prop :=
  match c with
  | CCtl (KPatchStatus k base new) =>
      match k return object k -> object k -> Prop with
      | KRevision => fun v v' => driven v v' t
      | KWorkspace => fun ws ws' => reported ws ws' t
      | _ => fun _ _ => False
      end base new
  | CCtl (KPatch k base new _) =>
      match k return object k -> object k -> Prop with
      | KRevision => fun v v' => rv_spec v' = rv_spec v /\ rv_status v' = rv_status v
      | _ => fun _ _ => False
      end base new
  | CCtl (KDelete k o _) => match k return object k -> Prop with KRevision => fun v => deletable v t | _ => fun _ => False end o
  | CCtl (KCreate k o) => match k return object k -> Prop with KRevision => fun v => branched v t | _ => fun _ => False end o
  | CCtl (KUpdate _ _ | KUpdateStatus _ _ | KForkd _ _ | KHusk _ _) => False
  | _ => True
  end.
Abbreviation keeps_guard := (guarded workspace_ok).
Abbreviation keeps_to p := (keeps_guard p (fun _ _ => True)).

(** Calls that are always allowed. *)
Definition harmless (c : call) : Prop := forall t, workspace_ok t c.
#[local] Hint Extern 1 (harmless _) => by intros ? : prog.
Lemma harmless_guarded {G A} (p : prog G A) t : calls_in harmless p -> keeps_guard p (fun _ t' => t `prefix_of` t') t.
Proof. intros Hp. eapply guarded_mono; [by apply guarded_calls|]. intros a t' (ext & -> & _). by apply prefix_app_r. Qed.

Lemma revisions_listed_prefix ws l t t' : t `prefix_of` t' -> listed ws l t -> listed ws l t'.
Proof. apply in_prefix. Qed.

Lemma resolved_prefix v t t' : t `prefix_of` t' -> resolved v t -> resolved v t'.
Proof.
  unfold resolved. intros Hp. destruct (FromWorkspaceRevision (rv_spec v)) as [src|]; [|done].
  intros (parent & Hin & H). exists parent. split; [by eapply in_prefix|done].
Qed.

(** ** Driving revisions *)

Section quoting.
Context (quoted : string -> string).

Lemma validateLineage_guarded {v} t :
  keeps_guard (validateLineage quoted v) (fun x t' => t `prefix_of` t' /\ (is_ok x = true -> resolved v t')) t.
Proof.
  unfold validateLineage, resolved. destruct (FromWorkspaceRevision (rv_spec v)) as [src|]; [|by apply guarded_ret].
  apply guarded_bind. unfold Get. apply guarded_bind, guarded_sys; [done|]. intros y. apply guarded_ret, guarded_ret.
  split; [by apply prefix_snoc|]. destruct y as [parent| |]; [|done..]. cbn [fetched]. case_match eqn:Hw; [done|].
  intros _. exists parent. split; [apply last_in|]. by apply negb_false_iff, String.eqb_eq in Hw.
Qed.

Lemma desired_committed v ok :
  desired_phase v ok = WorkspaceRevisionCommitted ->
  rv_Phase (rv_status v) = WorkspaceRevisionCommitted \/ Validate (ContentManifest (rv_spec v)) = true /\ ok = true.
Proof.
  unfold desired_phase. destruct (String.eqb_spec (rv_Phase (rv_status v)) WorkspaceRevisionCommitted) as [H|_]; [by left|].
  destruct (negb _ && Validate _ && ok) eqn:H; [|done]. apply andb_prop in H as [[_ H]%andb_prop ->]. by right.
Qed.

Lemma committed_stays v ok :
  rv_Phase (rv_status v) = WorkspaceRevisionCommitted -> desired_phase v ok = WorkspaceRevisionCommitted.
Proof. intros H. unfold desired_phase. by rewrite H. Qed.

Lemma reconcileRevision_guarded v t : keeps_guard (reconcileRevision quoted v) (fun _ t' => t `prefix_of` t') t.
Proof.
  apply guarded_bind. eapply guarded_mono; [apply validateLineage_guarded|]. intros x t1 [Hp1 Hr]. cbv zeta.
  case_match; [|by apply guarded_ret]. apply guarded_bind, guarded_sys; [done|]. intros now. apply guarded_try.
  unfold StatusPatch. apply guarded_bind, guarded_sys.
  - split; [done|]. split; [done|]. split; [intros Hc; by apply committed_stays|]. intros Hc.
    destruct (desired_committed _ _ Hc) as [?|[Hv Hok]]; [by left|right]. split; [done|].
    eapply (resolved_prefix _ t1); [by apply prefix_snoc|by apply Hr].
  - intros y. apply guarded_ret. destruct (written y); [apply guarded_ret|]; by do 2 apply prefix_snoc.
Qed.

Lemma adoptRevision_guarded v ws t : keeps_guard (adoptRevision v ws) (fun _ t' => t `prefix_of` t') t.
Proof.
  unfold adoptRevision. case_match; [by apply guarded_ret|]. case_match; [|by apply guarded_ret].
  unfold Patch. apply guarded_bind, guarded_sys; [done|]. intros x. apply guarded_ret. by apply prefix_snoc.
Qed.

Lemma drive_guarded ws revs ok t : keeps_guard (drive quoted ws revs ok) (fun _ t' => t `prefix_of` t') t.
Proof.
  revert ok t. induction revs as [|v revs IH]; intros ok t; cbn [drive]; [by apply guarded_ret|].
  apply guarded_try. eapply guarded_mono; [apply adoptRevision_guarded|]. intros [v'|e] t1 Hp1; cbv beta in Hp1; [|done].
  apply guarded_try. eapply guarded_mono; [apply reconcileRevision_guarded|]. intros [ok'|e] t2 Hp2; cbv beta in Hp2; [|by etrans].
  eapply guarded_mono; [apply IH|]. intros x t3 Hp3. cbv beta in Hp3. by do 2 (etrans; [eassumption|]).
Qed.

(** ** Reading and pruning *)

Lemma workspaceRevisions_guarded {ws} t :
  keeps_guard (workspaceRevisions ws) (fun x t' => t `prefix_of` t' /\ forall revs, x = Ok revs ->
    exists l, listed ws l t' /\ committedRevisions revs = committed_of ws l) t.
Proof.
  unfold workspaceRevisions, List_. apply guarded_try, guarded_bind, guarded_sys; [done|]. intros x. apply guarded_ret.
  destruct x as [l|]; [apply guarded_ret|]; (split; [by apply prefix_snoc|]); [|done]. intros revs [= <-]. exists l. split; [apply last_in|done].
Qed.

Lemma head_resumable_guarded head t :
  keeps_guard (head_resumable memory head) (fun b t' => t `prefix_of` t' /\ (b = true -> exists v ref, head = Some v /\
    MemorySnapshotRef (rv_spec v) = Some ref /\ ev (KSnapshotPresent ref) (Some true) ∈ t')) t.
Proof.
  unfold head_resumable. destruct head as [v|]; [|by apply guarded_ret].
  destruct (MemorySnapshotRef (rv_spec v)) as [ref|] eqn:Href; [|by apply guarded_ret]. apply guarded_bind.
  unfold memorySnapshotExists. destruct memory as [hk|]; [|by do 2 apply guarded_ret].
  unfold Exists_. apply guarded_bind, guarded_atomic. intros bound. destruct (match bound with Some p => _ | None => _ end); [by do 2 apply guarded_ret|].
  destruct (negb (SnapshotPresent hk)); [by do 2 apply guarded_ret|]. apply guarded_some_or, guarded_sys; [done|]. intros x.
  destruct x as [b|]; apply guarded_ret; (split; [by apply prefix_snoc|]); [|done]. intros ->. exists v, ref.
  split; [done|]. split; [done|]. apply last_in.
Qed.

Lemma prune_guarded ws0 l ws protected now revs n t :
  listed ws0 l t -> headLineage (committed_of ws0 l) (headRevision (committed_of ws0 l)) = Some protected ->
  (forall v, v ∈ revs -> v ∈ committed_of ws0 l) -> keeps_to (prune ws protected now revs n) t.
Proof.
  intros Hl Hp. revert n t Hl. induction revs as [|v revs IH]; intros n t Hl Hin; cbn [prune]; [by destruct n|].
  destruct n as [|n]; [done|]. assert (forall v, v ∈ revs -> v ∈ committed_of ws0 l) as Hin' by (intros; apply Hin; by right).
  destruct (prunable ws protected now v) eqn:Hpr; [|by apply IH]. apply guarded_try. unfold Delete. apply guarded_bind, guarded_sys.
  - exists ws0, l, (headRevision (committed_of ws0 l)), protected. split; [done|]. split; [apply Hin; left|]. split; [done|].
    split; [done|]. unfold prunable in Hpr. apply andb_prop in Hpr as [Hpr _]. by apply negb_true_iff, bool_decide_eq_false in Hpr.
  - intros x. apply guarded_ret. destruct (written x); [|done]. apply IH; [|done]. eapply revisions_listed_prefix; [|exact Hl]. by apply prefix_snoc.
Qed.

Lemma enforceRetention_guarded ws0 l ws t :
  listed ws0 l t -> keeps_to (enforceRetention ws (committed_of ws0 l) (headRevision (committed_of ws0 l))) t.
Proof.
  intros Hl. unfold enforceRetention. case_match; [done|]. destruct (headLineage _ _) as [protected|] eqn:Hp; [|done].
  apply guarded_bind, guarded_sys; [done|]. intros now. eapply prune_guarded; [|exact Hp|].
  - eapply revisions_listed_prefix; [|exact Hl]. by apply prefix_snoc.
  - intros v Hv. by rewrite sort_by_perm in Hv.
Qed.

(** ** The reconcile and the verbs *)

Lemma workspace_Reconcile_guarded namespace nm : keeps_to (Reconcile quoted memory namespace nm) [].
Proof.
  apply guarded_bind, guarded_sys; [done|]. intros [ws| |]; [|exact I..]. apply guarded_try.
  eapply guarded_mono; [apply workspaceRevisions_guarded|]. intros [revs|e] t1 _; [|done]. apply guarded_try.
  eapply guarded_mono; [apply drive_guarded|]. intros [ok|e] t2 _; [|done]. apply guarded_try.
  eapply guarded_mono; [apply workspaceRevisions_guarded|]. intros [revs'|e] t3 [_ Hl]; [|done].
  destruct (Hl _ eq_refl) as (l & Hlist & Heq). cbv zeta. rewrite Heq. clear Heq Hl. apply guarded_bind.
  eapply guarded_mono; [apply head_resumable_guarded|]. intros resumable t4 [Hp4 Hres]. apply (revisions_listed_prefix _ _ _ _ Hp4) in Hlist.
  apply guarded_bind, guarded_sys; [done|]. intros now. set (t5 := t4 ++ _). assert (t4 `prefix_of` t5) as Hp5 by (by apply prefix_snoc).
  clearbody t5. apply guarded_try. unfold StatusPatch. apply guarded_bind, guarded_sys.
  - exists l. split; [by eapply revisions_listed_prefix|]. split; [done|]. split; [done|]. intros Hr. destruct (Hres Hr) as (v & ref & Hv & Href & Hin).
    exists v, ref. split; [done|]. split; [done|]. by eapply in_prefix.
  - intros x. apply guarded_ret. destruct (written x); [|done]. apply guarded_bind.
    eapply guarded_mono; [apply enforceRetention_guarded; eapply revisions_listed_prefix; [|exact Hlist]|by intros].
    etrans; [exact Hp5|]. by apply prefix_snoc.
Qed.
End quoting.

Lemma Fork_guarded {G} ns src nm dst : keeps_to (Fork (G := G) ns src nm dst) [].
Proof.
  unfold Fork, Get, Create. apply guarded_bind, guarded_bind, guarded_sys; [done|]. intros x. apply guarded_ret.
  destruct x as [parent| |]; [|done..]. cbn [fetched]. cbv zeta. case_match eqn:Hw; [done|]. case_match eqn:Hc; [done|].
  apply guarded_bind, guarded_bind, guarded_sys; [done|]. intros y. apply guarded_ret. destruct y as [ws| |]; [|done..]. cbn [fetched].
  apply guarded_bind, guarded_bind, guarded_sys; [|by intros]. apply orb_false_iff in Hc as [Hph Hv].
  exists ns, src, nm, dst, parent, ws. split; [done|]. split; [set_solver|]. split; [set_solver|].
  split; [by apply negb_false_iff, String.eqb_eq in Hw|]. split; [by apply negb_false_iff, String.eqb_eq in Hph|].
  by apply negb_false_iff in Hv.
Qed.

(** The requests. *)
Inductive request :=
| RReconcile (namespace name : string)
| RFork (namespace srcWorkspace srcRevision dstWorkspace : string)
| RRevert (namespace workspace targetRevision : string).
Definition serve (quoted : string -> string) (q : request) : prog controller unit :=
  match q with
  | RReconcile ns nm => _ ← Reconcile quoted memory ns nm; mret tt
  | RFork ns src nm dst => _ ← Fork ns src nm dst; mret tt
  | RRevert ns ws nm => _ ← Revert ns ws nm; mret tt
  end.
End guard.

(** A listing names no revision twice. *)
Definition names_once (_ : trace) (c : call) : answer c -> bool :=
  match c return answer c -> bool with
  | CCtl q =>
      match q return kanswer q -> bool with
      | KList k _ _ =>
          match k return option (list (object k)) -> bool with
          | KRevision => fun x => match x with Some l => bool_decide (NoDup (map rev_name l)) | None => true end
          | _ => fun _ => true
          end
      | _ => fun _ => true
      end
  | _ => fun _ => true
  end.

Lemma filter_names (f : WorkspaceRevision -> bool) l : NoDup (map rev_name l) -> NoDup (map rev_name (List.filter f l)).
Proof.
  induction l as [|v l IH]; [done|]. cbn. intros [Hv Hl]%list.NoDup_cons. destruct (f v); cbn; [|by apply IH].
  apply list.NoDup_cons. split; [|by apply IH]. rewrite list_elem_of_In, in_map_iff. intros (w & Hn & [Hw _]%List.filter_In).
  apply Hv. rewrite list_elem_of_In, in_map_iff. by exists w.
Qed.

Lemma deletable_kept v ws l protected :
  v ∈ committed_of ws l -> NoDup (map rev_name l) ->
  headLineage (committed_of ws l) (headRevision (committed_of ws l)) = Some protected -> rev_name v ∉ protected ->
  exists head, headRevision (committed_of ws l) = Some head /\
    forall w, rtc (parent_in (committed_of ws l)) head w -> rev_name w <> rev_name v.
Proof.
  intros Hv Hnd Hp Hnot. destruct (headRevision (committed_of ws l)) as [head|] eqn:Hh.
  2: { destruct (committed_of ws l); [by apply elem_of_nil in Hv|done]. }
  exists head. split; [done|]. intros w Hw Heq. destruct (headLineage_reached (committed_of ws l) head) as (s & Hs & Hreach).
  - by apply filter_names, filter_names.
  - by apply headRevision_max in Hh as [? _].
  - rewrite Hp in Hs. injection Hs as ->. apply Hnot, Hreach. by exists w.
Qed.

(** C16. Revisions are kept.  However reconciles and verbs interleave, as long as no
    listing names a revision twice:
    - a committed revision stays committed, and one becomes committed only with a
      well-formed content digest and a lineage edge that was just resolved;
    - what a revision holds never changes;
    - a deleted revision was a committed one of a listing just made, and neither its
      head nor an ancestor of the head;
    - a revision is created only as a branch of a committed one, with its content;
    - the status names the head and count of a listing, and calls the head resumable
      only when its memory snapshot was found. *)
Theorem workspace_revisions_kept memory quoted requests g n :
  rtc (pool_step (fun t c x => names_once t c x = true)) (mkNode (serve memory quoted <$> requests) g []) n ->
  exists tt : tagged, n_trace n = tt.*2 /\
  forall pre i c x post, tt = pre ++ (i, Ev c x) :: post ->
    workspace_ok (own i pre) c /\
    forall v gr, c = CCtl (KDelete KRevision v gr) ->
      exists ws l head, listed ws l (own i pre) /\ v ∈ committed_of ws l /\ headRevision (committed_of ws l) = Some head /\
        forall w, rtc (parent_in (committed_of ws l)) head w -> rev_name w <> rev_name v.
Proof.
  intros Hrtc. destruct (pool_guarded (fun t c x => names_once t c x = true) workspace_ok (serve memory quoted <$> requests) g n) as (tt & Ht & Hok); [|exact Hrtc|].
  { apply Forall_forall. intros p (q & <- & _)%in_map_iff. destruct q; apply guarded_bind; unfold Revert.
    - apply workspace_Reconcile_guarded.
    - eapply guarded_mono; [apply Fork_guarded|done].
    - eapply guarded_mono; [apply Fork_guarded|done]. }
  exists tt. split; [done|]. intros pre i c x post Heq. destruct (Hok _ _ _ _ _ Heq) as [Hc _]. split; [done|].
  intros v gr ->. destruct Hc as (ws & l & head & protected & Hl & Hv & -> & Hp & Hnot).
  destruct (deletable_kept v ws l protected) as (head & Hh & Hkept); [done| |done..|by exists ws, l, head].
  apply own_tagged, list_elem_of_split in Hl as (pre1 & post1 & Hpre). subst pre. rewrite <-app_assoc in Heq.
  destruct (Hok _ _ _ _ _ Heq) as [_ Hal]. by apply bool_decide_eq_true in Hal.
Qed.

End WorkspaceGuard.

Module WorkspaceExamples.
Import Registry Warm Chunk Kube Ctl Binding Workspaces WorkspaceFacts WorkspaceGuard.

Definition meta (nm : string) (at_ : time) : ObjectMeta := mkMeta "team" nm EmptyString ("uid-" +:+ nm) 1 1 ∅ ∅ [] [] at_ None.
Definition digest : string := "aaaaaaaaaaaaaaaaaaaaaaaaaaaaaaaaaaaaaaaaaaaaaaaaaaaaaaaaaaaaaaaa".
Definition revision (ws nm : string) (at_ : Z) (parent : option (string * string)) (phase : string) : WorkspaceRevision :=
  mkRevision (meta nm (Some at_))
    (mkRevisionSpec ws EmptyString ((fun p => mkRevisionRef p.1 p.2) <$> parent) digest None None) (mkRevisionStatus phase None [] [] 0).
Definition workspace (nm : string) (keep : Z) : Workspace :=
  mkWorkspace (meta nm None) (mkWorkspaceGit [] None EmptyString) keep None (mkWorkspaceStatus EmptyString 0 false [] 0).

(** An API server that stores revisions; a revision is created at the time of the
    call, under a name with the given suffix. *)
Definition replace (v : WorkspaceRevision) (l : list WorkspaceRevision) : list WorkspaceRevision :=
  map (fun w => if String.eqb (rev_name w) (rev_name v) then v else w) l.
Definition store (keep now : Z) (suffix : string) : env (list WorkspaceRevision) := fun q l =>
  match q return answer q * list WorkspaceRevision with
  | CNow => (now, l)
  | CCtl (KGet k _ nm) =>
      (match k return get_result (object k) with
       | KWorkspace => Found (workspace nm keep)
       | KRevision => match List.find (fun w => String.eqb (rev_name w) nm) l with Some v => Found v | None => NotFound end
       | _ => NotFound
       end, l)
  | CCtl (KList k _ _) => (match k return option (list (object k)) with KRevision => Some l | _ => Some [] end, l)
  | CCtl (KPatch k _ o _) =>
      match k return object k -> write_result (object k) * list WorkspaceRevision with
      | KRevision => fun v => (Written v, replace v l) | _ => fun o => (Written o, l) end o
  | CCtl (KPatchStatus k _ o) =>
      match k return object k -> write_result (object k) * list WorkspaceRevision with
      | KRevision => fun v => (Written v, replace v l) | _ => fun o => (Written o, l) end o
  | CCtl (KDelete k o _) =>
      (Written tt, match k return object k -> list WorkspaceRevision with
                   | KRevision => fun v => List.filter (fun w => negb (String.eqb (rev_name w) (rev_name v))) l | _ => fun _ => l end o)
  | CCtl (KCreate k o) =>
      match k return object k -> write_result (object k) * list WorkspaceRevision with
      | KRevision => fun v =>
          let v := mkRevision (meta (GenerateName (rv_meta v) +:+ suffix) (Some now)) (rv_spec v) (rv_status v) in (Written v, l ++ [v])
      | _ => fun o => (Written o, l)
      end o
  | q => let '(x, _) := obliging q 0 in (x, l)
  end.

Definition idle : controller := mkController (mkRegistry ∅ None (f64_of_int 1)) (mkDemand ∅) ∅ ∅.
Definition quote (s : string) : string := s.
Definition reconcile (keep : Z) (ws : string) (l : list WorkspaceRevision) :=
  run (store keep 100 "x") (Reconcile quote None "team" ws) idle l.

(** What the status of the workspace became: the head, the count and the reason. *)
Definition status (t : trace) : list (string * Z * list string) :=
  omap (fun e => match e with
                 | Ev (CCtl (KPatchStatus k _ o)) _ =>
                     match k return object k -> option (string * Z * list string) with
                     | KWorkspace => fun w => Some (Head (ws_status w), Revisions (ws_status w), map Gc.cond_Reason (ws_Conditions (ws_status w)))
                     | _ => fun _ => None
                     end o
                 | _ => None
                 end) t.

Definition history : list WorkspaceRevision :=
  [revision "dev" "dev-c" 30 None WorkspaceRevisionCommitted; revision "dev" "dev-a" 10 None WorkspaceRevisionCommitted;
   revision "dev" "dev-b" 20 (Some ("dev", "dev-a")) WorkspaceRevisionCommitted; revision "dev" "dev-d" 30 None WorkspaceRevisionCommitted].

Lemma headRevision_sorted_witness :
  headName (headRevision history) = "dev-d" /\ headRevision history = list.last (sort_by revisionLess history).
Proof. split; [vm_compute; reflexivity|]. apply headRevision_sorted. by apply (bool_decide_unpack _). Defined.

(** A revert and a reconcile of a workspace that keeps two revisions. *)
Abbreviation two_requests := (serve None quote <$> [RRevert "team" "dev" "dev-a"; RReconcile "team" "dev"]).
Definition reverting : node controller :=
  (schedule (store 2 100 "x") (replicate 3 0%nat ++ replicate 40 1%nat) (mkNode two_requests idle []) history).1.

Lemma workspace_revisions_kept_witness :
  (status (n_trace reverting), map rev_name (pruned (n_trace reverting)))
    = ([("dev-x", 5, [ReasonWorkspaceReady])], ["dev-b"; "dev-c"; "dev-d"]) /\
  exists tt : tagged, n_trace reverting = tt.*2 /\
  forall pre i c x post, tt = pre ++ (i, Ev c x) :: post ->
    workspace_ok (own i pre) c /\
    forall v gr, c = CCtl (KDelete KRevision v gr) ->
      exists ws l head, listed ws l (own i pre) /\ v ∈ committed_of ws l /\ headRevision (committed_of ws l) = Some head /\
        forall w, rtc (parent_in (committed_of ws l)) head w -> rev_name w <> rev_name v.
Proof.
  split; [vm_compute; reflexivity|].
  assert (rtc (pool_step (fun t c x => names_once t c x = true)) (mkNode two_requests idle []) reverting) as Hrtc
    by (apply passes_rtc; vm_compute; reflexivity).
  generalize dependent reverting. intros n Hrtc. by apply workspace_revisions_kept in Hrtc.
Defined.

(** *** What the controller does not achieve *)

(** Retention may prune the parent of a revision it keeps, since only the lineage of
    the head is protected: here dev-b is kept and dev-a, which it comes from, is
    pruned.  The next reconcile then finds a broken edge and degrades the
    workspace. *)
Example retention_breaks_lineage :
  let '(_, _, l, t) := reconcile 3 "dev" history in
  let '(_, _, _, t') := reconcile 3 "dev" l in
  (map rev_name l, status t, status t')
    = (["dev-c"; "dev-b"; "dev-d"], [("dev-d", 4, [ReasonWorkspaceReady])], [("dev-d", 3, [ReasonWorkspaceDegraded])]).
Proof. vm_compute. reflexivity. Qed.

(** The same for a workspace that was forked from another. *)
Example retention_breaks_a_fork :
  let l := [revision "dev" "dev-a" 10 None WorkspaceRevisionCommitted; revision "dev" "dev-b" 20 None WorkspaceRevisionCommitted] in
  let '(_, _, l, _) := run (store 1 100 "x") (Fork "team" "dev" "dev-a" "branch") idle l in
  let '(_, _, l, t) := reconcile 1 "branch" l in
  let '(_, _, l, _) := reconcile 1 "dev" l in
  let '(_, _, _, t') := reconcile 1 "branch" l in
  (status t, status t') = ([("branch-x", 1, [ReasonWorkspaceReady])], [("branch-x", 1, [ReasonWorkspaceDegraded])]).
Proof. vm_compute. reflexivity. Qed.

(** A revert within the second of the head's creation becomes the head only if the
    suffix it is given sorts after the head's. *)
Example revert_behind_the_head :
  let l := [revision "dev" "dev-a" 10 None WorkspaceRevisionCommitted; revision "dev" "dev-m" 100 None WorkspaceRevisionCommitted] in
  let head suffix :=
    let '(_, _, l, _) := run (store 0 100 suffix) (Revert "team" "dev" "dev-a") idle l in
    let '(_, _, _, t) := reconcile 0 "dev" l in map (fun s => s.1.1) (status t) in
  (head "c", head "x") = (["dev-m"], ["dev-x"]).
Proof. vm_compute. reflexivity. Qed.

(** A committed revision whose manifest is replaced by another digest stays
    committed, with the new content. *)
Example committed_content_replaced :
  let v := revision "dev" "dev-a" 10 None WorkspaceRevisionCommitted in
  let other := mkRevisionSpec "dev" EmptyString None "bbbbbbbbbbbbbbbbbbbbbbbbbbbbbbbbbbbbbbbbbbbbbbbbbbbbbbbbbbbbbbbb" None None in
  let '(_, _, l, t) := reconcile 0 "dev" [mkRevision (rv_meta v) other (rv_status v)] in
  (map (fun v => (rv_Phase (rv_status v), map Gc.cond_Message (rv_Conditions (rv_status v)))) l, status t)
    = ([(WorkspaceRevisionCommitted, ["contentManifest is a valid content-addressed digest"])], [("dev-a", 1, [ReasonWorkspaceReady])]).
Proof. vm_compute. reflexivity. Qed.
End WorkspaceExamples.
